(* ===== verification/_CoqProject ===== *)
-Q . S2P
Prelude.v
Limbs.v
Ct.v
X25519.v
Buf.v
Writer.v
Reader.v
MdHash.v
Sha256.v
Sha512.v
Sha1.v
Chacha20.v
Poly1305.v
Drbg.v
Pem.v
Der.v
WebTime.v
Build.v
Wire.v
WebName.v
Aead.v
Hkdf.v
Keysched.v
Record.v
QuicPacket.v
Cookie.v
HsParser.v
HsParserEe.v
SrvExt.v
SrvParser.v
HsMessage.v
Hello.v
Cmd.v
ClientCfg.v
HsRecord.v
HsFlight.v
TcpClient.v
TcpProto.v
TcpSession.v
TcpLive.v
TcpHandshake.v
Conn.v
ConnRecv.v
ConnSafe.v
ConnLife.v
ConnWire.v
