(* ===== verification/Prelude.v ===== *)
(** * chapulin: a verification development

    chapulin is a TLS 1.3 library for small devices: portable C with no heap, a
    client and a server, over TCP or QUIC, and every primitive it needs.  This
    development models the portable core of it in Rocq and proves it correct.
    All paths below are relative to src/ of the repository.

    ** The parts, and where they are modelled

    Machine arithmetic and buffers.
    - [Prelude]: unsigned words as [Z] with their wraps written out ([+32],
      [<<64], ...), bytes, big-endian integers, stores into memory.
    - [Limbs]: 64-bit words of signed limbs, the lemmas [X25519] needs.
    - [Ct]: src/ct.c, ct.h, ct_wipe.c, softmul.c, the constant-time helpers.
    - [Buf], [Writer], [Reader]: src/buf.h, buf.c.  [Buf] is the C reader and
      writer; [Reader] runs parsers written as programs of reads over the cursor
      and over a list and shows both agree; [Writer] does so for builders.

    Cryptography.
    - [MdHash], [Sha256], [Sha512], [Sha1]: src/sha256.c, sha512.c,
      sha512_compress.c, sha1.c over one model of block buffering.
    - [Chacha20], [Poly1305], [Aead]: src/chacha20.c, poly1305.c, aead.c.
      [Aead] also states the interface [AeadOps]/[AeadLaws]: the record and
      packet layers are proved against it and the file discharges it.
    - [X25519]: src/x25519.c.   [Drbg]: src/drbg.c.
    - [Hkdf], [Keysched]: src/hkdf.c, keysched.c.

    Encodings.
    - [Pem], [Der], [WebTime], [WebName]: src/pem.c and base64.c, x509_der.c,
      webpki_time.c, webpki_name.c.

    Records, packets, tokens.
    - [Record]: src/record.c.   [QuicPacket]: src/quic_packet.c.
    - [Cookie]: src/srv_cookie.c and quic_token.c.

    Handshake messages.  [Build] is the build's macros as a parameter, [Wire]
    the extension block and the code points.
    - [HsParser], [HsParserEe]: src/handshake_parser.c, handshake_parser_ee.c.
    - [SrvExt], [SrvParser]: src/srv_parser_ext.c, srv_parser.c.
    - [HsMessage]: src/handshake_message.c; [Hello] composes it with [SrvParser].

    The non-blocking client: src/tcp_nonblocking*.c over handshake_record.c,
    handshake_flight.c, handshake_auth.c, transcript.h and the configuration
    rules of tls.c and handshake_post.h.
    - [Cmd]: a C function that changes a struct and returns a code, as a state
      and error command, with its weakest precondition.
    - [ClientCfg]: the configuration and its rules.
    - [HsRecord]: the session ([ch_tls] for [ch_tls_priv], [handshake_state])
      and the queue of unread handshake bytes.
    - [HsFlight]: one command per handler, with what each accepts.
    - [TcpClient]: the driver, every call of it.
    - [TcpProto]: the handshake as a machine over messages ([proto], [accepts],
      [reached]) and the simulation [advance_wp]: a step of the driver is a step
      of the machine, in both directions.
    - [TcpSession]: what a session is between calls; [TcpLive]: an honest
      flight is carried to the end; [TcpHandshake]: the theorems.

    The connected session: src/tls.c (read and close), tls_write.c,
    handshake_post.c, session.c, io.c.
    - [Conn]: every call on it, over a [Transport]: the caller's send, recv and
      on_ticket callbacks, a parameter of the model.
    - [ConnRecv]: the laws asked of a transport and one in pieces that keeps
      them ([wire]); the bytes a transport gave ([came]); and the receive side as
      a machine over those bytes ([reading]), which they decide ([reading_agree]).
    - [ConnSafe]: the session's invariant ([running], [over]), and every call
      against it and that machine ([delivers]).
    - [ConnWire]: two sessions, one writing to the other; what a write costs.
    - [ConnLife]: a session from its handshake to its end.

    They interact as the code does: [Tcp.tcp_in] splits records off the input,
    opens them with [Record], feeds [HsRecord]'s queue and runs [HsFlight]'s
    handlers, which call the parsers, [Keysched], [X25519] and the transcript's
    [Sha256]; [Tcp.tcp_out] hands over what a step staged.  The session it
    leaves connected ([connected_runs]) is the one [Conn]'s calls take.

    ** How code is modelled

    A C [uintN_t] is a [Z] in range.  A buffer is the list of its bytes.  A
    function that may assert returns an [option]: [None] is a failed [CH_ASSERT],
    and the theorems show it does not happen.  An error code is a value of the
    answer: [outcome] for a parser (with the alert it writes), [res] for a
    handler.  A loop is a structural [Fixpoint] over its input, or takes fuel; the
    fuel is always a bound the code itself gives (the bytes left in a cursor, the
    length of the input, the size of the receive buffer, the bytes a write is
    given, what the transport may still give), and a theorem shows that it never
    runs out: [client_hello_returns], [server_hello_returns], [drive_spec],
    [in_loop_spec], [calls_keep_session], [serve_total].  Random draws are
    arguments.  [Build.HsBuild] quantifies over the build's macros.

    ** What the theorems show

    - Equivalence with the standards: the hashes with FIPS 180-4's padding and
      chaining, Poly1305 and the AEAD with RFC 8439, X25519 with RFC 7748, HMAC,
      HKDF and the key schedule with RFC 2104, RFC 5869 and RFC 9846, packet
      numbers and key sets with RFC 9000 and 9001, dates with the calendar.
    - Exactness of parsers: each accepts exactly the encodings of its grammar and
      reports what they hold ([client_hello_exact], [server_hello_exact],
      [encrypted_exts_exact], [der_spki_exact], [pem_decode_one_exact], ...).
    - Round trips: seal and open of records and packets, mint and open of
      cookies and tokens, the hello a client builds at a server
      ([hello_reaches_server]).
    - Authenticity: an open accepts only what a seal under the same key and
      nonce produced; nonces do not repeat in a direction, and neither seal nor
      open goes past its last ([record_nonce_never_repeats]).
    - The client's session: any calls and any peer keep it in a state of the
      handshake's machine or dead and wiped ([calls_keep_session]); it is
      connected only after its peer is authenticated and the Finished verified
      ([connected_is_authenticated]); each record moves it exactly as the machine
      says ([record_step_exact]); an honest server's flight connects it
      ([honest_flight_connects]); a failure is final, and leaves at most one
      alert, of the code and under the keys the failing session owed it
      ([failure_is_final]); and its start is exact ([tcp_init_exact]).
    - The connected session: whatever arrives and whatever calls follow, no
      assertion fails, the session runs or is over with its secrets wiped, and
      the reads hand over what was queued when it connected and then, in order
      and without gap, the application data of the bytes its transport gave, as
      they open under the keys of the authenticated handshake
      ([session_delivers_authenticated], [read_outcomes]); what one side writes
      the other reads ([written_data_is_read]); and the writable length is exact
      ([writable_len_exact]).
    - Two theorems document a divergence: [connected_reads_plaintext] shows that a
      connected session still takes handshake bytes in the clear, which
      include/chapulin/tcp_nonblocking.h says it refuses, and hands them to its
      caller as application data; and [quic_pn_decode_is_rfc9000] that a packet
      number after the last one may decode past 2^62 - 1, which src/quic_packet.h
      says it does not.

    ** Bounds and parameters

    The client development fixes the smallest build: a pinned (TRUST=raw) client
    with X25519 and ChaCha20-Poly1305, whose staging array holds its 617-byte
    hello.  It is parametric in the AEAD (any [AeadLaws]), in the pin's
    algorithm ([pin_ecdsa]) and in the signature check ([pin_verify]): RSA-PSS
    and ECDSA verification are code of the repository that is not modelled, so the
    theorems hold for every such check.  Whether X25519 gives an all-zero secret
    is left as a case of [honest_flight_connects]: both cases are stated.  The
    connected session is parametric in its transport (any [TransportLaws]), and
    the writable length in the width of [size_t], 32 bits or more.

    ** Not modelled

    - The CPU-specific kernels (intrinsics, assembly), which compute the modelled
      functions; the tables of the wide multiplications.
    - P-256, P-384, RSA, Ed25519, ML-KEM, ML-DSA, SHA-3, AES and GCM.
    - The server's flights, the QUIC drivers and the blocking handshake: they are
      further orders of the modelled messages around the same parsers, schedule
      and records.  The exporter call, which another build compiles.
    - Web PKI path validation, CA certificates and DNSSEC, which rest on the
      signature algorithms above.
    - The C++ binding, the tests and the tools.
    - Timing, stack use and aliasing, except where a routine's buffers may
      overlap ([Chacha20.chacha20_xor_overlap]). *)

From stdpp Require Export base tactics option numbers.
From stdpp Require Export list strings.

#[global] Set Default Goal Selector "!".

#[export] Set Warnings "-clear-no-such-hyp".
#[global] Arguments Nat.ltb : simpl never.
#[global] Arguments Nat.leb : simpl never.
#[global] Arguments Z.pow : simpl never.

Declare Scope word_scope.
Delimit Scope word_scope with word.
Local Open Scope Z_scope.

(** ** Fixed-width unsigned integers

    A C [uintN_t] is a [Z] kept in range by an explicit wrap. *)

Definition u8 (x : Z) : Z := x mod 2 ^ 8.
Definition u16 (x : Z) : Z := x mod 2 ^ 16.
Definition u32 (x : Z) : Z := x mod 2 ^ 32.
Definition u64 (x : Z) : Z := x mod 2 ^ 64.

(** Two's-complement reading of a 32-bit or 64-bit pattern, the C conversions
    [(int32_t)x] and [(int64_t)x]. *)
Definition s32 (x : Z) : Z := (x + 2 ^ 31) mod 2 ^ 32 - 2 ^ 31.
Definition s64 (x : Z) : Z := (x + 2 ^ 63) mod 2 ^ 64 - 2 ^ 63.

(** The C operators that wrap at 32 and 64 bits. *)
Notation "a +32 b" := (u32 (a + b)) (at level 50, left associativity) : word_scope.
Notation "a -32 b" := (u32 (a - b)) (at level 50, left associativity) : word_scope.
Notation "a *32 b" := (u32 (a * b)) (at level 40, left associativity) : word_scope.
Notation "a <<32 k" := (u32 (Z.shiftl a k)) (at level 34, left associativity) : word_scope.
Notation "a +64 b" := (u64 (a + b)) (at level 50, left associativity) : word_scope.
Notation "a -64 b" := (u64 (a - b)) (at level 50, left associativity) : word_scope.
Notation "a *64 b" := (u64 (a * b)) (at level 40, left associativity) : word_scope.
Notation "a <<64 k" := (u64 (Z.shiftl a k)) (at level 34, left associativity) : word_scope.
Notation "a >> k" := (Z.shiftr a k) (at level 34, left associativity) : word_scope.
Notation "a .& b" := (Z.land a b) (at level 52, left associativity) : word_scope.
Notation "a .| b" := (Z.lor a b) (at level 54, left associativity) : word_scope.
Notation "a .^ b" := (Z.lxor a b) (at level 53, left associativity) : word_scope.
(** [~a] on a [uint32_t]. *)
Notation "'not32' a" := (u32 (Z.lnot a)) (at level 30) : word_scope.

(** ** Ranges *)

Definition byte_ok (x : Z) : Prop := 0 <= x < 2 ^ 8.
Definition u32_ok (x : Z) : Prop := 0 <= x < 2 ^ 32.
Definition u64_ok (x : Z) : Prop := 0 <= x < 2 ^ 64.
Abbreviation bytes_ok := (Forall byte_ok).
Abbreviation words_ok := (Forall u32_ok).

#[export] Instance byte_ok_dec x : Decision (byte_ok x).
Proof. unfold byte_ok. apply _. Defined.
#[export] Instance u32_ok_dec x : Decision (u32_ok x).
Proof. unfold u32_ok. apply _. Defined.
#[export] Instance u64_ok_dec x : Decision (u64_ok x).
Proof. unfold u64_ok. apply _. Defined.

(** ** Arithmetic automation *)

(** [lia] over goals with division and remainder by constants. *)
Ltac dlia := Z.div_mod_to_equations; lia.

(** Unfold the fixed-width wraps and ranges, turn shifts by constants into
    division and multiplication, and solve by [lia]. *)
Ltac unfold_words :=
  unfold u8, u16, u32, u64, s32, s64, byte_ok, u32_ok, u64_ok in *;
  rewrite ?Z.shiftr_div_pow2, ?Z.shiftl_mul_pow2 in * by lia.
Ltac word_lia := unfold_words; dlia.

Create HintDb words discriminated.

Lemma u8_range x : byte_ok (u8 x).
Proof. word_lia. Qed.
Lemma u16_range x : 0 <= u16 x < 2 ^ 16.
Proof. word_lia. Qed.
Lemma u32_range x : u32_ok (u32 x).
Proof. word_lia. Qed.
Lemma u64_range x : u64_ok (u64 x).
Proof. word_lia. Qed.

Lemma u8_small x : byte_ok x -> u8 x = x.
Proof. apply Z.mod_small. Qed.
Lemma u16_small x : 0 <= x < 2 ^ 16 -> u16 x = x.
Proof. apply Z.mod_small. Qed.
Lemma u32_small x : u32_ok x -> u32 x = x.
Proof. apply Z.mod_small. Qed.
Lemma u64_small x : u64_ok x -> u64 x = x.
Proof. apply Z.mod_small. Qed.

#[export] Hint Resolve u8_range u16_range u32_range u64_range : words.

(** ** Bits *)

Lemma land_mask n m x : 0 <= n -> m = Z.ones n -> Z.land x m = x mod 2 ^ n.
Proof. intros ? ->. by apply Z.land_ones. Qed.

Lemma testbit_bounded n x i : 0 <= x < 2 ^ n -> 0 <= n <= i -> Z.testbit x i = false.
Proof.
  intros Hx Hi. rewrite <- (Z.mod_small x (2 ^ n)) by done.
  apply Z.mod_pow2_bits_high. lia.
Qed.

Lemma lt_pow2_bits n x :
  0 <= n -> 0 <= x -> (forall i, n <= i -> Z.testbit x i = false) -> 0 <= x < 2 ^ n.
Proof. intros. by apply Z.bounded_iff_bits_nonneg'. Qed.

(** A bitwise operation on values below [2 ^ n] stays below [2 ^ n]. *)
Lemma lor_bound n a b : 0 <= n -> 0 <= a < 2 ^ n -> 0 <= b < 2 ^ n -> 0 <= Z.lor a b < 2 ^ n.
Proof.
  intros Hn Ha Hb. apply lt_pow2_bits; [done | apply Z.lor_nonneg; lia |].
  intros i Hi. rewrite Z.lor_spec, !(testbit_bounded n); done || lia.
Qed.

Lemma lxor_bound n a b : 0 <= n -> 0 <= a < 2 ^ n -> 0 <= b < 2 ^ n -> 0 <= Z.lxor a b < 2 ^ n.
Proof.
  intros Hn Ha Hb. apply lt_pow2_bits; [done | apply Z.lxor_nonneg; lia |].
  intros i Hi. rewrite Z.lxor_spec, !(testbit_bounded n); done || lia.
Qed.

Lemma land_bound n a b : 0 <= n -> 0 <= a -> 0 <= b < 2 ^ n -> 0 <= Z.land a b < 2 ^ n.
Proof.
  intros Hn Ha Hb. apply lt_pow2_bits; [done | apply Z.land_nonneg; lia |].
  intros i Hi. rewrite Z.land_spec, (testbit_bounded n b), andb_false_r; done || lia.
Qed.

(** [lor] of a low part and a shifted high part is addition. *)
Lemma lor_shiftl_add n a b : 0 <= n -> 0 <= a < 2 ^ n -> Z.lor a (Z.shiftl b n) = a + b * 2 ^ n.
Proof.
  intros Hn Ha. rewrite <- Z.shiftl_mul_pow2, Z.add_nocarry_lor; [done | | lia].
  apply Z.bits_inj'. intros i Hi. rewrite Z.land_spec, Z.bits_0.
  destruct (Z_lt_le_dec i n).
  - rewrite Z.shiftl_spec_low by lia. apply andb_false_r.
  - rewrite (testbit_bounded n a); done || lia.
Qed.

Lemma lor_shiftl_add' n a b : 0 <= n -> 0 <= a < 2 ^ n -> Z.lor (Z.shiftl b n) a = b * 2 ^ n + a.
Proof. intros. rewrite Z.lor_comm, lor_shiftl_add; lia. Qed.

(** Split a mask at bit [n]. *)
Lemma land_split n x a b :
  0 <= n -> 0 <= a < 2 ^ n ->
  Z.land x (a + b * 2 ^ n) = Z.land (x mod 2 ^ n) a + Z.land (x / 2 ^ n) b * 2 ^ n.
Proof.
  intros Hn Ha. rewrite <- !lor_shiftl_add; try done.
  - apply Z.bits_inj'. intros i Hi.
    rewrite Z.land_spec, !Z.lor_spec, !Z.shiftl_spec, !Z.land_spec by done.
    destruct (Z_lt_le_dec i n).
    + rewrite Z.mod_pow2_bits_low, !(Z.testbit_neg_r _ (i - n)) by lia.
      by rewrite andb_false_r, !orb_false_r.
    + rewrite (testbit_bounded n a i), andb_false_r, Z.div_pow2_bits by lia.
      simpl. by replace (i - n + n) with i by lia.
  - apply land_bound; try done. apply Z.mod_pos_bound, Z.pow_pos_nonneg; lia.
Qed.

(** A shift that wraps keeps the low bits of its operand. *)
Lemma shiftl_wrap n k x :
  0 <= k <= n -> Z.shiftl x k mod 2 ^ n = (x mod 2 ^ (n - k)) * 2 ^ k.
Proof.
  intros Hk. rewrite Z.shiftl_mul_pow2 by lia.
  replace (2 ^ n) with (2 ^ (n - k) * 2 ^ k) by (rewrite <- Z.pow_add_r by lia; f_equal; lia).
  rewrite Z.mul_mod_distr_r; [done | |]; apply Z.pow_nonzero; lia.
Qed.

(** [lxor] by the same value twice is the identity. *)
Lemma lxor_cancel a b : Z.lxor (Z.lxor a b) b = a.
Proof. by rewrite Z.lxor_assoc, Z.lxor_nilpotent, Z.lxor_0_r. Qed.

(** The C select [(a & ~mask) | (b & mask)] with an all-zero or all-one mask. *)
Lemma select32 (c : bool) a b :
  u32_ok a -> u32_ok b ->
  let mask := if c then 2 ^ 32 - 1 else 0 in
  Z.lor (Z.land a (u32 (Z.lnot mask))) (Z.land b mask) = if c then b else a.
Proof.
  intros Ha Hb. destruct c; simpl.
  - rewrite (land_mask 32 (2 ^ 32 - 1)) by done. change (u32 (Z.lnot (2 ^ 32 - 1))) with 0.
    rewrite Z.land_0_r, Z.lor_0_l. by apply u32_small.
  - rewrite Z.land_0_r, Z.lor_0_r. change (u32 (Z.lnot 0)) with (Z.ones 32).
    rewrite Z.land_ones by lia. by apply u32_small.
Qed.

(** ** Byte strings as numbers *)

Fixpoint le_val (l : list Z) : Z :=
  match l with [] => 0 | b :: l => b + 2 ^ 8 * le_val l end.
Fixpoint le_bytes (n : nat) (x : Z) : list Z :=
  match n with O => [] | S n => u8 x :: le_bytes n (x / 2 ^ 8) end.
Definition be_val (l : list Z) : Z := foldl (fun a b => a * 2 ^ 8 + b) 0 l.
Definition be_bytes (n : nat) (x : Z) : list Z := reverse (le_bytes n x).

Lemma pow2_8 n : 2 ^ (8 * Z.of_nat (S n)) = 2 ^ 8 * 2 ^ (8 * Z.of_nat n).
Proof. rewrite <- Z.pow_add_r by lia. f_equal. lia. Qed.

Lemma pow2_pos n : 0 < 2 ^ (8 * Z.of_nat n).
Proof. apply Z.pow_pos_nonneg; lia. Qed.

Lemma le_val_bound l : bytes_ok l -> 0 <= le_val l < 2 ^ (8 * Z.of_nat (length l)).
Proof.
  induction 1 as [|b l Hb Hl IH]; cbn [le_val length]; [done|].
  rewrite pow2_8. unfold byte_ok in Hb. lia.
Qed.

Lemma le_val_app l1 l2 :
  le_val (l1 ++ l2) = le_val l1 + 2 ^ (8 * Z.of_nat (length l1)) * le_val l2.
Proof.
  induction l1 as [|b l1 IH]; cbn [le_val length app]; [by rewrite Z.mul_1_l|].
  rewrite IH, pow2_8. lia.
Qed.

Lemma length_le_bytes n x : length (le_bytes n x) = n.
Proof. revert x. induction n as [|n IH]; intros x; cbn [le_bytes length]; [done|by rewrite IH]. Qed.

Lemma le_bytes_ok n x : bytes_ok (le_bytes n x).
Proof. revert x. induction n as [|n IH]; intros x; constructor; [apply u8_range|apply IH]. Qed.

Lemma le_val_bytes n x : le_val (le_bytes n x) = x mod 2 ^ (8 * Z.of_nat n).
Proof.
  revert x. induction n as [|n IH]; intros x; cbn [le_val le_bytes].
  - by rewrite Z.mod_1_r.
  - rewrite IH, pow2_8, Z.rem_mul_r; [done|done|].
    apply pow2_pos.
Qed.

Lemma le_bytes_mod n x : le_bytes n (x mod 2 ^ (8 * Z.of_nat n)) = le_bytes n x.
Proof.
  revert x. induction n as [|n IH]; intros x; cbn [le_bytes]; [done|].
  rewrite pow2_8, Z.rem_mul_r by (try apply pow2_pos; done).
  rewrite (Z.mul_comm (2 ^ 8)), Z_div_plus_full by done.
  rewrite (Zdiv_small (x mod _)), Z.add_0_l, IH by (apply Z.mod_pos_bound; done).
  unfold u8. by rewrite Z_mod_plus_full, Zmod_mod.
Qed.

Lemma le_bytes_val l : bytes_ok l -> le_bytes (length l) (le_val l) = l.
Proof.
  induction 1 as [|b l Hb Hl IH]; cbn [le_val le_bytes length]; [done|]. f_equal.
  - unfold u8, byte_ok in *. dlia.
  - unfold byte_ok in Hb. by replace ((b + 2 ^ 8 * le_val l) / 2 ^ 8) with (le_val l) by dlia.
Qed.

Lemma le_val_inj l1 l2 :
  bytes_ok l1 -> bytes_ok l2 -> length l1 = length l2 -> le_val l1 = le_val l2 -> l1 = l2.
Proof.
  intros H1 H2 Hlen Hv. rewrite <- (le_bytes_val l1), <- (le_bytes_val l2) by done. congruence.
Qed.

Lemma le_val_take n l : bytes_ok l -> le_val (take n l) = le_val l mod 2 ^ (8 * Z.of_nat n).
Proof.
  intros Hl. revert n. induction Hl as [|b l Hb Hl IH]; intros [|n]; cbn [le_val take];
    rewrite ?Z.mod_1_r, ?Z.mod_0_l by (pose proof (pow2_pos (S n)); lia); try done.
  rewrite IH, pow2_8. unfold byte_ok in Hb.
  rewrite (Z.rem_mul_r _ (2 ^ 8)) by (pose proof (pow2_pos n); lia).
  replace ((b + 2 ^ 8 * le_val l) mod 2 ^ 8) with b by dlia.
  by replace ((b + 2 ^ 8 * le_val l) / 2 ^ 8) with (le_val l) by dlia.
Qed.

Lemma le_val_drop n l : bytes_ok l -> le_val (drop n l) = le_val l / 2 ^ (8 * Z.of_nat n).
Proof.
  intros Hl. revert n. induction Hl as [|b l Hb Hl IH]; intros [|n]; cbn [le_val drop];
    rewrite ?Z.div_1_r, ?Z.div_0_l by (pose proof (pow2_pos (S n)); lia); try done.
  rewrite IH, pow2_8, <- Z.div_div by (pose proof (pow2_pos n); lia). f_equal.
  unfold byte_ok in Hb. dlia.
Qed.

Lemma be_val_snoc l b : be_val (l ++ [b]) = be_val l * 2 ^ 8 + b.
Proof. unfold be_val. by rewrite foldl_app. Qed.

Lemma be_val_rev l : be_val l = le_val (reverse l).
Proof.
  induction l as [|b l IH] using rev_ind; [done|].
  rewrite be_val_snoc, reverse_app, IH. cbn [reverse app le_val rev_append]. lia.
Qed.

Lemma be_val_app l1 l2 :
  be_val (l1 ++ l2) = be_val l1 * 2 ^ (8 * Z.of_nat (length l2)) + be_val l2.
Proof.
  rewrite !be_val_rev, reverse_app, le_val_app, length_reverse. lia.
Qed.

Lemma be_val_cons b l : be_val (b :: l) = b * 2 ^ (8 * Z.of_nat (length l)) + be_val l.
Proof. change (b :: l) with ([b] ++ l). by rewrite be_val_app. Qed.

Lemma length_be_bytes n x : length (be_bytes n x) = n.
Proof. unfold be_bytes. by rewrite length_reverse, length_le_bytes. Qed.

Lemma be_bytes_ok n x : bytes_ok (be_bytes n x).
Proof. apply Forall_reverse, le_bytes_ok. Qed.

Lemma be_val_bytes n x : be_val (be_bytes n x) = x mod 2 ^ (8 * Z.of_nat n).
Proof. unfold be_bytes. by rewrite be_val_rev, reverse_involutive, le_val_bytes. Qed.

Lemma be_bytes_val l : bytes_ok l -> be_bytes (length l) (be_val l) = l.
Proof.
  intros H. unfold be_bytes. rewrite be_val_rev, <- length_reverse.
  rewrite le_bytes_val by by apply Forall_reverse. apply reverse_involutive.
Qed.

Lemma be_bytes_mod n x : be_bytes n (x mod 2 ^ (8 * Z.of_nat n)) = be_bytes n x.
Proof.
  rewrite <- be_val_bytes. rewrite <- (length_be_bytes n x) at 1.
  apply be_bytes_val, be_bytes_ok.
Qed.

Lemma be_bytes_split (n k : nat) x :
  be_bytes (n + k) x = be_bytes n (x / 2 ^ (8 * Z.of_nat k)) ++ be_bytes k x.
Proof.
  unfold be_bytes. rewrite <- reverse_app. f_equal. revert x.
  induction k as [|k IH]; intros x.
  - rewrite Nat.add_0_r. cbn. by rewrite Z.div_1_r.
  - rewrite Nat.add_succ_r. cbn [le_bytes app]. rewrite IH, pow2_8, Z.div_div; [done|done|].
    apply pow2_pos.
Qed.

Lemma be_val_bound l : bytes_ok l -> 0 <= be_val l < 2 ^ (8 * Z.of_nat (length l)).
Proof.
  intros H. rewrite be_val_rev, <- length_reverse. by apply le_val_bound, Forall_reverse.
Qed.

(** Four bytes joined by shifts and ORs, as the C little-endian loads do. *)
Lemma join_le32 a b c d :
  byte_ok a -> byte_ok b -> byte_ok c -> byte_ok d ->
  Z.lor (Z.lor (Z.lor a (u32 (Z.shiftl b 8))) (u32 (Z.shiftl c 16))) (u32 (Z.shiftl d 24))
  = le_val [a; b; c; d].
Proof.
  unfold byte_ok. intros Ha Hb Hc Hd. rewrite !u32_small by word_lia.
  rewrite (lor_shiftl_add 8 a b), (lor_shiftl_add 16), (lor_shiftl_add 24) by lia. cbn [le_val]. lia.
Qed.

Lemma lookup4 (l : list Z) i : (i + 4 <= length l)%nat ->
  take 4 (drop i l) =
  [l !!! i; l !!! (i + 1)%nat; l !!! (i + 2)%nat; l !!! (i + 3)%nat].
Proof.
  intros H. rewrite <- (Nat.add_0_r i) at 2. rewrite !list_lookup_total_alt, <- !lookup_drop.
  assert (Hl : (4 <= length (drop i l))%nat) by (rewrite length_drop; lia).
  destruct (drop i l) as [|a [|b [|c [|d tl]]]]; simpl in Hl; try lia. done.
Qed.

Lemma bytes_ok_total (l : list Z) i : bytes_ok l -> byte_ok (l !!! i).
Proof.
  intros Hl. destruct (l !! i) as [x|] eqn:E.
  - rewrite (list_lookup_total_correct _ _ _ E). by eapply Forall_lookup_1.
  - rewrite list_lookup_total_alt, E. done.
Qed.

#[export] Hint Resolve le_bytes_ok be_bytes_ok : words.

(** ** Byte loops *)

(** [out[i] = a[i] ^ b[i]] over the shorter of the two. *)
Definition xor_bytes (a b : list Z) : list Z := zip_with Z.lxor a b.

Lemma xor_bytes_ok a b : bytes_ok a -> bytes_ok b -> bytes_ok (xor_bytes a b).
Proof.
  intros Ha. revert b. induction Ha as [|x a Hx Ha IH]; intros b Hb; [constructor|].
  destruct Hb as [|y b Hy Hb]; constructor; [by apply (lxor_bound 8) | by apply IH].
Qed.

Lemma xor_bytes_involutive a k :
  (length a <= length k)%nat -> xor_bytes (xor_bytes a k) k = a.
Proof.
  revert k. induction a as [|x a IH]; intros [|y k]; cbn; intros H; try done || lia.
  f_equal; [apply lxor_cancel | apply IH; lia].
Qed.

Lemma length_xor_bytes a k :
  length (xor_bytes a k) = Nat.min (length a) (length k).
Proof. apply length_zip_with. Qed.

Lemma xor_bytes_app a1 a2 k1 k2 :
  length a1 = length k1 -> xor_bytes (a1 ++ a2) (k1 ++ k2) = xor_bytes a1 k1 ++ xor_bytes a2 k2.
Proof. intros H. by apply zip_with_app. Qed.

(** C's byte store [p[i] = v], and [memcpy]/[memset] over a range in bounds. *)
Definition store_bytes (mem : list Z) (off : nat) (src : list Z) : list Z :=
  take off mem ++ src ++ drop (off + length src) mem.

Lemma length_store_bytes mem off src :
  (off + length src <= length mem)%nat -> length (store_bytes mem off src) = length mem.
Proof.
  intros. unfold store_bytes. rewrite !length_app, length_take, length_drop. lia.
Qed.

Lemma take_store_bytes mem off src :
  (off <= length mem)%nat -> take (off + length src) (store_bytes mem off src) = take off mem ++ src.
Proof.
  intros. unfold store_bytes. rewrite app_assoc, take_app_length'; [done|].
  rewrite length_app, length_take. lia.
Qed.

Lemma store_bytes_app mem off a b : (off + length a + length b <= length mem)%nat ->
  store_bytes (store_bytes mem off a) (off + length a) b = store_bytes mem off (a ++ b).
Proof.
  intros H. pose proof (take_store_bytes mem off a ltac:(lia)) as E.
  unfold store_bytes at 1. rewrite E. unfold store_bytes. rewrite length_app, <- !app_assoc.
  do 3 f_equal. rewrite !drop_app_ge by (rewrite length_take; lia).
  rewrite length_take, !drop_drop. f_equal. lia.
Qed.

(** Bytes past what a store wrote are unchanged. *)
Lemma drop_store_bytes mem off src k :
  (off + length src <= k)%nat -> (off <= length mem)%nat ->
  drop k (store_bytes mem off src) = drop k mem.
Proof.
  intros H Ho. unfold store_bytes. rewrite app_assoc, drop_app_ge
    by (rewrite length_app, length_take; lia).
  rewrite drop_drop. f_equal. rewrite length_app, length_take. lia.
Qed.

Lemma insert_store_bytes (mem : list Z) i x : (i < length mem)%nat -> <[i := x]> mem = store_bytes mem i [x].
Proof. intros. unfold store_bytes. rewrite insert_take_drop by done. cbn. by rewrite Nat.add_1_r. Qed.

(** A store up to the end of the memory. *)
Lemma store_bytes_end mem off a : (off + length a = length mem)%nat ->
  store_bytes mem off a = take off mem ++ a.
Proof. intros H. unfold store_bytes. by rewrite (drop_ge mem (off + length a)), app_nil_r by lia. Qed.

(** A step of the option monad whose result is known. *)
Lemma bind_known {A B} (o : option A) x (f : A -> option B) : o = Some x -> (o ≫= f) = f x.
Proof. by intros ->. Qed.

(** The bytes of a C string literal, without its terminator. *)
Fixpoint str (s : string) : list Z :=
  match s with
  | EmptyString => []
  | String a s => Z.of_N (Ascii.N_of_ascii a) :: str s
  end.

Lemma str_ok s : bytes_ok (str s).
Proof.
  induction s as [|a s IH]; cbn; constructor; [|done].
  pose proof (Ascii.N_ascii_bounded a). unfold byte_ok. lia.
Qed.

(** Two byte strings agree on a range, as [memcmp(a, b, n) == 0]. *)
Definition bytes_eqb (a b : list Z) : bool := bool_decide (a = b).

Lemma bytes_eqb_eq a b : bytes_eqb a b = true <-> a = b.
Proof. apply bool_decide_eq_true. Qed.
