(* ===== verification/Limbs.v ===== *)
(** * Multi-word numbers

    What the field and modulus files share: a number held as a list of words
    in a radix [2 ^ w], its value, how a store into one word moves the value,
    and the induction over a counted loop that updates such a list. *)

From S2P Require Import Prelude.
Local Open Scope Z_scope.

Module Limbs.

(** [o[i]]. *)
Definition get (o : list Z) (i : nat) : Z := nth i o 0.

(** The value of the words of [l], the least significant first. *)
Fixpoint lval (w : Z) (l : list Z) : Z :=
  match l with [] => 0 | x :: l => x + 2 ^ w * lval w l end.

Lemma get_insert o i j v : (i < length o)%nat -> get (<[i := v]> o) j = if decide (i = j) then v else get o j.
Proof.
  intros Hi. unfold get. rewrite !nth_lookup. destruct (decide (i = j)) as [<-|Hij].
  - by rewrite list_lookup_insert_eq.
  - by rewrite list_lookup_insert_ne.
Qed.
Lemma get_insert_eq o i v : (i < length o)%nat -> get (<[i := v]> o) i = v.
Proof. intros Hi. rewrite get_insert by done. by rewrite decide_True. Qed.
Lemma get_insert_ne o i j v : i <> j -> get (<[i := v]> o) j = get o j.
Proof. intros Hij. unfold get. rewrite !nth_lookup, list_lookup_insert_ne; done. Qed.

Lemma get_default o i : (length o <= i)%nat -> get o i = 0.
Proof. apply nth_overflow. Qed.
Lemma get_forall P o i : Forall P o -> (i < length o)%nat -> P (get o i).
Proof.
  intros Ho Hi. unfold get. rewrite nth_lookup. destruct (lookup_lt_is_Some_2 o i Hi) as [x Hx]. rewrite Hx. by eapply Forall_lookup_1.
Qed.
Lemma get_all P o : (forall i, (i < length o)%nat -> P (get o i)) -> Forall P o.
Proof.
  intros H. apply Forall_lookup. intros i x Hx. specialize (H i (lookup_lt_Some _ _ _ Hx)). unfold get in H. by rewrite nth_lookup, Hx in H.
Qed.
Lemma get_ext a b : length a = length b -> (forall i, (i < length a)%nat -> get a i = get b i) -> a = b.
Proof.
  revert b. induction a as [|x a IH]; intros [|y b] Hl H; try discriminate Hl; [done|]. f_equal.
  - exact (H 0%nat ltac:(cbn [length]; lia)).
  - apply IH; [by injection Hl|]. intros i Hi. exact (H (S i) ltac:(cbn [length]; lia)).
Qed.
Lemma get_take n o i : (i < n)%nat -> get (take n o) i = get o i.
Proof. intros Hi. unfold get. by rewrite !nth_lookup, lookup_take_lt. Qed.
Lemma get_drop n o i : get (drop n o) i = get o (n + i).
Proof. unfold get. by rewrite !nth_lookup, lookup_drop. Qed.
Lemma get_replicate n x i : (i < n)%nat -> get (replicate n x) i = x.
Proof. intros Hi. unfold get. by rewrite nth_lookup, lookup_replicate_2. Qed.
Lemma get_zip_with f a b i : (i < length a)%nat -> length a = length b -> get (zip_with f a b) i = f (get a i) (get b i).
Proof.
  intros Hi Hl. unfold get. rewrite !nth_lookup, lookup_zip_with.
  destruct (lookup_lt_is_Some_2 a i Hi) as [x ->], (lookup_lt_is_Some_2 b i ltac:(lia)) as [y ->]. done.
Qed.

Section Radix.
Context (w : Z) (Hw : 0 < w).

Lemma lval_app a b : lval w (a ++ b) = lval w a + 2 ^ (w * Z.of_nat (length a)) * lval w b.
Proof.
  induction a as [|x a IH]; cbn [lval app length]; [rewrite Z.mul_0_r; lia|]. rewrite IH.
  replace (w * Z.of_nat (S (length a))) with (w + w * Z.of_nat (length a)) by lia. rewrite Z.pow_add_r by lia. ring.
Qed.

Lemma lval_insert o i v : (i < length o)%nat -> lval w (<[i := v]> o) = lval w o + (v - get o i) * 2 ^ (w * Z.of_nat i).
Proof.
  revert i. induction o as [|x o IH]; intros i Hi; cbn [length] in Hi; [lia|]. destruct i as [|i].
  - change (<[0%nat := v]> (x :: o)) with (v :: o). cbn [lval get nth]. rewrite Z.mul_0_r. lia.
  - change (<[S i := v]> (x :: o)) with (x :: <[i := v]> o). cbn [lval]. rewrite IH by lia. change (get (x :: o) (S i)) with (get o i).
    replace (w * Z.of_nat (S i)) with (w + w * Z.of_nat i) by lia. rewrite Z.pow_add_r by lia. ring.
Qed.

Lemma lval_take_S o i : (i < length o)%nat -> lval w (take (S i) o) = lval w (take i o) + get o i * 2 ^ (w * Z.of_nat i).
Proof.
  intros Hi. rewrite (take_S_r o i (get o i)).
  - rewrite lval_app, length_take, Nat.min_l by lia. cbn [lval]. ring.
  - unfold get. rewrite nth_lookup. by destruct (lookup_lt_is_Some_2 o i Hi) as [x ->].
Qed.

Lemma lval_zip_with f a b : length a = length b -> (forall i, (i < length a)%nat -> get (zip_with f a b) i = get a i + get b i) ->
  lval w (zip_with f a b) = lval w a + lval w b.
Proof.
  revert b. induction a as [|x a IH]; intros [|y b] Hl H; try discriminate Hl; [done|]. cbn [zip_with lval]. injection Hl as Hl.
  rewrite IH; [|done|intros i Hi; exact (H (S i) ltac:(cbn [length]; lia))]. pose proof (H 0%nat ltac:(cbn [length]; lia)) as H0. cbn in H0. rewrite H0. ring.
Qed.
Lemma lval_zip_sub f a b : length a = length b -> (forall i, (i < length a)%nat -> get (zip_with f a b) i = get a i - get b i) ->
  lval w (zip_with f a b) = lval w a - lval w b.
Proof.
  revert b. induction a as [|x a IH]; intros [|y b] Hl H; try discriminate Hl; [done|]. cbn [zip_with lval]. injection Hl as Hl.
  rewrite IH; [|done|intros i Hi; exact (H (S i) ltac:(cbn [length]; lia))]. pose proof (H 0%nat ltac:(cbn [length]; lia)) as H0. cbn in H0. rewrite H0. ring.
Qed.

Lemma lval_bound l : Forall (fun x => 0 <= x < 2 ^ w) l -> 0 <= lval w l < 2 ^ (w * Z.of_nat (length l)).
Proof.
  induction 1 as [|x l Hx Hl IH]; cbn [lval length]; [by rewrite Z.mul_0_r|].
  replace (w * Z.of_nat (S (length l))) with (w + w * Z.of_nat (length l)) by lia. rewrite Z.pow_add_r by lia. nia.
Qed.
Lemma lval_replicate_0 n : lval w (replicate n 0) = 0.
Proof. induction n as [|n IH]; cbn [lval replicate]; [done|]. rewrite IH. ring. Qed.

(** Words in range are determined by the value. *)
Lemma lval_inj a b : length a = length b -> Forall (fun x => 0 <= x < 2 ^ w) a -> Forall (fun x => 0 <= x < 2 ^ w) b ->
  lval w a = lval w b -> a = b.
Proof.
  revert b. induction a as [|x a IH]; intros [|y b] Hl Ha Hb H; try discriminate Hl; [done|].
  apply Forall_cons in Ha as [Hx Ha], Hb as [Hy Hb]. injection Hl as Hl. cbn [lval] in H. pose proof (Z.pow_pos_nonneg 2 w ltac:(lia) ltac:(lia)) as Hp.
  assert (Hxy : x = y).
  { rewrite <- (Z.mod_small x (2 ^ w)), <- (Z.mod_small y (2 ^ w)) by done. rewrite <- (Z_mod_plus_full x (lval w a)), <- (Z_mod_plus_full y (lval w b)).
    f_equal. lia. }
  subst. f_equal. apply IH; try done. nia.
Qed.
End Radix.

(** A counted loop, by an invariant of the count. *)
Lemma foldl_seq_from {A} (P : nat -> A -> Prop) (f : A -> nat -> A) n s a :
  P s a -> (forall i x, (s <= i < s + n)%nat -> P i x -> P (S i) (f x i)) -> P (s + n)%nat (foldl f a (seq s n)).
Proof.
  intros H0 HS. assert (H : forall k, (k <= n)%nat -> P (s + k)%nat (foldl f a (seq s k))); [|by apply H].
  induction k as [|k IH]; intros Hk; [by rewrite Nat.add_0_r|]. rewrite seq_S, foldl_app, Nat.add_succ_r. cbn [foldl]. apply HS; [lia|]. apply IH. lia.
Qed.
Lemma foldl_seq_ind {A} (P : nat -> A -> Prop) (f : A -> nat -> A) n a :
  P 0%nat a -> (forall i x, (i < n)%nat -> P i x -> P (S i) (f x i)) -> P n (foldl f a (seq 0 n)).
Proof. intros H0 HS. apply (foldl_seq_from P f n 0 a H0). intros i x Hi. apply HS. lia. Qed.

(** The same loop run downwards. *)
Lemma foldl_down_ind {A} (P : nat -> A -> Prop) (f : A -> nat -> A) n : forall a,
  P n a -> (forall i x, (i < n)%nat -> P (S i) x -> P i (f x i)) -> P 0%nat (foldl f a (reverse (seq 0 n))).
Proof.
  induction n as [|n IH]; intros a Hn HS; [done|]. rewrite seq_S, reverse_app. cbn [reverse app foldl rev_append].
  apply IH; [by apply HS; [lia|]|]. intros i x Hi. apply HS. lia.
Qed.
End Limbs.
