(* ===== verification/Ct.v ===== *)
(** * Constant-time helpers: src/src/ct.c, ct.h, ct_wipe.c, softmul.c

    The branch-free comparison, the memory wipe, the 32x32->64 multiplies
    decomposed into 16-bit halves, and the shift-and-add multiplies of a core
    with no multiplier.  Each is shown equal to the plain operation it
    replaces. *)

From S2P Require Import Prelude.
Local Open Scope Z_scope.
Local Open Scope word_scope.

(** ** Definitions *)

(** [ct_memeq]: the loop ORs every byte difference; the fold maps 0 to 1 and
    every other byte value to 0. *)
Definition ct_memeq (a b : list Z) (n : nat) : Z :=
  let diff := foldl (fun diff xy => diff .| (xy.1 .^ xy.2)) 0 (zip (take n a) (take n b)) in
  1 .& ((diff -32 1) >> 8).

(** [ct_memeq_public] returns the same verdict; [CT_DECLASSIFY] is empty. *)
Definition ct_memeq_public (a b : list Z) (n : nat) : Z := ct_memeq a b n.

(** One volatile store of a zero word of [w] bytes at index [i]. *)
Definition store_zero (w : nat) (mem : list Z) (i : nat) : list Z :=
  store_bytes mem i (replicate w 0).

(** [ct_wipe]: [addr] is the address of [p], [w] is [sizeof(ct_wipe_word)],
    [mem] is the object that starts at [p]. *)
Definition ct_wipe (addr : Z) (w : nat) (mem : list Z) (n : nat) : list Z :=
  let head := Nat.min (Z.to_nat ((0 - addr) mod Z.of_nat w)) n in
  let word_count := ((n - head) / w)%nat in
  let tail := (head + word_count * w)%nat in
  let mem := foldl (store_zero 1) mem (seq 0 head) in
  let mem := foldl (fun mem i => store_zero w mem (head + i * w)) mem (seq 0 word_count) in
  foldl (store_zero 1) mem (seq tail (n - tail)).

(** [ct_widemul], the decomposition. *)
Definition ct_widemul (a b : Z) : Z :=
  let al := a .& 0xFFFF in
  let ah := a >> 16 in
  let bl := b .& 0xFFFF in
  let bh := b >> 16 in
  let ll := al *32 bl in
  let lh := al *32 bh in
  let hl := ah *32 bl in
  let hh := ah *32 bh in
  let t := hl +32 (ll >> 16) in
  let w1 := (t .& 0xFFFF) +32 lh in
  let hi := hh +32 (t >> 16) +32 (w1 >> 16) in
  let lo := (w1 <<32 16) .| (ll .& 0xFFFF) in
  (hi <<64 32) .| lo.

(** [ct_widemul_opaque], which adds the two middle products with a carry. *)
Definition ct_widemul_opaque (a b : Z) : Z :=
  let al := a .& 0xFFFF in
  let ah := a >> 16 in
  let bl := b .& 0xFFFF in
  let bh := b >> 16 in
  let ll := al *32 bl in
  let lh := al *32 bh in
  let hl := ah *32 bl in
  let hh := ah *32 bh in
  let mid := lh +32 hl in
  let mid_carry := Z.b2z (mid <? lh) in
  let lo := ll +32 (mid <<32 16) in
  let lo_carry := Z.b2z (lo <? ll) in
  let hi := hh +32 (mid >> 16) +32 (mid_carry <<32 16) +32 lo_carry in
  (hi <<64 32) .| lo.

Definition ct_mulsmall (a k : Z) : Z :=
  let lo := ct_widemul (u32 a) k in
  let hi := u32 (a >> 32) *32 k in
  lo +64 (hi <<64 32).

(** [ct_widemul_s]: signed operands, arithmetic right shifts. *)
Definition ct_widemul_s (a b : Z) : Z :=
  let al := u32 a .& 0xFFFF in
  let ah := u32 (a >> 16) in
  let bl := u32 b .& 0xFFFF in
  let bh := u32 (b >> 16) in
  let ll := al *32 bl in
  let lh := al *32 bh in
  let hl := ah *32 bl in
  let hh := ah *32 bh in
  let t := hl +32 (ll >> 16) in
  let w1 := (t .& 0xFFFF) +32 lh in
  let hi := hh +32 u32 (s32 t >> 16) +32 u32 (s32 w1 >> 16) in
  let lo := (w1 <<32 16) .| (ll .& 0xFFFF) in
  s64 ((hi <<64 32) .| lo).

(** One round of [__mulsi3] on [(acc, a, b)], and its 32 rounds. *)
Definition mulsi3_round (st : Z * Z * Z) : Z * Z * Z :=
  let '(acc, a, b) := st in
  let mask := u32 (s32 (b <<32 31) >> 31) in
  (acc +32 (a .& mask), a <<32 1, b >> 1).
Definition mulsi3 (a b : Z) : Z := (Nat.iter 32 mulsi3_round (0, a, b)).1.1.

Definition muldi3_round (st : Z * Z * Z) : Z * Z * Z :=
  let '(acc, a, b) := st in
  let mask := u64 (s64 (b <<64 63) >> 63) in
  (acc +64 (a .& mask), a <<64 1, b >> 1).
Definition muldi3 (a b : Z) : Z := (Nat.iter 64 muldi3_round (0, a, b)).1.1.

(** ** The comparison *)

Lemma foldl_lor_zero l acc :
  0 <= acc -> Forall (fun d => 0 <= d) l ->
  foldl Z.lor acc l = 0 <-> acc = 0 /\ Forall (fun d => d = 0) l.
Proof.
  intros Hacc Hl. revert acc Hacc. induction Hl as [|d l Hd Hl IH]; intros acc Hacc; cbn.
  - naive_solver.
  - rewrite IH by (apply Z.lor_nonneg; lia). rewrite Z.lor_eq_0_iff, Forall_cons_iff. naive_solver.
Qed.

Lemma foldl_lor_bound n l acc :
  0 <= n -> 0 <= acc < 2 ^ n -> Forall (fun d => 0 <= d < 2 ^ n) l ->
  0 <= foldl Z.lor acc l < 2 ^ n.
Proof.
  intros Hn Hacc Hl. revert acc Hacc. induction Hl as [|d l Hd Hl IH]; intros acc Hacc; cbn.
  - done.
  - apply IH. by apply lor_bound.
Qed.

Lemma foldl_zip_lxor acc a b :
  foldl (fun diff xy => Z.lor diff (Z.lxor xy.1 xy.2)) acc (zip a b)
  = foldl Z.lor acc (xor_bytes a b).
Proof.
  revert b acc. induction a as [|x a IH]; intros [|y b] acc; try done. apply IH.
Qed.

Lemma xor_bytes_zero a b :
  length a = length b -> Forall (fun d => d = 0) (xor_bytes a b) <-> a = b.
Proof.
  revert b. induction a as [|x a IH]; intros [|y b] Hlen; try done.
  cbn in *. rewrite Forall_cons_iff, IH, Z.lxor_eq_0_iff by lia. naive_solver.
Qed.

Lemma ct_memeq_spec a b n :
  bytes_ok a -> bytes_ok b -> (n <= length a)%nat -> (n <= length b)%nat ->
  ct_memeq a b n = Z.b2z (bytes_eqb (take n a) (take n b)).
Proof.
  intros Ha Hb Hna Hnb. unfold ct_memeq. rewrite foldl_zip_lxor.
  set (l := xor_bytes (take n a) (take n b)).
  assert (Hl : bytes_ok l) by (apply xor_bytes_ok; by apply Forall_take).
  assert (Hpos : Forall (fun d => 0 <= d) l) by (eapply Forall_impl; [exact Hl|]; by intros ? []).
  pose proof (foldl_lor_bound 8 l 0 ltac:(lia) ltac:(lia) Hl) as Hbound.
  pose proof (foldl_lor_zero l 0 ltac:(lia) Hpos) as Hz.
  unfold l in Hz at 2. rewrite xor_bytes_zero in Hz by (rewrite !length_take; lia).
  set (d := foldl Z.lor 0 l) in *. change (1 .& ?x) with (Z.land 1 x).
  rewrite Z.land_comm, (land_mask 1) by done. unfold_words.
  unfold bytes_eqb. case_bool_decide as Heq; cbn [Z.b2z].
  - assert (d = 0) by naive_solver. dlia.
  - assert (d <> 0) by naive_solver. dlia.
Qed.

(** The verdict is 1 exactly on equal strings. *)
Lemma ct_memeq_true a b n :
  bytes_ok a -> bytes_ok b -> length a = n -> length b = n ->
  ct_memeq a b n = 1 <-> a = b.
Proof.
  intros Ha Hb <- Hl. rewrite ct_memeq_spec by (done || lia).
  rewrite !take_ge, <- bytes_eqb_eq by lia. by destruct (bytes_eqb a b).
Qed.

(** ** The multiplies *)

(** The bounds of a product of two 16-bit halves. *)
Lemma mul16_bound x y : 0 <= x < 2 ^ 16 -> 0 <= y < 2 ^ 16 -> 0 <= x * y <= (2 ^ 16 - 1) * (2 ^ 16 - 1).
Proof. nia. Qed.

Lemma mask16 x : Z.land x 0xFFFF = x mod 2 ^ 16.
Proof. by apply (land_mask 16). Qed.

(** Recombining a high and a low word. *)
Lemma join64 hi lo : u32_ok hi -> u32_ok lo -> Z.lor (u64 (Z.shiftl hi 32)) lo = hi * 2 ^ 32 + lo.
Proof.
  intros Hhi Hlo. rewrite <- lor_shiftl_add' by done. f_equal. apply u64_small. word_lia.
Qed.

Lemma join32 x y :
  0 <= y < 2 ^ 16 -> Z.lor (u32 (Z.shiftl x 16)) y = (x mod 2 ^ 16) * 2 ^ 16 + y.
Proof.
  intros Hy. rewrite <- lor_shiftl_add' by done. f_equal. unfold u32.
  rewrite shiftl_wrap, Z.shiftl_mul_pow2 by lia. done.
Qed.

(** Name the four half products of [a * b] and forget the factors: what is
    left of a multiply is linear. *)
Ltac halves a b :=
  let Ea := fresh in let Eb := fresh in
  let al := fresh "al" in let ah := fresh "ah" in
  let bl := fresh "bl" in let bh := fresh "bh" in
  pose proof (Z.div_mod a (2 ^ 16) ltac:(lia)) as Ea;
  pose proof (Z.div_mod b (2 ^ 16) ltac:(lia)) as Eb;
  assert (0 <= a mod 2 ^ 16 < 2 ^ 16) by dlia; assert (0 <= b mod 2 ^ 16 < 2 ^ 16) by dlia;
  set (al := a mod 2 ^ 16) in *; set (ah := a / 2 ^ 16) in *;
  set (bl := b mod 2 ^ 16) in *; set (bh := b / 2 ^ 16) in *;
  replace (a * b) with (2 ^ 32 * (ah * bh) + 2 ^ 16 * (ah * bl) + 2 ^ 16 * (al * bh) + al * bl)
    by (rewrite Ea, Eb; ring);
  assert (- 2 ^ 15 <= ah < 2 ^ 16) by (unfold ah; dlia);
  assert (- 2 ^ 15 <= bh < 2 ^ 16) by (unfold bh; dlia).

Lemma ct_widemul_correct a b : u32_ok a -> u32_ok b -> ct_widemul a b = a * b.
Proof.
  intros Ha Hb. unfold ct_widemul. rewrite !mask16.
  rewrite join32, join64 by word_lia. unfold_words. halves a b.
  assert (0 <= ah) by (unfold ah; dlia). assert (0 <= bh) by (unfold bh; dlia).
  clearbody al ah bl bh.
  pose proof (mul16_bound al bl). pose proof (mul16_bound al bh).
  pose proof (mul16_bound ah bl). pose proof (mul16_bound ah bh).
  generalize dependent (al * bl). generalize dependent (al * bh).
  generalize dependent (ah * bl). generalize dependent (ah * bh).
  intros. dlia.
Qed.

Lemma b2z_ltb x y : Z.b2z (x <? y) = if x <? y then 1 else 0.
Proof. by destruct (x <? y). Qed.

Lemma ct_widemul_opaque_correct a b : u32_ok a -> u32_ok b -> ct_widemul_opaque a b = a * b.
Proof.
  intros Ha Hb. unfold ct_widemul_opaque. rewrite !mask16.
  rewrite join64 by word_lia. rewrite !b2z_ltb. unfold_words. halves a b.
  assert (0 <= ah) by (unfold ah; dlia). assert (0 <= bh) by (unfold bh; dlia).
  clearbody al ah bl bh.
  pose proof (mul16_bound al bl). pose proof (mul16_bound al bh).
  pose proof (mul16_bound ah bl). pose proof (mul16_bound ah bh).
  generalize dependent (al * bl). generalize dependent (al * bh).
  generalize dependent (ah * bl). generalize dependent (ah * bh).
  intros.
  repeat match goal with |- context [?x <? ?y] => destruct (Z.ltb_spec x y) end; dlia.
Qed.

(** [ct_mulsmall] is the product modulo [2 ^ 64]. *)
Lemma ct_mulsmall_correct a k : u64_ok a -> u32_ok k -> ct_mulsmall a k = u64 (a * k).
Proof.
  intros Ha Hk. unfold ct_mulsmall. rewrite ct_widemul_correct by (done || apply u32_range).
  unfold_words. assert (Ek : a * k = (a / 2 ^ 32 * k) * 2 ^ 32 + (a mod 2 ^ 32) * k) by dlia.
  rewrite Ek. rewrite (Z.mod_small (a / 2 ^ 32)) by dlia.
  generalize ((a mod 2 ^ 32) * k). generalize (a / 2 ^ 32 * k). intros. dlia.
Qed.

(** The bounds of a product of a 16-bit half and a signed half. *)
Lemma mul16s_bound x y :
  0 <= x < 2 ^ 16 -> - 2 ^ 15 <= y < 2 ^ 15 -> - 2 ^ 31 <= x * y <= (2 ^ 16 - 1) * (2 ^ 15 - 1).
Proof. nia. Qed.

Lemma mul_signed_halves x y :
  - 2 ^ 15 <= x < 2 ^ 15 -> - 2 ^ 15 <= y < 2 ^ 15 -> - 2 ^ 30 <= x * y <= 2 ^ 30.
Proof. nia. Qed.

(** Signed operands: every [int32_t] pair gives its exact [int64_t] product. *)
Lemma ct_widemul_s_correct a b :
  - 2 ^ 31 <= a < 2 ^ 31 -> - 2 ^ 31 <= b < 2 ^ 31 -> ct_widemul_s a b = a * b.
Proof.
  intros Ha Hb. unfold ct_widemul_s. rewrite !mask16.
  rewrite join32, join64 by word_lia. unfold_words.
  replace ((a mod 2 ^ 32) mod 2 ^ 16) with (a mod 2 ^ 16) by dlia.
  replace ((b mod 2 ^ 32) mod 2 ^ 16) with (b mod 2 ^ 16) by dlia.
  rewrite !Zmult_mod_idemp_l, !Zmult_mod_idemp_r. halves a b.
  assert (ah < 2 ^ 15) by (unfold ah; dlia). assert (bh < 2 ^ 15) by (unfold bh; dlia).
  clearbody al ah bl bh.
  pose proof (mul16_bound al bl). pose proof (mul16s_bound al bh).
  pose proof (mul16s_bound bl ah) as Hblah. rewrite (Z.mul_comm bl ah) in Hblah.
  pose proof (mul_signed_halves ah bh).
  generalize dependent (al * bl). generalize dependent (al * bh).
  generalize dependent (ah * bl). generalize dependent (ah * bh).
  intros. dlia.
Qed.

(** *** Shift and add *)

(** The mask of one round is all ones exactly when the low bit of [b] is set. *)
Lemma mulsi3_mask b : 0 <= b -> u32 (Z.shiftr (s32 (u32 (Z.shiftl b 31))) 31) = (b mod 2) * (2 ^ 32 - 1).
Proof.
  intros Hb. unfold u32 at 2. rewrite shiftl_wrap by lia. change (32 - 31) with 1.
  rewrite Z.pow_1_r. pose proof (Z.mod_pos_bound b 2 ltac:(lia)).
  assert (b mod 2 = 0 \/ b mod 2 = 1) as [-> | ->] by lia; done.
Qed.

Lemma muldi3_mask b : 0 <= b -> u64 (Z.shiftr (s64 (u64 (Z.shiftl b 63))) 63) = (b mod 2) * (2 ^ 64 - 1).
Proof.
  intros Hb. unfold u64 at 2. rewrite shiftl_wrap by lia. change (64 - 63) with 1.
  rewrite Z.pow_1_r. pose proof (Z.mod_pos_bound b 2 ltac:(lia)).
  assert (b mod 2 = 0 \/ b mod 2 = 1) as [-> | ->] by lia; done.
Qed.

Lemma land_bit_mask n a b :
  0 <= n -> 0 <= a < 2 ^ n -> Z.land a ((b mod 2) * (2 ^ n - 1)) = (b mod 2) * a.
Proof.
  intros Hn Ha. pose proof (Z.mod_pos_bound b 2 ltac:(lia)).
  assert (b mod 2 = 0 \/ b mod 2 = 1) as [-> | ->] by lia.
  - by rewrite !Z.mul_0_l, Z.land_0_r.
  - rewrite !Z.mul_1_l, (land_mask n); [by apply Z.mod_small|done|].
    rewrite Z.ones_equiv. lia.
Qed.

(** What a round keeps: [acc + a * b] modulo the width. *)
Definition mul_inv (n : Z) (p : Z) (st : Z * Z * Z) : Prop :=
  let '(acc, a, b) := st in
  0 <= acc < 2 ^ n /\ 0 <= a < 2 ^ n /\ 0 <= b /\ (acc + a * b) mod 2 ^ n = p mod 2 ^ n.

Lemma mul_round_mod n acc a b :
  0 < n -> 0 <= b ->
  ((acc + (b mod 2) * a) mod 2 ^ n + (2 * a) mod 2 ^ n * (b / 2)) mod 2 ^ n = (acc + a * b) mod 2 ^ n.
Proof.
  intros Hn Hb. rewrite (Zplus_mod ((acc + _) mod _)), Zmod_mod, <- Zplus_mod.
  rewrite (Zplus_mod _ (_ * (b / 2))), Zmult_mod_idemp_l, <- Zplus_mod.
  f_equal. rewrite (Z.div_mod b 2) at 3 by lia. ring.
Qed.

Lemma mulsi3_round_inv p st : mul_inv 32 p st -> mul_inv 32 p (mulsi3_round st).
Proof.
  destruct st as [[acc a] b]. intros (Hacc & Ha & Hb & Hp). unfold mulsi3_round.
  rewrite mulsi3_mask, (land_bit_mask 32) by done.
  repeat split; try apply u32_range; try by apply Z.shiftr_nonneg.
  rewrite <- Hp, <- (mul_round_mod 32 acc a b) by lia.
  unfold u32. rewrite Z.shiftl_mul_pow2, Z.shiftr_div_pow2, (Z.mul_comm a) by lia. done.
Qed.

Lemma muldi3_round_inv p st : mul_inv 64 p st -> mul_inv 64 p (muldi3_round st).
Proof.
  destruct st as [[acc a] b]. intros (Hacc & Ha & Hb & Hp). unfold muldi3_round.
  rewrite muldi3_mask, (land_bit_mask 64) by done.
  repeat split; try apply u64_range; try by apply Z.shiftr_nonneg.
  rewrite <- Hp, <- (mul_round_mod 64 acc a b) by lia.
  unfold u64. rewrite Z.shiftl_mul_pow2, Z.shiftr_div_pow2, (Z.mul_comm a) by lia. done.
Qed.

(** The multiplier [b] after [i] rounds is [b / 2 ^ i]. *)
Lemma iter_mulsi3_b i acc a b :
  0 <= b -> (Nat.iter i mulsi3_round (acc, a, b)).2 = b / 2 ^ Z.of_nat i.
Proof.
  intros Hb. induction i as [|i IH]; cbn [Nat.iter nat_rect]; [by rewrite Z.div_1_r|].
  destruct (Nat.iter i mulsi3_round (acc, a, b)) as [[acc' a'] b'] eqn:E.
  unfold Nat.iter in E. rewrite E. simpl in *. rewrite IH, Z.shiftr_div_pow2, Z.div_div by lia.
  f_equal. rewrite <- Z.pow_add_r by lia. f_equal. lia.
Qed.

Lemma iter_muldi3_b i acc a b :
  0 <= b -> (Nat.iter i muldi3_round (acc, a, b)).2 = b / 2 ^ Z.of_nat i.
Proof.
  intros Hb. induction i as [|i IH]; cbn [Nat.iter nat_rect]; [by rewrite Z.div_1_r|].
  destruct (Nat.iter i muldi3_round (acc, a, b)) as [[acc' a'] b'] eqn:E.
  unfold Nat.iter in E. rewrite E. simpl in *. rewrite IH, Z.shiftr_div_pow2, Z.div_div by lia.
  f_equal. rewrite <- Z.pow_add_r by lia. f_equal. lia.
Qed.

Lemma iter_inv {A} (P : A -> Prop) (f : A -> A) n x :
  (forall y, P y -> P (f y)) -> P x -> P (Nat.iter n f x).
Proof. intros Hf Hx. by induction n; [|apply Hf]. Qed.

Lemma mulsi3_correct a b : u32_ok a -> u32_ok b -> mulsi3 a b = u32 (a * b).
Proof.
  intros Ha Hb. unfold mulsi3.
  pose proof (iter_inv _ _ 32 (0, a, b) (mulsi3_round_inv (a * b))) as Hinv.
  pose proof (iter_mulsi3_b 32 0 a b ltac:(word_lia)) as Hend.
  destruct (Nat.iter 32 mulsi3_round (0, a, b)) as [[acc a'] b']. cbn [snd fst] in *.
  rewrite Z.div_small in Hend by done. subst b'.
  destruct Hinv as (Hacc & _ & _ & Hp); [repeat split; word_lia || done|].
  rewrite Z.mul_0_r, Z.add_0_r, Z.mod_small in Hp; done.
Qed.

Lemma muldi3_correct a b : u64_ok a -> u64_ok b -> muldi3 a b = u64 (a * b).
Proof.
  intros Ha Hb. unfold muldi3.
  pose proof (iter_inv _ _ 64 (0, a, b) (muldi3_round_inv (a * b))) as Hinv.
  pose proof (iter_muldi3_b 64 0 a b ltac:(word_lia)) as Hend.
  destruct (Nat.iter 64 muldi3_round (0, a, b)) as [[acc a'] b']. cbn [snd fst] in *.
  rewrite Z.div_small in Hend by done. subst b'.
  destruct Hinv as (Hacc & _ & _ & Hp); [repeat split; word_lia || done|].
  rewrite Z.mul_0_r, Z.add_0_r, Z.mod_small in Hp; done.
Qed.

(** ** The wipe *)

(** [mem] with its first [k] bytes zeroed. *)
Definition zeroed (k : nat) (mem : list Z) : list Z := replicate k 0 ++ drop k mem.

Lemma store_zero_extends w k mem :
  (k + w <= length mem)%nat -> store_zero w (zeroed k mem) k = zeroed (k + w) mem.
Proof.
  intros H. unfold store_zero, store_bytes, zeroed. rewrite length_replicate.
  rewrite take_app_length' by by rewrite length_replicate.
  rewrite drop_app_ge by (rewrite length_replicate; lia).
  rewrite length_replicate, drop_drop, replicate_add, <- app_assoc. do 3 f_equal. lia.
Qed.

Lemma fold_store_zero w start count mem :
  (start + count * w <= length mem)%nat ->
  foldl (fun m i => store_zero w m (start + i * w)) (zeroed start mem) (seq 0 count)
  = zeroed (start + count * w) mem.
Proof.
  induction count as [|count IH]; intros H; [by rewrite Nat.add_0_r|].
  rewrite seq_S, foldl_app, IH by lia. cbn [foldl].
  rewrite Nat.add_0_l, store_zero_extends by lia. f_equal. lia.
Qed.

Lemma fold_store_zero_1 start count mem :
  (start + count <= length mem)%nat ->
  foldl (store_zero 1) (zeroed start mem) (seq start count) = zeroed (start + count) mem.
Proof.
  induction count as [|count IH]; intros H; [by rewrite Nat.add_0_r|].
  rewrite seq_S, foldl_app, IH by lia. cbn [foldl].
  rewrite store_zero_extends by lia. f_equal. lia.
Qed.

(** Whatever the alignment of [p] and the word size, the wipe zeroes exactly
    [p[0..n)]. *)
Lemma ct_wipe_zeroes addr w mem n :
  (0 < w)%nat -> (n <= length mem)%nat -> ct_wipe addr w mem n = zeroed n mem.
Proof.
  intros Hw Hn. unfold ct_wipe.
  set (head := Nat.min _ n). assert (head <= n)%nat by (subst head; lia). clearbody head.
  set (wc := ((n - head) / w)%nat). assert (wc * w <= n - head)%nat.
  { subst wc. rewrite Nat.mul_comm. apply Nat.Div0.mul_div_le. }
  clearbody wc. change mem with (zeroed 0 mem) at 1.
  rewrite fold_store_zero_1 by lia. rewrite Nat.add_0_l, fold_store_zero by lia.
  rewrite fold_store_zero_1 by lia. f_equal. lia.
Qed.

(** ** Properties *)

(** The branch-free comparison answers 1 exactly when the first [n] bytes
    of the two strings are equal, and 0 otherwise, for strings of any content. *)
Theorem ct_memeq_decides_equality (a b : list Z) (n : nat)
    (Ha : bytes_ok a) (Hb : bytes_ok b) (Hna : (n <= length a)%nat) (Hnb : (n <= length b)%nat) :
  (ct_memeq a b n = 1 <-> take n a = take n b) /\
  (ct_memeq a b n = 0 <-> take n a <> take n b).
Proof.
  rewrite ct_memeq_spec by done. unfold bytes_eqb. case_bool_decide; cbn; naive_solver lia.
Qed.

Lemma ct_memeq_decides_equality_witness :
  ct_memeq [1; 2; 255] [1; 2; 254] 3 = 0 /\ ct_memeq [1; 2; 255] [1; 2; 254] 2 = 1.
Proof.
  assert (bytes_ok [1; 2; 255]) by (repeat constructor; done).
  assert (bytes_ok [1; 2; 254]) by (repeat constructor; done).
  split.
  - apply (ct_memeq_decides_equality [1; 2; 255] [1; 2; 254] 3); simpl; done || lia.
  - apply (ct_memeq_decides_equality [1; 2; 255] [1; 2; 254] 2); simpl; done || lia.
Defined.

(** The decomposed multiplies equal the machine multiply they replace: the
    two 32x32->64 unsigned forms and the signed one are exact over their whole
    operand range, and the truncating ones (64x32->64, and the shift-and-add
    [__mulsi3] and [__muldi3]) are the product modulo their width. *)
Theorem decomposed_multiplies_exact (a b : Z) (c d : Z) (i j : Z)
    (Ha : u32_ok a) (Hb : u32_ok b) (Hc : u64_ok c) (Hd : u64_ok d)
    (Hi : - 2 ^ 31 <= i < 2 ^ 31) (Hj : - 2 ^ 31 <= j < 2 ^ 31) :
  ct_widemul a b = a * b /\ ct_widemul_opaque a b = a * b /\
  ct_widemul_s i j = i * j /\ ct_mulsmall c b = u64 (c * b) /\
  mulsi3 a b = u32 (a * b) /\ muldi3 c d = u64 (c * d).
Proof.
  split_and!; auto using ct_widemul_correct, ct_widemul_opaque_correct, ct_widemul_s_correct,
    ct_mulsmall_correct, mulsi3_correct, muldi3_correct.
Qed.

Lemma decomposed_multiplies_exact_witness :
  ct_widemul 0xFFFFFFFF 0xFFFFFFFF = 0xFFFFFFFE00000001 /\
  ct_widemul_s (- 2 ^ 31) (- 2 ^ 31) = 2 ^ 62.
Proof.
  pose proof (decomposed_multiplies_exact 0xFFFFFFFF 0xFFFFFFFF 1 1 (- 2 ^ 31) (- 2 ^ 31)
    ltac:(done) ltac:(done) ltac:(done) ltac:(done) ltac:(done) ltac:(done)) as (H1 & _ & H2 & _).
  exact (conj H1 H2).
Defined.

(** [ct_wipe] writes zero to exactly the first [n] bytes of the object,
    whatever the address's alignment and the word size the build picked. *)
Theorem ct_wipe_exact (addr : Z) (w : nat) (mem : list Z) (n : nat)
    (Hw : (0 < w)%nat) (Hn : (n <= length mem)%nat) :
  take n (ct_wipe addr w mem n) = replicate n 0 /\ drop n (ct_wipe addr w mem n) = drop n mem.
Proof.
  rewrite ct_wipe_zeroes by done. unfold zeroed.
  by rewrite take_app_length', drop_app_length' by (by rewrite length_replicate).
Qed.

Lemma ct_wipe_exact_witness : take 5 (ct_wipe 3 4 [1; 2; 3; 4; 5; 6] 5) = [0; 0; 0; 0; 0].
Proof. apply (ct_wipe_exact 3 4 [1; 2; 3; 4; 5; 6] 5); simpl; lia. Defined.
