(* ===== verification/X25519.v ===== *)
(** * X25519: src/src/x25519.c

    The portable sixteen-word field and the Montgomery ladder of a device
    object.  The words are 16-bit digits held in signed 64-bit integers, with
    the wrap written out on every operation; the function is shown to be
    RFC 7748's, bit for bit, which includes that no intermediate overflows the
    width it is held in. *)

From Stdlib Require Import Zpow_facts Setoid Morphisms.
From S2P Require Import Prelude Limbs Ct.
Import Limbs.
Local Open Scope Z_scope.
Local Open Scope word_scope.

Module X25519.

Definition X25519_LEN : nat := 32.

(** ** The field *)

Abbreviation fe := (list Z).

Definition F121665 : fe := 0xdb41 :: 1 :: replicate 14 0.

(** Word [i] of one carry pass. *)
Definition carry_step (o : fe) (i : nat) : fe :=
  let o := <[i := s64 (get o i + 2 ^ 16)]> o in
  let c := get o i >> 16 in
  let fold := u64 (c - 1) .& (0 -64 Z.b2z (i =? 15)%nat) in
  let next := ((i + 1) * Nat.b2n (i <? 15))%nat in
  let o := <[next := s64 (get o next + (c - 1 + s64 (ct_mulsmall fold 37)))]> o in
  <[i := s64 (get o i - s64 (u64 c <<64 16))]> o.
Definition carry (o : fe) : fe := foldl carry_step o (seq 0 16).

Definition cswap (p q : fe) (b : Z) : fe * fe :=
  let mask := s64 (u64 b <<64 63) >> 63 in
  let t := zip_with (fun x y => mask .& (x .^ y)) p q in
  (zip_with Z.lxor p t, zip_with Z.lxor q t).

Definition add (a b : fe) : fe := zip_with (fun x y => s64 (x + y)) a b.
Definition sub (a b : fe) : fe := zip_with (fun x y => s64 (x - y)) a b.

(** [t[i + j] += a[i] * b[j]]. *)
Definition mul_row (a b : fe) (i : nat) (t : list Z) (j : nat) : list Z :=
  <[(i + j)%nat := s64 (get t (i + j) + ct_widemul_s (s32 (get a i)) (s32 (get b j)))]> t.
Definition mul_fold (t : list Z) (i : nat) : list Z :=
  <[i := s64 (get t i + s64 (ct_mulsmall (u64 (get t (i + 16))) 38))]> t.
Definition mul (a b : fe) : fe :=
  let t := foldl (fun t i => foldl (mul_row a b i) t (seq 0 16)) (replicate 31 0) (seq 0 16) in
  let t := foldl mul_fold t (seq 0 15) in
  carry (carry (take 16 t)).
Definition sqr (a : fe) : fe := mul a a.

Definition invert (a : fe) : fe :=
  foldl (fun c i => let c := sqr c in if negb (i =? 2)%nat && negb (i =? 4)%nat then mul c a else c) a (reverse (seq 0 254)).

Definition unpack (n : list Z) : fe :=
  let o := (fun i => get n (2 * i) .| Z.shiftl (get n (2 * i + 1)) 8) <$> seq 0 16 in
  <[15%nat := get o 15 .& 0x7fff]> o.

(** One trial subtraction of the prime: the difference and its borrow.  The
    array is written before it is read, so its first contents do not matter. *)
Definition pack_sub_step (t m : fe) (i : nat) : fe :=
  let m := <[i := s64 (get t i - 0xffff - ((get m (i - 1) >> 16) .& 1))]> m in
  <[(i - 1)%nat := get m (i - 1) .& 0xffff]> m.
Definition pack_sub (t : fe) : fe * Z :=
  let m := <[0%nat := s64 (get t 0 - 0xffed)]> (replicate 16 0) in
  let m := foldl (pack_sub_step t) m (seq 1 14) in
  let m := <[15%nat := s64 (get t 15 - 0x7fff - ((get m 14 >> 16) .& 1))]> m in
  let borrow := (get m 15 >> 16) .& 1 in
  (<[14%nat := get m 14 .& 0xffff]> m, borrow).
Definition pack_round (t : fe) : fe :=
  let '(m, borrow) := pack_sub t in (cswap t m (1 - borrow)).1.
Definition pack (n : fe) : list Z :=
  let t := carry (carry (carry n)) in
  let t := pack_round (pack_round t) in
  mjoin ((fun w => [u8 (w .& 0xff); u8 ((w >> 8) .& 0xff)]) <$> t).

(** ** The ladder *)

Definition step (s : fe * fe * fe * fe) (x : fe) (r : Z) : fe * fe * fe * fe :=
  let '(a, b, c, d) := s in
  let '(a, b) := cswap a b r in
  let '(c, d) := cswap c d r in
  let e := add a c in
  let a := sub a c in
  let c := add b d in
  let b := sub b d in
  let d := sqr e in
  let f := sqr a in
  let a := mul c a in
  let c := mul b e in
  let e := add a c in
  let a := sub a c in
  let b := sqr a in
  let c := sub d f in
  let a := mul c F121665 in
  let a := add a d in
  let c := mul c a in
  let a := mul d f in
  let d := mul b x in
  let b := sqr e in
  let '(a, b) := cswap a b r in
  let '(c, d) := cswap c d r in
  (a, b, c, d).

Definition ladder (z point : list Z) : list Z :=
  let x := unpack point in
  let b := x in
  let a := <[0%nat := 1]> (replicate 16 0) in
  let c := replicate 16 0 in
  let d := <[0%nat := 1]> (replicate 16 0) in
  let '(a, b, c, d) :=
    foldl (fun s i => step s x ((get z (i / 8) >> Z.of_nat (i mod 8)) .& 1)) (a, b, c, d) (reverse (seq 0 255)) in
  let c := invert c in
  let a := mul a c in
  pack a.

Definition clamp_and_ladder (scalar point : list Z) : list Z :=
  let z := scalar in
  let z := <[0%nat := get z 0 .& 248]> z in
  let z := <[31%nat := (get z 31 .& 127) .| 64]> z in
  ladder z point.

(** The value computed, and whether it is not all zero. *)
Definition x25519 (scalar point : list Z) : list Z * bool :=
  let out := clamp_and_ladder scalar point in
  (out, ct_memeq out (replicate 32 0) X25519_LEN =? 0).
Definition x25519_base (scalar : list Z) : list Z := clamp_and_ladder scalar (9 :: replicate 31 0).

(** ** Reference: RFC 7748, section 5 *)

Definition p : Z := 2 ^ 255 - 19.

(** [decodeScalar25519] and [decodeUCoordinate]. *)
Definition rfc_scalar (s : list Z) : Z := (le_val s mod 2 ^ 254) / 8 * 8 + 2 ^ 254.
Definition rfc_u (s : list Z) : Z := le_val s mod 2 ^ 255.

Definition a24 : Z := 121665.
Record ladder_state := Ladder { x_2 : Z; z_2 : Z; x_3 : Z; z_3 : Z; swap : Z }.
Definition swapped {A} (swap : Z) (x y : A) : A * A := if (swap =? 0) then (x, y) else (y, x).
Definition rfc_step (k x_1 : Z) (s : ladder_state) (t : nat) : ladder_state :=
  let k_t := Z.b2z (Z.testbit k (Z.of_nat t)) in
  let swap := swap s .^ k_t in
  let '(x_2, x_3) := swapped swap (x_2 s) (x_3 s) in
  let '(z_2, z_3) := swapped swap (z_2 s) (z_3 s) in
  let A := (x_2 + z_2) mod p in
  let AA := A ^ 2 mod p in
  let B := (x_2 - z_2) mod p in
  let BB := B ^ 2 mod p in
  let E := (AA - BB) mod p in
  let C := (x_3 + z_3) mod p in
  let D := (x_3 - z_3) mod p in
  let DA := D * A mod p in
  let CB := C * B mod p in
  Ladder (AA * BB mod p) (E * (AA + a24 * E) mod p) ((DA + CB) ^ 2 mod p) (x_1 * (DA - CB) ^ 2 mod p) k_t.
Definition rfc_x25519 (k u : Z) : Z :=
  let s := foldl (rfc_step k u) (Ladder 1 0 u 1 0) (reverse (seq 0 255)) in
  let '(x_2, _) := swapped (swap s) (x_2 s) (x_3 s) in
  let '(z_2, _) := swapped (swap s) (z_2 s) (z_3 s) in
  (x_2 * Zpow_mod z_2 (p - 2) p) mod p.

(** ** Lemmas: equality modulo the prime *)

Definition eqp (a b : Z) : Prop := a mod p = b mod p.
Infix "==" := eqp (at level 70, no associativity).

#[export] Instance eqp_equivalence : Equivalence eqp.
Proof. split; unfold eqp; [by intros ?|by intros ? ? ->|by intros ? ? ? -> ->]. Qed.
#[export] Instance eqp_add : Proper (eqp ==> eqp ==> eqp) Z.add.
Proof. intros a a' Ha b b' Hb. unfold eqp in *. by rewrite Zplus_mod, Ha, Hb, <- Zplus_mod. Qed.
#[export] Instance eqp_sub : Proper (eqp ==> eqp ==> eqp) Z.sub.
Proof. intros a a' Ha b b' Hb. unfold eqp in *. by rewrite Zminus_mod, Ha, Hb, <- Zminus_mod. Qed.
#[export] Instance eqp_mul : Proper (eqp ==> eqp ==> eqp) Z.mul.
Proof. intros a a' Ha b b' Hb. unfold eqp in *. by rewrite Zmult_mod, Ha, Hb, <- Zmult_mod. Qed.
Lemma eqp_mod a : a mod p == a.
Proof. unfold eqp. apply Zmod_mod. Qed.
Lemma eqp_pow a b n : a == b -> a ^ n == b ^ n.
Proof. unfold eqp. intros H. destruct (Z_le_gt_dec 0 n). - by rewrite Zpower_mod, H, <- Zpower_mod by done. - by rewrite !Z.pow_neg_r by lia. Qed.
Lemma fold_2_256 x : 2 ^ 256 * x == 38 * x.
Proof. apply eqp_mul; [reflexivity|done]. Qed.

(** ** Lemmas: one carry pass *)

Lemma s64_small x : - 2 ^ 63 <= x < 2 ^ 63 -> s64 x = x.
Proof. word_lia. Qed.

Definition carry_weight (i : nat) : Z := if (i =? 15)%nat then 38 else 1.
Definition next (i : nat) : nat := if (i =? 15)%nat then 0%nat else S i.

Lemma carry_step_exact o i : length o = 16%nat -> (i < 16)%nat -> - 2 ^ 56 < get o i < 2 ^ 56 -> - 2 ^ 56 < get o (next i) < 2 ^ 56 ->
  carry_step o i = <[i := get o i mod 2 ^ 16]> (<[next i := get o (next i) + carry_weight i * (get o i / 2 ^ 16)]> o).
Proof.
  intros Hl Hi Hb Hn. unfold carry_step, next, carry_weight in *. set (c := get o i / 2 ^ 16).
  assert (Hc : - 2 ^ 41 < c < 2 ^ 41) by (subst c; dlia).
  rewrite (s64_small (get o i + 2 ^ 16)) by lia. rewrite get_insert_eq by lia.
  assert (Es : (get o i + 2 ^ 16) >> 16 = c + 1) by (rewrite Z.shiftr_div_pow2 by lia; subst c; dlia). rewrite Es.
  replace (c + 1 - 1) with c by lia.
  assert (Ew : c + s64 (ct_mulsmall (u64 c .& (0 -64 Z.b2z (i =? 15)%nat)) 37) = (if (i =? 15)%nat then 38 else 1) * c).
  { destruct (Nat.eqb_spec i 15); cbn [Z.b2z].
    - rewrite (land_mask 64) by done. rewrite (Z.mod_small (u64 c)) by apply u64_range. rewrite ct_mulsmall_correct by (apply u64_range || word_lia). word_lia.
    - change (0 -64 0) with 0. rewrite Z.land_0_r, ct_mulsmall_correct by (done || word_lia). change (s64 (u64 (0 * 37))) with 0. lia. }
  rewrite Ew. clear Ew.
  assert (Elast : forall a, a = (get o i + 2 ^ 16) -> s64 (a - s64 (u64 (c + 1) <<64 16)) = get o i mod 2 ^ 16).
  { intros a ->. rewrite Z.shiftl_mul_pow2 by lia. replace (get o i) with (c * 2 ^ 16 + get o i mod 2 ^ 16) by (subst c; dlia). generalize (get o i mod 2 ^ 16) (Z.mod_pos_bound (get o i) (2 ^ 16) ltac:(lia)).
    intros m Hm. rewrite (Z.add_comm (c * 2 ^ 16)), Z_mod_plus_full, (Z.mod_small m) by done. word_lia. }
  assert (En : ((i + 1) * Nat.b2n (i <? 15))%nat = if (i =? 15)%nat then 0%nat else S i).
  { destruct (Nat.eqb_spec i 15) as [->|]; [done|]. destruct (Nat.ltb_spec i 15); cbn [Nat.b2n]; lia. }
  rewrite En. clear En. set (n := if (i =? 15)%nat then 0%nat else S i) in *. set (k := if (i =? 15)%nat then 38 else 1).
  assert (Hin : i <> n) by (subst n; destruct (Nat.eqb_spec i 15); lia). assert (Hn16 : (n < 16)%nat) by (subst n; destruct (Nat.eqb_spec i 15); lia).
  assert (Hk : 1 <= k <= 38) by (subst k; destruct (i =? 15)%nat; lia).
  rewrite (get_insert_ne o i n) by done. rewrite (s64_small (get o n + k * c)) by nia.
  rewrite get_insert_ne, get_insert_eq by (rewrite ?length_insert; lia). rewrite Elast by done.
  by rewrite (list_insert_insert_ne o n i), list_insert_insert_eq by done.
Qed.
Lemma length_carry_step o i : length (carry_step o i) = length o.
Proof. unfold carry_step. by rewrite !length_insert. Qed.

(** The state of a pass before word [i]: the words below are digits, word [i]
    holds the carry into it, and the words above are as they were. *)
Definition passing (o : fe) (L H : nat -> Z) (i : nat) (x : fe) : Prop :=
  length x = 16%nat /\ (forall j, (j < i)%nat -> (j < 16)%nat -> (0 < j \/ i <= 15)%nat -> 0 <= get x j < 2 ^ 16) /\
  (forall j, (i < j < 16)%nat -> get x j = get o j) /\
  exists c, L i <= c <= H i /\
    if (i <=? 15)%nat then get x i = get o i + c /\ lval 16 x = lval 16 o /\ ((0 < i)%nat -> get x 0 = get o 0 mod 2 ^ 16)
    else get x 0 = get o 0 mod 2 ^ 16 + 38 * c /\ lval 16 x = lval 16 o + c * (38 - 2 ^ 256).

(** Intervals the carries of a pass stay within. *)
Definition carries (o : fe) (L H : nat -> Z) : Prop :=
  L 0%nat = 0 /\ H 0%nat = 0 /\ forall i, (i < 16)%nat ->
    - 2 ^ 45 <= L i /\ H i <= 2 ^ 45 /\ - 2 ^ 55 < get o i < 2 ^ 55 /\ L (S i) <= (get o i + L i) / 2 ^ 16 /\ (get o i + H i) / 2 ^ 16 <= H (S i).

Lemma carry_next o L H i x : length o = 16%nat -> carries o L H -> (i < 16)%nat -> passing o L H i x -> passing o L H (S i) (carry_step x i).
Proof.
  intros Ho (H0 & H0' & Hc) Hi (Hl & Hlow & Hhigh & c & Hcr & Hx).
  destruct (Nat.leb_spec i 15) as [_|]; [|lia]. destruct Hx as (Hxi & Hv & Hx0). destruct (Hc i Hi) as (HL & HH & Hoi & HL' & HH').
  assert (Hcc : L (S i) <= get x i / 2 ^ 16 <= H (S i)) by (rewrite Hxi; dlia).
  assert (Hnb : - 2 ^ 55 < get x (next i) < 2 ^ 55).
  { unfold next. destruct (Nat.eqb_spec i 15) as [->|].
    - rewrite Hx0 by lia. pose proof (Z.mod_pos_bound (get o 0) (2 ^ 16) ltac:(lia)). lia.
    - rewrite Hhigh by lia. destruct (Hc (S i) ltac:(lia)) as (_ & _ & ? & _). lia. }
  assert (Hne : i <> next i) by (unfold next; destruct (Nat.eqb_spec i 15); lia). assert (Hn : (next i < 16)%nat) by (unfold next; destruct (Nat.eqb_spec i 15); lia).
  rewrite carry_step_exact by (done || lia). split; [by rewrite !length_insert|]. pose proof (Z.mod_pos_bound (get x i) (2 ^ 16) ltac:(lia)) as Hm.
  split; [|split].
  - intros j Hj Hj16 Hor. destruct (decide (i = j)) as [<-|Hij]; [rewrite get_insert_eq by (rewrite length_insert; lia); done|].
    rewrite !get_insert_ne; [|unfold next; destruct (Nat.eqb_spec i 15); lia|done]. apply Hlow; lia.
  - intros j Hj. rewrite !get_insert_ne; [apply Hhigh; lia|unfold next; destruct (Nat.eqb_spec i 15); lia|lia].
  - exists (get x i / 2 ^ 16). split; [done|]. rewrite lval_insert, lval_insert, (get_insert_ne x) by (rewrite ?length_insert; done || lia). rewrite Hv.
    unfold next, carry_weight in *. destruct (Nat.eqb_spec i 15) as [->|Hi15].
    + cbn [Nat.leb]. change (16 <=? 15)%nat with false. cbn iota. rewrite get_insert_ne, get_insert_eq, Hx0 by (rewrite ?length_insert; lia). split; [done|].
      change (2 ^ (16 * Z.of_nat 15)) with (2 ^ 240). change (2 ^ (16 * Z.of_nat 0)) with 1. change (2 ^ 256) with (2 ^ 16 * 2 ^ 240). dlia.
    + destruct (Nat.leb_spec (S i) 15); [|lia]. rewrite get_insert_ne, get_insert_eq, (Hhigh (S i)) by (rewrite ?length_insert; lia). split; [lia|]. split.
      * replace (16 * Z.of_nat (S i)) with (16 + 16 * Z.of_nat i) by lia. rewrite Z.pow_add_r by lia. generalize (2 ^ (16 * Z.of_nat i)). intros q. pose proof (Z.div_mod (get x i) (2 ^ 16) ltac:(lia)). nia.
      * intros _. destruct i as [|i]; [|rewrite get_insert_ne, get_insert_ne by lia; apply Hx0; lia].
        rewrite get_insert_eq by (rewrite length_insert; lia). f_equal. rewrite Hxi. lia.
Qed.

Lemma carry_pass o L H : length o = 16%nat -> carries o L H ->
  exists c, L 16%nat <= c <= H 16%nat /\ length (carry o) = 16%nat /\ get (carry o) 0 = get o 0 mod 2 ^ 16 + 38 * c /\
    (forall j, (1 <= j < 16)%nat -> 0 <= get (carry o) j < 2 ^ 16) /\ lval 16 (carry o) = lval 16 o + c * (38 - 2 ^ 256).
Proof.
  intros Ho Hc. assert (Hp : passing o L H 16 (carry o)).
  { unfold carry. apply (foldl_seq_ind (passing o L H)); [|intros i x Hi; by apply carry_next]. split; [done|]. split; [lia|]. split; [done|].
    exists 0. destruct Hc as (-> & -> & _). split; [lia|]. cbn [Nat.leb]. change (0 <=? 15)%nat with true. cbn iota. split; [lia|]. split; [done|lia]. }
  destruct Hp as (Hl & Hlow & _ & c & Hcr & H0 & Hv). exists c. split_and!; try done; try lia. intros j Hj. apply Hlow; lia.
Qed.

(** ** Lemmas: ranges of field elements *)

(** What a multiply leaves, and what an addition or a subtraction may then make of it. *)
Definition carried (x : fe) : Prop :=
  length x = 16%nat /\ - 38 <= get x 0 < 2 ^ 16 + 38 /\ forall j, (1 <= j < 16)%nat -> 0 <= get x j < 2 ^ 16.
Definition loose (x : fe) : Prop := length x = 16%nat /\ forall j, (j < 16)%nat -> - 2 ^ 18 < get x j < 2 ^ 18.
Definition digits (x : fe) : Prop := length x = 16%nat /\ Forall (fun w => 0 <= w < 2 ^ 16) x.

Lemma digits_carried x : digits x -> carried x.
Proof.
  intros [Hl Hx]. split; [done|]. assert (H : forall j, (j < 16)%nat -> 0 <= get x j < 2 ^ 16).
  { intros j Hj. apply (get_forall (fun w => 0 <= w < 2 ^ 16)); [done|lia]. }
  split; [pose proof (H 0%nat ltac:(lia)); lia|]. intros j Hj. apply H. lia.
Qed.
Lemma carried_word x j : carried x -> (j < 16)%nat -> - 38 <= get x j < 2 ^ 16 + 38.
Proof. intros (_ & H0 & H) Hj. destruct j as [|j]; [done|]. specialize (H (S j) ltac:(lia)). lia. Qed.
Lemma carried_loose x : carried x -> loose x.
Proof. intros H. split; [apply H|]. intros j Hj. pose proof (carried_word x j H Hj). lia. Qed.

(** Two passes over words below [2^50]. *)
Lemma carry_twice o : length o = 16%nat -> (forall i, (i < 16)%nat -> - 2 ^ 50 < get o i < 2 ^ 50) ->
  carried (carry (carry o)) /\ lval 16 (carry (carry o)) == lval 16 o.
Proof.
  intros Hl Ho.
  destruct (carry_pass o (fun i => if (i =? 0)%nat then 0 else - 2 ^ 35) (fun i => if (i =? 0)%nat then 0 else 2 ^ 35) Hl) as (c & Hc & Hl1 & H0 & H1 & Hv).
  { split; [done|]. split; [done|]. intros i Hi. specialize (Ho i Hi). cbn [Nat.eqb]. destruct (i =? 0)%nat; dlia. }
  cbn in Hc. pose proof (Z.mod_pos_bound (get o 0) (2 ^ 16) ltac:(lia)) as Hm.
  destruct (carry_pass (carry o)
    (fun i => match i with 0%nat => 0 | 1%nat => - 2 ^ 26 | 2%nat => - (2 ^ 10 + 1) | _ => - 1 end)
    (fun i => match i with 0%nat => 0 | 1%nat => 2 ^ 26 | 2%nat => 2 ^ 10 + 1 | _ => 1 end) Hl1) as (c' & Hc' & Hl2 & H0' & H1' & Hv').
  { split; [done|]. split; [done|]. intros i Hi. destruct i as [|i]; [rewrite H0; dlia|]. specialize (H1 (S i) ltac:(lia)). destruct i as [|[|i]]; dlia. }
  cbn in Hc'. pose proof (Z.mod_pos_bound (get (carry o) 0) (2 ^ 16) ltac:(lia)) as Hm'. split.
  - split; [done|]. split; [lia|done].
  - rewrite Hv', Hv. unfold eqp. replace (_ + _) with (lval 16 o + ((c + c') * -2) * p) by (unfold p; ring). apply Z_mod_plus_full.
Qed.

Lemma lval_word0 o : length o = 16%nat -> lval 16 o = get o 0 + 2 ^ 16 * lval 16 (drop 1 o).
Proof. destruct o as [|x o]; [done|]. intros _. cbn [lval drop get nth]. by rewrite drop_0. Qed.
Lemma rest_bound o : length o = 16%nat -> (forall j, (1 <= j < 16)%nat -> 0 <= get o j < 2 ^ 16) -> 0 <= lval 16 (drop 1 o) < 2 ^ 240.
Proof.
  intros Hl Ho. pose proof (lval_bound 16 ltac:(lia) (drop 1 o)) as H. rewrite length_drop, Hl in H. apply H.
  apply get_all. rewrite length_drop, Hl. intros j Hj. rewrite get_drop. apply Ho. lia.
Qed.
Lemma digits_iff o : digits o <-> length o = 16%nat /\ 0 <= get o 0 < 2 ^ 16 /\ forall j, (1 <= j < 16)%nat -> 0 <= get o j < 2 ^ 16.
Proof.
  split.
  - intros Hd. pose proof (digits_carried o Hd) as (Hl & _ & Hj). split; [done|]. split; [|done]. destruct Hd as [_ Hd]. apply (get_forall (fun w => 0 <= w < 2 ^ 16)); [done|lia].
  - intros (Hl & H0 & Hj). split; [done|]. apply get_all. intros [|i] Hi; [done|]. apply Hj. lia.
Qed.

(** A pass over what a multiply leaves puts every word in range. *)
Lemma carry_digits o : carried o -> digits (carry o) /\ lval 16 (carry o) == lval 16 o.
Proof.
  intros Ho. pose proof Ho as (Hl & H0 & Hj).
  destruct (carry_pass o (fun i => match i with 0%nat => 0 | _ => - 1 end) (fun i => match i with 0%nat => 0 | _ => 1 end) Hl) as (c & Hc & Hl1 & E0 & H1 & Hv).
  { split; [done|]. split; [done|]. intros i Hi. destruct i as [|i]; [dlia|]. specialize (Hj (S i) ltac:(lia)). dlia. }
  cbn in Hc. split.
  - apply digits_iff. split; [done|]. split; [|done]. pose proof (Z.mod_pos_bound (get o 0) (2 ^ 16) ltac:(lia)) as Hm. rewrite E0.
    rewrite (lval_word0 _ Hl), (lval_word0 _ Hl1), E0 in Hv. pose proof (rest_bound o Hl Hj) as Hr. pose proof (rest_bound _ Hl1 H1) as Hr1.
    change (2 ^ 256) with (2 ^ 16 * 2 ^ 240) in Hv. assert (Hcs : c = -1 \/ c = 0 \/ c = 1) by lia. destruct Hcs as [->|[->| ->]]; lia.
  - rewrite Hv. unfold eqp. replace (_ + _) with (lval 16 o + (c * -2) * p) by (unfold p; ring). apply Z_mod_plus_full.
Qed.

(** ** Lemmas: the operations *)

Lemma length_zip16 (f : Z -> Z -> Z) a b : length a = 16%nat -> length b = 16%nat -> length (zip_with f a b) = 16%nat.
Proof. intros Ha Hb. rewrite length_zip_with. lia. Qed.

Lemma add_spec a b : carried a -> carried b -> loose (add a b) /\ lval 16 (add a b) = lval 16 a + lval 16 b.
Proof.
  intros Ha Hb. assert (Hw : forall i, (i < 16)%nat -> get (add a b) i = get a i + get b i).
  { intros i Hi. unfold add. rewrite get_zip_with by (destruct Ha, Hb; lia). pose proof (carried_word a i Ha Hi). pose proof (carried_word b i Hb Hi). apply s64_small. lia. }
  split.
  - split; [apply length_zip16; [apply Ha|apply Hb]|]. intros i Hi. rewrite Hw by done. pose proof (carried_word a i Ha Hi). pose proof (carried_word b i Hb Hi). lia.
  - apply lval_zip_with; [destruct Ha, Hb; lia|]. intros i Hi. apply Hw. destruct Ha. lia.
Qed.
Lemma sub_spec a b : carried a -> carried b -> loose (sub a b) /\ lval 16 (sub a b) = lval 16 a - lval 16 b.
Proof.
  intros Ha Hb. assert (Hw : forall i, (i < 16)%nat -> get (sub a b) i = get a i - get b i).
  { intros i Hi. unfold sub. rewrite get_zip_with by (destruct Ha, Hb; lia). pose proof (carried_word a i Ha Hi). pose proof (carried_word b i Hb Hi). apply s64_small. lia. }
  split.
  - split; [apply length_zip16; [apply Ha|apply Hb]|]. intros i Hi. rewrite Hw by done. pose proof (carried_word a i Ha Hi). pose proof (carried_word b i Hb Hi). lia.
  - apply lval_zip_sub; [destruct Ha, Hb; lia|]. intros i Hi. apply Hw. destruct Ha. lia.
Qed.

Lemma zip_xor_mask mask (a b : list Z) : length a = length b ->
  zip_with Z.lxor a (zip_with (fun x y => mask .& (x .^ y)) a b) = zip_with (fun x y => x .^ (mask .& (x .^ y))) a b /\
  zip_with Z.lxor b (zip_with (fun x y => mask .& (x .^ y)) a b) = zip_with (fun x y => y .^ (mask .& (x .^ y))) a b.
Proof.
  revert b. induction a as [|x a IH]; intros [|y b] Hl; try discriminate Hl; [done|]. cbn [zip_with]. injection Hl as Hl.
  destruct (IH b Hl) as [-> ->]. done.
Qed.
Lemma zip_with_fst (a b : list Z) : length a = length b -> zip_with (fun x _ => x) a b = a.
Proof. revert b. induction a as [|x a IH]; intros [|y b] Hl; try discriminate Hl; [done|]. cbn [zip_with]. f_equal. apply IH. by injection Hl. Qed.
Lemma zip_with_snd (a b : list Z) : length a = length b -> zip_with (fun _ y => y) a b = b.
Proof. revert b. induction a as [|x a IH]; intros [|y b] Hl; try discriminate Hl; [done|]. cbn [zip_with]. f_equal. apply IH. by injection Hl. Qed.

Lemma cswap_spec a b (r : bool) : length a = length b -> cswap a b (Z.b2z r) = if r then (b, a) else (a, b).
Proof.
  intros Hl. unfold cswap. destruct (zip_xor_mask (s64 (u64 (Z.b2z r) <<64 63) >> 63) a b Hl) as [-> ->].
  assert (Hext : forall f g : Z -> Z -> Z, (forall x y, f x y = g x y) -> zip_with f a b = zip_with g a b).
  { intros f g Hfg. clear Hl. revert b. induction a as [|x a' IH]; intros [|y b']; try done. cbn [zip_with]. by rewrite Hfg, IH. }
  destruct r; cbn [Z.b2z].
  - change (s64 (u64 1 <<64 63) >> 63) with (-1). rewrite (Hext _ (fun _ y => y)), (Hext (fun x y => y .^ _) (fun x _ => x)), zip_with_fst, zip_with_snd by
      (done || (intros x y; rewrite Z.land_m1_l; rewrite ?(Z.lxor_comm x y), <- Z.lxor_assoc, Z.lxor_nilpotent, Z.lxor_0_l; done)
       || (intros x y; rewrite Z.land_m1_l; rewrite <- Z.lxor_assoc, Z.lxor_nilpotent, Z.lxor_0_l; done)). done.
  - change (s64 (u64 0 <<64 63) >> 63) with 0. rewrite (Hext _ (fun x _ => x)), (Hext (fun x y => y .^ _) (fun _ y => y)), zip_with_fst, zip_with_snd by
      (done || (intros x y; by rewrite Z.land_0_l, Z.lxor_0_r)). done.
Qed.

(** The rows of products: after [n] of the 256 updates every word is below [n 2^36]. *)
Definition summed (n : nat) (v : Z) (t : list Z) : Prop :=
  length t = 31%nat /\ (forall k, (k < 31)%nat -> - (Z.of_nat n * 2 ^ 36) <= get t k <= Z.of_nat n * 2 ^ 36) /\ lval 16 t = v.

Lemma mul_row_spec a b i t n v : loose a -> loose b -> (i < 16)%nat -> (n <= 240)%nat -> summed n v t ->
  summed (n + 16) (v + get a i * 2 ^ (16 * Z.of_nat i) * lval 16 b) (foldl (mul_row a b i) t (seq 0 16)).
Proof.
  intros [La Ha] [Lb Hb] Hi Hn Ht. rewrite <- (take_ge b 16) at 1 by lia.
  apply (foldl_seq_ind (fun j => summed (n + j) (v + get a i * 2 ^ (16 * Z.of_nat i) * lval 16 (take j b)))).
  - rewrite take_0. cbn [lval]. by rewrite Nat.add_0_r, Z.mul_0_r, Z.add_0_r.
  - clear t Ht. intros j t Hj (Ht & Hw & Hv). unfold mul_row. pose proof (Ha i Hi) as Hai. pose proof (Hb j Hj) as Hbj.
    assert (E1 : s32 (get a i) = get a i) by word_lia. assert (E2 : s32 (get b j) = get b j) by word_lia.
    rewrite E1, E2, ct_widemul_s_correct by lia. pose proof (Hw (i + j)%nat ltac:(lia)) as Hij.
    assert (Hp : - 2 ^ 36 <= get a i * get b j <= 2 ^ 36) by nia.
    rewrite s64_small by lia. split; [by rewrite length_insert|]. split.
    + intros k Hk. rewrite get_insert by lia. specialize (Hw k Hk). case_decide; lia.
    + rewrite lval_insert, Hv, lval_take_S by (done || lia). rewrite Nat2Z.inj_add, Z.mul_add_distr_l, Z.pow_add_r by lia. ring.
Qed.

Lemma mul_rows_spec a b : loose a -> loose b ->
  summed 256 (lval 16 a * lval 16 b) (foldl (fun t i => foldl (mul_row a b i) t (seq 0 16)) (replicate 31 0) (seq 0 16)).
Proof.
  intros Ha Hb. rewrite <- (take_ge a 16) at 1 by (destruct Ha; lia).
  apply (foldl_seq_ind (fun i => summed (i * 16) (lval 16 (take i a) * lval 16 b))).
  - split; [done|]. split; [intros k Hk; rewrite get_replicate by done; lia|]. by rewrite take_0, lval_replicate_0.
  - intros i t Hi Ht. rewrite lval_take_S by (destruct Ha; lia). rewrite Z.mul_add_distr_r. replace (S i * 16)%nat with (i * 16 + 16)%nat by lia.
    apply (mul_row_spec a b i); try done. lia.
Qed.

Lemma mul_fold_spec t v : summed 256 v t ->
  let t' := foldl mul_fold t (seq 0 15) in
  length t' = 31%nat /\ (forall i, (i < 16)%nat -> - 2 ^ 50 < get t' i < 2 ^ 50) /\ lval 16 (take 16 t') == v.
Proof.
  intros (Ht & Hw & Hv) t'.
  assert (H : length t' = 31%nat /\ forall k, (k < 31)%nat -> get t' k = get t k + if (k <? 15)%nat then 38 * get t (k + 16) else 0).
  { subst t'. apply (foldl_seq_ind (fun n x => length x = 31%nat /\ forall k, (k < 31)%nat -> get x k = get t k + if (k <? n)%nat then 38 * get t (k + 16) else 0)).
    - split; [done|]. intros k Hk. destruct (Nat.ltb_spec k 0); lia.
    - intros i x Hi [Lx Hx]. unfold mul_fold. split; [by rewrite length_insert|]. intros k Hk.
      pose proof (Hx i ltac:(lia)) as Hxi. pose proof (Hx (i + 16)%nat ltac:(lia)) as Hxh. destruct (Nat.ltb_spec i i); [lia|]. destruct (Nat.ltb_spec (i + 16) i); [lia|].
      rewrite get_insert, Hxi, Hxh by lia. pose proof (Hw i ltac:(lia)). pose proof (Hw (i + 16)%nat ltac:(lia)).
      rewrite ct_mulsmall_correct by (apply u64_range || word_lia). rewrite !Z.add_0_r.
      assert (E : s64 (u64 (u64 (get t (i + 16)) * 38)) = 38 * get t (i + 16)) by word_lia. rewrite E, s64_small by lia.
      case_decide as Ek; [subst k; destruct (Nat.ltb_spec i (S i)); lia|]. rewrite Hx by done. destruct (Nat.ltb_spec k i), (Nat.ltb_spec k (S i)); lia. }
  destruct H as [Lt Hg]. split; [done|]. split.
  - intros i Hi. rewrite Hg by lia. pose proof (Hw i ltac:(lia)). destruct (i <? 15)%nat eqn:E; [|lia]. apply Nat.ltb_lt in E. pose proof (Hw (i + 16)%nat ltac:(lia)). lia.
  - assert (E : take 16 t' = zip_with (fun x y => x + 38 * y) (take 16 t) (drop 16 t ++ [0])).
    { apply get_ext; [rewrite length_take, length_zip_with, length_app, length_take, length_drop, Lt, Ht; done|]. rewrite length_take, Lt. intros i Hi.
      rewrite get_take, Hg, get_zip_with, get_take by (rewrite ?length_app, ?length_take, ?length_drop, ?Ht; cbn [length]; lia). f_equal.
      destruct (Nat.ltb_spec i 15).
      - unfold get. rewrite app_nth1 by (rewrite length_drop; lia). pose proof (get_drop 16 t i) as Hd. unfold get in Hd. rewrite Hd. do 2 f_equal. lia.
      - unfold get. rewrite app_nth2 by (rewrite length_drop; lia). rewrite length_drop, Ht. replace (i - (31 - 16))%nat with 0%nat by lia. done. }
    assert (Ez : forall l m : list Z, length l = length m -> lval 16 (zip_with (fun x y => x + 38 * y) l m) = lval 16 l + 38 * lval 16 m).
    { induction l as [|x l IH]; intros [|y m] Hlm; try discriminate Hlm; [done|]. cbn [zip_with lval]. rewrite IH by by injection Hlm. ring. }
    rewrite E, Ez by (rewrite length_take, length_app, length_drop, Ht; done). rewrite <- Hv. transitivity (lval 16 (take 16 t ++ drop 16 t)); [|by rewrite take_drop]. rewrite !lval_app, length_drop, length_take, Ht by done.
    change (lval 16 [0]) with 0. rewrite Z.mul_0_r, Z.add_0_r. change (2 ^ (16 * Z.of_nat (16 `min` 31))) with (2 ^ 256). by rewrite fold_2_256.
Qed.

Lemma mul_spec a b : loose a -> loose b -> carried (mul a b) /\ lval 16 (mul a b) == lval 16 a * lval 16 b.
Proof.
  intros Ha Hb. pose proof (mul_rows_spec a b Ha Hb) as Hs. apply mul_fold_spec in Hs as (Hl & Hw & Hv). unfold mul.
  revert Hl Hw Hv. generalize (foldl mul_fold (foldl (fun t i => foldl (mul_row a b i) t (seq 0 16)) (replicate 31 0) (seq 0 16)) (seq 0 15)).
  intros t Hl Hw Hv. destruct (carry_twice (take 16 t)) as [Hc He]; [rewrite length_take; lia|intros i Hi; rewrite get_take by done; by apply Hw|].
  split; [done|]. by rewrite He.
Qed.

(** ** Lemmas: inversion *)

#[export] Instance eqp_pow_proper : Proper (eqp ==> eq ==> eqp) Z.pow.
Proof. intros a b H n ? <-. by apply eqp_pow. Qed.

(** A field element that holds [v]. *)
Definition rep (x : fe) (v : Z) : Prop := carried x /\ lval 16 x == v.

Lemma rep_mul a b u v : rep a u -> rep b v -> rep (mul a b) (u * v).
Proof.
  intros [Ha Hu] [Hb Hv]. destruct (mul_spec a b (carried_loose a Ha) (carried_loose b Hb)) as [Hc He]. split; [done|]. by rewrite He, Hu, Hv.
Qed.

Lemma exponent_bit i : (i < 254)%nat -> Z.testbit (p - 2) (Z.of_nat i) = negb (i =? 2)%nat && negb (i =? 4)%nat.
Proof.
  intros Hi. assert (H : forallb (fun i => eqb (Z.testbit (p - 2) (Z.of_nat i)) (negb (i =? 2)%nat && negb (i =? 4)%nat)) (seq 0 254) = true) by (vm_compute; done).
  rewrite forallb_forall in H. apply eqb_prop. apply (H i). apply in_seq. lia.
Qed.

Lemma invert_spec a u : rep a u -> rep (invert a) (u ^ (p - 2)).
Proof.
  intros Ha. unfold invert. change (p - 2) with ((p - 2) / 2 ^ Z.of_nat 0).
  apply (foldl_down_ind (fun i c => rep c (u ^ ((p - 2) / 2 ^ Z.of_nat i)))).
  - change ((p - 2) / 2 ^ Z.of_nat 254) with 1. by rewrite Z.pow_1_r.
  - intros i c Hi Hc. cbn zeta. unfold sqr. rewrite <- exponent_bit by done. set (e := (p - 2) / 2 ^ Z.of_nat (S i)) in *.
    assert (He : 0 <= e) by (apply Z.div_pos; [done|apply Z.pow_pos_nonneg; lia]).
    assert (E : (p - 2) / 2 ^ Z.of_nat i = 2 * e + Z.b2z (Z.testbit (p - 2) (Z.of_nat i))).
    { subst e. rewrite Nat2Z.inj_succ, <- Z.add_1_r, Z.pow_add_r, <- Z.div_div by (try apply Z.pow_pos_nonneg; lia). rewrite Z.testbit_spec' by lia.
      change (2 ^ 1) with 2. pose proof (Z.div_mod ((p - 2) / 2 ^ Z.of_nat i) 2). lia. }
    rewrite E. destruct (Z.testbit (p - 2) (Z.of_nat i)); cbn [Z.b2z].
    + rewrite Z.pow_add_r, Z.pow_1_r by lia. replace (2 * e) with (e + e) by lia. rewrite Z.pow_add_r by lia. by repeat apply rep_mul.
    + rewrite Z.add_0_r. replace (2 * e) with (e + e) by lia. rewrite Z.pow_add_r by lia. by apply rep_mul.
Qed.

(** ** Lemmas: bytes and words *)

Lemma unpack_words k : forall n, length n = (2 * k)%nat -> bytes_ok n ->
  let o := (fun i => get n (2 * i) .| Z.shiftl (get n (2 * i + 1)) 8) <$> seq 0 k in
  Forall (fun w => 0 <= w < 2 ^ 16) o /\ lval 16 o = le_val n.
Proof.
  induction k as [|k IH]; intros n Hl Hn.
  - destruct n; [|discriminate Hl]. split; [apply Forall_nil_2|done].
  - destruct n as [|x [|y n]]; [discriminate Hl| |]; [cbn [length] in Hl; lia|]. cbn [length] in Hl.
    apply Forall_cons in Hn as [Hx Hn]. apply Forall_cons in Hn as [Hy Hn]. destruct (IH n ltac:(lia) Hn) as [Hf Hv].
    cbn [seq]. rewrite <- fmap_S_seq. cbn [fmap list_fmap]. rewrite <- list_fmap_compose.
    assert (E : ((fun i => get (x :: y :: n) (2 * i) .| Z.shiftl (get (x :: y :: n) (2 * i + 1)) 8) ∘ S) <$> seq 0 k =
      (fun i => get n (2 * i) .| Z.shiftl (get n (2 * i + 1)) 8) <$> seq 0 k).
    { apply list_fmap_ext. intros _ i _. cbn [compose]. replace (2 * S i)%nat with (S (S (2 * i))) by lia. replace (S (S (2 * i)) + 1)%nat with (S (S (2 * i + 1))) by lia. done. }
    rewrite E. change (get (x :: y :: n) (2 * 0)) with x. change (get (x :: y :: n) (2 * 0 + 1)) with y.
    unfold byte_ok in *. rewrite lor_shiftl_add by lia. cbn [lval le_val]. rewrite Hv. split; [apply Forall_cons; split; [lia|done]|lia].
Qed.

Lemma unpack_spec n : length n = 32%nat -> bytes_ok n -> digits (unpack n) /\ lval 16 (unpack n) = rfc_u n.
Proof.
  intros Hl Hn. destruct (unpack_words 16 n Hl Hn) as [Hf Hv]. unfold unpack, rfc_u. cbv zeta. rewrite <- Hv.
  assert (Ho : length ((fun i => get n (2 * i) .| Z.shiftl (get n (2 * i + 1)) 8) <$> seq 0 16) = 16%nat) by (by rewrite length_fmap, length_seq).
  revert Hf Ho. clear. generalize ((fun i => get n (2 * i) .| Z.shiftl (get n (2 * i + 1)) 8) <$> seq 0 16). intros o Hf Ho.
  assert (H15 : 0 <= get o 15 < 2 ^ 16) by (apply (get_forall (fun w => 0 <= w < 2 ^ 16)); [done|lia]).
  rewrite (land_mask 15) by done. split.
  - split; [by rewrite length_insert|]. apply Forall_insert; [done|]. dlia.
  - rewrite lval_insert by lia. change (16 * Z.of_nat 15) with 240.
    pose proof (lval_take_S 16 ltac:(lia) o 15 ltac:(lia)) as Ht. rewrite take_ge in Ht by lia. change (16 * Z.of_nat 15) with 240 in Ht. rewrite Ht.
    pose proof (lval_bound 16 ltac:(lia) (take 15 o) ltac:(by apply Forall_take)) as Hb. rewrite length_take, Ho in Hb. change (2 ^ (16 * Z.of_nat (15 `min` 16))) with (2 ^ 240) in Hb.
    apply (Z.mod_unique_pos _ _ (get o 15 / 2 ^ 15)).
    + change (2 ^ 255) with (2 ^ 15 * 2 ^ 240). pose proof (Z.mod_pos_bound (get o 15) (2 ^ 15) ltac:(lia)). lia.
    + change (2 ^ 255) with (2 ^ 15 * 2 ^ 240). pose proof (Z.div_mod (get o 15) (2 ^ 15) ltac:(lia)) as Hd.
      revert Hd. generalize (get o 15 / 2 ^ 15) (get o 15 mod 2 ^ 15). intros q r ->. ring.
Qed.

(** The prime's words. *)
Definition p_words : fe := 0xffed :: replicate 14 0xffff ++ [0x7fff].

(** The subtraction before word [i]: the difference so far, its last word not reduced. *)
Definition subtracting (t : fe) (i : nat) (m : fe) : Prop :=
  length m = 16%nat /\ (forall j, (j < i - 1)%nat -> 0 <= get m j < 2 ^ 16) /\ - 2 ^ 16 <= get m (i - 1) < 2 ^ 16 /\
  lval 16 (take i m) = lval 16 (take i t) - lval 16 (take i p_words).

Lemma borrow_bit x : - 2 ^ 16 <= x < 2 ^ 16 -> (x >> 16) .& 1 = Z.b2z (x <? 0).
Proof.
  intros Hx. rewrite Z.shiftr_div_pow2, (land_mask 1) by done. destruct (Z.ltb_spec x 0); cbn [Z.b2z].
  - assert (E : x / 2 ^ 16 = -1) by dlia. by rewrite E.
  - by rewrite Z.div_small by lia.
Qed.

Lemma p_word i : (1 <= i < 15)%nat -> get p_words i = 0xffff.
Proof. intros Hi. do 15 (destruct i as [|i]; [lia || done|]). lia. Qed.

Lemma digits_word t j : digits t -> (j < 16)%nat -> 0 <= get t j < 2 ^ 16.
Proof. intros [Hl Ht] Hj. apply (get_forall (fun w => 0 <= w < 2 ^ 16)); [done|lia]. Qed.

(** Word [i] of the difference, with the borrow of the word below taken out of it. *)
Lemma sub_word t i m k : digits t -> (1 <= i < 16)%nat -> 0 <= k < 2 ^ 16 -> k = get p_words i -> subtracting t i m ->
  let m1 := <[i := s64 (get t i - k - ((get m (i - 1) >> 16) .& 1))]> m in
  subtracting t (S i) (<[(i - 1)%nat := get m1 (i - 1) .& 0xffff]> m1).
Proof.
  intros Ht Hi Hk Ek (Hl & Hlow & Hlast & Hv). pose proof (digits_word t i Ht ltac:(lia)) as Hti. rewrite borrow_bit by done.
  set (b := Z.b2z (get m (i - 1) <? 0)). assert (Hb : 0 <= b <= 1 /\ get m (i - 1) mod 2 ^ 16 = get m (i - 1) + 2 ^ 16 * b).
  { subst b. destruct (Z.ltb_spec (get m (i - 1)) 0); cbn [Z.b2z]; dlia. }
  rewrite s64_small by lia. intros m1. assert (L1 : length m1 = 16%nat) by (unfold m1; by rewrite length_insert).
  assert (G1 : get m1 (i - 1) = get m (i - 1)) by (unfold m1; rewrite get_insert_ne by lia; done).
  rewrite G1, (land_mask 16) by done. split; [by rewrite length_insert|]. replace (S i - 1)%nat with i by lia. split; [|split].
  - intros j Hj. destruct (decide (i - 1 = j)%nat) as [<-|Hij]; [rewrite get_insert_eq by lia; dlia|].
    rewrite get_insert_ne by done. unfold m1. rewrite get_insert_ne by lia. apply Hlow. lia.
  - rewrite get_insert_ne by lia. unfold m1. rewrite get_insert_eq by lia. lia.
  - rewrite lval_take_S, get_insert_ne by (rewrite ?length_insert; lia). rewrite (lval_take_S 16 ltac:(lia) t), (lval_take_S 16 ltac:(lia) p_words), <- Ek by (change (length p_words) with 16%nat; destruct Ht; lia).
    assert (Et : take i (<[(i - 1)%nat := get m (i - 1) mod 2 ^ 16]> m1) = <[(i - 1)%nat := get m (i - 1) mod 2 ^ 16]> (take i m)).
    { unfold m1. rewrite take_insert_lt by lia. by rewrite take_insert_ge by lia. }
    rewrite Et, lval_insert, get_take, Hv by (rewrite ?length_take; lia). unfold m1. rewrite get_insert_eq by lia. destruct Hb as [_ ->].
    replace (16 * Z.of_nat i) with (16 + 16 * Z.of_nat (i - 1)) by lia. rewrite Z.pow_add_r by lia. ring.
Qed.

Lemma pack_sub_spec t : digits t -> let '(m, borrow) := pack_sub t in
  borrow = Z.b2z (lval 16 t <? p) /\ length m = 16%nat /\ (p <= lval 16 t -> digits m /\ lval 16 m = lval 16 t - p).
Proof.
  intros Ht. unfold pack_sub. cbv zeta. set (m0 := <[0%nat := s64 (get t 0 - 0xffed)]> (replicate 16 0)).
  pose proof (digits_word t 0 Ht ltac:(lia)) as H0.
  assert (S1 : subtracting t 1 m0).
  { split; [done|]. split; [lia|]. unfold m0. rewrite s64_small by lia. change (1 - 1)%nat with 0%nat. rewrite get_insert_eq by (rewrite length_replicate; lia). split; [lia|].
    rewrite !(lval_take_S 16 ltac:(lia) _ 0) by (rewrite ?length_insert, ?length_replicate; destruct Ht; change (length p_words) with 16%nat; lia).
    rewrite !take_0, get_insert_eq by (rewrite length_replicate; lia). change (get p_words 0) with 0xffed. cbn [lval].
    change (2 ^ (16 * Z.of_nat 0)) with 1. lia. }
  assert (S15 : subtracting t 15 (foldl (pack_sub_step t) m0 (seq 1 14))).
  { apply (foldl_seq_from (subtracting t) (pack_sub_step t) 14 1); [exact S1|]. intros i m Hi Hm. unfold pack_sub_step.
    apply (sub_word t i m 0xffff Ht ltac:(lia) ltac:(lia)); [by rewrite p_word by lia|exact Hm]. }
  revert S15. generalize (foldl (pack_sub_step t) m0 (seq 1 14)). clear m0 S1. intros m S15.
  pose proof (sub_word t 15 m 0x7fff Ht ltac:(lia) ltac:(lia) eq_refl S15) as S16. cbv zeta in S16. change (15 - 1)%nat with 14%nat in S16.
  destruct S15 as (Hl & _ & H14 & _). set (m1 := <[15%nat := s64 (get t 15 - 0x7fff - ((get m 14 >> 16) .& 1))]> m) in *.
  destruct S16 as (L16 & Hlow & Hlast & Hv). change (16 - 1)%nat with 15%nat in Hlow, Hlast. rewrite get_insert_ne in Hlast by lia.
  assert (L1 : length m1 = 16%nat) by (unfold m1; by rewrite length_insert).
  pose proof (lval_take_S 16 ltac:(lia) (<[14%nat := get m1 14 .& 0xffff]> m1) 15 ltac:(rewrite length_insert; lia)) as Hs. rewrite get_insert_ne in Hs by lia.
  rewrite !take_ge in Hv by (rewrite ?length_insert; destruct Ht; cbn; lia). rewrite take_ge in Hs by (rewrite length_insert; lia). change (lval 16 p_words) with p in Hv.
  pose proof (lval_bound 16 ltac:(lia) (take 15 (<[14%nat := get m1 14 .& 0xffff]> m1))) as Hb. rewrite length_take, length_insert, L1 in Hb. change (2 ^ (16 * Z.of_nat (15 `min` 16))) with (2 ^ 240) in Hb.
  change (2 ^ (16 * Z.of_nat 15)) with (2 ^ 240) in Hs.
  assert (Hb' : 0 <= lval 16 (take 15 (<[14%nat := get m1 14 .& 0xffff]> m1)) < 2 ^ 240).
  { apply Hb. apply get_all. rewrite length_take, length_insert, L1. intros j Hj. rewrite get_take by lia. apply Hlow. lia. }
  rewrite borrow_bit by done. split; [|split].
  - f_equal. destruct (Z.ltb_spec (get m1 15) 0), (Z.ltb_spec (lval 16 t) p); try done; exfalso; nia.
  - by rewrite length_insert.
  - intros Hp. split; [|done]. split; [by rewrite length_insert|]. apply get_all. rewrite length_insert, L1. intros j Hj.
    destruct (decide (j = 15)%nat) as [->|]; [rewrite get_insert_ne by lia; nia|]. apply Hlow. lia.
Qed.

Lemma pack_round_spec t : digits t -> digits (pack_round t) /\ lval 16 (pack_round t) = if lval 16 t <? p then lval 16 t else lval 16 t - p.
Proof.
  intros Ht. unfold pack_round. pose proof (pack_sub_spec t Ht) as H. destruct (pack_sub t) as [m borrow]. destruct H as (-> & Hl & Hm).
  assert (E : 1 - Z.b2z (lval 16 t <? p) = Z.b2z (negb (lval 16 t <? p))) by (by destruct (lval 16 t <? p)).
  rewrite E, cswap_spec by (destruct Ht; lia). destruct (Z.ltb_spec (lval 16 t) p); cbn [negb fst]; [done|by apply Hm].
Qed.

Lemma word_bytes t : Forall (fun w => 0 <= w < 2 ^ 16) t ->
  let o := mjoin ((fun w => [u8 (w .& 0xff); u8 ((w >> 8) .& 0xff)]) <$> t) in
  bytes_ok o /\ length o = (2 * length t)%nat /\ le_val o = lval 16 t.
Proof.
  induction 1 as [|w t Hw Ht (Hb & Hl & Hv)]; [split; [apply Forall_nil_2|done]|]. cbv zeta. rewrite fmap_cons. match goal with |- context [mjoin (?a :: ?b)] => change (mjoin (a :: b)) with (a ++ mjoin b) end.
  revert Hb Hl Hv. generalize (mjoin ((fun w => [u8 (w .& 0xff); u8 ((w >> 8) .& 0xff)]) <$> t)). intros o Hb Hl Hv. cbn [app length]. split; [|split].
  - apply Forall_cons; split; [apply u8_range|]. apply Forall_cons; split; [apply u8_range|exact Hb].
  - rewrite Hl. lia.
  - cbn [le_val lval]. rewrite <- Hv. rewrite !(land_mask 8), Z.shiftr_div_pow2, !u8_small by (done || (unfold byte_ok; dlia)).
    dlia.
Qed.

Lemma pack_spec n v : rep n v -> pack n = le_bytes 32 (v mod p).
Proof.
  intros [Hn Hv]. unfold pack. cbv zeta.
  pose proof (carry_digits n Hn) as [D1 V1]. pose proof (carry_digits _ (digits_carried _ D1)) as [D2 V2]. pose proof (carry_digits _ (digits_carried _ D2)) as [D3 V3].
  assert (V : lval 16 (carry (carry (carry n))) == v) by (by rewrite V3, V2, V1). revert D3 V. generalize (carry (carry (carry n))). clear. intros t Ht V.
  destruct (pack_round_spec t Ht) as [Ht1 V1]. destruct (pack_round_spec _ Ht1) as [Ht2 V2]. rewrite V1 in V2.
  pose proof (lval_bound 16 ltac:(lia) t (proj2 Ht)) as Hb. destruct Ht as [Lt _]. rewrite Lt in Hb. change (2 ^ (16 * Z.of_nat 16)) with (2 * p + 38) in Hb.
  assert (Hp : lval 16 (pack_round (pack_round t)) = v mod p).
  { rewrite V2, <- V. assert (H38 : 38 < p) by (unfold p; lia).
    destruct (Z.ltb_spec (lval 16 t) p); [destruct (Z.ltb_spec (lval 16 t) p); [|lia]; symmetry; apply Z.mod_small; lia|].
    destruct (Z.ltb_spec (lval 16 t - p) p).
    - apply (Z.mod_unique_pos _ _ 1); lia.
    - apply (Z.mod_unique_pos _ _ 2); lia. }
  destruct (word_bytes _ (proj2 Ht2)) as (Hob & Hol & Hov). rewrite (proj1 Ht2) in Hol.
  rewrite <- Hp, <- Hov. change 32%nat with (2 * 16)%nat. rewrite <- Hol. symmetry. by apply le_bytes_val.
Qed.

(** ** Lemmas: one ladder step *)

(** The arithmetic of a step, between its two swaps. *)
Definition step_core (a b c d x : fe) : fe * fe * fe * fe :=
  let e := add a c in
  let a := sub a c in
  let c := add b d in
  let b := sub b d in
  let d := sqr e in
  let f := sqr a in
  let a := mul c a in
  let c := mul b e in
  let e := add a c in
  let a := sub a c in
  let b := sqr a in
  let c := sub d f in
  let a := mul c F121665 in
  let a := add a d in
  let c := mul c a in
  let a := mul d f in
  let d := mul b x in
  let b := sqr e in
  (a, b, c, d).

Lemma loose_mul a b u v : loose a -> loose b -> lval 16 a == u -> lval 16 b == v -> rep (mul a b) (u * v).
Proof. intros Ha Hb Hu Hv. destruct (mul_spec a b Ha Hb) as [Hc He]. split; [done|]. by rewrite He, Hu, Hv. Qed.
Lemma loose_add a b u v : rep a u -> rep b v -> loose (add a b) /\ lval 16 (add a b) == u + v.
Proof. intros [Ha Hu] [Hb Hv]. destruct (add_spec a b Ha Hb) as [Hl ->]. split; [done|]. by rewrite Hu, Hv. Qed.
Lemma loose_sub a b u v : rep a u -> rep b v -> loose (sub a b) /\ lval 16 (sub a b) == u - v.
Proof. intros [Ha Hu] [Hb Hv]. destruct (sub_spec a b Ha Hb) as [Hl ->]. split; [done|]. by rewrite Hu, Hv. Qed.
Lemma rep_eqp a u v : rep a u -> u == v -> rep a v.
Proof. intros [Ha Hu] Hv. split; [done|]. by rewrite Hu. Qed.

Lemma step_core_spec a b c d x A B C D X : rep a A -> rep b B -> rep c C -> rep d D -> rep x X ->
  let '(a, b, c, d) := step_core a b c d x in
  let AA := (A + C) * (A + C) in let BB := (A - C) * (A - C) in
  let DA := (B - D) * (A + C) in let CB := (B + D) * (A - C) in
  rep a (AA * BB) /\ rep b ((CB + DA) * (CB + DA)) /\ rep c ((AA - BB) * ((AA - BB) * a24 + AA)) /\ rep d ((CB - DA) * (CB - DA) * X).
Proof.
  intros Ha Hb Hc Hd Hx. unfold step_core, sqr.
  destruct (loose_add a c A C Ha Hc) as [L1 V1], (loose_sub a c A C Ha Hc) as [L2 V2], (loose_add b d B D Hb Hd) as [L3 V3], (loose_sub b d B D Hb Hd) as [L4 V4].
  cbv zeta. revert L1 V1 L2 V2 L3 V3 L4 V4. generalize (add a c) (sub a c) (add b d) (sub b d). clear a b c d Ha Hb Hc Hd. intros e a c b L1 V1 L2 V2 L3 V3 L4 V4.
  pose proof (loose_mul e e _ _ L1 L1 V1 V1) as R1. pose proof (loose_mul a a _ _ L2 L2 V2 V2) as R2.
  pose proof (loose_mul c a _ _ L3 L2 V3 V2) as R3. pose proof (loose_mul b e _ _ L4 L1 V4 V1) as R4.
  revert R1 R2 R3 R4. generalize (mul e e) (mul a a) (mul c a) (mul b e). clear e a c b L1 V1 L2 V2 L3 V3 L4 V4. intros d f a c R1 R2 R3 R4.
  destruct (loose_add a c _ _ R3 R4) as [L5 V5], (loose_sub a c _ _ R3 R4) as [L6 V6], (loose_sub d f _ _ R1 R2) as [L7 V7].
  revert L5 V5 L6 V6 L7 V7. generalize (add a c) (sub a c) (sub d f). intros e a' c' L5 V5 L6 V6 L7 V7.
  assert (RF : loose F121665 /\ lval 16 F121665 == a24).
  { split; [|done]. apply carried_loose, digits_carried. split; [done|]. apply (bool_decide_unpack _). vm_compute. exact I. }
  destruct RF as [LF VF]. pose proof (loose_mul c' F121665 _ _ L7 LF V7 VF) as R5. destruct (loose_add _ d _ _ R5 R1) as [L8 V8].
  split; [apply rep_mul; done|]. split; [by apply loose_mul|]. split; [by apply loose_mul|]. apply rep_mul; [by apply loose_mul|done].
Qed.

Lemma rep_length a v : rep a v -> length a = 16%nat.
Proof. by intros [[H _] _]. Qed.

Definition swap4 (r : bool) {A} (s : A * A * A * A) : A * A * A * A := let '(a, b, c, d) := s in if r then (b, a, d, c) else (a, b, c, d).

Lemma step_swaps a b c d x (r : bool) A B C D X : rep a A -> rep b B -> rep c C -> rep d D -> rep x X ->
  step (a, b, c, d) x (Z.b2z r) = swap4 r (let '(a, b, c, d) := swap4 r (a, b, c, d) in step_core a b c d x).
Proof.
  intros Ha Hb Hc Hd Hx. pose proof (rep_length _ _ Ha) as La. pose proof (rep_length _ _ Hb) as Lb. pose proof (rep_length _ _ Hc) as Lc. pose proof (rep_length _ _ Hd) as Ld.
  assert (H : forall a b c d A B C D, rep a A -> rep b B -> rep c C -> rep d D ->
    (let '(a, b, c, d) := step_core a b c d x in let '(a, b) := cswap a b (Z.b2z r) in let '(c, d) := cswap c d (Z.b2z r) in (a, b, c, d)) = swap4 r (step_core a b c d x)).
  { clear -Hx. intros a b c d A B C D Ha Hb Hc Hd. pose proof (step_core_spec a b c d x A B C D X Ha Hb Hc Hd Hx) as H. destruct (step_core a b c d x) as [[[a' b'] c'] d'].
    destruct H as (H1 & H2 & H3 & H4). apply rep_length in H1, H2, H3, H4. rewrite !cswap_spec by lia. by destruct r. }
  unfold step. rewrite !cswap_spec by lia. destruct r; cbn [swap4].
  - exact (H b a d c B A D C Hb Ha Hd Hc).
  - exact (H a b c d A B C D Ha Hb Hc Hd).
Qed.

(** ** Lemmas: the scalar *)

Lemma byte_cases (f : Z -> bool) : forallb f (Z.of_nat <$> seq 0 256) = true -> forall b, byte_ok b -> f b = true.
Proof.
  rewrite forallb_forall. intros H b Hb. apply H. unfold byte_ok in Hb. apply list_elem_of_In, list_elem_of_fmap. exists (Z.to_nat b). split; [lia|]. apply elem_of_seq. lia.
Qed.
Lemma clamp_low b : byte_ok b -> b .& 248 = b / 8 * 8.
Proof. intros Hb. apply Z.eqb_eq. revert b Hb. apply byte_cases. vm_compute. done. Qed.
Lemma clamp_high b : byte_ok b -> (b .& 127) .| 64 = b mod 64 + 64.
Proof. intros Hb. apply Z.eqb_eq. revert b Hb. apply byte_cases. vm_compute. done. Qed.

Lemma le_val_lval l : le_val l = lval 8 l.
Proof. induction l as [|b l IH]; cbn [le_val lval]; [done|]. by rewrite IH. Qed.

Lemma get_byte z j : bytes_ok z -> (j < length z)%nat -> get z j = le_val z / 2 ^ (8 * Z.of_nat j) mod 2 ^ 8.
Proof.
  intros Hz Hj. rewrite <- le_val_drop by done. revert j Hj. induction Hz as [|b z Hb Hz IH]; intros [|j] Hj; cbn [length] in Hj; try lia.
  - rewrite drop_0. cbn [get nth le_val]. unfold byte_ok in Hb. dlia.
  - cbn [drop]. change (get (b :: z) (S j)) with (get z j). apply IH. lia.
Qed.

Definition clamped (s : list Z) : list Z := <[31%nat := (get (<[0%nat := get s 0 .& 248]> s) 31 .& 127) .| 64]> (<[0%nat := get s 0 .& 248]> s).

Lemma clamped_ok s : length s = 32%nat -> bytes_ok s -> length (clamped s) = 32%nat /\ bytes_ok (clamped s) /\ le_val (clamped s) = rfc_scalar s.
Proof.
  intros Hl Hs. unfold clamped. pose proof (get_forall byte_ok s 0 Hs ltac:(lia)) as B0. pose proof (get_forall byte_ok s 31 Hs ltac:(lia)) as B31.
  rewrite get_insert_ne by lia. rewrite clamp_low, clamp_high by done. split; [by rewrite !length_insert|]. split.
  - unfold byte_ok in *. apply Forall_insert; [apply Forall_insert; [done|dlia]|dlia].
  - rewrite le_val_lval, !lval_insert, get_insert_ne by (rewrite ?length_insert; lia). rewrite <- le_val_lval. unfold rfc_scalar.
    pose proof (le_val_bound s Hs) as Hv. rewrite Hl in Hv. change (2 ^ (8 * Z.of_nat 32)) with (2 ^ 256) in Hv.
    rewrite (get_byte s 0), (get_byte s 31) by (done || lia). change (2 ^ (8 * Z.of_nat 0)) with 1. change (2 ^ (8 * Z.of_nat 31)) with (2 ^ 248). rewrite Z.div_1_r.
    set (V := le_val s) in *. clearbody V. clear -Hv. change (2 ^ 256) with (2 ^ 248 * 2 ^ 8) in Hv. change (2 ^ 254) with (2 ^ 248 * 2 ^ 6).
    rewrite Z.rem_mul_r by lia. pose proof (Z.div_mod V (2 ^ 248) ltac:(lia)) as Hd. pose proof (Z.mod_pos_bound V (2 ^ 248) ltac:(lia)) as Hm.
    assert (Hq : 0 <= V / 2 ^ 248 < 2 ^ 8) by (split; [apply Z.div_pos; lia|apply Z.div_lt_upper_bound; lia]).
    revert Hd Hm Hq. generalize (V / 2 ^ 248) (V mod 2 ^ 248). intros q r -> Hm Hq. rewrite (Z.mod_small q) by done.
    change (2 ^ 248) with (2 ^ 8 * 2 ^ 240) in *. dlia.
Qed.

Lemma scalar_bit z i : bytes_ok z -> length z = 32%nat -> (i < 256)%nat ->
  (get z (i / 8) >> Z.of_nat (i mod 8)) .& 1 = Z.b2z (Z.testbit (le_val z) (Z.of_nat i)).
Proof.
  intros Hz Hl Hi. assert (Hdiv : (i / 8 < 32)%nat) by (apply Nat.Div0.div_lt_upper_bound; lia).
  pose proof (Nat.div_mod i 8 ltac:(lia)) as Hdm. pose proof (Nat.mod_upper_bound i 8 ltac:(lia)) as Hm.
  rewrite get_byte by (done || lia). rewrite (land_mask 1) by done. rewrite Z.shiftr_div_pow2 by lia. rewrite <- Z.testbit_spec' by lia. f_equal.
  rewrite Z.mod_pow2_bits_low, Z.div_pow2_bits by lia. f_equal. lia.
Qed.

(** ** Lemmas: the ladder *)

Definition tracks (f : fe * fe * fe * fe) (s : ladder_state) : Prop :=
  let '(a, b, c, d) := f in
  let '(A, B) := swapped (swap s) (x_2 s) (x_3 s) in let '(C, D) := swapped (swap s) (z_2 s) (z_3 s) in
  (swap s = 0 \/ swap s = 1) /\ rep a A /\ rep b B /\ rep c C /\ rep d D.

Ltac same_element := eapply rep_eqp; [eassumption|]; rewrite !eqp_mod; apply (f_equal (fun v => v mod p)); ring.

Lemma step_tracks f x X k i s (r : bool) : rep x X -> Z.testbit k (Z.of_nat i) = r -> tracks f s -> tracks (step f x (Z.b2z r)) (rfc_step k X s i).
Proof.
  destruct f as [[[a b] c] d], s as [x2 z2 x3 z3 sw]. unfold tracks, rfc_step. cbn [swap x_2 z_2 x_3 z_3]. intros Hx ->.
  intros H. assert (H2 : (sw = 0 \/ sw = 1) /\ exists A B C D, swapped sw x2 x3 = (A, B) /\ swapped sw z2 z3 = (C, D) /\ rep a A /\ rep b B /\ rep c C /\ rep d D).
  { destruct (swapped sw x2 x3) as [A B] eqn:E1, (swapped sw z2 z3) as [C D] eqn:E2. destruct H as (H & H1 & H2 & H3 & H4). split; [done|]. by exists A, B, C, D. }
  clear H. destruct H2 as (Hs & A & B & C & D & E1 & E2 & Ha & Hb & Hc & Hd).
  assert (E1' : swapped (sw .^ Z.b2z r) x2 x3 = if r then (B, A) else (A, B)).
  { destruct Hs as [-> | ->], r; cbn [Z.b2z]; rewrite ?Z.lxor_0_l, ?Z.lxor_0_r, ?Z.lxor_nilpotent; unfold swapped in *; cbn in *; congruence. }
  assert (E2' : swapped (sw .^ Z.b2z r) z2 z3 = if r then (D, C) else (C, D)).
  { destruct Hs as [-> | ->], r; cbn [Z.b2z]; rewrite ?Z.lxor_0_l, ?Z.lxor_0_r, ?Z.lxor_nilpotent; unfold swapped in *; cbn in *; congruence. }
  rewrite E1', E2', (step_swaps a b c d x r A B C D X) by done.
  destruct r; cbn [swap4].
  - pose proof (step_core_spec b a d c x B A D C X Hb Ha Hd Hc Hx) as H. destruct (step_core b a d c x) as [[[a' b'] c'] d']. destruct H as (H1 & H2 & H3 & H4).
    cbn. split; [by right|]. split_and!; same_element.
  - pose proof (step_core_spec a b c d x A B C D X Ha Hb Hc Hd Hx) as H. destruct (step_core a b c d x) as [[[a' b'] c'] d']. destruct H as (H1 & H2 & H3 & H4).
    cbn. split; [by left|]. split_and!; same_element.
Qed.

Lemma ladder_tracks z k x X : bytes_ok z -> length z = 32%nat -> le_val z = k -> rep x X -> forall l f s, Forall (fun i => (i < 256)%nat) l -> tracks f s ->
  tracks (foldl (fun s i => step s x ((get z (i / 8) >> Z.of_nat (i mod 8)) .& 1)) f l) (foldl (rfc_step k X) s l).
Proof.
  intros Hz Hl Hk Hx l. induction l as [|i l IH]; intros f s Hi Ht; cbn [foldl]; [done|]. apply Forall_cons in Hi as [Hi Hil]. apply IH; [done|].
  rewrite scalar_bit, Hk by done. by apply step_tracks.
Qed.

Lemma ladder_spec z point : bytes_ok z -> length z = 32%nat -> bytes_ok point -> length point = 32%nat ->
  ladder z point = le_bytes 32 (rfc_x25519 (le_val z) (rfc_u point)).
Proof.
  intros Hz Hl Hp Hpl. destruct (unpack_spec point Hpl Hp) as [Hd Hv]. assert (Hx : rep (unpack point) (rfc_u point)) by (split; [by apply digits_carried|by rewrite Hv]).
  assert (H0 : rep (replicate 16 0) 0) by (split; [apply digits_carried; split; [done|apply (bool_decide_unpack _); vm_compute; exact I]|done]).
  assert (H1 : rep (<[0%nat := 1]> (replicate 16 0)) 1) by (split; [apply digits_carried; split; [done|apply (bool_decide_unpack _); vm_compute; exact I]|done]).
  unfold ladder, rfc_x25519. cbv zeta.
  pose proof (ladder_tracks z (le_val z) (unpack point) (rfc_u point) Hz Hl eq_refl Hx (reverse (seq 0 255))
    (<[0%nat := 1]> (replicate 16 0), unpack point, replicate 16 0, <[0%nat := 1]> (replicate 16 0)) (Ladder 1 0 (rfc_u point) 1 0)) as Ht.
  destruct (foldl (fun s i => step s _ _) _ _) as [[[a b] c] d]. destruct (foldl (rfc_step _ _) _ _) as [x2 z2 x3 z3 sw].
  assert (T : tracks (a, b, c, d) (Ladder x2 z2 x3 z3 sw)).
  { apply Ht; [|cbn; split; [by left|by split_and!]]. apply Forall_reverse, Forall_forall. intros i Hi. apply elem_of_seq in Hi. lia. }
  clear Ht. unfold tracks in T. cbn [swap x_2 z_2 x_3 z_3] in *. destruct (swapped sw x2 x3) as [A B], (swapped sw z2 z3) as [C D]. destruct T as (_ & Ha & _ & Hc & _).
  rewrite (pack_spec _ (A * C ^ (p - 2))) by (apply rep_mul; [done|by apply invert_spec]). f_equal. rewrite Zpow_mod_correct by done.
  by rewrite Zmult_mod_idemp_r.
Qed.

Lemma clamp_and_ladder_spec scalar point : bytes_ok scalar -> length scalar = 32%nat -> bytes_ok point -> length point = 32%nat ->
  clamp_and_ladder scalar point = le_bytes 32 (rfc_x25519 (rfc_scalar scalar) (rfc_u point)).
Proof.
  intros Hs Hl Hp Hpl. destruct (clamped_ok scalar Hl Hs) as (Hcl & Hcb & Hcv). rewrite <- Hcv.
  unfold clamp_and_ladder. cbv zeta. fold (clamped scalar). apply ladder_spec; assumption.
Qed.

(** What is written is 32 bytes, whatever is read. *)
Lemma length_carry o : length (carry o) = length o.
Proof. unfold carry. generalize (seq 0 16). intros l. revert o. induction l as [|i l IH]; intros o; [done|]. cbn [foldl]. by rewrite IH, length_carry_step. Qed.
Lemma length_folded {A} (f : list Z -> A -> list Z) l : (forall t i, length (f t i) = length t) -> forall t, length (foldl f t l) = length t.
Proof. intros Hf. induction l as [|i l IH]; intros t; [done|]. cbn [foldl]. by rewrite IH. Qed.
Lemma length_mul a b : length (mul a b) = 16%nat.
Proof.
  unfold mul. rewrite !length_carry, length_take, length_folded by (intros; apply length_insert).
  rewrite length_folded; [done|]. intros t i. apply length_folded. intros. apply length_insert.
Qed.
Lemma length_pack_round t : length t = 16%nat -> length (pack_round t) = 16%nat.
Proof.
  intros Ht. unfold pack_round, pack_sub, cswap. cbn [fst].
  set (m := foldl _ _ _). assert (Hm : length m = 16%nat).
  { subst m. rewrite length_folded; [by rewrite length_insert|]. intros. unfold pack_sub_step. by rewrite !length_insert. }
  clearbody m. rewrite !length_zip_with, !length_insert, Ht, Hm. done.
Qed.
Lemma pack_shape n : length n = 16%nat -> length (pack n) = 32%nat /\ bytes_ok (pack n).
Proof.
  intros Hn. unfold pack. assert (Hl : length (pack_round (pack_round (carry (carry (carry n))))) = 16%nat) by (do 2 apply length_pack_round; by rewrite !length_carry).
  revert Hl. generalize (pack_round (pack_round (carry (carry (carry n))))). intros t Ht. split.
  - rewrite length_join, <- list_fmap_compose. replace 32%nat with (2 * length t)%nat by lia. clear.
    induction t as [|w t IH]; [done|]. csimpl. lia.
  - apply Forall_join, Forall_fmap, Forall_forall. intros w _. cbn [compose]. apply Forall_cons_2; [apply u8_range|]. apply Forall_singleton, u8_range.
Qed.
Lemma clamp_and_ladder_shape scalar point : length (clamp_and_ladder scalar point) = 32%nat /\ bytes_ok (clamp_and_ladder scalar point).
Proof. unfold clamp_and_ladder, ladder. destruct (foldl _ _ _) as [[[a b] c] d]. apply pack_shape, length_mul. Qed.

Lemma x25519_shape scalar point : length (x25519 scalar point).1 = 32%nat /\ bytes_ok (x25519 scalar point).1.
Proof. exact (clamp_and_ladder_shape scalar point). Qed.

Lemma rfc_range k u : 0 <= rfc_x25519 k u < p.
Proof. unfold rfc_x25519. destruct (swapped _ _ _), (swapped _ _ _). by apply Z.mod_pos_bound. Qed.

(** The prime itself, a representative of zero that is not canonical. *)
Definition p_bytes : list Z := le_bytes 32 p.

(** ** Properties *)

(** C20. X25519 is RFC 7748's.  For every 32-byte scalar and every 32-byte
    point, canonical or not, the function returns the little-endian encoding
    of the ladder of RFC 7748 section 5 on the clamped scalar and the masked
    coordinate, reduced below 2^255 - 19, and reports failure exactly when
    that value is zero: none of the carries, signed products and subtractions
    on the way leaves the width it is computed in. *)
Theorem x25519_is_rfc7748 scalar point : bytes_ok scalar -> length scalar = 32%nat -> bytes_ok point -> length point = 32%nat ->
  let v := rfc_x25519 (rfc_scalar scalar) (rfc_u point) in
  0 <= v < p /\ x25519 scalar point = (le_bytes 32 v, negb (v =? 0)) /\
  x25519_base scalar = le_bytes 32 (rfc_x25519 (rfc_scalar scalar) 9).
Proof.
  intros Hs Hl Hp Hpl v. pose proof (rfc_range (rfc_scalar scalar) (rfc_u point)) as Hv. fold v in Hv. split; [done|]. split.
  - unfold x25519. rewrite clamp_and_ladder_spec by done. fold v. clearbody v. f_equal. clear -Hv.
    assert (E : (ct_memeq (le_bytes 32 v) (replicate 32 0) X25519_LEN = 1) <-> v = 0).
    { rewrite ct_memeq_true; [|apply le_bytes_ok|apply (bool_decide_unpack _); vm_compute; exact I|by rewrite length_le_bytes|done]. split; [|by intros ->].
      intros E. apply (f_equal le_val) in E. rewrite le_val_bytes in E. change (le_val (replicate 32 0)) with 0 in E. change (2 ^ (8 * Z.of_nat 32)) with (2 * p + 38) in E.
      rewrite Z.mod_small in E by lia. done. }
    assert (Em : ct_memeq (le_bytes 32 v) (replicate 32 0) X25519_LEN = Z.b2z (bytes_eqb (take X25519_LEN (le_bytes 32 v)) (take X25519_LEN (replicate 32 0)))).
    { apply ct_memeq_spec; [apply le_bytes_ok|apply (bool_decide_unpack _); vm_compute; exact I|by rewrite length_le_bytes|by rewrite length_replicate]. }
    rewrite Em in *.
    clear Em.
    revert E. generalize (bytes_eqb (take X25519_LEN (le_bytes 32 v)) (take X25519_LEN (replicate 32 0))). intros eqb E.
    destruct eqb, (Z.eqb_spec v 0) as [Hz|Hz]; cbn in *; try done; exfalso; [apply Hz; by apply E|apply E in Hz; discriminate].
  - unfold x25519_base. by rewrite clamp_and_ladder_spec by (done || (apply (bool_decide_unpack _); vm_compute; exact I)).
Qed.

(** A point of low order gives zero, and is refused. *)
Lemma x25519_is_rfc7748_witness : x25519 (replicate 32 7) (p_bytes) = (replicate 32 0, false).
Proof.
  destruct (x25519_is_rfc7748 (replicate 32 7) p_bytes) as (_ & E & _);
    [apply (bool_decide_unpack _); vm_compute; exact I|done|apply (bool_decide_unpack _); vm_compute; exact I|done|].
  refine (eq_trans E _). vm_compute. reflexivity.
Defined.

End X25519.
