(* ===== verification/Buf.v ===== *)
(** * Byte cursors: src/src/buf.h, buf.c

    The bounds-checked writer [wbuf] and reader [rbuf] every wire byte moves
    through.  A C buffer is the list of its bytes; [size_t] fields are [nat],
    so [cap - len] and [len - off] agree with the C subtraction exactly under
    the invariants [wb_inv] and [rb_inv], which every operation preserves.  A
    returned pointer into the buffer is the bytes it points at. *)

From S2P Require Import Prelude.
Local Open Scope Z_scope.
Local Open Scope word_scope.

(** ** The writer *)

Record wbuf := Wbuf { w_p : list Z; w_cap : nat; w_len : nat; w_err : bool }.

Definition wb_init (p : list Z) (cap : nat) : wbuf := Wbuf p cap 0 false.

Definition wb_fail (w : wbuf) : wbuf := Wbuf (w_p w) (w_cap w) (w_len w) true.

Definition wb_room (w : wbuf) (n : nat) : bool * wbuf :=
  if w_err w || (w_cap w - w_len w <? n)%nat then (false, wb_fail w) else (true, w).

Definition wb_u8 (w : wbuf) (v : Z) : wbuf :=
  let '(ok, w) := wb_room w 1 in
  if ok then Wbuf (<[w_len w := v]> (w_p w)) (w_cap w) (w_len w + 1) (w_err w) else w.

Definition wb_u16 (w : wbuf) (v : Z) : wbuf :=
  wb_u8 (wb_u8 w (u8 (v >> 8))) (u8 v).

Definition wb_u24 (w : wbuf) (v : Z) : wbuf :=
  wb_u8 (wb_u8 (wb_u8 w (u8 (v >> 16))) (u8 (v >> 8))) (u8 v).

Definition wb_bytes (w : wbuf) (src : list Z) : wbuf :=
  let n := length src in
  let '(ok, w) := wb_room w n in
  if ok then Wbuf (store_bytes (w_p w) (w_len w) src) (w_cap w) (w_len w + n) (w_err w) else w.

Definition wb_mark (w : wbuf) (n : nat) : nat * wbuf :=
  let off := w_len w in
  let '(ok, w) := wb_room w n in
  (off, if ok
        then Wbuf (store_bytes (w_p w) (w_len w) (replicate n 0)) (w_cap w) (w_len w + n) (w_err w)
        else w).

(** The patched length is computed in [Z]: its low 16 or 24 bits are those of
    the C [size_t] difference, wrapped or not. *)
Definition wb_patch16 (w : wbuf) (off : nat) : wbuf :=
  if w_err w then w else
  let n := Z.of_nat (w_len w) - Z.of_nat off - 2 in
  let p := <[off := u8 (n >> 8)]> (w_p w) in
  let p := <[(off + 1)%nat := u8 n]> p in
  Wbuf p (w_cap w) (w_len w) (w_err w).

Definition wb_patch24 (w : wbuf) (off : nat) : wbuf :=
  if w_err w then w else
  let n := Z.of_nat (w_len w) - Z.of_nat off - 3 in
  let p := <[off := u8 (n >> 16)]> (w_p w) in
  let p := <[(off + 1)%nat := u8 (n >> 8)]> p in
  let p := <[(off + 2)%nat := u8 n]> p in
  Wbuf p (w_cap w) (w_len w) (w_err w).

(** ** The reader *)

Record rbuf := Rbuf { r_p : list Z; r_len : nat; r_off : nat; r_err : bool }.

Definition rb_init (p : list Z) (len : nat) : rbuf := Rbuf p len 0 false.

Definition rb_fail (r : rbuf) : rbuf := Rbuf (r_p r) (r_len r) (r_off r) true.

Definition rb_have (r : rbuf) (n : nat) : bool * rbuf :=
  if r_err r || (r_len r - r_off r <? n)%nat then (false, rb_fail r) else (true, r).

Definition rb_u8 (r : rbuf) : Z * rbuf :=
  let '(ok, r) := rb_have r 1 in
  if ok then (r_p r !!! r_off r, Rbuf (r_p r) (r_len r) (r_off r + 1) (r_err r)) else (0, r).

Definition rb_u16 (r : rbuf) : Z * rbuf :=
  let '(hi, r) := rb_u8 r in
  let '(lo, r) := rb_u8 r in
  (u16 (Z.shiftl hi 8) .| lo, r).

Definition rb_u24 (r : rbuf) : Z * rbuf :=
  let '(v, r) := rb_u8 r in
  let '(b, r) := rb_u8 r in
  let v := (v <<32 8) .| b in
  let '(b, r) := rb_u8 r in
  ((v <<32 8) .| b, r).

Definition rb_bytes (r : rbuf) (n : nat) : option (list Z) * rbuf :=
  let '(ok, r) := rb_have r n in
  if ok then (Some (take n (drop (r_off r) (r_p r))),
              Rbuf (r_p r) (r_len r) (r_off r + n) (r_err r))
  else (None, r).

Definition rb_skip (r : rbuf) (n : nat) : rbuf := (rb_bytes r n).2.

Definition rb_left (r : rbuf) : nat := if r_err r then 0 else r_len r - r_off r.

#[global] Arguments rb_init : simpl never.

(** ** Invariants and views *)

Definition wb_inv (w : wbuf) : Prop :=
  (w_len w <= w_cap w)%nat /\ (w_cap w <= length (w_p w))%nat.

(** What has been written so far. *)
Definition written (w : wbuf) : list Z := take (w_len w) (w_p w).

Definition rb_inv (r : rbuf) : Prop :=
  (r_off r <= r_len r)%nat /\ (r_len r <= length (r_p r))%nat /\ bytes_ok (r_p r).

(** The bytes still to read, and the abstract reader state: [None] after an
    underrun, the remaining bytes before one. *)
Definition rest (r : rbuf) : list Z := take (r_len r - r_off r) (drop (r_off r) (r_p r)).
Definition view (r : rbuf) : option (list Z) := if r_err r then None else Some (rest r).

(** The abstract reader over a plain byte list. *)
Definition spec_bytes (n : nat) (s : option (list Z)) : option (list Z) * option (list Z) :=
  match s with
  | Some l => if (length l <? n)%nat then (None, None) else (Some (take n l), Some (drop n l))
  | None => (None, None)
  end.
Definition spec_uint (n : nat) (s : option (list Z)) : Z * option (list Z) :=
  match s with
  | Some l => if (length l <? n)%nat then (be_val l * 2 ^ (8 * Z.of_nat (n - length l)), None)
              else (be_val (take n l), Some (drop n l))
  | None => (0, None)
  end.

(** The contract of a write of [src]: the object outside [0, cap) and the
    bytes written before are untouched, and either the bytes were appended or
    they did not fit (now or earlier) and the error is set. *)
Definition appended (w : wbuf) (src : list Z) (w' : wbuf) : Prop :=
  wb_inv w' /\ w_cap w' = w_cap w /\ (w_len w <= w_len w')%nat /\
  length (w_p w') = length (w_p w) /\ drop (w_cap w) (w_p w') = drop (w_cap w) (w_p w) /\
  take (w_len w) (w_p w') = written w /\
  if w_err w' then w_err w = true \/ (w_cap w - w_len w < length src)%nat
  else w_err w = false /\ (length src <= w_cap w - w_len w)%nat /\ written w' = written w ++ src.

(** ** Writer lemmas *)

Lemma wb_init_inv p cap : (cap <= length p)%nat -> wb_inv (wb_init p cap).
Proof. unfold wb_inv. simpl. lia. Qed.

Lemma wb_room_cases w n :
  (wb_room w n = (true, w) /\ w_err w = false /\ (n <= w_cap w - w_len w)%nat) \/
  (wb_room w n = (false, wb_fail w) /\ (w_err w = true \/ (w_cap w - w_len w < n)%nat)).
Proof.
  unfold wb_room. destruct (w_err w) eqn:E; cbn [orb]; [by right; split; [|left]|].
  destruct (Nat.ltb_spec (w_cap w - w_len w) n); [right; split; [|right] | left]; done.
Qed.

Lemma take_store_bytes_before mem off src :
  (off <= length mem)%nat -> take off (store_bytes mem off src) = take off mem.
Proof. intros. unfold store_bytes. rewrite take_app_length'; [done|]. rewrite length_take. lia. Qed.

Lemma wb_fail_appended w src :
  wb_inv w -> w_err w = true \/ (w_cap w - w_len w < length src)%nat -> appended w src (wb_fail w).
Proof. intros Hw H. unfold appended. cbn. done. Qed.

Lemma wb_bytes_appended w src : wb_inv w -> appended w src (wb_bytes w src).
Proof.
  intros Hw. unfold wb_bytes.
  destruct (wb_room_cases w (length src)) as [(-> & He & Hn) | (-> & H)];
    [|by apply wb_fail_appended].
  destruct Hw as [Hl Hc]. unfold appended, wb_inv, written; cbn. rewrite He.
  rewrite length_store_bytes by lia. repeat split; try lia.
  - apply drop_store_bytes; lia.
  - apply take_store_bytes_before. lia.
  - apply take_store_bytes. lia.
Qed.

Lemma wb_u8_bytes w v : wb_inv w -> wb_u8 w v = wb_bytes w [v].
Proof.
  intros [Hl Hc]. unfold wb_u8, wb_bytes. cbn [length].
  destruct (wb_room_cases w 1) as [(-> & He & Hn) | (-> & H)]; [|done].
  by rewrite insert_store_bytes by lia.
Qed.

Lemma wb_u8_appended w v : wb_inv w -> appended w [v] (wb_u8 w v).
Proof. intros. rewrite wb_u8_bytes by done. by apply wb_bytes_appended. Qed.

Lemma take_prefix_le {A} (n m : nat) (l k : list A) :
  (n <= m)%nat -> take m l = take m k -> take n l = take n k.
Proof.
  intros Hn H. rewrite <- (Nat.min_l n m) by done. by rewrite <- !take_take, H.
Qed.

Lemma appended_app w a w1 b w2 : appended w a w1 -> appended w1 b w2 -> appended w (a ++ b) w2.
Proof.
  intros (Hi1 & Hc1 & Hl1 & Hn1 & Hd1 & Ht1 & H1) (Hi2 & Hc2 & Hl2 & Hn2 & Hd2 & Ht2 & H2).
  unfold appended. rewrite length_app. split_and!; try congruence; try lia.
  - rewrite <- Ht1. apply (take_prefix_le _ (w_len w1)); done.
  - assert (Hlen : w_err w1 = false -> w_len w1 = (w_len w + length a)%nat).
    { intros E. rewrite E in H1. destruct H1 as (_ & Hfit & Hwr).
      apply (f_equal length) in Hwr. unfold written in Hwr.
      destruct Hi1. rewrite length_app, !length_take in Hwr. lia. }
    destruct (w_err w2).
    + destruct (w_err w1); [destruct H1; [by left | right; lia]|].
      specialize (Hlen eq_refl). destruct H2; [done|right; lia].
    + destruct H2 as (E & Hfit & ->). rewrite E in H1. specialize (Hlen E).
      destruct H1 as (He & ? & ->). rewrite app_assoc. repeat split; [done|lia].
Qed.

Lemma wb_u16_appended w v : wb_inv w -> appended w (be_bytes 2 v) (wb_u16 w v).
Proof.
  intros Hw. unfold wb_u16. rewrite Z.shiftr_div_pow2 by lia.
  pose proof (wb_u8_appended w (u8 (v / 2 ^ 8)) Hw) as H1.
  eapply (appended_app _ [_] _ [_]); [exact H1|]. apply wb_u8_appended, H1.
Qed.

Lemma wb_u24_appended w v : wb_inv w -> appended w (be_bytes 3 v) (wb_u24 w v).
Proof.
  intros Hw. unfold wb_u24. rewrite !Z.shiftr_div_pow2 by lia.
  change (2 ^ 16) with (2 ^ 8 * 2 ^ 8). rewrite <- Z.div_div by lia.
  pose proof (wb_u8_appended w (u8 (v / 2 ^ 8 / 2 ^ 8)) Hw) as H1.
  pose proof (wb_u8_appended _ (u8 (v / 2 ^ 8)) (proj1 H1)) as H2.
  eapply (appended_app _ [_] _ [_; _]); [exact H1|].
  eapply (appended_app _ [_] _ [_]); [exact H2|]. apply wb_u8_appended, H2.
Qed.

Lemma wb_mark_bytes w n : (wb_mark w n) = (w_len w, wb_bytes w (replicate n 0)).
Proof. unfold wb_mark, wb_bytes. rewrite length_replicate. by destruct (wb_room w n) as [[] ?]. Qed.

Lemma wb_mark_appended w n :
  wb_inv w -> (wb_mark w n).1 = w_len w /\ appended w (replicate n 0) (wb_mark w n).2.
Proof. intros. rewrite wb_mark_bytes. split; [done|]. by apply wb_bytes_appended. Qed.

(** *** Length prefixes *)

(** Overwriting [k] reserved bytes at [off] inside what was written. *)
Lemma written_patch (p : list Z) (len off : nat) pre old new body :
  (len <= length p)%nat -> take len p = pre ++ old ++ body -> length pre = off ->
  length new = length old ->
  take len (store_bytes p off new) = pre ++ new ++ body.
Proof.
  intros Hlen Hp Hpre Hnew.
  assert (Hl : (len = off + length old + length body)%nat).
  { apply (f_equal length) in Hp. rewrite length_take, !length_app in Hp. lia. }
  assert (Hp' : p = pre ++ old ++ body ++ drop len p).
  { rewrite <- (take_drop len p) at 1. by rewrite Hp, <- !app_assoc. }
  revert Hp'. generalize (drop len p). intros tl ->. subst off len.
  unfold store_bytes. rewrite take_app_length, Hnew.
  rewrite drop_app_add, drop_app_length, !app_assoc, take_app_length'; [done|].
  rewrite !length_app. lia.
Qed.

(** Two or three single-byte stores are one. *)
Lemma insert_insert_store (p : list Z) i a b :
  (i + 1 < length p)%nat -> <[(i + 1)%nat := b]> (<[i := a]> p) = store_bytes p i [a; b].
Proof.
  intros H. rewrite (insert_store_bytes p), insert_store_bytes
    by (rewrite ?length_store_bytes; simpl; lia).
  unfold store_bytes. cbn [length app].
  rewrite take_app_ge, drop_app_ge by (rewrite length_take; lia).
  rewrite length_take, Nat.min_l by lia.
  replace (i + 1 - i)%nat with 1%nat by lia. replace (i + 1 + 1 - i)%nat with 2%nat by lia.
  cbn [take drop app]. rewrite take_0, drop_drop, <- app_assoc. cbn [app]. do 4 f_equal. lia.
Qed.

Lemma insert3_store (p : list Z) i a b c :
  (i + 2 < length p)%nat ->
  <[(i + 2)%nat := c]> (<[(i + 1)%nat := b]> (<[i := a]> p)) = store_bytes p i [a; b; c].
Proof.
  intros H. rewrite insert_insert_store, insert_store_bytes
    by (rewrite ?length_store_bytes; simpl; lia).
  unfold store_bytes. cbn [length app].
  rewrite take_app_ge, drop_app_ge by (rewrite length_take; lia).
  rewrite length_take, Nat.min_l by lia.
  replace (i + 2 - i)%nat with 2%nat by lia. replace (i + 2 + 1 - i)%nat with 3%nat by lia.
  cbn [take drop app]. rewrite take_0, drop_drop, <- app_assoc. cbn [app]. do 5 f_equal. lia.
Qed.

Lemma wb_patch16_written w pre body :
  wb_inv w -> w_err w = false -> written w = pre ++ [0; 0] ++ body ->
  let w' := wb_patch16 w (length pre) in
  written w' = pre ++ be_bytes 2 (Z.of_nat (length body)) ++ body /\
  wb_inv w' /\ w_err w' = false /\ w_len w' = w_len w /\ w_cap w' = w_cap w.
Proof.
  intros [Hl Hc] He Hw. unfold wb_patch16. rewrite He. cbn.
  assert (Hlen : w_len w = (length pre + 2 + length body)%nat).
  { apply (f_equal length) in Hw. unfold written in Hw.
    rewrite length_take, !length_app in Hw. simpl in Hw. lia. }
  rewrite insert_insert_store by lia. unfold written, wb_inv; cbn.
  rewrite length_store_bytes by (simpl; lia). split_and!; try done.
  replace (Z.of_nat (w_len w) - Z.of_nat (length pre) - 2) with (Z.of_nat (length body)) by lia.
  rewrite Z.shiftr_div_pow2 by lia.
  apply (written_patch _ _ _ pre [0; 0] [_; _] body); try done. lia.
Qed.

Lemma wb_patch24_written w pre body :
  wb_inv w -> w_err w = false -> written w = pre ++ [0; 0; 0] ++ body ->
  let w' := wb_patch24 w (length pre) in
  written w' = pre ++ be_bytes 3 (Z.of_nat (length body)) ++ body /\
  wb_inv w' /\ w_err w' = false /\ w_len w' = w_len w /\ w_cap w' = w_cap w.
Proof.
  intros [Hl Hc] He Hw. unfold wb_patch24. rewrite He. cbn.
  assert (Hlen : w_len w = (length pre + 3 + length body)%nat).
  { apply (f_equal length) in Hw. unfold written in Hw.
    rewrite length_take, !length_app in Hw. simpl in Hw. lia. }
  rewrite insert3_store by lia. unfold written, wb_inv; cbn.
  rewrite length_store_bytes by (simpl; lia). split_and!; try done.
  replace (Z.of_nat (w_len w) - Z.of_nat (length pre) - 3) with (Z.of_nat (length body)) by lia.
  rewrite !Z.shiftr_div_pow2 by lia. change (2 ^ 16) with (2 ^ 8 * 2 ^ 8).
  rewrite <- Z.div_div by lia.
  apply (written_patch _ _ _ pre [0; 0; 0] [_; _; _] body); try done. lia.
Qed.

(** ** Reader lemmas *)

Lemma rb_init_inv p len : (len <= length p)%nat -> bytes_ok p -> rb_inv (rb_init p len).
Proof. intros. unfold rb_inv, rb_init. simpl. split_and!; (lia || done). Qed.

Lemma view_init p len : view (rb_init p len) = Some (take len p).
Proof. unfold view, rest, rb_init. simpl. by rewrite Nat.sub_0_r. Qed.

Lemma length_rest r : rb_inv r -> length (rest r) = (r_len r - r_off r)%nat.
Proof. intros (H1 & H2 & _). unfold rest. rewrite length_take, length_drop. lia. Qed.

Lemma rest_bytes_ok r : rb_inv r -> bytes_ok (rest r).
Proof. intros (_ & _ & H). by apply Forall_take, Forall_drop. Qed.

Lemma rb_have_cases r n :
  (rb_have r n = (true, r) /\ r_err r = false /\ (n <= r_len r - r_off r)%nat) \/
  (rb_have r n = (false, rb_fail r) /\ (r_err r = true \/ (r_len r - r_off r < n)%nat)).
Proof.
  unfold rb_have. destruct (r_err r) eqn:E; cbn [orb]; [by right; split; [|left]|].
  destruct (Nat.ltb_spec (r_len r - r_off r) n); [right; split; [|right] | left]; done.
Qed.

(** [rb_bytes] refines the abstract reader and keeps the invariant. *)
Lemma rb_bytes_refines r n : rb_inv r ->
  rb_inv (rb_bytes r n).2 /\
  ((rb_bytes r n).1, view (rb_bytes r n).2) = spec_bytes n (view r).
Proof.
  intros Hr. pose proof (length_rest r Hr) as Hlen. unfold rb_bytes, spec_bytes, view.
  destruct (rb_have_cases r n) as [(-> & He & Hn) | (-> & H)]; cbn.
  - rewrite He, Hlen, (proj2 (Nat.ltb_ge _ _)) by lia.
    destruct Hr as (H1 & H2 & H3). unfold rb_inv, rest; cbn. split; [split_and!; done || lia|].
    rewrite take_take, Nat.min_l, skipn_firstn_comm, drop_drop, Nat.sub_add_distr by lia. done.
  - split; [done|]. destruct H as [-> | H]; [done|]. destruct (r_err r); [done|].
    by rewrite Hlen, (proj2 (Nat.ltb_lt _ _)) by lia.
Qed.

Lemma rb_u8_bytes r :
  rb_inv r -> rb_u8 r = (default 0 (head (default [] (rb_bytes r 1).1)), (rb_bytes r 1).2).
Proof.
  intros (H1 & H2 & _). unfold rb_u8, rb_bytes.
  destruct (rb_have_cases r 1) as [(-> & He & Hn) | (-> & H)]; [|done]. cbn. f_equal.
  destruct (lookup_lt_is_Some_2 (r_p r) (r_off r)) as [x Hx]; [lia|].
  by rewrite (list_lookup_total_correct _ _ _ Hx), (drop_S _ _ _ Hx).
Qed.

(** A reader standing before the bytes [l], and one past an underrun. *)
Definition at_bytes (r : rbuf) (l : list Z) : Prop := rb_inv r /\ view r = Some l.
Definition failed (r : rbuf) : Prop := rb_inv r /\ r_err r = true.

Lemma view_some r l : view r = Some l <-> r_err r = false /\ rest r = l.
Proof. unfold view. destruct (r_err r); naive_solver. Qed.

Lemma view_none r : view r = None <-> r_err r = true.
Proof. unfold view. destruct (r_err r); naive_solver. Qed.

Lemma at_or_failed r : rb_inv r -> (exists l, at_bytes r l /\ bytes_ok l) \/ failed r.
Proof.
  intros H. destruct (r_err r) eqn:E; [right; done|]. left. exists (rest r).
  split; [split; [done|by apply view_some]|by apply rest_bytes_ok].
Qed.

Lemma at_bytes_ok r l : at_bytes r l -> bytes_ok l.
Proof. intros [H [_ <-]%view_some]. by apply rest_bytes_ok. Qed.

Lemma at_err r l : at_bytes r l -> r_err r = false.
Proof. by intros [_ [? _]%view_some]. Qed.

Lemma at_left r l : at_bytes r l -> rb_left r = length l.
Proof. intros [H [E <-]%view_some]. unfold rb_left. by rewrite E, length_rest. Qed.

Lemma failed_left r : failed r -> rb_left r = 0%nat.
Proof. intros [_ E]. unfold rb_left. by rewrite E. Qed.

Lemma at_init p len : (len <= length p)%nat -> bytes_ok p -> at_bytes (rb_init p len) (take len p).
Proof. intros. split; [by apply rb_init_inv | apply view_init]. Qed.

Lemma at_init_all p : bytes_ok p -> at_bytes (rb_init p (length p)) p.
Proof. intros. rewrite <- (take_ge p (length p)) at 3 by lia. by apply at_init. Qed.

(** *** Reading bytes *)

Lemma rb_bytes_failed r n : failed r -> (rb_bytes r n).1 = None /\ failed (rb_bytes r n).2.
Proof.
  intros [H E]. destruct (rb_bytes_refines r n H) as [Hi Hs].
  unfold view in Hs at 2. rewrite E in Hs. cbn in Hs.
  injection Hs as -> Hv. split; [done|]. split; [done|]. by apply view_none.
Qed.

Lemma rb_bytes_at r l n : at_bytes r l -> (n <= length l)%nat ->
  (rb_bytes r n).1 = Some (take n l) /\ at_bytes (rb_bytes r n).2 (drop n l).
Proof.
  intros [H E] Hn. destruct (rb_bytes_refines r n H) as [Hi Hs].
  rewrite E in Hs. cbn in Hs. rewrite (proj2 (Nat.ltb_ge _ _)) in Hs by lia.
  injection Hs as -> Hv. done.
Qed.

Lemma rb_bytes_short r l n : at_bytes r l -> (length l < n)%nat ->
  (rb_bytes r n).1 = None /\ failed (rb_bytes r n).2.
Proof.
  intros [H E] Hn. destruct (rb_bytes_refines r n H) as [Hi Hs].
  rewrite E in Hs. cbn in Hs. rewrite (proj2 (Nat.ltb_lt _ _)) in Hs by lia.
  injection Hs as -> Hv. split; [done|]. split; [done|]. by apply view_none.
Qed.

Lemma rb_bytes_app r l1 l2 : at_bytes r (l1 ++ l2) ->
  (rb_bytes r (length l1)).1 = Some l1 /\ at_bytes (rb_bytes r (length l1)).2 l2.
Proof.
  intros H. destruct (rb_bytes_at r _ (length l1) H) as [E1 E2]; [rewrite length_app; lia|].
  by rewrite take_app_length, drop_app_length in *.
Qed.

(** Every outcome of a read of [n] bytes. *)
Lemma rb_bytes_cases r n : rb_inv r ->
  (exists l1 l2 r', rb_bytes r n = (Some l1, r') /\ length l1 = n /\ bytes_ok l1 /\
                    at_bytes r (l1 ++ l2) /\ at_bytes r' l2) \/
  (exists r', rb_bytes r n = (None, r') /\ failed r').
Proof.
  intros H. destruct (at_or_failed r H) as [(l & Hl & Hok) | Hf].
  - destruct (decide (n <= length l)%nat).
    + left. destruct (rb_bytes_at r l n) as [E1 E2]; [done..|].
      exists (take n l), (drop n l), (rb_bytes r n).2. rewrite take_drop.
      rewrite <- E1, <- surjective_pairing, length_take. split_and!; try done; [lia|].
      by apply Forall_take.
    + right. destruct (rb_bytes_short r l n) as [E1 E2]; [done|lia|].
      exists (rb_bytes r n).2. by rewrite <- E1, <- surjective_pairing.
  - right. destruct (rb_bytes_failed r n Hf) as [E1 E2].
    exists (rb_bytes r n).2. by rewrite <- E1, <- surjective_pairing.
Qed.

(** *** Reading integers *)

Lemma rb_u8_cases r : rb_inv r ->
  (exists b l r', rb_u8 r = (b, r') /\ byte_ok b /\ at_bytes r (b :: l) /\ at_bytes r' l) \/
  (exists r', rb_u8 r = (0, r') /\ failed r').
Proof.
  intros H. rewrite rb_u8_bytes by done.
  destruct (rb_bytes_cases r 1 H) as [([|b []] & l2 & r' & -> & Hlen & Hok & Ha & Hb) | (r' & -> & Hf)];
    try done; [|right; eauto].
  left. exists b, l2, r'. cbn in *. apply Forall_cons in Hok as [? _]. done.
Qed.

Lemma rb_u8_at r b l : at_bytes r (b :: l) -> exists r', rb_u8 r = (b, r') /\ at_bytes r' l.
Proof.
  intros H. rewrite rb_u8_bytes by apply H.
  destruct (rb_bytes_at r _ 1 H) as [E1 E2]; [simpl; lia|]. rewrite E1. eauto.
Qed.

Lemma rb_u8_nil r : at_bytes r [] \/ failed r -> exists r', rb_u8 r = (0, r') /\ failed r'.
Proof.
  intros H. assert (rb_inv r) as Hi by (destruct H as [[? _]|[? _]]; done).
  rewrite rb_u8_bytes by done. destruct H as [H|H].
  - destruct (rb_bytes_short r _ 1 H) as [-> E2]; [simpl; lia|]. eauto.
  - destruct (rb_bytes_failed r 1 H) as [-> E2]. eauto.
Qed.

Lemma join16 hi lo : byte_ok hi -> byte_ok lo -> Z.lor (u16 (Z.shiftl hi 8)) lo = hi * 2 ^ 8 + lo.
Proof.
  intros. rewrite <- lor_shiftl_add' by done. f_equal. apply u16_small. word_lia.
Qed.

Lemma be_bytes_2 hi lo : byte_ok hi -> byte_ok lo -> be_bytes 2 (hi * 2 ^ 8 + lo) = [hi; lo].
Proof. intros. unfold be_bytes. cbn. unfold u8, byte_ok in *. repeat f_equal; dlia. Qed.

Lemma rb_u16_cases r : rb_inv r ->
  (exists v l r', rb_u16 r = (v, r') /\ 0 <= v < 2 ^ 16 /\
                  at_bytes r (be_bytes 2 v ++ l) /\ at_bytes r' l) \/
  (exists v r', rb_u16 r = (v, r') /\ failed r').
Proof.
  intros H. unfold rb_u16.
  destruct (rb_u8_cases r H) as [(hi & l & r1 & -> & Hhi & Ha & Hb) | (r1 & -> & Hf)].
  - destruct (rb_u8_cases r1 (proj1 Hb)) as [(lo & l' & r2 & -> & Hlo & Ha' & Hb') | (r2 & -> & Hf)];
      [|right; eauto].
    left. exists (hi * 2 ^ 8 + lo), l', r2. rewrite join16, be_bytes_2 by done.
    split_and!; try done; try (unfold byte_ok in *; lia). cbn [app].
    destruct Ha as [? Ha], Ha' as [? Ha']. destruct Hb as [? Hb]. by simplify_eq.
  - right. destruct (rb_u8_nil r1) as (r2 & -> & Hf'); [by right|]. eauto.
Qed.

Lemma rb_u16_at r v l : 0 <= v < 2 ^ 16 -> at_bytes r (be_bytes 2 v ++ l) ->
  exists r', rb_u16 r = (v, r') /\ at_bytes r' l.
Proof.
  intros Hv H. unfold rb_u16. unfold be_bytes in H. cbn in H.
  destruct (rb_u8_at _ _ _ H) as (r1 & -> & H1). destruct (rb_u8_at _ _ _ H1) as (r2 & -> & H2).
  exists r2. split; [|done]. rewrite join16 by apply u8_range. f_equal. word_lia.
Qed.

(** Two bytes underrun whatever they hold. *)
Lemma rb_u16_failed r : failed r -> exists v r', rb_u16 r = (v, r') /\ failed r'.
Proof.
  intros H. destruct (rb_u16_cases r (proj1 H)) as [(v & l & r' & E & _ & Ha & _) | ?]; [|done].
  destruct H as [_ H], Ha as [_ [? _]%view_some]. congruence.
Qed.

Lemma shift_or24 v b : 0 <= v < 2 ^ 24 -> byte_ok b -> Z.lor (u32 (Z.shiftl v 8)) b = v * 2 ^ 8 + b.
Proof.
  intros. rewrite <- lor_shiftl_add' by done. f_equal. apply u32_small. word_lia.
Qed.

Lemma be_bytes_3 a b c :
  byte_ok a -> byte_ok b -> byte_ok c -> be_bytes 3 ((a * 2 ^ 8 + b) * 2 ^ 8 + c) = [a; b; c].
Proof. intros. unfold be_bytes. cbn. unfold u8, byte_ok in *. repeat f_equal; dlia. Qed.

Lemma at_bytes_inj r l1 l2 : at_bytes r l1 -> at_bytes r l2 -> l1 = l2.
Proof. intros [_ E1] [_ E2]. congruence. Qed.

Lemma at_not_failed r l : at_bytes r l -> failed r -> False.
Proof. intros H [_ E]. rewrite (at_err _ _ H) in E. done. Qed.

Lemma rb_u24_cases r : rb_inv r ->
  (exists v l r', rb_u24 r = (v, r') /\ 0 <= v < 2 ^ 24 /\
                  at_bytes r (be_bytes 3 v ++ l) /\ at_bytes r' l) \/
  (exists v r', rb_u24 r = (v, r') /\ failed r').
Proof.
  intros H. unfold rb_u24.
  destruct (rb_u8_cases r H) as [(a & l & r1 & -> & Ha & At & At1) | (r1 & -> & Hf)].
  - destruct (rb_u8_cases r1 (proj1 At1)) as [(b & l1 & r2 & -> & Hb & At1' & At2) | (r2 & -> & Hf)].
    + destruct (rb_u8_cases r2 (proj1 At2)) as [(c & l2 & r3 & -> & Hc & At2' & At3) | (r3 & -> & Hf)];
        [|right; eauto].
      left. exists ((a * 2 ^ 8 + b) * 2 ^ 8 + c), l2, r3. unfold byte_ok in *.
      rewrite (shift_or24 a b), shift_or24, be_bytes_3 by (unfold byte_ok; lia).
      pose proof (at_bytes_inj _ _ _ At1 At1'). pose proof (at_bytes_inj _ _ _ At2 At2').
      subst. split_and!; done || lia.
    + right. destruct (rb_u8_nil r2) as (r3 & -> & Hf'); [by right|]. eauto.
  - right. destruct (rb_u8_nil r1) as (r2 & -> & Hf'); [by right|].
    destruct (rb_u8_nil r2) as (r3 & -> & Hf''); [by right|]. eauto.
Qed.

Lemma rb_u24_at r v l : 0 <= v < 2 ^ 24 -> at_bytes r (be_bytes 3 v ++ l) ->
  exists r', rb_u24 r = (v, r') /\ at_bytes r' l.
Proof.
  intros Hv H. unfold rb_u24. unfold be_bytes in H. cbn in H.
  destruct (rb_u8_at _ _ _ H) as (r1 & -> & H1). destruct (rb_u8_at _ _ _ H1) as (r2 & -> & H2).
  destruct (rb_u8_at _ _ _ H2) as (r3 & -> & H3).
  exists r3. split; [|done]. rewrite (shift_or24 (u8 _)) by word_lia.
  rewrite shift_or24 by word_lia. f_equal. word_lia.
Qed.

(** ** Sequences of reads *)

Inductive read_op := RdU8 | RdU16 | RdU24 | RdBytes (n : nat) | RdSkip (n : nat).

(** What one read returns: an integer, a pointer or [NULL], or nothing. *)
Inductive read_val := VInt (v : Z) | VPtr (p : option (list Z)) | VVoid.

Definition run_read (op : read_op) (r : rbuf) : read_val * rbuf :=
  match op with
  | RdU8 => let '(v, r) := rb_u8 r in (VInt v, r)
  | RdU16 => let '(v, r) := rb_u16 r in (VInt v, r)
  | RdU24 => let '(v, r) := rb_u24 r in (VInt v, r)
  | RdBytes n => let '(p, r) := rb_bytes r n in (VPtr p, r)
  | RdSkip n => (VVoid, rb_skip r n)
  end.

Definition spec_read (op : read_op) (s : option (list Z)) : read_val * option (list Z) :=
  match op with
  | RdU8 => let '(v, s) := spec_uint 1 s in (VInt v, s)
  | RdU16 => let '(v, s) := spec_uint 2 s in (VInt v, s)
  | RdU24 => let '(v, s) := spec_uint 3 s in (VInt v, s)
  | RdBytes n => let '(p, s) := spec_bytes n s in (VPtr p, s)
  | RdSkip n => (VVoid, (spec_bytes n s).2)
  end.

Fixpoint run_reads (ops : list read_op) (r : rbuf) : list read_val * rbuf :=
  match ops with
  | [] => ([], r)
  | op :: ops => let '(v, r) := run_read op r in let '(vs, r) := run_reads ops r in (v :: vs, r)
  end.

Fixpoint spec_reads (ops : list read_op) (s : option (list Z)) : list read_val * option (list Z) :=
  match ops with
  | [] => ([], s)
  | op :: ops => let '(v, s) := spec_read op s in let '(vs, s) := spec_reads ops s in (v :: vs, s)
  end.

Lemma rb_u8_refines r : rb_inv r ->
  rb_inv (rb_u8 r).2 /\ ((rb_u8 r).1, view (rb_u8 r).2) = spec_uint 1 (view r) /\
  byte_ok (rb_u8 r).1.
Proof.
  intros H. destruct (at_or_failed r H) as [([|b l] & Ha & Hok) | Hf].
  - destruct (rb_u8_nil r) as (r' & -> & Hi & Hv); [by left|]. destruct Ha as [_ ->].
    apply view_none in Hv. cbn. by rewrite Hv.
  - destruct (rb_u8_at _ _ _ Ha) as (r' & -> & Hi & Hv). destruct Ha as [_ ->].
    apply Forall_cons in Hok as [? _]. cbn. by rewrite Hv.
  - destruct (rb_u8_nil r) as (r' & -> & Hi & Hv); [by right|]. destruct Hf as [_ Hf%view_none].
    apply view_none in Hv. rewrite Hf. cbn. by rewrite Hv.
Qed.

(** A longer read on the abstract reader is a one-byte read and the rest. *)
Lemma spec_uint_S n s :
  spec_uint (S n) s =
  let '(hi, s) := spec_uint 1 s in
  let '(lo, s) := spec_uint n s in
  (hi * 2 ^ (8 * Z.of_nat n) + lo, s).
Proof.
  destruct s as [[|b l]|]; [reflexivity| |reflexivity].
  unfold spec_uint. cbn [length take drop]. rewrite (proj2 (Nat.ltb_ge (S (length l)) 1)) by lia.
  rewrite drop_0, take_0. change (be_val [b]) with (0 * 2 ^ 8 + b).
  destruct (Nat.ltb_spec (length l) n); destruct (Nat.ltb_spec (S (length l)) (S n)); try lia.
  - f_equal. rewrite be_val_cons. cbn [Nat.sub].
    rewrite Z.mul_add_distr_r, <- Z.mul_assoc, <- Z.pow_add_r by lia.
    replace (8 * Z.of_nat (length l) + 8 * Z.of_nat (n - length l)) with (8 * Z.of_nat n) by lia.
    lia.
  - f_equal. cbn [take]. rewrite !be_val_cons, length_take, Nat.min_l by lia. cbn. lia.
Qed.

Lemma rb_u16_refines r : rb_inv r ->
  rb_inv (rb_u16 r).2 /\ ((rb_u16 r).1, view (rb_u16 r).2) = spec_uint 2 (view r).
Proof.
  intros H. destruct (rb_u8_refines r H) as (H1 & E1 & B1). unfold rb_u16.
  destruct (rb_u8 r) as [hi r1]. cbn in *. destruct (rb_u8_refines r1 H1) as (H2 & E2 & B2).
  destruct (rb_u8 r1) as [lo r2]. cbn [fst snd] in *. split; [done|].
  rewrite (spec_uint_S 1), <- E1, <- E2, join16 by done. done.
Qed.

Lemma rb_u24_refines r : rb_inv r ->
  rb_inv (rb_u24 r).2 /\ ((rb_u24 r).1, view (rb_u24 r).2) = spec_uint 3 (view r).
Proof.
  intros H. destruct (rb_u8_refines r H) as (H1 & E1 & B1). unfold rb_u24.
  destruct (rb_u8 r) as [a r1]. cbn in *. destruct (rb_u8_refines r1 H1) as (H2 & E2 & B2).
  destruct (rb_u8 r1) as [b r2]. cbn in *. destruct (rb_u8_refines r2 H2) as (H3 & E3 & B3).
  destruct (rb_u8 r2) as [c r3]. cbn [fst snd] in *. split; [done|].
  rewrite (spec_uint_S 2), <- E1, (spec_uint_S 1), <- E2, <- E3. f_equal.
  unfold byte_ok in *. rewrite (shift_or24 a b), shift_or24 by (unfold byte_ok; lia). lia.
Qed.

Lemma run_read_refines op r : rb_inv r ->
  rb_inv (run_read op r).2 /\ ((run_read op r).1, view (run_read op r).2) = spec_read op (view r).
Proof.
  intros H. destruct op as [| | |n|n]; unfold run_read, spec_read, rb_skip.
  - destruct (rb_u8_refines r H) as (Hi & <- & _). by destruct (rb_u8 r).
  - destruct (rb_u16_refines r H) as (Hi & <-). by destruct (rb_u16 r).
  - destruct (rb_u24_refines r H) as (Hi & <-). by destruct (rb_u24 r).
  - destruct (rb_bytes_refines r n H) as (Hi & <-). by destruct (rb_bytes r n).
  - destruct (rb_bytes_refines r n H) as (Hi & <-). by destruct (rb_bytes r n).
Qed.

(** ** Sequences of writes *)

Inductive write_op := WrU8 (v : Z) | WrU16 (v : Z) | WrU24 (v : Z) | WrBytes (src : list Z).

Definition run_write (w : wbuf) (op : write_op) : wbuf :=
  match op with
  | WrU8 v => wb_u8 w v
  | WrU16 v => wb_u16 w v
  | WrU24 v => wb_u24 w v
  | WrBytes src => wb_bytes w src
  end.

(** The wire form of one write. *)
Definition wire (op : write_op) : list Z :=
  match op with
  | WrU8 v => [v]
  | WrU16 v => be_bytes 2 v
  | WrU24 v => be_bytes 3 v
  | WrBytes src => src
  end.

(** The read that takes back what [op] wrote, and the value it returns. *)
Definition read_of (op : write_op) : read_op :=
  match op with
  | WrU8 _ => RdU8 | WrU16 _ => RdU16 | WrU24 _ => RdU24 | WrBytes src => RdBytes (length src)
  end.
Definition val_of (op : write_op) : read_val :=
  match op with WrU8 v | WrU16 v | WrU24 v => VInt v | WrBytes src => VPtr (Some src) end.

(** The value fits the C type of the argument. *)
Definition write_ok (op : write_op) : Prop :=
  match op with
  | WrU8 v => byte_ok v
  | WrU16 v => 0 <= v < 2 ^ 16
  | WrU24 v => 0 <= v < 2 ^ 24
  | WrBytes src => bytes_ok src
  end.

Lemma run_write_appended w op : wb_inv w -> appended w (wire op) (run_write w op).
Proof.
  intros. destruct op; cbn [run_write wire].
  - by apply wb_u8_appended.
  - by apply wb_u16_appended.
  - by apply wb_u24_appended.
  - by apply wb_bytes_appended.
Qed.

Lemma appended_nil w : wb_inv w -> appended w [] w.
Proof.
  intros H. unfold appended. rewrite app_nil_r. destruct (w_err w); split_and!; try done; simpl; auto; try lia.
Qed.

Lemma run_writes_appended ops w :
  wb_inv w -> appended w (concat (wire <$> ops)) (foldl run_write w ops).
Proof.
  revert w. induction ops as [|op ops IH]; intros w H; cbn; [by apply appended_nil|].
  pose proof (run_write_appended w op H) as H1. eapply appended_app; [exact H1|]. apply IH, H1.
Qed.

Lemma wire_ok op : write_ok op -> bytes_ok (wire op).
Proof. destruct op; cbn [wire write_ok]; intros; try apply be_bytes_ok; [by apply Forall_singleton|done]. Qed.

Lemma run_read_wire op l r : write_ok op -> at_bytes r (wire op ++ l) ->
  exists r', run_read (read_of op) r = (val_of op, r') /\ at_bytes r' l.
Proof.
  intros Hok H. destruct op; cbn [read_of run_read val_of wire] in *.
  - destruct (rb_u8_at _ _ _ H) as (r' & -> & ?). eauto.
  - destruct (rb_u16_at _ _ _ Hok H) as (r' & -> & ?). eauto.
  - destruct (rb_u24_at _ _ _ Hok H) as (r' & -> & ?). eauto.
  - destruct (rb_bytes_app _ _ _ H) as [E1 E2]. destruct (rb_bytes _ _). cbn in *. subst. eauto.
Qed.

(** ** Properties *)

(** C22. Refinement: on any sequence of reads, over any buffer, the bounded
    cursor returns the same values as a reader over a plain byte list that
    fails for good at the first underrun, never leaves the buffer, and ends at
    the same remaining input. *)
Theorem reads_refine_list_reader (ops : list read_op) (r : rbuf) (Hr : rb_inv r) :
  rb_inv (run_reads ops r).2 /\
  ((run_reads ops r).1, view (run_reads ops r).2) = spec_reads ops (view r).
Proof.
  revert r Hr. induction ops as [|op ops IH]; intros r Hr; cbn [run_reads spec_reads]; [done|].
  destruct (run_read_refines op r Hr) as (Hi & <-).
  destruct (run_read op r) as [v r1]. cbn [fst snd] in *.
  destruct (IH r1 Hi) as (Hi' & <-). by destruct (run_reads ops r1).
Qed.

Lemma reads_refine_list_reader_witness :
  (run_reads [RdU16; RdBytes 2; RdU24] (rb_init [3; 3; 7; 8; 9; 1] 6)).1
  = [VInt 771; VPtr (Some [7; 8]); VInt 590080].
Proof.
  pose proof (reads_refine_list_reader [RdU16; RdBytes 2; RdU24] (rb_init [3; 3; 7; 8; 9; 1] 6)) as H.
  destruct H as [_ H]; [apply rb_init_inv; [simpl; lia | repeat constructor; done]|].
  apply (f_equal fst) in H. exact H.
Defined.

(** Any sequence of writes either fits, and then the buffer holds exactly
    the concatenated wire forms, or sets the error; in both cases no byte at or
    past [cap] changes and the object keeps its size. *)
Theorem writes_append_or_fail (ops : list write_op) (p : list Z) (cap : nat)
    (Hcap : (cap <= length p)%nat) :
  let w := foldl run_write (wb_init p cap) ops in
  let out := concat (wire <$> ops) in
  length (w_p w) = length p /\ drop cap (w_p w) = drop cap p /\
  (w_err w = false <-> (length out <= cap)%nat) /\
  (w_err w = false -> written w = out).
Proof.
  pose proof (run_writes_appended ops _ (wb_init_inv p cap Hcap)) as (_ & _ & _ & Hl & Hd & _ & H).
  cbn in *. split_and!; try done; destruct (w_err _); naive_solver lia.
Qed.

Lemma writes_append_or_fail_witness :
  written (foldl run_write (wb_init (replicate 8 9) 6) [WrU16 0x0303; WrU24 5; WrU8 1])
  = [3; 3; 0; 0; 5; 1].
Proof.
  destruct (writes_append_or_fail [WrU16 0x0303; WrU24 5; WrU8 1] (replicate 8 9) 6) as (_ & _ & _ & H);
    [simpl; lia|].
  apply H. reflexivity.
Defined.

(** Round trip: what the writer produced from in-range values, the reader
    reads back value by value, consuming every byte and raising no error. *)
Theorem write_read_roundtrip (ops : list write_op) (p : list Z) (cap : nat)
    (Hcap : (cap <= length p)%nat) (Hok : Forall write_ok ops)
    (Hfit : (length (concat (wire <$> ops)) <= cap)%nat) :
  let w := foldl run_write (wb_init p cap) ops in
  let msg := take (w_len w) (w_p w) in
  let '(vs, r) := run_reads (read_of <$> ops) (rb_init msg (length msg)) in
  vs = (val_of <$> ops) /\ r_err r = false /\ rb_left r = 0%nat.
Proof.
  pose proof (run_writes_appended ops _ (wb_init_inv p cap Hcap)) as (_ & _ & _ & _ & _ & _ & H).
  cbn in *. destruct (w_err _); [naive_solver lia|]. destruct H as (_ & _ & H). unfold written in H.
  rewrite H. clear H Hcap Hfit. cbn [w_len w_p]. rewrite take_0. cbn [app].
  assert (Hb : bytes_ok (concat (wire <$> ops))).
  { induction Hok; cbn; [done|]. apply Forall_app; auto using wire_ok. }
  pose proof (at_init_all _ Hb) as Hr. revert Hr. generalize (rb_init (concat (wire <$> ops)) (length (concat (wire <$> ops)))).
  clear Hb. induction Hok as [|op ops Hop Hops IH]; intros r Hr; cbn in *.
  - split_and!; [done|by rewrite (at_err _ _ Hr)|by rewrite (at_left _ _ Hr)].
  - destruct (run_read_wire op _ r Hop Hr) as (r1 & -> & Hr1). specialize (IH r1 Hr1).
    destruct (run_reads _ r1) as [vs r2]. naive_solver.
Qed.

Lemma write_read_roundtrip_witness :
  let w := foldl run_write (wb_init (replicate 8 9) 8) [WrU16 0x0303; WrU24 5; WrBytes [1; 2]] in
  let msg := take (w_len w) (w_p w) in
  (run_reads [RdU16; RdU24; RdBytes 2] (rb_init msg (length msg))).1
  = [VInt 0x0303; VInt 5; VPtr (Some [1; 2])].
Proof.
  pose proof (write_read_roundtrip [WrU16 0x0303; WrU24 5; WrBytes [1; 2]] (replicate 8 9) 8
    ltac:(simpl; lia) ltac:(repeat constructor; done) ltac:(simpl; lia)) as H.
  vm_compute in H |- *. apply H.
Defined.
