(* ===== verification/Writer.v ===== *)
(** * Reasoning about message writers

    The C message builders are straight-line writes on one [wbuf], with a
    length reserved by [wb_mark] and filled in by [wb_patch16] or
    [wb_patch24] once its body is written.  Each rule below adds one write
    to what a builder is known to have appended; [emits] applies them. *)

From S2P Require Import Prelude Buf.
Local Open Scope Z_scope.

Lemma appended_inv w a w' : appended w a w' -> wb_inv w'.
Proof. by intros [? _]. Qed.

Lemma appended_eq w a b w' : appended w a w' -> a = b -> appended w b w'.
Proof. by intros H <-. Qed.

Lemma appended_refl w : wb_inv w -> appended w [] w.
Proof. apply appended_nil. Qed.

Lemma emit_u8 w a w' v : appended w a w' -> appended w (a ++ [v]) (wb_u8 w' v).
Proof. intros H. eapply appended_app; [exact H|]. by eapply wb_u8_appended, appended_inv. Qed.

Lemma emit_u16 w a w' v : appended w a w' -> appended w (a ++ be_bytes 2 v) (wb_u16 w' v).
Proof. intros H. eapply appended_app; [exact H|]. by eapply wb_u16_appended, appended_inv. Qed.

Lemma emit_u24 w a w' v : appended w a w' -> appended w (a ++ be_bytes 3 v) (wb_u24 w' v).
Proof. intros H. eapply appended_app; [exact H|]. by eapply wb_u24_appended, appended_inv. Qed.

Lemma emit_bytes w a w' src : appended w a w' -> appended w (a ++ src) (wb_bytes w' src).
Proof. intros H. eapply appended_app; [exact H|]. by eapply wb_bytes_appended, appended_inv. Qed.

(** A builder called in the middle of another. *)
Lemma emit_call w a w' b w'' : appended w a w' -> (wb_inv w' -> appended w' b w'') -> appended w (a ++ b) w''.
Proof. intros H Hb. eapply appended_app; [exact H|]. by eapply Hb, appended_inv. Qed.

Lemma emit_loop {A} (f : wbuf -> A -> wbuf) (g : A -> list Z) l : (forall w x, wb_inv w -> appended w (g x) (f w x)) ->
  forall w, wb_inv w -> appended w (mjoin (g <$> l)) (foldl f w l).
Proof.
  intros Hf. induction l as [|x l IH]; intros w Hw; [by apply appended_nil|]. cbn [foldl].
  eapply (appended_app w (g x)); [by apply Hf|]. apply IH. by eapply appended_inv, Hf.
Qed.

(** ** Length prefixes *)

(** Where the body starts, when nothing has failed. *)
Lemma appended_len w a w' : appended w a w' -> w_err w' = false -> w_len w' = (w_len w + length a)%nat.
Proof.
  intros (Hi & _ & Hl & Hp & _ & _ & H) E. rewrite E in H. destruct H as (_ & Hf & Hw).
  apply (f_equal length) in Hw. unfold written in Hw. rewrite length_app, !length_take in Hw. destruct Hi. lia.
Qed.

(** A patch inside what was appended leaves everything else as it was. *)
Lemma store_inside w (p : list Z) (off : nat) new len cap : (cap <= length p)%nat -> (len <= cap)%nat -> (w_len w <= off)%nat -> (off + length new <= len)%nat ->
  take (w_len w) (store_bytes p off new) = take (w_len w) p /\ drop cap (store_bytes p off new) = drop cap p.
Proof.
  intros Hc Hl Ho Hn. split; [|apply drop_store_bytes; lia]. apply (take_prefix_le _ off); [done|]. apply take_store_bytes_before. lia.
Qed.

Lemma emit_patch (n : nat) (patch : wbuf -> nat -> wbuf) :
  (forall w pre body, wb_inv w -> w_err w = false -> written w = pre ++ replicate n 0 ++ body ->
     exists new, length new = n /\ patch w (length pre) = Wbuf (store_bytes (w_p w) (length pre) new) (w_cap w) (w_len w) false /\
       new = be_bytes n (Z.of_nat (length body))) ->
  (forall w off, w_err w = true -> patch w off = w) ->
  forall w a w1 body w2, appended w a w1 -> appended (wb_bytes w1 (replicate n 0)) body w2 ->
  appended w (a ++ be_bytes n (Z.of_nat (length body)) ++ body) (patch w2 (w_len w1)).
Proof.
  intros Hp He w a w1 body w2 H1 H2. pose proof (emit_bytes _ _ _ (replicate n 0) H1) as H3. pose proof (appended_app _ _ _ _ _ H3 H2) as H.
  destruct (w_err w2) eqn:E2.
  - rewrite He by done. destruct H as (Hi & Hc & Hl & Hn & Hd & Ht & H). unfold appended. rewrite E2 in *. rewrite !length_app, length_replicate in H.
    rewrite !length_app, length_be_bytes. split_and!; try done. destruct H; [by left|right; lia].
  - assert (Ew : w_err w = false /\ written w2 = written w ++ (a ++ replicate n 0) ++ body /\ (length ((a ++ replicate n 0%Z) ++ body) <= w_cap w - w_len w)%nat).
    { destruct H as (_ & _ & _ & _ & _ & _ & H). rewrite E2 in H. tauto. }
    destruct Ew as (Ew & Hw & Hfit). assert (E1 : w_err w1 = false).
    { destruct H2 as (_ & _ & _ & _ & _ & _ & H2). rewrite E2 in H2. destruct H2 as [H2 _]. destruct (wb_bytes_appended w1 (replicate n 0) (appended_inv _ _ _ H1)) as (_ & _ & _ & _ & _ & _ & H4).
      rewrite H2 in H4. tauto. }
    pose proof (appended_len _ _ _ H1 E1) as L1. pose proof (appended_len _ _ _ H E2) as L2. rewrite !length_app, length_replicate in L2.
    destruct H as (Hi & Hc & Hl & Hn & Hd & Ht & _).
    assert (Lw : length (written w ++ a) = w_len w1).
    { rewrite length_app. unfold written. rewrite length_take. destruct Hi. lia. }
    destruct (Hp w2 (written w ++ a) body Hi E2) as (new & Ln & Ep & En); [by rewrite Hw, <- !app_assoc|]. rewrite Lw in Ep. rewrite Ep.
    destruct (store_inside w (w_p w2) (w_len w1) new (w_len w2) (w_cap w2)) as [S1 S2]; [apply Hi|apply Hi|lia|lia|].
    unfold appended, wb_inv. cbn [w_p w_cap w_len w_err]. rewrite length_store_bytes by (destruct Hi; lia). rewrite S1, <- Hc, S2, Hc.
    split_and!; try done; try (destruct Hi; lia).
    + rewrite !length_app, length_be_bytes. rewrite !length_app, length_replicate in Hfit. lia.
    + unfold written at 1. cbn [w_p w_len]. rewrite app_assoc, <- Lw, <- En. unfold written in Hw at 1.
      apply (written_patch _ _ _ _ (replicate n 0)); [destruct Hi; lia| |done|by rewrite length_replicate]. by rewrite Hw, <- !app_assoc.
Qed.

Lemma emit_patch16 w a w1 body w2 : appended w a w1 -> appended (wb_bytes w1 (replicate 2 0)) body w2 ->
  appended w (a ++ be_bytes 2 (Z.of_nat (length body)) ++ body) (wb_patch16 w2 (w_len w1)).
Proof.
  apply (emit_patch 2 wb_patch16); [|intros v off E; unfold wb_patch16; by rewrite E].
  intros v pre b [Hi Hi'] E Hw. eexists. split; [|split; [|reflexivity]]; [done|]. unfold wb_patch16. rewrite E.
  assert (Hlen : w_len v = (length pre + 2 + length b)%nat).
  { apply (f_equal length) in Hw. unfold written in Hw. rewrite length_take, !length_app in Hw. cbn in Hw. lia. }
  rewrite insert_insert_store by lia. replace (Z.of_nat (w_len v) - Z.of_nat (length pre) - 2) with (Z.of_nat (length b)) by lia.
  by rewrite Z.shiftr_div_pow2 by lia.
Qed.

Lemma emit_patch24 w a w1 body w2 : appended w a w1 -> appended (wb_bytes w1 (replicate 3 0)) body w2 ->
  appended w (a ++ be_bytes 3 (Z.of_nat (length body)) ++ body) (wb_patch24 w2 (w_len w1)).
Proof.
  apply (emit_patch 3 wb_patch24); [|intros v off E; unfold wb_patch24; by rewrite E].
  intros v pre b [Hi Hi'] E Hw. eexists. split; [|split; [|reflexivity]]; [done|]. unfold wb_patch24. rewrite E.
  assert (Hlen : w_len v = (length pre + 3 + length b)%nat).
  { apply (f_equal length) in Hw. unfold written in Hw. rewrite length_take, !length_app in Hw. cbn in Hw. lia. }
  rewrite insert3_store by lia. replace (Z.of_nat (w_len v) - Z.of_nat (length pre) - 3) with (Z.of_nat (length b)) by lia.
  rewrite !Z.shiftr_div_pow2 by lia. change (2 ^ 16) with (2 ^ 8 * 2 ^ 8). by rewrite <- Z.div_div by lia.
Qed.

(** What a builder returns: the bytes, when they fit. *)
Lemma builder_result out cap bytes w : (cap <= length out)%nat -> appended (wb_init out cap) bytes w ->
  (if w_err w then None else Some (take (w_len w) (w_p w))) = if (length bytes <=? cap)%nat then Some bytes else None.
Proof.
  intros Ho (_ & _ & _ & _ & _ & _ & H). change (take (w_len w) (w_p w)) with (written w). cbn [w_err w_cap w_len wb_init] in H.
  destruct (w_err w), (Nat.leb_spec (length bytes) cap); try done.
  - destruct H; [done|lia].
  - by destruct H as (_ & _ & ->).
  - destruct H as (_ & ? & _). lia.
Qed.

(** ** Automation *)

Lemma wb_u8_keeps w v : wb_inv w -> wb_inv (wb_u8 w v).
Proof. intros. by eapply appended_inv, wb_u8_appended. Qed.
Lemma wb_u16_keeps w v : wb_inv w -> wb_inv (wb_u16 w v).
Proof. intros. by apply wb_u8_keeps, wb_u8_keeps. Qed.
Lemma wb_u24_keeps w v : wb_inv w -> wb_inv (wb_u24 w v).
Proof. intros. by apply wb_u8_keeps, wb_u8_keeps, wb_u8_keeps. Qed.
Lemma wb_bytes_keeps w src : wb_inv w -> wb_inv (wb_bytes w src).
Proof. intros. by eapply appended_inv, wb_bytes_appended. Qed.

Create HintDb writer.
#[export] Hint Resolve wb_u8_keeps wb_u16_keeps wb_u24_keeps wb_bytes_keeps appended_inv : writer.

(** Extends what is known of the writer by its last write, back to the start. *)
Ltac emits :=
  rewrite ?wb_mark_bytes; cbv beta iota zeta;
  repeat match goal with
  | |- appended ?w _ ?w => apply appended_refl
  | |- appended _ _ (wb_u8 _ _) => eapply emit_u8
  | |- appended _ _ (wb_u16 _ _) => eapply emit_u16
  | |- appended _ _ (wb_u24 _ _) => eapply emit_u24
  | |- appended _ _ (wb_bytes _ _) => eapply emit_bytes
  | |- appended _ _ (wb_patch16 _ _) => eapply emit_patch16
  | |- appended _ _ (wb_patch24 _ _) => eapply emit_patch24
  | |- appended _ _ (foldl _ _ _) => eapply emit_call; [|intros; apply emit_loop; [intros|assumption]]
  end; eauto 20 with writer.
