(* ===== verification/Reader.v ===== *)
(** * Reading programs over the byte cursor

    The C parsers are straight-line code over one [rbuf]: reads that set a
    sticky error, tests, early [return 0].  Here such a function is a program
    of reads.  [run] executes it with the cursor of [Buf]; [runl] executes it
    over a plain list; [run_refines] shows that the two agree, so every parser
    of the later files is proved over lists and holds of the cursor. *)

From S2P Require Import Prelude Ct Buf.
Local Open Scope Z_scope.
Local Open Scope word_scope.

Inductive prog (A : Type) : Type :=
  | Ret (a : A)                                  (** [return 1], with the outputs *)
  | Fail                                         (** [return 0] *)
  | Get8 (k : Z -> prog A)                       (** [rb_u8(r)] *)
  | GetN (n : nat) (k : option (list Z) -> prog A) (** [rb_bytes(r, n)], NULL or the bytes *)
  | Err (k : bool -> prog A)                     (** [r->err] *)
  | Left (k : nat -> prog A)                     (** [rb_left(r)] *)
  | Copy (k : option (list Z) -> prog A).        (** [rbuf copy = *r], the bytes it would read *)
Arguments Ret {A}.
Arguments Fail {A}.
Arguments Get8 {A}.
Arguments GetN {A}.
Arguments Err {A}.
Arguments Left {A}.
Arguments Copy {A}.

Fixpoint prog_bind {A B} (f : A -> prog B) (p : prog A) : prog B :=
  match p with
  | Ret a => f a
  | Fail => Fail
  | Get8 k => Get8 (fun v => prog_bind f (k v))
  | GetN n k => GetN n (fun o => prog_bind f (k o))
  | Err k => Err (fun b => prog_bind f (k b))
  | Left k => Left (fun n => prog_bind f (k n))
  | Copy k => Copy (fun o => prog_bind f (k o))
  end.
#[export] Instance prog_mbind : MBind prog := fun A B => prog_bind.
#[export] Instance prog_mret : MRet prog := fun A => Ret.

(** ** The two executions *)

Fixpoint run {A} (p : prog A) (r : rbuf) : option A * rbuf :=
  match p with
  | Ret a => (Some a, r)
  | Fail => (None, r)
  | Get8 k => let '(v, r) := rb_u8 r in run (k v) r
  | GetN n k => let '(o, r) := rb_bytes r n in run (k o) r
  | Err k => run (k (r_err r)) r
  | Left k => run (k (rb_left r)) r
  | Copy k => run (k (view r)) r
  end.

(** The list execution: [None] is the state after an underrun. *)
Definition list8 (s : option (list Z)) : Z * option (list Z) :=
  match s with Some (b :: l) => (b, Some l) | _ => (0, None) end.
Definition listn (n : nat) (s : option (list Z)) : option (list Z) * option (list Z) :=
  match s with
  | Some l => if (length l <? n)%nat then (None, None) else (Some (take n l), Some (drop n l))
  | None => (None, None)
  end.
Definition is_err (s : option (list Z)) : bool := match s with None => true | Some _ => false end.
Definition left_of (s : option (list Z)) : nat := match s with None => 0 | Some l => length l end.

Fixpoint runl {A} (p : prog A) (s : option (list Z)) : option A * option (list Z) :=
  match p with
  | Ret a => (Some a, s)
  | Fail => (None, s)
  | Get8 k => let '(v, s) := list8 s in runl (k v) s
  | GetN n k => let '(o, s) := listn n s in runl (k o) s
  | Err k => runl (k (is_err s)) s
  | Left k => runl (k (left_of s)) s
  | Copy k => runl (k s) s
  end.

(** A function that parses one buffer from its start. *)
Definition parse {A} (p : prog A) (bytes : list Z) : option A := (run p (rb_init bytes (length bytes))).1.

(** ** The executions agree *)

Lemma is_err_view r : is_err (view r) = r_err r.
Proof. unfold view. by destruct (r_err r). Qed.

Lemma left_of_view r : rb_inv r -> left_of (view r) = rb_left r.
Proof. intros Hr. unfold view, rb_left. destruct (r_err r); [done|]. apply length_rest, Hr. Qed.

Lemma rb_u8_list r : rb_inv r ->
  rb_inv (rb_u8 r).2 /\ list8 (view r) = ((rb_u8 r).1, view (rb_u8 r).2).
Proof.
  intros Hr. destruct (rb_u8_cases r Hr) as [(b & l & r' & -> & _ & Hat & Hat')|(r' & E & Hf)].
  - cbn [fst snd]. destruct Hat as [_ ->], Hat' as [Hi ->]. done.
  - rewrite E. cbn [fst snd]. destruct Hf as [Hi He]. split; [done|].
    assert (Hv' : view r' = None) by by apply view_none. rewrite Hv'.
    destruct (at_or_failed r Hr) as [([|b l] & Hl & _)|[_ Hf]].
    + by destruct Hl as [_ ->].
    + destruct (rb_u8_at _ _ _ Hl) as (r2 & E2 & H2). rewrite E in E2. injection E2 as -> ->.
      by rewrite (at_err _ _ H2) in He.
    + by rewrite (proj2 (view_none r) Hf).
Qed.

Lemma rb_bytes_list r n : rb_inv r ->
  rb_inv (rb_bytes r n).2 /\ listn n (view r) = ((rb_bytes r n).1, view (rb_bytes r n).2).
Proof.
  intros Hr. destruct (at_or_failed r Hr) as [(l & Hl & _)|Hf].
  - pose proof Hl as [_ ->]. cbn [listn]. destruct (Nat.ltb_spec (length l) n) as [Hlt|Hge].
    + destruct (rb_bytes_short r l n Hl Hlt) as [-> [Hi He]]. by rewrite (proj2 (view_none _) He).
    + destruct (rb_bytes_at r l n Hl Hge) as [-> [Hi ->]]. done.
  - destruct (rb_bytes_failed r n Hf) as [-> [Hi He]]. destruct Hf as [_ Hf].
    by rewrite (proj2 (view_none _) Hf), (proj2 (view_none _) He).
Qed.

Lemma run_refines {A} (p : prog A) : forall r, rb_inv r ->
  rb_inv (run p r).2 /\ runl p (view r) = ((run p r).1, view (run p r).2).
Proof.
  induction p as [a| |k IH|n k IH|k IH|k IH|k IH]; intros r Hr; cbn [run runl]; try done.
  - destruct (rb_u8_list r Hr) as [Hi ->]. destruct (rb_u8 r) as [v r']. by apply IH.
  - destruct (rb_bytes_list r n Hr) as [Hi ->]. destruct (rb_bytes r n) as [o r']. by apply IH.
  - rewrite is_err_view. by apply IH.
  - rewrite left_of_view by done. by apply IH.
  - by apply IH.
Qed.

Lemma parse_list {A} (p : prog A) bytes : bytes_ok bytes -> parse p bytes = (runl p (Some bytes)).1.
Proof.
  intros Hb. destruct (at_init_all bytes Hb) as [Hi Hv].
  destruct (run_refines p _ Hi) as [_ E]. rewrite Hv in E. by rewrite E.
Qed.

Lemma runl_bind {A B} (p : prog A) (f : A -> prog B) s :
  runl (p ≫= f) s = match runl p s with (Some a, s') => runl (f a) s' | (None, s') => (None, s') end.
Proof.
  revert s. induction p as [a| |k IH|n k IH|k IH|k IH|k IH]; intros s; cbn [runl mbind prog_mbind prog_bind]; try done.
  - destruct (list8 s). apply IH.
  - destruct (listn n s). apply IH.
Qed.

Lemma run_bind {A B} (p : prog A) (f : A -> prog B) r :
  run (p ≫= f) r = match run p r with (Some a, r') => run (f a) r' | (None, r') => (None, r') end.
Proof.
  revert r. induction p as [a| |k IH|n k IH|k IH|k IH|k IH]; intros r; cbn [run mbind prog_mbind prog_bind]; try done.
  - destruct (rb_u8 r). apply IH.
  - destruct (rb_bytes r n). apply IH.
Qed.

(** ** Common reads *)

Definition u8_ : prog Z := Get8 Ret.
Definition u16_ : prog Z := hi ← u8_; lo ← u8_; Ret (u16 (Z.shiftl hi 8) .| lo).
Definition u24_ : prog Z :=
  v ← u8_; b ← u8_; let v := (v <<32 8) .| b in b ← u8_; Ret ((v <<32 8) .| b).
Definition err_ : prog bool := Err Ret.
Definition left_ : prog nat := Left Ret.
Definition copy_ : prog (option (list Z)) := Copy Ret.
(** [p = rb_bytes(r, n); if (p == NULL) return 0;] *)
Definition bytes_ (n : nat) : prog (list Z) := GetN n (fun o => match o with Some b => Ret b | None => Fail end).
Definition skip_ (n : nat) : prog () := GetN n (fun _ => Ret ()).
(** [if (!b) return 0;] *)
Definition guard_ (b : bool) : prog () := if b then Ret () else Fail.
(** Parse a buffer held as bytes, failing with it. *)
Definition sub_ {A} (p : prog A) (bytes : list Z) : prog A :=
  match parse p bytes with Some a => Ret a | None => Fail end.
(** [return !r->err && rb_left(r) == 0;] *)
Definition done_ : prog () := e ← err_; n ← left_; guard_ (negb e && (n =? 0)%nat).

(** They are the cursor's operations. *)
Lemma run_u16 r : run u16_ r = (Some (rb_u16 r).1, (rb_u16 r).2).
Proof.
  unfold u16_, u8_, rb_u16. cbn. destruct (rb_u8 r) as [hi r1]. destruct (rb_u8 r1) as [lo r2]. done.
Qed.
Lemma run_u24 r : run u24_ r = (Some (rb_u24 r).1, (rb_u24 r).2).
Proof.
  unfold u24_, u8_, rb_u24. cbn. destruct (rb_u8 r) as [a r1]. destruct (rb_u8 r1) as [b r2].
  destruct (rb_u8 r2) as [c r3]. done.
Qed.

(** ** Reasoning over lists *)

Lemma runl_guard b s : runl (guard_ b) s = (if b then Some () else None, s).
Proof. by destruct b. Qed.

Lemma runl_sub {A} (p : prog A) bytes s : runl (sub_ p bytes) s = (parse p bytes, s).
Proof. unfold sub_. by destruct (parse p bytes). Qed.

Lemma runl_bytes n s : runl (bytes_ n) s = match listn n s with (Some b, s') => (Some b, s') | (None, s') => (None, s') end.
Proof. unfold bytes_. cbn. destruct (listn n s) as [[b|] s']; done. Qed.

Lemma runl_done s : runl done_ s = (match s with Some [] => Some () | _ => None end, s).
Proof. unfold done_, err_, left_. cbn. destruct s as [[|b l]|]; done. Qed.

(** Success of a sequence. *)
Lemma runl_bind_some {A B} (p : prog A) (f : A -> prog B) s b s' :
  runl (p ≫= f) s = (Some b, s') <-> exists a s1, runl p s = (Some a, s1) /\ runl (f a) s1 = (Some b, s').
Proof.
  rewrite runl_bind. split.
  - destruct (runl p s) as [[a|] s1]; [eauto|discriminate].
  - by intros (a & s1 & -> & H).
Qed.

Lemma runl_u8_cons {B} (f : Z -> prog B) b l : runl (u8_ ≫= f) (Some (b :: l)) = runl (f b) (Some l).
Proof. done. Qed.
Lemma runl_u8_nil {B} (f : Z -> prog B) : runl (u8_ ≫= f) (Some []) = runl (f 0) None.
Proof. done. Qed.
Lemma runl_u8_none {B} (f : Z -> prog B) : runl (u8_ ≫= f) None = runl (f 0) None.
Proof. done. Qed.
Lemma runl_err {B} (f : bool -> prog B) s : runl (err_ ≫= f) s = runl (f (is_err s)) s.
Proof. done. Qed.
Lemma runl_left {B} (f : nat -> prog B) s : runl (left_ ≫= f) s = runl (f (left_of s)) s.
Proof. done. Qed.

Lemma runl_guard_some {B} b (q : prog B) s c s' :
  runl (guard_ b;; q) s = (Some c, s') <-> b = true /\ runl q s = (Some c, s').
Proof. destruct b; cbn; [tauto|]. split; [discriminate|by intros [? _]]. Qed.

Lemma runl_bytes_some {B} n (f : list Z -> prog B) l c s' :
  runl (bytes_ n ≫= f) (Some l) = (Some c, s') <->
  exists b l', l = b ++ l' /\ length b = n /\ runl (f b) (Some l') = (Some c, s').
Proof.
  rewrite runl_bind, runl_bytes. unfold listn. destruct (Nat.ltb_spec (length l) n) as [H|H]; split; try discriminate.
  - intros (b & l' & -> & <- & _). rewrite length_app in H. lia.
  - intros E. exists (take n l), (drop n l). rewrite take_drop, length_take. split_and!; [done|lia|done].
  - intros (b & l' & -> & <- & E). by rewrite take_app_length, drop_app_length.
Qed.

Lemma runl_bytes_none {B} n (f : list Z -> prog B) : runl (bytes_ n ≫= f) None = (None, None).
Proof. done. Qed.

(** A checked buffer within a buffer. *)
Lemma runl_sub_some {A} (p : prog A) bytes s a s' :
  runl (sub_ p bytes) s = (Some a, s') <-> parse p bytes = Some a /\ s = s'.
Proof. rewrite runl_sub. split; [by intros [= -> ->]|by intros [-> ->]]. Qed.

Lemma parse_some {A} (p : prog A) bytes a : bytes_ok bytes ->
  parse p bytes = Some a <-> exists s', runl p (Some bytes) = (Some a, s').
Proof.
  intros Hb. rewrite parse_list by done. destruct (runl p (Some bytes)) as [o s']. cbn. split; [intros ->; eauto|].
  intros (s1 & E). congruence.
Qed.

(** A program run from a cursor at [l] that ends at [l']. *)
Lemma run_at {A} (p : prog A) r l a l' : at_bytes r l ->
  (exists r', run p r = (Some a, r') /\ at_bytes r' l') <-> runl p (Some l) = (Some a, Some l').
Proof.
  intros [Hi Hv]. destruct (run_refines p r Hi) as [Hi' E]. rewrite Hv in E. destruct (run p r) as [o r']. cbn [fst snd] in *.
  rewrite E. split.
  - by intros (r1 & [= -> ->] & [_ ->]).
  - intros [= -> Hl']. exists r'. done.
Qed.

(** The bit tests of single octets. *)
Lemma forallb_below (n : nat) (f : Z -> bool) v :
  forallb f (Z.of_nat <$> seq 0 n) = true -> 0 <= v < Z.of_nat n -> f v = true.
Proof.
  intros H Hv. rewrite forallb_forall in H. apply H, list_elem_of_In, list_elem_of_fmap.
  exists (Z.to_nat v). split; [lia|]. apply elem_of_seq. lia.
Qed.

Lemma top_bit b : byte_ok b -> (b .& 0x80 =? 0) = (b <? 128).
Proof.
  intros Hb. apply eqb_true_iff.
  apply (forallb_below 256 (fun b => eqb (b .& 0x80 =? 0) (b <? 128))); [vm_compute; reflexivity|unfold byte_ok in Hb; lia].
Qed.

Lemma low_bit b : byte_ok b -> (b .& 1 =? 0) = (b mod 2 =? 0).
Proof. intros _. by rewrite (land_mask 1). Qed.
