(* ===== verification/MdHash.v ===== *)
(** * Block buffering of the SHA family: [sha256_update], [sha512_update],
    [sha1_update]

    The three C files repeat one update routine over their own block size and
    compression function; here it is one definition, instantiated by each hash.
    The lemmas relate the buffered state to the message absorbed so far. *)

From S2P Require Import Prelude.
Local Open Scope Z_scope.

(** The context struct: chaining value, byte count, buffered bytes, buffer. *)
Record md_ctx {St : Type} := MdCtx { md_h : St; md_total : Z; md_fill : nat; md_block : list Z }.
Arguments md_ctx : clear implicits.
Arguments MdCtx {St}.
Arguments md_h {St}.
Arguments md_total {St}.
Arguments md_fill {St}.
Arguments md_block {St}.

Section Md.
Context {St : Type} (B : nat) (compress : St -> list Z -> St).

(** [while (n > 0 && s->fill < BLOCK) s->block[s->fill++] = *in++;] *)
Fixpoint fill_while (block : list Z) (fill : nat) (inp : list Z) : list Z * nat * list Z :=
  match inp with
  | [] => (block, fill, [])
  | c :: inp' =>
      if (fill <? B)%nat then fill_while (<[fill := c]> block) (fill + 1) inp'
      else (block, fill, inp)
  end.

(** [while (n >= BLOCK) compress(s->h, in);] with the input length as fuel:
    each round consumes a block. *)
Fixpoint compress_while (fuel : nat) (h : St) (inp : list Z) : St * list Z :=
  match fuel with
  | O => (h, inp)
  | S fuel =>
      if (B <=? length inp)%nat then compress_while fuel (compress h (take B inp)) (drop B inp)
      else (h, inp)
  end.

(** [while (n > 0) s->block[s->fill++] = *in++;] *)
Fixpoint tail_while (block : list Z) (fill : nat) (inp : list Z) : list Z * nat :=
  match inp with
  | [] => (block, fill)
  | c :: inp => tail_while (<[fill := c]> block) (fill + 1) inp
  end.

Definition md_update (s : md_ctx St) (inp : list Z) : md_ctx St :=
  let total := u64 (md_total s + Z.of_nat (length inp)) in
  let '(h, block, fill, inp) :=
    if (0 <? md_fill s)%nat then
      let '(block, fill, inp) := fill_while (md_block s) (md_fill s) inp in
      if (fill =? B)%nat then (compress (md_h s) block, block, 0%nat, inp)
      else (md_h s, block, fill, inp)
    else (md_h s, md_block s, md_fill s, inp) in
  let '(h, inp) := compress_while (length inp) h inp in
  let '(block, fill) := tail_while block fill inp in
  MdCtx h total fill block.

(** [while (s->fill < stop) s->block[s->fill++] = 0;], with [stop] as fuel. *)
Fixpoint zero_while (fuel : nat) (block : list Z) (fill stop : nat) : list Z :=
  match fuel with
  | O => block
  | S fuel =>
      if (fill <? stop)%nat then zero_while fuel (<[fill := 0]> block) (fill + 1) stop else block
  end.

(** The padding of [sha512.c]'s [finalize] and of [sha1_final], written into
    the pending block, with at most two compressions. *)
Definition md_finalize (s : md_ctx St) (len : list Z) : md_ctx St :=
  let stop := (B - length len)%nat in
  let block := <[md_fill s := 0x80]> (md_block s) in
  let fill := (md_fill s + 1)%nat in
  let '(h, block, fill) :=
    if (stop <? fill)%nat then
      let block := zero_while B block fill B in
      (compress (md_h s) block, block, 0%nat)
    else (md_h s, block, fill) in
  let block := zero_while B block fill stop in
  let block := store_bytes block stop len in
  MdCtx (compress h block) (md_total s) 0 block.

(** ** Reference: fold the compression over the whole blocks of a message *)

Definition whole (m : list Z) : nat := (length m / B * B)%nat.
Definition chunks (m : list Z) : list (list Z) :=
  (fun i => take B (drop (i * B) m)) <$> seq 0 (length m / B).
Definition md_blocks (iv : St) (m : list Z) : St := foldl compress iv (chunks m).

(** [s] has absorbed [m]: the chaining value covers its whole blocks, the
    buffer starts with the bytes after them. *)
Definition absorbed (iv : St) (s : md_ctx St) (m : list Z) : Prop :=
  md_h s = md_blocks iv m /\ md_fill s = (length m mod B)%nat /\ length (md_block s) = B /\
  take (md_fill s) (md_block s) = drop (whole m) m /\ md_total s = u64 (Z.of_nat (length m)).

Context (HB : (0 < B)%nat).

Lemma chunks_small m : (length m < B)%nat -> chunks m = [].
Proof. intros. unfold chunks. by rewrite Nat.div_small. Qed.

Lemma chunks_app m1 m2 k : length m1 = (k * B)%nat -> chunks (m1 ++ m2) = chunks m1 ++ chunks m2.
Proof.
  intros Hk. unfold chunks. rewrite length_app, Hk, Nat.div_add_l, Nat.div_mul by lia.
  rewrite seq_app, fmap_app. f_equal.
  - apply list_fmap_ext. intros i x [-> Hx]%lookup_seq.
    rewrite drop_app_le by nia. rewrite take_app_le; [done|]. rewrite length_drop. nia.
  - rewrite Nat.add_0_l, <- (Nat.add_0_r k) at 1.
    rewrite <- fmap_add_seq, <- list_fmap_compose. apply list_fmap_ext. intros i x _. cbn.
    rewrite drop_app_ge by nia. do 2 f_equal. nia.
Qed.

Lemma chunks_one m : length m = B -> chunks m = [m].
Proof.
  intros H. unfold chunks. rewrite H, Nat.div_same by lia. cbn. by rewrite drop_0, take_ge by lia.
Qed.

Lemma chunks_cons m : (B <= length m)%nat -> chunks m = take B m :: chunks (drop B m).
Proof.
  intros H. rewrite <- (take_drop B m) at 1.
  rewrite (chunks_app _ _ 1), chunks_one by (rewrite length_take; lia). done.
Qed.

Lemma whole_le m : (whole m <= length m)%nat.
Proof. unfold whole. rewrite Nat.mul_comm. apply Nat.Div0.mul_div_le. Qed.

Lemma compress_while_spec fuel h inp : (length inp <= fuel)%nat ->
  compress_while fuel h inp = (foldl compress h (chunks inp), drop (whole inp) inp).
Proof.
  revert h inp. induction fuel as [|fuel IH]; intros h inp Hf; cbn.
  - destruct inp; [|simpl in Hf; lia]. rewrite chunks_small by (simpl; lia).
    by unfold whole; rewrite drop_nil.
  - destruct (Nat.leb_spec B (length inp)) as [Hle|Hlt].
    + rewrite IH by (rewrite length_drop; lia).
      rewrite (chunks_cons inp) by done. cbn. f_equal.
      unfold whole. rewrite drop_drop, length_drop.
      replace (length inp) with (length inp - B + 1 * B)%nat at 2 by lia.
      rewrite Nat.div_add by lia. f_equal. lia.
    + rewrite chunks_small by done. unfold whole. by rewrite Nat.div_small.
Qed.

Lemma tail_while_spec block fill inp : (fill + length inp <= length block)%nat ->
  tail_while block fill inp = (store_bytes block fill inp, (fill + length inp)%nat).
Proof.
  revert block fill. induction inp as [|c inp IH]; intros block fill H; cbn in *.
  - unfold store_bytes. cbn. by rewrite !Nat.add_0_r, take_drop.
  - rewrite IH by (rewrite length_insert; lia). f_equal; [|lia].
    unfold store_bytes. cbn [length]. rewrite insert_take_drop by lia.
    rewrite take_app_ge, drop_app_ge by (rewrite length_take; lia).
    rewrite length_take, Nat.min_l by lia. replace (fill + 1 - fill)%nat with 1%nat by lia.
    replace (fill + 1 + length inp - fill)%nat with (S (length inp)) by lia. cbn [take drop].
    rewrite take_0, drop_drop, <- app_assoc. cbn. do 3 f_equal. f_equal. lia.
Qed.

Lemma fill_while_spec block fill inp : (fill <= B)%nat -> length block = B ->
  let k := Nat.min (B - fill) (length inp) in
  fill_while block fill inp = (store_bytes block fill (take k inp), (fill + k)%nat, drop k inp).
Proof.
  revert block fill. induction inp as [|c inp IH]; intros block fill Hf Hb; cbn [fill_while].
  - rewrite Nat.min_0_r. unfold store_bytes. cbn. by rewrite !Nat.add_0_r, take_drop.
  - cbn [length]. destruct (Nat.ltb_spec fill B).
    + rewrite IH by (rewrite ?length_insert; lia).
      replace (Nat.min (B - fill) (S (length inp))) with (S (Nat.min (B - (fill + 1)) (length inp))) by lia.
      cbn [take drop].
      pose proof (tail_while_spec block fill (c :: take (Nat.min (B - (fill + 1)) (length inp)) inp)) as H1.
      cbn [tail_while length] in H1. rewrite length_take in H1.
      rewrite tail_while_spec in H1 by (rewrite length_insert, length_take; lia).
      apply (f_equal fst) in H1; [|lia]. cbn in H1. rewrite H1.
      do 2 f_equal. lia.
    + replace (Nat.min (B - fill) (S (length inp))) with 0%nat by lia.
      rewrite take_0, drop_0. unfold store_bytes. cbn. by rewrite !Nat.add_0_r, take_drop.
Qed.

(** Absorbing from a block boundary. *)
Lemma absorb_aligned iv h block m inp k total :
  length m = (k * B)%nat -> h = md_blocks iv m -> length block = B ->
  total = u64 (Z.of_nat (length (m ++ inp))) ->
  absorbed iv (let '(h, rest) := compress_while (length inp) h inp in
               let '(block, fill) := tail_while block 0 rest in
               MdCtx h total fill block) (m ++ inp).
Proof.
  intros Hm -> Hb ->. rewrite compress_while_spec by done.
  assert (Hr : length (drop (whole inp) inp) = (length inp mod B)%nat).
  { rewrite length_drop. unfold whole.
    pose proof (Nat.div_mod_eq (length inp) B). lia. }
  pose proof (Nat.mod_upper_bound (length inp) B).
  rewrite tail_while_spec by lia. unfold absorbed. cbn. split_and!.
  - unfold md_blocks. by rewrite (chunks_app _ _ k), foldl_app.
  - by rewrite Hr, length_app, Hm, Nat.add_comm, Nat.Div0.mod_add.
  - rewrite length_store_bytes; lia.
  - pose proof (take_store_bytes block 0 (drop (whole inp) inp)) as E. cbn [Nat.add] in E.
    rewrite E, take_0 by lia. cbn [app]. unfold whole at 2. rewrite length_app, Hm, Nat.div_add_l by lia.
    rewrite drop_app_ge by lia. f_equal. unfold whole. lia.
  - done.
Qed.

Lemma length_take_whole m : length (take (whole m) m) = (length m / B * B)%nat.
Proof. rewrite length_take. pose proof (whole_le m). unfold whole in *. lia. Qed.

Lemma md_blocks_whole iv m : md_blocks iv m = md_blocks iv (take (whole m) m).
Proof.
  unfold md_blocks. rewrite <- (take_drop (whole m) m) at 1.
  rewrite (chunks_app _ _ (length m / B)) by apply length_take_whole.
  rewrite (chunks_small (drop (whole m) m)); [by rewrite app_nil_r|].
  rewrite length_drop. unfold whole. pose proof (Nat.div_mod_eq (length m) B).
  pose proof (Nat.mod_upper_bound (length m) B). lia.
Qed.

(** Bytes that complete the pending block compress it. *)
Lemma md_blocks_step iv m x : length (drop (whole m) m ++ x) = B ->
  md_blocks iv (m ++ x) = compress (md_blocks iv m) (drop (whole m) m ++ x).
Proof.
  intros Hx. rewrite (md_blocks_whole iv m). unfold md_blocks.
  rewrite <- (take_drop (whole m) m) at 1. rewrite <- app_assoc.
  rewrite (chunks_app _ (drop (whole m) m ++ x) (length m / B)) by apply length_take_whole.
  by rewrite (chunks_one (_ ++ x)), foldl_app by done.
Qed.

Lemma div_short (a b : nat) : (a mod B + b < B)%nat -> ((a + b) / B = a / B)%nat.
Proof.
  intros. symmetry. apply (Nat.div_unique _ _ _ (a mod B + b)); [done|].
  pose proof (Nat.div_mod_eq a B). lia.
Qed.

(** Bytes that leave the pending block short compress nothing. *)
Lemma md_blocks_short iv m x : (length m mod B + length x < B)%nat ->
  md_blocks iv (m ++ x) = md_blocks iv m.
Proof.
  intros Hx. rewrite (md_blocks_whole iv (m ++ x)), (md_blocks_whole iv m). f_equal.
  unfold whole. rewrite length_app, div_short by done. apply take_app_le, whole_le.
Qed.

Lemma absorb_short iv s m inp :
  absorbed iv s m -> (md_fill s + length inp < B)%nat ->
  absorbed iv (MdCtx (md_h s) (u64 (Z.of_nat (length (m ++ inp)))) (md_fill s + length inp)
                (store_bytes (md_block s) (md_fill s) inp)) (m ++ inp).
Proof.
  intros (Hh & Hf & Hb & Ht & Hn) Hlt. unfold absorbed. cbn. split_and!.
  - by rewrite md_blocks_short by lia.
  - rewrite Hf, length_app. apply (Nat.mod_unique _ _ (length m / B)); [lia|].
    pose proof (Nat.div_mod_eq (length m) B). lia.
  - rewrite length_store_bytes; lia.
  - rewrite take_store_bytes, Ht by lia. unfold whole. rewrite length_app, div_short by lia.
    rewrite drop_app_le; [done|]. apply whole_le.
  - done.
Qed.

Lemma md_update_absorbs iv s m inp :
  absorbed iv s m -> absorbed iv (md_update s inp) (m ++ inp).
Proof.
  intros Habs. pose proof Habs as (Hh & Hf & Hb & Ht & Hn). unfold md_update.
  pose proof (Nat.div_mod_eq (length m) B) as Hdm.
  pose proof (Nat.mod_upper_bound (length m) B).
  replace (u64 (md_total s + Z.of_nat (length inp))) with (u64 (Z.of_nat (length (m ++ inp))))
    by (rewrite Hn, length_app, Nat2Z.inj_add; unfold u64; by rewrite Zplus_mod_idemp_l).
  destruct (Nat.ltb_spec 0 (md_fill s)) as [Hpos|Hz].
  - rewrite fill_while_spec by lia. set (k := Nat.min _ _).
    destruct (Nat.eqb_spec (md_fill s + k) B) as [HeqB|HneB].
    + assert (Hblk : store_bytes (md_block s) (md_fill s) (take k inp) = drop (whole m) m ++ take k inp).
      { pose proof (take_store_bytes (md_block s) (md_fill s) (take k inp)) as E.
        rewrite length_take, Ht in E. rewrite <- E by lia. symmetry. apply take_ge.
        rewrite length_store_bytes; rewrite ?length_take; lia. }
      assert (Hlen : length (drop (whole m) m ++ take k inp) = B)
        by (rewrite <- Hblk, length_store_bytes; rewrite ?length_take; lia).
      rewrite Hblk, Hh, <- md_blocks_step by done.
      pose proof (absorb_aligned iv (md_blocks iv (m ++ take k inp)) (drop (whole m) m ++ take k inp) (m ++ take k inp) (drop k inp)
        (S (length m / B)) (u64 (Z.of_nat (length (m ++ inp))))) as Hal.
      rewrite <- app_assoc, take_drop in Hal. apply Hal; try done.
      rewrite length_app, length_take. lia.
    + assert (Hk : k = length inp) by (subst k; lia). rewrite Hk, take_ge, drop_ge by lia.
      apply absorb_short; [done|lia].
  - assert (Hm : length m = (length m / B * B)%nat) by lia.
    assert (Hfill : md_fill s = 0%nat) by lia. rewrite Hfill.
    by apply (absorb_aligned iv _ _ m inp _ _ Hm).
Qed.

Lemma md_updates_absorb iv inputs s m :
  absorbed iv s m -> absorbed iv (foldl md_update s inputs) (m ++ concat inputs).
Proof.
  revert s m. induction inputs as [|x inputs IH]; intros s m Hs; cbn [foldl concat]; [by rewrite app_nil_r|].
  rewrite app_assoc. by apply IH, md_update_absorbs.
Qed.

Lemma zero_while_spec fuel block fill stop :
  (fill <= stop)%nat -> (stop <= length block)%nat -> (stop - fill <= fuel)%nat ->
  zero_while fuel block fill stop = store_bytes block fill (replicate (stop - fill) 0).
Proof.
  revert block fill. induction fuel as [|fuel IH]; intros block fill Hf Hs Hfu; cbn [zero_while].
  - replace (stop - fill)%nat with 0%nat by lia. unfold store_bytes. cbn. by rewrite Nat.add_0_r, take_drop.
  - destruct (Nat.ltb_spec fill stop).
    + rewrite IH by (rewrite ?length_insert; lia). rewrite insert_store_bytes by lia.
      rewrite (store_bytes_app block fill [0]) by (rewrite length_replicate; cbn; lia).
      by replace (stop - fill)%nat with (S (stop - (fill + 1))) by lia.
    + replace (stop - fill)%nat with 0%nat by lia. unfold store_bytes. cbn. by rewrite Nat.add_0_r, take_drop.
Qed.

(** Zeros between the 0x80 byte and the length. *)
Definition pad_count (L n : nat) : nat :=
  let r := (n mod B)%nat in
  if (r + 1 <=? B - L)%nat then (B - L - r - 1)%nat else (B - r - 1 + (B - L))%nat.
Definition md_pad (m len : list Z) : list Z :=
  m ++ [0x80] ++ replicate (pad_count (length len) (length m)) 0 ++ len.

Lemma length_md_rest m : length (drop (whole m) m) = (length m mod B)%nat.
Proof. rewrite length_drop. unfold whole. pose proof (Nat.div_mod_eq (length m) B). lia. Qed.

(** The padding makes whole blocks, the fewest that hold it. *)
Lemma length_md_pad m len : (length len <= B)%nat -> exists k, length (md_pad m len) = (k * B)%nat.
Proof.
  intros HL. unfold md_pad, pad_count. rewrite !length_app, length_replicate.
  pose proof (Nat.div_mod_eq (length m) B). pose proof (Nat.mod_upper_bound (length m) B).
  destruct (Nat.leb_spec (length m mod B + 1) (B - length len)); cbn [length].
  - exists (length m / B + 1)%nat. lia.
  - exists (length m / B + 2)%nat. lia.
Qed.

Lemma length_zero_while fuel block fill stop : length (zero_while fuel block fill stop) = length block.
Proof.
  revert block fill. induction fuel as [|fuel IH]; intros block fill; cbn [zero_while]; [done|].
  destruct (_ <? _)%nat; [|done]. by rewrite IH, length_insert.
Qed.

Lemma md_finalize_block s len : length (md_block s) = B -> (length len <= B)%nat ->
  length (md_block (md_finalize s len)) = B.
Proof.
  intros Hb HL. unfold md_finalize. cbn zeta. destruct (_ <? _)%nat; cbn [md_block];
    rewrite length_store_bytes; rewrite !length_zero_while, length_insert; lia.
Qed.

(** The flat padding compresses the padded message. *)
Lemma md_finalize_spec iv s m len : absorbed iv s m -> (length len < B)%nat ->
  md_h (md_finalize s len) = md_blocks iv (md_pad m len).
Proof.
  intros (Hh & Hf & Hb & Ht & _) HL. unfold md_finalize, md_pad, pad_count. cbn zeta.
  pose proof (Nat.mod_upper_bound (length m) B). pose proof (length_md_rest m) as Hr.
  rewrite insert_store_bytes by lia.
  destruct (Nat.ltb_spec (B - length len) (md_fill s + 1)) as [Hov|Hno].
  - destruct (Nat.leb_spec (length m mod B + 1) (B - length len)); [lia|].
    rewrite (zero_while_spec B (store_bytes _ _ _)) by (rewrite ?length_store_bytes; cbn; lia).
    rewrite (store_bytes_app _ _ [0x80]) by (rewrite length_replicate; cbn; lia).
    rewrite (store_bytes_end (md_block s)) by (rewrite length_app, length_replicate; cbn; lia).
    rewrite Ht, zero_while_spec by (rewrite ?length_app, ?length_replicate, ?Hr; cbn; lia).
    set (z := (B - (md_fill s + 1))%nat). rewrite Hh, <- md_blocks_step
      by (rewrite !length_app, length_replicate, Hr; cbn; lia).
    rewrite Nat.sub_0_r. set (z2 := replicate (B - length len) 0).
    assert (Hz2 : length z2 = (B - length len)%nat) by apply length_replicate.
    rewrite <- Hz2. change (length z2) with (0 + length z2)%nat.
    rewrite (store_bytes_app _ 0 z2) by (rewrite !length_app, length_replicate, Hr; cbn; lia).
    rewrite store_bytes_end, take_0 by (rewrite !length_app, length_replicate, Hr; cbn; lia).
    cbn [md_h].
    set (m1 := m ++ [0x80] ++ replicate z 0).
    assert (Hm1 : length m1 = ((length m / B + 1) * B)%nat).
    { subst m1 z. rewrite !length_app, length_replicate. cbn.
      pose proof (Nat.div_mod_eq (length m) B). lia. }
    assert (Hd : drop (whole m1) m1 = []).
    { apply drop_ge. unfold whole. rewrite Hm1, Nat.div_mul by lia. lia. }
    pose proof (md_blocks_step iv m1 (z2 ++ len)) as Hstep. rewrite Hd in Hstep. cbn [app] in *.
    rewrite <- Hstep by (rewrite length_app; lia). subst m1 z2. rewrite <- app_assoc. cbn [app].
    rewrite replicate_add, <- !app_assoc, Hz2. do 4 f_equal. f_equal. lia.
  - destruct (Nat.leb_spec (length m mod B + 1) (B - length len)); [|lia].
    rewrite zero_while_spec by (rewrite ?length_store_bytes; cbn; lia).
    rewrite (store_bytes_app _ _ [0x80]) by (rewrite length_replicate; cbn; lia).
    set (z := replicate (B - length len - (md_fill s + 1)) 0).
    assert (Hz : length z = (B - length len - (md_fill s + 1))%nat) by apply length_replicate.
    replace (B - length len)%nat with (md_fill s + length ([0x80%Z] ++ z))%nat at 1
      by (rewrite length_app; cbn; lia).
    rewrite store_bytes_app, store_bytes_end by (rewrite ?length_app; cbn; lia). cbn [md_h].
    rewrite Ht, Hh, <- md_blocks_step by (rewrite !length_app, Hr; cbn; lia).
    rewrite <- app_assoc. subst z. rewrite Hf. do 4 f_equal. f_equal. lia.
Qed.

(** A finished message, a whole number of blocks, is fully compressed. *)
Lemma absorbed_whole iv s m k :
  absorbed iv s m -> length m = (k * B)%nat -> md_h s = md_blocks iv m /\ md_fill s = 0%nat.
Proof. intros (-> & -> & _) ->. by rewrite Nat.Div0.mod_mul. Qed.

Lemma absorbed_init iv block :
  length block = B -> absorbed iv (MdCtx iv 0 0 block) [].
Proof.
  intros Hb. unfold absorbed, md_blocks, whole. cbn. rewrite chunks_small by (simpl; lia).
  rewrite Nat.Div0.mod_0_l, take_0, drop_nil. done.
Qed.
End Md.
