(* ===== verification/Sha256.v ===== *)
(** * SHA-256: src/src/sha256.c, sha256.h

    The compression function, the buffered context and the one-shot hash.  The
    digest is shown to be the fold of the compression over the padded message
    of FIPS 180-4, however the input was cut into updates. *)

From S2P Require Import Prelude MdHash.
Local Open Scope Z_scope.
Local Open Scope word_scope.

Module Sha256.

Definition SHA256_BLOCK : nat := 64.
Definition SHA256_LEN : nat := 32.

(** The round constants, a row of the table each. *)
Definition K : list Z :=
  mjoin [[0x428a2f98; 0x71374491; 0xb5c0fbcf; 0xe9b5dba5; 0x3956c25b; 0x59f111f1; 0x923f82a4; 0xab1c5ed5];
         [0xd807aa98; 0x12835b01; 0x243185be; 0x550c7dc3; 0x72be5d74; 0x80deb1fe; 0x9bdc06a7; 0xc19bf174];
         [0xe49b69c1; 0xefbe4786; 0x0fc19dc6; 0x240ca1cc; 0x2de92c6f; 0x4a7484aa; 0x5cb0a9dc; 0x76f988da];
         [0x983e5152; 0xa831c66d; 0xb00327c8; 0xbf597fc7; 0xc6e00bf3; 0xd5a79147; 0x06ca6351; 0x14292967];
         [0x27b70a85; 0x2e1b2138; 0x4d2c6dfc; 0x53380d13; 0x650a7354; 0x766a0abb; 0x81c2c92e; 0x92722c85];
         [0xa2bfe8a1; 0xa81a664b; 0xc24b8b70; 0xc76c51a3; 0xd192e819; 0xd6990624; 0xf40e3585; 0x106aa070];
         [0x19a4c116; 0x1e376c08; 0x2748774c; 0x34b0bcb5; 0x391c0cb3; 0x4ed8aa4a; 0x5b9cca4f; 0x682e6ff3];
         [0x748f82ee; 0x78a5636f; 0x84c87814; 0x8cc70208; 0x90befffa; 0xa4506ceb; 0xbef9a3f7; 0xc67178f2]].

Definition rotate_right (x r : Z) : Z := (x >> r) .| (x <<32 (32 - r)).

(** [w[i]] of the first sixteen words, big-endian from the block. *)
Definition load_word (p : list Z) (i : nat) : Z :=
  ((p !!! (4 * i)%nat) <<32 24) .| ((p !!! (4 * i + 1)%nat) <<32 16)
  .| ((p !!! (4 * i + 2)%nat) <<32 8) .| (p !!! (4 * i + 3)%nat).

(** One step of the message schedule: appends [w[i]]. *)
Definition schedule_step (w : list Z) (i : nat) : list Z :=
  let w15 := w !!! (i - 15)%nat in
  let w2 := w !!! (i - 2)%nat in
  let s0 := rotate_right w15 7 .^ rotate_right w15 18 .^ (w15 >> 3) in
  let s1 := rotate_right w2 17 .^ rotate_right w2 19 .^ (w2 >> 10) in
  w ++ [(w !!! (i - 16)%nat) +32 s0 +32 (w !!! (i - 7)%nat) +32 s1].

Definition schedule (p : list Z) : list Z :=
  foldl schedule_step (load_word p <$> seq 0 16) (seq 16 48).

(** The eight working variables. *)
Record vars := Vars { va : Z; vb : Z; vc : Z; vd : Z; ve : Z; vf : Z; vg : Z; vh : Z }.

Definition round (w : list Z) (v : vars) (i : nat) : vars :=
  let '(Vars a b c d e f g hh) := v in
  let S1 := rotate_right e 6 .^ rotate_right e 11 .^ rotate_right e 25 in
  let ch := (e .& f) .^ (not32 e .& g) in
  let t1 := hh +32 S1 +32 ch +32 (K !!! i) +32 (w !!! i) in
  let S0 := rotate_right a 2 .^ rotate_right a 13 .^ rotate_right a 22 in
  let maj := (a .& b) .^ (a .& c) .^ (b .& c) in
  let t2 := S0 +32 maj in
  Vars (t1 +32 t2) a b c (d +32 t1) e f g.

Definition compress (h p : list Z) : list Z :=
  let w := schedule p in
  let '(Vars a b c d e f g hh) :=
    foldl (round w) (Vars (h !!! 0%nat) (h !!! 1%nat) (h !!! 2%nat) (h !!! 3%nat)
                          (h !!! 4%nat) (h !!! 5%nat) (h !!! 6%nat) (h !!! 7%nat)) (seq 0 64) in
  [(h !!! 0%nat) +32 a; (h !!! 1%nat) +32 b; (h !!! 2%nat) +32 c; (h !!! 3%nat) +32 d;
   (h !!! 4%nat) +32 e; (h !!! 5%nat) +32 f; (h !!! 6%nat) +32 g; (h !!! 7%nat) +32 hh].

Definition iv : list Z :=
  [0x6a09e667; 0xbb67ae85; 0x3c6ef372; 0xa54ff53a; 0x510e527f; 0x9b05688c; 0x1f83d9ab; 0x5be0cd19].

(** [sha256_init] leaves the block buffer as it was: [block] is its content. *)
Definition sha256_init (block : list Z) : md_ctx (list Z) := MdCtx iv 0 0 block.

Definition sha256_update (s : md_ctx (list Z)) (inp : list Z) : md_ctx (list Z) := md_update SHA256_BLOCK compress s inp.

(** [while (s->fill != SHA256_BLOCK - 8) sha256_update(s, &zero, 1);]: a block
    of iterations is enough fuel ([pad_while_absorbs]). *)
Fixpoint pad_while (fuel : nat) (s : md_ctx (list Z)) : md_ctx (list Z) :=
  match fuel with
  | O => s
  | S fuel => if (md_fill s =? SHA256_BLOCK - 8)%nat then s else pad_while fuel (sha256_update s [0])
  end.

Definition store_word (v : Z) : list Z := [u8 (v >> 24); u8 (v >> 16); u8 (v >> 8); u8 v].

Definition sha256_final (s : md_ctx (list Z)) : list Z * md_ctx (list Z) :=
  let bits := u64 (md_total s * 8) in
  let s := sha256_update s [0x80] in
  let s := pad_while SHA256_BLOCK s in
  let len := (fun i => u8 (bits >> (56 - 8 * Z.of_nat i))) <$> seq 0 8 in
  let s := sha256_update s len in
  (concat (store_word <$> md_h s), s).

(** The context of [sha256_of] is a local: its block starts indeterminate, and
    the digest does not depend on it ([sha256_final_digest]). *)
Definition sha256_of (inp : list Z) : list Z :=
  (sha256_final (sha256_update (sha256_init (replicate SHA256_BLOCK 0)) inp)).1.

(** ** Reference: FIPS 180-4 padding and the fold over the blocks *)

Definition pad_zeros (n : nat) : nat := ((119 - n mod 64) mod 64)%nat.
Definition sha256_pad (m : list Z) : list Z :=
  m ++ [0x80] ++ replicate (pad_zeros (length m)) 0 ++ be_bytes 8 (8 * Z.of_nat (length m)).
Definition sha256_spec (m : list Z) : list Z :=
  concat (be_bytes 4 <$> md_blocks SHA256_BLOCK compress iv (sha256_pad m)).

Example sha256_abc :
  sha256_of [97; 98; 99] =
  be_bytes 32 0xba7816bf8f01cfea414140de5dae2223b00361a396177a9cb410ff61f20015ad.
Proof. vm_compute. reflexivity. Qed.

(** ** Lemmas *)

Lemma sha256_store_word_be v : store_word v = be_bytes 4 v.
Proof.
  unfold store_word, be_bytes. rewrite !Z.shiftr_div_pow2 by lia. cbn.
  rewrite !Z.div_div by lia. done.
Qed.

Lemma len_bytes_be bits : (fun i => u8 (bits >> (56 - 8 * Z.of_nat i))) <$> seq 0 8 = be_bytes 8 bits.
Proof.
  unfold be_bytes. cbn. rewrite !Z.shiftr_div_pow2 by lia. rewrite !Z.div_div by lia.
  by rewrite Z.div_1_r.
Qed.

Abbreviation sha256_absorbed := (absorbed SHA256_BLOCK compress iv).

Lemma update_absorbs s m inp : sha256_absorbed s m -> sha256_absorbed (sha256_update s inp) (m ++ inp).
Proof. apply md_update_absorbs. unfold SHA256_BLOCK. lia. Qed.

Lemma sha256_init_absorbed block : length block = SHA256_BLOCK -> sha256_absorbed (sha256_init block) [].
Proof. apply absorbed_init. unfold SHA256_BLOCK. lia. Qed.

Lemma absorbed_fill s m : sha256_absorbed s m -> md_fill s = (length m mod 64)%nat.
Proof. by intros (_ & -> & _). Qed.

(** The padding loop stops, within a block of iterations, after exactly the
    zeros that bring the fill to 56. *)
Lemma pad_while_absorbs fuel s m z :
  sha256_absorbed s m -> (z <= fuel)%nat -> (z < 64)%nat -> ((length m + z) mod 64 = 56)%nat ->
  sha256_absorbed (pad_while (S fuel) s) (m ++ replicate z 0).
Proof.
  revert s m z. induction fuel as [|fuel IH]; intros s m z Hs Hz Hlt Hmod.
  - assert (z = 0)%nat as -> by lia. cbn. rewrite (absorbed_fill _ _ Hs), Nat.add_0_r in *.
    rewrite Hmod. cbn. by rewrite app_nil_r.
  - cbn [pad_while]. rewrite (absorbed_fill _ _ Hs).
    destruct (Nat.eqb_spec (length m mod 64) (SHA256_BLOCK - 8)) as [He|Hne].
    + assert (z = 0)%nat as ->; [|by rewrite app_nil_r].
      rewrite Nat.Div0.add_mod, He in Hmod. unfold SHA256_BLOCK in Hmod.
      destruct z; [done|]. exfalso. cbn [Nat.sub] in Hmod.
      rewrite (Nat.mod_small (S z)) in Hmod by lia.
      pose proof (Nat.div_mod_eq (56 + S z) 64). lia.
    + destruct z as [|z]; [rewrite Nat.add_0_r in Hmod; done|].
      assert (E : m ++ replicate (S z) 0 = (m ++ [0]) ++ replicate z 0) by by rewrite <- app_assoc.
      rewrite E. apply IH; try lia; [by apply update_absorbs|].
      rewrite length_app. cbn [length]. by replace (length m + 1 + z)%nat with (length m + S z)%nat by lia.
Qed.

Lemma pad_zeros_spec n :
  (pad_zeros n < 64)%nat /\ ((n + 1 + pad_zeros n) mod 64 = 56)%nat.
Proof.
  unfold pad_zeros. pose proof (Nat.mod_upper_bound n 64). split; [apply Nat.mod_upper_bound; lia|].
  pose proof (Nat.div_mod_eq n 64). pose proof (Nat.div_mod_eq (119 - n mod 64) 64).
  pose proof (Nat.mod_upper_bound (119 - n mod 64) 64).
  set (q := (n / 64)%nat) in *. set (q' := ((119 - n mod 64) / 64)%nat) in *.
  symmetry. apply (Nat.mod_unique _ _ (n / 64 + 1 - q')); [lia|]. fold q. nia.
Qed.

Lemma sha256_pad_length m : exists k, length (sha256_pad m) = (k * SHA256_BLOCK)%nat.
Proof.
  destruct (pad_zeros_spec (length m)) as [_ H].
  exists ((length m + 1 + pad_zeros (length m)) / 64 + 1)%nat. unfold sha256_pad, SHA256_BLOCK.
  rewrite !length_app, length_replicate, length_be_bytes. cbn [length].
  pose proof (Nat.div_mod_eq (length m + 1 + pad_zeros (length m)) 64). lia.
Qed.

(** The block buffer keeps its size through updates and a final. *)
Lemma sha256_final_block s m : sha256_absorbed s m ->
  length (md_block (sha256_final s).2) = SHA256_BLOCK.
Proof.
  intros Hs. unfold sha256_final. cbn [snd]. apply (update_absorbs _ _ [0x80]) in Hs.
  destruct (pad_zeros_spec (length m)) as [Hz Hmod].
  pose proof (pad_while_absorbs 63 _ _ (pad_zeros (length m)) Hs) as Hp.
  rewrite length_app in Hp. specialize (Hp ltac:(lia) Hz Hmod).
  match goal with |- context [sha256_update _ ?l] => apply (update_absorbs _ _ l) in Hp end.
  by destruct Hp as (_ & _ & Hb & _).
Qed.

(** Finishing any context that absorbed [m] gives the FIPS 180-4 digest of [m]. *)
Lemma sha256_final_digest s m : sha256_absorbed s m -> (sha256_final s).1 = sha256_spec m.
Proof.
  intros Hs. unfold sha256_final, sha256_spec. cbn [fst]. rewrite len_bytes_be.
  assert (Hbits : be_bytes 8 (u64 (md_total s * 8)) = be_bytes 8 (8 * Z.of_nat (length m))).
  { destruct Hs as (_ & _ & _ & _ & ->). unfold u64. rewrite Zmult_mod_idemp_l.
    change 64 with (8 * Z.of_nat 8). rewrite be_bytes_mod. f_equal. lia. }
  rewrite Hbits. apply (update_absorbs _ _ [0x80]) in Hs.
  destruct (pad_zeros_spec (length m)) as [Hz Hmod].
  pose proof (pad_while_absorbs 63 _ _ (pad_zeros (length m)) Hs) as Hp.
  rewrite length_app in Hp. specialize (Hp ltac:(lia) Hz Hmod).
  apply (update_absorbs _ _ (be_bytes 8 (8 * Z.of_nat (length m)))) in Hp.
  rewrite <- !app_assoc in Hp. destruct (sha256_pad_length m) as [k Hk].
  change (pad_while SHA256_BLOCK) with (pad_while 64).
  apply (absorbed_whole SHA256_BLOCK compress) with (k := k) in Hp as [-> _]; [|exact Hk].
  f_equal. apply list_fmap_ext. intros. apply sha256_store_word_be.
Qed.

Lemma sha256_updates_absorb inputs s m :
  sha256_absorbed s m -> sha256_absorbed (foldl sha256_update s inputs) (m ++ concat inputs).
Proof.
  apply md_updates_absorb. unfold SHA256_BLOCK. lia.
Qed.

Lemma sha256_of_spec m : sha256_of m = sha256_spec m.
Proof.
  unfold sha256_of. apply (sha256_final_digest _ m).
  apply (update_absorbs _ []), sha256_init_absorbed. by rewrite length_replicate.
Qed.

(** Every compression output is eight 32-bit words. *)
Lemma compress_shape h p : length (compress h p) = 8%nat /\ words_ok (compress h p).
Proof.
  unfold compress. destruct (foldl _ _ _). split; [done|].
  repeat (constructor; [apply u32_range|]). constructor.
Qed.

Lemma md_blocks_shape l h :
  length h = 8%nat -> words_ok h ->
  length (foldl compress h l) = 8%nat /\ words_ok (foldl compress h l).
Proof.
  revert h. induction l as [|p l IH]; intros h Hl Hw; cbn [foldl]; [done|].
  destruct (compress_shape h p) as [? ?]. apply IH; assumption.
Qed.

Lemma concat_be_bytes_length (n : nat) l : length (concat (be_bytes n <$> l)) = (length l * n)%nat.
Proof. induction l; cbn; [done|]. rewrite length_app, length_be_bytes. lia. Qed.

Lemma concat_be_bytes_ok (n : nat) l : bytes_ok (concat (be_bytes n <$> l)).
Proof. induction l; cbn; [constructor|]. apply Forall_app. split; [apply be_bytes_ok|done]. Qed.

Lemma sha256_spec_shape m : length (sha256_spec m) = SHA256_LEN /\ bytes_ok (sha256_spec m).
Proof.
  unfold sha256_spec. rewrite concat_be_bytes_length. split; [|apply concat_be_bytes_ok].
  unfold md_blocks. destruct (md_blocks_shape (chunks SHA256_BLOCK (sha256_pad m)) iv) as [-> _];
    [done| |done]. repeat (constructor; [done|]). constructor.
Qed.

Lemma sha256_of_length m : length (sha256_of m) = SHA256_LEN.
Proof. rewrite sha256_of_spec. apply sha256_spec_shape. Qed.

Lemma sha256_of_ok m : bytes_ok (sha256_of m).
Proof. rewrite sha256_of_spec. apply sha256_spec_shape. Qed.

(** ** Properties *)

(** C36. Equivalence: for every way of cutting a message into updates and every
    initial content of the block buffer, the incremental SHA-256 gives the
    digest of FIPS 180-4: the compression folded over the blocks of
    message || 0x80 || zeros || 64-bit length. *)
Theorem sha256_incremental_is_fips (inputs : list (list Z)) (block : list Z)
    (Hblock : length block = SHA256_BLOCK) :
  (sha256_final (foldl sha256_update (sha256_init block) inputs)).1 = sha256_spec (concat inputs).
Proof. apply sha256_final_digest, (sha256_updates_absorb inputs _ []), sha256_init_absorbed, Hblock. Qed.

Lemma sha256_incremental_is_fips_witness :
  (sha256_final (foldl sha256_update (sha256_init (replicate 64 7)) [[97]; []; [98; 99]])).1
  = sha256_spec [97; 98; 99].
Proof. exact (sha256_incremental_is_fips [[97]; []; [98; 99]] (replicate 64 7) eq_refl). Defined.
End Sha256.
