(* ===== verification/Sha512.v ===== *)
(** * SHA-512 and SHA-384: src/src/sha512.c, sha512_compress.c, sha512.h

    The compression function on 64-bit words, the buffered context the two
    hashes share, and the flat padding.  Both digests are shown to be the fold
    of the compression over the padded message of FIPS 180-4. *)

From S2P Require Import Prelude MdHash.
Local Open Scope Z_scope.
Local Open Scope word_scope.

Module Sha512.

Definition SHA512_BLOCK : nat := 128.
Definition SHA512_LEN : nat := 64.
Definition SHA384_LEN : nat := 48.

Definition K : list Z :=
  [0x428a2f98d728ae22; 0x7137449123ef65cd; 0xb5c0fbcfec4d3b2f; 0xe9b5dba58189dbbc;
   0x3956c25bf348b538; 0x59f111f1b605d019; 0x923f82a4af194f9b; 0xab1c5ed5da6d8118;
   0xd807aa98a3030242; 0x12835b0145706fbe; 0x243185be4ee4b28c; 0x550c7dc3d5ffb4e2;
   0x72be5d74f27b896f; 0x80deb1fe3b1696b1; 0x9bdc06a725c71235; 0xc19bf174cf692694;
   0xe49b69c19ef14ad2; 0xefbe4786384f25e3; 0x0fc19dc68b8cd5b5; 0x240ca1cc77ac9c65;
   0x2de92c6f592b0275; 0x4a7484aa6ea6e483; 0x5cb0a9dcbd41fbd4; 0x76f988da831153b5;
   0x983e5152ee66dfab; 0xa831c66d2db43210; 0xb00327c898fb213f; 0xbf597fc7beef0ee4;
   0xc6e00bf33da88fc2; 0xd5a79147930aa725; 0x06ca6351e003826f; 0x142929670a0e6e70;
   0x27b70a8546d22ffc; 0x2e1b21385c26c926; 0x4d2c6dfc5ac42aed; 0x53380d139d95b3df;
   0x650a73548baf63de; 0x766a0abb3c77b2a8; 0x81c2c92e47edaee6; 0x92722c851482353b;
   0xa2bfe8a14cf10364; 0xa81a664bbc423001; 0xc24b8b70d0f89791; 0xc76c51a30654be30;
   0xd192e819d6ef5218; 0xd69906245565a910; 0xf40e35855771202a; 0x106aa07032bbd1b8;
   0x19a4c116b8d2d0c8; 0x1e376c085141ab53; 0x2748774cdf8eeb99; 0x34b0bcb5e19b48a8;
   0x391c0cb3c5c95a63; 0x4ed8aa4ae3418acb; 0x5b9cca4f7763e373; 0x682e6ff3d6b2b8a3;
   0x748f82ee5defb2fc; 0x78a5636f43172f60; 0x84c87814a1f0ab72; 0x8cc702081a6439ec;
   0x90befffa23631e28; 0xa4506cebde82bde9; 0xbef9a3f7b2c67915; 0xc67178f2e372532b;
   0xca273eceea26619c; 0xd186b8c721c0c207; 0xeada7dd6cde0eb1e; 0xf57d4f7fee6ed178;
   0x06f067aa72176fba; 0x0a637dc5a2c898a6; 0x113f9804bef90dae; 0x1b710b35131c471b;
   0x28db77f523047d84; 0x32caab7b40c72493; 0x3c9ebe0a15c9bebc; 0x431d67c49c100d4c;
   0x4cc5d4becb3e42b6; 0x597f299cfc657e2a; 0x5fcb6fab3ad6faec; 0x6c44198c4a475817].

Definition rotate_right (x r : Z) : Z := (x >> r) .| (x <<64 (64 - r)).

Definition load_be64 (p : list Z) : Z :=
  foldl (fun v b => (v <<64 8) .| b) 0 (take 8 p).

Definition schedule_step (w : list Z) (i : nat) : list Z :=
  let w15 := w !!! (i - 15)%nat in
  let w2 := w !!! (i - 2)%nat in
  let s0 := rotate_right w15 1 .^ rotate_right w15 8 .^ (w15 >> 7) in
  let s1 := rotate_right w2 19 .^ rotate_right w2 61 .^ (w2 >> 6) in
  w ++ [(w !!! (i - 16)%nat) +64 s0 +64 (w !!! (i - 7)%nat) +64 s1].

Definition schedule (p : list Z) : list Z :=
  foldl schedule_step ((fun i => load_be64 (drop (8 * i) p)) <$> seq 0 16) (seq 16 64).

Record vars := Vars { va : Z; vb : Z; vc : Z; vd : Z; ve : Z; vf : Z; vg : Z; vh : Z }.

Definition round (w : list Z) (v : vars) (i : nat) : vars :=
  let '(Vars a b c d e f g hh) := v in
  let S1 := rotate_right e 14 .^ rotate_right e 18 .^ rotate_right e 41 in
  let ch := (e .& f) .^ (u64 (Z.lnot e) .& g) in
  let t1 := hh +64 S1 +64 ch +64 (K !!! i) +64 (w !!! i) in
  let S0 := rotate_right a 28 .^ rotate_right a 34 .^ rotate_right a 39 in
  let maj := (a .& b) .^ (a .& c) .^ (b .& c) in
  let t2 := S0 +64 maj in
  Vars (t1 +64 t2) a b c (d +64 t1) e f g.

Definition sha512_compress (h block : list Z) : list Z :=
  let w := schedule block in
  let '(Vars a b c d e f g hh) :=
    foldl (round w) (Vars (h !!! 0%nat) (h !!! 1%nat) (h !!! 2%nat) (h !!! 3%nat)
                          (h !!! 4%nat) (h !!! 5%nat) (h !!! 6%nat) (h !!! 7%nat)) (seq 0 80) in
  [(h !!! 0%nat) +64 a; (h !!! 1%nat) +64 b; (h !!! 2%nat) +64 c; (h !!! 3%nat) +64 d;
   (h !!! 4%nat) +64 e; (h !!! 5%nat) +64 f; (h !!! 6%nat) +64 g; (h !!! 7%nat) +64 hh].

Definition IV512 : list Z :=
  [0x6a09e667f3bcc908; 0xbb67ae8584caa73b; 0x3c6ef372fe94f82b; 0xa54ff53a5f1d36f1;
   0x510e527fade682d1; 0x9b05688c2b3e6c1f; 0x1f83d9abfb41bd6b; 0x5be0cd19137e2179].
Definition IV384 : list Z :=
  [0xcbbb9d5dc1059ed8; 0x629a292a367cd507; 0x9159015a3070dd17; 0x152fecd8f70e5939;
   0x67332667ffc00b31; 0x8eb44a8768581511; 0xdb0c2e0d64f98fa7; 0x47b5481dbefa4fa4].

(** The context keeps the content [block] its buffer had. *)
Definition init_from (iv block : list Z) : md_ctx (list Z) := MdCtx iv 0 0 block.
Definition sha512_init (block : list Z) : md_ctx (list Z) := init_from IV512 block.
Definition sha384_init (block : list Z) : md_ctx (list Z) := init_from IV384 block.

Definition store_be64 (v : Z) : list Z :=
  (fun i => u8 (v >> (56 - 8 * Z.of_nat i))) <$> seq 0 8.

Definition sha512_update (s : md_ctx (list Z)) (inp : list Z) : md_ctx (list Z) :=
  md_update SHA512_BLOCK sha512_compress s inp.

Definition finalize (s : md_ctx (list Z)) : md_ctx (list Z) :=
  let high := md_total s >> 61 in
  let low := md_total s <<64 3 in
  md_finalize SHA512_BLOCK sha512_compress s (store_be64 high ++ store_be64 low).

(** The digest, and the context the caller keeps. *)
Definition sha512_final (s : md_ctx (list Z)) : list Z * md_ctx (list Z) :=
  let s := finalize s in
  (concat (store_be64 <$> take 8 (md_h s)), s).
Definition sha384_final (s : md_ctx (list Z)) : list Z * md_ctx (list Z) :=
  let s := finalize s in
  (concat (store_be64 <$> take 6 (md_h s)), s).

(** The digests do not depend on the initial content of the local's buffer. *)
Definition sha512_of (inp : list Z) : list Z :=
  (sha512_final (sha512_update (sha512_init (replicate SHA512_BLOCK 0)) inp)).1.
Definition sha384_of (inp : list Z) : list Z :=
  (sha384_final (sha512_update (sha384_init (replicate SHA512_BLOCK 0)) inp)).1.

(** ** Reference: FIPS 180-4 section 5.1.2 and the fold over the blocks *)

Definition sha512_pad (m : list Z) : list Z :=
  md_pad SHA512_BLOCK m (be_bytes 16 (8 * Z.of_nat (length m))).
Definition sha512_spec (m : list Z) : list Z :=
  concat (be_bytes 8 <$> md_blocks SHA512_BLOCK sha512_compress IV512 (sha512_pad m)).
Definition sha384_spec (m : list Z) : list Z :=
  concat (be_bytes 8 <$> take 6 (md_blocks SHA512_BLOCK sha512_compress IV384 (sha512_pad m))).

Example sha384_abc :
  sha384_of [97; 98; 99] =
  be_bytes 48 0xcb00753f45a35e8bb5a03d699ac65007272c32ab0eded1631a8b605a43ff5bed8086072ba1e7cc2358baeca134c825a7.
Proof. vm_compute. reflexivity. Qed.

(** ** Lemmas *)

Lemma store_be64_be v : store_be64 v = be_bytes 8 v.
Proof.
  unfold store_be64, be_bytes. cbn. rewrite !Z.shiftr_div_pow2 by lia. rewrite !Z.div_div by lia.
  by rewrite Z.div_1_r.
Qed.

(** The two length words are the 128-bit bit count. *)
Lemma length_words n : 0 <= n < 2 ^ 64 ->
  store_be64 (n >> 61) ++ store_be64 (n <<64 3) = be_bytes 16 (8 * n).
Proof.
  intros Hn. rewrite !store_be64_be, (be_bytes_split 8 8). f_equal.
  - rewrite Z.shiftr_div_pow2 by lia. f_equal. change (8 * Z.of_nat 8) with 64. dlia.
  - rewrite Z.shiftl_mul_pow2 by lia. unfold u64. change 64 with (8 * Z.of_nat 8).
    rewrite be_bytes_mod. f_equal. lia.
Qed.

Lemma finalize_spec iv s m : absorbed SHA512_BLOCK sha512_compress iv s m ->
  Z.of_nat (length m) < 2 ^ 64 ->
  md_h (finalize s) = md_blocks SHA512_BLOCK sha512_compress iv (sha512_pad m).
Proof.
  intros Hs Hm. unfold finalize. pose proof Hs as (_ & _ & _ & _ & ->).
  rewrite u64_small, length_words by (unfold u64_ok; lia).
  apply md_finalize_spec; [unfold SHA512_BLOCK; lia|done|].
  rewrite length_be_bytes. unfold SHA512_BLOCK. lia.
Qed.

Lemma sha512_updates_absorb iv inputs s m :
  absorbed SHA512_BLOCK sha512_compress iv s m ->
  absorbed SHA512_BLOCK sha512_compress iv (foldl sha512_update s inputs) (m ++ concat inputs).
Proof.
  apply md_updates_absorb. unfold SHA512_BLOCK. lia.
Qed.

Lemma sha512_init_absorbed iv block : length block = SHA512_BLOCK ->
  absorbed SHA512_BLOCK sha512_compress iv (init_from iv block) [].
Proof. apply absorbed_init. unfold SHA512_BLOCK. lia. Qed.

Lemma sha512_compress_length h p : length (sha512_compress h p) = 8%nat.
Proof. unfold sha512_compress. by destruct (foldl _ _ _). Qed.

Lemma sha512_md_blocks_length iv m : length iv = 8%nat ->
  length (md_blocks SHA512_BLOCK sha512_compress iv m) = 8%nat.
Proof.
  unfold md_blocks. generalize (chunks SHA512_BLOCK m). intros l. revert iv.
  induction l as [|p l IH]; intros iv Hiv; cbn [foldl]; [done|]. apply IH, sha512_compress_length.
Qed.

#[local] Opaque sha512_compress.

Lemma sha512_final_digest s m : absorbed SHA512_BLOCK sha512_compress IV512 s m ->
  Z.of_nat (length m) < 2 ^ 64 -> (sha512_final s).1 = sha512_spec m.
Proof.
  intros Hs Hm. unfold sha512_final, sha512_spec. cbn [fst]. rewrite (finalize_spec IV512 s m) by done.
  rewrite take_ge by (rewrite sha512_md_blocks_length; done). f_equal. apply list_fmap_ext. intros. apply store_be64_be.
Qed.

Lemma sha384_final_digest s m : absorbed SHA512_BLOCK sha512_compress IV384 s m ->
  Z.of_nat (length m) < 2 ^ 64 -> (sha384_final s).1 = sha384_spec m.
Proof.
  intros Hs Hm. unfold sha384_final, sha384_spec. cbn [fst]. rewrite (finalize_spec IV384 s m) by done.
  f_equal. apply list_fmap_ext. intros. apply store_be64_be.
Qed.

Lemma sha384_of_spec m : Z.of_nat (length m) < 2 ^ 64 -> sha384_of m = sha384_spec m.
Proof.
  intros. apply sha384_final_digest; [|done].
  pose proof (sha512_updates_absorb IV384 [m] _ [] (sha512_init_absorbed IV384 (replicate SHA512_BLOCK 0) (length_replicate _ _))) as E.
  cbn [foldl concat app] in E. by rewrite app_nil_r in E.
Qed.

Lemma concat_words_shape (n : nat) l :
  length (concat (be_bytes n <$> l)) = (length l * n)%nat /\ bytes_ok (concat (be_bytes n <$> l)).
Proof.
  induction l as [|x l [IH1 IH2]]; cbn [fmap list_fmap concat]; [done|].
  rewrite length_app, length_be_bytes, IH1. split; [cbn; lia|].
  apply Forall_app. split; [apply be_bytes_ok|done].
Qed.

Lemma sha384_spec_shape m : length (sha384_spec m) = SHA384_LEN /\ bytes_ok (sha384_spec m).
Proof.
  unfold sha384_spec. destruct (concat_words_shape 8 (take 6 (md_blocks SHA512_BLOCK sha512_compress IV384 (sha512_pad m)))) as [-> ?].
  split; [|done]. rewrite length_take, sha512_md_blocks_length by done. done.
Qed.

(** The block buffer keeps its size through a final. *)
Lemma sha384_final_block s : length (md_block s) = SHA512_BLOCK ->
  length (md_block (sha384_final s).2) = SHA512_BLOCK.
Proof.
  intros Hb. unfold sha384_final, finalize. cbn [snd]. apply md_finalize_block; [unfold SHA512_BLOCK; lia|done|].
  rewrite length_app, !store_be64_be, !length_be_bytes. unfold SHA512_BLOCK. lia.
Qed.

(** ** Properties *)

(** C37. Equivalence: however a message of fewer than 2^64 bytes is cut into
    updates and whatever the block buffer held, the incremental SHA-512 and
    SHA-384 give the digests of FIPS 180-4: the compression folded over the
    blocks of message || 0x80 || zeros || 128-bit length, from each hash's own
    initial value. *)
Theorem sha512_incremental_is_fips (inputs : list (list Z)) (block : list Z)
    (Hblock : length block = SHA512_BLOCK) (Hlen : Z.of_nat (length (concat inputs)) < 2 ^ 64) :
  (sha512_final (foldl sha512_update (sha512_init block) inputs)).1 = sha512_spec (concat inputs) /\
  (sha384_final (foldl sha512_update (sha384_init block) inputs)).1 = sha384_spec (concat inputs) /\
  exists k, length (sha512_pad (concat inputs)) = (k * SHA512_BLOCK)%nat.
Proof.
  split; [|split].
  - apply sha512_final_digest; [|done]. apply (sha512_updates_absorb IV512 inputs _ []), sha512_init_absorbed, Hblock.
  - apply sha384_final_digest; [|done]. apply (sha512_updates_absorb IV384 inputs _ []), sha512_init_absorbed, Hblock.
  - apply length_md_pad; [unfold SHA512_BLOCK; lia|]. rewrite length_be_bytes. unfold SHA512_BLOCK. lia.
Qed.

Lemma sha512_incremental_is_fips_witness :
  (sha384_final (foldl sha512_update (sha384_init (replicate 128 7)) [[97]; []; [98; 99]])).1
  = sha384_spec [97; 98; 99].
Proof.
  exact (proj1 (proj2 (sha512_incremental_is_fips [[97]; []; [98; 99]] (replicate 128 7) eq_refl eq_refl))).
Defined.
End Sha512.
