(* ===== verification/Sha1.v ===== *)
(** * SHA-1: src/src/sha1.c, sha1.h

    The hash of a DNSSEC build, over the buffering and the flat padding of
    [MdHash]; [memset] of zeros is written as its byte loop. *)

From S2P Require Import Prelude MdHash.
Local Open Scope Z_scope.
Local Open Scope word_scope.

Module Sha1.

Definition SHA1_BLOCK : nat := 64.
Definition SHA1_LEN : nat := 20.

Definition rotate_left (x r : Z) : Z := (x <<32 r) .| (x >> (32 - r)).

Definition load_word (p : list Z) (t : nat) : Z :=
  ((p !!! (4 * t)%nat) <<32 24) .| ((p !!! (4 * t + 1)%nat) <<32 16)
  .| ((p !!! (4 * t + 2)%nat) <<32 8) .| (p !!! (4 * t + 3)%nat).

Definition schedule (p : list Z) : list Z :=
  foldl (fun w t => w ++ [rotate_left ((w !!! (t - 3)%nat) .^ (w !!! (t - 8)%nat)
                            .^ (w !!! (t - 14)%nat) .^ (w !!! (t - 16)%nat)) 1])
        (load_word p <$> seq 0 16) (seq 16 64).

Record vars := Vars { va : Z; vb : Z; vc : Z; vd : Z; ve : Z }.

Definition round (w : list Z) (v : vars) (t : nat) : vars :=
  let '(Vars a b c d e) := v in
  let '(f, k) :=
    if (t <? 20)%nat then ((b .& c) .| (not32 b .& d), 0x5a827999)
    else if (t <? 40)%nat then (b .^ c .^ d, 0x6ed9eba1)
    else if (t <? 60)%nat then ((b .& c) .| (b .& d) .| (c .& d), 0x8f1bbcdc)
    else (b .^ c .^ d, 0xca62c1d6) in
  let temp := rotate_left a 5 +32 f +32 e +32 k +32 (w !!! t) in
  Vars temp a (rotate_left b 30) c d.

Definition compress (h p : list Z) : list Z :=
  let w := schedule p in
  let '(Vars a b c d e) :=
    foldl (round w) (Vars (h !!! 0%nat) (h !!! 1%nat) (h !!! 2%nat) (h !!! 3%nat) (h !!! 4%nat))
          (seq 0 80) in
  [(h !!! 0%nat) +32 a; (h !!! 1%nat) +32 b; (h !!! 2%nat) +32 c; (h !!! 3%nat) +32 d;
   (h !!! 4%nat) +32 e].

Definition iv : list Z := [0x67452301; 0xefcdab89; 0x98badcfe; 0x10325476; 0xc3d2e1f0].

(** The buffer keeps the content [block] it had. *)
Definition sha1_init (block : list Z) : md_ctx (list Z) := MdCtx iv 0 0 block.

Definition sha1_update (s : md_ctx (list Z)) (inp : list Z) : md_ctx (list Z) :=
  md_update SHA1_BLOCK compress s inp.

Definition store_word (v : Z) : list Z := [u8 (v >> 24); u8 (v >> 16); u8 (v >> 8); u8 v].

Definition sha1_final (s : md_ctx (list Z)) : list Z :=
  let bits := u64 (md_total s * 8) in
  let len := (fun i => u8 (bits >> (56 - 8 * Z.of_nat i))) <$> seq 0 8 in
  let s := md_finalize SHA1_BLOCK compress s len in
  concat (store_word <$> take 5 (md_h s)).

(** ** Reference *)

Definition sha1_pad (m : list Z) : list Z :=
  md_pad SHA1_BLOCK m (be_bytes 8 (8 * Z.of_nat (length m))).
Definition sha1_spec (m : list Z) : list Z :=
  concat (be_bytes 4 <$> md_blocks SHA1_BLOCK compress iv (sha1_pad m)).

Example sha1_abc :
  sha1_final (sha1_update (sha1_init (replicate 64 0)) [97; 98; 99])
  = be_bytes 20 0xa9993e364706816aba3e25717850c26c9cd0d89d.
Proof. vm_compute. reflexivity. Qed.

(** ** Lemmas *)

Lemma sha1_compress_length h p : length (compress h p) = 5%nat.
Proof. unfold compress. by destruct (foldl _ _ _). Qed.

Lemma sha1_md_blocks_length m : length (md_blocks SHA1_BLOCK compress iv m) = 5%nat.
Proof.
  unfold md_blocks. generalize (chunks SHA1_BLOCK m). intros l.
  assert (H : forall h, length h = 5%nat -> length (foldl compress h l) = 5%nat).
  { induction l as [|p l IH]; intros h Hh; cbn [foldl]; [done|]. apply IH, sha1_compress_length. }
  by apply H.
Qed.

Lemma sha1_store_word_be v : store_word v = be_bytes 4 v.
Proof.
  unfold store_word, be_bytes. rewrite !Z.shiftr_div_pow2 by lia. cbn. by rewrite !Z.div_div by lia.
Qed.

Lemma len_bytes n : (fun i => u8 (u64 (u64 n * 8) >> (56 - 8 * Z.of_nat i))) <$> seq 0 8 = be_bytes 8 (8 * n).
Proof.
  rewrite <- (be_bytes_mod 8 (8 * n)). unfold u64 at 2. rewrite (Z.mul_comm 8 n).
  change (8 * Z.of_nat 8) with 64. unfold u64. rewrite Zmult_mod_idemp_l. generalize ((n * 8) mod 2 ^ 64). intros x.
  unfold be_bytes. cbn. rewrite !Z.shiftr_div_pow2 by lia. rewrite !Z.div_div by lia. by rewrite Z.div_1_r.
Qed.

#[local] Opaque compress.

Lemma sha1_final_digest s m : absorbed SHA1_BLOCK compress iv s m -> sha1_final s = sha1_spec m.
Proof.
  intros Hs. unfold sha1_final, sha1_spec, sha1_pad. pose proof Hs as (_ & _ & _ & _ & ->).
  rewrite len_bytes, (md_finalize_spec SHA1_BLOCK compress) with (iv := iv) (m := m);
    [|unfold SHA1_BLOCK; lia|done|rewrite length_be_bytes; unfold SHA1_BLOCK; lia].
  rewrite take_ge by (rewrite sha1_md_blocks_length; done). f_equal. apply list_fmap_ext. intros. apply sha1_store_word_be.
Qed.

(** ** Properties *)

(** Equivalence: however a message is cut into updates and whatever the
    block buffer held, the incremental SHA-1 gives the digest of FIPS 180-4:
    the compression folded over message || 0x80 || zeros || 64-bit length,
    which is a whole number of blocks. *)
Theorem sha1_incremental_is_fips (inputs : list (list Z)) (block : list Z)
    (Hblock : length block = SHA1_BLOCK) :
  sha1_final (foldl sha1_update (sha1_init block) inputs) = sha1_spec (concat inputs) /\
  exists k, length (sha1_pad (concat inputs)) = (k * SHA1_BLOCK)%nat.
Proof.
  split; [|apply length_md_pad; rewrite ?length_be_bytes; unfold SHA1_BLOCK; lia].
  apply sha1_final_digest. apply (md_updates_absorb SHA1_BLOCK compress ltac:(unfold SHA1_BLOCK; lia) iv inputs _ []).
  apply absorbed_init; [unfold SHA1_BLOCK; lia|exact Hblock].
Qed.

Lemma sha1_incremental_is_fips_witness :
  sha1_final (foldl sha1_update (sha1_init (replicate 64 7)) [[97]; []; [98; 99]]) = sha1_spec [97; 98; 99].
Proof. exact (proj1 (sha1_incremental_is_fips [[97]; []; [98; 99]] (replicate 64 7) eq_refl)). Defined.
End Sha1.
