(* ===== verification/Chacha20.v ===== *)
(** * ChaCha20: src/src/chacha20.c, chacha20.h

    The portable block function and the stream XOR of a device object.  The
    stream is shown to be the input XORed with the concatenated blocks of
    consecutive 32-bit counters, so encryption and decryption are one
    function and inverse to each other. *)

From S2P Require Import Prelude.
Local Open Scope Z_scope.
Local Open Scope word_scope.

Module Chacha20.

Definition CHACHA20_KEY : nat := 32.
Definition CHACHA20_NONCE : nat := 12.
Definition CHACHA20_BLOCK : nat := 64.

Definition rotate_left (x r : Z) : Z := (x <<32 r) .| (x >> (32 - r)).

(** [load32(p + i)], little-endian. *)
Definition load32 (p : list Z) (i : nat) : Z :=
  (p !!! i) .| ((p !!! (i + 1)%nat) <<32 8) .| ((p !!! (i + 2)%nat) <<32 16)
  .| ((p !!! (i + 3)%nat) <<32 24).

(** [QUARTERROUND(x[a], x[b], x[c], x[d])]. *)
Definition quarterround (x : list Z) (a b c d : nat) : list Z :=
  let x := <[a := (x !!! a) +32 (x !!! b)]> x in
  let x := <[d := rotate_left ((x !!! d) .^ (x !!! a)) 16]> x in
  let x := <[c := (x !!! c) +32 (x !!! d)]> x in
  let x := <[b := rotate_left ((x !!! b) .^ (x !!! c)) 12]> x in
  let x := <[a := (x !!! a) +32 (x !!! b)]> x in
  let x := <[d := rotate_left ((x !!! d) .^ (x !!! a)) 8]> x in
  let x := <[c := (x !!! c) +32 (x !!! d)]> x in
  <[b := rotate_left ((x !!! b) .^ (x !!! c)) 7]> x.

Definition double_round (x : list Z) : list Z :=
  let x := quarterround x 0 4 8 12 in
  let x := quarterround x 1 5 9 13 in
  let x := quarterround x 2 6 10 14 in
  let x := quarterround x 3 7 11 15 in
  let x := quarterround x 0 5 10 15 in
  let x := quarterround x 1 6 11 12 in
  let x := quarterround x 2 7 8 13 in
  quarterround x 3 4 9 14.

Definition store32 (v : Z) : list Z := [u8 v; u8 (v >> 8); u8 (v >> 16); u8 (v >> 24)].

Definition block (state : list Z) : list Z :=
  let x := Nat.iter 10 double_round state in
  concat ((fun i => store32 ((x !!! i) +32 (state !!! i))) <$> seq 0 16).

Definition setup (key nonce : list Z) (counter : Z) : list Z :=
  [0x61707865; 0x3320646e; 0x79622d32; 0x6b206574]
  ++ ((fun i => load32 key (4 * i)) <$> seq 0 8)
  ++ [counter; load32 nonce 0; load32 nonce 4; load32 nonce 8].

Definition chacha20_block (key nonce : list Z) (counter : Z) : list Z :=
  block (setup key nonce counter).

(** The [while (n > 0)] loop: one block of keystream a round, the counter word
    incremented in place.  The input length is enough fuel. *)
Fixpoint xor_while (fuel : nat) (state inp : list Z) : list Z :=
  match fuel with
  | O => []
  | S fuel =>
      if (0 <? length inp)%nat then
        let keystream := block state in
        let state := <[12%nat := (state !!! 12%nat) +32 1]> state in
        let n := if (length inp <? CHACHA20_BLOCK)%nat then length inp else CHACHA20_BLOCK in
        xor_bytes (take n inp) keystream ++ xor_while fuel state (drop n inp)
      else []
  end.

Definition chacha20_xor (key nonce : list Z) (counter : Z) (inp : list Z) : list Z :=
  xor_while (length inp) (setup key nonce counter) inp.

(** The same loop over one memory: [in] at [src], [out] at [dst], which may
    overlap, as the record layer calls it. *)
Fixpoint xor_into (mem : list Z) (src dst : nat) (keystream : list Z) : list Z :=
  match keystream with
  | [] => mem
  | k :: keystream =>
      xor_into (<[dst := (mem !!! src) .^ k]> mem) (src + 1) (dst + 1) keystream
  end.

Fixpoint xor_mem_while (fuel : nat) (state mem : list Z) (src dst n : nat) : list Z :=
  match fuel with
  | O => mem
  | S fuel =>
      if (0 <? n)%nat then
        let keystream := block state in
        let state := <[12%nat := (state !!! 12%nat) +32 1]> state in
        let k := if (n <? CHACHA20_BLOCK)%nat then n else CHACHA20_BLOCK in
        let mem := xor_into mem src dst (take k keystream) in
        xor_mem_while fuel state mem (src + k) (dst + k) (n - k)
      else mem
  end.

Definition chacha20_xor_mem (key nonce : list Z) (counter : Z) (mem : list Z) (src dst n : nat) : list Z :=
  xor_mem_while n (setup key nonce counter) mem src dst n.

(** ** Reference: the keystream as blocks of consecutive counters *)

Definition keystream (key nonce : list Z) (counter : Z) (n : nat) : list Z :=
  concat ((fun i => chacha20_block key nonce (u32 (counter + Z.of_nat i))) <$> seq 0 n).
(** Enough blocks for [n] bytes. *)
Definition blocks_for (n : nat) : nat := ((n + 63) / 64)%nat.

(** RFC 8439 section 2.3.2. *)
Example chacha20_block_rfc8439 :
  chacha20_block (Z.of_nat <$> seq 0 32) [0; 0; 0; 9; 0; 0; 0; 0x4a; 0; 0; 0; 0] 1 =
  be_bytes 64 0x10f1e7e4d13b5915500fdd1fa32071c4c7d1f4c733c068030422aa9ac3d46c4ed2826446079faa0914c2d705d98b02a2b5129cd1de164eb9cbd083e8a2503c4e.
Proof. vm_compute. reflexivity. Qed.

(** ** Lemmas *)

Lemma length_concat_fixed {A} (f : nat -> list A) k l :
  (forall i, length (f i) = k) -> length (concat (f <$> l)) = (length l * k)%nat.
Proof. intros Hf. induction l; cbn; [done|]. rewrite length_app, Hf. lia. Qed.

Lemma length_block state : length (block state) = CHACHA20_BLOCK.
Proof. unfold block. by rewrite (length_concat_fixed _ 4). Qed.

Lemma store32_ok v : bytes_ok (store32 v).
Proof. repeat (constructor; [apply u8_range|]). constructor. Qed.

Lemma block_ok state : bytes_ok (block state).
Proof.
  unfold block. generalize (seq 0 16). intros l. induction l; cbn [fmap list_fmap concat]; [constructor|].
  apply Forall_app. split; [apply store32_ok|done].
Qed.

#[local] Opaque block.

Lemma length_chacha20_block key nonce c : length (chacha20_block key nonce c) = 64%nat.
Proof. apply length_block. Qed.

Lemma chacha20_block_ok key nonce c : bytes_ok (chacha20_block key nonce c).
Proof. apply block_ok. Qed.

Lemma block_setup key nonce c : block (setup key nonce c) = chacha20_block key nonce c.
Proof. reflexivity. Qed.

#[local] Opaque chacha20_block.

Lemma length_keystream key nonce c n : length (keystream key nonce c n) = (n * 64)%nat.
Proof.
  unfold keystream. rewrite (length_concat_fixed _ 64), length_seq; [done|].
  intros. apply length_chacha20_block.
Qed.

Lemma keystream_ok key nonce c n : bytes_ok (keystream key nonce c n).
Proof.
  unfold keystream. generalize (seq 0 n). intros l. induction l; cbn [fmap list_fmap concat]; [constructor|].
  apply Forall_app. split; [apply chacha20_block_ok|done].
Qed.

Lemma keystream_S key nonce c n : keystream key nonce c (S n) =
  chacha20_block key nonce (u32 c) ++ keystream key nonce (c + 1) n.
Proof.
  unfold keystream. cbn [seq fmap list_fmap concat]. rewrite Z.add_0_r, <- fmap_S_seq.
  rewrite <- list_fmap_compose. apply (f_equal (app _)), (f_equal (@concat Z)).
  apply list_fmap_ext. intros i x _. unfold compose.
  by replace (c + Z.of_nat (S x)) with (c + 1 + Z.of_nat x) by lia.
Qed.

(** The in-place increment is the setup of the next counter. *)
Lemma setup_next key nonce c :
  <[12%nat := u32 ((setup key nonce c !!! 12%nat) + 1)]> (setup key nonce c) = setup key nonce (u32 (c + 1)).
Proof. reflexivity. Qed.

Lemma setup_wrap key nonce c n : keystream key nonce (u32 c) n = keystream key nonce c n.
Proof.
  unfold keystream. apply (f_equal (@concat Z)), list_fmap_ext. intros i x _.
  unfold u32. by rewrite Zplus_mod_idemp_l.
Qed.

Lemma xor_bytes_take a k : xor_bytes a k = xor_bytes a (take (length a) k).
Proof.
  revert k. induction a as [|x a IH]; intros [|y k]; try done. cbn. f_equal. apply IH.
Qed.

Lemma xor_bytes_nil_l k : xor_bytes [] k = [].
Proof. done. Qed.

Lemma blocks_for_drop n : (64 <= n)%nat -> blocks_for n = S (blocks_for (n - 64)).
Proof.
  intros. unfold blocks_for. replace (n + 63)%nat with (n - 64 + 63 + 1 * 64)%nat by lia.
  rewrite Nat.div_add by lia. lia.
Qed.

Lemma xor_while_spec fuel key nonce c inp :
  (length inp <= fuel)%nat -> 0 <= c < 2 ^ 32 ->
  xor_while fuel (setup key nonce c) inp
  = xor_bytes inp (keystream key nonce c (blocks_for (length inp))).
Proof.
  revert c inp. induction fuel as [|fuel IH]; intros c inp Hf Hc.
  - destruct inp; [done|simpl in Hf; lia].
  - cbn [xor_while]. destruct (Nat.ltb_spec 0 (length inp)) as [Hpos|Hz];
      [|by destruct inp; [|simpl in Hz; lia]].
    rewrite setup_next, block_setup. unfold CHACHA20_BLOCK.
    destruct (Nat.ltb_spec (length inp) 64) as [Hlt|Hge].
    + rewrite take_ge, drop_ge by lia.
      replace (blocks_for (length inp)) with 1%nat.
      * rewrite keystream_S, (u32_small c) by done. unfold keystream. cbn [seq fmap list_fmap concat].
        rewrite app_nil_r. destruct fuel; cbn; by rewrite app_nil_r.
      * unfold blocks_for. apply Nat.div_unique with (length inp - 1)%nat; lia.
    + rewrite IH; [|rewrite length_drop; lia|apply u32_range].
      rewrite (blocks_for_drop (length inp)), keystream_S, (u32_small c), setup_wrap, length_drop by done.
      symmetry. rewrite <- (take_drop 64 inp) at 1. rewrite xor_bytes_app; [done|].
      rewrite length_take, length_chacha20_block. lia.
Qed.

Lemma chacha20_xor_keystream key nonce c inp : u32_ok c ->
  chacha20_xor key nonce c inp = xor_bytes inp (keystream key nonce c (blocks_for (length inp))).
Proof. intros. by apply xor_while_spec. Qed.

Lemma blocks_for_enough n : (n <= blocks_for n * 64)%nat.
Proof. unfold blocks_for. pose proof (Nat.div_mod_eq (n + 63) 64).
  pose proof (Nat.mod_upper_bound (n + 63) 64). lia. Qed.

Lemma length_chacha20_xor key nonce c inp : u32_ok c -> length (chacha20_xor key nonce c inp) = length inp.
Proof.
  intros. rewrite chacha20_xor_keystream, length_xor_bytes, length_keystream by done.
  pose proof (blocks_for_enough (length inp)). lia.
Qed.

Lemma chacha20_xor_ok key nonce c inp : u32_ok c -> bytes_ok inp -> bytes_ok (chacha20_xor key nonce c inp).
Proof.
  intros. rewrite chacha20_xor_keystream by done. apply xor_bytes_ok; [done|apply keystream_ok].
Qed.

Lemma chacha20_xor_involutive key nonce c inp : u32_ok c ->
  chacha20_xor key nonce c (chacha20_xor key nonce c inp) = inp.
Proof.
  intros. rewrite (chacha20_xor_keystream _ _ _ (chacha20_xor _ _ _ _)) by done.
  rewrite length_chacha20_xor, chacha20_xor_keystream by done. apply xor_bytes_involutive.
  rewrite length_keystream. apply blocks_for_enough.
Qed.

(** A byte of the keystream is a byte of the block its index falls in. *)
Lemma keystream_lookup key nonce c n i : (i < n * 64)%nat ->
  exists2 y, keystream key nonce c n !! i = Some y &
             chacha20_block key nonce (u32 (c + Z.of_nat (i / 64))) !! (i mod 64)%nat = Some y.
Proof.
  revert c i. induction n as [|n IH]; intros c i Hi; [lia|]. rewrite keystream_S.
  destruct (decide (i < 64)%nat) as [Hlt|Hge].
  - rewrite lookup_app_l by (rewrite length_chacha20_block; lia).
    rewrite Nat.div_small, Nat.mod_small, Z.add_0_r by done.
    destruct (lookup_lt_is_Some_2 (chacha20_block key nonce (u32 c)) i) as [y Hy];
      [rewrite length_chacha20_block; lia|]. eauto.
  - rewrite lookup_app_r, length_chacha20_block by (rewrite length_chacha20_block; lia).
    destruct (IH (c + 1) (i - 64)%nat) as [y Hy Hb]; [lia|]. exists y; [done|].
    replace i with (i - 64 + 1 * 64)%nat by lia. rewrite Nat.div_add, Nat.Div0.mod_add by lia.
    by replace (c + Z.of_nat ((i - 64) / 64 + 1)) with (c + 1 + Z.of_nat ((i - 64) / 64)) by lia.
Qed.

(** *** Overlapping buffers *)

Lemma xor_into_spec ks mem src dst : (dst <= src)%nat -> (src + length ks <= length mem)%nat ->
  xor_into mem src dst ks = store_bytes mem dst (xor_bytes (take (length ks) (drop src mem)) ks).
Proof.
  revert mem src dst. induction ks as [|k ks IH]; intros mem src dst Hd Hs; cbn [xor_into].
  - cbn. rewrite take_0. unfold store_bytes, xor_bytes. cbn. by rewrite Nat.add_0_r, take_drop.
  - cbn [length] in Hs. destruct (lookup_lt_is_Some_2 mem src) as [x Hx]; [lia|].
    rewrite (list_lookup_total_correct _ _ _ Hx), insert_store_bytes by lia.
    rewrite IH by (rewrite ?length_store_bytes; cbn [length]; lia).
    rewrite (drop_S mem x src Hx). cbn [length take]. change (xor_bytes (x :: ?l) (k :: ks))
      with ([Z.lxor x k] ++ xor_bytes l ks).
    rewrite drop_store_bytes by (cbn; lia). rewrite (Nat.add_1_r src).
    apply (store_bytes_app mem dst [Z.lxor x k]).
    rewrite length_xor_bytes; rewrite length_take, length_drop; cbn; lia.
Qed.

Lemma length_xor_while fuel : forall state l, (length (xor_while fuel state l) <= length l)%nat.
Proof.
  induction fuel as [|fuel IH]; intros state l; cbn [xor_while length]; [lia|].
  destruct (0 <? length l)%nat; cbn [length]; [|lia]. rewrite length_app.
  set (k := if (length l <? CHACHA20_BLOCK)%nat then length l else CHACHA20_BLOCK). specialize (IH (<[12%nat := u32 ((state !!! 12%nat) + 1)]> state) (drop k l)).
  rewrite length_drop in IH. unfold xor_bytes. rewrite length_zip_with, length_take.
  assert (k <= length l)%nat; [|lia]. subst k. unfold CHACHA20_BLOCK. destruct (Nat.ltb_spec (length l) 64); lia.
Qed.

Lemma xor_mem_while_spec fuel state mem src dst n :
  (dst <= src)%nat -> (src + n <= length mem)%nat -> (n <= fuel)%nat ->
  xor_mem_while fuel state mem src dst n
  = store_bytes mem dst (xor_while fuel state (take n (drop src mem))).
Proof.
  revert state mem src dst n. induction fuel as [|fuel IH]; intros state mem src dst n Hd Hs Hn;
    cbn [xor_mem_while xor_while].
  - unfold store_bytes. cbn. by rewrite Nat.add_0_r, take_drop.
  - rewrite length_take, length_drop. rewrite (Nat.min_l n) by lia.
    destruct (Nat.ltb_spec 0 n); [|unfold store_bytes; cbn; by rewrite Nat.add_0_r, take_drop].
    set (k := if (n <? CHACHA20_BLOCK)%nat then n else CHACHA20_BLOCK).
    assert (Hk : (0 < k <= n)%nat) by (subst k; unfold CHACHA20_BLOCK; destruct (Nat.ltb_spec n 64); lia).
    assert (Hk64 : (k <= 64)%nat) by (subst k; unfold CHACHA20_BLOCK; destruct (Nat.ltb_spec n 64); lia).
    clearbody k. set (st := <[12%nat := _]> state). clearbody st.
    assert (Hl : length (take k (block state)) = k) by (rewrite length_take, length_block; unfold CHACHA20_BLOCK; lia).
    rewrite xor_into_spec by lia. rewrite Hl.
    set (a := xor_bytes (take k (drop src mem)) (take k (block state))).
    assert (Ha : length a = k) by (subst a; unfold xor_bytes; rewrite length_zip_with, Hl, length_take, length_drop; lia).
    rewrite IH by (rewrite ?length_store_bytes; lia).
    rewrite drop_store_bytes by lia. rewrite take_take, Nat.min_l by lia.
    rewrite (xor_bytes_take (take k (drop src mem)) (block state)).
    replace (length (take k (drop src mem))) with k by (rewrite length_take, length_drop; lia).
    fold a. rewrite <- Ha at 1. rewrite store_bytes_app.
    + by rewrite skipn_firstn_comm, drop_drop.
    + pose proof (length_xor_while fuel st (take (n - k) (drop (src + k) mem))) as Hx.
      rewrite length_take, length_drop in Hx. lia.
Qed.

(** ** Properties *)


(** The stream cipher is the input XORed with the RFC 8439 keystream: byte
    [i] of the output is byte [i] of the input XOR byte [i mod 64] of the block
    for counter [counter + i / 64] (mod 2^32), for inputs of any length. *)
Theorem chacha20_xor_bytewise (key nonce : list Z) (counter : Z) (inp : list Z) (i : nat)
    (Hc : u32_ok counter) (Hi : (i < length inp)%nat) :
  chacha20_xor key nonce counter inp !!! i =
  Z.lxor (inp !!! i)
    (chacha20_block key nonce (u32 (counter + Z.of_nat (i / 64))) !!! (i mod 64)%nat).
Proof.
  rewrite chacha20_xor_keystream by done.
  pose proof (blocks_for_enough (length inp)) as Hn. revert Hn. generalize (blocks_for (length inp)).
  intros n Hn. destruct (lookup_lt_is_Some_2 inp i Hi) as [x Hx].
  destruct (keystream_lookup key nonce counter n i) as [y Hy Hb]; [lia|].
  rewrite (list_lookup_total_correct _ _ _ Hx), (list_lookup_total_correct _ _ _ Hb).
  apply list_lookup_total_correct. unfold xor_bytes. by rewrite lookup_zip_with, Hx, Hy.
Qed.

Lemma chacha20_xor_bytewise_witness :
  chacha20_xor (replicate 32 1) (replicate 12 2) 7 (replicate 70 3) !!! 66%nat =
  Z.lxor 3 (chacha20_block (replicate 32 1) (replicate 12 2) 8 !!! 2%nat).
Proof.
  exact (chacha20_xor_bytewise (replicate 32 1) (replicate 12 2) 7 (replicate 70 3) 66
    ltac:(done) ltac:(simpl; lia)).
Defined.

(** Decrypting in place: over one memory, with the output at or below the
    input (the two may overlap), the loop writes exactly the XOR of the bytes
    the input held before the call, and no byte outside the output. *)
Theorem chacha20_xor_overlap (key nonce : list Z) (counter : Z) (mem : list Z) (src dst n : nat)
    (Hdst : (dst <= src)%nat) (Hsrc : (src + n <= length mem)%nat) :
  chacha20_xor_mem key nonce counter mem src dst n
  = store_bytes mem dst (chacha20_xor key nonce counter (take n (drop src mem))).
Proof.
  unfold chacha20_xor_mem, chacha20_xor. rewrite xor_mem_while_spec by lia.
  rewrite length_take, length_drop, Nat.min_l by lia. done.
Qed.

Lemma chacha20_xor_overlap_witness :
  chacha20_xor_mem (replicate 32 1) (replicate 12 2) 1 [10; 20; 30; 40; 50; 60] 2 1 3
  = store_bytes [10; 20; 30; 40; 50; 60] 1 (chacha20_xor (replicate 32 1) (replicate 12 2) 1 [30; 40; 50]).
Proof.
  apply (chacha20_xor_overlap (replicate 32 1) (replicate 12 2) 1 [10; 20; 30; 40; 50; 60] 2 1 3); cbn; lia.
Defined.

(** Decryption inverts encryption: applying the stream twice under the same
    key, nonce and counter gives the input back, and the length never changes. *)
Theorem chacha20_roundtrip (key nonce : list Z) (counter : Z) (inp : list Z) (Hc : u32_ok counter) :
  chacha20_xor key nonce counter (chacha20_xor key nonce counter inp) = inp /\
  length (chacha20_xor key nonce counter inp) = length inp.
Proof. by rewrite chacha20_xor_involutive, length_chacha20_xor. Qed.

Lemma chacha20_roundtrip_witness :
  chacha20_xor (replicate 32 1) (replicate 12 2) 0xFFFFFFFF
    (chacha20_xor (replicate 32 1) (replicate 12 2) 0xFFFFFFFF (replicate 70 3)) = replicate 70 3.
Proof. apply (chacha20_roundtrip (replicate 32 1) (replicate 12 2) 0xFFFFFFFF (replicate 70 3)); done. Defined.
End Chacha20.
