(* ===== verification/Poly1305.v ===== *)
(** * Poly1305: src/src/poly1305.c, poly1305.h

    The portable one-time authenticator on five 26-bit words.  Its tag is shown
    equal to RFC 8439's polynomial evaluated in [Z] modulo [2 ^ 130 - 5], for
    every key, every message and every way of cutting the message into
    updates; the word-size arithmetic never overflows. *)

From S2P Require Import Prelude Ct MdHash.
Local Open Scope Z_scope.
Local Open Scope word_scope.

Module Poly1305.

Definition POLY1305_KEY : nat := 32.
Definition POLY1305_TAG : nat := 16.

(** Five 26-bit words, [x[0]] to [x[4]]. *)
Record words5 := W5 { x0 : Z; x1 : Z; x2 : Z; x3 : Z; x4 : Z }.

Record poly1305 := Poly {
  p_r : words5; p_h : words5; p_pad : list Z; p_block : list Z; p_fill : nat }.

Definition load32 (p : list Z) (i : nat) : Z :=
  (p !!! i) .| ((p !!! (i + 1)%nat) <<32 8) .| ((p !!! (i + 2)%nat) <<32 16)
  .| ((p !!! (i + 3)%nat) <<32 24).

(** [poly1305_init] leaves the block buffer as it was: [block] is its content. *)
Definition poly1305_init (block key : list Z) : poly1305 :=
  let r := W5 (load32 key 0 .& 0x3ffffff)
              ((load32 key 3 >> 2) .& 0x3ffff03)
              ((load32 key 6 >> 4) .& 0x3ffc0ff)
              ((load32 key 9 >> 6) .& 0x3f03fff)
              ((load32 key 12 >> 8) .& 0x00fffff) in
  let pad := (fun i => load32 key (16 + 4 * i)%nat) <$> seq 0 4 in
  Poly r (W5 0 0 0 0 0) pad block 0.

(** The carry chain of one block: [d0 .. d4] into 26-bit words. *)
Definition carry (d0 d1 d2 d3 d4 : Z) : words5 :=
  let c := d0 >> 26 in
  let h0 := u32 d0 .& 0x3ffffff in
  let d1 := d1 +64 c in
  let c := d1 >> 26 in
  let h1 := u32 d1 .& 0x3ffffff in
  let d2 := d2 +64 c in
  let c := d2 >> 26 in
  let h2 := u32 d2 .& 0x3ffffff in
  let d3 := d3 +64 c in
  let c := d3 >> 26 in
  let h3 := u32 d3 .& 0x3ffffff in
  let d4 := d4 +64 c in
  let c := d4 >> 26 in
  let h4 := u32 d4 .& 0x3ffffff in
  let h0 := h0 +32 (u32 c *32 5) in
  let h1 := h1 +32 (h0 >> 26) in
  let h0 := h0 .& 0x3ffffff in
  W5 h0 h1 h2 h3 h4.

(** One iteration of the loop of [blocks]: absorbs the 16 bytes [m]. *)
Definition block_step (r : words5) (high_bit : Z) (h : words5) (m : list Z) : words5 :=
  let '(W5 r0 r1 r2 r3 r4) := r in
  let s1 := r1 *32 5 in
  let s2 := r2 *32 5 in
  let s3 := r3 *32 5 in
  let s4 := r4 *32 5 in
  let h0 := x0 h +32 (load32 m 0 .& 0x3ffffff) in
  let h1 := x1 h +32 ((load32 m 3 >> 2) .& 0x3ffffff) in
  let h2 := x2 h +32 ((load32 m 6 >> 4) .& 0x3ffffff) in
  let h3 := x3 h +32 ((load32 m 9 >> 6) .& 0x3ffffff) in
  let h4 := x4 h +32 ((load32 m 12 >> 8) .| high_bit) in
  let d0 := ct_widemul h0 r0 +64 ct_widemul h1 s4 +64 ct_widemul h2 s3 +64
            ct_widemul h3 s2 +64 ct_widemul h4 s1 in
  let d1 := ct_widemul h0 r1 +64 ct_widemul h1 r0 +64 ct_widemul h2 s4 +64
            ct_widemul h3 s3 +64 ct_widemul h4 s2 in
  let d2 := ct_widemul h0 r2 +64 ct_widemul h1 r1 +64 ct_widemul h2 r0 +64
            ct_widemul h3 s4 +64 ct_widemul h4 s3 in
  let d3 := ct_widemul h0 r3 +64 ct_widemul h1 r2 +64 ct_widemul h2 r1 +64
            ct_widemul h3 r0 +64 ct_widemul h4 s4 in
  let d4 := ct_widemul h0 r4 +64 ct_widemul h1 r3 +64 ct_widemul h2 r2 +64
            ct_widemul h3 r1 +64 ct_widemul h4 r0 in
  carry d0 d1 d2 d3 d4.

(** [while (n >= 16)] over the input. *)
Definition blocks (r h : words5) (m : list Z) (high_bit : Z) : words5 :=
  (compress_while 16 (block_step r high_bit) (length m) h m).1.

(** [update]: the kernel argument picks among vector paths that a device object
    does not hold.  [None] is a failed [CH_ASSERT]. *)
Definition poly1305_update (p : poly1305) (inp : list Z) : option poly1305 :=
  let '(h, block, fill, inp) :=
    if (0 <? p_fill p)%nat then
      let '(block, fill, inp) := fill_while 16 (p_block p) (p_fill p) inp in
      if (fill =? 16)%nat then (blocks (p_r p) (p_h p) block (2 ^ 24), block, 0%nat, inp)
      else (p_h p, block, fill, inp)
    else (p_h p, p_block p, p_fill p, inp) in
  let n := length inp in
  let whole := (n - n mod 16)%nat in
  let '(h, inp) :=
    if (0 <? whole)%nat then (blocks (p_r p) h (take whole inp) (2 ^ 24), drop whole inp)
    else (h, inp) in
  if (fill + length inp <? 16)%nat then
    let '(block, fill, _) := fill_while 16 block fill inp in
    Some (Poly (p_r p) h (p_pad p) block fill)
  else None.

(** The full carry of [poly1305_final], before the conditional subtraction. *)
Definition full_carry (h : words5) : words5 :=
  let '(W5 h0 h1 h2 h3 h4) := h in
  let c := h1 >> 26 in
  let h1 := h1 .& 0x3ffffff in
  let h2 := h2 +32 c in
  let c := h2 >> 26 in
  let h2 := h2 .& 0x3ffffff in
  let h3 := h3 +32 c in
  let c := h3 >> 26 in
  let h3 := h3 .& 0x3ffffff in
  let h4 := h4 +32 c in
  let c := h4 >> 26 in
  let h4 := h4 .& 0x3ffffff in
  let h0 := h0 +32 (c *32 5) in
  let c := h0 >> 26 in
  let h0 := h0 .& 0x3ffffff in
  let h1 := h1 +32 c in
  W5 h0 h1 h2 h3 h4.

(** [h mod 2^130 - 5] by a masked select of [h] or [h - p]. *)
Definition reduce_select (h : words5) : words5 :=
  let '(W5 h0 h1 h2 h3 h4) := h in
  let g0 := h0 +32 5 in
  let c := g0 >> 26 in
  let g0 := g0 .& 0x3ffffff in
  let g1 := h1 +32 c in
  let c := g1 >> 26 in
  let g1 := g1 .& 0x3ffffff in
  let g2 := h2 +32 c in
  let c := g2 >> 26 in
  let g2 := g2 .& 0x3ffffff in
  let g3 := h3 +32 c in
  let c := g3 >> 26 in
  let g3 := g3 .& 0x3ffffff in
  let g4 := h4 +32 c -32 (2 ^ 26) in
  let mask := (g4 >> 31) -32 1 in
  W5 ((h0 .& not32 mask) .| (g0 .& mask)) ((h1 .& not32 mask) .| (g1 .& mask))
     ((h2 .& not32 mask) .| (g2 .& mask)) ((h3 .& not32 mask) .| (g3 .& mask))
     ((h4 .& not32 mask) .| (g4 .& mask)).

(** Repack into four 32-bit words and add the pad with carries. *)
Definition add_pad (h : words5) (pad : list Z) : list Z :=
  let '(W5 h0 h1 h2 h3 h4) := h in
  let h0' := (h0 .| (h1 <<32 26)) .& 0xffffffff in
  let h1' := ((h1 >> 6) .| (h2 <<32 20)) .& 0xffffffff in
  let h2' := ((h2 >> 12) .| (h3 <<32 14)) .& 0xffffffff in
  let h3' := ((h3 >> 18) .| (h4 <<32 8)) .& 0xffffffff in
  let f := h0' +64 (pad !!! 0%nat) in
  let h0 := u32 f in
  let f := h1' +64 (pad !!! 1%nat) +64 (f >> 32) in
  let h1 := u32 f in
  let f := h2' +64 (pad !!! 2%nat) +64 (f >> 32) in
  let h2 := u32 f in
  let f := h3' +64 (pad !!! 3%nat) +64 (f >> 32) in
  let h3 := u32 f in
  [h0; h1; h2; h3].

Definition store32 (v : Z) : list Z := [u8 v; u8 (v >> 8); u8 (v >> 16); u8 (v >> 24)].

(** [poly1305_final]: the tag; the context is wiped after it.  [None] is a
    failed [CH_ASSERT]. *)
Definition poly1305_final (p : poly1305) : option (list Z) :=
  if (p_fill p <? 16)%nat then
    let h :=
      if (0 <? p_fill p)%nat then
        let block := <[p_fill p := 1]> (p_block p) in
        let block := zero_while 16 block (p_fill p + 1) 16 in
        blocks (p_r p) (p_h p) block 0
      else p_h p in
    Some (concat (store32 <$> add_pad (reduce_select (full_carry h)) (p_pad p)))
  else None.

(** ** Reference: RFC 8439 section 2.5 *)

Definition prime : Z := 2 ^ 130 - 5.
Definition clamp : Z := 0x0ffffffc0ffffffc0ffffffc0fffffff.
(** The value of a block of up to 16 bytes, with the 1 appended. *)
Definition block_val (m : list Z) : Z := le_val (m ++ [1]).
Fixpoint spec_chunks (fuel : nat) (m : list Z) : list (list Z) :=
  match fuel, m with
  | S fuel, _ :: _ => take 16 m :: spec_chunks fuel (drop 16 m)
  | _, _ => []
  end.
Definition spec_acc (r : Z) (l : list (list Z)) : Z :=
  foldl (fun acc m => ((acc + block_val m) * r) mod prime) 0 l.
Definition poly1305_spec (key m : list Z) : list Z :=
  let r := Z.land (le_val (take 16 key)) clamp in
  let s := le_val (take 16 (drop 16 key)) in
  le_bytes 16 (spec_acc r (spec_chunks (length m) m) + s).

(** RFC 8439 section 2.5.2. *)
Example poly1305_rfc8439 :
  let key := be_bytes 32 0x85d6be7857556d337f4452fe42d506a80103808afb0db2fd4abff6af4149f51b in
  let msg := be_bytes 34 0x43727970746f6772617068696320466f72756d2052657365617263682047726f7570 in
  (poly1305_update (poly1305_init (replicate 16 0) key) msg ≫= poly1305_final)
  = Some (be_bytes 16 0xa8061dc1305136c6c22b8baf0c0127a9) /\
  poly1305_spec key msg = be_bytes 16 0xa8061dc1305136c6c22b8baf0c0127a9.
Proof. vm_compute. done. Qed.

(** ** Words and their values *)

Definition val5 (w : words5) : Z :=
  x0 w + 2 ^ 26 * x1 w + 2 ^ 52 * x2 w + 2 ^ 78 * x3 w + 2 ^ 104 * x4 w.

(** The invariant of the accumulator words between blocks, and of [r]. *)
Definition h_ok (h : words5) : Prop :=
  0 <= x0 h < 2 ^ 26 /\ 0 <= x1 h < 2 ^ 26 + 2 ^ 7 /\ 0 <= x2 h < 2 ^ 26 /\
  0 <= x3 h < 2 ^ 26 /\ 0 <= x4 h < 2 ^ 26.
Definition r_ok (r : words5) : Prop :=
  0 <= x0 r < 2 ^ 26 /\ 0 <= x1 r < 2 ^ 26 /\ 0 <= x2 r < 2 ^ 26 /\
  0 <= x3 r < 2 ^ 26 /\ 0 <= x4 r < 2 ^ 26.

Lemma mask26 x : Z.land x 0x3ffffff = x mod 2 ^ 26.
Proof. by apply (land_mask 26). Qed.

Lemma mask26_u32 x : Z.land (u32 x) 0x3ffffff = x mod 2 ^ 26.
Proof. rewrite mask26. word_lia. Qed.

(** The carry chain keeps the value modulo the prime and restores the bounds. *)
Lemma carry_spec d0 d1 d2 d3 d4 :
  0 <= d0 < 2 ^ 58 -> 0 <= d1 < 2 ^ 58 -> 0 <= d2 < 2 ^ 58 -> 0 <= d3 < 2 ^ 58 ->
  0 <= d4 < 5 * 2 ^ 53 + 2 ^ 40 ->
  let h := carry d0 d1 d2 d3 d4 in
  h_ok h /\
  exists c, val5 h = d0 + 2 ^ 26 * d1 + 2 ^ 52 * d2 + 2 ^ 78 * d3 + 2 ^ 104 * d4 - c * prime.
Proof.
  intros H0 H1 H2 H3 H4. unfold carry. rewrite !mask26_u32, !Z.shiftr_div_pow2 by lia.
  rewrite (u64_small (d1 + _)) by (unfold u64_ok; dlia).
  set (e1 := d1 + d0 / 2 ^ 26). assert (E1 : 0 <= e1 < 2 ^ 58 + 2 ^ 32) by (subst e1; dlia).
  rewrite (u64_small (d2 + _)) by (unfold u64_ok; dlia).
  set (e2 := d2 + e1 / 2 ^ 26). assert (E2 : 0 <= e2 < 2 ^ 58 + 2 ^ 33) by (subst e2; dlia).
  rewrite (u64_small (d3 + _)) by (unfold u64_ok; dlia).
  set (e3 := d3 + e2 / 2 ^ 26). assert (E3 : 0 <= e3 < 2 ^ 58 + 2 ^ 33) by (subst e3; dlia).
  rewrite (u64_small (d4 + _)) by (unfold u64_ok; dlia).
  set (e4 := d4 + e3 / 2 ^ 26). assert (E4 : 0 <= e4 < 5 * 2 ^ 53 + 2 ^ 41) by (subst e4; dlia).
  set (c := e4 / 2 ^ 26). assert (Ec : 0 <= c < 5 * 2 ^ 27 + 2 ^ 15) by (subst c; dlia).
  rewrite (u32_small c), (u32_small (c * 5)) by (unfold u32_ok; lia).
  rewrite (u32_small (d0 mod 2 ^ 26 + c * 5)) by (unfold u32_ok; dlia).
  set (f0 := d0 mod 2 ^ 26 + c * 5). assert (F0 : 0 <= f0 < 2 ^ 32) by (subst f0; dlia).
  rewrite (u32_small (e1 mod 2 ^ 26 + _)) by (unfold u32_ok; dlia).
  unfold h_ok, val5, prime. cbn [x0 x1 x2 x3 x4]. split; [split_and!; dlia|].
  exists c. subst e1 e2 e3 e4 f0. clear H0 H1 H2 H3 H4 E1 E2 E3 E4 F0. subst c.
  dlia.
Qed.

Lemma load32_val p i : bytes_ok p -> (i + 4 <= length p)%nat ->
  load32 p i = (le_val p / 2 ^ (8 * Z.of_nat i)) mod 2 ^ 32.
Proof.
  intros Hp Hi. unfold load32. rewrite join_le32 by by apply bytes_ok_total.
  rewrite <- lookup4 by done. change 32 with (8 * Z.of_nat 4).
  rewrite le_val_take, le_val_drop by first [done | by apply Forall_drop]. done.
Qed.

(** The 26-bit words of a 16-byte block. *)
Lemma block_words m : bytes_ok m -> length m = 16%nat ->
  let M := le_val m in
  load32 m 0 .& 0x3ffffff = M mod 2 ^ 26 /\
  (load32 m 3 >> 2) .& 0x3ffffff = M / 2 ^ 26 mod 2 ^ 26 /\
  (load32 m 6 >> 4) .& 0x3ffffff = M / 2 ^ 52 mod 2 ^ 26 /\
  (load32 m 9 >> 6) .& 0x3ffffff = M / 2 ^ 78 mod 2 ^ 26 /\
  load32 m 12 >> 8 = M / 2 ^ 104 /\ 0 <= M < 2 ^ 128.
Proof.
  intros Hm Hl M. pose proof (le_val_bound m Hm) as HM. rewrite Hl in HM.
  rewrite !mask26, !load32_val, !Z.shiftr_div_pow2 by (done || lia). fold M in HM |- *. clearbody M.
  cbn in HM. change (8 * Z.of_nat 0) with 0. change (8 * Z.of_nat 3) with 24.
  change (8 * Z.of_nat 6) with 48. change (8 * Z.of_nat 9) with 72. change (8 * Z.of_nat 12) with 96.
  change (8 * Z.of_nat 16) with 128 in HM.
  split_and!; dlia.
Qed.

(** The product of two five-word numbers, folded at [2 ^ 130 = 5]. *)
Lemma product_fold a r :
  let '(W5 a0 a1 a2 a3 a4) := a in
  let '(W5 r0 r1 r2 r3 r4) := r in
  (a0 * r0 + a1 * (r4 * 5) + a2 * (r3 * 5) + a3 * (r2 * 5) + a4 * (r1 * 5))
  + 2 ^ 26 * (a0 * r1 + a1 * r0 + a2 * (r4 * 5) + a3 * (r3 * 5) + a4 * (r2 * 5))
  + 2 ^ 52 * (a0 * r2 + a1 * r1 + a2 * r0 + a3 * (r4 * 5) + a4 * (r3 * 5))
  + 2 ^ 78 * (a0 * r3 + a1 * r2 + a2 * r1 + a3 * r0 + a4 * (r4 * 5))
  + 2 ^ 104 * (a0 * r4 + a1 * r3 + a2 * r2 + a3 * r1 + a4 * r0)
  = val5 a * val5 r
    - (a1 * r4 + a2 * r3 + a3 * r2 + a4 * r1
       + 2 ^ 26 * (a2 * r4 + a3 * r3 + a4 * r2) + 2 ^ 52 * (a3 * r4 + a4 * r3)
       + 2 ^ 78 * (a4 * r4)) * prime.
Proof. destruct a, r. unfold val5, prime. cbn [x0 x1 x2 x3 x4]. ring. Qed.

Lemma mul_range a b A B : 0 <= a <= A -> 0 <= b <= B -> 0 <= a * b <= A * B.
Proof. nia. Qed.

Lemma sum5_u64 p q r s t P :
  0 <= p <= P -> 0 <= q <= P -> 0 <= r <= P -> 0 <= s <= P -> 0 <= t <= P -> P < 2 ^ 61 ->
  u64 (u64 (u64 (u64 (p + q) + r) + s) + t) = p + q + r + s + t.
Proof.
  intros. rewrite (u64_small (p + q)), (u64_small (p + q + r)), (u64_small (p + q + r + s)), u64_small;
    unfold u64_ok; lia.
Qed.

(** A product of accumulator and multiplier words, as [ct_widemul] computes it. *)
Lemma widemul_word a b : 0 <= a <= 2 ^ 27 + 2 ^ 7 -> 0 <= b <= 5 * 2 ^ 26 ->
  ct_widemul a b = a * b /\ 0 <= a * b <= (2 ^ 27 + 2 ^ 7) * (5 * 2 ^ 26).
Proof.
  intros Ha Hb. split; [apply ct_widemul_correct; unfold u32_ok; lia|]. by apply mul_range.
Qed.

Lemma high_word M hb : 0 <= M < 2 ^ 128 -> hb = 0 \/ hb = 2 ^ 24 ->
  Z.lor (M / 2 ^ 104) hb = M / 2 ^ 104 + hb.
Proof.
  intros HM [-> | ->]; [by rewrite Z.lor_0_r, Z.add_0_r|].
  change (2 ^ 24) with (Z.shiftl 1 24) at 1. rewrite lor_shiftl_add; [done|lia|dlia].
Qed.

(** The five sums of products of one block, and their carry. *)
Definition multiply_carry (a r : words5) : words5 :=
  let '(W5 h0 h1 h2 h3 h4) := a in
  let '(W5 r0 r1 r2 r3 r4) := r in
  let s1 := r1 * 5 in let s2 := r2 * 5 in let s3 := r3 * 5 in let s4 := r4 * 5 in
  carry (h0 * r0 + h1 * s4 + h2 * s3 + h3 * s2 + h4 * s1)
        (h0 * r1 + h1 * r0 + h2 * s4 + h3 * s3 + h4 * s2)
        (h0 * r2 + h1 * r1 + h2 * r0 + h3 * s4 + h4 * s3)
        (h0 * r3 + h1 * r2 + h2 * r1 + h3 * r0 + h4 * s4)
        (h0 * r4 + h1 * r3 + h2 * r2 + h3 * r1 + h4 * r0).

Definition a_ok (a : words5) : Prop :=
  0 <= x0 a <= 2 ^ 27 + 2 ^ 7 /\ 0 <= x1 a <= 2 ^ 27 + 2 ^ 7 /\ 0 <= x2 a <= 2 ^ 27 + 2 ^ 7 /\
  0 <= x3 a <= 2 ^ 27 + 2 ^ 7 /\ 0 <= x4 a <= 2 ^ 27 + 2 ^ 7.

Lemma multiply_carry_spec a r : a_ok a -> r_ok r ->
  h_ok (multiply_carry a r) /\ exists k, val5 (multiply_carry a r) = val5 a * val5 r - k * prime.
Proof.
  intros Ha Hr. pose proof (product_fold a r) as Hpf.
  destruct a as [a0 a1 a2 a3 a4], r as [r0 r1 r2 r3 r4]. unfold a_ok, r_ok in Ha, Hr.
  cbn [x0 x1 x2 x3 x4] in Ha, Hr.
  destruct Ha as (A0 & A1 & A2 & A3 & A4), Hr as (R0 & R1 & R2 & R3 & R4).
  unfold multiply_carry.
  assert (L : forall x y, 0 <= x <= 2 ^ 27 + 2 ^ 7 -> 0 <= y < 2 ^ 26 ->
    0 <= x * y <= (2 ^ 27 + 2 ^ 7) * 2 ^ 26) by (intros; apply mul_range; lia).
  assert (L5 : forall x y, 0 <= x <= 2 ^ 27 + 2 ^ 7 -> 0 <= y < 2 ^ 26 ->
    0 <= x * (y * 5) <= (2 ^ 27 + 2 ^ 7) * (5 * 2 ^ 26)) by (intros; apply mul_range; lia).
  assert (B0 := (conj (L a0 r0 A0 R0) (conj (L5 a1 r4 A1 R4) (conj (L5 a2 r3 A2 R3)
    (conj (L5 a3 r2 A3 R2) (L5 a4 r1 A4 R1)))))).
  assert (B1 := (conj (L a0 r1 A0 R1) (conj (L a1 r0 A1 R0) (conj (L5 a2 r4 A2 R4)
    (conj (L5 a3 r3 A3 R3) (L5 a4 r2 A4 R2)))))).
  assert (B2 := (conj (L a0 r2 A0 R2) (conj (L a1 r1 A1 R1) (conj (L a2 r0 A2 R0)
    (conj (L5 a3 r4 A3 R4) (L5 a4 r3 A4 R3)))))).
  assert (B3 := (conj (L a0 r3 A0 R3) (conj (L a1 r2 A1 R2) (conj (L a2 r1 A2 R1)
    (conj (L a3 r0 A3 R0) (L5 a4 r4 A4 R4)))))).
  assert (B4 := (conj (L a0 r4 A0 R4) (conj (L a1 r3 A1 R3) (conj (L a2 r2 A2 R2)
    (conj (L a3 r1 A3 R1) (L a4 r0 A4 R0)))))).
  clear A0 A1 A2 A3 A4 R0 R1 R2 R3 R4 L L5. revert Hpf.
  set (d0 := a0 * r0 + _ + _ + _ + _). set (d1 := a0 * r1 + _ + _ + _ + _).
  set (d2 := a0 * r2 + _ + _ + _ + _). set (d3 := a0 * r3 + _ + _ + _ + _).
  set (d4 := a0 * r4 + _ + _ + _ + _). intros Hpf.
  assert (0 <= d0 < 2 ^ 58) by (subst d0; clear -B0; lia).
  assert (0 <= d1 < 2 ^ 58) by (subst d1; clear -B1; lia).
  assert (0 <= d2 < 2 ^ 58) by (subst d2; clear -B2; lia).
  assert (0 <= d3 < 2 ^ 58) by (subst d3; clear -B3; lia).
  assert (0 <= d4 < 5 * 2 ^ 53 + 2 ^ 40) by (subst d4; clear -B4; lia).
  clear B0 B1 B2 B3 B4. clearbody d0 d1 d2 d3 d4.
  destruct (carry_spec d0 d1 d2 d3 d4) as [Hok [c Hc]]; try assumption.
  split; [exact Hok|]. rewrite Hc, Hpf.
  match goal with |- exists k, _ - ?q * prime - _ = _ => exists (q + c) end. ring.
Qed.

Lemma block_step_multiply r hb h m :
  r_ok r -> h_ok h -> bytes_ok m -> length m = 16%nat -> hb = 0 \/ hb = 2 ^ 24 ->
  exists a, a_ok a /\ block_step r hb h m = multiply_carry a r /\
            val5 a = val5 h + le_val m + hb * 2 ^ 104.
Proof.
  intros Hr Hh Hm Hl Hhb. destruct r as [r0 r1 r2 r3 r4], h as [h0 h1 h2 h3 h4].
  unfold r_ok, h_ok in Hr, Hh. cbn [x0 x1 x2 x3 x4] in Hr, Hh.
  destruct Hr as (R0 & R1 & R2 & R3 & R4), Hh as (H0 & H1 & H2 & H3 & H4).
  unfold block_step. cbn [x0 x1 x2 x3 x4].
  destruct (block_words m Hm Hl) as (-> & -> & -> & -> & -> & HM).
  rewrite high_word by done. set (M := le_val m) in *. clearbody M.
  assert (Hhb' : 0 <= hb <= 2 ^ 24) by lia.
  rewrite !(u32_small (_ * 5)) by (unfold u32_ok; lia).
  rewrite !(u32_small (_ + _)) by (unfold u32_ok; dlia).
  exists (W5 (h0 + M mod 2 ^ 26) (h1 + M / 2 ^ 26 mod 2 ^ 26) (h2 + M / 2 ^ 52 mod 2 ^ 26)
             (h3 + M / 2 ^ 78 mod 2 ^ 26) (h4 + (M / 2 ^ 104 + hb))).
  set (a0 := h0 + _). set (a1 := h1 + _). set (a2 := h2 + _). set (a3 := h3 + _). set (a4 := h4 + _).
  assert (Ha : a_ok (W5 a0 a1 a2 a3 a4)).
  { unfold a_ok. cbn [x0 x1 x2 x3 x4]. subst a0 a1 a2 a3 a4. split_and!; dlia. }
  split; [done|split]; [|unfold val5; cbn [x0 x1 x2 x3 x4]; subst a0 a1 a2 a3 a4; dlia].
  destruct Ha as (A0 & A1 & A2 & A3 & A4). cbn [x0 x1 x2 x3 x4] in A0, A1, A2, A3, A4.
  clearbody a0 a1 a2 a3 a4. unfold multiply_carry.
  assert (W : forall x y, 0 <= x <= 2 ^ 27 + 2 ^ 7 -> 0 <= y < 2 ^ 26 ->
    ct_widemul x y = x * y /\ 0 <= x * y <= (2 ^ 27 + 2 ^ 7) * (5 * 2 ^ 26))
    by (intros; apply widemul_word; lia).
  assert (W5' : forall x y, 0 <= x <= 2 ^ 27 + 2 ^ 7 -> 0 <= y < 2 ^ 26 ->
    ct_widemul x (y * 5) = x * (y * 5) /\ 0 <= x * (y * 5) <= (2 ^ 27 + 2 ^ 7) * (5 * 2 ^ 26))
    by (intros; apply widemul_word; lia).
  repeat match goal with
  | |- context [ct_widemul ?x (?y * 5)] => rewrite (proj1 (W5' x y ltac:(assumption) ltac:(assumption)))
  | |- context [ct_widemul ?x ?y] => rewrite (proj1 (W x y ltac:(assumption) ltac:(assumption)))
  end.
  rewrite !(sum5_u64 _ _ _ _ _ ((2 ^ 27 + 2 ^ 7) * (5 * 2 ^ 26)));
    first [reflexivity | apply W; assumption | apply W5'; assumption | lia].
Qed.

(** One block: the accumulator becomes (acc + block) * r modulo the prime. *)
Lemma block_step_spec r hb h m :
  r_ok r -> h_ok h -> bytes_ok m -> length m = 16%nat -> hb = 0 \/ hb = 2 ^ 24 ->
  h_ok (block_step r hb h m) /\
  exists k, val5 (block_step r hb h m) = (val5 h + le_val m + hb * 2 ^ 104) * val5 r - k * prime.
Proof.
  intros Hr Hh Hm Hl Hhb.
  destruct (block_step_multiply r hb h m Hr Hh Hm Hl Hhb) as (a & Ha & -> & <-).
  by apply multiply_carry_spec.
Qed.

(** *** The clamp *)

Lemma land_low n x m : 0 <= n -> 0 <= m < 2 ^ n -> Z.land x m = Z.land (x mod 2 ^ n) m.
Proof.
  intros Hn Hm. pose proof (land_split n x m 0 Hn Hm) as H.
  rewrite Z.mul_0_l, Z.add_0_r, Z.land_0_r, Z.mul_0_l, Z.add_0_r in H. done.
Qed.

Lemma clamp_split R :
  Z.land R clamp =
  Z.land (R mod 2 ^ 26) 0x3ffffff + 2 ^ 26 * Z.land (R / 2 ^ 26 mod 2 ^ 26) 0x3ffff03
  + 2 ^ 52 * Z.land (R / 2 ^ 52 mod 2 ^ 26) 0x3ffc0ff
  + 2 ^ 78 * Z.land (R / 2 ^ 78 mod 2 ^ 26) 0x3f03fff
  + 2 ^ 104 * Z.land (R / 2 ^ 104) 0x00fffff.
Proof.
  change clamp with (0x3ffffff + (0x3ffff03 + (0x3ffc0ff + (0x3f03fff + 0x00fffff * 2 ^ 26)
    * 2 ^ 26) * 2 ^ 26) * 2 ^ 26).
  rewrite (land_split 26), (land_split 26 (R / _)), (land_split 26 (R / _ / _)),
    (land_split 26 (R / _ / _ / _)) by lia.
  rewrite !Z.div_div by lia. change (2 ^ 26 * 2 ^ 26) with (2 ^ 52).
  change (2 ^ 52 * 2 ^ 26) with (2 ^ 78). change (2 ^ 78 * 2 ^ 26) with (2 ^ 104). ring.
Qed.

Definition key_r (key : list Z) : Z := Z.land (le_val (take 16 key)) clamp.
Definition key_s (key : list Z) : Z := le_val (take 16 (drop 16 key)).

Lemma init_r block key : bytes_ok key -> length key = POLY1305_KEY ->
  let p := poly1305_init block key in r_ok (p_r p) /\ val5 (p_r p) = key_r key.
Proof.
  intros Hk Hl. unfold POLY1305_KEY in Hl. cbn.
  rewrite !load32_val, !Z.shiftr_div_pow2 by (done || lia).
  unfold key_r. rewrite le_val_take by done.
  change (8 * Z.of_nat 0) with 0. change (8 * Z.of_nat 3) with 24.
  change (8 * Z.of_nat 6) with 48. change (8 * Z.of_nat 9) with 72. change (8 * Z.of_nat 12) with 96.
  change (8 * Z.of_nat 16) with 128.
  set (K := le_val key). clearbody K. rewrite clamp_split.
  rewrite (land_low 26 _ 0x3ffffff), (land_low 26 _ 0x3ffff03), (land_low 26 _ 0x3ffc0ff),
    (land_low 26 _ 0x3f03fff), (land_low 26 _ 0x00fffff) by lia.
  unfold val5, r_ok. cbn [x0 x1 x2 x3 x4]. split.
  - split_and!; apply (land_bound 26); lia || (apply Z.mod_pos_bound; lia).
  - rewrite (land_low 26 (_ / 2 ^ 104)) by lia.
    replace ((K / 2 ^ 0) mod 2 ^ 32 mod 2 ^ 26) with (K mod 2 ^ 128 mod 2 ^ 26) by dlia.
    replace ((K / 2 ^ 24) mod 2 ^ 32 / 2 ^ 2 mod 2 ^ 26) with (K mod 2 ^ 128 / 2 ^ 26 mod 2 ^ 26) by dlia.
    replace ((K / 2 ^ 48) mod 2 ^ 32 / 2 ^ 4 mod 2 ^ 26) with (K mod 2 ^ 128 / 2 ^ 52 mod 2 ^ 26) by dlia.
    replace ((K / 2 ^ 72) mod 2 ^ 32 / 2 ^ 6 mod 2 ^ 26) with (K mod 2 ^ 128 / 2 ^ 78 mod 2 ^ 26) by dlia.
    replace ((K / 2 ^ 96) mod 2 ^ 32 / 2 ^ 8 mod 2 ^ 26) with (K mod 2 ^ 128 / 2 ^ 104 mod 2 ^ 26) by dlia.
    done.
Qed.

Lemma init_pad block key : bytes_ok key -> length key = POLY1305_KEY ->
  words_ok (p_pad (poly1305_init block key)) /\ length (p_pad (poly1305_init block key)) = 4%nat /\
  (let pad := p_pad (poly1305_init block key) in
   (pad !!! 0%nat) + 2 ^ 32 * (pad !!! 1%nat) + 2 ^ 64 * (pad !!! 2%nat) + 2 ^ 96 * (pad !!! 3%nat) = key_s key).
Proof.
  intros Hk Hl. unfold POLY1305_KEY in Hl. cbn -[le_val take drop].
  rewrite !load32_val by (done || lia). split; [|split; [done|]].
  - repeat (constructor; [apply Z.mod_pos_bound; lia|]). constructor.
  - unfold key_s. rewrite le_val_take, le_val_drop by first [done | by apply Forall_drop].
    change (8 * Z.of_nat 16) with 128. change (8 * Z.of_nat 20) with 160.
    change (8 * Z.of_nat 24) with 192. change (8 * Z.of_nat 28) with 224.
    generalize (le_val key). intros K. dlia.
Qed.

(** *** The final reduction *)

Lemma full_carry_spec h : h_ok h ->
  r_ok (full_carry h) /\ exists k, val5 (full_carry h) = val5 h - k * prime.
Proof.
  destruct h as [h0 h1 h2 h3 h4]. unfold h_ok. cbn [x0 x1 x2 x3 x4].
  intros (H0 & H1 & H2 & H3 & H4). unfold full_carry. rewrite !mask26, !Z.shiftr_div_pow2 by lia.
  assert (C1 : 0 <= h1 / 2 ^ 26 <= 1) by dlia.
  rewrite (u32_small (h2 + _)) by (unfold u32_ok; lia).
  set (e2 := h2 + h1 / 2 ^ 26). assert (0 <= e2 / 2 ^ 26 <= 1) by (subst e2; dlia).
  rewrite (u32_small (h3 + _)) by (unfold u32_ok; lia).
  set (e3 := h3 + e2 / 2 ^ 26). assert (0 <= e3 / 2 ^ 26 <= 1) by (subst e3; dlia).
  rewrite (u32_small (h4 + _)) by (unfold u32_ok; lia).
  set (e4 := h4 + e3 / 2 ^ 26). assert (0 <= e4 / 2 ^ 26 <= 1) by (subst e4; dlia).
  rewrite (u32_small (e4 / _ * 5)) by (unfold u32_ok; lia).
  rewrite (u32_small (h0 + _)) by (unfold u32_ok; lia).
  set (e0 := h0 + e4 / 2 ^ 26 * 5). assert (0 <= e0 / 2 ^ 26 <= 1) by (subst e0; dlia).
  (* a carry out of the top word needs one out of h1, which leaves h1 small *)
  assert (K : e0 / 2 ^ 26 = 1 -> h1 mod 2 ^ 26 < 2 ^ 7) by (subst e0 e4 e3 e2; dlia).
  rewrite u32_small by (unfold u32_ok; dlia).
  unfold r_ok, val5, prime. cbn [x0 x1 x2 x3 x4]. split; [split_and!; dlia|].
  exists (e4 / 2 ^ 26). subst e0 e4 e3 e2. clear K. dlia.
Qed.

Lemma reduce_select_spec h : r_ok h ->
  r_ok (reduce_select h) /\ val5 (reduce_select h) = val5 h mod prime.
Proof.
  destruct h as [h0 h1 h2 h3 h4]. unfold r_ok. cbn [x0 x1 x2 x3 x4].
  intros (H0 & H1 & H2 & H3 & H4). unfold reduce_select. rewrite !mask26, !Z.shiftr_div_pow2 by lia.
  rewrite (u32_small (h0 + 5)) by (unfold u32_ok; lia).
  set (g0 := h0 + 5). assert (G0 : 0 <= g0 / 2 ^ 26 <= 1) by (subst g0; dlia).
  rewrite (u32_small (h1 + _)) by (unfold u32_ok; lia).
  set (g1 := h1 + g0 / 2 ^ 26). assert (G1 : 0 <= g1 / 2 ^ 26 <= 1) by (subst g1; dlia).
  rewrite (u32_small (h2 + _)) by (unfold u32_ok; lia).
  set (g2 := h2 + g1 / 2 ^ 26). assert (G2 : 0 <= g2 / 2 ^ 26 <= 1) by (subst g2; dlia).
  rewrite (u32_small (h3 + _)) by (unfold u32_ok; lia).
  set (g3 := h3 + g2 / 2 ^ 26). assert (G3 : 0 <= g3 / 2 ^ 26 <= 1) by (subst g3; dlia).
  rewrite (u32_small (h4 + _)) by (unfold u32_ok; lia).
  set (g4 := h4 + g3 / 2 ^ 26).
  assert (Hsum : g0 mod 2 ^ 26 + 2 ^ 26 * (g1 mod 2 ^ 26) + 2 ^ 52 * (g2 mod 2 ^ 26)
    + 2 ^ 78 * (g3 mod 2 ^ 26) + 2 ^ 104 * g4
    = h0 + 2 ^ 26 * h1 + 2 ^ 52 * h2 + 2 ^ 78 * h3 + 2 ^ 104 * h4 + 5)
    by (subst g4 g3 g2 g1 g0; dlia).
  assert (Hg4 : 0 <= g4 <= 2 ^ 26) by (subst g4; lia).
  assert (M0 : 0 <= g0 mod 2 ^ 26 < 2 ^ 26) by dlia. assert (M1 : 0 <= g1 mod 2 ^ 26 < 2 ^ 26) by dlia.
  assert (M2 : 0 <= g2 mod 2 ^ 26 < 2 ^ 26) by dlia. assert (M3 : 0 <= g3 mod 2 ^ 26 < 2 ^ 26) by dlia.
  set (y0 := g0 mod 2 ^ 26) in *. set (y1 := g1 mod 2 ^ 26) in *.
  set (y2 := g2 mod 2 ^ 26) in *. set (y3 := g3 mod 2 ^ 26) in *.
  clearbody y0 y1 y2 y3 g4. clear G0 G1 G2 G3. clear g0 g1 g2 g3.
  set (V := h0 + 2 ^ 26 * h1 + 2 ^ 52 * h2 + 2 ^ 78 * h3 + 2 ^ 104 * h4) in *.
  assert (HV : 0 <= V < 2 ^ 130) by (subst V; lia).
  set (b := bool_decide (prime <= V)).
  assert (Hmask : u32 (u32 (g4 - 2 ^ 26) / 2 ^ 31 - 1) = if b then 2 ^ 32 - 1 else 0).
  { subst b. unfold prime. case_bool_decide; word_lia. }
  rewrite Hmask, !(select32 b) by (apply u32_range || (unfold u32_ok; lia)).
  unfold val5, r_ok. cbn [x0 x1 x2 x3 x4]. subst b. case_bool_decide as Hge; unfold prime in *.
  - rewrite u32_small by (unfold u32_ok; lia). split; [split_and!; lia|].
    fold V. rewrite <- (Z.mod_unique V (2 ^ 130 - 5) 1 (V - (2 ^ 130 - 5))) by lia. lia.
  - split; [split_and!; lia|]. symmetry. apply Z.mod_small. lia.
Qed.

(** The four output words hold the low 128 bits of the sum. *)
Lemma repack w0 w1 w2 w3 w4 : r_ok (W5 w0 w1 w2 w3 w4) ->
  (w0 .| (w1 <<32 26)) .& 0xffffffff = (w0 + 2 ^ 26 * w1) mod 2 ^ 32 /\
  ((w1 >> 6) .| (w2 <<32 20)) .& 0xffffffff = (w1 / 2 ^ 6 + 2 ^ 20 * w2) mod 2 ^ 32 /\
  ((w2 >> 12) .| (w3 <<32 14)) .& 0xffffffff = (w2 / 2 ^ 12 + 2 ^ 14 * w3) mod 2 ^ 32 /\
  ((w3 >> 18) .| (w4 <<32 8)) .& 0xffffffff = (w3 / 2 ^ 18 + 2 ^ 8 * w4) mod 2 ^ 32.
Proof.
  unfold r_ok. cbn [x0 x1 x2 x3 x4]. intros (H0 & H1 & H2 & H3 & H4).
  assert (L : forall a b k, 0 <= k <= 26 -> 0 <= a < 2 ^ k -> 0 <= b < 2 ^ 26 ->
    (a .| (b <<32 k)) .& 0xffffffff = (a + 2 ^ k * b) mod 2 ^ 32).
  { intros a b k Hk Ha Hb. change 0xffffffff with (2 ^ 32 - 1). rewrite (land_mask 32) by done.
    unfold u32. rewrite shiftl_wrap by lia. rewrite <- Z.shiftl_mul_pow2, lor_shiftl_add by lia.
    rewrite <- (shiftl_wrap 32 k b), Zplus_mod_idemp_r, Z.shiftl_mul_pow2 by lia. f_equal. ring. }
  rewrite !Z.shiftr_div_pow2 by lia. split_and!; apply L; dlia.
Qed.

Lemma add_pad_spec h pad : r_ok h -> words_ok pad -> length pad = 4%nat ->
  exists a b c d, add_pad h pad = [a; b; c; d] /\ words_ok [a; b; c; d] /\
  a + 2 ^ 32 * b + 2 ^ 64 * c + 2 ^ 96 * d =
  (val5 h + ((pad !!! 0%nat) + 2 ^ 32 * (pad !!! 1%nat) + 2 ^ 64 * (pad !!! 2%nat)
             + 2 ^ 96 * (pad !!! 3%nat))) mod 2 ^ 128.
Proof.
  destruct h as [h0 h1 h2 h3 h4]. intros Hh Hp Hl. unfold add_pad, val5. cbn [x0 x1 x2 x3 x4].
  destruct (repack _ _ _ _ _ Hh) as (-> & -> & -> & ->).
  destruct pad as [|p0 [|p1 [|p2 [|p3 [|]]]]]; try discriminate Hl. cbn [lookup_total list_lookup_total].
  rewrite !Forall_cons in Hp. destruct Hp as (P0 & P1 & P2 & P3 & _).
  unfold r_ok in Hh. cbn [x0 x1 x2 x3 x4] in Hh. destruct Hh as (H0 & H1 & H2 & H3 & H4).
  unfold u32_ok in P0, P1, P2, P3. rewrite !Z.shiftr_div_pow2 by lia.
  set (a := (h0 + _) mod 2 ^ 32). set (b := (h1 / _ + _) mod 2 ^ 32).
  set (c := (h2 / _ + _) mod 2 ^ 32). set (d := (h3 / _ + _) mod 2 ^ 32).
  assert (HV : a + 2 ^ 32 * b + 2 ^ 64 * c + 2 ^ 96 * d =
    (h0 + 2 ^ 26 * h1 + 2 ^ 52 * h2 + 2 ^ 78 * h3 + 2 ^ 104 * h4) mod 2 ^ 128)
    by (subst a b c d; dlia).
  assert (Ra : 0 <= a < 2 ^ 32) by (subst a; dlia). assert (Rb : 0 <= b < 2 ^ 32) by (subst b; dlia).
  assert (Rc : 0 <= c < 2 ^ 32) by (subst c; dlia). assert (Rd : 0 <= d < 2 ^ 32) by (subst d; dlia).
  rewrite <- Zplus_mod_idemp_l, <- HV. clear HV. clearbody a b c d. clear H0 H1 H2 H3 H4 h0 h1 h2 h3 h4.
  do 4 eexists. split; [reflexivity|]. split.
  - repeat (constructor; [apply u32_range|]). constructor.
  - rewrite (u64_small (a + _)) by (unfold u64_ok; lia).
    set (f0 := a + p0). assert (0 <= f0 / 2 ^ 32 <= 1) by (subst f0; dlia).
    rewrite (u64_small (b + _)), (u64_small (b + p1 + _)) by (unfold u64_ok; lia).
    set (f1 := b + p1 + _). assert (0 <= f1 / 2 ^ 32 <= 1) by (subst f1; dlia).
    rewrite (u64_small (c + _)), (u64_small (c + p2 + _)) by (unfold u64_ok; lia).
    set (f2 := c + p2 + _). assert (0 <= f2 / 2 ^ 32 <= 1) by (subst f2; dlia).
    rewrite (u64_small (d + _)), (u64_small (d + p3 + _)) by (unfold u64_ok; lia).
    set (f3 := d + p3 + _). assert (0 <= f3 / 2 ^ 32 <= 1) by (subst f3; dlia).
    unfold u32. apply (Z.mod_unique _ _ (f3 / 2 ^ 32)); [left; dlia|].
    subst f3 f2 f1 f0. dlia.
Qed.

Lemma store32_le v : store32 v = le_bytes 4 v.
Proof.
  unfold store32. cbn [le_bytes]. rewrite !Z.shiftr_div_pow2 by lia.
  repeat (apply (f_equal2 cons); [unfold u8; dlia|]). done.
Qed.

Lemma store_words a b c d : words_ok [a; b; c; d] ->
  concat (store32 <$> [a; b; c; d]) = le_bytes 16 (a + 2 ^ 32 * b + 2 ^ 64 * c + 2 ^ 96 * d).
Proof.
  rewrite !Forall_cons. intros (A & B & C & D & _). unfold u32_ok in *.
  cbn [fmap list_fmap concat]. rewrite !store32_le, app_nil_r.
  assert (L : forall n x y, 0 <= x < 2 ^ 32 -> le_bytes 4 x ++ le_bytes n y = le_bytes (4 + n) (x + 2 ^ 32 * y)).
  { intros n x y Hx. cbn [Nat.add le_bytes app].
    repeat (apply (f_equal2 cons); [unfold u8; dlia|]). f_equal. dlia. }
  rewrite !L by done. cbn [Nat.add]. f_equal. ring.
Qed.

(** *** Buffering: [poly1305_update] is the shared block buffering *)

(** The polynomial state as a block-buffered context. *)
Definition as_md (p : poly1305) (total : Z) : md_ctx words5 :=
  MdCtx (p_h p) total (p_fill p) (p_block p).
Abbreviation step r := (block_step r (2 ^ 24)).
Definition zero5 : words5 := W5 0 0 0 0 0.

Lemma blocks_one r h b hb : length b = 16%nat -> blocks r h b hb = block_step r hb h b.
Proof.
  intros Hb. unfold blocks. rewrite compress_while_spec by lia.
  rewrite chunks_one by lia. done.
Qed.

(** The bulk call over the whole blocks is the compression loop over the input. *)
Lemma bulk_compress r h inp :
  (if (0 <? length inp - length inp mod 16)%nat
   then (blocks r h (take (length inp - length inp mod 16) inp) (2 ^ 24),
         drop (length inp - length inp mod 16) inp)
   else (h, inp))
  = compress_while 16 (step r) (length inp) h inp.
Proof.
  rewrite compress_while_spec by lia.
  assert (E : (length inp - length inp mod 16)%nat = whole 16 inp)
    by (unfold whole; pose proof (Nat.div_mod_eq (length inp) 16); lia).
  rewrite E. destruct (Nat.ltb_spec 0 (whole 16 inp)) as [H|H].
  - unfold blocks. rewrite compress_while_spec by lia. cbn [fst].
    apply (f_equal2 pair); [|done]. symmetry. apply (md_blocks_whole 16 (step r)). lia.
  - assert (Hz : whole 16 inp = 0%nat) by lia. rewrite Hz, drop_0.
    unfold whole in Hz. rewrite chunks_small; [done|].
    pose proof (Nat.div_mod_eq (length inp) 16). pose proof (Nat.mod_upper_bound (length inp) 16). lia.
Qed.

Lemma fill_is_tail block fill inp : (fill + length inp < 16)%nat -> length block = 16%nat ->
  (fill_while 16 block fill inp).1 = tail_while block fill inp.
Proof.
  intros Hf Hb. rewrite fill_while_spec, (tail_while_spec 16) by lia. cbn [fst].
  rewrite Nat.min_r, take_ge by lia. done.
Qed.

(** The second half of an update, from any block boundary or short buffer. *)
Lemma update_tail r pad h block fill inp total : length block = 16%nat ->
  (fill + length inp mod 16 < 16)%nat ->
  let '(h', inp') := compress_while 16 (step r) (length inp) h inp in
  (if (fill + length inp' <? 16)%nat then
     let '(block, fill, _) := fill_while 16 block fill inp' in Some (Poly r h' pad block fill)
   else None)
  = let '(block, fill) := tail_while block fill inp' in
    let s := MdCtx h' total fill block in Some (Poly r (md_h s) pad (md_block s) (md_fill s)).
Proof.
  intros Hb Hlt. rewrite compress_while_spec by lia. set (rest := drop _ inp).
  assert (Hr : length rest = (length inp mod 16)%nat).
  { subst rest. rewrite length_drop. unfold whole. pose proof (Nat.div_mod_eq (length inp) 16). lia. }
  destruct (Nat.ltb_spec (fill + length rest) 16); [|lia].
  rewrite <- fill_is_tail by lia. destruct (fill_while 16 block fill rest) as [[b f] i]. done.
Qed.

Lemma poly1305_update_md p m inp :
  absorbed 16 (step (p_r p)) zero5 (as_md p (u64 (Z.of_nat (length m)))) m ->
  let s := md_update 16 (step (p_r p)) (as_md p (u64 (Z.of_nat (length m)))) inp in
  poly1305_update p inp = Some (Poly (p_r p) (md_h s) (p_pad p) (md_block s) (md_fill s)).
Proof.
  intros (_ & Hf & Hb & _). unfold poly1305_update, md_update, as_md in *. cbn [md_h md_fill md_block md_total] in *.
  pose proof (Nat.mod_upper_bound (length m) 16).
  set (total := u64 (u64 _ + _)).
  destruct (Nat.ltb_spec 0 (p_fill p)) as [Hpos|Hz].
  - rewrite fill_while_spec by lia. set (k := Nat.min _ _).
    assert (Hsb : length (store_bytes (p_block p) (p_fill p) (take k inp)) = 16%nat)
      by (rewrite length_store_bytes; rewrite ?length_take; lia).
    destruct (Nat.eqb_spec (p_fill p + k) 16).
    + rewrite bulk_compress, blocks_one by exact Hsb.
      pose proof (update_tail (p_r p) (p_pad p) (step (p_r p) (p_h p) (store_bytes (p_block p) (p_fill p) (take k inp))) _ 0 (drop k inp)
        total Hsb ltac:(pose proof (Nat.mod_upper_bound (length (drop k inp)) 16); lia)) as HT.
      destruct (compress_while _ _ _ _ _) as [h' inp']. rewrite HT. destruct (tail_while _ _ _); done.
    + assert (Hd : drop k inp = []) by (apply drop_ge; lia). rewrite Hd, bulk_compress.
      pose proof (update_tail (p_r p) (p_pad p) (p_h p) _ (p_fill p + k) [] total Hsb
        ltac:(cbn; lia)) as HT.
      destruct (compress_while _ _ _ _ _) as [h' inp']. rewrite HT. destruct (tail_while _ _ _); done.
  - rewrite bulk_compress.
    pose proof (update_tail (p_r p) (p_pad p) (p_h p) (p_block p) (p_fill p) inp total Hb
      ltac:(pose proof (Nat.mod_upper_bound (length inp) 16); lia)) as HT.
    destruct (compress_while _ _ _ _ _) as [h' inp']. rewrite HT. destruct (tail_while _ _ _); done.
Qed.

(** [p] was initialised under [key] and has absorbed [m]. *)
Definition poly_absorbed (key : list Z) (p : poly1305) (m : list Z) : Prop :=
  p_r p = p_r (poly1305_init (p_block p) key) /\ p_pad p = p_pad (poly1305_init (p_block p) key) /\
  absorbed 16 (step (p_r p)) zero5 (as_md p (u64 (Z.of_nat (length m)))) m.

Lemma poly1305_init_absorbed block key : length block = 16%nat ->
  poly_absorbed key (poly1305_init block key) [].
Proof. intros. split; [done|split; [done|]]. apply absorbed_init; [lia|done]. Qed.

Lemma poly1305_update_absorbs key p m inp : poly_absorbed key p m ->
  exists p', poly1305_update p inp = Some p' /\ poly_absorbed key p' (m ++ inp).
Proof.
  intros (Hr & Hpad & Habs). rewrite (poly1305_update_md p m inp Habs).
  pose proof (md_update_absorbs 16 (step (p_r p)) ltac:(lia) zero5 _ m inp Habs) as H.
  eexists. split; [reflexivity|]. split; [done|split; [done|]]. cbn [p_r].
  destruct H as (H1 & H2 & H3 & H4 & H5). unfold as_md. cbn [p_h p_fill p_block].
  split_and!; done.
Qed.

(** *** The accumulator is the polynomial *)

Lemma acc_step r hb h m M : r_ok r -> h_ok h -> bytes_ok m -> length m = 16%nat ->
  hb = 0 \/ hb = 2 ^ 24 -> le_val m + hb * 2 ^ 104 = M ->
  h_ok (block_step r hb h m) /\
  val5 (block_step r hb h m) mod prime = ((val5 h mod prime + M) * val5 r) mod prime.
Proof.
  intros Hr Hh Hm Hl Hhb <-. destruct (block_step_spec r hb h m Hr Hh Hm Hl Hhb) as [Hok [k ->]].
  split; [done|]. replace (_ - k * prime) with
    ((val5 h + le_val m + hb * 2 ^ 104) * val5 r + (- k) * prime) by ring.
  rewrite Z_mod_plus_full, (Zmult_mod (val5 h mod _ + _)), Zplus_mod_idemp_l, <- Zmult_mod.
  by rewrite Z.add_assoc.
Qed.

Definition whole_block (m : list Z) : Prop := bytes_ok m /\ length m = 16%nat.

Lemma block_val_whole m : whole_block m -> le_val m + 2 ^ 24 * 2 ^ 104 = block_val m.
Proof. intros [Hm Hl]. unfold block_val. rewrite le_val_app, Hl. done. Qed.

Lemma acc_fold r l h : r_ok r -> h_ok h -> Forall whole_block l ->
  h_ok (foldl (step r) h l) /\
  val5 (foldl (step r) h l) mod prime
  = foldl (fun acc m => ((acc + block_val m) * val5 r) mod prime) (val5 h mod prime) l.
Proof.
  intros Hr Hh Hl. revert h Hh. induction Hl as [|m l Hm Hl IH]; intros h Hh; [done|].
  cbn [foldl]. destruct Hm as [Hmb Hml].
  destruct (acc_step r (2 ^ 24) h m (block_val m) Hr Hh Hmb Hml) as [Hok Heq].
  - by right.
  - by apply block_val_whole.
  - rewrite <- Heq. by apply IH.
Qed.

Lemma chunks_whole_block m : bytes_ok m -> Forall whole_block (chunks 16 m).
Proof.
  intros Hm. apply Forall_fmap, Forall_forall. intros i Hi%elem_of_seq. cbn. split.
  - by apply Forall_take, Forall_drop.
  - rewrite length_take, length_drop. pose proof (Nat.div_mod_eq (length m) 16). lia.
Qed.

Lemma spec_chunks_split fuel m : (length m <= fuel)%nat ->
  spec_chunks fuel m
  = chunks 16 m ++ (if (length m mod 16 =? 0)%nat then [] else [drop (whole 16 m) m]).
Proof.
  revert m. induction fuel as [|fuel IH]; intros m Hf.
  { destruct m; [|simpl in Hf; lia]. done. }
  destruct m as [|c m']; [done|]. set (m := c :: m') in *. change (spec_chunks (S fuel) m)
    with (take 16 m :: spec_chunks fuel (drop 16 m)).
  assert (Hpos : (0 < length m)%nat) by (subst m; cbn; lia). clearbody m. clear c m'.
  rewrite IH by (rewrite length_drop; lia). unfold whole. rewrite drop_drop, length_drop.
  destruct (Nat.le_gt_cases 16 (length m)) as [Hle|Hlt].
  - rewrite (chunks_cons 16 ltac:(lia) m Hle). cbn [app]. f_equal. f_equal.
    set (k := (length m - 16)%nat). replace (length m) with (k + 1 * 16)%nat by lia.
    rewrite Nat.Div0.mod_add, Nat.div_add by lia. case_match; [done|]. do 2 f_equal. lia.
  - rewrite !chunks_small by (rewrite ?length_drop; lia). cbn [app].
    rewrite (Nat.mod_small (length m)), (Nat.div_small (length m)), drop_0 by done.
    replace (length m - 16)%nat with 0%nat by lia. cbn [Nat.modulo Nat.eqb Nat.divmod].
    destruct (Nat.eqb_spec (length m) 0); [lia|]. by rewrite take_ge by lia.
Qed.

Lemma le_val_zeros n : le_val (replicate n 0) = 0.
Proof. induction n as [|n IH]; cbn [replicate le_val]; [done|lia]. Qed.

(** The padded last block of [poly1305_final]. *)
Lemma last_block block fill : (fill < 16)%nat -> length block = 16%nat -> bytes_ok (take fill block) ->
  let b := zero_while 16 (<[fill := 1]> block) (fill + 1) 16 in
  whole_block b /\ le_val b = block_val (take fill block).
Proof.
  intros Hf Hb Hok. rewrite (zero_while_spec 16) by (rewrite ?length_insert; lia).
  rewrite insert_store_bytes, (store_bytes_app _ _ [1]) by (rewrite ?length_replicate; cbn; lia).
  rewrite store_bytes_end, app_assoc by (rewrite length_app, length_replicate; cbn; lia). split; [split|].
  - apply Forall_app_2; [apply Forall_app_2; [done|by repeat constructor]|].
    apply Forall_replicate. done.
  - rewrite !length_app, length_take, length_replicate. cbn. lia.
  - rewrite le_val_app, le_val_zeros, Z.mul_0_r, Z.add_0_r. done.
Qed.

(** The accumulator [poly1305_final] reduces. *)
Definition final_acc (p : poly1305) : words5 :=
  if (0 <? p_fill p)%nat then
    blocks (p_r p) (p_h p) (zero_while 16 (<[p_fill p := 1]> (p_block p)) (p_fill p + 1) 16) 0
  else p_h p.

Lemma final_acc_spec key p m : bytes_ok key -> length key = POLY1305_KEY -> bytes_ok m ->
  poly_absorbed key p m ->
  h_ok (final_acc p) /\
  val5 (final_acc p) mod prime = spec_acc (key_r key) (spec_chunks (length m) m).
Proof.
  intros Hk Hkl Hm (Hr & _ & (Hh & Hf & Hb & Ht & _)).
  destruct (init_r (p_block p) key Hk Hkl) as [Hrok Hrv]. rewrite <- Hr in Hrok, Hrv.
  unfold as_md in *. cbn [md_h md_fill md_block] in *. rewrite spec_chunks_split by lia.
  unfold spec_acc. rewrite foldl_app, <- Hrv.
  assert (Hz : h_ok zero5) by (unfold h_ok; cbn; lia).
  destruct (acc_fold (p_r p) (chunks 16 m) zero5 Hrok Hz (chunks_whole_block m Hm)) as [Hok Hv].
  change (foldl _ zero5 (chunks 16 m)) with (md_blocks 16 (step (p_r p)) zero5 m) in Hok, Hv.
  rewrite <- Hh in Hok, Hv. change (val5 zero5 mod prime) with 0 in Hv. rewrite <- Hv.
  unfold final_acc. pose proof (Nat.mod_upper_bound (length m) 16).
  destruct (Nat.ltb_spec 0 (p_fill p)).
  - destruct (Nat.eqb_spec (length m mod 16) 0); [lia|]. cbn [foldl].
    destruct (last_block (p_block p) (p_fill p)) as [[Hlb Hll] Hlv]; [lia|done| |].
    { rewrite Ht. by apply Forall_drop. }
    rewrite Ht in Hlv. rewrite blocks_one by done.
    apply acc_step; [done|done|done|done|by left|lia].
  - destruct (Nat.eqb_spec (length m mod 16) 0); [done|lia].
Qed.

Lemma poly1305_final_tag key p m : bytes_ok key -> length key = POLY1305_KEY -> bytes_ok m ->
  poly_absorbed key p m -> poly1305_final p = Some (poly1305_spec key m).
Proof.
  intros Hk Hkl Hm Habs. pose proof Habs as (_ & Hpad & (_ & Hf & _)).
  destruct (final_acc_spec key p m Hk Hkl Hm Habs) as [Hok Hv]. unfold as_md in Hf. cbn in Hf.
  pose proof (Nat.mod_upper_bound (length m) 16). unfold poly1305_final.
  destruct (Nat.ltb_spec (p_fill p) 16); [|lia]. fold (final_acc p). apply (f_equal Some).
  destruct (full_carry_spec (final_acc p) Hok) as [Hfok [k Hfv]].
  destruct (reduce_select_spec _ Hfok) as [Hsok Hsv].
  destruct (init_pad (p_block p) key Hk Hkl) as (Hpw & Hpl & Hps). rewrite <- Hpad in Hpw, Hpl, Hps.
  destruct (add_pad_spec _ _ Hsok Hpw Hpl) as (a & b & c & d & -> & Hw & Hsum).
  cbn zeta in Hps. rewrite store_words, Hsum, Hps, Hsv, Hfv by done.
  replace (val5 (final_acc p) - k * prime) with (val5 (final_acc p) + (- k) * prime) by ring.
  rewrite Z_mod_plus_full, Hv. apply (le_bytes_mod 16).
Qed.

(** [p] updated with each input in turn. *)
Definition poly1305_updates (p : poly1305) (inputs : list (list Z)) : option poly1305 :=
  foldl (fun o inp => p ← o; poly1305_update p inp) (Some p) inputs.

Lemma poly1305_updates_absorb inputs : forall key p m, poly_absorbed key p m ->
  exists p', poly1305_updates p inputs = Some p' /\ poly_absorbed key p' (m ++ concat inputs).
Proof.
  induction inputs as [|inp inputs IH]; intros key p m Hp.
  - exists p. cbn. by rewrite app_nil_r.
  - destruct (poly1305_update_absorbs key p m inp Hp) as (p1 & Hp1 & Ha).
    destruct (IH key p1 _ Ha) as (p2 & Hp2 & Ha2). exists p2.
    unfold poly1305_updates in *. cbn [foldl concat mbind option_bind]. rewrite Hp1, app_assoc. done.
Qed.

(** ** Properties *)

(** C19. Equivalence: for every 32-byte key, every message, every way of cutting
    it into updates and every initial content of the block buffer, no assertion
    of the Poly1305 code fails and the tag is RFC 8439's: the clamped key's
    polynomial over the 17-byte blocks modulo 2^130 - 5, plus the key's second
    half, modulo 2^128. *)
Theorem poly1305_is_rfc8439 (key block : list Z) (inputs : list (list Z))
    (Hkey : bytes_ok key) (Hlen : length key = POLY1305_KEY)
    (Hblock : length block = 16%nat) (Hin : bytes_ok (concat inputs)) :
  (poly1305_updates (poly1305_init block key) inputs ≫= poly1305_final)
  = Some (poly1305_spec key (concat inputs)).
Proof.
  destruct (poly1305_updates_absorb inputs key _ [] (poly1305_init_absorbed block key Hblock)) as (p & -> & Hp).
  by apply (poly1305_final_tag key p).
Qed.

Lemma poly1305_is_rfc8439_witness :
  (poly1305_updates (poly1305_init (replicate 16 9) (replicate 32 7)) [[1; 2]; [3]] ≫= poly1305_final)
  = Some (poly1305_spec (replicate 32 7) [1; 2; 3]).
Proof.
  refine (poly1305_is_rfc8439 (replicate 32 7) (replicate 16 9) [[1; 2]; [3]] _ eq_refl eq_refl _);
    cbn; repeat constructor; discriminate.
Defined.

(** The tag is 16 bytes. *)
Lemma poly1305_spec_shape key m :
  length (poly1305_spec key m) = POLY1305_TAG /\ bytes_ok (poly1305_spec key m).
Proof. split; [apply length_le_bytes|apply le_bytes_ok]. Qed.
End Poly1305.
