(* ===== verification/Drbg.v ===== *)
(** * The fast-key-erasure generator: src/src/drbg.c, drbg.h

    The file's two globals as a state, its seed and its byte generator.  [None]
    is a failed [CH_ASSERT]. *)

From S2P Require Import Prelude MdHash Sha256 Chacha20.
Import Sha256 Chacha20.
Local Open Scope Z_scope.
Local Open Scope word_scope.

Module Drbg.

Definition CH_DRBG_SEED_MIN : nat := 32.

Record drbg := DrbgState { g_key : list Z; g_seeded : bool }.

(** [sha256_final] writes the digest straight into [g_key]. *)
Definition ch_drbg_seed (g : drbg) (seed : list Z) : option drbg :=
  if (CH_DRBG_SEED_MIN <=? length seed)%nat then
    let s := sha256_init (replicate SHA256_BLOCK 0) in
    let s := sha256_update s seed in
    Some (DrbgState (sha256_final s).1 true)
  else None.

Definition nonce : list Z := replicate CHACHA20_NONCE 0.

(** The [while (n > 0)] loop: every round hands out at least one byte, so [n]
    is enough fuel. *)
Fixpoint rand_while (fuel : nat) (key block : list Z) (have off : nat) (counter : Z) (n : nat) : list Z :=
  match fuel with
  | O => []
  | S fuel =>
      if (0 <? n)%nat then
        let '(block, counter, off, have) :=
          if (have =? 0)%nat then (chacha20_block key nonce counter, counter +32 1, 0%nat, CHACHA20_BLOCK)
          else (block, counter, off, have) in
        let k := if (n <? have)%nat then n else have in
        take k (drop off block) ++ rand_while fuel key block (have - k) (off + k) counter (n - k)
      else []
  end.

Definition ch_rand_bytes (g : drbg) (n : nat) : option (drbg * list Z) :=
  if g_seeded g then
    let block := chacha20_block (g_key g) nonce 0 in
    let next := take CHACHA20_KEY block in
    let have := (CHACHA20_BLOCK - CHACHA20_KEY)%nat in
    let off := CHACHA20_KEY in
    let out := rand_while n (g_key g) block have off 1 n in
    Some (DrbgState next true, out)
  else None.

(** ** Reference: one keystream per request *)

(** The first [32 + n] bytes of the ChaCha20 stream under the key. *)
Definition request_stream (key : list Z) (n : nat) : list Z :=
  take (32 + n) (keystream key nonce 0 (S (blocks_for n))).

#[local] Opaque chacha20_block sha256_final sha256_update sha256_of.

Lemma rand_while_spec fuel key block have off counter n k :
  length block = 64%nat -> (off + have = 64)%nat -> (n <= fuel)%nat -> u32_ok counter ->
  (n <= have + k * 64)%nat ->
  rand_while fuel key block have off counter n = take n (drop off block ++ keystream key nonce counter k).
Proof.
  revert block have off counter n k. induction fuel as [|fuel IH]; intros block have off counter n k Hb Hoh Hf Hc Hk;
    cbn [rand_while].
  { replace n with 0%nat by lia. by rewrite take_0. }
  destruct (Nat.ltb_spec 0 n) as [Hn|Hn]; [|replace n with 0%nat by lia; by rewrite take_0].
  destruct (Nat.eqb_spec have 0) as [->|Hh].
  - destruct k as [|k]; [lia|]. rewrite (drop_ge block), keystream_S, (u32_small counter) by (done || lia). cbn [app].
    rewrite <- (setup_wrap key nonce (counter + 1)). set (b := chacha20_block key nonce counter).
    assert (Hbl : length b = 64%nat) by apply length_chacha20_block. unfold CHACHA20_BLOCK.
    destruct (Nat.ltb_spec n 64).
    + rewrite (IH _ _ _ _ _ 0%nat) by (try apply u32_range; lia). rewrite drop_0, Nat.sub_diag, take_0, app_nil_r.
      by rewrite take_app_le by lia.
    + rewrite (IH _ _ _ _ _ k) by (try apply u32_range; lia). rewrite drop_0, (take_ge b), (drop_ge b), (take_app_ge b) by lia.
      by rewrite Hbl.
  - assert (Hd : length (drop off block) = have) by (rewrite length_drop; lia).
    destruct (Nat.ltb_spec n have).
    + rewrite (IH _ _ _ _ _ 0%nat) by (done || lia). rewrite Nat.sub_diag, take_0, app_nil_r.
      by rewrite take_app_le by lia.
    + rewrite (IH _ _ _ _ _ k) by (done || lia). rewrite (take_ge (drop off block)), (drop_ge block (off + have)) by lia.
      rewrite (take_app_ge (drop off block)) by lia. by rewrite Hd.
Qed.

Lemma ch_rand_bytes_spec key n :
  ch_rand_bytes (DrbgState key true) n
  = Some (DrbgState (take 32 (request_stream key n)) true, drop 32 (request_stream key n)).
Proof.
  unfold ch_rand_bytes, request_stream. cbn [g_seeded g_key]. rewrite keystream_S. change (u32 0) with 0.
  change (0 + 1) with 1.
  assert (Hb : length (chacha20_block key nonce 0) = 64%nat) by apply length_chacha20_block.
  rewrite (rand_while_spec n key _ _ _ _ _ (blocks_for n)); unfold CHACHA20_BLOCK, CHACHA20_KEY;
    [|done|lia|lia|done|pose proof (blocks_for_enough n); lia].
  set (ks := keystream key nonce 1 _). set (b := chacha20_block key nonce 0) in *.
  rewrite take_take, Nat.min_l by lia. rewrite (take_app_le b ks 32), skipn_firstn_comm, (drop_app_le b ks 32) by lia.
  by replace (32 + n - 32)%nat with n by lia.
Qed.

(** Requests in turn. *)
Fixpoint requests (g : drbg) (ns : list nat) : option (drbg * list (list Z)) :=
  match ns with
  | [] => Some (g, [])
  | n :: ns => r ← ch_rand_bytes g n; rest ← requests r.1 ns; Some (rest.1, r.2 :: rest.2)
  end.

(** The keys a run goes through: each is the first 32 bytes of the stream of
    the one before. *)
Fixpoint run_keys (key : list Z) (ns : list nat) : list (list Z) :=
  match ns with [] => [] | n :: ns => key :: run_keys (take 32 (request_stream key n)) ns end.

Lemma requests_spec ns : forall key, exists key',
  requests (DrbgState key true) ns
  = Some (DrbgState key' true, zip_with (fun k n => drop 32 (request_stream k n)) (run_keys key ns) ns).
Proof.
  induction ns as [|n ns IH]; intros key; cbn [requests run_keys zip_with]; [eauto|].
  rewrite ch_rand_bytes_spec. cbn [mbind option_bind fst snd].
  destruct (IH (take 32 (request_stream key n))) as [key' ->]. eauto.
Qed.

(** ** Properties *)

(** Functional: after a seed of at least 32 bytes the generator key is the
    seed's SHA-256, and any sequence of requests succeeds: request [i] gets the
    bytes after the first 32 of the ChaCha20 stream under the key as it was,
    and those first 32 bytes, never handed out, become the next key.  A short
    seed and a request before any seed fail an assertion. *)
Theorem drbg_fast_key_erasure (g : drbg) (seed : list Z) (ns : list nat) :
  (if (32 <=? length seed)%nat then
     exists key', (g' ← ch_drbg_seed g seed; requests g' ns)
     = Some (DrbgState key' true,
             zip_with (fun k n => drop 32 (request_stream k n)) (run_keys (sha256_spec seed) ns) ns)
   else ch_drbg_seed g seed = None) /\
  (forall key n, ch_rand_bytes (DrbgState key false) n = None).
Proof.
  split; [|done]. unfold ch_drbg_seed, CH_DRBG_SEED_MIN. destruct (32 <=? length seed)%nat; [|done].
  cbn [mbind option_bind]. rewrite (sha256_final_digest _ seed); [apply requests_spec|].
  apply (update_absorbs _ []), sha256_init_absorbed, length_replicate.
Qed.

(** Bounds: a request of [n] bytes gets exactly [n] bytes, which with the
    next key are disjoint consecutive parts of one keystream; the next key has
    32 bytes, so the generator stays usable. *)
Theorem drbg_request_shape (key : list Z) (n : nat) :
  exists next out, ch_rand_bytes (DrbgState key true) n = Some (DrbgState next true, out) /\
    length next = CHACHA20_KEY /\ length out = n /\ bytes_ok next /\ bytes_ok out /\
    next ++ out = take (32 + n) (keystream key nonce 0 (S (blocks_for n))).
Proof.
  rewrite ch_rand_bytes_spec. do 2 eexists. split; [reflexivity|]. unfold request_stream.
  pose proof (blocks_for_enough n). pose proof (length_keystream key nonce 0 (S (blocks_for n))).
  pose proof (keystream_ok key nonce 0 (S (blocks_for n))).
  rewrite take_drop, !length_take, length_drop, length_take. unfold CHACHA20_KEY.
  split_and!; [lia|lia|by apply Forall_take, Forall_take|by apply Forall_drop, Forall_take|done].
Qed.
End Drbg.
