(* ===== verification/Pem.v ===== *)
(** * PEM armor: src/src/base64.c, base64.h, pem.c, pem.h

    The constant-time base64 classifier and the RFC 7468 decoder over the byte
    cursors.  The decoder is shown to accept exactly the armored forms of its
    output, with CR and LF allowed anywhere in the body. *)

From S2P Require Import Prelude Ct Buf Reader.
Local Open Scope Z_scope.
Local Open Scope word_scope.

Module Pem.

(** ** base64.c *)

Definition BASE64_PAD : Z := 64.
Definition BASE64_CR : Z := 65.
Definition BASE64_LF : Z := 66.
Definition BASE64_DASH : Z := 67.
Definition BASE64_INVALID : Z := 68.

Definition range_mask (c lo hi : Z) : Z :=
  let outside := ((c -32 lo) .| (hi -32 c)) >> 31 in
  outside -32 1.

Definition base64_class (c : Z) : Z :=
  let x := c in
  let upper := range_mask x 65 90 in
  let lower := range_mask x 97 122 in
  let digit := range_mask x 48 57 in
  let plus := range_mask x 43 43 in
  let slash := range_mask x 47 47 in
  let pad := range_mask x 61 61 in
  let cr := range_mask x 13 13 in
  let lf := range_mask x 10 10 in
  let dash := range_mask x 45 45 in
  let value := (upper .& (x -32 65)) .| (lower .& ((x -32 97) +32 26)) .| (digit .& ((x -32 48) +32 52))
               .| (plus .& 62) .| (slash .& 63) in
  let other := (pad .& BASE64_PAD) .| (cr .& BASE64_CR) .| (lf .& BASE64_LF) .| (dash .& BASE64_DASH) in
  let known := upper .| lower .| digit .| plus .| slash .| pad .| cr .| lf .| dash in
  let invalid := not32 known .& BASE64_INVALID in
  u8 (value .| other .| invalid).

(** ** pem.c *)

Inductive pem_label :=
  | PEM_LABEL_CERTIFICATE | PEM_LABEL_PRIVATE_KEY | PEM_LABEL_EC_PRIVATE_KEY | PEM_LABEL_EC_PARAMETERS.

Definition begin_prefix : list Z := str "-----BEGIN ".
Definition end_prefix : list Z := str "-----END ".
Definition boundary_dashes : list Z := str "-----".
Definition labels (label : pem_label) : list Z :=
  match label with
  | PEM_LABEL_CERTIFICATE => str "CERTIFICATE"
  | PEM_LABEL_PRIVATE_KEY => str "PRIVATE KEY"
  | PEM_LABEL_EC_PRIVATE_KEY => str "EC PRIVATE KEY"
  | PEM_LABEL_EC_PARAMETERS => str "EC PARAMETERS"
  end.

Definition match_bytes (r : rbuf) (want : list Z) : bool * rbuf :=
  let n := length want in
  match rb_bytes r n with
  | (None, r) => (false, r)
  | (Some got, r) => (negb (ct_memeq got want n =? 0), r)
  end.

(** [a && b] of two reads: the second runs only if the first succeeds. *)
Definition and_then (x : bool * rbuf) (f : rbuf -> bool * rbuf) : bool * rbuf :=
  let '(ok, r) := x in if ok then f r else (false, r).

Definition match_line (r : rbuf) (prefix : list Z) (label : pem_label) : bool * rbuf :=
  and_then (match_bytes r prefix) (fun r =>
  and_then (match_bytes r (labels label)) (fun r => match_bytes r boundary_dashes)).

Definition read_eol (r : rbuf) : bool * rbuf :=
  let '(c, r) := rb_u8 r in
  if r_err r then (false, r)
  else if (c =? 13) then
    let '(c, r) := rb_u8 r in
    if r_err r then (false, r) else (c =? 10, r)
  else (c =? 10, r).

Record base64_state := B64 { acc : Z; nbits : Z; pos : Z; npad : Z; seen : Z }.

Definition pad_ok (s : base64_state) : bool := (npad s <? 2) && ((pos s =? 2) || (pos s =? 3)).

Definition base64_step (s : base64_state) (w : wbuf) (v : Z) : bool * base64_state * wbuf :=
  if (v =? BASE64_PAD) then
    if negb (pad_ok s) then (false, s, w)
    else (true, B64 (acc s) (nbits s) ((pos s +32 1) .& 3) (npad s +32 1) (seen s), w)
  else if (BASE64_PAD <=? v) || negb (npad s =? 0) then (false, s, w)
  else
    let acc := (acc s <<32 6) .| v in
    let nbits := nbits s +32 6 in
    let pos := (pos s +32 1) .& 3 in
    if (8 <=? nbits) then
      let nbits := nbits -32 8 in
      (true, B64 acc nbits pos (npad s) 1, wb_u8 w (u8 ((acc >> nbits) .& 0xFF)))
    else (true, B64 acc nbits pos (npad s) 1, w).

Definition body_ok (w : wbuf) (s : base64_state) : bool :=
  if (seen s =? 0) || negb (pos s =? 0) then false
  else
    let unused := acc s .& ((1 <<32 nbits s) -32 1) in
    (unused =? 0) && negb (w_err w).

(** [while (rb_left(r) != 0)], with the bytes left as fuel. *)
Fixpoint body_loop (fuel : nat) (r : rbuf) (w : wbuf) (s : base64_state)
    : bool * rbuf * wbuf * base64_state :=
  match fuel with
  | O => (false, r, w, s)
  | S fuel =>
      if (rb_left r =? 0)%nat then (false, r, w, s)
      else
        let '(c, r) := rb_u8 r in
        let v := base64_class c in
        if (v =? BASE64_DASH) then (true, r, w, s)
        else if (v =? BASE64_CR) || (v =? BASE64_LF) then body_loop fuel r w s
        else
          let '(ok, s, w) := base64_step s w v in
          if negb ok then (false, r, w, s) else body_loop fuel r w s
  end.

Definition decode_body (r : rbuf) (w : wbuf) : bool * rbuf * wbuf :=
  let s := B64 0 0 0 0 0 in
  let '(ok, r, w, s) := body_loop (S (rb_left r)) r w s in
  (ok && body_ok w s, r, w).

Fixpoint read_tail (fuel : nat) (r : rbuf) : bool * rbuf :=
  match fuel with
  | O => (negb (r_err r), r)
  | S fuel =>
      if (rb_left r =? 0)%nat then (negb (r_err r), r)
      else
        let '(c, r) := rb_u8 r in
        if negb (c =? 13) && negb (c =? 10) then (false, r) else read_tail fuel r
  end.

Definition pem_read_block (r : rbuf) (label : pem_label) (der : wbuf) : bool * rbuf * wbuf :=
  let '(ok, r) := and_then (match_line r begin_prefix label) read_eol in
  if negb ok then (false, r, der)
  else
    let '(ok, r, der) := decode_body r der in
    if negb ok then (false, r, der)
    else let '(ok, r) := match_line r (drop 1 end_prefix) label in (ok, r, der).

(** Peeks: the caller's reader does not move. *)
Definition pem_begins_boundary (r : rbuf) : bool := (match_bytes r begin_prefix).1.

Definition pem_decode_one (pem : list Z) (label : pem_label) (der : wbuf) : bool * wbuf :=
  let r := rb_init pem (length pem) in
  let '(ok, r, der) := pem_read_block r label der in
  if ok then ((read_tail (S (rb_left r)) r).1, der) else (false, der).

Section Certificate.
(** The build's certificate buffer. *)
Variable CH_X509_MAX : nat.
Definition CH_PEM_BODY_MAX : nat := 4 * ((CH_X509_MAX + 2) / 3).
Definition CH_PEM_MAX : nat := CH_PEM_BODY_MAX + CH_PEM_BODY_MAX / 4 * 2 + 64.

(** [None] is CH_EINVAL; [Some] holds the [der_len] bytes written. *)
Definition pem_decode_certificate (pem der : list Z) : option (list Z) :=
  if (CH_PEM_MAX <? length pem)%nat then None
  else
    let w := wb_init der CH_X509_MAX in
    let '(ok, w) := pem_decode_one pem PEM_LABEL_CERTIFICATE w in
    if negb ok then None else Some (take (w_len w) (w_p w)).
End Certificate.

(** ** Reference: RFC 4648 section 4 and RFC 7468 *)

(** The character of a six-bit value; 64 is the pad. *)
Definition b64_char (v : Z) : Z :=
  if (v <? 26) then 65 + v else if (v <? 52) then 97 + (v - 26) else if (v <? 62) then 48 + (v - 52)
  else if (v =? 62) then 43 else if (v =? 63) then 47 else 61.

Fixpoint enc (d : list Z) : list Z :=
  match d with
  | [] => []
  | [a] => [a / 4; a mod 4 * 16; 64; 64]
  | [a; b] => [a / 4; a mod 4 * 16 + b / 16; b mod 16 * 4; 64]
  | a :: b :: c :: d => [a / 4; a mod 4 * 16 + b / 16; b mod 16 * 4 + c / 64; c mod 64] ++ enc d
  end.
Definition base64 (d : list Z) : list Z := b64_char <$> enc d.

Definition is_eol_char (c : Z) : bool := (c =? 13) || (c =? 10).

(** The text of one block, with its line breaks. *)
Definition block_text (label : pem_label) (eol body : list Z) : list Z :=
  str "-----BEGIN " ++ labels label ++ str "-----" ++ eol ++ body
  ++ str "-----END " ++ labels label ++ str "-----".
Definition eol_ok (eol : list Z) : Prop := eol = [10] \/ eol = [13; 10].
(** [body] is the base64 of [d] with CR and LF anywhere. *)
Definition body_of (d body : list Z) : Prop := List.filter (fun c => negb (is_eol_char c)) body = base64 d.

Example pem_small :
  pem_decode_one (str "-----BEGIN EC PARAMETERS-----" ++ [13; 10] ++ str "BggqhkjO" ++ [10] ++ str "PQMBBw=="
    ++ [13; 10] ++ str "-----END EC PARAMETERS-----" ++ [10]) PEM_LABEL_EC_PARAMETERS (wb_init (replicate 12 0) 12)
  = (true, Wbuf [0x06; 0x08; 0x2a; 0x86; 0x48; 0xce; 0x3d; 0x03; 0x01; 0x07; 0; 0] 12 10 false).
Proof. vm_compute. reflexivity. Qed.

(** The documented table of [base64_class]. *)
Definition class_table (c : Z) : Z :=
  if (65 <=? c) && (c <=? 90) then c - 65 else if (97 <=? c) && (c <=? 122) then c - 97 + 26
  else if (48 <=? c) && (c <=? 57) then c - 48 + 52 else if (c =? 43) then 62 else if (c =? 47) then 63
  else if (c =? 61) then BASE64_PAD else if (c =? 13) then BASE64_CR else if (c =? 10) then BASE64_LF
  else if (c =? 45) then BASE64_DASH else BASE64_INVALID.

(** ** Lemmas: the classifier *)

Ltac by_bytes f := intros; apply (forallb_below 256 f); [vm_compute; reflexivity | unfold byte_ok in *; lia].

Lemma base64_class_table c : byte_ok c -> base64_class c = class_table c.
Proof. intros. apply Z.eqb_eq. revert H. by_bytes (fun c => base64_class c =? class_table c). Qed.

Lemma class_dash c : byte_ok c -> (base64_class c =? BASE64_DASH) = (c =? 45).
Proof. intros. apply eqb_true_iff. revert H. by_bytes (fun c => eqb (base64_class c =? BASE64_DASH) (c =? 45)). Qed.

Lemma class_eol c : byte_ok c ->
  (base64_class c =? BASE64_CR) || (base64_class c =? BASE64_LF) = is_eol_char c.
Proof.
  intros. apply eqb_true_iff. revert H.
  by_bytes (fun c => eqb ((base64_class c =? BASE64_CR) || (base64_class c =? BASE64_LF)) (is_eol_char c)).
Qed.

Lemma class_nonneg c : byte_ok c -> 0 <= base64_class c.
Proof. intros. apply Z.leb_le. revert H. by_bytes (fun c => 0 <=? base64_class c). Qed.

(** Alphabet characters and the pad are determined by their class. *)
Lemma class_char c : byte_ok c -> base64_class c <= 64 -> c = b64_char (base64_class c).
Proof.
  intros Hc Hv. assert (H : implb (base64_class c <=? 64) (c =? b64_char (base64_class c)) = true)
    by (revert Hc; by_bytes (fun c => implb (base64_class c <=? 64) (c =? b64_char (base64_class c)))).
  rewrite (proj2 (Z.leb_le _ _) Hv) in H. by apply Z.eqb_eq.
Qed.

Lemma char_class v : 0 <= v <= 64 ->
  byte_ok (b64_char v) /\ base64_class (b64_char v) = v /\ is_eol_char (b64_char v) = false /\ b64_char v <> 45.
Proof.
  intros Hv.
  assert (H : (0 <=? b64_char v) && (b64_char v <? 256) && (base64_class (b64_char v) =? v)
              && negb (is_eol_char (b64_char v)) && negb (b64_char v =? 45) = true).
  { apply (forallb_below 65 (fun v => (0 <=? b64_char v) && (b64_char v <? 256) && (base64_class (b64_char v) =? v)
              && negb (is_eol_char (b64_char v)) && negb (b64_char v =? 45))); [vm_compute; reflexivity|lia]. }
  rewrite !andb_true_iff, !negb_true_iff, Z.leb_le, Z.ltb_lt, Z.eqb_eq, Z.eqb_neq in H. unfold byte_ok. tauto.
Qed.

(** ** Lemmas: the bit accumulator *)

(** The body so far, as six-bit values, against the bytes written and the
    state: whole groups [g], then an open or a padded last group. *)
Inductive b64_inv (g : list Z) : list Z -> list Z -> base64_state -> Prop :=
  | inv0 a sn : 0 <= a < 2 ^ 32 -> sn = (if (length g =? 0)%nat then 0 else 1) -> b64_inv g [] [] (B64 a 0 0 0 sn)
  | inv1 a x : 0 <= x < 64 -> a mod 2 ^ 6 = x -> 0 <= a < 2 ^ 32 -> b64_inv g [x] [] (B64 a 6 1 0 1)
  | inv2 a x y : 0 <= x < 64 -> 0 <= y < 64 -> a mod 2 ^ 4 = y mod 2 ^ 4 -> 0 <= a < 2 ^ 32 ->
      b64_inv g [x; y] [x * 4 + y / 16] (B64 a 4 2 0 1)
  | inv3 a x y z : 0 <= x < 64 -> 0 <= y < 64 -> 0 <= z < 64 -> a mod 2 ^ 2 = z mod 2 ^ 2 -> 0 <= a < 2 ^ 32 ->
      b64_inv g [x; y; z] [x * 4 + y / 16; y mod 16 * 16 + z / 4] (B64 a 2 3 0 1)
  | inv3p a x y : 0 <= x < 64 -> 0 <= y < 64 -> a mod 2 ^ 4 = y mod 2 ^ 4 -> 0 <= a < 2 ^ 32 ->
      b64_inv g [x; y; 64] [x * 4 + y / 16] (B64 a 4 3 1 1)
  | inv4p a x y z : 0 <= x < 64 -> 0 <= y < 64 -> 0 <= z < 64 -> a mod 2 ^ 2 = z mod 2 ^ 2 -> 0 <= a < 2 ^ 32 ->
      b64_inv g [x; y; z; 64] [x * 4 + y / 16; y mod 16 * 16 + z / 4] (B64 a 2 0 1 1)
  | inv4pp a x y : 0 <= x < 64 -> 0 <= y < 64 -> a mod 2 ^ 4 = y mod 2 ^ 4 -> 0 <= a < 2 ^ 32 ->
      b64_inv g [x; y; 64; 64] [x * 4 + y / 16] (B64 a 4 0 2 1).

(** Values read [vs], bytes written [out]. *)
Definition b64_reached (vs out : list Z) (s : base64_state) : Prop :=
  exists g p o, (length g mod 3 = 0)%nat /\ bytes_ok g /\ vs = enc g ++ p /\ out = g ++ o /\ b64_inv g p o s.

Lemma enc_app g d : (length g mod 3 = 0)%nat -> enc (g ++ d) = enc g ++ enc d.
Proof.
  intros Hg. pose proof (Nat.div_mod_eq (length g) 3) as E. rewrite Hg, Nat.add_0_r in E.
  revert E. generalize (length g / 3)%nat as n. intros n. revert g Hg. induction n as [|n IH]; intros g Hg E.
  - destruct g; [done|cbn in E; lia].
  - destruct g as [|a [|b [|c g]]]; cbn [length] in E; try lia.
    change (enc ((a :: b :: c :: g) ++ d)) with
      ([a / 4; a mod 4 * 16 + b / 16; b mod 16 * 4 + c / 64; c mod 64] ++ enc (g ++ d)).
    rewrite IH; [by rewrite app_assoc| |lia].
    replace (length g) with (n * 3)%nat by lia. by rewrite Nat.Div0.mod_mul.
Qed.

Lemma shift_in a v : 0 <= a < 2 ^ 32 -> 0 <= v < 64 ->
  (a <<32 6) .| v = (a mod 2 ^ 26) * 2 ^ 6 + v /\ 0 <= (a mod 2 ^ 26) * 2 ^ 6 + v < 2 ^ 32.
Proof.
  intros Ha Hv. unfold u32. rewrite shiftl_wrap by lia. change (32 - 6) with 26.
  rewrite <- Z.shiftl_mul_pow2, lor_shiftl_add', Z.shiftl_mul_pow2 by lia. dlia.
Qed.

(** The byte a step emits: eight bits of the accumulator above [n]. *)
Lemma emit_byte a n : 0 <= n -> u8 ((a >> n) .& 0xFF) = (a / 2 ^ n) mod 2 ^ 8.
Proof.
  intros Hn. rewrite Z.shiftr_div_pow2 by done. rewrite (land_mask 8) by done. unfold u8. by rewrite Zmod_mod.
Qed.

(** What a step writes: nothing or one byte. *)
Definition emitted (w : wbuf) (e : list Z) : wbuf := foldl wb_u8 w e.

(** An alphabet character at each open position. *)
Lemma step_value s w v : 0 <= v < 64 -> npad s = 0 -> 0 <= acc s < 2 ^ 32 -> 0 <= nbits s <= 6 -> 0 <= pos s <= 3 ->
  let a := (acc s mod 2 ^ 26) * 2 ^ 6 + v in
  base64_step s w v =
  (true, B64 a (if (nbits s <? 2) then nbits s + 6 else nbits s - 2) ((pos s + 1) mod 4) 0 1,
   if (nbits s <? 2) then w else wb_u8 w ((a / 2 ^ (nbits s - 2)) mod 2 ^ 8)).
Proof.
  intros Hv Hp Ha Hn Hpos a. unfold base64_step, BASE64_PAD. rewrite Hp.
  destruct (Z.eqb_spec v 64); [lia|]. destruct (Z.leb_spec 64 v); [lia|]. cbn [orb negb Z.eqb].
  destruct (shift_in (acc s) v Ha Hv) as [-> Hr]. fold a.
  rewrite (land_mask 2) by done. rewrite (u32_small (pos s + 1)), (u32_small (nbits s + 6)) by (unfold u32_ok; lia).
  change (2 ^ 2) with 4.
  destruct (Z.leb_spec 8 (nbits s + 6)), (Z.ltb_spec (nbits s) 2); try lia.
  - rewrite (u32_small (nbits s + 6 - 8)) by (unfold u32_ok; lia).
    replace (nbits s + 6 - 8) with (nbits s - 2) by lia. rewrite emit_byte by lia. done.
  - done.
Qed.

Lemma step_pad s w : base64_step s w 64 =
  if pad_ok s then (true, B64 (acc s) (nbits s) (u32 (pos s + 1) .& 3) (u32 (npad s + 1)) (seen s), w) else (false, s, w).
Proof. unfold base64_step, BASE64_PAD. cbn [Z.eqb Pos.eqb]. by destruct (pad_ok s). Qed.

Lemma step_rejects s w v : 64 < v \/ (v <> 64 /\ npad s <> 0) -> base64_step s w v = (false, s, w).
Proof.
  intros H. unfold base64_step, BASE64_PAD. destruct (Z.eqb_spec v 64); [lia|].
  destruct (Z.leb_spec 64 v); [done|]. destruct (Z.eqb_spec (npad s) 0); [lia|done].
Qed.

(** Every accepted character keeps the relation. *)
Lemma step_sound vs out s w v s' w' :
  0 <= v -> b64_reached vs out s -> base64_step s w v = (true, s', w') ->
  exists e, b64_reached (vs ++ [v]) (out ++ e) s' /\ bytes_ok e /\ w' = emitted w e.
Proof.
  intros Hv (g & p & o & Hg & Hgb & -> & -> & Hinv) Hstep.
  destruct (Z.lt_trichotomy v 64) as [Hlt|[->|Hgt]].
  - destruct (decide (npad s = 0)) as [Hp|Hp]; [|rewrite step_rejects in Hstep by lia; discriminate].
    destruct Hinv; cbn [npad] in Hp; try lia; rewrite step_value in Hstep by (cbn; lia);
      cbn [nbits pos acc] in Hstep; injection Hstep as <- <-.
    + exists []. split; [|done]. exists g, [v], []. rewrite !app_nil_r. split_and!; try done.
      constructor; dlia.
    + exists [x * 4 + v / 16]. split; [|split].
      * exists g, [x; v], [x * 4 + v / 16]. rewrite <- !app_assoc. split_and!; try done. constructor; dlia.
      * apply Forall_singleton. unfold byte_ok. dlia.
      * cbn. f_equal. dlia.
    + exists [y mod 16 * 16 + v / 4]. split; [|split].
      * exists g, [x; y; v], [x * 4 + y / 16; y mod 16 * 16 + v / 4]. rewrite <- !app_assoc. split_and!; try done.
        constructor; dlia.
      * apply Forall_singleton. unfold byte_ok. dlia.
      * cbn. f_equal. dlia.
    + exists [z mod 4 * 64 + v]. split; [|split].
      * exists (g ++ [x * 4 + y / 16; y mod 16 * 16 + z / 4; z mod 4 * 64 + v]), [], [].
        rewrite enc_app by done. cbn [enc]. rewrite <- !app_assoc, !app_nil_r. split_and!.
        -- rewrite length_app. cbn [length]. by rewrite Nat.Div0.add_mod, Hg.
        -- apply Forall_app_2; [done|]. repeat (constructor; [unfold byte_ok; dlia|]). constructor.
        -- cbn [app]. repeat (f_equal; []). f_equal; [dlia|f_equal; [dlia|f_equal; [dlia|f_equal; dlia]]].
        -- done.
        -- constructor; [dlia|]. rewrite length_app. cbn [length].
           destruct (Nat.eqb_spec (length g + 3) 0); [lia|done].
      * apply Forall_singleton. unfold byte_ok. dlia.
      * cbn. f_equal. dlia.
  - rewrite step_pad in Hstep. exists []. rewrite app_nil_r.
    destruct Hinv; cbn in Hstep; try discriminate; injection Hstep as <- <-; split; try done.
    + exists g, [x; y; 64], [x * 4 + y / 16]. rewrite <- !app_assoc. split_and!; try done. by constructor.
    + exists g, [x; y; z; 64], [x * 4 + y / 16; y mod 16 * 16 + z / 4]. rewrite <- !app_assoc. split_and!; try done.
      by constructor.
    + exists g, [x; y; 64; 64], [x * 4 + y / 16]. rewrite <- !app_assoc. split_and!; try done. by constructor.
  - rewrite step_rejects in Hstep by lia. discriminate.
Qed.

(** At the END line, an accepted state has read exactly the encoding of what it
    wrote. *)
Lemma body_ok_sound vs out s w : b64_reached vs out s -> body_ok w s = true ->
  vs = enc out /\ out <> [] /\ bytes_ok out /\ w_err w = false.
Proof.
  intros (g & p & o & Hg & Hgb & -> & -> & Hinv). unfold body_ok.
  destruct Hinv; cbn [seen pos acc nbits]; subst; cbn -[Z.land u32 enc]; try discriminate.
  - destruct (Nat.eqb_spec (length g) 0) as [|Hne]; cbn; [discriminate|].
    rewrite Z.land_0_r. cbn. rewrite negb_true_iff, !app_nil_r. intros ->. split_and!; try done. by intros ->.
  - change (u32 (u32 (Z.shiftl 1 2) - 1)) with (2 ^ 2 - 1). rewrite (land_mask 2) by done.
    rewrite andb_true_iff, Z.eqb_eq, negb_true_iff. intros [Hz ->]. split_and!; try done.
    + rewrite enc_app by done. cbn [enc]. f_equal. repeat (apply (f_equal2 cons); [dlia|]). done.
    + by destruct g.
    + apply Forall_app_2; [done|]. repeat (constructor; [unfold byte_ok; dlia|]). constructor.
  - change (u32 (u32 (Z.shiftl 1 4) - 1)) with (2 ^ 4 - 1). rewrite (land_mask 4) by done.
    rewrite andb_true_iff, Z.eqb_eq, negb_true_iff. intros [Hz ->]. split_and!; try done.
    + rewrite enc_app by done. cbn [enc]. f_equal. repeat (apply (f_equal2 cons); [dlia|]). done.
    + by destruct g.
    + apply Forall_app_2; [done|]. repeat (constructor; [unfold byte_ok; dlia|]). constructor.
Qed.

(** ** Lemmas: the body loop *)

Fixpoint run_steps (s : base64_state) (w : wbuf) (vs : list Z) : bool * base64_state * wbuf :=
  match vs with
  | [] => (true, s, w)
  | v :: vs => let '(ok, s, w) := base64_step s w v in if ok then run_steps s w vs else (false, s, w)
  end.

Lemma run_steps_sound vs' : forall vs out s w s' w', Forall (fun v => 0 <= v) vs' ->
  b64_reached vs out s -> run_steps s w vs' = (true, s', w') ->
  exists e, b64_reached (vs ++ vs') (out ++ e) s' /\ w' = emitted w e.
Proof.
  induction vs' as [|v vs' IH]; intros vs out s w s' w' Hpos Hr Hrun; cbn [run_steps] in Hrun.
  - injection Hrun as <- <-. exists []. by rewrite !app_nil_r.
  - apply Forall_cons in Hpos as [Hv Hpos].
    destruct (base64_step s w v) as [[[] s1] w1] eqn:E; [|discriminate].
    destruct (step_sound vs out s w v s1 w1 Hv Hr E) as (e1 & Hr1 & _ & ->).
    destruct (IH _ _ _ _ _ _ Hpos Hr1 Hrun) as (e & Hr2 & ->). exists (e1 ++ e).
    rewrite <- !app_assoc in Hr2. split; [done|]. unfold emitted. by rewrite foldl_app.
Qed.

(** The encoding of any bytes runs to an accepting state. *)
Lemma run_steps_app s w vs1 vs2 s1 w1 : run_steps s w vs1 = (true, s1, w1) ->
  run_steps s w (vs1 ++ vs2) = run_steps s1 w1 vs2.
Proof.
  revert s w. induction vs1 as [|v vs1 IH]; intros s w H; cbn in *; [by injection H as <- <-|].
  destruct (base64_step s w v) as [[[] s2] w2]; [|discriminate]. by apply IH.
Qed.

(** One character at each position of a group. *)
Lemma step_at0 a sn w v : 0 <= a < 2 ^ 32 -> 0 <= v < 64 ->
  exists a', 0 <= a' < 2 ^ 32 /\ a' mod 2 ^ 6 = v /\
    base64_step (B64 a 0 0 0 sn) w v = (true, B64 a' 6 1 0 1, w).
Proof. intros Ha Hv. rewrite step_value by (cbn; lia). cbn [acc]. eexists. split; [|split; [|reflexivity]]; dlia. Qed.

Lemma step_at1 a w x v : 0 <= a < 2 ^ 32 -> a mod 2 ^ 6 = x -> 0 <= v < 64 ->
  exists a', 0 <= a' < 2 ^ 32 /\ a' mod 2 ^ 4 = v mod 2 ^ 4 /\
    base64_step (B64 a 6 1 0 1) w v = (true, B64 a' 4 2 0 1, wb_u8 w (x * 4 + v / 16)).
Proof.
  intros Ha Hx Hv. rewrite step_value by (cbn; lia). cbn [acc nbits]. change (6 <? 2) with false. cbn [pos].
  eexists. split; [|split; [|do 2 f_equal; change (2 ^ (6 - 2)) with 16]]; [dlia|dlia|dlia].
Qed.

Lemma step_at2 a w y v : 0 <= a < 2 ^ 32 -> a mod 2 ^ 4 = y mod 2 ^ 4 -> 0 <= v < 64 ->
  exists a', 0 <= a' < 2 ^ 32 /\ a' mod 2 ^ 2 = v mod 2 ^ 2 /\
    base64_step (B64 a 4 2 0 1) w v = (true, B64 a' 2 3 0 1, wb_u8 w (y mod 16 * 16 + v / 4)).
Proof.
  intros Ha Hx Hv. rewrite step_value by (cbn; lia). cbn [acc nbits]. change (4 <? 2) with false. cbn [pos].
  eexists. split; [|split; [|do 2 f_equal; change (2 ^ (4 - 2)) with 4]]; [dlia|dlia|dlia].
Qed.

Lemma step_at3 a w z v : 0 <= a < 2 ^ 32 -> a mod 2 ^ 2 = z mod 2 ^ 2 -> 0 <= v < 64 ->
  exists a', 0 <= a' < 2 ^ 32 /\
    base64_step (B64 a 2 3 0 1) w v = (true, B64 a' 0 0 0 1, wb_u8 w (z mod 4 * 64 + v)).
Proof.
  intros Ha Hx Hv. rewrite step_value by (cbn; lia). cbn [acc nbits]. change (2 <? 2) with false. cbn [pos].
  eexists. split; [|do 2 f_equal; change (2 ^ (2 - 2)) with 1]; dlia.
Qed.

Lemma run_group a sn w x y z : 0 <= a < 2 ^ 32 -> byte_ok x -> byte_ok y -> byte_ok z ->
  exists a', 0 <= a' < 2 ^ 32 /\
  run_steps (B64 a 0 0 0 sn) w [x / 4; x mod 4 * 16 + y / 16; y mod 16 * 4 + z / 64; z mod 64]
  = (true, B64 a' 0 0 0 1, emitted w [x; y; z]).
Proof.
  intros Ha Hx Hy Hz. unfold byte_ok in *. cbn [run_steps].
  destruct (step_at0 a sn w (x / 4)) as (a1 & H1 & M1 & ->); [lia|dlia|].
  destruct (step_at1 a1 w (x / 4) (x mod 4 * 16 + y / 16) H1 M1) as (a2 & H2 & M2 & ->); [dlia|].
  destruct (step_at2 a2 (wb_u8 w (x / 4 * 4 + (x mod 4 * 16 + y / 16) / 16)) (x mod 4 * 16 + y / 16)
    (y mod 16 * 4 + z / 64) H2 M2) as (a3 & H3 & M3 & ->); [dlia|].
  match goal with |- context [base64_step _ ?w' _] =>
    destruct (step_at3 a3 w' (y mod 16 * 4 + z / 64) (z mod 64) H3 M3) as (a4 & H4 & ->); [dlia|] end.
  exists a4. split; [done|]. unfold emitted. cbn [foldl]. repeat f_equal; dlia.
Qed.

(** The encoding of any bytes runs to an accepting state. *)
Lemma run_enc n : forall d a sn w, (length d <= n)%nat -> bytes_ok d -> 0 <= a < 2 ^ 32 ->
  exists s', run_steps (B64 a 0 0 0 sn) w (enc d) = (true, s', emitted w d) /\
    (d <> [] \/ sn = 1 -> forall w', w_err w' = false -> body_ok w' s' = true).
Proof.
  induction n as [|n IH]; intros d a sn w Hn Hd Ha.
  { destruct d; [|cbn in Hn; lia]. eexists. split; [reflexivity|]. intros [H| ->] w' Hw; [done|].
    unfold body_ok. cbn. rewrite Z.land_0_r, Hw. done. }
  destruct d as [|x [|y [|z d]]].
  - eexists. split; [reflexivity|]. intros [H| ->] w' Hw; [done|].
    unfold body_ok. cbn. rewrite Z.land_0_r, Hw. done.
  - apply Forall_cons in Hd as [Hd _]. unfold byte_ok in Hd. cbn [enc run_steps].
    destruct (step_at0 a sn w (x / 4)) as (a1 & H1 & M1 & ->); [lia|dlia|].
    destruct (step_at1 a1 w (x / 4) (x mod 4 * 16) H1 M1) as (a2 & H2 & M2 & ->); [dlia|].
    rewrite !step_pad. cbn. eexists. split; [do 2 f_equal; dlia|].
    intros _ w' Hw. unfold body_ok. cbn -[Z.land u32]. rewrite Hw. change (u32 (u32 (Z.shiftl 1 4) - 1)) with (2 ^ 4 - 1).
    match goal with |- (if ?c then _ else _) = _ => change c with false end. cbn iota.
    rewrite (land_mask 4) by done. destruct (Z.eqb_spec (a2 mod 2 ^ 4) 0); [done|dlia].
  - rewrite !Forall_cons in Hd. destruct Hd as (Hx & Hd & _). unfold byte_ok in Hx, Hd. cbn [enc run_steps].
    destruct (step_at0 a sn w (x / 4)) as (a1 & H1 & M1 & ->); [lia|dlia|].
    destruct (step_at1 a1 w (x / 4) (x mod 4 * 16 + y / 16) H1 M1) as (a2 & H2 & M2 & ->); [dlia|].
    match goal with |- context [base64_step _ ?w' _] =>
      destruct (step_at2 a2 w' (x mod 4 * 16 + y / 16) (y mod 16 * 4) H2 M2) as (a3 & H3 & M3 & ->); [dlia|] end.
    rewrite !step_pad. cbn. eexists. split; [repeat f_equal; dlia|].
    intros _ w' Hw. unfold body_ok. cbn -[Z.land u32]. rewrite Hw. change (u32 (u32 (Z.shiftl 1 2) - 1)) with (2 ^ 2 - 1).
    match goal with |- (if ?c then _ else _) = _ => change c with false end. cbn iota.
    rewrite (land_mask 2) by done. destruct (Z.eqb_spec (a3 mod 2 ^ 2) 0); [done|dlia].
  - rewrite !Forall_cons in Hd. destruct Hd as (Hx & Hy & Hz & Hd).
    change (enc (x :: y :: z :: d)) with
      ([x / 4; x mod 4 * 16 + y / 16; y mod 16 * 4 + z / 64; z mod 64] ++ enc d).
    destruct (run_group a sn w x y z Ha Hx Hy Hz) as (a' & Ha' & Eg).
    rewrite (run_steps_app _ _ _ _ _ _ Eg). cbn [length] in Hn.
    destruct (IH d a' 1 (emitted w [x; y; z]) ltac:(lia) Hd Ha') as (s' & Es & Hok).
    exists s'. split; [exact Es|]. intros _. apply Hok. by right.
Qed.

(** The values of a body's characters, line breaks dropped. *)
Definition chars (body : list Z) : list Z := List.filter (fun c => negb (is_eol_char c)) body.
Definition values (body : list Z) : list Z := base64_class <$> chars body.

Lemma values_cons c body : values (c :: body) = (if is_eol_char c then [] else [base64_class c]) ++ values body.
Proof. unfold values, chars. cbn. by destruct (is_eol_char c). Qed.

(** The loop up to the first dash runs the steps on the values before it. *)
Lemma body_loop_dash fuel : forall r w s body rest, at_bytes r (body ++ 45 :: rest) ->
  Forall (fun c => c <> 45) body -> (length body < fuel)%nat ->
  let '(ok, s', w') := run_steps s w (values body) in
  exists r', body_loop fuel r w s = (ok, r', w', s') /\ (ok = true -> at_bytes r' rest).
Proof.
  induction fuel as [|fuel IH]; intros r w s body rest Hr Hb Hf; [lia|]. cbn [body_loop].
  rewrite (at_left _ _ Hr), length_app. cbn [length].
  destruct (Nat.eqb_spec (length body + S (length rest)) 0); [lia|].
  pose proof (at_bytes_ok _ _ Hr) as Hok. destruct body as [|c body].
  - destruct (rb_u8_at _ _ _ Hr) as (r' & -> & Hr'). rewrite class_dash by done. cbn. eauto.
  - destruct (rb_u8_at _ _ _ Hr) as (r' & -> & Hr'). apply Forall_cons in Hb as [Hc Hb].
    apply Forall_cons in Hok as [Hcb _]. rewrite class_dash, class_eol, values_cons by done.
    destruct (Z.eqb_spec c 45); [done|]. cbn [length] in Hf.
    destruct (is_eol_char c); cbn [app]; [apply IH; [done|done|lia]|]. cbn [run_steps].
    destruct (base64_step s w (base64_class c)) as [[[] s1] w1]; cbn [negb]; [apply IH; [done|done|lia]|].
    eexists. split; [reflexivity|done].
Qed.

Lemma body_loop_no_dash fuel : forall r w s l, at_bytes r l -> Forall (fun c => c <> 45) l ->
  exists r' w' s', body_loop fuel r w s = (false, r', w', s').
Proof.
  induction fuel as [|fuel IH]; intros r w s l Hr Hb; cbn [body_loop]; [eauto|].
  rewrite (at_left _ _ Hr). destruct l as [|c l]; [cbn; eauto|]. cbn [length Nat.eqb].
  pose proof (at_bytes_ok _ _ Hr) as Hok. apply Forall_cons in Hok as [Hcb _]. apply Forall_cons in Hb as [Hc Hb].
  destruct (rb_u8_at _ _ _ Hr) as (r' & -> & Hr'). rewrite class_dash, class_eol by done.
  destruct (Z.eqb_spec c 45); [done|]. destruct (is_eol_char c); [by eapply IH|].
  destruct (base64_step s w (base64_class c)) as [[[] s1] w1]; cbn [negb]; [by eapply IH|eauto].
Qed.

Lemma first_dash (l : list Z) : Forall (fun c => c <> 45) l \/
  exists body rest, l = body ++ 45 :: rest /\ Forall (fun c => c <> 45) body.
Proof.
  induction l as [|c l IH]; [by left|]. destruct (decide (c = 45)) as [->|Hc].
  - right. by exists [], l.
  - destruct IH as [IH|(body & rest & -> & IH)]; [left; by constructor|].
    right. exists (c :: body), rest. split; [done|by constructor].
Qed.

Lemma enc_range n : forall d, (length d <= n)%nat -> bytes_ok d -> Forall (fun v => 0 <= v <= 64) (enc d).
Proof.
  induction n as [|n IH]; intros d Hn Hd; [destruct d; [constructor|cbn in Hn; lia]|].
  destruct d as [|x [|y [|z d]]]; rewrite ?Forall_cons in Hd; unfold byte_ok in Hd; cbn [enc length] in *.
  - constructor.
  - repeat (constructor; [dlia|]). constructor.
  - repeat (constructor; [dlia|]). constructor.
  - repeat (constructor; [dlia|]). apply IH; [lia|apply Hd].
Qed.

(** A body whose values are an encoding is that encoding with line breaks. *)
Lemma values_body d body : bytes_ok body -> bytes_ok d -> values body = enc d <-> body_of d body.
Proof.
  intros Hb Hd. unfold values, body_of, base64, chars. pose proof (enc_range _ d (le_n _) Hd) as Hr.
  assert (Hc : bytes_ok (List.filter (fun c => negb (is_eol_char c)) body)).
  { apply Forall_forall. intros c Hin. rewrite Forall_forall in Hb. apply Hb.
    apply list_elem_of_In in Hin. apply filter_In in Hin as [Hin _]. by apply list_elem_of_In. }
  generalize dependent (List.filter (fun c => negb (is_eol_char c)) body). intros cs Hc. clear Hb. split.
  - intros E. rewrite <- E in Hr |- *. rewrite <- list_fmap_compose. rewrite <- (list_fmap_id cs) at 1. apply list_fmap_ext.
    intros i c Hi. unfold compose, id. assert (Hcb : byte_ok c) by (eapply Forall_lookup_1; done).
    apply class_char; [done|]. rewrite Forall_fmap in Hr. eapply Forall_lookup_1 in Hr; [|exact Hi]. cbn in Hr. lia.
  - intros ->. rewrite <- list_fmap_compose. rewrite <- (list_fmap_id (enc d)) at 2. apply list_fmap_ext.
    intros i v Hi. unfold compose, id. eapply Forall_lookup_1 in Hr; [|exact Hi]. by apply char_class.
Qed.

Lemma body_no_dash d body : bytes_ok d -> body_of d body -> Forall (fun c => c <> 45) body.
Proof.
  intros Hd Hbody. apply Forall_forall. intros c Hc ->.
  assert (Hin : In 45 (List.filter (fun c => negb (is_eol_char c)) body)).
  { apply filter_In. split; [by apply list_elem_of_In|done]. }
  unfold body_of, base64 in Hbody. rewrite Hbody in Hin. apply list_elem_of_In, list_elem_of_fmap in Hin as (v & Hv & Hin).
  pose proof (enc_range _ d (le_n _) Hd) as Hr. rewrite Forall_forall in Hr. apply Hr in Hin.
  destruct (char_class v Hin) as (_ & _ & _ & Hne). congruence.
Qed.

(** ** Lemmas: lines and blocks *)

Lemma reached_init : b64_reached [] [] (B64 0 0 0 0 0).
Proof. exists [], [], []. split_and!; try done. by constructor. Qed.

Lemma decode_body_sound r w l r' w' : at_bytes r l -> decode_body r w = (true, r', w') ->
  exists body d rest, l = body ++ 45 :: rest /\ body_of d body /\ d <> [] /\ bytes_ok d /\
    w' = emitted w d /\ w_err w' = false /\ at_bytes r' rest.
Proof.
  intros Hr Hd. unfold decode_body in Hd. rewrite (at_left _ _ Hr) in Hd.
  destruct (first_dash l) as [Hno|(body & rest & -> & Hnd)].
  { destruct (body_loop_no_dash (S (length l)) r w (B64 0 0 0 0 0) l Hr Hno) as (? & ? & ? & E).
    rewrite E in Hd. discriminate. }
  pose proof (body_loop_dash (S (length (body ++ 45 :: rest))) r w (B64 0 0 0 0 0) body rest Hr Hnd) as HL.
  rewrite length_app in HL at 1. specialize (HL ltac:(lia)).
  destruct (run_steps _ w (values body)) as [[ok s1] w1] eqn:Erun. destruct HL as (r1 & EL & Hat).
  rewrite EL in Hd. injection Hd as Hok -> ->. apply andb_true_iff in Hok as [-> Hbok].
  pose proof (at_bytes_ok _ _ Hr) as Hl. apply Forall_app in Hl as [Hbb _].
  destruct (run_steps_sound (values body) [] [] (B64 0 0 0 0 0) w s1 w') as (d & Hreach & Hw); [|exact reached_init|exact Erun|].
  { unfold values. rewrite Forall_fmap. eapply Forall_impl; [|intros c Hc; exact (class_nonneg c Hc)].
    apply Forall_forall. intros c Hin. rewrite Forall_forall in Hbb. apply Hbb.
    apply list_elem_of_In in Hin. apply filter_In in Hin as [Hin _]. by apply list_elem_of_In. }
  cbn [app] in Hreach. destruct (body_ok_sound _ _ _ _ Hreach Hbok) as (Hv & Hne & Hdb & Herr).
  exists body, d, rest. split_and!; try done; [by apply values_body|by apply Hat].
Qed.

Lemma decode_body_complete r w body d rest : at_bytes r (body ++ 45 :: rest) -> body_of d body -> d <> [] ->
  bytes_ok d -> w_err (emitted w d) = false ->
  exists r', decode_body r w = (true, r', emitted w d) /\ at_bytes r' rest.
Proof.
  intros Hr Hbody Hne Hd Herr. pose proof (at_bytes_ok _ _ Hr) as Hl. apply Forall_app in Hl as [Hbb _].
  pose proof (body_loop_dash (S (length (body ++ 45 :: rest))) r w (B64 0 0 0 0 0) body rest Hr
    (body_no_dash d body Hd Hbody)) as HL.
  rewrite length_app in HL at 1. specialize (HL ltac:(lia)).
  rewrite (proj2 (values_body d body Hbb Hd) Hbody) in HL.
  destruct (run_enc _ d 0 0 w (le_n _) Hd ltac:(lia)) as (s' & Erun & Hok). rewrite Erun in HL.
  destruct HL as (r' & EL & Hat). exists r'. unfold decode_body. rewrite (at_left _ _ Hr), EL.
  rewrite (Hok (or_introl Hne) _ Herr). split; [done|by apply Hat].
Qed.

Lemma match_bytes_iff r l want : at_bytes r l -> bytes_ok want ->
  (exists l' r', match_bytes r want = (true, r') /\ l = want ++ l' /\ at_bytes r' l') \/
  (exists r', match_bytes r want = (false, r') /\ forall l', l <> want ++ l').
Proof.
  intros Hr Hw. unfold match_bytes. destruct (decide (length want <= length l)%nat) as [Hle|Hgt].
  - destruct (rb_bytes_at r l (length want) Hr Hle) as [E1 E2]. destruct (rb_bytes r (length want)) as [o r'].
    cbn [fst snd] in *. subst o. pose proof (at_bytes_ok _ _ Hr) as Hl.
    assert (Ht : length (take (length want) l) = length want) by (rewrite length_take; lia).
    rewrite ct_memeq_spec by (try apply Forall_take; done || lia).
    rewrite (take_ge (take _ l)), (take_ge want) by lia.
    destruct (bytes_eqb (take (length want) l) want) eqn:E.
    + apply bytes_eqb_eq in E. left. exists (drop (length want) l), r'. split_and!; try done.
      rewrite <- E at 1. by rewrite take_drop.
    + right. exists r'. split; [done|]. intros l' ->. rewrite take_app_length in E.
      assert (bytes_eqb want want = true) by by apply bytes_eqb_eq. congruence.
  - destruct (rb_bytes_short r l (length want) Hr ltac:(lia)) as [E1 E2].
    destruct (rb_bytes r (length want)) as [o r']. cbn [fst snd] in *. subst o. right. exists r'. split; [done|].
    intros l' ->. rewrite length_app in Hgt. lia.
Qed.

(** A boundary line matches exactly its text. *)
Lemma match_line_iff r l prefix label : at_bytes r l -> bytes_ok prefix ->
  (exists l' r', match_line r prefix label = (true, r') /\ l = prefix ++ labels label ++ str "-----" ++ l' /\ at_bytes r' l') \/
  (exists r', match_line r prefix label = (false, r') /\ forall l', l <> prefix ++ labels label ++ str "-----" ++ l').
Proof.
  intros Hr Hp. assert (Hlb : bytes_ok (labels label)) by (destruct label; apply str_ok). unfold match_line.
  destruct (match_bytes_iff r l prefix Hr Hp) as [(l1 & r1 & -> & -> & H1)|(r1 & -> & Hn)]; cbn [and_then].
  2:{ right. exists r1. split; [done|]. intros l' ->. eapply Hn. reflexivity. }
  destruct (match_bytes_iff r1 l1 (labels label) H1 Hlb) as [(l2 & r2 & -> & -> & H2)|(r2 & -> & Hn)]; cbn [and_then].
  2:{ right. exists r2. split; [done|]. intros l' E. apply app_inv_head in E. subst. eapply Hn. reflexivity. }
  destruct (match_bytes_iff r2 l2 boundary_dashes H2 (str_ok _)) as [(l3 & r3 & -> & -> & H3)|(r3 & -> & Hn)].
  - left. exists l3, r3. done.
  - right. exists r3. split; [done|]. intros l' E. apply app_inv_head, app_inv_head in E. subst. eapply Hn. reflexivity.
Qed.

Lemma read_eol_iff r l : at_bytes r l ->
  (exists eol l' r', read_eol r = (true, r') /\ eol_ok eol /\ l = eol ++ l' /\ at_bytes r' l') \/
  (exists r', read_eol r = (false, r') /\ forall eol l', eol_ok eol -> l <> eol ++ l').
Proof.
  intros Hr. unfold read_eol, eol_ok. destruct l as [|c l].
  { destruct (rb_u8_nil r (or_introl Hr)) as (r' & -> & [_ ->]). right. exists r'. split; [done|].
    intros eol l' [-> | ->]; done. }
  destruct (rb_u8_at _ _ _ Hr) as (r1 & -> & H1). rewrite (at_err _ _ H1).
  destruct (Z.eqb_spec c 13) as [->|Hc].
  - destruct l as [|c2 l].
    { destruct (rb_u8_nil r1 (or_introl H1)) as (r' & -> & [_ ->]). right. exists r'. split; [done|].
      intros eol l' [-> | ->]; done. }
    destruct (rb_u8_at _ _ _ H1) as (r2 & -> & H2). rewrite (at_err _ _ H2). destruct (Z.eqb_spec c2 10) as [->|Hc2].
    + left. exists [13; 10], l, r2. split_and!; auto.
    + right. exists r2. split; [done|]. intros eol l' [-> | ->]; cbn; congruence.
  - destruct (Z.eqb_spec c 10) as [->|Hc2].
    + left. exists [10], l, r1. split_and!; auto.
    + right. exists r1. split; [done|]. intros eol l' [-> | ->]; cbn; congruence.
Qed.

Lemma read_tail_iff fuel : forall r l, at_bytes r l -> (length l < fuel)%nat ->
  (read_tail fuel r).1 = forallb is_eol_char l.
Proof.
  induction fuel as [|fuel IH]; intros r l Hr Hf; [lia|]. cbn [read_tail]. rewrite (at_left _ _ Hr).
  destruct l as [|c l]; cbn [length Nat.eqb forallb]; [by rewrite (at_err _ _ Hr)|]. cbn [length] in Hf.
  destruct (rb_u8_at _ _ _ Hr) as (r1 & -> & H1). unfold is_eol_char at 1.
  rewrite <- (negb_involutive ((c =? 13) || (c =? 10))), negb_orb.
  destruct (negb (c =? 13) && negb (c =? 10)); cbn; [done|]. apply IH; [done|lia].
Qed.

(** What a decoder of one block accepts. *)
Definition pem_of (label : pem_label) (d text : list Z) : Prop :=
  exists eol body tail, text = block_text label eol body ++ tail /\ eol_ok eol /\ body_of d body /\
    Forall (fun c => c = 13 \/ c = 10) tail /\ d <> [] /\ bytes_ok d.

Lemma tail_forallb l : forallb is_eol_char l = true <-> Forall (fun c => c = 13 \/ c = 10) l.
Proof.
  rewrite forallb_forall, Forall_forall. unfold is_eol_char. split; intros H c Hc.
  - apply list_elem_of_In in Hc. apply H in Hc. rewrite orb_true_iff, !Z.eqb_eq in Hc. done.
  - rewrite orb_true_iff, !Z.eqb_eq. apply H. by apply list_elem_of_In.
Qed.

Lemma block_text_split label eol body rest :
  block_text label eol body ++ rest
  = begin_prefix ++ labels label ++ str "-----" ++ eol ++ body ++ 45 :: (drop 1 end_prefix ++ labels label ++ str "-----" ++ rest).
Proof. unfold block_text. rewrite <- !app_assoc. reflexivity. Qed.

Lemma pem_decode_one_iff pem label w w' : bytes_ok pem ->
  pem_decode_one pem label w = (true, w') <->
  exists d, pem_of label d pem /\ w' = emitted w d /\ w_err w' = false.
Proof.
  intros Hpem. pose proof (at_init_all pem Hpem) as H0. unfold pem_decode_one, pem_read_block. split.
  - destruct (match_line_iff _ _ begin_prefix label H0 (str_ok _)) as [(l1 & r1 & -> & E1 & H1)|(r1 & -> & _)]; [|discriminate].
    cbn [and_then]. destruct (read_eol_iff _ _ H1) as [(eol & l2 & r2 & -> & He & -> & H2)|(r2 & -> & _)]; [|discriminate].
    cbn [negb]. destruct (decode_body r2 w) as [[[] r3] w3] eqn:ED; [|discriminate].
    destruct (decode_body_sound _ _ _ _ _ H2 ED) as (body & d & l3 & -> & Hbody & Hne & Hdb & Hw & Herr & H3). cbn [negb].
    destruct (match_line_iff _ _ (drop 1 end_prefix) label H3 ltac:(apply Forall_drop, str_ok))
      as [(l4 & r4 & -> & -> & H4)|(r4 & -> & _)]; [|discriminate].
    rewrite (at_left _ _ H4), (read_tail_iff _ _ _ H4) by lia. intros [= Ht <-]. exists d.
    split; [|done]. exists eol, body, l4. rewrite block_text_split. split_and!; try done. by apply tail_forallb.
  - intros (d & (eol & body & tail & -> & He & Hbody & Ht & Hne & Hdb) & -> & Herr).
    rewrite block_text_split in *.
    destruct (match_line_iff _ _ begin_prefix label H0 (str_ok _)) as [(l1 & r1 & -> & E1 & H1)|(r1 & _ & Hno)];
      [|exfalso; eapply Hno; reflexivity]. cbn [and_then]. do 3 apply app_inv_head in E1. subst l1.
    destruct (read_eol_iff _ _ H1) as [(eol' & l2 & r2 & -> & He' & E2 & H2)|(r2 & _ & Hno)];
      [|exfalso; eapply Hno; [exact He|reflexivity]].
    assert (l2 = body ++ 45 :: (drop 1 end_prefix ++ labels label ++ str "-----" ++ tail)) as ->
      by (destruct He as [-> | ->], He' as [-> | ->]; cbn [app] in E2; congruence).
    cbn [negb]. destruct (decode_body_complete _ w _ _ _ H2 Hbody Hne Hdb Herr) as (r3 & -> & H3). cbn [negb].
    destruct (match_line_iff _ _ (drop 1 end_prefix) label H3 ltac:(apply Forall_drop, str_ok))
      as [(l4 & r4 & -> & E4 & H4)|(r4 & _ & Hno)]; [|exfalso; eapply Hno; reflexivity].
    do 3 apply app_inv_head in E4. subst l4. rewrite (at_left _ _ H4), (read_tail_iff _ _ _ H4) by lia.
    f_equal. by apply tail_forallb.
Qed.

Lemma emitted_appended w d : wb_inv w -> appended w d (emitted w d).
Proof.
  revert w. induction d as [|b d IH]; intros w Hw; [by apply appended_nil|].
  change (b :: d) with ([b] ++ d). pose proof (wb_u8_appended w b Hw) as H1.
  eapply appended_app; [exact H1|]. apply IH. apply H1.
Qed.

(** ** Properties *)

(** Functional: the branch-free classifier gives every byte the class of
    RFC 4648's table and of its header comment: the value of an alphabet
    character, or the class of a pad, CR, LF, dash or other byte. *)
Theorem base64_class_is_table (c : Z) (Hc : byte_ok c) : base64_class c = class_table c.
Proof. by apply base64_class_table. Qed.

Lemma base64_class_is_table_witness : base64_class 43 = 62 /\ base64_class 200 = BASE64_INVALID.
Proof.
  split; [exact (base64_class_is_table 43 ltac:(unfold byte_ok; lia))
         |exact (base64_class_is_table 200 ltac:(unfold byte_ok; lia))].
Defined.

(** C35. Round trip and canonicality: the decoder accepts a text exactly when it
    is one block of the asked label whose body, line breaks dropped, is the
    base64 encoding of some nonempty bytes that fit the output, padding and
    unused bits included, followed only by line terminators; and then it
    writes exactly those bytes after what the output held. *)
Theorem pem_decode_one_exact (pem : list Z) (label : pem_label) (w : wbuf)
    (Hpem : bytes_ok pem) (Hw : wb_inv w) (Herr : w_err w = false) :
  ((pem_decode_one pem label w).1 = true <->
   exists d, pem_of label d pem /\ (length d <= w_cap w - w_len w)%nat) /\
  (forall d, pem_of label d pem -> (length d <= w_cap w - w_len w)%nat ->
     written (pem_decode_one pem label w).2 = written w ++ d).
Proof.
  assert (Hfit : forall d, (length d <= w_cap w - w_len w)%nat <-> w_err (emitted w d) = false).
  { intros d. destruct (emitted_appended w d Hw) as (_ & _ & _ & _ & _ & _ & H).
    destruct (w_err (emitted w d)); [destruct H; [congruence|split; [lia|done]]|]. split; [done|by intros _; apply H]. }
  split.
  - destruct (pem_decode_one pem label w) as [ok w'] eqn:E. cbn [fst]. split.
    + intros ->. apply pem_decode_one_iff in E as (d & Hd & -> & He); [|done]. exists d. by rewrite Hfit.
    + intros (d & Hd & Hl). assert (E' : pem_decode_one pem label w = (true, emitted w d))
        by (apply pem_decode_one_iff; [done|]; exists d; by rewrite <- Hfit). congruence.
  - intros d Hd Hl. assert (E' : pem_decode_one pem label w = (true, emitted w d))
      by (apply pem_decode_one_iff; [done|]; exists d; by rewrite <- Hfit).
    rewrite E'. cbn [snd]. destruct (emitted_appended w d Hw) as (_ & _ & _ & _ & _ & _ & H).
    rewrite (proj1 (Hfit d) Hl) in H. apply H.
Qed.

Lemma pem_decode_one_exact_witness :
  written (pem_decode_one (str "-----BEGIN CERTIFICATE-----" ++ [10] ++ str "MAA=" ++ [10] ++ str "-----END CERTIFICATE-----" ++ [10])
    PEM_LABEL_CERTIFICATE (wb_init [9; 9; 9] 3)).2 = [0x30; 0].
Proof.
  apply (proj2 (pem_decode_one_exact (str "-----BEGIN CERTIFICATE-----" ++ [10] ++ str "MAA=" ++ [10] ++ str "-----END CERTIFICATE-----" ++ [10])
    PEM_LABEL_CERTIFICATE (wb_init [9; 9; 9] 3) ltac:(apply (bool_decide_unpack _); vm_compute; done)
    ltac:(unfold wb_inv; cbn; lia) eq_refl) [0x30; 0]).
  - exists [10], (str "MAA=" ++ [10]), [10]. split_and!; try done; [by left|by repeat constructor; right|by repeat constructor].
  - cbn. lia.
Defined.

(** Bounds: [pem_decode_certificate] refuses a text over [CH_PEM_MAX] and
    otherwise gives the DER of the one certificate block, at most [CH_X509_MAX]
    bytes. *)
Theorem pem_decode_certificate_bounds (CH_X509_MAX : nat) (pem der out : list Z)
    (Hpem : bytes_ok pem) (Hder : (CH_X509_MAX <= length der)%nat) :
  pem_decode_certificate CH_X509_MAX pem der = Some out <->
  ((length pem <= CH_PEM_MAX CH_X509_MAX)%nat /\ pem_of PEM_LABEL_CERTIFICATE out pem /\ (length out <= CH_X509_MAX)%nat).
Proof.
  unfold pem_decode_certificate. pose proof (wb_init_inv der CH_X509_MAX Hder) as Hw.
  assert (Hout : forall d, w_err (emitted (wb_init der CH_X509_MAX) d) = false <-> (length d <= CH_X509_MAX)%nat).
  { intros d. destruct (emitted_appended _ d Hw) as (_ & _ & _ & _ & _ & _ & H). cbn in H.
    destruct (w_err (emitted _ d)); [destruct H; [done|split; [done|lia]]|]. split; [lia|done]. }
  assert (Hwr : forall d, (length d <= CH_X509_MAX)%nat -> written (emitted (wb_init der CH_X509_MAX) d) = d).
  { intros d Hd. destruct (emitted_appended _ d Hw) as (_ & _ & _ & _ & _ & _ & H).
    rewrite (proj2 (Hout d) Hd) in H. apply H. }
  destruct (Nat.ltb_spec (CH_PEM_MAX CH_X509_MAX) (length pem)); [split; [discriminate|lia]|].
  destruct (pem_decode_one pem PEM_LABEL_CERTIFICATE (wb_init der CH_X509_MAX)) as [ok w'] eqn:E. split.
  - destruct ok; cbn [negb]; [|discriminate]. apply pem_decode_one_iff in E as (d & Hd & -> & He); [|done].
    apply Hout in He. change (take _ _) with (written (emitted (wb_init der CH_X509_MAX) d)). rewrite Hwr by done.
    intros [= <-]. done.
  - intros (_ & Hp & Hl). assert (E' : pem_decode_one pem PEM_LABEL_CERTIFICATE (wb_init der CH_X509_MAX)
      = (true, emitted (wb_init der CH_X509_MAX) out)) by (apply pem_decode_one_iff; [done|]; exists out; by rewrite Hout).
    rewrite E in E'. injection E' as -> ->. cbn [negb]. apply (f_equal Some), Hwr, Hl.
Qed.

Lemma pem_decode_certificate_bounds_witness :
  pem_decode_certificate 1 (str "-----BEGIN CERTIFICATE-----") [0] = Some [] <->
  ((27 <= CH_PEM_MAX 1)%nat /\ pem_of PEM_LABEL_CERTIFICATE [] (str "-----BEGIN CERTIFICATE-----") /\ (0 <= 1)%nat).
Proof.
  apply (pem_decode_certificate_bounds 1 (str "-----BEGIN CERTIFICATE-----") [0] []); [apply str_ok|cbn; lia].
Defined.
End Pem.
