(* ===== verification/Der.v ===== *)
(** * Canonical DER: src/src/x509_der.c, x509_der.h

    The strict decoder's primitives as programs of reads, for the three pinned
    key types (RSA, ECDSA, ML-DSA), and the header writer.  Decoding is shown
    canonical: each routine accepts exactly one encoding of each value. *)

From S2P Require Import Prelude Ct Buf Reader.
Local Open Scope Z_scope.
Local Open Scope word_scope.

Module Der.

(** ** Lengths and headers *)

Definition x509_read_len : prog nat :=
  len ← u8_;
  guard_ (negb ((len =? 0x80) || (0x82 <? len)));;
  len ← (if (len =? 0x81) then
           len ← u8_;
           guard_ (negb (len <? 0x80));;
           Ret len
         else if (len =? 0x82) then
           hi ← u8_;
           lo ← u8_;
           let len := (hi <<64 8) .| lo in
           guard_ (negb (len <? 0x100));;
           Ret len
         else Ret len);
  e ← err_;
  n ← left_;
  guard_ (negb (e || (Z.of_nat n <? len)));;
  Ret (Z.to_nat len).

Definition x509_read_header (tag : Z) : prog nat :=
  t ← u8_;
  e ← err_;
  guard_ (negb (negb (t =? tag) || e));;
  x509_read_len.

Definition x509_read_exact (want : list Z) : prog () :=
  got ← bytes_ (length want);
  guard_ (negb (ct_memeq got want (length want) =? 0)).

Definition x509_skip (tag : Z) : prog () :=
  len ← x509_read_header tag;
  skip_ len;;
  e ← err_;
  guard_ (negb e).

(** [out[0 .. returned)]. *)
Definition x509_emit_header (tag : Z) (len : nat) : list Z :=
  let len := Z.of_nat len in
  if (len <? 0x80) then [tag; u8 len]
  else if (len <? 0x100) then [tag; 0x81; u8 len]
  else [tag; 0x82; u8 (len >> 8); u8 (len .& 0xff)].

(** ** Fields *)

Definition x509_read_serial : prog () :=
  len ← x509_read_header 0x02;
  guard_ (negb ((len =? 0)%nat || (21 <? len)%nat));;
  c ← bytes_ len;
  guard_ ((c !!! 0%nat) .& 0x80 =? 0);;
  guard_ (negb ((c !!! 0%nat =? 0) && ((len =? 1)%nat || ((c !!! 1%nat) .& 0x80 =? 0))));;
  guard_ (negb ((len =? 21)%nat && negb (c !!! 0%nat =? 0))).

(** The content bytes and their count [want]. *)
Definition read_time_bytes : prog (list Z * nat) :=
  tag ← u8_;
  want ← (if (tag =? 0x17) then Ret 13%nat else if (tag =? 0x18) then Ret 15%nat else Fail);
  n ← u8_;
  guard_ (n =? Z.of_nat want);;
  c ← bytes_ want;
  guard_ (c !!! (want - 1)%nat =? 0x5a);;
  Ret (c, want).

Definition x509_read_time : prog () := read_time_bytes;; Ret ().

Definition keyusage (required : Z) : prog () :=
  len ← x509_read_header 0x03;
  guard_ (negb ((len <? 2)%nat || (3 <? len)%nat));;
  c ← bytes_ len;
  e ← err_;
  n ← left_;
  guard_ (negb (e || negb (n =? 0)%nat));;
  let unused := c !!! 0%nat in
  let last := c !!! (len - 1)%nat in
  guard_ (negb ((7 <? unused) || (last =? 0)));;
  guard_ (last .& u8 ((1 <<32 unused) -32 1) =? 0);;
  guard_ (negb ((last >> unused) .& 1 =? 0));;
  guard_ (negb ((c !!! 1%nat) .& required =? 0)).
Definition x509_read_keyusage (v : list Z) (required : Z) : bool :=
  match parse (keyusage required) v with Some _ => true | None => false end.

Definition x509_read_bitstring : prog (list Z) :=
  len ← x509_read_header 0x03;
  guard_ (negb (len <? 1)%nat);;
  z ← u8_;
  e ← err_;
  guard_ (negb (negb (z =? 0) || e));;
  bytes_ (len - 1).

(** The digit loop: [None] at the first byte that is no digit. *)
Fixpoint read_digits (c : list Z) : option (list Z) :=
  match c with
  | [] => Some []
  | b :: c => let d := b -32 48 in if (9 <? d) then None else ds ← read_digits c; Some (d :: ds)
  end.

(** The epoch number, [None] for [*ok = 0]. *)
Definition x509_read_time_epoch : prog (option Z) :=
  cw ← read_time_bytes;
  let '(c, want) := cw in
  if negb (want =? 13)%nat then Ret None
  else
    match read_digits (take 12 c) with
    | None => Ret None
    | Some digit =>
        let d i := digit !!! i in
        let yy := ((d 0%nat *32 10) +32 d 1%nat) in
        let mm := ((d 2%nat *32 10) +32 d 3%nat) in
        let dd := ((d 4%nat *32 10) +32 d 5%nat) in
        let hms := d 6%nat +32 d 7%nat +32 d 8%nat +32 d 9%nat +32 d 10%nat +32 d 11%nat in
        if (49 <? yy) || (mm <? 1) || (12 <? mm) || (dd <? 1) || (28 <? dd) || negb (hms =? 0) then Ret None
        else Ret (Some ((yy *32 336) +32 ((mm -32 1) *32 28) +32 (dd -32 1)))
    end.

(** ** Keys *)

(** The common start of each [x509_read_spki]: the BIT STRING's bytes. *)
Definition spki_bits (spki_algid : list Z) : prog (list Z) :=
  x509_read_exact spki_algid;;
  bits ← x509_read_bitstring;
  e ← err_;
  n ← left_;
  guard_ (negb (e || negb (n =? 0)%nat));;
  Ret bits.
Definition spki_body (spki_algid : list Z) : prog (list Z) :=
  len ← x509_read_header 0x30;
  body ← bytes_ len;
  sub_ (spki_bits spki_algid) body.

Definition spki_algid_ecdsa : list Z :=
  [0x30; 0x13; 0x06; 0x07; 0x2a; 0x86; 0x48; 0xce; 0x3d; 0x02; 0x01; 0x06; 0x08; 0x2a; 0x86; 0x48;
   0xce; 0x3d; 0x03; 0x01; 0x07].
Definition spki_algid_mldsa : list Z :=
  [0x30; 0x0b; 0x06; 0x09; 0x60; 0x86; 0x48; 0x01; 0x65; 0x03; 0x04; 0x03; 0x13].
Definition spki_algid_rsa : list Z :=
  [0x30; 0x0d; 0x06; 0x09; 0x2a; 0x86; 0x48; 0x86; 0xf7; 0x0d; 0x01; 0x01; 0x01; 0x05; 0x00].
Definition spki_exponent : list Z := [0x02; 0x03; 0x01; 0x00; 0x01].

Definition ec_point : prog (list Z) :=
  m ← u8_;
  e ← err_;
  guard_ (negb (negb (m =? 0x04) || e));;
  key ← bytes_ 64;
  n ← left_;
  guard_ (n =? 0)%nat;;
  Ret key.
Definition x509_read_spki_ecdsa : prog (list Z) :=
  bits ← spki_body spki_algid_ecdsa;
  sub_ ec_point bits.

Definition x509_read_spki_mldsa : prog (list Z) :=
  bits ← spki_body spki_algid_mldsa;
  guard_ (length bits =? 2592)%nat;;
  Ret bits.

Definition read_rsa_modulus : prog (list Z) :=
  content_len ← x509_read_header 0x02;
  guard_ (negb (content_len <? 2)%nat);;
  z ← u8_;
  e ← err_;
  guard_ (negb (negb (z =? 0) || e));;
  let n := (content_len - 1)%nat in
  v ← bytes_ n;
  guard_ (negb ((v !!! 0%nat) .& 0x80 =? 0));;
  guard_ (negb ((n <? 256)%nat || (384 <? n)%nat || negb (n mod 8 =? 0)%nat));;
  guard_ (negb ((v !!! (n - 1)%nat) .& 1 =? 0));;
  Ret v.
Definition rsa_public_key : prog (list Z) :=
  seq_len ← x509_read_header 0x30;
  n ← left_;
  guard_ (seq_len =? n)%nat;;
  key ← read_rsa_modulus;
  x509_read_exact spki_exponent;;
  done_;;
  Ret key.
Definition x509_read_spki_rsa : prog (list Z) :=
  bits ← spki_body spki_algid_rsa;
  sub_ rsa_public_key bits.

(** ** Extensions *)

Fixpoint oid_loop (oid : list Z) (at_subid_start : bool) : bool :=
  match oid with
  | [] => at_subid_start
  | b :: oid =>
      if at_subid_start && (b =? 0x80) then false else oid_loop oid (b .& 0x80 =? 0)
  end.
Definition oid_minimal (oid : list Z) : bool := oid_loop oid true.

Record x509_extension := X509Ext { x_oid : list Z; x_value : list Z; x_critical : bool }.

Definition extension_body : prog x509_extension :=
  oid_len ← x509_read_header 0x06;
  guard_ (negb ((oid_len =? 0)%nat || (16 <? oid_len)%nat));;
  oid ← bytes_ oid_len;
  guard_ (oid_minimal oid);;
  tag ← u8_;
  tc ← (if (tag =? 0x01) then
          bool_len ← u8_;
          bool_val ← u8_;
          e ← err_;
          guard_ (negb (negb (bool_len =? 0x01) || negb (bool_val =? 0xff) || e));;
          tag ← u8_;
          Ret (tag, true)
        else Ret (tag, false));
  e ← err_;
  guard_ (negb (negb (tc.1 =? 0x04) || e));;
  vlen ← x509_read_len;
  value ← bytes_ vlen;
  done_;;
  Ret (X509Ext oid value tc.2).

Definition x509_read_extension (tlv_cap : nat) : prog x509_extension :=
  before ← left_;
  xlen ← x509_read_header 0x30;
  after ← left_;
  guard_ (negb (tlv_cap <? before - after + xlen)%nat);;
  body ← bytes_ xlen;
  sub_ extension_body body.

(** ** Lemmas: lengths and headers *)

(** The length octets alone. *)
Definition len_bytes (n : nat) : list Z := drop 1 (x509_emit_header 0 n).
Definition tlv (tag : Z) (content : list Z) : list Z := x509_emit_header tag (length content) ++ content.

Lemma emit_header_cons tag n : x509_emit_header tag n = tag :: len_bytes n.
Proof. unfold len_bytes, x509_emit_header. by repeat case_match. Qed.

Lemma emit_bytes_ok tag n : byte_ok tag -> bytes_ok (x509_emit_header tag n).
Proof.
  intros Ht. unfold x509_emit_header. repeat case_match;
    repeat (constructor; [first [done | apply u8_range | unfold byte_ok; lia]|]); constructor.
Qed.

(** After an underrun nothing is accepted. *)
Lemma read_len_none n s : runl x509_read_len None = (Some n, s) -> False.
Proof. by cbn. Qed.

Lemma join_len hi lo : byte_ok hi -> byte_ok lo -> (hi <<64 8) .| lo = hi * 2 ^ 8 + lo.
Proof.
  unfold byte_ok. intros. rewrite u64_small by (unfold u64_ok; rewrite Z.shiftl_mul_pow2; lia).
  by rewrite lor_shiftl_add' by lia.
Qed.

Lemma read_len_iff l n s' : bytes_ok l ->
  runl x509_read_len (Some l) = (Some n, s') <->
  exists l', l = len_bytes n ++ l' /\ s' = Some l' /\ (n <= length l')%nat /\ Z.of_nat n < 2 ^ 16.
Proof.
  intros Hl. unfold len_bytes, x509_emit_header. split.
  - intros H. destruct l as [|b l]; [by cbn in H|]. apply Forall_cons in Hl as [Hb Hl].
    unfold x509_read_len in H. cbn -[Z.land Z.lor Z.shiftl u64] in H.
    destruct (Z.eqb_spec b 0x80); [by cbn in H|]. destruct (Z.ltb_spec 0x82 b); [by cbn in H|]. cbn -[Z.lor Z.shiftl u64] in H.
    unfold byte_ok in Hb. destruct (Z.eqb_spec b 0x81) as [->|].
    + destruct l as [|c l]; [by cbn in H|]. apply Forall_cons in Hl as [Hc Hl]. cbn in H.
      destruct (Z.ltb_spec c 0x80); [by cbn in H|]. cbn in H. unfold byte_ok in Hc.
      destruct (Z.ltb_spec (Z.of_nat (length l)) c); [by cbn in H|]. cbn in H. injection H as <- <-.
      rewrite Z2Nat.id by lia. destruct (Z.ltb_spec c 0x80); [lia|]. destruct (Z.ltb_spec c 0x100); [|lia].
      exists l. cbn [drop app]. rewrite u8_small by (unfold byte_ok; lia). split_and!; try done; lia.
    + destruct (Z.eqb_spec b 0x82) as [->|].
      * destruct l as [|hi [|lo l]]; [by cbn in H| |].
        { cbn -[Z.lor Z.shiftl u64] in H. match type of H with context [?a <? ?b] => destruct (a <? b) end; by cbn in H. }
        rewrite !Forall_cons in Hl. destruct Hl as (Hhi & Hlo & Hl). cbn -[Z.lor Z.shiftl u64] in H.
        rewrite join_len in H by done. unfold byte_ok in Hhi, Hlo.
        destruct (Z.ltb_spec (hi * 2 ^ 8 + lo) 0x100); [by cbn in H|]. cbn in H.
        destruct (Z.ltb_spec (Z.of_nat (length l)) (hi * 2 ^ 8 + lo)); [by cbn in H|]. cbn in H. injection H as <- <-.
        rewrite Z2Nat.id by lia. destruct (Z.ltb_spec (hi * 2 ^ 8 + lo) 0x80); [lia|].
        destruct (Z.ltb_spec (hi * 2 ^ 8 + lo) 0x100); [lia|]. exists l. cbn [drop app].
        rewrite (land_mask 8), Z.shiftr_div_pow2 by (done || lia).
        split_and!; [|done|lia|lia]. repeat (apply (f_equal2 cons); [unfold u8; dlia|]). done.
      * cbn in H. destruct (Z.ltb_spec (Z.of_nat (length l)) b); [by cbn in H|]. cbn in H. injection H as <- <-.
        rewrite Z2Nat.id by lia. destruct (Z.ltb_spec b 0x80); [|lia]. exists l. cbn [drop app].
        rewrite u8_small by (unfold byte_ok; lia). split_and!; try done; lia.
  - intros (l' & -> & -> & Hn & H16). unfold x509_read_len.
    destruct (Z.ltb_spec (Z.of_nat n) 0x80); [|destruct (Z.ltb_spec (Z.of_nat n) 0x100)]; cbn -[Z.lor Z.shiftl u64 u8 Z.land Z.shiftr].
    + rewrite u8_small by (unfold byte_ok; lia).
      destruct (Z.eqb_spec (Z.of_nat n) 0x80); [lia|]. destruct (Z.ltb_spec 0x82 (Z.of_nat n)); [lia|]. cbn.
      destruct (Z.eqb_spec (Z.of_nat n) 0x81); [lia|]. destruct (Z.eqb_spec (Z.of_nat n) 0x82); [lia|]. cbn.
      destruct (Z.ltb_spec (Z.of_nat (length l')) (Z.of_nat n)); [lia|]. cbn. by rewrite Nat2Z.id.
    + rewrite u8_small by (unfold byte_ok; lia).
      destruct (Z.ltb_spec (Z.of_nat n) 0x80); [lia|]. cbn.
      destruct (Z.ltb_spec (Z.of_nat (length l')) (Z.of_nat n)); [lia|]. cbn. by rewrite Nat2Z.id.
    + rewrite join_len, (land_mask 8), Z.shiftr_div_pow2 by (done || lia || apply u8_range).
      replace (u8 (Z.of_nat n / 2 ^ 8) * 2 ^ 8 + u8 (Z.of_nat n mod 2 ^ 8)) with (Z.of_nat n) by (unfold u8; dlia).
      destruct (Z.ltb_spec (Z.of_nat n) 0x100); [lia|]. cbn.
      destruct (Z.ltb_spec (Z.of_nat (length l')) (Z.of_nat n)); [lia|]. cbn. by rewrite Nat2Z.id.
Qed.

Lemma read_header_none tag n s : runl (x509_read_header tag) None = (Some n, s) -> False.
Proof. unfold x509_read_header. cbn. rewrite orb_true_r. by cbn. Qed.

Lemma read_header_iff tag l n s' : bytes_ok l ->
  runl (x509_read_header tag) (Some l) = (Some n, s') <->
  exists l', l = x509_emit_header tag n ++ l' /\ s' = Some l' /\ (n <= length l')%nat /\ Z.of_nat n < 2 ^ 16.
Proof.
  intros Hl. rewrite emit_header_cons. unfold x509_read_header. split.
  - intros H. destruct l as [|t l]; [cbn in H; rewrite orb_true_r in H; by cbn in H|]. apply Forall_cons in Hl as [_ Hl].
    cbn -[x509_read_len] in H. destruct (Z.eqb_spec t tag) as [->|]; [|by cbn in H]. cbn -[x509_read_len] in H.
    apply read_len_iff in H as (l' & -> & ?); [|done]. by exists l'.
  - intros (l' & -> & H). apply Forall_cons in Hl as [_ Hl]. cbn -[x509_read_len].
    rewrite Z.eqb_refl. cbn -[x509_read_len]. apply read_len_iff; [done|]. by exists l'.
Qed.

Lemma tlv_ok tag c : byte_ok tag -> bytes_ok c -> bytes_ok (tlv tag c).
Proof. intros. apply Forall_app_2; [by apply emit_bytes_ok|done]. Qed.

Lemma header_length n tag : (2 <= length (x509_emit_header tag n) <= 4)%nat.
Proof. unfold x509_emit_header. repeat case_match; cbn; lia. Qed.

(** A header and its content octets. *)
Lemma read_tlv_iff {B} tag (f : nat -> list Z -> prog B) l a s' : bytes_ok l ->
  runl (len ← x509_read_header tag; c ← bytes_ len; f len c) (Some l) = (Some a, s') <->
  exists c l', l = tlv tag c ++ l' /\ Z.of_nat (length c) < 2 ^ 16 /\ runl (f (length c) c) (Some l') = (Some a, s').
Proof.
  intros Hl. rewrite runl_bind_some. split.
  - intros (n & s1 & H1 & H2). apply read_header_iff in H1 as (l1 & -> & -> & Hn & H16); [|done].
    apply runl_bytes_some in H2 as (c & l' & -> & <- & H2). exists c, l'. unfold tlv. by rewrite <- app_assoc.
  - intros (c & l' & -> & H16 & H). unfold tlv in *. rewrite <- app_assoc in *. exists (length c), (Some (c ++ l')). split.
    + apply read_header_iff; [done|]. exists (c ++ l'). rewrite length_app. split_and!; try done. lia.
    + apply runl_bytes_some. by exists c, l'.
Qed.

Lemma read_exact_iff {B} want (q : prog B) l a s' : bytes_ok l -> bytes_ok want ->
  runl (x509_read_exact want;; q) (Some l) = (Some a, s') <->
  exists l', l = want ++ l' /\ runl q (Some l') = (Some a, s').
Proof.
  intros Hl Hw. rewrite runl_bind_some. unfold x509_read_exact.
  assert (Hm : forall b, bytes_ok b -> length b = length want -> ct_memeq b want (length want) = Z.b2z (bytes_eqb b want)).
  { intros b Hb Hlen. rewrite ct_memeq_spec by (done || lia). by rewrite !take_ge by lia. }
  split.
  - intros (u & s1 & H1 & H2). apply runl_bytes_some in H1 as (b & l' & -> & Hlen & H1). apply Forall_app in Hl as [Hb _].
    rewrite Hm in H1 by done. rewrite runl_guard in H1. destruct (bytes_eqb b want) eqn:E; [|discriminate].
    injection H1 as <- <-. apply bytes_eqb_eq in E as ->. exists l'. done.
  - intros (l' & -> & H). exists (), (Some l'). split; [|done]. apply runl_bytes_some. exists want, l'.
    split_and!; try done. rewrite Hm, runl_guard by done.
    assert (bytes_eqb want want = true) as -> by by apply bytes_eqb_eq. done.
Qed.

Lemma read_skip_iff {B} tag (q : prog B) l a s' : bytes_ok l ->
  runl (x509_skip tag;; q) (Some l) = (Some a, s') <->
  exists c l', l = tlv tag c ++ l' /\ Z.of_nat (length c) < 2 ^ 16 /\ runl q (Some l') = (Some a, s').
Proof.
  intros Hl. unfold x509_skip. rewrite runl_bind_some. split.
  - intros ([] & s1 & H1 & H2). apply runl_bind_some in H1 as (n & s2 & H1 & H3).
    apply read_header_iff in H1 as (l1 & -> & -> & Hn & H16); [|done]. cbn in H3.
    rewrite (proj2 (Nat.ltb_ge _ _) Hn) in H3. cbn in H3. injection H3 as <-.
    exists (take n l1), (drop n l1). unfold tlv. rewrite length_take, Nat.min_l, <- app_assoc, take_drop by lia. done.
  - intros (c & l' & -> & H16 & H). exists (), (Some l'). split; [|done]. unfold tlv in *. rewrite <- app_assoc in *.
    apply runl_bind_some. exists (length c), (Some (c ++ l')). split.
    + apply read_header_iff; [done|]. exists (c ++ l'). rewrite length_app. split_and!; try done. lia.
    + cbn. rewrite (proj2 (Nat.ltb_ge _ _)) by (rewrite length_app; lia). cbn. by rewrite drop_app_length.
Qed.

(** ** Lemmas: serial numbers *)

(** The content octets of a positive INTEGER, as few as hold it with a clear
    top bit. *)
Definition minimal_int (c : list Z) : Prop :=
  (0 < length c)%nat /\ 0 < be_val c < 2 ^ (8 * Z.of_nat (length c) - 1) /\
  (length c = 1%nat \/ 2 ^ (8 * Z.of_nat (length c) - 9) <= be_val c).

(** The tests of [x509_read_serial] on the content. *)
Definition serial_tests (c : list Z) : bool :=
  negb ((length c =? 0)%nat || (21 <? length c)%nat) && ((c !!! 0%nat) .& 0x80 =? 0)
  && negb ((c !!! 0%nat =? 0) && ((length c =? 1)%nat || ((c !!! 1%nat) .& 0x80 =? 0)))
  && negb ((length c =? 21)%nat && negb (c !!! 0%nat =? 0)).

Lemma pow_split n k : 0 <= n -> 0 <= k -> 2 ^ (n + k) = 2 ^ n * 2 ^ k.
Proof. intros. by apply Z.pow_add_r. Qed.

Lemma serial_tests_spec c : bytes_ok c ->
  serial_tests c = true <-> minimal_int c /\ be_val c < 2 ^ 160.
Proof.
  intros Hc. unfold serial_tests, minimal_int. destruct c as [|b0 c]; [split; [done|intros [[? _] _]; cbn in *; lia]|].
  apply Forall_cons in Hc as [Hb0 Hc]. cbn [length lookup_total list_lookup_total]. rewrite top_bit by done.
  rewrite be_val_cons. pose proof (be_val_bound c Hc) as Hv. unfold byte_ok in Hb0.
  replace (8 * Z.of_nat (S (length c)) - 1) with (7 + 8 * Z.of_nat (length c)) by lia.
  rewrite (pow_split 7) by lia. set (P := 2 ^ (8 * Z.of_nat (length c))) in *.
  assert (HP : 1 <= P) by (subst P; apply Z.pow_le_mono_r with (b := 0) (a := 2); lia).
  destruct (decide (length c = 0%nat)) as [H0|H0].
  { destruct c; [|done]. cbn in *. change P with 1 in *.
    destruct (Z.ltb_spec b0 128), (Z.eqb_spec b0 0); cbn; split; intros; try done; lia. }
  assert (Hsplit : P = 2 * 2 ^ (8 * Z.of_nat (S (length c)) - 9)).
  { subst P. rewrite <- Z.pow_succ_r by lia. f_equal. lia. }
  assert (Hc1 : ((c !!! 0%nat) .& 0x80 =? 0) = (be_val c <? 2 ^ (8 * Z.of_nat (S (length c)) - 9))).
  { destruct c as [|b1 c]; [done|]. apply Forall_cons in Hc as [Hb1 Hc]. cbn [lookup_total list_lookup_total]. rewrite top_bit by done.
    rewrite be_val_cons. pose proof (be_val_bound c Hc) as Hv1. cbn [length] in *.
    replace (8 * Z.of_nat (S (S (length c))) - 9) with (7 + 8 * Z.of_nat (length c)) by lia.
    rewrite (pow_split 7) by lia. set (Q := 2 ^ (8 * Z.of_nat (length c))) in *.
    unfold byte_ok in Hb1. destruct (Z.ltb_spec b1 128), (Z.ltb_spec (b1 * Q + be_val c) (2 ^ 7 * Q)); try done; nia. }
  match goal with |- context [?x .& 0x80 =? 0] => change x with (c !!! 0%nat) end. rewrite Hc1. set (H9 := 2 ^ (8 * Z.of_nat (S (length c)) - 9)) in *.
  assert (Hlt : (length c < 20)%nat -> 2 ^ 8 * P <= 2 ^ 160).
  { intros Hl. subst P. rewrite <- pow_split by lia. apply Z.pow_le_mono_r; lia. }
  assert (Heq : length c = 20%nat -> P = 2 ^ 160) by (intros E; subst P; by rewrite E).
  assert (Hgt : (20 < length c)%nat -> 2 ^ 160 <= H9) by (intros E; subst H9; apply Z.pow_le_mono_r; lia).
  clearbody P H9. generalize dependent (be_val c). intros v Hv _.
  assert (X0 : b0 = 0 -> b0 * P = 0) by (intros ->; lia). assert (X1 : 1 <= b0 -> P <= b0 * P) by nia.
  assert (X2 : b0 * P <= 2 ^ 8 * P - P) by nia. assert (X3 : b0 < 128 -> b0 * P + v < 2 ^ 7 * P) by nia.
  assert (X4 : 128 <= b0 -> 2 ^ 7 * P <= b0 * P + v) by nia. set (X := b0 * P) in *. clearbody X.
  cbn [Nat.eqb].
  destruct (Z.ltb_spec b0 128); [specialize (X3 ltac:(lia))|specialize (X4 ltac:(lia))];
  (destruct (Z.eqb_spec b0 0); [specialize (X0 ltac:(lia))|specialize (X1 ltac:(lia))]);
  destruct (Nat.ltb_spec 21 (S (length c))), (Z.ltb_spec v H9), (Nat.eqb_spec (length c) 20), (Nat.eqb_spec (length c) 0);
    cbn [orb andb negb]; split; intros; try done; lia.
Qed.

Lemma read_serial_iff l s' : bytes_ok l ->
  runl x509_read_serial (Some l) = (Some (), s') <->
  exists c l', l = tlv 0x02 c ++ l' /\ s' = Some l' /\ minimal_int c /\ be_val c < 2 ^ 160.
Proof.
  intros Hl. unfold x509_read_serial. rewrite runl_bind_some. split.
  - intros (n & s1 & H1 & H2). apply read_header_iff in H1 as (l1 & -> & -> & Hn & H16); [|done].
    apply runl_guard_some in H2 as [G1 H2]. apply runl_bytes_some in H2 as (c & l' & -> & <- & H2).
    rewrite !runl_guard_some, runl_guard in H2. destruct H2 as (G2 & G3 & G4).
    apply Forall_app in Hl as [_ Hl]. apply Forall_app in Hl as [Hc _].
    exists c, l'. unfold tlv. rewrite <- app_assoc. split; [done|].
    destruct (negb ((length c =? 21)%nat && _)) eqn:G4'; [|discriminate]. injection G4 as <-. split; [done|].
    apply serial_tests_spec; [done|]. unfold serial_tests. by rewrite G1, G2, G3, G4'.
  - intros (c & l' & -> & -> & Hm). unfold tlv in *. rewrite <- app_assoc in *.
    apply Forall_app in Hl as [Hh Hl]. apply Forall_app in Hl as [Hc Hl'].
    apply serial_tests_spec in Hm; [|done]. unfold serial_tests in Hm. rewrite !andb_true_iff in Hm. destruct Hm as (((G1 & G2) & G3) & G4).
    assert (Hlen : (length c <= 21)%nat) by (destruct (Nat.ltb_spec 21 (length c)); [by rewrite orb_true_r in G1|lia]).
    exists (length c), (Some (c ++ l')). split.
    + apply read_header_iff; [by repeat apply Forall_app_2|]. exists (c ++ l'). rewrite length_app. split_and!; try done; lia.
    + rewrite runl_guard_some. split; [done|]. apply runl_bytes_some. exists c, l'. split_and!; try done.
      by rewrite !runl_guard_some, runl_guard, G4.
Qed.

(** ** Lemmas: dates *)

(** Two decimal digits, as characters. *)
Definition two (n : Z) : list Z := [n / 10 + 48; n mod 10 + 48].
(** UTCTime "YYMMDD000000Z". *)
Definition epoch_text (yy mm dd : Z) : list Z :=
  [0x17; 13] ++ two yy ++ two mm ++ two dd ++ replicate 6 48 ++ [0x5a].
Definition epoch_index (yy mm dd : Z) : Z := yy * 336 + (mm - 1) * 28 + (dd - 1).

Lemma read_digits_some c ds : bytes_ok c -> read_digits c = Some ds ->
  c = (fun d => d + 48) <$> ds /\ Forall (fun d => 0 <= d <= 9) ds.
Proof.
  intros Hc. revert ds. induction Hc as [|b c Hb Hc IH]; intros ds H; cbn in H.
  - injection H as <-. done.
  - unfold byte_ok in Hb. destruct (Z.ltb_spec 9 (u32 (b - 48))); [discriminate|].
    destruct (read_digits c) as [ds'|]; [|discriminate]. cbn in H. injection H as <-.
    destruct (IH ds' eq_refl) as [-> IHf].
    assert (E : u32 (b - 48) = b - 48 /\ 48 <= b) by word_lia. destruct E as [E E']. rewrite E in *.
    cbn. split; [f_equal; lia|]. constructor; [lia|done].
Qed.

Lemma read_digits_chars ds : Forall (fun d => 0 <= d <= 9) ds -> read_digits ((fun d => d + 48) <$> ds) = Some ds.
Proof.
  induction 1 as [|d ds Hd Hds IH]; [done|]. cbn. replace (d + 48 - 48) with d by lia.
  rewrite u32_small by (unfold u32_ok; lia). destruct (Z.ltb_spec 9 d); [lia|]. by rewrite IH.
Qed.

Lemma read_time_iff l c want s' : bytes_ok l ->
  runl read_time_bytes (Some l) = (Some (c, want), s') <->
  exists tag l', (tag = 0x17 /\ want = 13%nat \/ tag = 0x18 /\ want = 15%nat) /\ length c = want /\
    c !!! (want - 1)%nat = 0x5a /\ l = tag :: Z.of_nat want :: c ++ l' /\ s' = Some l'.
Proof.
  intros Hl. unfold read_time_bytes. split.
  - intros H. destruct l as [|tag l]; [rewrite runl_u8_nil in H; discriminate|]. rewrite runl_u8_cons in H.
    apply runl_bind_some in H as (w & s1 & Hw & H).
    assert (Htag : (tag = 0x17 /\ w = 13%nat \/ tag = 0x18 /\ w = 15%nat) /\ s1 = Some l).
    { destruct (Z.eqb_spec tag 0x17); [injection Hw as <- <-; auto|].
      destruct (Z.eqb_spec tag 0x18); [injection Hw as <- <-; auto|discriminate]. }
    destruct Htag as [Htag ->]. destruct l as [|n l].
    { rewrite runl_u8_nil, runl_guard_some in H. destruct H as [H _]. destruct Htag as [[_ ->]|[_ ->]]; discriminate. }
    rewrite runl_u8_cons, runl_guard_some, Z.eqb_eq in H. destruct H as [-> H].
    apply runl_bytes_some in H as (b & l' & -> & Hb & H). rewrite runl_guard_some, Z.eqb_eq in H.
    destruct H as [Hz H]. injection H as <- <- <-. exists tag, l'. done.
  - intros (tag & l' & Ht & Hc & Hz & -> & ->). rewrite runl_u8_cons, runl_bind_some.
    exists want, (Some (Z.of_nat want :: c ++ l')). split; [by destruct Ht as [[-> ->]|[-> ->]]|].
    rewrite runl_u8_cons, runl_guard_some, Z.eqb_eq. split; [done|]. apply runl_bytes_some. exists c, l'.
    split_and!; try done. by rewrite runl_guard_some, Z.eqb_eq.
Qed.

(** The date test and number of [x509_read_time_epoch] on twelve digits. *)
Lemma epoch_digits a b c d e f g h i j k m :
  Forall (fun d => 0 <= d <= 9) [a; b; c; d; e; f; g; h; i; j; k; m] ->
  let yy := a * 10 + b in let mm := c * 10 + d in let dd := e * 10 + f in
  ((a *32 10) +32 b) = yy /\ ((c *32 10) +32 d) = mm /\ ((e *32 10) +32 f) = dd /\
  g +32 h +32 i +32 j +32 k +32 m = g + h + i + j + k + m /\
  two yy = [a + 48; b + 48] /\ two mm = [c + 48; d + 48] /\ two dd = [e + 48; f + 48].
Proof.
  rewrite !Forall_cons. intros (A & B & C & D & E & F & G & H & I & J & K & M & _). cbn zeta.
  rewrite (u32_small (a * 10)), (u32_small (c * 10)), (u32_small (e * 10)) by (unfold u32_ok; lia).
  rewrite (u32_small (g + h)), (u32_small (g + h + i)), (u32_small (g + h + i + j)), (u32_small (g + h + i + j + k)),
    (u32_small (g + h + i + j + k + m)), (u32_small (a * 10 + b)), (u32_small (c * 10 + d)), (u32_small (e * 10 + f))
    by (unfold u32_ok; lia).
  unfold two. split_and!; try done; (apply (f_equal2 cons); [dlia|apply (f_equal2 cons); [dlia|done]]).
Qed.

Definition epoch_date (yy mm dd : Z) : Prop := 0 <= yy <= 49 /\ 1 <= mm <= 12 /\ 1 <= dd <= 28.

Lemma epoch_index_small yy mm dd : epoch_date yy mm dd ->
  (yy *32 336) +32 ((mm -32 1) *32 28) +32 (dd -32 1) = epoch_index yy mm dd.
Proof.
  intros (Hy & Hm & Hd). unfold epoch_index.
  rewrite (u32_small (mm - 1)), (u32_small (yy * 336)), (u32_small ((mm - 1) * 28)), (u32_small (dd - 1)),
    (u32_small (yy * 336 + _)), u32_small; unfold u32_ok; lia.
Qed.

Lemma read_epoch_sound l idx s' : bytes_ok l ->
  runl x509_read_time_epoch (Some l) = (Some (Some idx), s') ->
  exists yy mm dd l', epoch_date yy mm dd /\ l = epoch_text yy mm dd ++ l' /\ s' = Some l' /\ idx = epoch_index yy mm dd.
Proof.
  intros Hl H. unfold x509_read_time_epoch in H. apply runl_bind_some in H as ([c want] & s1 & H1 & H).
  apply read_time_iff in H1 as (tag & l' & Ht & Hc & Hz & -> & ->); [|done].
  destruct (Nat.eqb_spec want 13) as [->|]; [|discriminate]. destruct Ht as [[-> _]|[_ ?]]; [|discriminate]. cbn [negb] in H.
  rewrite !Forall_cons, Forall_app in Hl. destruct Hl as (_ & _ & Hcb & _).
  destruct (read_digits (take 12 c)) as [ds|] eqn:Ed; [|discriminate].
  apply read_digits_some in Ed as [Etake Hds]; [|by apply Forall_take].
  assert (Hdl : length ds = 12%nat) by (rewrite <- (length_fmap (fun d => d + 48)), <- Etake, length_take; lia).
  do 12 (destruct ds as [|? ds]; [discriminate Hdl|]). destruct ds; [|discriminate Hdl].
  destruct (epoch_digits _ _ _ _ _ _ _ _ _ _ _ _ Hds) as (E1 & E2 & E3 & E4 & T1 & T2 & T3).
  cbn [lookup_total list_lookup_total] in H. rewrite E1, E2, E3, E4 in H. rewrite !Forall_cons in Hds.
  match type of H with context [negb (?x =? 0)] => destruct (Z.eqb_spec x 0) as [Hz0|]; [|rewrite !orb_true_r in H; discriminate] end.
  match type of H with context [if ?c then _ else _] => destruct c eqn:Eg; [discriminate|] end.
  rewrite !orb_false_iff, !Z.ltb_ge in Eg. injection H as <- <-.
  do 4 eexists. split; [|split; [|split; [reflexivity|]]].
  2:{ unfold epoch_text. rewrite T1, T2, T3. rewrite <- (take_drop 12 c), Etake.
      assert (Hd : drop 12 c = [0x5a]).
      { do 13 (destruct c as [|? c]; [discriminate Hc|]). destruct c; [|discriminate Hc]. cbn in Hz |- *. by rewrite Hz. }
      rewrite Hd. cbn. repeat (apply (f_equal2 cons); [lia|]). done. }
  - unfold epoch_date. lia.
  - apply epoch_index_small. unfold epoch_date. lia.
Qed.

Lemma two_digits n : 0 <= n <= 99 -> two n = (fun d => d + 48) <$> [n / 10; n mod 10] /\ 0 <= n / 10 <= 9 /\ 0 <= n mod 10 <= 9.
Proof. intros Hn. split; [done|]. dlia. Qed.

Lemma read_epoch_complete yy mm dd l' : epoch_date yy mm dd ->
  bytes_ok (epoch_text yy mm dd ++ l') ->
  runl x509_read_time_epoch (Some (epoch_text yy mm dd ++ l')) = (Some (Some (epoch_index yy mm dd)), Some l').
Proof.
  intros (Hy & Hm & Hd) Hb. unfold x509_read_time_epoch. rewrite runl_bind_some.
  set (ds := [yy / 10; yy mod 10; mm / 10; mm mod 10; dd / 10; dd mod 10; 0; 0; 0; 0; 0; 0]).
  exists (((fun d => d + 48) <$> ds) ++ [0x5a], 13%nat), (Some l'). split.
  - apply read_time_iff; [done|]. exists 0x17, l'. split_and!; auto.
  - cbn [Nat.eqb negb]. rewrite take_app_le, take_ge by (cbn; lia).
    assert (Hds : Forall (fun d => 0 <= d <= 9) ds) by (repeat (constructor; [dlia|]); constructor).
    rewrite read_digits_chars by done.
    destruct (epoch_digits _ _ _ _ _ _ _ _ _ _ _ _ Hds) as (E1 & E2 & E3 & E4 & _).
    cbn [lookup_total list_lookup_total ds]. rewrite E1, E2, E3, E4.
    replace (yy / 10 * 10 + yy mod 10) with yy by dlia. replace (mm / 10 * 10 + mm mod 10) with mm by dlia.
    replace (dd / 10 * 10 + dd mod 10) with dd by dlia.
    destruct (Z.ltb_spec 49 yy), (Z.ltb_spec mm 1), (Z.ltb_spec 12 mm), (Z.ltb_spec dd 1), (Z.ltb_spec 28 dd); try lia.
    cbn [orb negb Z.eqb]. by rewrite epoch_index_small.
Qed.

(** ** Lemmas: keys *)

Lemma read_bitstring_iff {B} (f : list Z -> prog B) l a s' : bytes_ok l ->
  runl (x509_read_bitstring ≫= f) (Some l) = (Some a, s') <->
  exists bits l', l = tlv 0x03 (0 :: bits) ++ l' /\ Z.of_nat (length bits) + 1 < 2 ^ 16 /\
    runl (f bits) (Some l') = (Some a, s').
Proof.
  intros Hl. unfold x509_read_bitstring. rewrite runl_bind_some. split.
  - intros (bits & s1 & H & Hf). apply runl_bind_some in H as (n & s2 & H1 & H).
    apply read_header_iff in H1 as (l1 & -> & -> & Hn & H16); [|done].
    rewrite runl_guard_some, negb_true_iff, Nat.ltb_ge in H. destruct H as [Hn1 H].
    destruct l1 as [|z l1]; [cbn in Hn; lia|]. rewrite runl_u8_cons, runl_err, runl_guard_some in H. cbn [is_err] in H.
    destruct H as [Hz H]. rewrite orb_false_r, negb_involutive, Z.eqb_eq in Hz. subst z.
    rewrite runl_bytes in H. cbn [listn] in H. cbn [length] in Hn.
    destruct (Nat.ltb_spec (length l1) (n - 1)); [lia|]. injection H as <- <-.
    exists (take (n - 1) l1), (drop (n - 1) l1). unfold tlv. cbn [length]. rewrite length_take, Nat.min_l by lia.
    replace (S (n - 1)) with n by lia. rewrite <- app_assoc. cbn [app]. rewrite take_drop. split_and!; try done; lia.
  - intros (bits & l' & -> & H16 & Hf). exists bits, (Some l'). split; [|done]. unfold tlv in *. cbn [length] in *.
    rewrite <- app_assoc in *. apply runl_bind_some. exists (S (length bits)), (Some ((0 :: bits) ++ l')). split.
    + apply read_header_iff; [done|]. exists ((0 :: bits) ++ l'). rewrite length_app. cbn [length]. split_and!; try done; lia.
    + cbn [app]. rewrite runl_guard_some, runl_u8_cons, runl_err, runl_guard_some, runl_bytes. cbn.
      replace (length bits - 0)%nat with (length bits) by lia. rewrite length_app.
      destruct (Nat.ltb_spec (length bits + length l') (length bits)); [lia|].
      by rewrite take_app_length, drop_app_length.
Qed.

(** SubjectPublicKeyInfo with a fixed algorithm. *)
Definition spki (algid bits : list Z) : list Z := tlv 0x30 (algid ++ tlv 0x03 (0 :: bits)).

Lemma parse_spki_bits algid body bits : bytes_ok algid -> bytes_ok body ->
  parse (spki_bits algid) body = Some bits <->
  body = algid ++ tlv 0x03 (0 :: bits) /\ Z.of_nat (length bits) + 1 < 2 ^ 16.
Proof.
  intros Ha Hb. rewrite parse_some by done. unfold spki_bits. split.
  - intros (s' & H). apply read_exact_iff in H as (l1 & -> & H); [|done|done].
    apply Forall_app in Hb as [_ Hb]. apply read_bitstring_iff in H as (b & l' & -> & H16 & H); [|done].
    rewrite runl_err, runl_left, runl_guard_some in H. cbn [is_err left_of orb] in H.
    destruct H as [Hn H]. rewrite negb_involutive, Nat.eqb_eq in Hn. destruct l'; [|done]. injection H as <- _.
    by rewrite app_nil_r.
  - intros [-> H16]. exists (Some []). apply Forall_app in Hb as [_ Hb].
    apply read_exact_iff; [by apply Forall_app_2|done|]. eexists. split; [reflexivity|].
    apply read_bitstring_iff; [done|]. exists bits, []. rewrite app_nil_r. split_and!; try done.
Qed.

Lemma spki_body_iff {B} algid (f : list Z -> prog B) l a s' : bytes_ok l -> bytes_ok algid ->
  runl (spki_body algid ≫= f) (Some l) = (Some a, s') <->
  exists bits l', l = spki algid bits ++ l' /\ Z.of_nat (length (algid ++ tlv 0x03 (0 :: bits))) < 2 ^ 16 /\
    runl (f bits) (Some l') = (Some a, s').
Proof.
  intros Hl Ha. unfold spki_body. rewrite runl_bind_some. split.
  - intros (bits & s1 & H & Hf). apply read_tlv_iff in H as (c & l' & -> & H16 & H); [|done].
    apply Forall_app in Hl as [Hc _]. apply Forall_app in Hc as [_ Hc].
    apply runl_sub_some in H as [Hp <-]. apply parse_spki_bits in Hp as [-> _]; [|done|done]. by exists bits, l'.
  - intros (bits & l' & -> & H16 & Hf). exists bits, (Some l'). split; [|done].
    apply read_tlv_iff; [done|]. exists (algid ++ tlv 0x03 (0 :: bits)), l'. split_and!; try done.
    apply runl_sub_some. split; [|done]. apply Forall_app in Hl as [Hc _]. apply Forall_app in Hc as [_ Hc].
    apply parse_spki_bits; [done|done|]. split; [done|]. unfold tlv in H16. cbn [length] in H16.
    rewrite !length_app in H16. cbn [length] in H16. lia.
Qed.

(** The modulus [x509_read_spki] admits: 256 to 384 bytes, whole 64-bit words,
    top bit set, odd. *)
Definition rsa_modulus_ok (n : list Z) : Prop :=
  (256 <= length n <= 384)%nat /\ (length n mod 8 = 0)%nat /\ 128 <= n !!! 0%nat /\ (n !!! (length n - 1)%nat) mod 2 = 1.

Lemma read_rsa_modulus_iff {B} (f : list Z -> prog B) l a s' : bytes_ok l ->
  runl (read_rsa_modulus ≫= f) (Some l) = (Some a, s') <->
  exists n l', l = tlv 0x02 (0 :: n) ++ l' /\ rsa_modulus_ok n /\ runl (f n) (Some l') = (Some a, s').
Proof.
  intros Hl. unfold read_rsa_modulus, rsa_modulus_ok. rewrite runl_bind_some. split.
  - intros (v & s1 & H & Hf). apply runl_bind_some in H as (n & s2 & H1 & H).
    apply read_header_iff in H1 as (l1 & -> & -> & Hn & H16); [|done].
    rewrite runl_guard_some, negb_true_iff, Nat.ltb_ge in H. destruct H as [Hn1 H].
    destruct l1 as [|z l1]; [cbn in Hn; lia|]. rewrite runl_u8_cons, runl_err, runl_guard_some in H. cbn [is_err] in H.
    destruct H as [Hz H]. rewrite orb_false_r, negb_involutive, Z.eqb_eq in Hz. subst z.
    apply runl_bytes_some in H as (b & l' & -> & Hbl & H). rewrite !runl_guard_some in H. destruct H as (G1 & G2 & G3 & H).
    injection H as <- <-. rewrite Forall_app, Forall_cons, Forall_app in Hl. destruct Hl as (_ & _ & Hb & _).
    pose proof (bytes_ok_total b 0 Hb). pose proof (bytes_ok_total b (length b - 1) Hb).
    rewrite top_bit, negb_true_iff, Z.ltb_ge in G1 by done. rewrite <- Hbl, low_bit, negb_true_iff, Z.eqb_neq in G3 by done.
    rewrite negb_true_iff, !orb_false_iff, !Nat.ltb_ge, negb_false_iff, Nat.eqb_eq, <- Hbl in G2.
    exists b, l'. unfold tlv. cbn [length]. replace (S (length b)) with n by lia. rewrite <- app_assoc.
    split_and!; try done; try lia. dlia.
  - intros (n & l' & -> & ((Hlo & Hhi) & H8 & Htop & Hodd) & Hf). exists n, (Some l'). split; [|done].
    unfold tlv in *. cbn [length] in *. rewrite <- app_assoc in *. apply runl_bind_some.
    exists (S (length n)), (Some ((0 :: n) ++ l')). split.
    + apply read_header_iff; [done|]. exists ((0 :: n) ++ l'). rewrite length_app. cbn [length]. split_and!; try done; lia.
    + cbn [app] in *. rewrite Forall_app, Forall_cons, Forall_app in Hl. destruct Hl as (_ & _ & Hb & _).
      pose proof (bytes_ok_total n 0 Hb). pose proof (bytes_ok_total n (length n - 1) Hb).
      rewrite runl_guard_some, runl_u8_cons, runl_err, runl_guard_some. cbn [is_err].
      split; [rewrite negb_true_iff, Nat.ltb_ge; lia|]. split; [done|].
      replace (S (length n) - 1)%nat with (length n) by lia. apply runl_bytes_some. exists n, l'. split_and!; try done.
      rewrite !runl_guard_some, top_bit, low_bit by done.
      rewrite !negb_true_iff, !orb_false_iff, !Nat.ltb_ge, negb_false_iff, Nat.eqb_eq, Z.ltb_ge, Z.eqb_neq.
      split_and!; try done; lia.
Qed.

(** RSAPublicKey with the one exponent. *)
Definition rsa_key (n : list Z) : list Z := tlv 0x30 (tlv 0x02 (0 :: n) ++ spki_exponent).

Lemma spki_exponent_ok : bytes_ok spki_exponent.
Proof. repeat (constructor; [unfold byte_ok; lia|]); constructor. Qed.

Lemma tlv_unfold tag c : tlv tag c = x509_emit_header tag (length c) ++ c.
Proof. done. Qed.

Lemma length_tlv tag c : (length c + 2 <= length (tlv tag c) <= length c + 4)%nat.
Proof. unfold tlv. rewrite length_app. pose proof (header_length (length c) tag). lia. Qed.

Lemma parse_rsa_public_key bits n : bytes_ok bits ->
  parse rsa_public_key bits = Some n <-> bits = rsa_key n /\ rsa_modulus_ok n.
Proof.
  intros Hb. rewrite parse_some by done. unfold rsa_public_key. split.
  - intros (s' & H). apply runl_bind_some in H as (k & s1 & H1 & H).
    apply read_header_iff in H1 as (l1 & -> & -> & Hk & H16); [|done].
    rewrite runl_left, runl_guard_some, Nat.eqb_eq in H. cbn [left_of] in H. destruct H as [-> H].
    apply Forall_app in Hb as [_ Hb]. apply read_rsa_modulus_iff in H as (m & l2 & -> & Hm & H); [|done].
    apply Forall_app in Hb as [_ Hb]. apply read_exact_iff in H as (l3 & -> & H); [|done|apply spki_exponent_ok].
    rewrite runl_bind, runl_done in H. destruct l3; [|discriminate]. injection H as <- _. by rewrite app_nil_r.
  - intros [-> Hm]. unfold rsa_key in *. rewrite tlv_unfold in *. exists (Some []). apply runl_bind_some.
    do 2 eexists. split; [apply read_header_iff; [done|]; eexists; split_and!; [reflexivity..|done|]|].
    { rewrite length_app. pose proof (length_tlv 2 (0 :: n)). cbn [length] in *. destruct Hm as [? _].
      change (length spki_exponent) with 5%nat. lia. }
    apply Forall_app in Hb as [_ Hb]. rewrite runl_left, runl_guard_some, Nat.eqb_eq. split; [done|].
    apply read_rsa_modulus_iff; [done|]. exists n, spki_exponent. split_and!; try done; apply Hm.
Qed.

Lemma parse_ec_point bits key : bytes_ok bits ->
  parse ec_point bits = Some key <-> bits = 0x04 :: key /\ length key = 64%nat.
Proof.
  intros Hb. rewrite parse_some by done. unfold ec_point. split.
  - intros (s' & H). destruct bits as [|m l]; [by rewrite runl_u8_nil, runl_err in H|].
    rewrite runl_u8_cons, runl_err, runl_guard_some in H. cbn [is_err] in H. destruct H as [Hm H].
    rewrite orb_false_r, negb_involutive, Z.eqb_eq in Hm. subst m.
    apply runl_bytes_some in H as (b & l' & -> & Hl & H). rewrite runl_left, runl_guard_some, Nat.eqb_eq in H.
    destruct H as [H0 H]. destruct l'; [|discriminate]. injection H as <- _. by rewrite app_nil_r.
  - intros [-> Hl]. exists (Some []). rewrite runl_u8_cons, runl_err, runl_guard_some. split; [done|].
    apply runl_bytes_some. exists key, []. rewrite app_nil_r. split_and!; done.
Qed.

Lemma algid_ok : bytes_ok spki_algid_ecdsa /\ bytes_ok spki_algid_mldsa /\ bytes_ok spki_algid_rsa.
Proof. split_and!; repeat (constructor; [unfold byte_ok; lia|]); constructor. Qed.

(** The bits of an accepted key are bytes of the input. *)
Lemma spki_bits_ok algid bits l' : bytes_ok (spki algid bits ++ l') -> bytes_ok bits.
Proof. unfold spki, tlv. rewrite !Forall_app, Forall_cons. tauto. Qed.

(** The length limit of the outer SEQUENCE, met by every admitted key. *)
Lemma spki_fits algid bits : (length algid <= 21)%nat -> (length bits <= 2592)%nat ->
  Z.of_nat (length (algid ++ tlv 0x03 (0 :: bits))) < 2 ^ 16.
Proof. intros. rewrite length_app. pose proof (length_tlv 3 (0 :: bits)). cbn [length] in *. lia. Qed.

Lemma spki_ecdsa_iff l key l' : bytes_ok l ->
  runl x509_read_spki_ecdsa (Some l) = (Some key, Some l') <->
  l = spki spki_algid_ecdsa (0x04 :: key) ++ l' /\ length key = 64%nat.
Proof.
  intros Hl. unfold x509_read_spki_ecdsa. rewrite spki_body_iff by (done || apply algid_ok). split.
  - intros (bits & l1 & -> & _ & H). apply runl_sub_some in H as [H [= ->]].
    by apply parse_ec_point in H as [-> ?]; [|by eapply spki_bits_ok].
  - intros [-> Hk]. exists (0x04 :: key), l'. split; [done|]. split; [apply spki_fits; cbn; lia|].
    apply runl_sub_some. split; [|done]. apply parse_ec_point; [by eapply spki_bits_ok|done].
Qed.

Lemma spki_mldsa_iff l key l' : bytes_ok l ->
  runl x509_read_spki_mldsa (Some l) = (Some key, Some l') <->
  l = spki spki_algid_mldsa key ++ l' /\ length key = 2592%nat.
Proof.
  intros Hl. unfold x509_read_spki_mldsa. rewrite spki_body_iff by (done || apply algid_ok). split.
  - intros (bits & l1 & -> & _ & H). rewrite runl_guard_some, Nat.eqb_eq in H. destruct H as [Hk H].
    by injection H as <- <-.
  - intros [-> Hk]. exists key, l'. split; [done|]. split; [apply spki_fits; cbn; lia|].
    by rewrite runl_guard_some, Nat.eqb_eq.
Qed.

Lemma spki_rsa_iff l key l' : bytes_ok l ->
  runl x509_read_spki_rsa (Some l) = (Some key, Some l') <->
  l = spki spki_algid_rsa (rsa_key key) ++ l' /\ rsa_modulus_ok key.
Proof.
  intros Hl. unfold x509_read_spki_rsa. rewrite spki_body_iff by (done || apply algid_ok). split.
  - intros (bits & l1 & -> & _ & H). apply runl_sub_some in H as [H [= ->]].
    by apply parse_rsa_public_key in H as [-> ?]; [|by eapply spki_bits_ok].
  - intros [-> Hk]. exists (rsa_key key), l'. split; [done|]. split.
    + apply spki_fits; [cbn; lia|]. unfold rsa_key. pose proof (length_tlv 0x30 (tlv 2 (0 :: key) ++ spki_exponent)) as H1.
      rewrite length_app in H1. pose proof (length_tlv 2 (0 :: key)). destruct Hk as [? _]. cbn [length] in *.
      change (length spki_exponent) with 5%nat in *. lia.
    + apply runl_sub_some. split; [|done]. apply parse_rsa_public_key; [by eapply spki_bits_ok|done].
Qed.

(** ** Lemmas: extensions *)

Definition ext_content (x : x509_extension) : list Z :=
  tlv 0x06 (x_oid x) ++ (if x_critical x then [0x01; 0x01; 0xff] else []) ++ tlv 0x04 (x_value x).
Definition ext_ok (x : x509_extension) : Prop :=
  (1 <= length (x_oid x) <= 16)%nat /\ oid_minimal (x_oid x) = true /\ Z.of_nat (length (x_value x)) < 2 ^ 16.

(** The tail common to both arms: the OCTET STRING's tag, length and bytes. *)
Lemma read_octets_iff {B} (f : list Z -> B) t l a s' : bytes_ok l ->
  runl (e ← err_; guard_ (negb (negb (t =? 0x04) || e));; vlen ← x509_read_len; value ← bytes_ vlen; done_;; Ret (f value))
    (Some l) = (Some a, s') <->
  exists v, t :: l = tlv 0x04 v /\ Z.of_nat (length v) < 2 ^ 16 /\ a = f v /\ s' = Some [].
Proof.
  intros Hl. rewrite runl_err, runl_guard_some. cbn [is_err]. rewrite orb_false_r, negb_involutive, Z.eqb_eq. unfold tlv. split.
  - intros [-> H]. apply runl_bind_some in H as (n & s1 & H1 & H).
    apply read_len_iff in H1 as (l1 & -> & -> & Hn & H16); [|done].
    apply runl_bytes_some in H as (v & l2 & -> & <- & H). rewrite runl_bind, runl_done in H.
    destruct l2; [|discriminate]. injection H as <- <-. exists v. by rewrite app_nil_r, emit_header_cons.
  - intros (v & E & H16 & -> & ->). rewrite emit_header_cons in E. injection E as -> ->. split; [done|].
    apply runl_bind_some. exists (length v), (Some v). split; [apply read_len_iff; [done|]; by exists v|].
    apply runl_bytes_some. exists v, []. by rewrite app_nil_r.
Qed.

Lemma parse_extension_body body x : bytes_ok body ->
  parse extension_body body = Some x <-> body = ext_content x /\ ext_ok x.
Proof.
  intros Hb. rewrite parse_some by done. unfold extension_body, ext_content, ext_ok. split.
  - intros (s' & H). apply runl_bind_some in H as (k & s1 & H1 & H).
    apply read_header_iff in H1 as (l1 & -> & -> & Hk & _); [|done]. apply Forall_app in Hb as [_ Hb].
    rewrite runl_guard_some, negb_true_iff, orb_false_iff, Nat.eqb_neq, Nat.ltb_ge in H. destruct H as [Hk' H].
    apply runl_bytes_some in H as (oid & l2 & -> & <- & H). rewrite runl_guard_some in H. destruct H as [Hmin H].
    apply Forall_app in Hb as [_ Hb]. rewrite tlv_unfold, <- app_assoc.
    destruct l2 as [|t l2]; [by rewrite runl_u8_nil in H|]. rewrite runl_u8_cons in H.
    apply Forall_cons in Hb as [_ Hb]. apply runl_bind_some in H as ([t' crit] & s1 & H1 & H). cbn [fst snd] in H.
    destruct (Z.eqb_spec t 0x01) as [->|Ht].
    + destruct l2 as [|bl [|bv [|t l3]]]; [by cbn in H1|cbn in H1; rewrite !orb_true_r in H1; by cbn in H1|
        |rewrite !Forall_cons in Hb; destruct Hb as (_ & _ & _ & Hb)].
      { cbn in H1. destruct (negb _ || negb _ || false); [by cbn in H1|]. cbn in H1. injection H1 as <- <- <-. by cbn in H. }
      cbn in H1. destruct (Z.eqb_spec bl 1) as [->|]; [|by cbn in H1]. destruct (Z.eqb_spec bv 0xff) as [->|]; [|by cbn in H1].
      cbn in H1. injection H1 as <- <- <-. apply read_octets_iff in H as (v & E & H16 & -> & _); [|done].
      cbn [x_oid x_critical x_value]. rewrite <- E. cbn. split_and!; try done; lia.
    + injection H1 as <- <- <-. apply read_octets_iff in H as (v & E & H16 & -> & _); [|done].
      cbn [x_oid x_critical x_value]. rewrite <- E. cbn. split_and!; try done; lia.
  - intros [-> ((Hlo & Hhi) & Hmin & H16)]. exists (Some []). rewrite (tlv_unfold 0x06), <- app_assoc in *.
    apply runl_bind_some. do 2 eexists.
    split; [apply read_header_iff; [done|]; eexists; split_and!; [reflexivity..|rewrite length_app; lia|lia]|].
    rewrite runl_guard_some, negb_true_iff, orb_false_iff, Nat.eqb_neq, Nat.ltb_ge. split; [lia|].
    apply runl_bytes_some. do 2 eexists. split_and!; [reflexivity..|]. rewrite runl_guard_some. split; [done|].
    rewrite !Forall_app in Hb. destruct Hb as (_ & _ & _ & Hb).
    destruct (x_critical x) eqn:Ec; unfold tlv in *; rewrite emit_header_cons in *; cbn [app] in *; apply Forall_cons in Hb as [_ Hb].
    + rewrite runl_u8_cons. cbn [Z.eqb Pos.eqb]. apply runl_bind_some. exists (0x04, true). eexists. split; [reflexivity|].
      cbn [fst snd]. apply (read_octets_iff (fun v => X509Ext (x_oid x) v true)); [done|].
      exists (x_value x). unfold tlv. rewrite emit_header_cons. rewrite <- Ec. by destruct x.
    + rewrite runl_u8_cons. cbn [Z.eqb Pos.eqb]. apply runl_bind_some. exists (0x04, false). eexists. split; [reflexivity|].
      cbn [fst snd]. apply (read_octets_iff (fun v => X509Ext (x_oid x) v false)); [done|].
      exists (x_value x). unfold tlv. rewrite emit_header_cons. rewrite <- Ec. by destruct x.
Qed.

Lemma read_extension_iff cap l x s' : bytes_ok l ->
  runl (x509_read_extension cap) (Some l) = (Some x, s') <->
  exists l', l = tlv 0x30 (ext_content x) ++ l' /\ s' = Some l' /\ ext_ok x /\
    Z.of_nat (length (ext_content x)) < 2 ^ 16 /\ (length (tlv 0x30 (ext_content x)) <= cap)%nat.
Proof.
  intros Hl. unfold x509_read_extension. rewrite runl_left. cbn [left_of]. rewrite runl_bind_some. split.
  - intros (n & s1 & H1 & H). apply read_header_iff in H1 as (l1 & -> & -> & Hn & H16); [|done].
    rewrite runl_left, runl_guard_some, negb_true_iff, Nat.ltb_ge in H. cbn [left_of] in H. destruct H as [Hcap H].
    apply runl_bytes_some in H as (b & l' & -> & <- & H). apply runl_sub_some in H as [H <-].
    rewrite !Forall_app in Hl. apply parse_extension_body in H as [-> Hx]; [|apply Hl]. exists l'.
    unfold tlv. rewrite <- app_assoc. split_and!; try done; try apply Hx. rewrite !length_app in *. lia.
  - intros (l' & -> & -> & Hx & H16 & Hcap). rewrite tlv_unfold, <- app_assoc in *. do 2 eexists.
    split; [apply read_header_iff; [done|]; eexists; split_and!; [reflexivity..|rewrite length_app; lia|done]|].
    rewrite runl_left, runl_guard_some, negb_true_iff, Nat.ltb_ge. cbn [left_of]. rewrite !length_app in *. split; [lia|].
    apply runl_bytes_some. do 2 eexists. split_and!; [reflexivity..|]. apply runl_sub_some. split; [|done].
    rewrite !Forall_app in Hl. apply parse_extension_body; [apply Hl|done].
Qed.

(** A named bit list in its one DER form: one or two octets, the last one not
    zero, with [unused] its count of trailing zero bits. *)
Definition named_bits (unused : Z) (bits : list Z) : Prop :=
  (1 <= length bits <= 2)%nat /\ 0 <= unused <= 7 /\
  exists k, last bits = Some ((2 * k + 1) * 2 ^ unused).

Lemma named_bits_tests u b : byte_ok u -> byte_ok b ->
  negb ((7 <? u) || (b =? 0)) && (b .& u8 ((1 <<32 u) -32 1) =? 0) && negb ((b >> u) .& 1 =? 0) = true <->
  0 <= u <= 7 /\ exists k, b = (2 * k + 1) * 2 ^ u.
Proof.
  intros Hu Hb. unfold byte_ok in *. rewrite !andb_true_iff, negb_true_iff, orb_false_iff, Z.ltb_ge, Z.eqb_neq, negb_true_iff, Z.eqb_eq, Z.eqb_neq.
  assert (Hm : u <= 7 -> u8 ((1 <<32 u) -32 1) = 2 ^ u - 1 /\ 0 < 2 ^ u).
  { intros H7. assert (0 < 2 ^ u <= 2 ^ 7) by (split; [lia|apply Z.pow_le_mono_r; lia]).
    rewrite Z.shiftl_mul_pow2 by lia. rewrite (u32_small (1 * _)), (u32_small (_ - 1)), u8_small; unfold u32_ok, byte_ok; lia. }
  split.
  - intros [[[H7 Hb0] Hlow] Hodd]. destruct (Hm H7) as [Em Hp]. rewrite Em, (land_mask u) in Hlow by (lia || by rewrite Z.ones_equiv).
    rewrite (land_mask 1), Z.shiftr_div_pow2 in Hodd by (done || lia). split; [lia|]. exists (b / 2 ^ u / 2).
    pose proof (Z.div_mod b (2 ^ u)). replace (2 * (b / 2 ^ u / 2) + 1) with (b / 2 ^ u) by dlia. lia.
  - intros [H7 [k ->]]. destruct (Hm (proj2 H7)) as [-> Hp]. rewrite (land_mask u) by (lia || by rewrite Z.ones_equiv).
    rewrite (land_mask 1), Z.shiftr_div_pow2 by (done || lia). rewrite Z.div_mul, Z.mod_mul by lia.
    split_and!; [lia|intros E; apply Z.mul_eq_0 in E; lia|done|clear; dlia].
Qed.

(** A header, a test of its length, and its content octets. *)
Lemma read_tlv_guard_iff {B} tag g (f : nat -> list Z -> prog B) l a s' : bytes_ok l ->
  runl (len ← x509_read_header tag; guard_ (g len);; c ← bytes_ len; f len c) (Some l) = (Some a, s') <->
  exists c l', l = tlv tag c ++ l' /\ Z.of_nat (length c) < 2 ^ 16 /\ g (length c) = true /\
    runl (f (length c) c) (Some l') = (Some a, s').
Proof.
  intros Hl. rewrite runl_bind_some. split.
  - intros (n & s1 & H1 & H2). rewrite runl_guard_some in H2. destruct H2 as [Hg H2].
    apply read_header_iff in H1 as (l1 & -> & -> & Hn & H16); [|done].
    apply runl_bytes_some in H2 as (c & l' & -> & <- & H2). exists c, l'. unfold tlv. by rewrite <- app_assoc.
  - intros (c & l' & -> & H16 & Hg & H). unfold tlv in *. rewrite <- app_assoc in *. exists (length c), (Some (c ++ l')). split.
    + apply read_header_iff; [done|]. exists (c ++ l'). rewrite length_app. split_and!; try done. lia.
    + rewrite runl_guard_some. split; [done|]. apply runl_bytes_some. by exists c, l'.
Qed.

Lemma keyusage_tests unused bits required l' : byte_ok unused -> bytes_ok bits -> (1 <= length bits <= 2)%nat ->
  (exists s', runl (
    e ← err_; n ← left_;
    guard_ (negb (e || negb (n =? 0)%nat));;
    let last := (unused :: bits) !!! (S (length bits) - 1)%nat in
    guard_ (negb ((7 <? unused) || (last =? 0)));;
    guard_ (last .& u8 ((1 <<32 unused) -32 1) =? 0);;
    guard_ (negb ((last >> unused) .& 1 =? 0));;
    guard_ (negb (((unused :: bits) !!! 1%nat) .& required =? 0))) (Some l') = (Some (), s')) <->
  l' = [] /\ named_bits unused bits /\ (bits !!! 0%nat) .& required <> 0.
Proof.
  intros Hu Hb Hlen. assert (El : exists x, last bits = Some x /\ (unused :: bits) !!! (S (length bits) - 1)%nat = x /\ byte_ok x).
  { destruct bits as [|b1 [|b2 [|]]]; cbn in Hlen; try lia; rewrite ?Forall_cons in Hb; eexists; split_and!; done || apply Hb. }
  destruct El as (x & El & -> & Hx). unfold named_bits. rewrite El.
  pose proof (named_bits_tests unused x Hu Hx) as Ht. rewrite !andb_true_iff in Ht. split.
  - intros (s' & H). rewrite runl_err, runl_left, !runl_guard_some in H. cbn [is_err left_of orb] in H.
    destruct H as (H0 & H1 & H2 & H3 & H4). rewrite runl_guard in H4. rewrite negb_involutive, Nat.eqb_eq in H0.
    destruct l'; [|done]. destruct Ht as [Ht _]. destruct (Ht (conj (conj H1 H2) H3)) as [H7 [k Ek]].
    destruct (Z.eqb_spec ((unused :: bits) !!! 1%nat .& required) 0); [discriminate|].
    split_and!; try done; try lia. exists k. by rewrite Ek.
  - intros (-> & (_ & H7 & k & Ek) & Hr). injection Ek as Ek. destruct Ht as [_ Ht].
    destruct (Ht (conj H7 (ex_intro _ k Ek))) as [[H1 H2] H3]. exists (Some []). rewrite runl_err, runl_left, !runl_guard_some.
    split_and!; try done. rewrite runl_guard. by destruct (Z.eqb_spec ((unused :: bits) !!! 1%nat .& required) 0).
Qed.

Lemma parse_keyusage required v : bytes_ok v ->
  x509_read_keyusage v required = true <->
  exists unused bits, v = tlv 0x03 (unused :: bits) /\ named_bits unused bits /\ (bits !!! 0%nat) .& required <> 0.
Proof.
  intros Hv. unfold x509_read_keyusage.
  transitivity (exists s', runl (keyusage required) (Some v) = (Some (), s')).
  { rewrite <- parse_some by done. destruct (parse (keyusage required) v) as [[]|]; done. }
  unfold keyusage. split.
  - intros (s' & H). apply read_tlv_guard_iff in H as (c & l' & -> & H16 & Hg & H); [|done].
    rewrite negb_true_iff, orb_false_iff, !Nat.ltb_ge in Hg. destruct c as [|u bits]; [cbn in Hg; lia|]. cbn [length] in *.
    unfold tlv in Hv. rewrite !Forall_app, Forall_cons in Hv. destruct Hv as [[_ [Hu Hb]] _].
    destruct (keyusage_tests u bits required l' Hu Hb ltac:(lia)) as [Ht _].
    destruct (Ht (ex_intro _ s' H)) as (-> & ? & ?). exists u, bits. by rewrite app_nil_r.
  - intros (u & bits & -> & Hn & Hr). pose proof Hv as Hv'. unfold tlv in Hv'. rewrite !Forall_app, Forall_cons in Hv'.
    destruct Hv' as [_ [Hu Hb]]. pose proof (proj1 Hn) as Hlen.
    destruct (keyusage_tests u bits required [] Hu Hb Hlen) as [_ Ht]. destruct (Ht (conj eq_refl (conj Hn Hr))) as [s' H].
    exists s'. apply read_tlv_guard_iff; [done|]. exists (u :: bits), []. rewrite app_nil_r. cbn [length].
    split_and!; try done; [lia|]. rewrite negb_true_iff, orb_false_iff, !Nat.ltb_ge. lia.
Qed.

(** ** Properties *)

(** On a cursor that stands at the bytes [l], [x509_read_header tag]
    succeeds with length [n] and leaves the cursor at [l'] exactly when [l] is
    what [x509_emit_header tag n] writes followed by [l'], the content fits in
    what follows, and [n] is below 2^16.  Each (tag, length) so has one
    accepted encoding, and reader and writer are inverse. *)
Theorem der_header_canonical r l tag n l' : at_bytes r l -> bytes_ok l ->
  (exists r', run (x509_read_header tag) r = (Some n, r') /\ at_bytes r' l') <->
  l = x509_emit_header tag n ++ l' /\ (n <= length l')%nat /\ Z.of_nat n < 2 ^ 16.
Proof.
  intros Hr Hl. rewrite (run_at _ _ _ _ _ Hr), read_header_iff by done. naive_solver.
Qed.

Lemma der_header_canonical_witness :
  exists r', run (x509_read_header 0x30) (rb_init [0x30; 0x01; 0x05] 3) = (Some 1%nat, r') /\ at_bytes r' [0x05].
Proof.
  apply (der_header_canonical _ [0x30; 0x01; 0x05]).
  - apply at_init_all. repeat (constructor; [unfold byte_ok; lia|]); constructor.
  - repeat (constructor; [unfold byte_ok; lia|]); constructor.
  - vm_compute. split_and!; try lia; done.
Defined.

(** [x509_read_serial] accepts exactly the INTEGERs that are positive,
    below 2^160 and in their shortest two's-complement form (a leading zero
    octet only before a set top bit), and stops right after one. *)
Theorem der_serial_exact r l l' : at_bytes r l -> bytes_ok l ->
  (exists r', run x509_read_serial r = (Some (), r') /\ at_bytes r' l') <->
  exists c, l = tlv 0x02 c ++ l' /\ minimal_int c /\ be_val c < 2 ^ 160.
Proof.
  intros Hr Hl. rewrite (run_at _ _ _ _ _ Hr), read_serial_iff by done. naive_solver.
Qed.

Lemma der_serial_exact_witness :
  exists r', run x509_read_serial (rb_init [0x02; 0x02; 0x00; 0x80; 0x07] 5) = (Some (), r') /\ at_bytes r' [0x07].
Proof.
  apply (der_serial_exact _ [0x02; 0x02; 0x00; 0x80; 0x07]).
  - apply at_init_all. repeat (constructor; [unfold byte_ok; lia|]); constructor.
  - repeat (constructor; [unfold byte_ok; lia|]); constructor.
  - exists [0x00; 0x80]. split; [vm_compute; reflexivity|]. unfold minimal_int. vm_compute. split_and!; try done; try lia. by right.
Defined.

(** The epoch calendar: [x509_read_time_epoch] yields [Some idx] exactly
    on the UTCTime of a date with year 00-49, month 1-12, day 1-28 at midnight,
    [idx] is that date's number, numbers lie in 0 .. 16799, and two dates with
    the same number are the same date. *)
Theorem der_epoch_bijection :
  (forall r l idx l', at_bytes r l -> bytes_ok l ->
    (exists r', run x509_read_time_epoch r = (Some (Some idx), r') /\ at_bytes r' l') <->
    exists yy mm dd, epoch_date yy mm dd /\ l = epoch_text yy mm dd ++ l' /\ idx = epoch_index yy mm dd) /\
  (forall yy mm dd, epoch_date yy mm dd -> 0 <= epoch_index yy mm dd <= 16799) /\
  (forall yy mm dd yy' mm' dd', epoch_date yy mm dd -> epoch_date yy' mm' dd' ->
    epoch_index yy mm dd = epoch_index yy' mm' dd' -> yy = yy' /\ mm = mm' /\ dd = dd').
Proof.
  split_and!.
  - intros r l idx l' Hr Hl. rewrite (run_at _ _ _ _ _ Hr) by done. split.
    + intros H. destruct (read_epoch_sound _ _ _ Hl H) as (yy & mm & dd & l1 & ? & ? & [= <-] & ?). by exists yy, mm, dd.
    + intros (yy & mm & dd & Hd & -> & ->). by apply read_epoch_complete.
  - unfold epoch_date, epoch_index. lia.
  - unfold epoch_date, epoch_index. lia.
Qed.

Lemma der_epoch_bijection_witness :
  exists r', run x509_read_time_epoch (rb_init (epoch_text 26 3 9) 15) = (Some (Some 8800), r') /\ at_bytes r' [].
Proof.
  apply (proj1 der_epoch_bijection _ (epoch_text 26 3 9)).
  - apply (at_init_all (epoch_text 26 3 9)). vm_compute. repeat (constructor; [split; discriminate || reflexivity|]); constructor.
  - vm_compute. repeat (constructor; [split; discriminate || reflexivity|]); constructor.
  - exists 26, 3, 9. unfold epoch_date. split_and!; try lia; done.
Defined.

(** C31. For each pinned key type [x509_read_spki] accepts exactly one encoding
    of each key, and returns that key: the algorithm's fixed identifier, a BIT
    STRING with no unused bits, and inside it the uncompressed 64-byte point
    (ECDSA), the 2592 bytes (ML-DSA), or the RSAPublicKey with an admitted
    modulus and exponent 65537 (RSA); nothing may follow inside any of them. *)
Theorem der_spki_exact r l l' key : at_bytes r l -> bytes_ok l ->
  ((exists r', run x509_read_spki_ecdsa r = (Some key, r') /\ at_bytes r' l') <->
   l = spki spki_algid_ecdsa (0x04 :: key) ++ l' /\ length key = 64%nat) /\
  ((exists r', run x509_read_spki_mldsa r = (Some key, r') /\ at_bytes r' l') <->
   l = spki spki_algid_mldsa key ++ l' /\ length key = 2592%nat) /\
  ((exists r', run x509_read_spki_rsa r = (Some key, r') /\ at_bytes r' l') <->
   l = spki spki_algid_rsa (rsa_key key) ++ l' /\ rsa_modulus_ok key).
Proof.
  intros Hr Hl. rewrite !(run_at _ _ _ _ _ Hr).
  split_and!; [apply spki_ecdsa_iff|apply spki_mldsa_iff|apply spki_rsa_iff]; done.
Qed.

Lemma der_spki_exact_witness :
  exists r', run x509_read_spki_ecdsa (rb_init (spki spki_algid_ecdsa (0x04 :: replicate 64 7)) 91) = (Some (replicate 64 7), r') /\
    at_bytes r' [].
Proof.
  assert (Hb : bytes_ok (spki spki_algid_ecdsa (0x04 :: replicate 64 7))).
  { vm_compute. repeat (constructor; [split; discriminate || reflexivity|]); constructor. }
  apply (proj1 (der_spki_exact _ (spki spki_algid_ecdsa (0x04 :: replicate 64 7)) [] (replicate 64 7) (at_init_all _ Hb) Hb)).
  by rewrite app_nil_r.
Defined.

(** [x509_read_extension tlv_cap] accepts exactly the canonical encodings
    of extensions whose whole TLV fits [tlv_cap], with an identifier of 1 to 16
    octets in minimal base 128 and [critical] present exactly when TRUE, and
    returns the extension encoded; [x509_read_keyusage] accepts exactly the
    minimal named bit lists that assert the required bit. *)
Theorem der_extension_exact :
  (forall r l cap x l', at_bytes r l -> bytes_ok l ->
    (exists r', run (x509_read_extension cap) r = (Some x, r') /\ at_bytes r' l') <->
    l = tlv 0x30 (ext_content x) ++ l' /\ ext_ok x /\ Z.of_nat (length (ext_content x)) < 2 ^ 16 /\
    (length (tlv 0x30 (ext_content x)) <= cap)%nat) /\
  (forall v required, bytes_ok v ->
    x509_read_keyusage v required = true <->
    exists unused bits, v = tlv 0x03 (unused :: bits) /\ named_bits unused bits /\ (bits !!! 0%nat) .& required <> 0).
Proof.
  split.
  - intros r l cap x l' Hr Hl. rewrite (run_at _ _ _ _ _ Hr), read_extension_iff by done. naive_solver.
  - intros v required Hv. by apply parse_keyusage.
Qed.

Lemma der_extension_exact_witness :
  let x := X509Ext [0x55; 0x1d; 0x0f] [0x03; 0x02; 0x02; 0x04] true in
  (exists r', run (x509_read_extension 64) (rb_init (tlv 0x30 (ext_content x)) 16) = (Some x, r') /\ at_bytes r' []) /\
  x509_read_keyusage (x_value x) 0x04 = true.
Proof.
  set (x := X509Ext _ _ _). assert (Hb : bytes_ok (tlv 0x30 (ext_content x))).
  { vm_compute. repeat (constructor; [split; discriminate || reflexivity|]); constructor. }
  split.
  - apply (proj1 der_extension_exact _ _ 64%nat x [] (at_init_all _ Hb) Hb). rewrite app_nil_r. unfold ext_ok.
    vm_compute. split_and!; try done; try lia.
  - apply (proj2 der_extension_exact (x_value x)).
    + vm_compute. repeat (constructor; [split; discriminate || reflexivity|]); constructor.
    + exists 0x02, [0x04]. unfold named_bits. split; [done|]. split; [|done]. cbn. split_and!; try lia. by exists 0.
Defined.
End Der.
