(* ===== verification/WebTime.v ===== *)
(** * Certificate dates and the caller's clock: src/src/webpki_time.c

    The two Time encodings of RFC 5280 and a clock in seconds, both packed as
    YYYYMMDDHHMMSS.  The packed numbers are shown to be those of the Gregorian
    calendar, and to order as the instants do. *)

From S2P Require Import Prelude Ct Buf Reader Der.
Local Open Scope Z_scope.
Local Open Scope word_scope.

Module WebTime.
Import Der.

Definition PACK_YEAR : Z := 10000000000.
Definition PACK_MONTH : Z := 100000000.
Definition PACK_DAY : Z := 1000000.
Definition PACK_HOUR : Z := 10000.
Definition PACK_MINUTE : Z := 100.
Definition SECONDS_MAX : Z := 253402300799.
Definition TAG_UTC_TIME : Z := 0x17.
Definition TAG_GENERALIZED_TIME : Z := 0x18.
Definition UTC_TIME_LEN : nat := 13.
Definition GENERALIZED_TIME_LEN : nat := 15.

Record civil_time := Civil { year : Z; month : Z; day : Z; hour : Z; minute : Z; second : Z }.

Definition month_days : list Z := [0; 31; 28; 31; 30; 31; 30; 31; 31; 30; 31; 30; 31].

Definition pack (t : civil_time) : Z :=
  u64 (year t * PACK_YEAR) +64 u64 (month t * PACK_MONTH) +64 u64 (day t * PACK_DAY) +64
  u64 (hour t * PACK_HOUR) +64 u64 (minute t * PACK_MINUTE) +64 second t.

(** A pointer [c] is the bytes it points at; [return 0] is [None]. *)
Definition read_pair (c : list Z) : option Z :=
  let hi := (c !!! 0%nat) -32 48 in
  let lo := (c !!! 1%nat) -32 48 in
  if (9 <? hi) || (9 <? lo) then None else Some ((hi *32 10) +32 lo).

Definition read_year (c : list Z) (body_len : nat) : option (Z * Z) :=
  if (body_len =? UTC_TIME_LEN)%nat then
    low ← read_pair c;
    Some (if (50 <=? low) then 19 else 20, low)
  else
    century ← read_pair c;
    low ← read_pair (drop 2 c);
    if (2050 <=? (century *32 100) +32 low) then Some (century, low) else None.

(** month, day, hour, minute, second *)
Definition read_clock (c : list Z) : option (Z * Z * Z * Z * Z) :=
  month ← read_pair c;
  day ← read_pair (drop 2 c);
  hour ← read_pair (drop 4 c);
  minute ← read_pair (drop 6 c);
  second ← read_pair (drop 8 c);
  Some (month, day, hour, minute, second).

Definition fields_in_range (t : civil_time) (leap : bool) : bool :=
  if (month t <? 1) || (12 <? month t) then false
  else
    let days := month_days !!! Z.to_nat (month t) in
    let days := if (month t =? 2) && leap then 29 else days in
    (1 <=? day t) && (day t <=? days) && (hour t <=? 23) && (minute t <=? 59) && (second t <=? 59).

Definition is_leap_year (century low : Z) : bool :=
  if negb (low =? 0) then (low .& 3 =? 0) else (century .& 3 =? 0).

Definition read_body (c : list Z) (body_len : nat) : option civil_time :=
  y ← read_year c body_len;
  let '(century, low) := y in
  let at_ := if (body_len =? UTC_TIME_LEN)%nat then 2%nat else 4%nat in
  f ← read_clock (drop at_ c);
  let '(mo, d, h, mi, s) := f in
  if negb (c !!! (body_len - 1)%nat =? 0x5a) then None
  else
    let t := Civil ((century *32 100) +32 low) mo d h mi s in
    if fields_in_range t (is_leap_year century low) then Some t else None.

Definition webpki_read_time : prog Z :=
  tag ← u8_;
  body_len ← (if (tag =? TAG_UTC_TIME) then Ret UTC_TIME_LEN
              else if (tag =? TAG_GENERALIZED_TIME) then Ret GENERALIZED_TIME_LEN
              else Fail);
  len ← x509_read_len;
  guard_ (len =? body_len)%nat;;
  c ← bytes_ body_len;
  match read_body c body_len with
  | None => Fail
  | Some t => Ret (pack t)
  end.

(** The date of a day number, with hour, minute and second left to the caller. *)
Definition civil_from_days (days : Z) : Z * Z * Z :=
  let days_since_march_0000 := days +32 719468 in
  let era := days_since_march_0000 / 146097 in
  let day_of_era := days_since_march_0000 -32 (era *32 146097) in
  let year_of_era :=
    (day_of_era -32 day_of_era / 1460 +32 day_of_era / 36524 -32 day_of_era / 146096) / 365 in
  let day_of_year := day_of_era -32 ((365 *32 year_of_era) +32 year_of_era / 4 -32 year_of_era / 100) in
  let month_from_march := ((5 *32 day_of_year) +32 2) / 153 in
  let day := day_of_year -32 ((153 *32 month_from_march) +32 2) / 5 +32 1 in
  let month := if (month_from_march <? 10) then month_from_march +32 3 else month_from_march -32 9 in
  let year := year_of_era +32 (era *32 400) +32 (if (month <=? 2) then 1 else 0) in
  (year, month, day).

Definition webpki_pack_seconds (now_seconds : Z) : Z :=
  let now_seconds := if (SECONDS_MAX <? now_seconds) then SECONDS_MAX else now_seconds in
  let '(y, mo, d) := civil_from_days (u32 (now_seconds / 86400)) in
  let second_of_day := u32 (now_seconds mod 86400) in
  let h := second_of_day / 3600 in
  let second_of_hour := second_of_day -32 (h *32 3600) in
  let mi := second_of_hour / 60 in
  let s := second_of_hour -32 (mi *32 60) in
  pack (Civil y mo d h mi s).

(** ** Reference: the proleptic Gregorian calendar *)

Definition leap (y : Z) : bool := (y mod 4 =? 0) && (negb (y mod 100 =? 0) || (y mod 400 =? 0)).
Definition days_in_month (y m : Z) : Z :=
  if (m =? 2) then (if leap y then 29 else 28)
  else if (m =? 4) || (m =? 6) || (m =? 9) || (m =? 11) then 30 else 31.
(** Leap years among 0 .. y - 1. *)
Definition leap_years_before (y : Z) : Z := (y + 3) / 4 - (y + 99) / 100 + (y + 399) / 400.
(** Days of the months before [m] in year [y]. *)
Definition days_before_month (y m : Z) : Z :=
  fold_left (fun n k => if (k <? m) then n + days_in_month y k else n) [1; 2; 3; 4; 5; 6; 7; 8; 9; 10; 11] 0.
(** Days from 1970-01-01, the 719528th day after 0000-01-01. *)
Definition days_of (y m d : Z) : Z := 365 * y + leap_years_before y + days_before_month y m + (d - 1) - 719528.
Definition seconds_of (t : civil_time) : Z :=
  days_of (year t) (month t) (day t) * 86400 + hour t * 3600 + minute t * 60 + second t.
Definition civil_ok (t : civil_time) : Prop :=
  0 <= year t <= 9999 /\ 1 <= month t <= 12 /\ 1 <= day t <= days_in_month (year t) (month t) /\
  0 <= hour t <= 23 /\ 0 <= minute t <= 59 /\ 0 <= second t <= 59.

(** The one encoding RFC 5280 gives an instant: UTCTime through 2049. *)
Definition time_text (t : civil_time) : list Z :=
  (if (year t <? 2050) then two (year t mod 100) else two (year t / 100) ++ two (year t mod 100)) ++
  two (month t) ++ two (day t) ++ two (hour t) ++ two (minute t) ++ two (second t) ++ [0x5a].
Definition time_der (t : civil_time) : list Z :=
  tlv (if (year t <? 2050) then TAG_UTC_TIME else TAG_GENERALIZED_TIME) (time_text t).

(** The last instant of the packed range. *)
Definition last_second : civil_time := Civil 9999 12 31 23 59 59.

Example epoch_packs : webpki_pack_seconds 0 = 19700101000000. Proof. reflexivity. Qed.
Example leap_day_packs : webpki_pack_seconds 951782400 = 20000229000000. Proof. reflexivity. Qed.
Example last_packs : seconds_of last_second = SECONDS_MAX /\ webpki_pack_seconds SECONDS_MAX = pack last_second. Proof. vm_compute. done. Qed.

(** ** Lemmas: the calendar *)

Lemma leap_years_next y : leap_years_before (y + 1) = leap_years_before y + (if leap y then 1 else 0).
Proof.
  unfold leap_years_before, leap. destruct (Z.eqb_spec (y mod 4) 0), (Z.eqb_spec (y mod 100) 0), (Z.eqb_spec (y mod 400) 0); cbn [andb orb negb]; dlia.
Qed.

Lemma leap_years_succ y : leap_years_before (y + 1) = y / 4 - y / 100 + y / 400 + 1.
Proof. unfold leap_years_before. dlia. Qed.

Lemma leap_years_mono y z : y <= z -> leap_years_before y <= leap_years_before z.
Proof. unfold leap_years_before. intros. dlia. Qed.

Lemma leap_shift y e : leap (y + e * 400) = leap y.
Proof.
  unfold leap. replace (y + e * 400) with (y + (e * 100) * 4) at 1 by lia. rewrite Z.mod_add by lia.
  replace (y + e * 400) with (y + (e * 4) * 100) at 1 by lia. rewrite Z.mod_add by lia. by rewrite Z.mod_add by lia.
Qed.

Lemma days_in_month_shift y e m : days_in_month (y + e * 400) m = days_in_month y m.
Proof. unfold days_in_month. by rewrite leap_shift. Qed.

(** 400 years are 146097 days. *)
Lemma days_of_shift y e m d : days_of (y + e * 400) m d = days_of y m d + e * 146097.
Proof.
  assert (E : days_before_month (y + e * 400) m = days_before_month y m).
  { unfold days_before_month. cbn [fold_left]. by rewrite !days_in_month_shift. }
  unfold days_of. rewrite E. unfold leap_years_before.
  replace (y + e * 400 + 3) with (y + 3 + (e * 100) * 4) by lia. replace (y + e * 400 + 99) with (y + 99 + (e * 4) * 100) by lia.
  replace (y + e * 400 + 399) with (y + 399 + e * 400) by lia. rewrite !Z.div_add by lia. lia.
Qed.

(** A month's case, with its days. *)
Lemma month_cases (P : Z -> Prop) m : 1 <= m <= 12 ->
  P 1 -> P 2 -> P 3 -> P 4 -> P 5 -> P 6 -> P 7 -> P 8 -> P 9 -> P 10 -> P 11 -> P 12 -> P m.
Proof.
  intros Hm. intros. assert (Hc : m = 1 \/ m = 2 \/ m = 3 \/ m = 4 \/ m = 5 \/ m = 6 \/ m = 7 \/ m = 8 \/ m = 9 \/ m = 10 \/ m = 11 \/ m = 12) by lia.
  by repeat destruct Hc as [->|Hc]; subst.
Qed.

Lemma days_before_next y m : 1 <= m <= 11 -> days_before_month y (m + 1) = days_before_month y m + days_in_month y m.
Proof.
  intros Hm. assert (Hm' : 1 <= m <= 12) by lia. revert Hm. pattern m. apply month_cases; [done|..]; intros; try lia;
    unfold days_before_month, days_in_month; destruct (leap y); reflexivity.
Qed.

(** Days before each month of a common year. *)
Definition days_before_table_common : list Z := [0; 31; 59; 90; 120; 151; 181; 212; 243; 273; 304; 334].
Lemma days_before_table y m : 1 <= m <= 12 ->
  days_before_month y m = (days_before_table_common !!! Z.to_nat (m - 1)) + (if (2 <? m) && leap y then 1 else 0).
Proof.
  intros Hm. pattern m. apply month_cases; [done|..]; unfold days_before_month, days_in_month; destruct (leap y); reflexivity.
Qed.

Lemma days_in_month_pos y m : 28 <= days_in_month y m <= 31.
Proof. unfold days_in_month. repeat case_match; lia. Qed.

Lemma days_before_year_end y m : 1 <= m <= 12 -> days_before_month y m + days_in_month y m <= 365 + (if leap y then 1 else 0).
Proof.
  intros Hm. pattern m. apply month_cases; [done|..]; unfold days_before_month, days_in_month; destruct (leap y); vm_compute; discriminate.
Qed.

Lemma days_before_mono y m k : 1 <= m <= k -> k <= 12 -> days_before_month y m <= days_before_month y k.
Proof.
  intros Hm Hk. replace k with (m + Z.of_nat (Z.to_nat (k - m))) by lia. assert (Hb : m + Z.of_nat (Z.to_nat (k - m)) <= 12) by lia.
  revert Hb. induction (Z.to_nat (k - m)) as [|n IH]; intros Hb; [rewrite Z.add_0_r; lia|].
  replace (m + Z.of_nat (S n)) with (m + Z.of_nat n + 1) by lia. rewrite days_before_next by lia.
  pose proof (days_in_month_pos y (m + Z.of_nat n)). specialize (IH ltac:(lia)). lia.
Qed.

(** Dates order as their day numbers. *)
Lemma days_of_mono y m d y' m' d' : 1 <= m <= 12 -> 1 <= d <= days_in_month y m -> 1 <= m' <= 12 -> 1 <= d' ->
  y < y' \/ y = y' /\ (m < m' \/ m = m' /\ d < d') -> days_of y m d < days_of y' m' d'.
Proof.
  intros Hm Hd Hm' Hd' [Hy|[<- [Hmm|[<- Hdd]]]]; unfold days_of.
  - pose proof (days_before_year_end y m Hm). pose proof (leap_years_next y). pose proof (leap_years_mono (y + 1) y' ltac:(lia)).
    pose proof (days_before_mono y' 1 m' ltac:(lia) ltac:(lia)) as Hz. change (days_before_month y' 1) with 0 in Hz. lia.
  - pose proof (days_before_mono y (m + 1) m' ltac:(lia) ltac:(lia)). pose proof (days_before_next y m ltac:(lia)). lia.
  - lia.
Qed.

(** ** Lemmas: the day number of an era

    A year of an era runs from March; [start k] is the first day of year [k]. *)

Definition start (k : Z) : Z := if (k =? 400) then 146097 else 365 * k + k / 4 - k / 100.
Definition year_count (doe : Z) : Z := doe - doe / 1460 + doe / 36524 - doe / 146096.

Lemma year_count_step doe : 0 <= doe < 146096 -> year_count doe <= year_count (doe + 1).
Proof. unfold year_count. intros. dlia. Qed.

Lemma year_count_mono a b : 0 <= a <= b -> b <= 146096 -> year_count a <= year_count b.
Proof.
  intros Ha Hb. replace b with (a + Z.of_nat (Z.to_nat (b - a))) by lia. assert (Hn : a + Z.of_nat (Z.to_nat (b - a)) <= 146096) by lia.
  revert Hn. induction (Z.to_nat (b - a)) as [|n IH]; intros Hn; [rewrite Z.add_0_r; lia|].
  replace (a + Z.of_nat (S n)) with (a + Z.of_nat n + 1) by lia. pose proof (year_count_step (a + Z.of_nat n) ltac:(lia)).
  specialize (IH ltac:(lia)). lia.
Qed.

(** The year formula is right at the first and last day of each year. *)
Lemma year_ends k : 0 <= k < 400 ->
  year_count (start k) / 365 = k /\ year_count (start (k + 1) - 1) / 365 = k /\ 0 <= start k < start (k + 1) /\ start (k + 1) <= 146097.
Proof.
  intros Hk. assert (H : (year_count (start k) / 365 =? k) && (year_count (start (k + 1) - 1) / 365 =? k) && (0 <=? start k) &&
    (start k <? start (k + 1)) && (start (k + 1) <=? 146097) = true).
  { apply (forallb_below 400 (fun k => (year_count (start k) / 365 =? k) && (year_count (start (k + 1) - 1) / 365 =? k) && (0 <=? start k) &&
      (start k <? start (k + 1)) && (start (k + 1) <=? 146097))); [vm_compute; reflexivity|lia]. }
  rewrite !andb_true_iff, !Z.eqb_eq, Z.ltb_lt, !Z.leb_le in H. tauto.
Qed.

Lemma year_of_day doe : 0 <= doe <= 146096 ->
  let k := year_count doe / 365 in 0 <= k < 400 /\ start k <= doe < start (k + 1).
Proof.
  intros Hd k. pose proof (year_count_mono 0 doe ltac:(lia) ltac:(lia)) as H0. pose proof (year_count_mono doe 146096 ltac:(lia) ltac:(lia)) as H1.
  change (year_count 0) with 0 in H0. change (year_count 146096) with 145999 in H1.
  assert (Hk : 0 <= k < 400) by (subst k; dlia). split; [done|]. split.
  - destruct (Z.le_gt_cases (start k) doe) as [|Hlt]; [done|exfalso].
    destruct (Z.eq_dec k 0) as [E|E]; [rewrite E in Hlt; change (start 0) with 0 in Hlt; lia|].
    destruct (year_ends (k - 1) ltac:(lia)) as (_ & He & _). replace (k - 1 + 1) with k in He by lia.
    destruct (year_ends k Hk) as (_ & _ & Hs & Hs').
    pose proof (year_count_mono doe (start k - 1) ltac:(lia) ltac:(lia)). subst k. dlia.
  - destruct (Z.le_gt_cases (start (k + 1)) doe) as [Hge|]; [exfalso|lia].
    destruct (Z.eq_dec k 399) as [E|E]; [rewrite E in Hge; change (start (399 + 1)) with 146097 in Hge; lia|].
    destruct (year_ends (k + 1) ltac:(lia)) as (He & _ & Hs & _).
    pose proof (year_count_mono (start (k + 1)) doe ltac:(lia) ltac:(lia)). subst k. dlia.
Qed.

(** A year from March: the month and day of each of its days. *)
Definition month_of (doy : Z) : Z := (5 * doy + 2) / 153.
Definition day_of (doy : Z) : Z := doy - (153 * month_of doy + 2) / 5 + 1.
Definition civil_month (mp : Z) : Z := if (mp <? 10) then mp + 3 else mp - 9.

Ltac march_case :=
  match goal with |- context [civil_month ?mp] =>
    let m := eval vm_compute in (civil_month mp) in change (civil_month mp) with m;
    let b := eval vm_compute in (m <=? 2) in change (m <=? 2) with b; cbv iota beta;
    let c := eval vm_compute in ((153 * mp + 2) / 5) in change ((153 * mp + 2) / 5) with c;
    rewrite (days_before_table _ m) by lia; rewrite ?Z.add_0_r; unfold days_in_month;
    let t := eval vm_compute in (days_before_table_common !!! Z.to_nat (m - 1)) in
    change (days_before_table_common !!! Z.to_nat (m - 1)) with t;
    repeat match goal with |- context [m =? ?x] => let v := eval vm_compute in (m =? x) in change (m =? x) with v end;
    let v := eval vm_compute in (2 <? m) in change (2 <? m) with v; cbn [andb orb]
  end;
  repeat match goal with H : context [leap ?y] |- _ => destruct (leap y) end; lia.

Lemma march_day_in_month k doy : 0 <= k < 400 -> 0 <= doy < start (k + 1) - start k ->
  let m := civil_month (month_of doy) in let y := k + (if (m <=? 2) then 1 else 0) in
  0 <= month_of doy <= 11 /\ 1 <= m <= 12 /\ 1 <= day_of doy <= days_in_month y m /\
  days_of y m (day_of doy) = start k + doy + 60 - 719528.
Proof.
  intros Hk Hd. cbv zeta.
  assert (Hl : start (k + 1) - start k = 365 + (if leap (k + 1) then 1 else 0) /\ start k = 365 * k + k / 4 - k / 100).
  { unfold start. destruct (Z.eqb_spec k 400); [lia|]. split; [|done]. destruct (Z.eqb_spec (k + 1) 400) as [E|E]; [replace k with 399 by lia; done|].
    unfold leap. destruct (Z.eqb_spec ((k + 1) mod 4) 0), (Z.eqb_spec ((k + 1) mod 100) 0), (Z.eqb_spec ((k + 1) mod 400) 0); cbn [andb orb negb]; dlia. }
  destruct Hl as [Hl Es]. rewrite Hl in Hd. rewrite Es.
  pose proof (leap_years_next k) as Hn. pose proof (leap_years_succ k) as Hs. replace (k / 400) with 0 in Hs by (symmetry; apply Z.div_small; lia).
  assert (Hm : 0 <= month_of doy <= 11) by (unfold month_of; destruct (leap (k + 1)); dlia). split; [done|].
  assert (Hmp : exists mp, month_of doy = mp /\ 153 * mp <= 5 * doy + 2 < 153 * mp + 153) by (exists (month_of doy); split; [done|]; unfold month_of; dlia).
  destruct Hmp as (mp & Em & Hmp). unfold day_of. rewrite Em in *. clear Em. unfold days_of. generalize dependent (k / 4). generalize dependent (k / 100). intros.
  assert (Hc : mp = 0 \/ mp = 1 \/ mp = 2 \/ mp = 3 \/ mp = 4 \/ mp = 5 \/ mp = 6 \/ mp = 7 \/ mp = 8 \/ mp = 9 \/ mp = 10 \/ mp = 11) by lia.
  repeat destruct Hc as [Hc|Hc]; subst mp; march_case.
Qed.

(** ** Lemmas: the clock *)

(** No step of [civil_from_days] wraps. *)
Lemma civil_from_days_exact days : 0 <= days <= 2932896 ->
  let n := days + 719468 in let era := n / 146097 in let k := year_count (n mod 146097) / 365 in
  let doy := n mod 146097 - start k in let m := civil_month (month_of doy) in
  civil_from_days days = (k + era * 400 + (if (m <=? 2) then 1 else 0), m, day_of doy).
Proof.
  intros Hd n era k doy m. unfold civil_from_days. rewrite (u32_small (days + 719468)) by (unfold u32_ok; lia). fold n. fold era.
  assert (He : 0 <= era <= 25) by (subst era n; dlia).
  assert (Hdoe : n -32 (era *32 146097) = n mod 146097).
  { rewrite (u32_small (era * 146097)) by (unfold u32_ok; lia). rewrite u32_small; subst era; [dlia|]. unfold u32_ok. dlia. }
  rewrite Hdoe. assert (Hr : 0 <= n mod 146097 <= 146096) by dlia. subst k m doy. generalize dependent (n mod 146097). intros doe _ Hr.
  assert (Hyc : doe -32 doe / 1460 +32 doe / 36524 -32 doe / 146096 = year_count doe).
  { unfold year_count. rewrite (u32_small (doe - doe / 1460)) by (unfold u32_ok; dlia).
    rewrite (u32_small (doe - doe / 1460 + doe / 36524)) by (unfold u32_ok; dlia). apply u32_small. unfold u32_ok. dlia. }
  rewrite Hyc. destruct (year_of_day doe Hr) as [Hk Hs]. set (k := year_count doe / 365) in *.
  destruct (march_day_in_month k (doe - start k) Hk ltac:(lia)) as (Hmp & Hm & Hday & _).
  assert (Hy : (365 *32 k) +32 k / 4 -32 k / 100 = start k).
  { unfold start. destruct (Z.eqb_spec k 400); [lia|]. rewrite (u32_small (365 * k)) by (unfold u32_ok; lia).
    rewrite (u32_small (365 * k + k / 4)) by (unfold u32_ok; dlia). apply u32_small. unfold u32_ok. dlia. }
  destruct (year_ends k Hk) as (_ & _ & Hs0 & Hs1).
  rewrite Hy. rewrite (u32_small (doe - start k)) by (unfold u32_ok; lia). set (doy := doe - start k) in *.
  assert (Hdoy : 0 <= doy <= 146097) by lia.
  rewrite (u32_small (5 * doy)) by (unfold u32_ok; lia). rewrite (u32_small (5 * doy + 2)) by (unfold u32_ok; lia). fold (month_of doy).
  rewrite (u32_small (153 * month_of doy)) by (unfold u32_ok; lia). rewrite (u32_small (153 * month_of doy + 2)) by (unfold u32_ok; lia).
  assert (Hdd : doy -32 (153 * month_of doy + 2) / 5 +32 1 = day_of doy).
  { unfold day_of in *. rewrite (u32_small (doy - _)) by (unfold u32_ok; dlia). apply u32_small.
    pose proof (days_in_month_pos (k + (if (civil_month (month_of doy) <=? 2) then 1 else 0)) (civil_month (month_of doy))). unfold u32_ok. lia. }
  rewrite Hdd. assert (Hmm : (if (month_of doy <? 10) then month_of doy +32 3 else month_of doy -32 9) = civil_month (month_of doy)).
  { unfold civil_month. destruct (Z.ltb_spec (month_of doy) 10); apply u32_small; unfold u32_ok; lia. }
  rewrite Hmm. rewrite (u32_small (era * 400)) by (unfold u32_ok; lia). rewrite (u32_small (k + era * 400)) by (unfold u32_ok; lia).
  rewrite u32_small; [done|]. unfold u32_ok. destruct (_ <=? 2); lia.
Qed.

Lemma civil_from_days_spec days y m d : 0 <= days <= 2932896 -> civil_from_days days = (y, m, d) ->
  0 <= y <= 9999 /\ 1 <= m <= 12 /\ 1 <= d <= days_in_month y m /\ days_of y m d = days.
Proof.
  intros Hd E. rewrite civil_from_days_exact in E by done. cbv zeta in E.
  set (n := days + 719468) in *. assert (Hr : 0 <= n mod 146097 <= 146096) by dlia. destruct (year_of_day _ Hr) as [Hk Hs].
  set (k := year_count (n mod 146097) / 365) in *. set (doy := n mod 146097 - start k) in *.
  destruct (march_day_in_month k doy Hk ltac:(lia)) as (Hmp & Hm & Hday & Hof). set (mm := civil_month (month_of doy)) in *.
  set (b := if (mm <=? 2) then 1 else 0) in *.
  assert (Ey : k + n / 146097 * 400 + b = (k + b) + n / 146097 * 400) by lia. rewrite Ey in E. injection E as <- <- <-.
  rewrite days_in_month_shift, days_of_shift, Hof. assert (Hb : 0 <= b <= 1) by (subst b; destruct (mm <=? 2); lia).
  assert (En : start k + doy + 60 - 719528 + n / 146097 * 146097 = days) by (subst doy n; dlia).
  split; [|split; [done|split; [done|exact En]]]. assert (He : 0 <= n / 146097) by (subst n; dlia). split; [lia|].
  destruct (Z.le_gt_cases (k + b + n / 146097 * 400) 9999) as [|Hgt]; [done|exfalso].
  pose proof (days_of_mono 9999 12 31 (k + b + n / 146097 * 400) mm (day_of doy) ltac:(lia) ltac:(vm_compute; split; discriminate) Hm ltac:(lia)
    ltac:(lia)) as Hlt. rewrite days_of_shift, Hof in Hlt. change (days_of 9999 12 31) with 2932896 in Hlt. lia.
Qed.

(** ** Lemmas: packing *)

Definition pack_spec (t : civil_time) : Z :=
  year t * PACK_YEAR + month t * PACK_MONTH + day t * PACK_DAY + hour t * PACK_HOUR + minute t * PACK_MINUTE + second t.

Lemma pack_exact t : civil_ok t -> pack t = pack_spec t.
Proof.
  intros (Hy & Hm & Hd & Hh & Hmi & Hs). pose proof (days_in_month_pos (year t) (month t)).
  unfold pack, pack_spec, PACK_YEAR, PACK_MONTH, PACK_DAY, PACK_HOUR, PACK_MINUTE.
  repeat (rewrite (u64_small (_ * _)) by (unfold u64_ok; lia)).
  repeat match goal with |- context [u64 (?a + ?b)] =>
    lazymatch a with context [u64 _] => fail | _ => rewrite (u64_small (a + b)) by (unfold u64_ok; lia) end end. done.
Qed.

(** Packed numbers order as instants. *)
Lemma pack_lt t u : civil_ok t -> civil_ok u -> seconds_of t < seconds_of u -> pack_spec t < pack_spec u.
Proof.
  intros Ht Hu Hlt. destruct Ht as (Hy & Hm & Hd & Hh & Hmi & Hs). destruct Hu as (Hy' & Hm' & Hd' & Hh' & Hmi' & Hs').
  pose proof (days_in_month_pos (year t) (month t)). pose proof (days_in_month_pos (year u) (month u)).
  pose proof (days_of_mono (year u) (month u) (day u) (year t) (month t) (day t) Hm' Hd' Hm ltac:(lia)) as Hrev.
  unfold pack_spec, PACK_YEAR, PACK_MONTH, PACK_DAY, PACK_HOUR, PACK_MINUTE. unfold seconds_of in Hlt.
  destruct (Z.eq_dec (year t) (year u)) as [Ey|Ey].
  2:{ destruct (Z.lt_trichotomy (year t) (year u)) as [?|[?|?]]; [lia|lia|]. specialize (Hrev ltac:(lia)). lia. }
  destruct (Z.eq_dec (month t) (month u)) as [Em|Em].
  2:{ destruct (Z.lt_trichotomy (month t) (month u)) as [?|[?|?]]; [lia|lia|]. specialize (Hrev ltac:(lia)). lia. }
  destruct (Z.eq_dec (day t) (day u)) as [Ed|Ed].
  2:{ destruct (Z.lt_trichotomy (day t) (day u)) as [?|[?|?]]; [lia|lia|]. specialize (Hrev ltac:(lia)). lia. }
  rewrite Ey, Em, Ed in *. lia.
Qed.

(** An instant has one date. *)
Lemma seconds_inj t u : civil_ok t -> civil_ok u -> seconds_of t = seconds_of u -> t = u.
Proof.
  intros Ht Hu E. destruct Ht as (Hy & Hm & Hd & Hh & Hmi & Hs). destruct Hu as (Hy' & Hm' & Hd' & Hh' & Hmi' & Hs').
  pose proof (days_of_mono (year u) (month u) (day u) (year t) (month t) (day t) Hm' Hd' Hm ltac:(lia)) as H1.
  pose proof (days_of_mono (year t) (month t) (day t) (year u) (month u) (day u) Hm Hd Hm' ltac:(lia)) as H2. unfold seconds_of in E.
  assert (Ey : year t = year u) by lia. assert (Em : month t = month u) by lia. assert (Ed : day t = day u) by lia.
  rewrite Ey, Em, Ed in E. destruct t, u; cbn in *. f_equal; lia.
Qed.

Lemma pack_order t u : civil_ok t -> civil_ok u -> pack t <= pack u <-> seconds_of t <= seconds_of u.
Proof.
  intros Ht Hu. rewrite !pack_exact by done. split; intros H.
  - destruct (Z.le_gt_cases (seconds_of t) (seconds_of u)) as [|Hgt]; [done|]. pose proof (pack_lt u t Hu Ht ltac:(lia)). lia.
  - destruct (Z.eq_dec (seconds_of t) (seconds_of u)) as [E|E]; [by rewrite (seconds_inj t u)|pose proof (pack_lt t u Ht Hu ltac:(lia)); lia].
Qed.

(** The clock packs as the date of its instant. *)
Lemma pack_seconds_date now : 0 <= now <= SECONDS_MAX ->
  exists t, civil_ok t /\ seconds_of t = now /\ webpki_pack_seconds now = pack t.
Proof.
  unfold SECONDS_MAX. intros Hn. unfold webpki_pack_seconds, SECONDS_MAX. destruct (Z.ltb_spec 253402300799 now); [lia|].
  rewrite (u32_small (now / 86400)) by (unfold u32_ok; dlia). destruct (civil_from_days (now / 86400)) as [[y m] d] eqn:E.
  apply civil_from_days_spec in E as (Hy & Hm & Hd & Hof); [|dlia]. rewrite (u32_small (now mod 86400)) by (unfold u32_ok; dlia).
  set (sod := now mod 86400) in *. assert (Hsod : 0 <= sod < 86400) by (subst sod; dlia).
  rewrite (u32_small (sod / 3600 * 3600)) by (unfold u32_ok; dlia). rewrite (u32_small (sod - _)) by (unfold u32_ok; dlia).
  set (soh := sod - sod / 3600 * 3600) in *. assert (Hsoh : 0 <= soh < 3600) by (subst soh; dlia).
  rewrite (u32_small (soh / 60 * 60)) by (unfold u32_ok; dlia). rewrite (u32_small (soh - _)) by (unfold u32_ok; dlia).
  eexists. split; [|split; [|reflexivity]].
  - unfold civil_ok; cbn [year month day hour minute second]. split_and!; try lia; dlia.
  - unfold seconds_of; cbn [year month day hour minute second]. rewrite Hof. subst soh sod. dlia.
Qed.

(** ** Lemmas: the two encodings *)

Lemma read_pair_app p l n : bytes_ok p -> length p = 2%nat -> read_pair (p ++ l) = Some n <-> 0 <= n <= 99 /\ p = two n.
Proof.
  intros Hp Hl. destruct p as [|a [|b [|]]]; try discriminate Hl. rewrite !Forall_cons in Hp. destruct Hp as (Ha & Hb & _).
  unfold read_pair. cbn [app lookup_total list_lookup_total]. unfold byte_ok in *. split.
  - destruct (Z.ltb_spec 9 (a -32 48)), (Z.ltb_spec 9 (b -32 48)); cbn [orb]; try discriminate. intros [= <-].
    assert (Ea : a -32 48 = a - 48 /\ 48 <= a) by word_lia. assert (Eb : b -32 48 = b - 48 /\ 48 <= b) by word_lia.
    destruct Ea as [Ea ?], Eb as [Eb ?]. rewrite Ea, Eb in *. rewrite (u32_small ((a - 48) * 10)) by (unfold u32_ok; lia).
    rewrite u32_small by (unfold u32_ok; lia). split; [lia|]. unfold two. apply (f_equal2 cons); [dlia|]. apply (f_equal2 cons); [dlia|done].
  - intros [Hn [= -> ->]]. replace (n / 10 + 48 - 48) with (n / 10) by lia. replace (n mod 10 + 48 - 48) with (n mod 10) by lia.
    rewrite (u32_small (n / 10)), (u32_small (n mod 10)) by (unfold u32_ok; dlia).
    destruct (Z.ltb_spec 9 (n / 10)), (Z.ltb_spec 9 (n mod 10)); try dlia. cbn [orb].
    rewrite (u32_small (n / 10 * 10)) by (unfold u32_ok; dlia). rewrite u32_small by (unfold u32_ok; dlia). f_equal. dlia.
Qed.

Lemma drop_pair (p l : list Z) k : length p = 2%nat -> drop (2 + k) (p ++ l) = drop k l.
Proof. intros Hp. by rewrite <- Hp, drop_app_add. Qed.

Lemma read_clock_iff p1 p2 p3 p4 p5 l mo d h mi s :
  bytes_ok p1 -> bytes_ok p2 -> bytes_ok p3 -> bytes_ok p4 -> bytes_ok p5 ->
  length p1 = 2%nat -> length p2 = 2%nat -> length p3 = 2%nat -> length p4 = 2%nat -> length p5 = 2%nat ->
  read_clock (p1 ++ p2 ++ p3 ++ p4 ++ p5 ++ l) = Some (mo, d, h, mi, s) <->
  Forall (fun n => 0 <= n <= 99) [mo; d; h; mi; s] /\ p1 ++ p2 ++ p3 ++ p4 ++ p5 = two mo ++ two d ++ two h ++ two mi ++ two s.
Proof.
  intros B1 B2 B3 B4 B5 L1 L2 L3 L4 L5. unfold read_clock.
  rewrite (drop_pair p1 _ 0), (drop_pair p1 _ 2), (drop_pair p2 _ 0), (drop_pair p1 _ 4), (drop_pair p2 _ 2), (drop_pair p3 _ 0),
    (drop_pair p1 _ 6), (drop_pair p2 _ 4), (drop_pair p3 _ 2), (drop_pair p4 _ 0), !drop_0 by done.
  split.
  - destruct (read_pair (p1 ++ _)) eqn:E1; [|discriminate]. destruct (read_pair (p2 ++ _)) eqn:E2; [|discriminate].
    destruct (read_pair (p3 ++ _)) eqn:E3; [|discriminate]. destruct (read_pair (p4 ++ _)) eqn:E4; [|discriminate].
    destruct (read_pair (p5 ++ _)) eqn:E5; [|discriminate]. cbn [mbind option_bind]. intros [= -> -> -> -> ->].
    apply read_pair_app in E1 as [? ->], E2 as [? ->], E3 as [? ->], E4 as [? ->], E5 as [? ->]; try done.
    split; [|done]. by rewrite !Forall_cons, Forall_nil.
  - rewrite !Forall_cons. intros [(H1 & H2 & H3 & H4 & H5 & _) E].
    apply app_inj_1 in E as [-> E]; [|done]. apply app_inj_1 in E as [-> E]; [|done]. apply app_inj_1 in E as [-> E]; [|done].
    apply app_inj_1 in E as [-> ->]; [|done].
    rewrite (proj2 (read_pair_app (two mo) _ mo B1 L1)) by done. rewrite (proj2 (read_pair_app (two d) _ d B2 L2)) by done.
    rewrite (proj2 (read_pair_app (two h) _ h B3 L3)) by done. rewrite (proj2 (read_pair_app (two mi) _ mi B4 L4)) by done.
    by rewrite (proj2 (read_pair_app (two s) _ s B5 L5)) by done.
Qed.

Lemma is_leap_year_spec c low : 0 <= low <= 99 -> is_leap_year c low = leap (c * 100 + low).
Proof.
  intros Hl. unfold is_leap_year, leap. rewrite !(land_mask 2) by done. change (2 ^ 2) with 4.
  destruct (Z.eqb_spec low 0) as [->|Hz]; cbn [negb].
  - rewrite Z.add_0_r. replace ((c * 100) mod 4) with 0 by dlia. replace ((c * 100) mod 100) with 0 by dlia. cbn [Z.eqb negb andb orb].
    destruct (Z.eqb_spec (c mod 4) 0), (Z.eqb_spec ((c * 100) mod 400) 0); try done; dlia.
  - destruct (Z.eqb_spec ((c * 100 + low) mod 100) 0); [dlia|]. cbn [negb orb]. rewrite andb_true_r.
    destruct (Z.eqb_spec (low mod 4) 0), (Z.eqb_spec ((c * 100 + low) mod 4) 0); try done; dlia.
Qed.

Lemma fields_in_range_spec t : 0 <= year t <= 9999 -> 0 <= day t -> 0 <= hour t -> 0 <= minute t -> 0 <= second t ->
  fields_in_range t (leap (year t)) = true <-> civil_ok t.
Proof.
  intros Hy Hd Hh Hm Hs. unfold fields_in_range, civil_ok.
  destruct (Z.ltb_spec (month t) 1) as [|H1]; [cbn; split; [discriminate|lia]|].
  destruct (Z.ltb_spec 12 (month t)) as [|H2]; [cbn; split; [discriminate|lia]|]. cbn [orb].
  assert (E : (if (month t =? 2) && leap (year t) then 29 else month_days !!! Z.to_nat (month t)) = days_in_month (year t) (month t)).
  { generalize (year t) as y. intros y. pattern (month t). apply month_cases; [lia|..]; unfold days_in_month; by destruct (leap y). }
  rewrite E, !andb_true_iff, !Z.leb_le. lia.
Qed.

(** Cutting the text into its two-character fields. *)
Lemma cut_pair (c : list Z) : (2 <= length c)%nat -> exists p l, c = p ++ l /\ length p = 2%nat.
Proof. intros H. exists (take 2 c), (drop 2 c). rewrite take_drop, length_take. split; [done|lia]. Qed.

Lemma cut_clock (c : list Z) : length c = 11%nat ->
  exists p1 p2 p3 p4 p5 z, c = p1 ++ p2 ++ p3 ++ p4 ++ p5 ++ [z] /\
    length p1 = 2%nat /\ length p2 = 2%nat /\ length p3 = 2%nat /\ length p4 = 2%nat /\ length p5 = 2%nat.
Proof.
  intros H. destruct (cut_pair c ltac:(lia)) as (p1 & c1 & -> & L1). rewrite length_app in H.
  destruct (cut_pair c1 ltac:(lia)) as (p2 & c2 & -> & L2). rewrite length_app in H.
  destruct (cut_pair c2 ltac:(lia)) as (p3 & c3 & -> & L3). rewrite length_app in H.
  destruct (cut_pair c3 ltac:(lia)) as (p4 & c4 & -> & L4). rewrite length_app in H.
  destruct (cut_pair c4 ltac:(lia)) as (p5 & c5 & -> & L5). rewrite length_app in H.
  destruct c5 as [|z [|]]; cbn in H; try lia. exists p1, p2, p3, p4, p5, z. done.
Qed.

(** The clock part and the trailing [Z], after a year of [k] characters. *)
Definition clock_text (t : civil_time) : list Z :=
  two (month t) ++ two (day t) ++ two (hour t) ++ two (minute t) ++ two (second t) ++ [0x5a].
Definition read_rest (y : Z * Z) (c : list Z) (z : Z) : option civil_time :=
  let '(century, low) := y in
  f ← read_clock c;
  let '(mo, d, h, mi, s) := f in
  if negb (z =? 0x5a) then None
  else
    let t := Civil ((century *32 100) +32 low) mo d h mi s in
    if fields_in_range t (is_leap_year century low) then Some t else None.

Lemma read_rest_iff century low c t : bytes_ok c -> length c = 11%nat -> 0 <= century <= 99 -> 0 <= low <= 99 ->
  read_rest (century, low) c (c !!! 10%nat) = Some t <->
  civil_ok t /\ year t = century * 100 + low /\ c = clock_text t.
Proof.
  intros Hc Hl Hce Hlo. destruct (cut_clock c Hl) as (p1 & p2 & p3 & p4 & p5 & z & -> & L1 & L2 & L3 & L4 & L5).
  rewrite !Forall_app in Hc. destruct Hc as (B1 & B2 & B3 & B4 & B5 & Bz).
  assert (Ez : (p1 ++ p2 ++ p3 ++ p4 ++ p5 ++ [z]) !!! 10%nat = z).
  { rewrite !app_assoc. rewrite lookup_total_app_r by (rewrite !length_app; lia). rewrite !length_app, L1, L2, L3, L4, L5. done. }
  rewrite Ez. unfold read_rest. assert (Ey : (century *32 100) +32 low = century * 100 + low).
  { rewrite (u32_small (century * 100)) by (unfold u32_ok; lia). apply u32_small. unfold u32_ok. lia. }
  rewrite Ey, is_leap_year_spec by done. split.
  - destruct (read_clock _) as [[[[[mo d] h] mi] s]|] eqn:E; [|discriminate]. cbn [mbind option_bind].
    apply read_clock_iff in E as [Hf E]; try done. rewrite !Forall_cons in Hf. destruct Hf as (H1 & H2 & H3 & H4 & H5 & _).
    destruct (Z.eqb_spec z 0x5a) as [->|]; [|discriminate]. cbn [negb]. set (t' := Civil _ mo d h mi s).
    destruct (fields_in_range t' _) eqn:Ef; [|discriminate]. intros [= <-].
    apply (fields_in_range_spec t') in Ef; [|cbn [t' year day hour minute second]; lia..].
    split; [done|]. split; [done|]. unfold clock_text. cbn [t' month day hour minute second].
    rewrite !app_assoc. apply (f_equal (fun l => l ++ [0x5a])). by rewrite <- !app_assoc.
  - intros (Ht & Hy & E). pose proof Ht as (Hy' & Hm & Hd & Hh & Hmi & Hs). pose proof (days_in_month_pos (year t) (month t)).
    assert (E' : (p1 ++ p2 ++ p3 ++ p4 ++ p5) ++ [z] = (two (month t) ++ two (day t) ++ two (hour t) ++ two (minute t) ++ two (second t)) ++ [0x5a])
      by (rewrite <- !app_assoc; exact E).
    apply app_inj_2 in E' as [E1 [= ->]]; [|done].
    rewrite (proj2 (read_clock_iff p1 p2 p3 p4 p5 [0x5a] (month t) (day t) (hour t) (minute t) (second t) B1 B2 B3 B4 B5 L1 L2 L3 L4 L5)).
    2:{ split; [|done]. rewrite !Forall_cons, Forall_nil. lia. }
    cbn [mbind option_bind Z.eqb Pos.eqb negb]. rewrite <- Hy. destruct t as [y mo d h mi s]. cbn [year month day hour minute second] in *.
    assert (Ef : fields_in_range (Civil y mo d h mi s) (leap y) = true)
      by exact (proj2 (fields_in_range_spec (Civil y mo d h mi s) Hy' ltac:(cbn; lia) ltac:(cbn; lia) ltac:(cbn; lia) ltac:(cbn; lia)) Ht).
    by rewrite Ef.
Qed.

Lemma read_body_utc_iff c t : bytes_ok c -> length c = 13%nat ->
  read_body c UTC_TIME_LEN = Some t <-> civil_ok t /\ 1950 <= year t < 2050 /\ c = time_text t.
Proof.
  intros Hc Hl. destruct (cut_pair c ltac:(lia)) as (p & r & -> & Lp). rewrite length_app in Hl. apply Forall_app in Hc as [Bp Br].
  assert (E : read_body (p ++ r) UTC_TIME_LEN = low ← read_pair (p ++ r); read_rest (if (50 <=? low) then 19 else 20, low) r (r !!! 10%nat)).
  { unfold read_body, read_year, UTC_TIME_LEN. change (13 =? 13)%nat with true. cbv iota zeta.
    assert (Ed : drop 2 (p ++ r) = r) by exact (drop_pair p r 0 Lp).
    assert (Ez : (p ++ r) !!! (13 - 1)%nat = r !!! 10%nat) by (rewrite lookup_total_app_r, Lp by lia; done). rewrite Ed, Ez. by destruct (read_pair (p ++ r)). }
  rewrite E. clear E. unfold time_text. fold (clock_text t). split.
  - destruct (read_pair (p ++ r)) as [low|] eqn:Ep; [|discriminate]. cbn [mbind option_bind]. apply read_pair_app in Ep as [Hlow ->]; [|done|done].
    intros H. apply read_rest_iff in H as (Ht & Hy & ->); [|done|lia|destruct (50 <=? low); lia|done].
    split; [done|]. destruct (Z.leb_spec 50 low); (split; [lia|]); (destruct (Z.ltb_spec (year t) 2050); [|lia]); unfold clock_text;
      rewrite Hy; [replace ((19 * 100 + low) mod 100) with low by dlia|replace ((20 * 100 + low) mod 100) with low by dlia]; done.
  - intros (Ht & Hy & E). destruct (Z.ltb_spec (year t) 2050) as [_|]; [|lia]. apply app_inj_1 in E as [-> ->]; [|done].
    rewrite (proj2 (read_pair_app (two (year t mod 100)) _ (year t mod 100) Bp Lp)) by (split; [dlia|done]). cbn [mbind option_bind].
    apply read_rest_iff; [done|lia|destruct (50 <=? _); lia|dlia|]. split; [done|]. split; [|done]. destruct (Z.leb_spec 50 (year t mod 100)); dlia.
Qed.

Lemma read_body_generalized_iff c t : bytes_ok c -> length c = 15%nat ->
  read_body c GENERALIZED_TIME_LEN = Some t <-> civil_ok t /\ 2050 <= year t /\ c = time_text t.
Proof.
  intros Hc Hl. destruct (cut_pair c ltac:(lia)) as (p & c1 & -> & Lp). rewrite length_app in Hl. apply Forall_app in Hc as [Bp Hc].
  destruct (cut_pair c1 ltac:(lia)) as (q & r & -> & Lq). rewrite length_app in Hl. apply Forall_app in Hc as [Bq Br].
  assert (E : read_body (p ++ q ++ r) GENERALIZED_TIME_LEN = century ← read_pair (p ++ q ++ r); low ← read_pair (q ++ r);
    if (2050 <=? (century *32 100) +32 low) then read_rest (century, low) r (r !!! 10%nat) else None).
  { unfold read_body, read_year, UTC_TIME_LEN, GENERALIZED_TIME_LEN. change (15 =? 13)%nat with false. cbv iota zeta.
    assert (Ed : drop 2 (p ++ q ++ r) = q ++ r) by exact (drop_pair p _ 0 Lp).
    assert (Ed' : drop 4 (p ++ q ++ r) = r) by (exact (eq_trans (drop_pair p _ 2 Lp) (drop_pair q r 0 Lq))).
    assert (Ez : (p ++ q ++ r) !!! (15 - 1)%nat = r !!! 10%nat)
      by (rewrite lookup_total_app_r, Lp, lookup_total_app_r, Lq by lia; done).
    rewrite Ed, Ed', Ez.
    destruct (read_pair (p ++ q ++ r)); [|done]. cbn [mbind option_bind]. destruct (read_pair (q ++ r)); [|done]. cbn [mbind option_bind].
    by destruct (2050 <=? _). }
  rewrite E. clear E. unfold time_text. fold (clock_text t). split.
  - destruct (read_pair (p ++ q ++ r)) as [ce|] eqn:Ep; [|discriminate]. cbn [mbind option_bind]. apply read_pair_app in Ep as [Hce ->]; [|done|done].
    destruct (read_pair (q ++ r)) as [low|] eqn:Eq; [|discriminate]. cbn [mbind option_bind]. apply read_pair_app in Eq as [Hlow ->]; [|done|done].
    rewrite (u32_small (ce * 100)), (u32_small (ce * 100 + low)) by (unfold u32_ok; lia).
    destruct (Z.leb_spec 2050 (ce * 100 + low)); [|discriminate]. intros Hr. apply read_rest_iff in Hr as (Ht & Hy & ->); [|done|lia|done|done].
    split; [done|]. split; [lia|]. destruct (Z.ltb_spec (year t) 2050); [lia|]. unfold clock_text. rewrite Hy.
    replace ((ce * 100 + low) mod 100) with low by dlia. replace ((ce * 100 + low) / 100) with ce by dlia. by rewrite <- app_assoc.
  - intros (Ht & Hy & E). destruct (Z.ltb_spec (year t) 2050) as [|_]; [lia|]. rewrite <- app_assoc in E. apply app_inj_1 in E as [-> E]; [|done].
    apply app_inj_1 in E as [-> ->]; [|done]. pose proof Ht as (Hy' & _).
    rewrite (proj2 (read_pair_app (two (year t / 100)) _ (year t / 100) Bp Lp)) by (split; [dlia|done]). cbn [mbind option_bind].
    rewrite (proj2 (read_pair_app (two (year t mod 100)) _ (year t mod 100) Bq Lq)) by (split; [dlia|done]). cbn [mbind option_bind].
    rewrite (u32_small (year t / 100 * 100)), u32_small by (unfold u32_ok; dlia). destruct (Z.leb_spec 2050 (year t / 100 * 100 + year t mod 100)); [|dlia].
    apply read_rest_iff; [done|lia|dlia|dlia|]. split; [done|]. split; [dlia|done].
Qed.

Lemma length_time_text t : length (time_text t) = if (year t <? 2050) then UTC_TIME_LEN else GENERALIZED_TIME_LEN.
Proof. unfold time_text. by destruct (year t <? 2050). Qed.

Lemma read_time_exact l p s' : bytes_ok l ->
  runl webpki_read_time (Some l) = (Some p, s') <->
  exists t l', civil_ok t /\ 1950 <= year t /\ l = time_der t ++ l' /\ s' = Some l' /\ p = pack t.
Proof.
  intros Hl. unfold webpki_read_time, time_der, tlv. split.
  - intros H. destruct l as [|tag l]; [discriminate|]. rewrite runl_u8_cons in H. apply Forall_cons in Hl as [_ Hl].
    assert (Hrest : forall n, runl (len ← x509_read_len; guard_ (len =? n)%nat;; c ← bytes_ n;
        match read_body c n with None => Fail | Some t => Ret (pack t) end) (Some l) = (Some p, s') ->
      exists c l' t, l = len_bytes n ++ c ++ l' /\ length c = n /\ bytes_ok c /\ s' = Some l' /\ read_body c n = Some t /\ p = pack t).
    { intros n H1. apply runl_bind_some in H1 as (len & s1 & H2 & H1). apply read_len_iff in H2 as (l1 & -> & -> & _ & _); [|done].
      rewrite runl_guard_some, Nat.eqb_eq in H1. destruct H1 as [-> H1]. apply runl_bytes_some in H1 as (c & l' & -> & Hc & H1).
      rewrite !Forall_app in Hl. destruct Hl as (_ & Hbc & _). destruct (read_body c n) as [t|] eqn:Hrb; [|discriminate].
      injection H1 as <- <-. exists c, l', t. by rewrite Hrb. }
    destruct (Z.eqb_spec tag TAG_UTC_TIME) as [->|]; [|destruct (Z.eqb_spec tag TAG_GENERALIZED_TIME) as [->|]; [|discriminate]].
    + destruct (Hrest _ H) as (c & l' & t & -> & Lc & Hbc & -> & Hr & ->). apply read_body_utc_iff in Hr as (Ht & Hy & ->); [|done|done].
      exists t, l'. destruct (Z.ltb_spec (year t) 2050) as [Hlt|]; [|lia]. rewrite length_time_text, emit_header_cons.
      destruct (Z.ltb_spec (year t) 2050); [|lia]. rewrite <- !app_assoc. split_and!; try done; lia.
    + destruct (Hrest _ H) as (c & l' & t & -> & Lc & Hbc & -> & Hr & ->). apply read_body_generalized_iff in Hr as (Ht & Hy & ->); [|done|done].
      exists t, l'. rewrite length_time_text, emit_header_cons. destruct (Z.ltb_spec (year t) 2050); [lia|]. rewrite <- !app_assoc. split_and!; try done; lia.
  - intros (t & l' & Ht & Hy & -> & -> & ->). rewrite length_time_text, emit_header_cons in *. cbn [app]. rewrite runl_u8_cons.
    set (n := if (year t <? 2050) then UTC_TIME_LEN else GENERALIZED_TIME_LEN) in *.
    assert (Hbody : read_body (time_text t) n = Some t).
    { cbn [app] in Hl. apply Forall_cons in Hl as [_ Hl]. rewrite !Forall_app in Hl. destruct Hl as ((_ & Hb) & _).
      pose proof (length_time_text t) as Hlen. unfold n in *. destruct (Z.ltb_spec (year t) 2050); [apply read_body_utc_iff|apply read_body_generalized_iff]; try done; lia. }
    assert (Hn : (n = UTC_TIME_LEN \/ n = GENERALIZED_TIME_LEN)) by (unfold n; destruct (year t <? 2050); auto).
    rewrite runl_bind_some. exists n, (Some ((len_bytes n ++ time_text t) ++ l')). split; [unfold n; by destruct (year t <? 2050)|].
    rewrite runl_bind_some. exists n, (Some (time_text t ++ l')). cbn [app] in Hl. apply Forall_cons in Hl as [_ Hl]. split.
    + apply read_len_iff; [done|]. exists (time_text t ++ l'). rewrite length_app, length_time_text, <- app_assoc. fold n. split_and!; [done|done|lia|].
      destruct Hn as [->| ->]; done.
    + rewrite runl_guard_some, Nat.eqb_eq. split; [done|]. apply runl_bytes_some. exists (time_text t), l'. split; [done|]. split; [apply length_time_text|]. by rewrite Hbody.
Qed.

(** ** Properties *)

(** C33. [webpki_read_time] accepts exactly the encoding RFC 5280 gives each
    instant of the years 1950 to 9999 (UTCTime through 2049, GeneralizedTime
    from 2050, no fraction, no zone but Z, dates of the Gregorian calendar
    only), yields its packed number and stops right after it. *)
Theorem webpki_read_time_exact r l p l' : at_bytes r l -> bytes_ok l ->
  (exists r', run webpki_read_time r = (Some p, r') /\ at_bytes r' l') <->
  exists t, civil_ok t /\ 1950 <= year t /\ l = time_der t ++ l' /\ p = pack t.
Proof.
  intros Hr Hl. rewrite (run_at _ _ _ _ _ Hr), read_time_exact by done. split.
  - intros (t & l1 & Ht & Hy & E & [= <-] & Ep). by exists t.
  - intros (t & Ht & Hy & E & Ep). by exists t, l'.
Qed.

Lemma webpki_read_time_exact_witness :
  exists r', run webpki_read_time (rb_init (time_der (Civil 2051 2 28 23 59 59)) 17) = (Some 20510228235959, r') /\ at_bytes r' [].
Proof.
  apply (webpki_read_time_exact _ (time_der (Civil 2051 2 28 23 59 59))).
  - apply (at_init_all (time_der (Civil 2051 2 28 23 59 59))). vm_compute. repeat (constructor; [split; discriminate || reflexivity|]); constructor.
  - vm_compute. repeat (constructor; [split; discriminate || reflexivity|]); constructor.
  - exists (Civil 2051 2 28 23 59 59). split; [vm_compute; repeat split; discriminate|]. split; [cbn; lia|]. split; [done|]. vm_compute. reflexivity.
Defined.

(** The clock is the Gregorian calendar's: a count of seconds since 1970 packs
    as the one date with that many seconds, every later count as the last
    second of 9999; and packed numbers compare as the instants do, so the
    validity test of three integer compares is the test on instants. *)
Theorem webpki_pack_seconds_calendar now : 0 <= now ->
  exists t, civil_ok t /\ seconds_of t = Z.min now SECONDS_MAX /\ webpki_pack_seconds now = pack t /\
    (forall u, civil_ok u -> seconds_of u = Z.min now SECONDS_MAX -> u = t) /\
    (forall u, civil_ok u -> (pack u <= webpki_pack_seconds now <-> seconds_of u <= Z.min now SECONDS_MAX) /\
                            (webpki_pack_seconds now <= pack u <-> Z.min now SECONDS_MAX <= seconds_of u)).
Proof.
  intros Hn. destruct (pack_seconds_date (Z.min now SECONDS_MAX)) as (t & Ht & Hs & Hp); [unfold SECONDS_MAX; lia|].
  assert (E : webpki_pack_seconds now = webpki_pack_seconds (Z.min now SECONDS_MAX)).
  { unfold webpki_pack_seconds. destruct (Z.ltb_spec SECONDS_MAX now), (Z.ltb_spec SECONDS_MAX (Z.min now SECONDS_MAX)); try lia.
    - by replace (Z.min now SECONDS_MAX) with SECONDS_MAX by lia.
    - by replace (Z.min now SECONDS_MAX) with now by lia. }
  exists t. rewrite E, Hp, <- Hs. split; [done|]. split; [done|]. split; [done|]. split.
  - intros u Hu Eu. by apply seconds_inj.
  - intros u Hu. split; by apply pack_order.
Qed.

Lemma webpki_pack_seconds_calendar_witness : exists t, civil_ok t /\ seconds_of t = 951782400 /\ webpki_pack_seconds 951782400 = pack t.
Proof.
  destruct (webpki_pack_seconds_calendar 951782400) as (t & Ht & Hs & Hp & _); [lia|]. exists t. split; [exact Ht|]. split; [exact Hs|exact Hp].
Defined.
End WebTime.
