(* ===== verification/Build.v ===== *)
(** * Build selections

    The macros the handshake code is compiled under, and what cfg.h,
    profile_cfg.h, suite.h, handshake_message.h and mlkem.h derive from them.
    Every definition and theorem of the handshake files takes the build as a
    parameter, so it holds of each build the macros select. *)

From S2P Require Import Prelude.
Local Open Scope Z_scope.

Class HsBuild := {
  CH_TRUST_WEBPKI : bool;
  CH_KEX_PQ : bool;
  CH_PROFILE_CNSA2 : bool;
  CH_TRANSPORT_QUIC_NONBLOCKING : bool;
  CH_SUITE_AES_GCM : bool;
  CH_PIN_ECDSA : bool;
  CH_PIN_MLDSA : bool;
  CH_SIGN_MLDSA : bool;
}.

(** The RSA-pinned x25519 TCP client, and the web client. *)
Definition raw_build : HsBuild := Build_HsBuild false false false false false false false false.
Definition webpki_build : HsBuild := Build_HsBuild true false false false true true false false.

Section Derived.
Context {build : HsBuild}.

Definition CH_KEX_TWO_GROUPS : bool := CH_TRUST_WEBPKI.
Definition CH_KEX_HYBRID : bool := CH_KEX_PQ || CH_KEX_TWO_GROUPS.
Definition CH_KEX_MLKEM : bool := CH_KEX_HYBRID || CH_PROFILE_CNSA2.
Definition CH_CLIENT_AES_SUITES : bool := CH_SUITE_AES_GCM && CH_TRUST_WEBPKI.

Definition CH_GROUP_X25519 : Z := 0x001d.
Definition CH_GROUP_X25519MLKEM768 : Z := 0x11ec.
Definition CH_GROUP_SECP256R1 : Z := 0x0017.
Definition CH_GROUP_MLKEM1024 : Z := 0x0202.
Definition X25519_LEN : nat := 32.
Definition P256_POINT_LEN : nat := 65.
Definition MLKEM_EK_LEN_768 : nat := 1184.
Definition MLKEM_CT_LEN_768 : nat := 1088.
Definition MLKEM_EK_LEN_1024 : nat := 1568.
Definition MLKEM_CT_LEN_1024 : nat := 1568.
(** A client object holds the rank its profile runs. *)
Definition MLKEM_CT_LEN : nat := if CH_PROFILE_CNSA2 then MLKEM_CT_LEN_1024 else MLKEM_CT_LEN_768.
Definition MLKEM_EK_LEN : nat := if CH_PROFILE_CNSA2 then MLKEM_EK_LEN_1024 else MLKEM_EK_LEN_768.
Definition CH_HYBRID_CLIENT_SHARE : nat := (MLKEM_EK_LEN_768 + 32)%nat.
Definition CH_HYBRID_SERVER_SHARE : nat := (MLKEM_CT_LEN_768 + 32)%nat.

Definition CH_KEX_GROUP : Z :=
  if CH_PROFILE_CNSA2 then CH_GROUP_MLKEM1024
  else if CH_KEX_PQ then CH_GROUP_X25519MLKEM768 else CH_GROUP_X25519.
Definition CH_KEX_SERVER_SHARE : nat :=
  if CH_PROFILE_CNSA2 then MLKEM_CT_LEN else if CH_KEX_PQ then CH_HYBRID_SERVER_SHARE else 32.
Definition CH_KEX_CLIENT_SHARE : nat :=
  if CH_PROFILE_CNSA2 then MLKEM_EK_LEN else if CH_KEX_PQ then CH_HYBRID_CLIENT_SHARE else 32.

Definition SUITE_CHACHA20_POLY1305_SHA256 : Z := 0x1303.
Definition SUITE_AES_128_GCM_SHA256 : Z := 0x1301.
Definition SUITE_AES_256_GCM_SHA384 : Z := 0x1302.

Definition SIGALG_ECDSA_P256_SHA256 : Z := 0x0403.
Definition SIGALG_RSA_PSS_RSAE_SHA256 : Z := 0x0804.
Definition SIGALG_ECDSA_P384_SHA384 : Z := 0x0503.
Definition SIGALG_RSA_PKCS1_SHA256 : Z := 0x0401.
Definition SIGALG_RSA_PKCS1_SHA384 : Z := 0x0501.
Definition SIGALG_MLDSA87 : Z := 0x0906.
Definition CH_PIN_SIGALG : Z :=
  if CH_PIN_ECDSA then SIGALG_ECDSA_P256_SHA256
  else if CH_PIN_MLDSA then SIGALG_MLDSA87 else SIGALG_RSA_PSS_RSAE_SHA256.

Definition HSP_COOKIE_MAX : nat := if CH_PROFILE_CNSA2 then 133 else 128.

Definition CH_ALPN_MAX : nat := 8.
Definition CH_ALPN_NAME_MAX : nat := 32.
Definition CH_ALPN_NONE : Z := 255.

End Derived.
