(* ===== verification/Wire.v ===== *)
(** * TLS wire structures shared by the handshake parsers

    Parsers that name an alert on refusal ([outcome]), loops over what a cursor
    has left, and the extension block of RFC 9846 section 4.3: a list of
    (type, extension_data), walked one extension at a time. *)

From S2P Require Import Prelude Ct Buf Reader.
Local Open Scope Z_scope.
Local Open Scope word_scope.

(** ** Result codes: src/include/chapulin/result.h *)

Definition CH_OK : Z := 0.
Definition CH_EIO : Z := -1.
Definition CH_EPROTO : Z := -2.
Definition CH_EAUTH : Z := -3.
Definition CH_ECAP : Z := -4.
Definition CH_EINVAL : Z := -6.

(** ** Extension types, alerts and versions: src/src/handshake_message.h, srv_parser.h *)

Definition EXT_SERVER_NAME : Z := 0.
Definition EXT_SUPPORTED_GROUPS : Z := 10.
Definition EXT_SIGNATURE_ALGORITHMS : Z := 13.
Definition EXT_ALPN : Z := 16.
Definition EXT_SERVER_CERTIFICATE_TYPE : Z := 20.
Definition EXT_PADDING : Z := 21.
Definition EXT_RECORD_SIZE_LIMIT : Z := 28.
Definition EXT_PRE_SHARED_KEY : Z := 41.
Definition EXT_EARLY_DATA : Z := 42.
Definition EXT_SUPPORTED_VERSIONS : Z := 43.
Definition EXT_COOKIE : Z := 44.
Definition EXT_PSK_MODES : Z := 45.
Definition EXT_KEY_SHARE : Z := 51.
Definition EXT_QUIC_TRANSPORT_PARAMS : Z := 0x39.
Definition TLS13 : Z := 0x0304.

Definition ALERT_HANDSHAKE_FAILURE : Z := 40.
Definition ALERT_ILLEGAL_PARAMETER : Z := 47.
Definition ALERT_DECODE_ERROR : Z := 50.
Definition ALERT_PROTOCOL_VERSION : Z := 70.
Definition ALERT_MISSING_EXTENSION : Z := 109.
Definition ALERT_UNSUPPORTED_EXTENSION : Z := 110.
Definition ALERT_NO_APPLICATION_PROTOCOL : Z := 120.

(** ** Results of a parser *)

(** [CH_OK] with the outputs, or an error code and the alert the parser wrote;
    [None] leaves the alert the caller seeded. *)
Inductive outcome (A : Type) : Type :=
  | Done (a : A)
  | Refuse (rc : Z) (alert : option Z).
Arguments Done {A}.
Arguments Refuse {A}.

Definition eproto {A} : prog (outcome A) := Ret (Refuse CH_EPROTO None).
(** [srv_refuse(alert, description)] *)
Definition refuse {A} (description : Z) : prog (outcome A) := Ret (Refuse CH_EPROTO (Some description)).

(** [rc = m; if (rc != CH_OK) return rc;] *)
Definition obind {A B} (m : prog (outcome A)) (f : A -> prog (outcome B)) : prog (outcome B) :=
  m ≫= fun o => match o with Done a => f a | Refuse rc alert => Ret (Refuse rc alert) end.
Notation "x ←! m ; k" := (obind m (fun x => k)) (at level 20, m at level 100, k at level 200, only parsing) : stdpp_scope.

(** [rb_bytes(r, n)], NULL or the bytes, and [rb_bytes(r, 0)] followed later by
    [n] bytes from that address. *)
Definition nbytes_ (n : nat) : prog (option (list Z)) := GetN n Ret.
Definition peek_ (n : nat) : prog (list Z) := s ← copy_; Ret (match s with Some l => take n l | None => [] end).

(** ** Loops *)

(** [while (rb_left(r) > 0) body] *)
Fixpoint while_left {A} (fuel : nat) (body : A -> prog (outcome A)) (a : A) : prog (outcome A) :=
  n ← left_;
  if (n =? 0)%nat then Ret (Done a)
  else match fuel with O => Fail | S fuel => a ←! body a; while_left fuel body a end.
Definition loop_left {A} (body : A -> prog (outcome A)) (a : A) : prog (outcome A) :=
  n ← left_; while_left n body a.

(** [while (used < len) { ... used += ...; }], the body returning what it used;
    then [if (used != len) refuse] *)
Fixpoint while_used {A} (fuel used len : nat) (body : A -> prog (outcome (A * nat))) (a : A) : prog (outcome A) :=
  if (used <? len)%nat then
    match fuel with
    | O => Fail
    | S fuel => r ←! body a; while_used fuel (used + r.2) len body r.1
    end
  else if negb (used =? len)%nat then refuse ALERT_DECODE_ERROR else Ret (Done a).

(** [for (size_t i = 0; i < len; i += 2) f(rb_u16(r));] *)
Fixpoint for_u16 {A} (count : nat) (f : Z -> A -> A) (a : A) : prog A :=
  match count with O => Ret a | S count => v ← u16_; for_u16 count f (f v a) end.
Definition for_u16_list {A} (len : nat) (f : Z -> A -> A) (a : A) : prog A := for_u16 ((len + 1) / 2) f a.

(** ** Reads as list equations *)

Lemma runl_obind {A B} (m : prog (outcome A)) (f : A -> prog (outcome B)) s :
  runl (obind m f) s = match runl m s with
    | (Some (Done a), s') => runl (f a) s'
    | (Some (Refuse rc al), s') => (Some (Refuse rc al), s')
    | (None, s') => (None, s')
    end.
Proof. unfold obind. rewrite runl_bind. by destruct (runl m s) as [[[]|] s']. Qed.

Lemma runl_obind_done {A B} (m : prog (outcome A)) (f : A -> prog (outcome B)) s b s' :
  runl (obind m f) s = (Some (Done b), s') <->
  exists a s1, runl m s = (Some (Done a), s1) /\ runl (f a) s1 = (Some (Done b), s').
Proof.
  rewrite runl_obind. split.
  - destruct (runl m s) as [[[a|]|] s1]; [eauto|discriminate..].
  - by intros (a & s1 & -> & H).
Qed.

Lemma be2_cons v : 0 <= v < 2 ^ 16 -> be_bytes 2 v = [v / 2 ^ 8; v mod 2 ^ 8].
Proof. intros. unfold be_bytes. cbn. repeat (apply (f_equal2 cons); [unfold u8; dlia|]). done. Qed.

Lemma be2_join hi lo : byte_ok hi -> byte_ok lo -> be_bytes 2 (hi * 2 ^ 8 + lo) = [hi; lo].
Proof. unfold byte_ok. intros. rewrite be2_cons by lia. repeat (apply (f_equal2 cons); [dlia|]). done. Qed.

Lemma runl_u16_at {B} (f : Z -> prog B) v l : 0 <= v < 2 ^ 16 ->
  runl (u16_ ≫= f) (Some (be_bytes 2 v ++ l)) = runl (f v) (Some l).
Proof.
  intros Hv. rewrite be2_cons by done. unfold u16_. cbn [app]. rewrite runl_bind, !runl_u8_cons. cbn [runl].
  rewrite join16 by (unfold byte_ok; dlia). by replace (v / 2 ^ 8 * 2 ^ 8 + v mod 2 ^ 8) with v by dlia.
Qed.

(** After an underrun the value read is unusable but the run goes on. *)
Lemma runl_u16_short {B} (f : Z -> prog B) l : (length l < 2)%nat ->
  exists v, runl (u16_ ≫= f) (Some l) = runl (f v) None.
Proof. destruct l as [|b [|]]; cbn [length]; intros; [..|lia]; eexists; reflexivity. Qed.

Lemma runl_u16_none {B} (f : Z -> prog B) : runl (u16_ ≫= f) None = runl (f 0) None.
Proof. done. Qed.

Lemma split_be2 l : bytes_ok l -> (2 <= length l)%nat ->
  exists v l', 0 <= v < 2 ^ 16 /\ l = be_bytes 2 v ++ l'.
Proof.
  intros Hl Hn. destruct l as [|hi [|lo l]]; cbn [length] in Hn; try lia. rewrite !Forall_cons in Hl.
  destruct Hl as (Hh & Ho & _). exists (hi * 2 ^ 8 + lo), l. rewrite be2_join by done. unfold byte_ok in *. split; [lia|done].
Qed.

Lemma runl_u16_iff {B} (f : Z -> prog B) l res s' : bytes_ok l ->
  (forall v, runl (f v) None <> (res, s')) ->
  runl (u16_ ≫= f) (Some l) = (res, s') <->
  exists v l', 0 <= v < 2 ^ 16 /\ l = be_bytes 2 v ++ l' /\ runl (f v) (Some l') = (res, s').
Proof.
  intros Hl Hn. split.
  - intros H. destruct (le_lt_dec 2 (length l)) as [H2|H2].
    + destruct (split_be2 l Hl H2) as (v & l' & Hv & ->). rewrite runl_u16_at in H by done. eauto.
    + destruct (runl_u16_short f l H2) as [v E]. rewrite E in H. by destruct (Hn v).
  - intros (v & l' & Hv & -> & H). by rewrite runl_u16_at.
Qed.

Lemma runl_u8_iff {B} (f : Z -> prog B) l res s' : bytes_ok l ->
  (forall v, runl (f v) None <> (res, s')) ->
  runl (u8_ ≫= f) (Some l) = (res, s') <->
  exists v l', byte_ok v /\ l = v :: l' /\ runl (f v) (Some l') = (res, s').
Proof.
  intros Hl Hn. split.
  - intros H. destruct l as [|b l]; [rewrite runl_u8_nil in H; by destruct (Hn 0)|].
    apply Forall_cons in Hl as [Hb _]. rewrite runl_u8_cons in H. eauto.
  - intros (v & l' & Hv & -> & H). by rewrite runl_u8_cons.
Qed.

Lemma runl_nbytes {B} n (f : option (list Z) -> prog B) l :
  runl (nbytes_ n ≫= f) (Some l) =
  if (length l <? n)%nat then runl (f None) None else runl (f (Some (take n l))) (Some (drop n l)).
Proof. unfold nbytes_. cbn. by destruct (length l <? n)%nat. Qed.

Lemma runl_nbytes_iff {B} n (f : option (list Z) -> prog B) l res s' :
  runl (f None) None <> (res, s') ->
  runl (nbytes_ n ≫= f) (Some l) = (res, s') <->
  exists b l', l = b ++ l' /\ length b = n /\ runl (f (Some b)) (Some l') = (res, s').
Proof.
  intros Hn. rewrite runl_nbytes. destruct (Nat.ltb_spec (length l) n) as [H|H]; split.
  - done.
  - intros (b & l' & -> & <- & _). rewrite length_app in H. lia.
  - intros E. exists (take n l), (drop n l). rewrite take_drop, length_take. split_and!; [done|lia|done].
  - intros (b & l' & -> & <- & E). by rewrite take_app_length, drop_app_length.
Qed.

(** An underrun lasts to the end of the run. *)
Lemma runl_none {A} (p : prog A) : (runl p None).2 = None.
Proof. induction p as [a| |k IH|n k IH|k IH|k IH|k IH]; cbn; done || apply IH. Qed.

Lemma runl_none_some {A} (p : prog A) o l : runl p None <> (o, Some l).
Proof. intros E. pose proof (runl_none p) as H. by rewrite E in H. Qed.

(** So a run that ends well read everything it asked for. *)
Lemma runl_u16_some {B} (f : Z -> prog B) l res r : bytes_ok l ->
  runl (u16_ ≫= f) (Some l) = (res, Some r) <->
  exists v l', 0 <= v < 2 ^ 16 /\ l = be_bytes 2 v ++ l' /\ runl (f v) (Some l') = (res, Some r).
Proof. intros Hl. apply runl_u16_iff; [done|]. intros v. apply runl_none_some. Qed.

Lemma runl_u8_some {B} (f : Z -> prog B) l res r : bytes_ok l ->
  runl (u8_ ≫= f) (Some l) = (res, Some r) <->
  exists v l', byte_ok v /\ l = v :: l' /\ runl (f v) (Some l') = (res, Some r).
Proof. intros Hl. apply runl_u8_iff; [done|]. intros v. apply runl_none_some. Qed.

Lemma runl_nbytes_some {B} n (f : option (list Z) -> prog B) l res r :
  runl (nbytes_ n ≫= f) (Some l) = (res, Some r) <->
  exists b l', l = b ++ l' /\ length b = n /\ runl (f (Some b)) (Some l') = (res, Some r).
Proof. apply runl_nbytes_iff, runl_none_some. Qed.

(** ** Extension blocks *)

Abbreviation ext := (Z * list Z)%type.
Definition wire_ext (x : ext) : list Z := be_bytes 2 x.1 ++ be_bytes 2 (Z.of_nat (length x.2)) ++ x.2.
Definition wire_exts (xs : list ext) : list Z := mjoin (wire_ext <$> xs).
Definition ext_fits (x : ext) : Prop := 0 <= x.1 < 2 ^ 16 /\ Z.of_nat (length x.2) < 2 ^ 16.

Lemma wire_exts_cons x xs : wire_exts (x :: xs) = wire_ext x ++ wire_exts xs.
Proof. done. Qed.

Lemma length_wire_ext x : length (wire_ext x) = (4 + length x.2)%nat.
Proof. unfold wire_ext. rewrite !length_app, !length_be_bytes. lia. Qed.

Lemma wire_ext_ok x : bytes_ok (wire_ext x) <-> bytes_ok x.2.
Proof. unfold wire_ext. rewrite !Forall_app. split; [tauto|]. intros H. split_and!; try done; apply be_bytes_ok. Qed.

(** The framing of one extension: type, length, data or NULL. *)
Definition read_ext : prog (Z * option (list Z)) :=
  t ← u16_; n ← u16_; d ← nbytes_ (Z.to_nat n); Ret (t, d).

Lemma read_ext_iff {B} (f : Z * option (list Z) -> prog B) l res s' : bytes_ok l ->
  (forall t, runl (f (t, None)) None <> (res, s')) ->
  runl (read_ext ≫= f) (Some l) = (res, s') <->
  exists x l', ext_fits x /\ l = wire_ext x ++ l' /\ runl (f (x.1, Some x.2)) (Some l') = (res, s').
Proof.
  intros Hl Hn.
  assert (E : runl (read_ext ≫= f) (Some l) = runl (t ← u16_; n ← u16_; d ← nbytes_ (Z.to_nat n); f (t, d)) (Some l)).
  { unfold read_ext. rewrite !runl_bind. destruct (runl u16_ (Some l)) as [[t|] s1]; [|done].
    rewrite !runl_bind. destruct (runl u16_ s1) as [[n|] s2]; [|done].
    rewrite !runl_bind. by destruct (runl (nbytes_ (Z.to_nat n)) s2) as [[d|] s3]. }
  rewrite E. clear E. rewrite runl_u16_iff; [|done|intros; rewrite runl_u16_none; apply Hn]. split.
  - intros (t & l1 & Ht & -> & H). apply Forall_app in Hl as [_ Hl].
    rewrite runl_u16_iff in H; [|done|intros; apply Hn]. destruct H as (n & l2 & Hnn & -> & H).
    rewrite runl_nbytes_iff in H by apply Hn. destruct H as (d & l' & -> & Hd & H).
    exists (t, d), l'. unfold wire_ext, ext_fits. cbn [fst snd]. rewrite Hd, Z2Nat.id by lia. rewrite <- !app_assoc.
    split_and!; try done; lia.
  - intros ([t d] & l' & [Ht Hd] & -> & H). unfold wire_ext in *. cbn [fst snd] in *. rewrite <- !app_assoc in *.
    do 2 eexists. split_and!; [exact (proj1 Ht)|exact (proj2 Ht)|reflexivity|]. rewrite runl_u16_at by lia.
    rewrite Nat2Z.id, runl_nbytes_iff by apply Hn. eauto.
Qed.

(** One block has one reading. *)
Lemma wire_ext_inj x y l l' : ext_fits x -> ext_fits y -> wire_ext x ++ l = wire_ext y ++ l' -> x = y /\ l = l'.
Proof.
  intros [Hx Hx'] [Hy Hy'] E. unfold wire_ext in E. rewrite <- !app_assoc in E.
  apply app_inj_1 in E as [E1 E]; [|by rewrite !length_be_bytes]. apply app_inj_1 in E as [E2 E]; [|by rewrite !length_be_bytes].
  apply (f_equal be_val) in E1, E2. rewrite !be_val_bytes, !Z.mod_small in E1, E2 by (cbn; lia).
  apply app_inj_1 in E as [E3 ->]; [|lia]. destruct x, y; cbn in *. by subst.
Qed.

Lemma wire_exts_inj xs ys : Forall ext_fits xs -> Forall ext_fits ys -> wire_exts xs = wire_exts ys -> xs = ys.
Proof.
  intros Hx. revert ys. induction Hx as [|x xs Hx Hxs IH]; intros ys Hy E.
  - destruct ys as [|y ys]; [done|]. rewrite wire_exts_cons in E. apply (f_equal length) in E.
    rewrite length_app, length_wire_ext in E. cbn in E. lia.
  - destruct Hy as [|y ys Hy Hys].
    + rewrite wire_exts_cons in E. apply (f_equal length) in E. rewrite length_app, length_wire_ext in E. cbn in E. lia.
    + rewrite !wire_exts_cons in E. apply wire_ext_inj in E as [-> E]; [|done|done]. by rewrite (IH ys).
Qed.

Lemma wire_exts_ok xs : bytes_ok (wire_exts xs) <-> Forall (fun x => bytes_ok x.2) xs.
Proof.
  induction xs as [|x xs IH]; [split; constructor|]. by rewrite wire_exts_cons, Forall_app, Forall_cons, IH, wire_ext_ok.
Qed.

Lemma length_wire_exts_le xs : (4 * length xs <= length (wire_exts xs))%nat.
Proof. induction xs as [|x xs IH]; [done|]. rewrite wire_exts_cons, length_app, length_wire_ext. cbn [length]. lia. Qed.

(** ** Walking a block

    [step n a x] is what one pass of the loop does to the state [a] when [x]
    is next and [n] bytes of the block remain. *)
Section Walk.
Context {A : Type} (body : A -> prog (outcome A)) (step : nat -> A -> ext -> option A).

Fixpoint walk (a : A) (xs : list ext) : option A :=
  match xs with
  | [] => Some a
  | x :: xs' => a' ← step (length (wire_exts xs)) a x; walk a' xs'
  end.

Hypothesis body_done : forall a l a' s', bytes_ok l -> l <> [] ->
  runl (body a) (Some l) = (Some (Done a'), s') <->
  exists x l', ext_fits x /\ l = wire_ext x ++ l' /\ s' = Some l' /\ step (length l) a x = Some a'.

Lemma while_left_done fuel a l a' s' : bytes_ok l -> (length l <= fuel)%nat ->
  runl (while_left fuel body a) (Some l) = (Some (Done a'), s') <->
  exists xs, Forall ext_fits xs /\ l = wire_exts xs /\ s' = Some [] /\ walk a xs = Some a'.
Proof.
  revert a l. induction fuel as [|fuel IH]; intros a l Hl Hf.
  - destruct l; [|cbn in Hf; lia]. cbn. split; [intros [= -> <-]; by exists []|].
    intros ([|x xs] & _ & E & -> & Hw); [by injection Hw as ->|]. rewrite wire_exts_cons in E. apply (f_equal length) in E.
    rewrite length_app, length_wire_ext in E. cbn in E. lia.
  - cbn [while_left]. rewrite runl_left. cbn [left_of]. destruct (Nat.eqb_spec (length l) 0) as [E0|E0].
    + destruct l; [|done]. cbn. split; [intros [= -> <-]; by exists []|].
      intros ([|x xs] & _ & E & -> & Hw); [by injection Hw as ->|]. rewrite wire_exts_cons in E. apply (f_equal length) in E.
      rewrite length_app, length_wire_ext in E. cbn in E. lia.
    + rewrite runl_obind_done. split.
      * intros (a1 & s1 & H1 & H2). apply body_done in H1 as (x & l' & Hx & -> & -> & Hs); [|done|by intros ->].
        apply Forall_app in Hl as [_ Hl]. rewrite length_app, length_wire_ext in Hf.
        apply IH in H2 as (xs & Hxs & -> & -> & Hw); [|done|lia]. exists (x :: xs). split_and!; [by constructor|done|done|].
        cbn [walk]. rewrite wire_exts_cons. by rewrite Hs.
      * intros (xs & Hxs & -> & -> & Hw). destruct Hxs as [|x xs Hx Hxs]; [done|].
        cbn [walk] in Hw. destruct (step _ a x) as [a1|] eqn:Hs; [|discriminate]. cbn in Hw.
        rewrite wire_exts_cons in *. exists a1, (Some (wire_exts xs)). split.
        { apply body_done; [done|intros E; by rewrite E in E0|]. eauto 10. }
        apply Forall_app in Hl as [_ Hl]. rewrite length_app, length_wire_ext in Hf. apply IH; [done|lia|]. eauto.
Qed.

Lemma loop_left_done a l a' s' : bytes_ok l ->
  runl (loop_left body a) (Some l) = (Some (Done a'), s') <->
  exists xs, Forall ext_fits xs /\ l = wire_exts xs /\ s' = Some [] /\ walk a xs = Some a'.
Proof. intros Hl. unfold loop_left. rewrite runl_left. by apply while_left_done. Qed.
End Walk.

(** ** Seen masks *)

Lemma land_bit_clear m i : 0 <= i -> (Z.land m (2 ^ i) =? 0) = negb (Z.testbit m i).
Proof.
  intros Hi. destruct (Z.testbit m i) eqn:E; cbn [negb].
  - apply Z.eqb_neq. intros H. apply (f_equal (fun z => Z.testbit z i)) in H.
    by rewrite Z.land_spec, E, Z.pow2_bits_true, Z.bits_0 in H.
  - apply Z.eqb_eq, Z.bits_inj'. intros j Hj. rewrite Z.land_spec, Z.bits_0, Z.pow2_bits_eqb by done.
    destruct (Z.eqb_spec i j) as [->|]; [by rewrite E|apply andb_false_r].
Qed.

Lemma testbit_lor_bit m i j : 0 <= i -> Z.testbit (Z.lor m (2 ^ i)) j = Z.testbit m j || (i =? j).
Proof. intros Hi. by rewrite Z.lor_spec, Z.pow2_bits_eqb. Qed.

(** ** Blocks whose types are kept distinct by a seen mask

    [wire] writes a decoded extension, [apply] is its effect on the state, and
    [seen] the mask with bit [idx t] set once type [t] was read. *)
Section MaskWalk.
Context {A Y : Type} (step : nat -> A -> ext -> option A) (wire : Y -> ext) (legal : Y -> Prop)
  (apply : Y -> A -> A) (seen : A -> Z) (idx : Z -> Z).

Definition ytype (y : Y) : Z := (wire y).1.
Definition report (ys : list Y) (a : A) : A := fold_left (fun a y => apply y a) ys a.

(** A field that only extensions of type [t] write holds what the one such
    extension wrote. *)
Lemma report_other {B} (f : A -> B) t ys a :
  (forall y a, ytype y <> t -> f (apply y a) = f a) ->
  Forall (fun y => ytype y <> t) ys -> f (report ys a) = f a.
Proof.
  intros Ho Hys. revert a. induction Hys as [|y ys Hy Hys IH]; intros a; [done|]. cbn. fold (report ys (apply y a)).
  by rewrite IH, Ho.
Qed.

Lemma report_field {B} (f : A -> B) t y ys a :
  (forall y a, ytype y <> t -> f (apply y a) = f a) ->
  (forall a b, f a = f b -> f (apply y a) = f (apply y b)) ->
  NoDup (ytype <$> ys) -> y ∈ ys -> ytype y = t -> f (report ys a) = f (apply y a).
Proof.
  intros Ho Hown Hnd Hin Ht. revert a. induction ys as [|z ys IH]; intros a; [by apply not_elem_of_nil in Hin|].
  cbn in Hnd. inversion Hnd as [|? ? Hni Hnd']; subst. cbn. fold (report ys (apply z a)).
  apply elem_of_cons in Hin as [->|Hin].
  - rewrite (report_other f (ytype z)); [done|done|]. apply Forall_forall. intros w Hw Hz. apply Hni.
    rewrite <- Hz. by apply list_elem_of_fmap_2.
  - rewrite IH by done. apply Hown, Ho. intros Hz. apply Hni. rewrite Hz. by apply list_elem_of_fmap_2.
Qed.

Lemma report_absent {B} (f : A -> B) t ys a :
  (forall y a, ytype y <> t -> f (apply y a) = f a) -> f (report ys a) <> f a ->
  exists y, y ∈ ys /\ ytype y = t.
Proof.
  intros Ho Hne. destruct (decide (Exists (fun y => ytype y = t) ys)) as [H|H].
  - apply Exists_exists in H as (y & ? & ?). eauto.
  - destruct Hne. apply (report_other f t); [done|]. apply not_Exists_Forall in H; [done|]. intros y. apply _.
Qed.

Hypothesis idx_range : forall y, 0 <= idx (ytype y) < 8.
Hypothesis idx_inj : forall y z, idx (ytype y) = idx (ytype z) -> ytype y = ytype z.
Hypothesis seen_step : forall y a, 0 <= seen a < 2 ^ 8 ->
  seen (apply y a) = Z.lor (seen a) (2 ^ idx (ytype y)) /\ 0 <= seen (apply y a) < 2 ^ 8.
Hypothesis step_iff : forall n a x a', bytes_ok x.2 -> 0 <= seen a < 2 ^ 8 ->
  step n a x = Some a' <->
  exists y, x = wire y /\ legal y /\ Z.testbit (seen a) (idx (ytype y)) = false /\ a' = apply y a.

Lemma mask_walk_iff xs a a' : Forall (fun x => bytes_ok x.2) xs -> 0 <= seen a < 2 ^ 8 ->
  walk step a xs = Some a' <->
  exists ys, xs = wire <$> ys /\ Forall legal ys /\ NoDup (ytype <$> ys) /\
    Forall (fun y => Z.testbit (seen a) (idx (ytype y)) = false) ys /\ a' = report ys a.
Proof using idx_range idx_inj seen_step step_iff.
  intros Hx. revert a. induction Hx as [|x xs Hx Hxs IH]; intros a Hs; cbn [walk].
  - split; [intros [= <-]; exists []; by repeat constructor|]. by intros ([|y ys] & E & _ & _ & _ & ->); [|discriminate].
  - split.
    + destruct (step _ a x) as [a1|] eqn:E1; [|discriminate]. cbn [mbind option_bind]. intros H.
      apply step_iff in E1 as (y & -> & Hy & Ht & ->); [|done|done]. destruct (seen_step y a Hs) as [Es Hs1].
      apply IH in H as (ys & -> & Hl & Hnd & Hf & ->); [|done]. exists (y :: ys). rewrite Es in Hf. pose proof (idx_range y) as Hi.
      split; [done|]. split; [by constructor|]. split; [|split; [constructor; [done|]|done]].
      * cbn. constructor; [|done]. intros Hin. apply list_elem_of_fmap in Hin as (z & Hz & Hin).
        rewrite Forall_forall in Hf. specialize (Hf z Hin). by rewrite testbit_lor_bit, <- Hz, Z.eqb_refl, orb_true_r in Hf by lia.
      * eapply Forall_impl; [exact Hf|]. cbn. intros z Hz. rewrite testbit_lor_bit, orb_false_iff in Hz by lia. tauto.
    + intros (ys & E & Hl & Hnd & Hf & ->). destruct ys as [|y ys]; [discriminate|]. cbn in E. injection E as -> ->.
      inversion Hl as [|? ? Hy Hl']; subst. inversion Hf as [|? ? Ht Hf']; subst. cbn in Hnd. inversion Hnd as [|? ? Hni Hnd']; subst.
      destruct (seen_step y a Hs) as [Es Hs1].
      rewrite (proj2 (step_iff _ a (wire y) (apply y a) Hx Hs)) by eauto. cbn [mbind option_bind].
      apply IH; [done|]. exists ys. split_and!; try done. rewrite Es. rewrite Forall_forall in Hf' |- *. intros z Hin.
      pose proof (idx_range y) as Hi. rewrite testbit_lor_bit, Hf' by (done || lia). cbn [orb]. apply Z.eqb_neq.
      intros Hz. apply idx_inj in Hz. apply Hni. rewrite Hz. by apply list_elem_of_fmap_2.
Qed.
End MaskWalk.

(** ** Totality

    [total P p]: from any state [p] returns, and what it returns satisfies
    [P].  [Fail] is only the end of a loop's fuel, so a parser that is [total]
    terminates. *)
Definition state_ok (s : option (list Z)) : Prop := match s with Some l => bytes_ok l | None => True end.
Definition total {A} (P : A -> Prop) (p : prog A) : Prop :=
  forall s, state_ok s -> exists a s', runl p s = (Some a, s') /\ P a /\ state_ok s'.

Lemma total_ret {A} (P : A -> Prop) a : P a -> total P (Ret a).
Proof. intros Ha s Hs. by exists a, s. Qed.

Lemma total_bind {A B} (Q : A -> Prop) (P : B -> Prop) p f :
  total Q p -> (forall a, Q a -> total P (f a)) -> total P (p ≫= f).
Proof.
  intros Hp Hf s Hs. destruct (Hp s Hs) as (a & s1 & E & Ha & Hs1). destruct (Hf a Ha s1 Hs1) as (b & s2 & E2 & Hb & Hs2).
  exists b, s2. by rewrite runl_bind, E.
Qed.

Lemma total_impl {A} (P Q : A -> Prop) p : total P p -> (forall a, P a -> Q a) -> total Q p.
Proof. intros Hp HPQ s Hs. destruct (Hp s Hs) as (a & s' & ? & ? & ?). exists a, s'. auto. Qed.

Definition any {A} (a : A) : Prop := True.

Lemma total_u8 : total byte_ok u8_.
Proof.
  intros [[|b l]|] Hs; [exists 0, None|exists b, (Some l)|exists 0, None]; cbn; try (split_and!; done || (unfold byte_ok; lia)).
  apply Forall_cons in Hs as [? ?]. done.
Qed.
Lemma total_u16 : total (fun v => 0 <= v < 2 ^ 16) u16_.
Proof.
  unfold u16_. eapply total_bind; [apply total_u8|intros hi Hh]. eapply total_bind; [apply total_u8|intros lo Hlo].
  apply total_ret. rewrite join16 by done. unfold byte_ok in *. lia.
Qed.
Lemma total_nbytes n : total (fun o => match o with Some b => bytes_ok b /\ length b = n | None => True end) (nbytes_ n).
Proof.
  intros [l|] Hs; unfold nbytes_; cbn; [|by exists None, None]. destruct (Nat.ltb_spec (length l) n); [by exists None, None|].
  exists (Some (take n l)), (Some (drop n l)). cbn. rewrite length_take.
  split_and!; [done|by apply Forall_take|lia|by apply Forall_drop].
Qed.
Lemma total_err : total any err_.
Proof. intros s Hs. by exists (is_err s), s. Qed.
Lemma total_left : total any left_.
Proof. intros s Hs. by exists (left_of s), s. Qed.
Lemma total_peek n : total bytes_ok (peek_ n).
Proof.
  intros s Hs. unfold peek_. cbn. eexists _, s. split; [reflexivity|]. split; [|done]. destruct s; [by apply Forall_take|constructor].
Qed.
Lemma total_sub {A} (P : A -> Prop) p d : bytes_ok d -> total P p -> total P (sub_ p d).
Proof.
  intros Hd Hp s Hs. destruct (Hp (Some d) Hd) as (a & s' & E & Ha & _). exists a, s. rewrite runl_sub, parse_list, E by done. done.
Qed.
Lemma total_read_ext : total (fun x => match x.2 with Some d => bytes_ok d | None => True end) read_ext.
Proof.
  unfold read_ext. eapply total_bind; [apply total_u16|intros t _].
  eapply total_bind; [apply total_u16|intros n _]. eapply total_bind; [apply total_nbytes|].
  intros o Ho. apply total_ret. cbn [snd]. by destruct o as [b|]; [destruct Ho|].
Qed.

Section OutcomeTotal.
Context {A B : Type}.
(** The refusals a parser may make. *)
Context (R : Z -> option Z -> Prop).
Definition fine {A} (Q : A -> Prop) (o : outcome A) : Prop := match o with Done a => Q a | Refuse rc al => R rc al end.

Lemma total_obind (Q : A -> Prop) (P : B -> Prop) p f :
  total (fine Q) p -> (forall a, Q a -> total (fine P) (f a)) -> total (fine P) (obind p f).
Proof. intros Hp Hf. eapply total_bind; [exact Hp|]. intros [a|rc al] Ha; [by apply Hf|by apply total_ret]. Qed.

Lemma total_loop_left (Q : A -> Prop) body a :
  (forall a, Q a -> total (fine Q) (body a)) ->
  (forall a l a' s', bytes_ok l -> l <> [] -> runl (body a) (Some l) = (Some (Done a'), s') ->
    exists l', s' = Some l' /\ (length l' < length l)%nat) ->
  Q a -> total (fine Q) (loop_left body a).
Proof.
  intros Ht Hdec Ha s Hs. unfold loop_left. rewrite runl_left.
  assert (Hgen : forall fuel a s, Q a -> state_ok s -> (left_of s <= fuel)%nat ->
    exists o s', runl (while_left fuel body a) s = (Some o, s') /\ fine Q o /\ state_ok s').
  { clear a s Ha Hs. induction fuel as [|fuel IH]; intros a s Ha Hs Hf; cbn [while_left]; rewrite runl_left.
    - destruct (Nat.eqb_spec (left_of s) 0); [|lia]. by exists (Done a), s.
    - destruct (Nat.eqb_spec (left_of s) 0); [by exists (Done a), s|]. rewrite runl_obind.
      destruct (Ht a Ha s Hs) as (o & s1 & E & Ho & Hs1). rewrite E. destruct o as [a1|rc al]; [|by exists (Refuse rc al), s1].
      destruct s as [l|]; [|done]. apply Hdec in E as (l' & -> & Hl); [|done|by destruct l]. apply IH; [done|done|]. cbn in *. lia. }
  by apply Hgen.
Qed.

Lemma total_while_used (Q : A -> Prop) fuel used len body a :
  (forall a, Q a -> total (fine (fun r => Q r.1 /\ (1 <= r.2)%nat)) (body a)) ->
  R CH_EPROTO (Some ALERT_DECODE_ERROR) -> (len <= used + fuel)%nat -> Q a ->
  total (fine Q) (while_used fuel used len body a).
Proof.
  intros Hb Hr. revert used a. induction fuel as [|fuel IH]; intros used a Hf Ha; cbn [while_used];
    destruct (Nat.ltb_spec used len); try lia; try (destruct (negb _); by apply total_ret).
  intros s Hs. rewrite runl_obind. destruct (Hb a Ha s Hs) as (o & s1 & -> & Ho & Hs1).
  destruct o as [[a1 n]|rc al]; [|by exists (Refuse rc al), s1]. destruct Ho as [Ha1 Hn]. cbn [fst snd] in *.
  apply IH; [lia|done|done].
Qed.
End OutcomeTotal.

Lemma total_for_u16 {A} (Q : A -> Prop) count f a :
  (forall v a, 0 <= v < 2 ^ 16 -> Q a -> Q (f v a)) -> Q a -> total Q (for_u16 count f a).
Proof.
  intros Hf. revert a. induction count as [|count IH]; intros a Ha; cbn [for_u16]; [by apply total_ret|].
  eapply total_bind; [apply total_u16|]. intros v Hv. apply IH. by apply Hf.
Qed.

Lemma total_skip n : total any (skip_ n).
Proof.
  intros [l|] Hs; unfold skip_; cbn; [|by exists (), None]. destruct (Nat.ltb_spec (length l) n); [by exists (), None|].
  exists (), (Some (drop n l)). split_and!; try done. by apply Forall_drop.
Qed.

(** Proofs of totality follow the program. *)
Ltac total_step :=
  first
    [ apply total_ret; first [exact I | done | idtac]
    | apply total_u8 | apply total_u16 | apply total_nbytes | apply total_err | apply total_left | apply total_peek
    | apply total_read_ext
    | eapply total_bind; [solve [apply total_u8 | apply total_u16 | apply total_nbytes | apply total_err | apply total_left
                                | apply total_peek | apply total_read_ext]|intros ? ?]
    | match goal with |- total _ (if ?c then _ else _) => destruct c eqn:? end
    | match goal with |- total _ (match ?c with _ => _ end) => destruct c eqn:? end ].
