(* ===== verification/WebName.v ===== *)
(** * Host names: src/src/webpki_name.c

    The shape check on the caller's reference name and its match against the
    dNSName entries of a subjectAltName.  The byte loops are shown to decide
    the label grammar of RFC 1123 and the matching rule of RFC 6125, and the
    walk over the GeneralNames to accept exactly their DER encodings. *)

From S2P Require Import Prelude Ct Buf Reader Der Wire.
Import Der.
Local Open Scope Z_scope.
Local Open Scope word_scope.

Module WebName.

Definition LABEL_MAX : nat := 63.
Definition CH_HOSTNAME_MAX : nat := 253.
Definition TAG_SEQUENCE : Z := 0x30.
Definition TAG_OTHER_NAME : Z := 0xa0.
Definition TAG_RFC822_NAME : Z := 0x81.
Definition TAG_DNS_NAME : Z := 0x82.
Definition TAG_X400_ADDRESS : Z := 0xa3.
Definition TAG_DIRECTORY_NAME : Z := 0xa4.
Definition TAG_EDI_PARTY_NAME : Z := 0xa5.
Definition TAG_UNIFORM_RESOURCE_IDENTIFIER : Z := 0x86.
Definition TAG_IP_ADDRESS : Z := 0x87.
Definition TAG_REGISTERED_ID : Z := 0x88.

(** The characters of the source. *)
Definition dot : Z := 46.
Definition hyphen : Z := 45.
Definition star : Z := 42.

Definition is_letter (c : Z) : bool := ((65 <=? c) && (c <=? 90)) || ((97 <=? c) && (c <=? 122)).
Definition is_digit (c : Z) : bool := (48 <=? c) && (c <=? 57).
Definition is_hostname_byte (c : Z) : bool := is_letter c || is_digit c || (c =? dot) || (c =? hyphen).

Fixpoint labels_loop (run : nat) (host : list Z) : bool :=
  match host with
  | [] => (1 <=? run)%nat && (run <=? LABEL_MAX)%nat
  | c :: host =>
      if negb (c =? dot) then labels_loop (S run) host
      else if (run <? 1)%nat || (LABEL_MAX <? run)%nat then false
      else labels_loop 0 host
  end.
Definition labels_ok (host : list Z) : bool := labels_loop 0 host.

Definition label_edges_ok (host : list Z) : bool :=
  forallb (fun i => negb (host !!! i =? hyphen) ||
     negb ((i =? 0)%nat || (i =? length host - 1)%nat || (host !!! (i - 1)%nat =? dot) || (host !!! (i + 1)%nat =? dot)))
    (seq 0 (length host)).

Fixpoint last_label_while (i : nat) (host : list Z) : bool :=
  match i with
  | O => true
  | S i => if (host !!! i =? dot) then true else if negb (is_digit (host !!! i)) then false else last_label_while i host
  end.
Definition last_label_all_digits (host : list Z) : bool := last_label_while (length host) host.

Definition webpki_hostname_ok (host : list Z) : bool :=
  if (length host <? 1)%nat || (CH_HOSTNAME_MAX <? length host)%nat then false
  else if negb (forallb is_hostname_byte host) then false
  else labels_ok host && label_edges_ok host && negb (last_label_all_digits host).

Definition ascii_lower (c : Z) : Z := if (65 <=? c) && (c <=? 90) then u8 (c + (97 - 65)) else c.

Definition names_equal (a b : list Z) (n : nat) : bool := forallb (fun i => ascii_lower (a !!! i) =? ascii_lower (b !!! i)) (seq 0 n).

Fixpoint first_label_len (name : list Z) : nat :=
  match name with [] => 0 | c :: name => if (c =? dot) then 0 else S (first_label_len name) end.

Definition match_wildcard (suffix host : list Z) : bool :=
  let first := first_label_len host in
  if (first =? length host)%nat then false
  else
    let rest := drop (first + 1) host in
    let rest_len := (length host - first - 1)%nat in
    if negb (rest_len =? length suffix)%nat || negb (names_equal suffix rest (length suffix)) then false
    else negb (first_label_len rest =? rest_len)%nat.

Definition match_dns_name (name host : list Z) : bool :=
  if (2 <=? length name)%nat && (name !!! 0%nat =? star) && (name !!! 1%nat =? dot) then match_wildcard (drop 2 name) host
  else (length name =? length host)%nat && names_equal name host (length host).

Definition is_general_name_tag (tag : Z) : bool :=
  (tag =? TAG_OTHER_NAME) || (tag =? TAG_RFC822_NAME) || (tag =? TAG_DNS_NAME) || (tag =? TAG_X400_ADDRESS) || (tag =? TAG_DIRECTORY_NAME) ||
  (tag =? TAG_EDI_PARTY_NAME) || (tag =? TAG_UNIFORM_RESOURCE_IDENTIFIER) || (tag =? TAG_IP_ADDRESS) || (tag =? TAG_REGISTERED_ID).

(** Whether the entry sets [*matched]; [Fail] is a return of 0. *)
Definition read_entry (host : list Z) : prog bool :=
  tag ← u8_;
  guard_ (is_general_name_tag tag);;
  len ← x509_read_len;
  content ← bytes_ len;
  Ret ((tag =? TAG_DNS_NAME) && match_dns_name content host).

(** [None] when the fuel is spent, which [san_returns] excludes. *)
Fixpoint san_while (fuel : nat) (host : list Z) (matched : bool) : prog (option bool) :=
  n ← left_;
  if (n =? 0)%nat then Ret (Some matched)
  else match fuel with O => Ret None | S fuel => m ← read_entry host; san_while fuel host (matched || m) end.

Definition san_walk (host : list Z) : prog (option bool) :=
  seq_len ← x509_read_header TAG_SEQUENCE;
  n ← left_;
  guard_ (seq_len =? n)%nat;;
  n ← left_;
  san_while n host false.
Definition webpki_match_san (san host : list Z) : bool :=
  match parse (san_walk host) san with Some (Some matched) => matched | _ => false end.

(** ** Reference *)

(** A name is its labels joined by dots. *)
Fixpoint join (ls : list (list Z)) : list Z :=
  match ls with [] => [] | [l] => l | l :: ls => l ++ dot :: join ls end.
Definition dot_free (l : list Z) : Prop := Forall (fun c => c <> dot) l.
Definition label_char (c : Z) : Prop := is_letter c = true \/ is_digit c = true \/ c = hyphen.
Definition label_ok (l : list Z) : Prop :=
  (1 <= length l <= 63)%nat /\ Forall label_char l /\ head l <> Some hyphen /\ last l <> Some hyphen.
Definition hostname (host : list Z) : Prop :=
  exists ls l, host = join (ls ++ [l]) /\ Forall label_ok (ls ++ [l]) /\ ~ Forall (fun c => is_digit c = true) l /\ (length host <= 253)%nat.

Definition lower (l : list Z) : list Z := ascii_lower <$> l.
(** RFC 6125 section 6.4: equal but for case, or "*." before all of the name
    but its first label, when at least two labels are left. *)
Definition name_matches (name host : list Z) : Prop :=
  (take 2 name <> [star; dot] /\ lower name = lower host) \/
  (exists suffix first rest, name = star :: dot :: suffix /\ host = first ++ dot :: rest /\ dot_free first /\ lower rest = lower suffix /\ dot ∈ rest).

Definition general_name (e : Z * list Z) : list Z := tlv e.1 e.2.

(** ** Lemmas: comparison *)

Lemma forallb_seq_S (f : nat -> bool) j n : forallb f (seq (S j) n) = forallb (fun i => f (S i)) (seq j n).
Proof. revert j. induction n as [|n IH]; intros j; [done|]. cbn [seq forallb]. by rewrite IH. Qed.

Lemma names_equal_cons x y a b n : names_equal (x :: a) (y :: b) (S n) = (ascii_lower x =? ascii_lower y) && names_equal a b n.
Proof.
  unfold names_equal. cbn [seq forallb]. f_equal. apply forallb_seq_S.
Qed.

Lemma names_equal_iff a : forall b, length a = length b -> names_equal a b (length b) = true <-> lower a = lower b.
Proof.
  induction a as [|x a IH]; intros [|y b] Hl; try discriminate; [done|]. cbn [length] in *. injection Hl as Hl.
  rewrite names_equal_cons, andb_true_iff, Z.eqb_eq, IH by done. unfold lower. rewrite !fmap_cons. split; [by intros [-> ->]|by intros [= -> ->]].
Qed.

Lemma first_label_app l h : dot_free l -> first_label_len (l ++ dot :: h) = length l.
Proof.
  induction l as [|c l IH]; intros Hl; [done|]. apply Forall_cons in Hl as [Hc Hl]. cbn [app first_label_len length].
  destruct (Z.eqb_spec c dot); [done|]. by rewrite IH.
Qed.

Lemma first_label_split h :
  (first_label_len h = length h /\ dot_free h) \/ (exists l r, h = l ++ dot :: r /\ dot_free l /\ first_label_len h = length l).
Proof.
  induction h as [|c h IH]; [left; split; [done|apply Forall_nil_2]|]. cbn [first_label_len length]. destruct (Z.eqb_spec c dot) as [->|Hc].
  - right. exists [], h. split_and!; [done|apply Forall_nil_2|done].
  - destruct IH as [[IH Hf]|(l & r & -> & Hf & IH)].
    + left. split; [by rewrite IH|by apply Forall_cons].
    + right. exists (c :: l), r. split_and!; [done|by apply Forall_cons|cbn; by rewrite IH].
Qed.

Lemma dot_free_elem l : dot_free l <-> ~ (dot ∈ l).
Proof. unfold dot_free. rewrite Forall_forall. split; [intros H Hi; by apply (H dot)|by intros H c Hc ->]. Qed.

Lemma has_dot h : first_label_len h <> length h <-> dot ∈ h.
Proof.
  destruct (first_label_split h) as [[E Hf]|(l & r & -> & Hf & E)].
  - rewrite dot_free_elem in Hf. by split; intros H.
  - rewrite E, length_app. cbn [length]. split; [intros _; apply elem_of_app; right; by left|lia].
Qed.

Lemma match_wildcard_iff suffix host :
  match_wildcard suffix host = true <-> exists first rest, host = first ++ dot :: rest /\ dot_free first /\ lower rest = lower suffix /\ dot ∈ rest.
Proof.
  unfold match_wildcard. destruct (first_label_split host) as [[E Hf]|(l & r & -> & Hf & E)]; rewrite E.
  - rewrite Nat.eqb_refl. split; [done|]. intros (l & r & -> & _). rewrite dot_free_elem in Hf. exfalso. apply Hf, elem_of_app. right. by left.
  - rewrite !length_app. cbn [length]. destruct (Nat.eqb_spec (length l) (length l + S (length r))); [lia|].
    replace (drop (length l + 1) (l ++ dot :: r)) with r by (rewrite drop_app_add; reflexivity).
    replace (length l + S (length r) - length l - 1)%nat with (length r) by lia.
    assert (Hu : (exists first rest, l ++ dot :: r = first ++ dot :: rest /\ dot_free first /\ lower rest = lower suffix /\ dot ∈ rest) <-> lower r = lower suffix /\ dot ∈ r).
    { split; [|intros [? ?]; by exists l, r]. intros (l' & r' & Eq & Hf' & H). pose proof (f_equal first_label_len Eq) as Ef.
      rewrite !first_label_app in Ef by done. apply app_inj_1 in Eq as [_ [= ->]]; done. }
    rewrite Hu. destruct (Nat.eqb_spec (length r) (length suffix)) as [El|El]; cbn [negb orb].
    + destruct (names_equal suffix r (length suffix)) eqn:En; rewrite El in *.
      * rewrite <- El, names_equal_iff in En by done. cbn [negb]. rewrite negb_true_iff, Nat.eqb_neq, <- El, has_dot, En. tauto.
      * cbn [negb]. split; [done|]. intros [Hl _]. rewrite <- El in En. symmetry in Hl. apply names_equal_iff in Hl; [|done]. congruence.
    + split; [done|]. intros [Hl _]. apply (f_equal length) in Hl. unfold lower in Hl. by rewrite !length_fmap in Hl.
Qed.

Lemma match_dns_name_iff name host : match_dns_name name host = true <-> name_matches name host.
Proof.
  unfold match_dns_name, name_matches.
  assert (Hlen : lower name = lower host <-> (length name =? length host)%nat && names_equal name host (length host) = true).
  { rewrite andb_true_iff, Nat.eqb_eq. split.
    - intros H. assert (length name = length host) by (apply (f_equal length) in H; unfold lower in H; by rewrite !length_fmap in H). by rewrite names_equal_iff.
    - intros [El H]. by apply names_equal_iff. }
  destruct ((2 <=? length name)%nat && (name !!! 0%nat =? star) && (name !!! 1%nat =? dot)) eqn:Ew.
  - rewrite !andb_true_iff, Nat.leb_le, !Z.eqb_eq in Ew. destruct name as [|a [|b suffix]]; cbn in Ew; try lia. destruct Ew as [[_ ->] ->].
    change (drop 2 (star :: dot :: suffix)) with suffix. rewrite match_wildcard_iff. split.
    + intros (first & rest & H). right. by exists suffix, first, rest.
    + intros [[H _]|(suffix' & first & rest & [= <-] & H)]; [done|by exists first, rest].
  - rewrite <- Hlen. assert (Hn : take 2 name <> [star; dot]).
    { intros H. destruct name as [|a [|b name]]; try discriminate. cbn in H. injection H as -> ->. cbn in Ew. discriminate. }
    split; [by left|]. intros [[_ H]|(suffix & ? & ? & -> & _)]; [done|]. by cbn in Hn.
Qed.

(** ** Lemmas: labels *)

Lemma join_cons l ls : ls <> [] -> join (l :: ls) = l ++ dot :: join ls.
Proof. by destruct ls. Qed.

Lemma labels_exist host : exists ls, ls <> [] /\ host = join ls /\ Forall dot_free ls.
Proof.
  induction host as [|c host (ls & Hn & -> & Hf)]; [exists [[]]; split_and!; [done..|apply Forall_singleton, Forall_nil_2]|].
  destruct (decide (c = dot)) as [->|Hc].
  - exists ([] :: ls). split_and!; [done|by rewrite join_cons|]. apply Forall_cons. split; [apply Forall_nil_2|done].
  - destruct ls as [|l ls]; [done|]. apply Forall_cons in Hf as [Hl Hf]. exists ((c :: l) :: ls). split_and!; [done|by destruct ls|].
    apply Forall_cons. split; [by apply Forall_cons|done].
Qed.

Definition len_ok (n : nat) : bool := (1 <=? n)%nat && (n <=? LABEL_MAX)%nat.

Lemma labels_loop_free l : forall run, dot_free l -> labels_loop run l = len_ok (run + length l).
Proof.
  induction l as [|c l IH]; intros run Hl; cbn [labels_loop length]; [by rewrite Nat.add_0_r|]. apply Forall_cons in Hl as [Hc Hl].
  destruct (Z.eqb_spec c dot); [done|]. cbn [negb]. rewrite IH by done. f_equal. lia.
Qed.

Lemma labels_loop_dot l h : forall run, dot_free l -> labels_loop run (l ++ dot :: h) = len_ok (run + length l) && labels_loop 0 h.
Proof.
  induction l as [|c l IH]; intros run Hl; cbn [labels_loop length app].
  - rewrite Nat.add_0_r. cbn [Z.eqb dot Pos.eqb negb]. unfold len_ok. rewrite (Nat.leb_antisym run 1), (Nat.leb_antisym LABEL_MAX run).
    by destruct (run <? 1)%nat, (LABEL_MAX <? run)%nat.
  - apply Forall_cons in Hl as [Hc Hl]. destruct (Z.eqb_spec c dot); [done|]. cbn [negb]. rewrite IH by done. do 2 f_equal. lia.
Qed.

Lemma labels_ok_iff ls : ls <> [] -> Forall dot_free ls -> labels_ok (join ls) = true <-> Forall (fun l => (1 <= length l <= 63)%nat) ls.
Proof.
  assert (Hk : forall n, len_ok n = true <-> (1 <= n <= 63)%nat) by (intros n; unfold len_ok, LABEL_MAX; rewrite andb_true_iff, !Nat.leb_le; lia).
  unfold labels_ok. induction ls as [|l ls IH]; intros Hn Hf; [done|]. apply Forall_cons in Hf as [Hl Hf]. destruct ls as [|l' ls].
  - cbn [join]. rewrite labels_loop_free, Hk, Forall_singleton by done. done.
  - rewrite join_cons, labels_loop_dot, andb_true_iff, Hk, IH by done. by rewrite (Forall_cons _ l).
Qed.

(** The edge check, reading forward with the byte before. *)
Fixpoint edges (prev : Z) (host : list Z) : bool :=
  match host with
  | [] => true
  | c :: host => (negb (c =? hyphen) || negb ((prev =? dot) || (default dot (head host) =? dot))) && edges c host
  end.

Lemma edges_index suf : forall pre,
  forallb (fun i => negb ((pre ++ suf) !!! i =? hyphen) ||
     negb ((i =? 0)%nat || (i =? length (pre ++ suf) - 1)%nat || ((pre ++ suf) !!! (i - 1)%nat =? dot) || ((pre ++ suf) !!! (i + 1)%nat =? dot)))
    (seq (length pre) (length suf)) = edges (default dot (last pre)) suf.
Proof.
  induction suf as [|c suf IH]; intros pre; [done|]. cbn [length seq forallb edges]. f_equal.
  - rewrite (list_lookup_total_middle pre suf c) by done. f_equal. f_equal. rewrite length_app. cbn [length].
    destruct pre as [|p pre _] using rev_ind; [done|]. rewrite last_snoc, length_app. cbn [length default].
    destruct (Nat.eqb_spec (length pre + 1) 0); [lia|]. cbn [orb].
    rewrite <- !app_assoc, (Nat.add_sub (length pre) 1). cbn [app]. rewrite (list_lookup_total_middle pre (c :: suf) p) by done.
    destruct suf as [|d suf]; cbn [length head default].
    + replace (length pre + 1 + 1 - 1)%nat with (length pre + 1)%nat by lia. by rewrite Nat.eqb_refl, orb_true_r.
    + destruct (Nat.eqb_spec (length pre + 1) (length pre + 1 + S (S (length suf)) - 1)); [lia|]. cbn [orb]. f_equal. f_equal.
      replace (pre ++ p :: c :: d :: suf) with ((pre ++ [p; c]) ++ d :: suf) by (by rewrite <- app_assoc).
      apply list_lookup_total_middle. rewrite length_app. cbn. lia.
  - specialize (IH (pre ++ [c])). rewrite last_snoc, <- app_assoc in IH. cbn [app] in IH. change (default dot (Some c)) with c in IH. rewrite <- IH, (length_app pre [c]).
    cbn [length]. by rewrite Nat.add_1_r.
Qed.

Lemma label_edges_edges host : label_edges_ok host = edges dot host.
Proof. apply (edges_index host []). Qed.

Definition ends_ok (l : list Z) : Prop := head l <> Some hyphen /\ last l <> Some hyphen.

(** What follows a label is a dot or nothing. *)
Lemma edges_label l : forall prev h, dot_free l -> (h = [] \/ head h = Some dot) ->
  edges prev (l ++ h) = true <-> ~ (prev = dot /\ head l = Some hyphen) /\ last l <> Some hyphen /\ edges (default prev (last l)) h = true.
Proof.
  induction l as [|c l IH]; intros prev h Hl Hh.
  - cbn [app head last]. change (default prev None) with prev. intuition discriminate.
  - apply Forall_cons in Hl as [Hc Hl]. cbn [app edges head]. rewrite andb_true_iff, IH by done.
    replace (default prev (last (c :: l))) with (default c (last l)) by (by destruct l as [|d l _] using rev_ind; [|rewrite app_comm_cons, !last_snoc]).
    assert (Hd : (default dot (head (l ++ h)) =? dot) = true <-> l = []).
    { destruct l as [|d l]; cbn [app head].
      - destruct Hh as [->|Hh]; [done|]. by rewrite Hh.
      - apply Forall_cons in Hl as [Hd _]. change (default dot (Some d)) with d. rewrite Z.eqb_eq. split; [done|discriminate]. }
    assert (Hlast : last (c :: l) = Some hyphen <-> (l = [] /\ c = hyphen) \/ last l = Some hyphen).
    { destruct l as [|d l _] using rev_ind; [cbn; split; [intros [= ->]; by left|by intros [[_ ->]|?]]|].
      rewrite app_comm_cons, !last_snoc. split; [by right|]. intros [[H _]|H]; [by apply app_eq_nil in H as [_ ?]|done]. }
    rewrite Hlast. assert (Hs : Some c = Some hyphen <-> c = hyphen) by (split; [by intros [= ->]|by intros ->]). rewrite Hs.
    destruct (default dot (head (l ++ h)) =? dot), (Z.eqb_spec c hyphen), (Z.eqb_spec prev dot); cbn [negb orb];
      assert (Ht : true = true) by done; assert (Hft : false <> true) by done; tauto.
Qed.

Lemma edges_ok_iff ls : ls <> [] -> Forall dot_free ls -> label_edges_ok (join ls) = true <-> Forall ends_ok ls.
Proof.
  rewrite label_edges_edges. induction ls as [|l ls IH]; intros Hn Hf; [done|]. apply Forall_cons in Hf as [Hl Hf]. destruct ls as [|l' ls].
  - cbn [join]. rewrite <- (app_nil_r l), edges_label by (done || by left). rewrite app_nil_r, Forall_singleton. cbn [edges]. unfold ends_ok. tauto.
  - rewrite join_cons by done. rewrite edges_label by (done || by right). rewrite (Forall_cons _ l). unfold ends_ok at 1. rewrite <- IH by done.
    cbn [edges]. change (dot =? hyphen) with false. cbn [negb orb andb]. tauto.
Qed.

Lemma last_label_digits l : forall pre, dot_free l -> (pre = [] \/ last pre = Some dot) ->
  last_label_while (length (pre ++ l)) (pre ++ l) = forallb is_digit l.
Proof.
  intros pre Hl Hp. assert (H : forall suf, last_label_while (length (pre ++ l)) (pre ++ l ++ suf) = forallb is_digit l); [|by rewrite <- (H []), app_nil_r].
  induction l as [|c l IH] using rev_ind; intros suf.
  - rewrite app_nil_r. destruct pre as [|p pre _] using rev_ind; [done|]. destruct Hp as [Hp|Hp]; [by apply app_eq_nil in Hp as [_ ?]|].
    rewrite last_snoc in Hp. injection Hp as ->. rewrite length_app, Nat.add_1_r. cbn [last_label_while app]. rewrite <- app_assoc. cbn [app].
    by rewrite list_lookup_total_middle.
  - apply Forall_app in Hl as [Hl Hc]. rewrite Forall_singleton in Hc. rewrite app_assoc, length_app, Nat.add_1_r. cbn [last_label_while].
    rewrite forallb_app. cbn [forallb]. rewrite andb_true_r.
    replace ((pre ++ (l ++ [c]) ++ suf) !!! length (pre ++ l)) with c by (rewrite <- (app_assoc l), app_assoc; cbn [app]; by rewrite list_lookup_total_middle).
    destruct (Z.eqb_spec c dot); [done|]. rewrite <- (app_assoc l [c] suf), IH by done. destruct (is_digit c); cbn [negb]; by rewrite ?andb_true_r, ?andb_false_r.
Qed.

Lemma join_snoc ls l : exists pre, join (ls ++ [l]) = pre ++ l /\ (pre = [] \/ last pre = Some dot).
Proof.
  induction ls as [|x ls (pre & E & Hp)]; [exists []; by auto|]. cbn [app]. rewrite join_cons by (by destruct ls). rewrite E.
  exists (x ++ dot :: pre). rewrite <- app_assoc. split; [done|]. right. rewrite last_app. destruct Hp as [->|Hp]; [done|].
  rewrite last_cons, Hp. done.
Qed.

Lemma label_char_iff c : is_hostname_byte c = true /\ c <> dot <-> label_char c.
Proof.
  unfold is_hostname_byte, label_char. rewrite !orb_true_iff, !Z.eqb_eq. split; [tauto|]. intros H. split; [tauto|].
  intros ->. by destruct H as [?|[?|?]].
Qed.

Lemma join_bytes ls : Forall dot_free ls -> forallb is_hostname_byte (join ls) = true <-> Forall (Forall label_char) ls.
Proof.
  assert (Hl : forall l, dot_free l -> forallb is_hostname_byte l = true <-> Forall label_char l).
  { intros l Hd. rewrite forallb_forall. unfold dot_free in Hd. rewrite !Forall_forall in *. setoid_rewrite <- label_char_iff. setoid_rewrite list_elem_of_In in Hd. setoid_rewrite list_elem_of_In. naive_solver. }
  induction ls as [|l ls IH]; intros Hf; [done|]. apply Forall_cons in Hf as [Hd Hf]. destruct ls as [|l' ls].
  - cbn [join]. by rewrite Forall_singleton, Hl.
  - rewrite join_cons, forallb_app by done. cbn [forallb]. change (is_hostname_byte dot) with true. cbn [andb].
    by rewrite andb_true_iff, Hl, IH, (Forall_cons _ l).
Qed.

Lemma label_char_dot_free l : Forall label_char l -> dot_free l.
Proof. intros Hl. apply (Forall_impl _ _ _ Hl). intros c H. by apply label_char_iff in H as [_ ?]. Qed.

(** ** Lemmas: subjectAltName *)

Definition entry_ok (e : Z * list Z) : Prop := is_general_name_tag e.1 = true /\ Z.of_nat (length e.2) < 2 ^ 16.
Definition entry_matches (host : list Z) (e : Z * list Z) : bool := (e.1 =? TAG_DNS_NAME) && match_dns_name e.2 host.

Lemma general_name_cons e : general_name e = e.1 :: len_bytes (length e.2) ++ e.2.
Proof. unfold general_name, tlv. by rewrite emit_header_cons. Qed.

Lemma read_entry_iff {B} host (f : bool -> prog B) l a s' : bytes_ok l ->
  runl (read_entry host ≫= f) (Some l) = (Some a, s') <->
  exists e l', l = general_name e ++ l' /\ entry_ok e /\ runl (f (entry_matches host e)) (Some l') = (Some a, s').
Proof.
  intros Hl. rewrite runl_bind_some. unfold read_entry. split.
  - intros (m & s1 & H & Hf). rewrite runl_u8_iff in H by (done || intros ?; by destruct (is_general_name_tag _)).
    destruct H as (t & l1 & _ & -> & H). apply Forall_cons in Hl as [_ Hl]. rewrite runl_guard_some in H. destruct H as [Ht H].
    apply runl_bind_some in H as (n & s2 & H1 & H). apply read_len_iff in H1 as (l2 & -> & -> & Hn & H16); [|done].
    apply runl_bytes_some in H as (c & l3 & -> & <- & H). injection H as <- <-. exists (t, c), l3. rewrite general_name_cons. cbn [app fst snd].
    rewrite <- app_assoc. by split_and!.
  - intros ((t & c) & l' & -> & [Ht H16] & H). rewrite general_name_cons in *. cbn [app fst snd] in *. rewrite <- app_assoc in *.
    apply Forall_cons in Hl as [_ Hl]. exists (entry_matches host (t, c)), (Some l'). split; [|done].
    rewrite runl_u8_cons, runl_guard_some. split; [done|]. apply runl_bind_some. exists (length c), (Some (c ++ l')). split.
    + apply read_len_iff; [done|]. exists (c ++ l'). rewrite length_app. split_and!; try done. lia.
    + apply runl_bytes_some. by exists c, l'.
Qed.

Lemma san_while_iff host fuel : forall m l o s', bytes_ok l -> (length l <= fuel)%nat ->
  runl (san_while fuel host m) (Some l) = (Some o, s') <->
  exists es, l = concat (general_name <$> es) /\ Forall entry_ok es /\ o = Some (m || existsb (entry_matches host) es) /\ s' = Some [].
Proof.
  assert (Hstep : forall e es, concat (general_name <$> (e :: es)) = general_name e ++ concat (general_name <$> es)) by done.
  assert (Hempty : forall es, concat (general_name <$> es) = [] -> es = []).
  { intros [|e es] H; [done|]. rewrite Hstep, general_name_cons in H. discriminate. }
  induction fuel as [|fuel IH]; intros m l o s' Hl Hf; cbn [san_while]; rewrite runl_left; cbn [left_of]; destruct (Nat.eqb_spec (length l) 0) as [H0|H0]; try lia.
  1, 2: apply nil_length_inv in H0 as ->; cbn [runl]; split;
    [intros [= <- <-]; exists []; rewrite orb_false_r; split_and!; [done|apply Forall_nil_2|done..]
    |intros (es & E & _ & -> & ->); symmetry in E; apply Hempty in E as ->; by rewrite orb_false_r].
  rewrite read_entry_iff by done. split.
  - intros (e & l' & -> & He & H). apply Forall_app in Hl as [_ Hl]. rewrite length_app, general_name_cons in Hf. cbn [length] in Hf.
    apply IH in H as (es & -> & Hes & -> & ->); [|done|lia]. exists (e :: es). rewrite Hstep. cbn [existsb]. rewrite orb_assoc.
    split_and!; [done|by apply Forall_cons|done..].
  - intros (es & -> & Hes & -> & ->). destruct es as [|e es]; [by cbn in H0|]. apply Forall_cons in Hes as [He Hes]. rewrite Hstep in *. cbn [existsb].
    exists e, (concat (general_name <$> es)). split; [done|]. split; [done|]. apply Forall_app in Hl as [_ Hl].
    rewrite length_app, general_name_cons in Hf. cbn [length] in Hf. apply IH; [done|lia|]. exists es. rewrite orb_assoc. by split_and!.
Qed.

Lemma san_walk_iff san host o : bytes_ok san ->
  parse (san_walk host) san = Some o <->
  exists es, san = tlv TAG_SEQUENCE (concat (general_name <$> es)) /\ Z.of_nat (length (concat (general_name <$> es))) < 2 ^ 16 /\
    Forall entry_ok es /\ o = Some (existsb (entry_matches host) es).
Proof.
  intros Hb. rewrite parse_some by done. unfold san_walk. split.
  - intros (s' & H). apply runl_bind_some in H as (n & s1 & H1 & H). apply read_header_iff in H1 as (l & -> & -> & Hn & H16); [|done].
    apply Forall_app in Hb as [_ Hb]. rewrite runl_left, runl_guard_some, Nat.eqb_eq in H. cbn [left_of] in H. destruct H as [-> H].
    rewrite runl_left in H. cbn [left_of] in H. apply san_while_iff in H as (es & -> & Hes & -> & _); [|done|done]. by exists es.
  - intros (es & -> & H16 & Hes & ->). exists (Some []). unfold tlv in *. apply runl_bind_some. eexists _, _. split.
    + apply read_header_iff; [done|]. eexists. split_and!; [reflexivity|reflexivity|done|done].
    + rewrite runl_left, runl_guard_some, Nat.eqb_eq. split; [done|]. rewrite runl_left. cbn [left_of]. apply Forall_app in Hb as [_ Hb].
      apply san_while_iff; [done|done|]. exists es. by split_and!.
Qed.

(** ** Properties *)

(** The reference-name check decides the host name grammar: a name is
    accepted exactly when it is one or more labels joined by dots, 253 bytes
    at most, each label of 1 to 63 letters, digits and hyphens with no hyphen
    at either end, and the last label not all digits, so neither an empty
    label nor an IPv4 literal passes. *)
Theorem webpki_hostname_exact host : webpki_hostname_ok host = true <-> hostname host.
Proof.
  unfold webpki_hostname_ok, CH_HOSTNAME_MAX. destruct (labels_exist host) as (ls & Hn & E & Hf).
  assert (Hall : forall ls' l, host = join (ls' ++ [l]) -> Forall dot_free (ls' ++ [l]) ->
     (forallb is_hostname_byte host && (labels_ok host && label_edges_ok host && negb (last_label_all_digits host)) = true <->
      Forall label_ok (ls' ++ [l]) /\ ~ Forall (fun c => is_digit c = true) l)).
  { intros ls' l E' Hd. assert (Hn' : ls' ++ [l] <> []) by (by destruct ls'). destruct (join_snoc ls' l) as (pre & Ep & Hp).
    unfold last_label_all_digits. rewrite !andb_true_iff, negb_true_iff. rewrite E' at 1 2 3. rewrite join_bytes, labels_ok_iff, edges_ok_iff by done.
    assert (Hdl : dot_free l) by (apply Forall_app in Hd as [_ Hd]; by rewrite Forall_singleton in Hd). rewrite E', Ep, last_label_digits by done.
    rewrite <- not_true_iff_false, forallb_forall. unfold label_ok, ends_ok. rewrite !Forall_and. rewrite (Forall_forall _ l).
    setoid_rewrite list_elem_of_In. tauto. }
  destruct (Nat.ltb_spec (length host) 1) as [H1|H1]; [|destruct (Nat.ltb_spec 253 (length host)) as [H2|H2]]; cbn [orb].
  - split; [done|]. intros (ls' & l & -> & Hl & _). exfalso. destruct (join_snoc ls' l) as (pre & Ep & _). rewrite Ep, length_app in H1.
    apply Forall_app in Hl as [_ Hl]. rewrite Forall_singleton in Hl. destruct Hl as [Hl _]. lia.
  - split; [done|]. intros (? & ? & ? & ? & ? & ?). lia.
  - transitivity (forallb is_hostname_byte host && (labels_ok host && label_edges_ok host && negb (last_label_all_digits host)) = true);
      [by destruct (forallb is_hostname_byte host)|]. split.
    + intros H. destruct ls as [|l ls' _] using rev_ind; [done|]. exists ls', l. rewrite Hall in H by done. by destruct H.
    + intros (ls' & l & E' & Hl & Hd & _). rewrite (Hall ls' l); [done|done|]. apply (Forall_impl _ _ _ Hl). intros x (_ & H & _). by apply label_char_dot_free.
Qed.

(** C32. The subjectAltName match is exact.  The walk always ends, and answers
    yes exactly when the bytes are the DER encoding of GeneralNames, every
    entry one of the nine CHOICE arms with a minimal length, and some dNSName
    among them matches the host: equal up to ASCII case, or "*." followed by
    what is left of the host after its first label, that rest holding a dot.
    A malformed entry anywhere refuses the name, even after a match. *)
Theorem webpki_match_san_exact san host : bytes_ok san ->
  parse (san_walk host) san <> Some None /\
  (webpki_match_san san host = true <->
   exists es, san = tlv TAG_SEQUENCE (concat (general_name <$> es)) /\ Z.of_nat (length (concat (general_name <$> es))) < 2 ^ 16 /\
     Forall entry_ok es /\ exists name, (TAG_DNS_NAME, name) ∈ es /\ name_matches name host).
Proof.
  intros Hb. split; [intros H; apply san_walk_iff in H as (? & _ & _ & _ & ?); done|].
  assert (Hm : forall es, existsb (entry_matches host) es = true <-> exists name, (TAG_DNS_NAME, name) ∈ es /\ name_matches name host).
  { intros es. rewrite existsb_exists. unfold entry_matches. split.
    - intros ((t & c) & Hi & H). cbn [fst snd] in H. rewrite andb_true_iff, Z.eqb_eq, match_dns_name_iff in H. destruct H as [-> H].
      exists c. by rewrite list_elem_of_In.
    - intros (c & Hi & H). exists (TAG_DNS_NAME, c). cbn [fst snd]. by rewrite andb_true_iff, match_dns_name_iff, <- list_elem_of_In. }
  unfold webpki_match_san. split.
  - destruct (parse (san_walk host) san) as [[m|]|] eqn:E; [|done..]. intros ->. apply san_walk_iff in E as (es & H1 & H2 & H3 & [= H4]); [|done].
    exists es. by rewrite <- Hm.
  - intros (es & H1 & H2 & H3 & H4). rewrite <- Hm in H4. rewrite (proj2 (san_walk_iff san host (Some true) Hb)); [done|]. exists es. by rewrite H4.
Qed.

Definition sample_san : list Z := tlv TAG_SEQUENCE (general_name (TAG_IP_ADDRESS, [192; 0; 2; 1]) ++ general_name (TAG_DNS_NAME, str "*.Example.com")).

Lemma webpki_match_san_exact_witness : webpki_match_san sample_san (str "www.example.COM") = true /\ webpki_match_san sample_san (str "example.com") = false.
Proof.
  assert (Hb : bytes_ok sample_san) by (apply (bool_decide_unpack _); vm_compute; exact I). split; [|vm_compute; reflexivity].
  apply (webpki_match_san_exact sample_san (str "www.example.COM") Hb).
  exists [(TAG_IP_ADDRESS, [192; 0; 2; 1]); (TAG_DNS_NAME, str "*.Example.com")].
  split; [reflexivity|]. split; [vm_compute; reflexivity|]. split; [rewrite !Forall_cons, Forall_nil; split_and!; vm_compute; done|].
  exists (str "*.Example.com"). split; [apply elem_of_list_here || (right; left)|]. apply match_dns_name_iff. vm_compute. reflexivity.
Defined.
End WebName.
