(* ===== verification/Aead.v ===== *)
(** * ChaCha20-Poly1305: src/src/aead.c, aead.h

    The AEAD of RFC 8439 section 2.8, and the interface [AeadLaws] through which
    the record layer and the QUIC packet layer use it.  [None] is a failed
    [CH_ASSERT] of the Poly1305 code, which never happens. *)

From S2P Require Import Prelude Ct MdHash Chacha20 Poly1305.
Import Chacha20 Poly1305.
Local Open Scope Z_scope.
Local Open Scope word_scope.

(** ** The interface *)

(** The operations a client calls: [seal] gives ciphertext and tag, [open] the
    plaintext, [Some None] for a tag that does not match. *)
Class AeadOps := {
  seal : list Z -> list Z -> list Z -> list Z -> option (list Z * list Z);
  open : list Z -> list Z -> list Z -> list Z -> list Z -> option (option (list Z)) }.

(** What it promises for a key of [AEAD_KEY] bytes and a nonce of [AEAD_NONCE]
    bytes: no assertion fails, the ciphertext is as long as the plaintext, and
    [open] accepts exactly the ciphertext and tag [seal] writes. *)
Class AeadLaws (O : AeadOps) := {
  seal_total : forall key nonce aad pt,
    bytes_ok key -> length key = 32%nat -> bytes_ok nonce -> bytes_ok aad -> bytes_ok pt ->
    exists ct tag, seal key nonce aad pt = Some (ct, tag) /\
      length ct = length pt /\ bytes_ok ct /\ length tag = 16%nat /\ bytes_ok tag;
  open_iff_seal : forall key nonce aad ct tag,
    bytes_ok key -> length key = 32%nat -> bytes_ok nonce -> bytes_ok aad -> bytes_ok ct ->
    length tag = 16%nat -> bytes_ok tag ->
    exists r, open key nonce aad ct tag = Some r /\
      forall pt, bytes_ok pt -> r = Some pt <-> seal key nonce aad pt = Some (ct, tag);
  open_bytes : forall key nonce aad ct tag pt,
    bytes_ok key -> length key = 32%nat -> bytes_ok nonce -> bytes_ok aad -> bytes_ok ct ->
    length tag = 16%nat -> bytes_ok tag ->
    open key nonce aad ct tag = Some (Some pt) -> bytes_ok pt /\ length pt = length ct }.

Module Aead.

Definition AEAD_KEY : nat := 32.
Definition AEAD_NONCE : nat := 12.
Definition AEAD_TAG : nat := 16.

(** ** The code *)

Definition zeros16 : list Z := replicate 16 0.

(** [mac]: the stack object [p]'s block buffer starts zero here; the tag does
    not depend on it. *)
Definition mac (key nonce aad ct : list Z) : option (list Z) :=
  let otk := chacha20_block key nonce 0 in
  let p := poly1305_init (replicate 16 0) (take POLY1305_KEY otk) in
  p ← poly1305_update p aad;
  p ← poly1305_update p (take ((16 - length aad mod 16) mod 16) zeros16);
  p ← poly1305_update p ct;
  p ← poly1305_update p (take ((16 - length ct mod 16) mod 16) zeros16);
  let len := ((fun i => u8 (u64 (Z.of_nat (length aad)) >> (8 * Z.of_nat i))) <$> seq 0 8)
             ++ ((fun i => u8 (u64 (Z.of_nat (length ct)) >> (8 * Z.of_nat i))) <$> seq 0 8) in
  p ← poly1305_update p len;
  poly1305_final p.

Definition aead_seal (key nonce aad pt : list Z) : option (list Z * list Z) :=
  let ct := chacha20_xor key nonce 1 pt in
  tag ← mac key nonce aad ct;
  Some (ct, tag).

Definition tag_matches (key nonce aad ct tag : list Z) : option bool :=
  want ← mac key nonce aad ct;
  Some (negb (ct_memeq_public want tag AEAD_TAG =? 0)).

Definition aead_open (key nonce aad ct tag : list Z) : option (option (list Z)) :=
  ok ← tag_matches key nonce aad ct tag;
  if negb ok then Some None else Some (Some (chacha20_xor key nonce 1 ct)).

(** ** Reference: RFC 8439 section 2.8 *)

Definition pad16 (m : list Z) : list Z := m ++ replicate ((16 - length m mod 16) mod 16) 0.
Definition mac_data (aad ct : list Z) : list Z :=
  pad16 aad ++ pad16 ct ++ le_bytes 8 (Z.of_nat (length aad)) ++ le_bytes 8 (Z.of_nat (length ct)).
Definition mac_spec (key nonce aad ct : list Z) : list Z :=
  poly1305_spec (take 32 (chacha20_block key nonce 0)) (mac_data aad ct).

#[local] Opaque chacha20_block chacha20_xor poly1305_update poly1305_final poly1305_spec poly1305_init.

(** ** Lemmas *)

Lemma le64_bytes n : ((fun i => u8 (u64 n >> (8 * Z.of_nat i))) <$> seq 0 8) = le_bytes 8 n.
Proof.
  cbn [seq fmap list_fmap le_bytes]. rewrite !Z.shiftr_div_pow2 by lia.
  repeat (apply (f_equal2 cons); [unfold u8, u64; dlia|]). done.
Qed.

Lemma take_zeros k : (k <= 16)%nat -> take k zeros16 = replicate k 0.
Proof. intros. unfold zeros16. by rewrite take_replicate, Nat.min_l by lia. Qed.

Lemma mac_data_concat aad ct :
  mac_data aad ct = concat [aad; take ((16 - length aad mod 16) mod 16) zeros16; ct;
    take ((16 - length ct mod 16) mod 16) zeros16;
    le_bytes 8 (Z.of_nat (length aad)) ++ le_bytes 8 (Z.of_nat (length ct))].
Proof.
  pose proof (Nat.mod_upper_bound (16 - length aad mod 16) 16).
  pose proof (Nat.mod_upper_bound (16 - length ct mod 16) 16).
  rewrite !take_zeros by lia. unfold mac_data, pad16. cbn [concat].
  by rewrite app_nil_r, <- !app_assoc.
Qed.

Lemma mac_data_ok aad ct : bytes_ok aad -> bytes_ok ct -> bytes_ok (mac_data aad ct).
Proof.
  intros. unfold mac_data, pad16. repeat apply Forall_app_2; auto with words;
    by apply Forall_replicate.
Qed.

(** The five updates are one pass over the MAC input. *)
Lemma mac_correct key nonce aad ct : bytes_ok aad -> bytes_ok ct ->
  mac key nonce aad ct = Some (mac_spec key nonce aad ct).
Proof.
  intros Ha Hc. unfold mac. rewrite !le64_bytes. set (k := take POLY1305_KEY _).
  assert (Hk : bytes_ok k) by (apply Forall_take, chacha20_block_ok).
  assert (Hkl : length k = POLY1305_KEY) by (subst k; rewrite length_take, length_chacha20_block; done).
  pose proof (poly1305_init_absorbed (replicate 16 0) k eq_refl) as A0.
  destruct (poly1305_update_absorbs _ _ _ aad A0) as (p1 & E1 & A1). rewrite E1. cbn [mbind option_bind].
  destruct (poly1305_update_absorbs _ _ _ (take ((16 - length aad mod 16) mod 16) zeros16) A1) as (p2 & E2 & A2).
  rewrite E2. cbn [mbind option_bind].
  destruct (poly1305_update_absorbs _ _ _ ct A2) as (p3 & E3 & A3). rewrite E3. cbn [mbind option_bind].
  destruct (poly1305_update_absorbs _ _ _ (take ((16 - length ct mod 16) mod 16) zeros16) A3) as (p4 & E4 & A4).
  rewrite E4. cbn [mbind option_bind].
  match goal with |- context [poly1305_update p4 ?l] =>
    destruct (poly1305_update_absorbs _ _ _ l A4) as (p5 & E5 & A5) end.
  rewrite E5. cbn [mbind option_bind app] in *.
  assert (E : mac_data aad ct = ((((aad ++ take ((16 - length aad mod 16) mod 16) zeros16) ++ ct) ++
      take ((16 - length ct mod 16) mod 16) zeros16) ++
      le_bytes 8 (Z.of_nat (length aad)) ++ le_bytes 8 (Z.of_nat (length ct)))%list)
    by (rewrite mac_data_concat; cbn [concat]; by rewrite app_nil_r, <- !app_assoc).
  rewrite <- E in A5. unfold mac_spec. fold k.
  apply (poly1305_final_tag k p5 (mac_data aad ct)); [done|done|by apply mac_data_ok|done].
Qed.

Lemma mac_spec_shape key nonce aad ct :
  length (mac_spec key nonce aad ct) = AEAD_TAG /\ bytes_ok (mac_spec key nonce aad ct).
Proof. apply poly1305_spec_shape. Qed.

Lemma aead_seal_correct key nonce aad pt : bytes_ok aad -> bytes_ok pt ->
  aead_seal key nonce aad pt
  = Some (chacha20_xor key nonce 1 pt, mac_spec key nonce aad (chacha20_xor key nonce 1 pt)).
Proof.
  intros. unfold aead_seal. rewrite mac_correct; [done|done|]. by apply chacha20_xor_ok.
Qed.

Lemma aead_open_correct key nonce aad ct tag :
  bytes_ok aad -> bytes_ok ct -> bytes_ok tag -> length tag = AEAD_TAG ->
  aead_open key nonce aad ct tag
  = Some (if bool_decide (tag = mac_spec key nonce aad ct) then Some (chacha20_xor key nonce 1 ct) else None).
Proof.
  intros Ha Hc Ht Hl. unfold aead_open, tag_matches. rewrite mac_correct by done.
  cbn [mbind option_bind]. destruct (mac_spec_shape key nonce aad ct) as [Hsl Hso].
  unfold ct_memeq_public. rewrite ct_memeq_spec by (done || lia). rewrite !take_ge by lia.
  pose proof (bytes_eqb_eq (mac_spec key nonce aad ct) tag) as He.
  case_bool_decide as Hd; destruct (bytes_eqb _ _); cbn; try done.
  - symmetry in Hd. apply He in Hd. done.
  - destruct Hd. symmetry. by apply He.
Qed.

(** [open] accepts exactly what [seal] writes. *)
Lemma aead_open_iff key nonce aad ct tag :
  bytes_ok aad -> bytes_ok ct -> length tag = 16%nat -> bytes_ok tag ->
  exists r, aead_open key nonce aad ct tag = Some r /\
    forall pt, bytes_ok pt -> r = Some pt <-> aead_seal key nonce aad pt = Some (ct, tag).
Proof.
  intros Ha Hc Hl Ht. rewrite aead_open_correct by done. eexists. split; [reflexivity|].
  intros pt Hp. rewrite aead_seal_correct by done. case_bool_decide as Hd; split.
  - intros [= <-]. rewrite chacha20_xor_involutive by done. by rewrite Hd.
  - intros [= <- _]. by rewrite chacha20_xor_involutive.
  - done.
  - intros [= <- Heq]. congruence.
Qed.

(** ChaCha20-Poly1305 keeps the interface. *)
#[export] Instance chacha20_poly1305 : AeadOps := {| seal := aead_seal; open := aead_open |}.

#[export] Instance chacha20_poly1305_laws : AeadLaws chacha20_poly1305.
Proof.
  split; cbn [seal open chacha20_poly1305].
  - intros key nonce aad pt _ _ _ Ha Hp. rewrite aead_seal_correct by done. do 2 eexists.
    destruct (mac_spec_shape key nonce aad (chacha20_xor key nonce 1 pt)) as [Hl Ho].
    split; [reflexivity|]. rewrite length_chacha20_xor by done.
    split; [done|split; [by apply chacha20_xor_ok|done]].
  - intros. by apply aead_open_iff.
  - intros key nonce aad ct tag pt _ _ _ Ha Hc Hl Ht Ho. rewrite aead_open_correct in Ho by done.
    case_bool_decide; [|done]. apply (f_equal (default None)) in Ho. cbn in Ho.
    injection Ho as <-. split; [by apply chacha20_xor_ok|by apply length_chacha20_xor].
Qed.

(** ** Properties *)

(** C38. Equivalence: sealing is RFC 8439's AEAD: no assertion fails, the
    ciphertext is the plaintext under the ChaCha20 stream from counter 1, and
    the tag is Poly1305, keyed by the first 32 bytes of block 0, of the padded
    associated data, the padded ciphertext and their 64-bit lengths. *)
Theorem aead_seal_is_rfc8439 (key nonce aad pt : list Z) (Ha : bytes_ok aad) (Hp : bytes_ok pt) :
  aead_seal key nonce aad pt
  = let ct := chacha20_xor key nonce 1 pt in
    Some (ct, poly1305_spec (take 32 (chacha20_block key nonce 0))
      (pad16 aad ++ pad16 ct ++ le_bytes 8 (Z.of_nat (length aad)) ++ le_bytes 8 (Z.of_nat (length pt)))).
Proof.
  rewrite aead_seal_correct by done. cbn zeta.
  rewrite <- (length_chacha20_xor key nonce 1 pt ltac:(done)). reflexivity.
Qed.

Lemma aead_seal_is_rfc8439_witness :
  exists tag, aead_seal (replicate 32 1) (replicate 12 2) [5] [6; 7]
  = Some (chacha20_xor (replicate 32 1) (replicate 12 2) 1 [6; 7], tag).
Proof.
  eexists. refine (aead_seal_is_rfc8439 (replicate 32 1) (replicate 12 2) [5] [6; 7] _ _);
    repeat constructor; discriminate.
Defined.

(** C14. Authenticity: [aead_open] gives plaintext [pt] exactly when sealing [pt]
    under the same key, nonce and associated data writes this ciphertext and
    this tag; otherwise it releases nothing.  So it opens what was sealed, and
    a changed tag or ciphertext never opens to the same plaintext. *)
Theorem aead_open_accepts_exactly_seals (key nonce aad ct tag pt : list Z)
    (Ha : bytes_ok aad) (Hc : bytes_ok ct) (Hl : length tag = AEAD_TAG) (Ht : bytes_ok tag)
    (Hp : bytes_ok pt) :
  (aead_open key nonce aad ct tag = Some (Some pt) <-> aead_seal key nonce aad pt = Some (ct, tag)) /\
  (aead_open key nonce aad ct tag = Some None \/ exists pt', aead_open key nonce aad ct tag = Some (Some pt')).
Proof.
  destruct (aead_open_iff key nonce aad ct tag Ha Hc Hl Ht) as (r & -> & Hr). split.
  - rewrite <- (Hr pt Hp). split; congruence.
  - destruct r; eauto.
Qed.

Lemma aead_open_accepts_exactly_seals_witness :
  aead_open (replicate 32 1) (replicate 12 2) [5] [6; 7] (replicate 16 0) = Some (Some [8; 9]) <->
  aead_seal (replicate 32 1) (replicate 12 2) [5] [8; 9] = Some ([6; 7], replicate 16 0).
Proof.
  apply (aead_open_accepts_exactly_seals (replicate 32 1) (replicate 12 2) [5] [6; 7] (replicate 16 0) [8; 9]);
    repeat constructor; discriminate.
Defined.
End Aead.
