(* ===== verification/Hkdf.v ===== *)
(** * HMAC, HKDF and the TLS 1.3 label scheme: src/src/hkdf.c, hkdf.h

    The portable file over SHA-256 and, in a build that has it, SHA-384.
    [None] is a failed [CH_ASSERT]. *)

From S2P Require Import Prelude MdHash Sha256 Sha512.
Import Sha256 Sha512.
Local Open Scope Z_scope.
Local Open Scope word_scope.

(** The build parameters of hkdf.h, in the range its static assertions keep. *)
Class HkdfBuild := {
  CH_HASH_SHA384 : bool;
  HKDF_LABEL_MAX : nat;
  label_max_range : (12 <= HKDF_LABEL_MAX <= 249)%nat }.

Module Hkdf.

(** ** HMAC *)

(** The pad of one pass: [k[i] ^ c] over a whole block. *)
Definition xor_const (c : Z) (k : list Z) : list Z := (fun x => x .^ c) <$> k.

Definition hmac_sha256 (key msg : list Z) : list Z :=
  let k := replicate SHA256_BLOCK 0 in
  let k := if (SHA256_BLOCK <? length key)%nat then store_bytes k 0 (sha256_of key)
           else store_bytes k 0 key in
  let s := sha256_init (replicate SHA256_BLOCK 0) in
  let s := sha256_update s (xor_const 0x36 k) in
  let s := sha256_update s msg in
  let '(out, s) := sha256_final s in
  let s := sha256_init (md_block s) in
  let s := sha256_update s (xor_const 0x5c k) in
  let s := sha256_update s out in
  (sha256_final s).1.

Definition hmac_sha384 (key msg : list Z) : list Z :=
  let k := replicate SHA512_BLOCK 0 in
  let k := if (SHA512_BLOCK <? length key)%nat then store_bytes k 0 (sha384_of key)
           else store_bytes k 0 key in
  let s := sha384_init (replicate SHA512_BLOCK 0) in
  let s := sha512_update s (xor_const 0x36 k) in
  let s := sha512_update s msg in
  let '(out, s) := sha384_final s in
  let s := sha384_init (md_block s) in
  let s := sha512_update s (xor_const 0x5c k) in
  let s := sha512_update s out in
  (sha384_final s).1.

Section Build.
Context {build : HkdfBuild}.

Definition HKDF_HASH_MAX : nat := if CH_HASH_SHA384 then SHA384_LEN else SHA256_LEN.
Definition HKDF_INFO_MAX : nat := 2 + 1 + 6 + HKDF_LABEL_MAX + 1 + HKDF_HASH_MAX.

Definition hmac (hash_len : nat) (key msg : list Z) : option (list Z) :=
  if CH_HASH_SHA384 && (hash_len =? SHA384_LEN)%nat then Some (hmac_sha384 key msg)
  else if (hash_len =? SHA256_LEN)%nat then Some (hmac_sha256 key msg)
  else None.

(** [salt] is [None] for a NULL pointer. *)
Definition hkdf_extract (hash_len : nat) (salt : option (list Z)) (ikm : list Z) : option (list Z) :=
  let salt := match salt with None => take hash_len (replicate HKDF_HASH_MAX 0) | Some s => s end in
  hmac hash_len salt ikm.

(** ** HKDF-Expand *)

(** The [while (off < out_len)] loop; [out] is what is written so far, [off] its
    length.  Each round writes at least one byte, so [out_len] is enough fuel. *)
Fixpoint expand_while (fuel : nat) (hash_len : nat) (prk info t : list Z) (t_len : nat) (n : Z)
    (out : list Z) (out_len : nat) : option (list Z) :=
  match fuel with
  | O => Some out
  | S fuel =>
      if (length out <? out_len)%nat then
        let n := u8 (n + 1) in
        let msg := take t_len t ++ info ++ [n] in
        h ← hmac hash_len (take hash_len prk) msg;
        let t := store_bytes t 0 h in
        let t_len := hash_len in
        let off := length out in
        let k := if (out_len - off <? hash_len)%nat then (out_len - off)%nat else hash_len in
        expand_while fuel hash_len prk info t t_len n (out ++ take k t) out_len
      else Some out
  end.

Definition hkdf_expand (hash_len : nat) (prk info : list Z) (out_len : nat) : option (list Z) :=
  if (hash_len <=? HKDF_HASH_MAX)%nat then
    if (0 <? out_len)%nat && (out_len <=? 255 * hash_len)%nat then
      if (length info <=? HKDF_INFO_MAX)%nat then
        expand_while out_len hash_len prk info (replicate HKDF_HASH_MAX 0) 0 0 [] out_len
      else None
    else None
  else None.

(** ** The label scheme *)

Definition hkdf_expand_label (hash_len : nat) (secret label ctx : list Z) (out_len : nat)
    : option (list Z) :=
  let label_len := length label in
  let ctx_len := length ctx in
  if (0 <? label_len)%nat && (label_len <=? HKDF_LABEL_MAX)%nat then
    if (ctx_len <=? HKDF_HASH_MAX)%nat then
      if (Z.of_nat out_len <=? 0xffff) then
        let info := [u8 (Z.of_nat out_len >> 8); u8 (Z.of_nat out_len); u8 (Z.of_nat (6 + label_len))] in
        let info := info ++ str "tls13 " in
        let info := info ++ label in
        let info := info ++ [u8 (Z.of_nat ctx_len)] in
        let info := if (0 <? ctx_len)%nat then info ++ ctx else info in
        hkdf_expand hash_len secret info out_len
      else None
    else None
  else None.

Definition hkdf_derive_secret (hash_len : nat) (secret label hash : list Z) : option (list Z) :=
  hkdf_expand_label hash_len secret label (take hash_len hash) hash_len.
End Build.

(** ** Reference *)

(** RFC 2104 over hash [H] with block size [B]. *)
Definition hmac_spec (H : list Z -> list Z) (B : nat) (key msg : list Z) : list Z :=
  let k0 := if (B <? length key)%nat then H key else key in
  let k := k0 ++ replicate (B - length k0) 0 in
  H (xor_const 0x5c k ++ H (xor_const 0x36 k ++ msg)).

(** RFC 5869 section 2.3: [T(1) | T(2) | ...] over a MAC [mac]. *)
Fixpoint expand_blocks (mac : list Z -> list Z) (info prev : list Z) (i n : nat) : list Z :=
  match n with
  | O => []
  | S n => let t := mac (prev ++ info ++ [Z.of_nat i]) in t ++ expand_blocks mac info t (S i) n
  end.
Definition expand_spec (mac : list Z -> list Z) (hash_len : nat) (info : list Z) (out_len : nat) : list Z :=
  take out_len (expand_blocks mac info [] 1 ((out_len + hash_len - 1) / hash_len)).

(** RFC 9846 section 7.1's [HkdfLabel]. *)
Definition hkdf_label (out_len : nat) (label ctx : list Z) : list Z :=
  be_bytes 2 (Z.of_nat out_len) ++ [Z.of_nat (6 + length label)] ++ str "tls13 " ++ label
  ++ [Z.of_nat (length ctx)] ++ ctx.

#[local] Opaque sha256_update sha256_final sha256_of sha512_update sha384_final sha384_of
  sha256_spec sha384_spec.

(** ** Lemmas: HMAC *)

Lemma xor_const_length c k : length (xor_const c k) = length k.
Proof. apply length_fmap. Qed.

Lemma key_block B k : (length k <= B)%nat ->
  store_bytes (replicate B 0) 0 k = k ++ replicate (B - length k) 0.
Proof. intros. unfold store_bytes. by rewrite take_0, drop_replicate. Qed.

(** The two-update hash of each pass. *)
Lemma sha256_pass block a b : length block = SHA256_BLOCK ->
  absorbed SHA256_BLOCK Sha256.compress Sha256.iv (sha256_update (sha256_update (sha256_init block) a) b) (a ++ b).
Proof. intros Hb. apply (update_absorbs _ a), (update_absorbs _ []), Sha256.sha256_init_absorbed, Hb. Qed.

Lemma sha384_pass block a b : length block = SHA512_BLOCK ->
  absorbed SHA512_BLOCK sha512_compress IV384 (sha512_update (sha512_update (sha384_init block) a) b) (a ++ b).
Proof.
  intros Hb. pose proof (sha512_updates_absorb IV384 [a; b] _ [] (Sha512.sha512_init_absorbed IV384 block Hb)) as H.
  cbn [foldl concat app] in H. by rewrite app_nil_r in H.
Qed.

(** The key block of each HMAC is the RFC 2104 one. *)
Lemma hmac_key B (H : list Z -> list Z) key : (length (H key) <= B)%nat ->
  (if (B <? length key)%nat then store_bytes (replicate B 0) 0 (H key) else store_bytes (replicate B 0) 0 key)
  = (let k0 := if (B <? length key)%nat then H key else key in k0 ++ replicate (B - length k0) 0).
Proof. intros. cbn zeta. destruct (Nat.ltb_spec B (length key)); apply key_block; lia. Qed.

Lemma hmac_sha256_spec key msg : hmac_sha256 key msg = hmac_spec sha256_spec SHA256_BLOCK key msg.
Proof.
  unfold hmac_sha256, hmac_spec. rewrite sha256_of_spec.
  rewrite (hmac_key SHA256_BLOCK sha256_spec) by (rewrite (proj1 (sha256_spec_shape key)); unfold SHA256_LEN, SHA256_BLOCK; lia).
  cbn zeta. set (k := (_ ++ replicate _ _)). clearbody k.
  pose proof (sha256_pass (replicate SHA256_BLOCK 0) (xor_const 0x36 k) msg (length_replicate _ _)) as Ha.
  pose proof (sha256_final_digest _ _ Ha) as Hd. pose proof (sha256_final_block _ _ Ha) as Hb.
  destruct (sha256_final _) as [out s]. cbn [fst snd] in Hd, Hb. subst out.
  apply sha256_final_digest, (sha256_pass (md_block s)), Hb.
Qed.

Lemma hmac_sha384_spec key msg :
  Z.of_nat (length key) < 2 ^ 64 -> Z.of_nat (length msg) + 128 < 2 ^ 64 ->
  hmac_sha384 key msg = hmac_spec sha384_spec SHA512_BLOCK key msg.
Proof.
  intros Hkey Hmsg. unfold hmac_sha384, hmac_spec. rewrite sha384_of_spec by done.
  rewrite (hmac_key SHA512_BLOCK sha384_spec) by (rewrite (proj1 (sha384_spec_shape key)); unfold SHA384_LEN, SHA512_BLOCK; lia).
  cbn zeta. set (k0 := if (SHA512_BLOCK <? length key)%nat then _ else _).
  assert (Hk0 : (length k0 <= SHA512_BLOCK)%nat).
  { subst k0. destruct (Nat.ltb_spec SHA512_BLOCK (length key)); [|lia].
    rewrite (proj1 (sha384_spec_shape key)). unfold SHA384_LEN, SHA512_BLOCK. lia. }
  set (k := k0 ++ _). assert (Hk : length k = SHA512_BLOCK) by (subst k; rewrite length_app, length_replicate; lia).
  clearbody k. clear k0 Hk0. unfold SHA512_BLOCK in Hk.
  pose proof (sha384_pass (replicate SHA512_BLOCK 0) (xor_const 0x36 k) msg (length_replicate _ _)) as Ha.
  pose proof (sha384_final_digest _ _ Ha ltac:(rewrite length_app, xor_const_length, Hk; lia)) as Hd.
  pose proof (sha384_final_block _ (proj1 (proj2 (proj2 Ha)))) as Hb.
  destruct (sha384_final _) as [out s]. cbn [fst snd] in Hd, Hb. subst out.
  apply sha384_final_digest; [apply (sha384_pass (md_block s)), Hb|].
  rewrite length_app, xor_const_length, Hk, (proj1 (sha384_spec_shape _)). unfold SHA384_LEN. lia.
Qed.

(** ** Lemmas: HKDF *)

Section BuildLemmas.
Context {build : HkdfBuild}.

(** The hash lengths a build holds. *)
Definition hash_ok (hash_len : nat) : Prop :=
  hash_len = SHA256_LEN \/ (CH_HASH_SHA384 = true /\ hash_len = SHA384_LEN).

#[export] Instance hash_ok_dec hash_len : Decision (hash_ok hash_len).
Proof. unfold hash_ok. apply _. Defined.

(** Lengths a C object can have, with room for a block before it. *)
Definition size_ok (l : list Z) : Prop := Z.of_nat (length l) + 128 < 2 ^ 64.

Definition hmac_of (hash_len : nat) (key msg : list Z) : list Z :=
  if (hash_len =? SHA384_LEN)%nat then hmac_spec sha384_spec SHA512_BLOCK key msg
  else hmac_spec sha256_spec SHA256_BLOCK key msg.

Lemma hmac_correct hash_len key msg : hash_ok hash_len -> size_ok key -> size_ok msg ->
  hmac hash_len key msg = Some (hmac_of hash_len key msg).
Proof.
  intros Hh Hk Hm. unfold hmac, hmac_of, size_ok in *. destruct Hh as [-> | [-> ->]]; cbn [Nat.eqb].
  - rewrite andb_false_r. cbn. apply (f_equal Some), hmac_sha256_spec.
  - cbn. apply (f_equal Some), hmac_sha384_spec; lia.
Qed.

Lemma hmac_assert hash_len key msg : ~ hash_ok hash_len -> hmac hash_len key msg = None.
Proof.
  intros Hh. unfold hmac. destruct (Nat.eqb_spec hash_len SHA256_LEN); [destruct Hh; by left|].
  destruct (Nat.eqb_spec hash_len SHA384_LEN); [|by rewrite andb_false_r].
  destruct CH_HASH_SHA384 eqn:E; [|done]. destruct Hh. by right.
Qed.

Lemma hmac_of_shape hash_len key msg : hash_ok hash_len ->
  length (hmac_of hash_len key msg) = hash_len /\ bytes_ok (hmac_of hash_len key msg).
Proof.
  unfold hmac_of, hmac_spec. intros [-> | [_ ->]]; cbn [Nat.eqb].
  - apply sha256_spec_shape.
  - apply sha384_spec_shape.
Qed.

Lemma hash_ok_pos hash_len : hash_ok hash_len -> (0 < hash_len <= HKDF_HASH_MAX)%nat /\ (hash_len <= 48)%nat.
Proof.
  unfold HKDF_HASH_MAX, SHA256_LEN, SHA384_LEN. intros [-> | [-> ->]]; unfold SHA256_LEN, SHA384_LEN;
    [destruct CH_HASH_SHA384|]; lia.
Qed.

Lemma hash_max_le : (HKDF_HASH_MAX <= 48)%nat.
Proof. unfold HKDF_HASH_MAX, SHA256_LEN, SHA384_LEN. destruct CH_HASH_SHA384; lia. Qed.

Lemma info_max_le : (HKDF_INFO_MAX <= 307)%nat.
Proof. unfold HKDF_INFO_MAX. pose proof hash_max_le. pose proof label_max_range. lia. Qed.

Lemma ceil_step rem h : (0 < rem)%nat -> (0 < h)%nat ->
  ((rem + h - 1) / h = S ((rem - Nat.min rem h + h - 1) / h))%nat.
Proof.
  intros Hr Hh. destruct (Nat.le_gt_cases h rem).
  - rewrite Nat.min_r by lia. replace (rem + h - 1)%nat with (rem - h + h - 1 + 1 * h)%nat by lia.
    rewrite Nat.div_add by lia. lia.
  - rewrite Nat.min_l by lia. rewrite (Nat.div_small (rem - rem + h - 1)) by lia.
    symmetry. apply (Nat.div_unique _ _ 1 (rem - 1)); lia.
Qed.

Lemma expand_while_spec fuel hash_len prk info t t_len i out out_len :
  let mac := hmac_of hash_len (take hash_len prk) in
  let N := ((out_len - length out + hash_len - 1) / hash_len)%nat in
  hash_ok hash_len -> (length info <= HKDF_INFO_MAX)%nat -> length t = HKDF_HASH_MAX ->
  (t_len <= hash_len)%nat -> (out_len - length out <= fuel)%nat -> (i + N <= 255)%nat ->
  expand_while fuel hash_len prk info t t_len (Z.of_nat i) out out_len
  = Some (out ++ take (out_len - length out) (expand_blocks mac info (take t_len t) (S i) N)).
Proof.
  intros mac N Hh Hinfo Ht Htl. revert t t_len i out Ht Htl N.
  destruct (hash_ok_pos hash_len Hh) as [Hpos H48].
  induction fuel as [|fuel IH]; intros t t_len i out Ht Htl N Hf Hi; cbn [expand_while].
  { replace (out_len - length out)%nat with 0%nat by lia. by rewrite take_0, app_nil_r. }
  destruct (Nat.ltb_spec (length out) out_len) as [Hlt|Hge].
  2:{ replace (out_len - length out)%nat with 0%nat by lia. by rewrite take_0, app_nil_r. }
  set (rem := (out_len - length out)%nat) in *.
  assert (HN : N = S ((rem - Nat.min rem hash_len + hash_len - 1) / hash_len)) by (apply ceil_step; lia).
  assert (Hn : u8 (Z.of_nat i + 1) = Z.of_nat (S i)) by (rewrite u8_small; unfold byte_ok; lia).
  rewrite Hn, hmac_correct.
  2: exact Hh.
  2:{ unfold size_ok. rewrite length_take. lia. }
  2:{ unfold size_ok. rewrite !length_app, length_take. pose proof info_max_le. cbn [length]. lia. }
  cbn [mbind option_bind]. fold mac. rewrite HN. cbn [expand_blocks].
  set (h := mac (take t_len t ++ info ++ [Z.of_nat (S i)])).
  assert (Hhl : length h = hash_len) by (apply hmac_of_shape, Hh).
  assert (Hk : (if (rem <? hash_len)%nat then rem else hash_len) = Nat.min rem hash_len)
    by (destruct (Nat.ltb_spec rem hash_len); lia).
  rewrite Hk. set (k := Nat.min rem hash_len) in *.
  assert (Hth : take hash_len (store_bytes t 0 h) = h).
  { pose proof (take_store_bytes t 0 h ltac:(lia)) as E. by rewrite take_0, Hhl in E. }
  assert (Htk : take k (store_bytes t 0 h) = take k h) by (rewrite <- Hth at 2; rewrite take_take; f_equal; lia).
  assert (Hlen : length (out ++ take k (store_bytes t 0 h)) = (length out + k)%nat)
    by (rewrite length_app, Htk, length_take; lia).
  rewrite IH; rewrite ?Hlen; replace (out_len - (length out + k))%nat with (rem - k)%nat by lia;
    [|rewrite length_store_bytes; lia|lia|lia|lia].
  rewrite Hth, Htk, <- app_assoc. do 2 f_equal.
  destruct (Nat.le_gt_cases hash_len rem).
  - rewrite (take_app_ge h) by lia. rewrite Hhl, (take_ge h) by lia. do 2 f_equal. lia.
  - rewrite (take_app_le h) by lia. replace (rem - k)%nat with 0%nat by lia.
    rewrite take_0, app_nil_r. f_equal. lia.
Qed.

Lemma hkdf_expand_correct hash_len prk info out_len :
  hash_ok hash_len -> (0 < out_len <= 255 * hash_len)%nat -> (length info <= HKDF_INFO_MAX)%nat ->
  hkdf_expand hash_len prk info out_len
  = Some (expand_spec (hmac_of hash_len (take hash_len prk)) hash_len info out_len).
Proof.
  intros Hh Ho Hi. unfold hkdf_expand. destruct (hash_ok_pos hash_len Hh) as [Hpos _].
  rewrite (proj2 (Nat.leb_le _ _)), (proj2 (Nat.ltb_lt _ _)), (proj2 (Nat.leb_le _ _)),
    (proj2 (Nat.leb_le (length info) _)) by lia. cbn [andb].
  change 0 with (Z.of_nat 0). rewrite expand_while_spec; [|done|done|apply length_replicate|lia|lia|].
  - cbn [length app]. by rewrite take_0, Nat.sub_0_r.
  - cbn [length]. rewrite Nat.sub_0_r. cut ((out_len + hash_len - 1) / hash_len < 256)%nat; [lia|].
    apply Nat.Div0.div_lt_upper_bound. lia.
Qed.

Lemma length_expand_blocks mac info h : forall n prev i,
  (forall m, length (mac m) = h) -> length (expand_blocks mac info prev i n) = (n * h)%nat.
Proof.
  intros n. induction n as [|n IH]; intros prev i Hm; cbn [expand_blocks]; [done|].
  rewrite length_app, Hm, IH by done. lia.
Qed.

Lemma expand_blocks_ok mac info : forall n prev i,
  (forall m, bytes_ok (mac m)) -> bytes_ok (expand_blocks mac info prev i n).
Proof.
  intros n. induction n as [|n IH]; intros prev i Hm; cbn [expand_blocks]; [constructor|].
  apply Forall_app. split; [apply Hm|by apply IH].
Qed.

Lemma expand_spec_shape hash_len key info out_len : hash_ok hash_len ->
  length (expand_spec (hmac_of hash_len key) hash_len info out_len) = out_len /\
  bytes_ok (expand_spec (hmac_of hash_len key) hash_len info out_len).
Proof.
  intros Hh. unfold expand_spec. destruct (hash_ok_pos hash_len Hh) as [Hpos _].
  split; [|apply Forall_take, expand_blocks_ok; intros; by apply hmac_of_shape].
  rewrite length_take, (length_expand_blocks _ _ hash_len) by (intros; by apply hmac_of_shape).
  pose proof (Nat.div_mod_eq (out_len + hash_len - 1) hash_len).
  pose proof (Nat.mod_upper_bound (out_len + hash_len - 1) hash_len). lia.
Qed.

(** HKDF-Expand-Label of RFC 9846 section 7.1. *)
Definition expand_label_spec (hash_len : nat) (secret label ctx : list Z) (out_len : nat) : list Z :=
  expand_spec (hmac_of hash_len (take hash_len secret)) hash_len (hkdf_label out_len label ctx) out_len.

(** The arguments [hkdf_expand_label] and the [hkdf_expand] under it accept. *)
Definition label_args_ok (hash_len : nat) (label ctx : list Z) (out_len : nat) : Prop :=
  (0 < length label <= HKDF_LABEL_MAX)%nat /\ (length ctx <= HKDF_HASH_MAX)%nat /\
  (0 < out_len <= 255 * hash_len)%nat.

#[export] Instance label_args_ok_dec hash_len label ctx out_len : Decision (label_args_ok hash_len label ctx out_len).
Proof. unfold label_args_ok. apply _. Defined.

Lemma label_bytes out_len label ctx : (length label <= 249)%nat -> (length ctx <= 255)%nat ->
  (let info := [u8 (Z.of_nat out_len >> 8); u8 (Z.of_nat out_len); u8 (Z.of_nat (6 + length label))] in
   let info := info ++ str "tls13 " in
   let info := info ++ label in
   let info := info ++ [u8 (Z.of_nat (length ctx))] in
   if (0 <? length ctx)%nat then info ++ ctx else info) = hkdf_label out_len label ctx.
Proof.
  intros Hl Hc. cbn zeta. unfold hkdf_label. change (be_bytes 2 (Z.of_nat out_len))
    with [u8 (Z.of_nat out_len / 2 ^ 8); u8 (Z.of_nat out_len)].
  rewrite Z.shiftr_div_pow2 by lia.
  rewrite (u8_small (Z.of_nat (6 + _))), (u8_small (Z.of_nat (length ctx))) by (unfold byte_ok; lia).
  destruct (Nat.ltb_spec 0 (length ctx)) as [H|H].
  - rewrite <- !app_assoc. done.
  - destruct ctx; [|cbn in H; lia]. rewrite <- !app_assoc. done.
Qed.

Lemma hkdf_label_length out_len label ctx :
  length (hkdf_label out_len label ctx) = (10 + length label + length ctx)%nat.
Proof. unfold hkdf_label. rewrite !length_app, length_be_bytes. cbn. lia. Qed.

Lemma hkdf_expand_label_correct hash_len secret label ctx out_len :
  hash_ok hash_len -> label_args_ok hash_len label ctx out_len ->
  hkdf_expand_label hash_len secret label ctx out_len
  = Some (expand_label_spec hash_len secret label ctx out_len).
Proof.
  intros Hh (Hl & Hc & Ho). pose proof label_max_range. pose proof hash_max_le.
  destruct (hash_ok_pos _ Hh) as [_ H48]. unfold hkdf_expand_label.
  rewrite (proj2 (Nat.ltb_lt 0 (length label))), !(proj2 (Nat.leb_le _ _)), (proj2 (Z.leb_le _ _)) by lia.
  cbn [andb]. rewrite label_bytes by lia. apply hkdf_expand_correct; [done|done|].
  rewrite hkdf_label_length. unfold HKDF_INFO_MAX. lia.
Qed.

Lemma hkdf_expand_label_assert hash_len secret label ctx out_len :
  hash_ok hash_len -> ~ label_args_ok hash_len label ctx out_len ->
  hkdf_expand_label hash_len secret label ctx out_len = None.
Proof.
  intros Hh Hno. unfold hkdf_expand_label, hkdf_expand, label_args_ok in *.
  destruct (hash_ok_pos _ Hh) as [Hpos H48].
  destruct (Nat.ltb_spec 0 (length label)), (Nat.leb_spec (length label) HKDF_LABEL_MAX); try done.
  destruct (Nat.leb_spec (length ctx) HKDF_HASH_MAX); [|done].
  destruct (Z.leb_spec (Z.of_nat out_len) 0xffff); [|done]. cbn [andb].
  rewrite (proj2 (Nat.leb_le hash_len _)) by lia.
  destruct (Nat.ltb_spec 0 out_len), (Nat.leb_spec out_len (255 * hash_len)); try done. cbn [andb].
  destruct Hno. lia.
Qed.

Lemma expand_label_shape hash_len secret label ctx out_len : hash_ok hash_len ->
  length (expand_label_spec hash_len secret label ctx out_len) = out_len /\
  bytes_ok (expand_label_spec hash_len secret label ctx out_len).
Proof. intros. by apply expand_spec_shape. Qed.

(** The encoding is prefix-free in its fields: it determines them. *)
Lemma hkdf_label_inj n1 n2 l1 l2 c1 c2 :
  Z.of_nat n1 <= 0xffff -> Z.of_nat n2 <= 0xffff ->
  hkdf_label n1 l1 c1 = hkdf_label n2 l2 c2 -> n1 = n2 /\ l1 = l2 /\ c1 = c2.
Proof.
  intros H1 H2 E. unfold hkdf_label in E.
  apply app_inj_1 in E as [En E]; [|by rewrite !length_be_bytes].
  apply (f_equal be_val) in En. rewrite !be_val_bytes, !Z.mod_small in En by lia.
  injection E as El E. apply app_inj_1 in E as [-> E]; [|lia]. injection E as _ ->.
  split; [lia|done].
Qed.
End BuildLemmas.

#[export] Instance default_build : HkdfBuild :=
  {| CH_HASH_SHA384 := false; HKDF_LABEL_MAX := 12; label_max_range := ltac:(lia) |}.
(** A build with the AES-256 suite and the exporter. *)
Definition sha384_build : HkdfBuild :=
  {| CH_HASH_SHA384 := true; HKDF_LABEL_MAX := 24; label_max_range := ltac:(lia) |}.

(** ** Properties *)

(** Equivalence: in every build and for each hash it holds, [hmac] is RFC
    2104's HMAC over that hash, for keys shorter and longer than a block; for
    any other hash length its assertion fails. *)
Theorem hmac_is_rfc2104 (build : HkdfBuild) (hash_len : nat) (key msg : list Z)
    (Hkey : size_ok key) (Hmsg : size_ok msg) :
  hmac hash_len key msg
  = if decide (hash_ok hash_len) then
      Some (if (hash_len =? SHA384_LEN)%nat then hmac_spec sha384_spec SHA512_BLOCK key msg
            else hmac_spec sha256_spec SHA256_BLOCK key msg)
    else None.
Proof. destruct (decide _); [by apply hmac_correct|by apply hmac_assert]. Qed.

Lemma hmac_is_rfc2104_witness :
  hmac (build := sha384_build) 48 [1] [2] = Some (hmac_spec sha384_spec 128 [1] [2]) /\
  hmac (build := default_build) 48 [1] [2] = None.
Proof.
  split; [exact (hmac_is_rfc2104 sha384_build 48 [1] [2] eq_refl eq_refl)
         |exact (hmac_is_rfc2104 default_build 48 [1] [2] eq_refl eq_refl)].
Defined.

(** Equivalence: the expansion loop ends and gives RFC 5869's HKDF-Expand,
    the first [out_len] bytes of T(1) | T(2) | ..., the one-byte counter never
    wrapping, for every output length up to 255 hash lengths. *)
Theorem hkdf_expand_is_rfc5869 (build : HkdfBuild) (hash_len : nat) (prk info : list Z) (out_len : nat)
    (Hh : hash_ok hash_len) (Ho : (0 < out_len <= 255 * hash_len)%nat)
    (Hi : (length info <= HKDF_INFO_MAX)%nat) :
  exists okm, hkdf_expand hash_len prk info out_len = Some okm /\ length okm = out_len /\
    okm = take out_len (expand_blocks (hmac_of hash_len (take hash_len prk)) info [] 1
                          ((out_len + hash_len - 1) / hash_len)).
Proof.
  rewrite hkdf_expand_correct by done. eexists. split; [reflexivity|].
  split; [by apply expand_spec_shape|reflexivity].
Qed.

Lemma hkdf_expand_is_rfc5869_witness :
  exists okm, hkdf_expand 32 (replicate 32 1) [7] 70 = Some okm /\ length okm = 70%nat /\
    okm = take 70 (expand_blocks (hmac_of 32 (replicate 32 1)) [7] [] 1 3).
Proof.
  refine (hkdf_expand_is_rfc5869 default_build 32 (replicate 32 1) [7] 70 _ _ _);
    [by left|lia|cbn; lia].
Defined.

(** Functional: [hkdf_expand_label] expands the secret under RFC 9846's
    HkdfLabel encoding of the length, "tls13 " + label and context when its
    arguments are in range, and fails an assertion otherwise; two calls under
    one secret expand the same info only if length, label and context agree. *)
Theorem hkdf_expand_label_encodes (build : HkdfBuild) (hash_len : nat) (secret label ctx : list Z)
    (out_len : nat) (Hh : hash_ok hash_len) :
  hkdf_expand_label hash_len secret label ctx out_len
  = (if decide (label_args_ok hash_len label ctx out_len) then
       Some (expand_spec (hmac_of hash_len (take hash_len secret)) hash_len (hkdf_label out_len label ctx) out_len)
     else None) /\
  (forall label' ctx' out_len',
     label_args_ok hash_len label ctx out_len -> label_args_ok hash_len label' ctx' out_len' ->
     hkdf_label out_len label ctx = hkdf_label out_len' label' ctx' ->
     out_len = out_len' /\ label = label' /\ ctx = ctx').
Proof.
  split.
  - destruct (decide _); [by apply hkdf_expand_label_correct|by apply hkdf_expand_label_assert].
  - intros label' ctx' out_len' (_ & _ & H1) (_ & _ & H2) E.
    destruct (hash_ok_pos _ Hh) as [_ H48]. apply hkdf_label_inj; [lia|lia|done].
Qed.

Lemma hkdf_expand_label_encodes_witness :
  hkdf_expand_label 32 (replicate 32 1) (str "thirteen char") [] 32 = None.
Proof.
  exact (proj1 (hkdf_expand_label_encodes default_build 32 (replicate 32 1) (str "thirteen char") [] 32
    (or_introl eq_refl))).
Defined.
End Hkdf.
