(* ===== verification/Keysched.v ===== *)
(** * The TLS 1.3 key schedule: src/src/keysched.c, keysched.h

    Each function of the file, over the HKDF of [Hkdf].  They are shown to be
    the secrets of RFC 9846 section 7.1's diagram, from the PSK, the shared
    secret and the transcript hashes, with every assertion below them held. *)

From S2P Require Import Prelude Sha256 Sha512 Hkdf.
Import Sha256 Sha512 Hkdf.
Local Open Scope Z_scope.

Module Keysched.

Definition empty_hash_sha256 : list Z :=
  [0xe3; 0xb0; 0xc4; 0x42; 0x98; 0xfc; 0x1c; 0x14; 0x9a; 0xfb; 0xf4; 0xc8; 0x99; 0x6f; 0xb9; 0x24;
   0x27; 0xae; 0x41; 0xe4; 0x64; 0x9b; 0x93; 0x4c; 0xa4; 0x95; 0x99; 0x1b; 0x78; 0x52; 0xb8; 0x55].
Definition empty_hash_sha384 : list Z :=
  [0x38; 0xb0; 0x60; 0xa7; 0x51; 0xac; 0x96; 0x38; 0x4c; 0xd9; 0x32; 0x7e; 0xb1; 0xb1; 0xe3; 0x6a;
   0x21; 0xfd; 0xb7; 0x11; 0x14; 0xbe; 0x07; 0x43; 0x4c; 0x0c; 0xc7; 0xbf; 0x63; 0xf6; 0xe1; 0xda;
   0x27; 0x4e; 0xde; 0xbf; 0xe7; 0x6f; 0x65; 0xfb; 0xd5; 0x1a; 0xd2; 0xf1; 0x48; 0x98; 0xb9; 0x5b].

Section Build.
Context {build : HkdfBuild}.

Definition empty_hash (hash_len : nat) : list Z :=
  if CH_HASH_SHA384 && (hash_len =? SHA384_LEN)%nat then empty_hash_sha384 else empty_hash_sha256.

Definition zeros : list Z := replicate HKDF_HASH_MAX 0.

(** The early secret and the binder key. *)
Definition ks_early (hash_len : nat) (psk : list Z) (resumption : bool) : option (list Z * list Z) :=
  early ← hkdf_extract hash_len (Some (take hash_len zeros)) psk;
  binder_key ← hkdf_derive_secret hash_len early
    (if resumption then str "res binder" else str "ext binder") (empty_hash hash_len);
  Some (early, binder_key).

Definition ks_verify_data (hash_len : nat) (key transcript : list Z) : option (list Z) :=
  finished_key ← hkdf_expand_label hash_len key (str "finished") [] hash_len;
  hmac hash_len (take hash_len finished_key) (take hash_len transcript).

(** The handshake secret and the two handshake traffic secrets. *)
Definition ks_handshake (hash_len : nat) (early ecdhe transcript : list Z)
    : option (list Z * list Z * list Z) :=
  derived ← hkdf_derive_secret hash_len early (str "derived") (empty_hash hash_len);
  handshake_secret ← hkdf_extract hash_len (Some (take hash_len derived)) ecdhe;
  c_hs ← hkdf_derive_secret hash_len handshake_secret (str "c hs traffic") transcript;
  s_hs ← hkdf_derive_secret hash_len handshake_secret (str "s hs traffic") transcript;
  Some (handshake_secret, c_hs, s_hs).

(** The master secret and the two application traffic secrets. *)
Definition ks_master (hash_len : nat) (handshake_secret transcript : list Z)
    : option (list Z * list Z * list Z) :=
  derived ← hkdf_derive_secret hash_len handshake_secret (str "derived") (empty_hash hash_len);
  master ← hkdf_extract hash_len (Some (take hash_len derived)) (take hash_len zeros);
  c_ap ← hkdf_derive_secret hash_len master (str "c ap traffic") transcript;
  s_ap ← hkdf_derive_secret hash_len master (str "s ap traffic") transcript;
  Some (master, c_ap, s_ap).

Definition ks_res_master (hash_len : nat) (master transcript : list Z) : option (list Z) :=
  hkdf_derive_secret hash_len master (str "res master") transcript.

Definition ks_res_psk (hash_len : nat) (res_master nonce : list Z) : option (list Z) :=
  hkdf_expand_label hash_len res_master (str "resumption") nonce hash_len.

Definition ks_exp_master (hash_len : nat) (master transcript : list Z) : option (list Z) :=
  hkdf_derive_secret hash_len master (str "exp master") transcript.

Definition hash_context (hash_len : nat) (context : list Z) : list Z :=
  if CH_HASH_SHA384 && (hash_len =? SHA384_LEN)%nat then sha384_of context else sha256_of context.

Definition ks_exporter (hash_len : nat) (exp_master label context : list Z) (out_len : nat) : option (list Z) :=
  derived ← hkdf_derive_secret hash_len exp_master label (empty_hash hash_len);
  let context_hash :=
    if negb (length context =? 0)%nat then hash_context hash_len context else empty_hash hash_len in
  hkdf_expand_label hash_len derived (str "exporter") (take hash_len context_hash) out_len.

(** ** Reference: RFC 9846 section 7.1 *)

Definition Hash (hash_len : nat) (m : list Z) : list Z :=
  if (hash_len =? SHA384_LEN)%nat then sha384_spec m else sha256_spec m.
Definition Extract (hash_len : nat) (salt ikm : list Z) : list Z := hmac_of hash_len salt ikm.
Definition Expand_Label := expand_label_spec.
(** Derive-Secret at a transcript hash. *)
Definition Derive_Secret (hash_len : nat) (secret : list Z) (label : string) (hash : list Z) : list Z :=
  Expand_Label hash_len secret (str label) hash hash_len.

Definition zero_string (hash_len : nat) : list Z := replicate hash_len 0.
Definition Early (hash_len : nat) (psk : list Z) : list Z := Extract hash_len (zero_string hash_len) psk.
Definition Handshake (hash_len : nat) (psk ecdhe : list Z) : list Z :=
  Extract hash_len (Derive_Secret hash_len (Early hash_len psk) "derived" (Hash hash_len [])) ecdhe.
Definition Master (hash_len : nat) (psk ecdhe : list Z) : list Z :=
  Extract hash_len (Derive_Secret hash_len (Handshake hash_len psk ecdhe) "derived" (Hash hash_len []))
    (zero_string hash_len).

(** ** Lemmas *)

Lemma empty_tables : empty_hash_sha256 = sha256_of [] /\ empty_hash_sha384 = sha384_of [].
Proof. split; vm_compute; reflexivity. Qed.

#[local] Opaque sha256_of sha384_of sha256_spec sha384_spec empty_hash_sha256 empty_hash_sha384.

(** The table entries are the hash of the empty string. *)
Lemma empty_hash_correct hash_len : hash_ok hash_len -> empty_hash hash_len = Hash hash_len [].
Proof.
  destruct empty_tables as [E1 E2]. unfold empty_hash, Hash. intros [-> | [-> ->]].
  - change (SHA256_LEN =? SHA384_LEN)%nat with false. rewrite andb_false_r, E1. apply sha256_of_spec.
  - change (SHA384_LEN =? SHA384_LEN)%nat with true. cbn [andb]. rewrite E2. by apply sha384_of_spec.
Qed.

Lemma hash_context_correct hash_len m : hash_ok hash_len -> size_ok m ->
  hash_context hash_len m = Hash hash_len m.
Proof.
  unfold hash_context, Hash, size_ok. intros [-> | [-> ->]] Hm.
  - change (SHA256_LEN =? SHA384_LEN)%nat with false. rewrite andb_false_r. apply sha256_of_spec.
  - change (SHA384_LEN =? SHA384_LEN)%nat with true. cbn [andb]. apply sha384_of_spec. lia.
Qed.

Lemma Hash_length hash_len m : hash_ok hash_len -> length (Hash hash_len m) = hash_len.
Proof.
  unfold Hash. intros [-> | [_ ->]].
  - change (SHA256_LEN =? SHA384_LEN)%nat with false. apply sha256_spec_shape.
  - change (SHA384_LEN =? SHA384_LEN)%nat with true. apply sha384_spec_shape.
Qed.

Lemma Extract_length hash_len salt ikm : hash_ok hash_len -> length (Extract hash_len salt ikm) = hash_len.
Proof. intros. by apply hmac_of_shape. Qed.

Lemma Derive_length hash_len secret label hash : hash_ok hash_len ->
  length (Derive_Secret hash_len secret label hash) = hash_len.
Proof. intros. by apply expand_label_shape. Qed.

(** A label of the key schedule: non-empty and at most twelve bytes. *)
Definition ks_label (label : string) : Prop := (0 < length (str label) <= 12)%nat.

Lemma label_args hash_len label ctx : hash_ok hash_len -> ks_label label -> (length ctx <= hash_len)%nat ->
  label_args_ok hash_len (str label) ctx hash_len.
Proof.
  intros Hh Hl Hc. destruct (hash_ok_pos _ Hh) as [Hp _]. pose proof label_max_range.
  unfold label_args_ok, ks_label in *. lia.
Qed.

Lemma derive_secret_correct hash_len secret label hash :
  hash_ok hash_len -> ks_label label -> length hash = hash_len ->
  hkdf_derive_secret hash_len secret (str label) hash = Some (Derive_Secret hash_len secret label hash).
Proof.
  intros Hh Hl Hlen. unfold hkdf_derive_secret. rewrite take_ge by lia.
  apply hkdf_expand_label_correct; [done|]. apply label_args; [done..|lia].
Qed.

Lemma size_short (l : list Z) : (length l <= 48)%nat -> size_ok l.
Proof. unfold size_ok. lia. Qed.

Lemma extract_correct hash_len salt ikm : hash_ok hash_len -> length salt = hash_len -> size_ok ikm ->
  hkdf_extract hash_len (Some salt) ikm = Some (Extract hash_len salt ikm).
Proof.
  intros Hh Hs Hi. apply hmac_correct; [done| |done]. apply size_short.
  destruct (hash_ok_pos _ Hh). lia.
Qed.

Lemma take_ks_zeros hash_len : hash_ok hash_len -> take hash_len zeros = zero_string hash_len.
Proof. intros Hh. destruct (hash_ok_pos _ Hh). unfold zeros, zero_string. rewrite take_replicate. f_equal. lia. Qed.

Ltac ks := first [done | by apply Derive_length | by apply Extract_length | by apply Hash_length
  | apply length_replicate | unfold ks_label; cbn; lia | apply size_short; unfold zero_string; rewrite ?length_replicate; lia
  | lia].

Lemma ks_early_correct hash_len psk resumption : hash_ok hash_len -> size_ok psk ->
  ks_early hash_len psk resumption
  = Some (Early hash_len psk,
      Derive_Secret hash_len (Early hash_len psk) (if resumption then "res binder" else "ext binder")
        (Hash hash_len [])).
Proof.
  intros Hh Hp. unfold ks_early. rewrite take_ks_zeros, extract_correct, empty_hash_correct by ks.
  cbn [mbind option_bind].
  destruct resumption; rewrite derive_secret_correct by ks; reflexivity.
Qed.

Lemma ks_handshake_correct hash_len psk ecdhe th : hash_ok hash_len -> size_ok ecdhe -> length th = hash_len ->
  ks_handshake hash_len (Early hash_len psk) ecdhe th
  = Some (Handshake hash_len psk ecdhe,
      Derive_Secret hash_len (Handshake hash_len psk ecdhe) "c hs traffic" th,
      Derive_Secret hash_len (Handshake hash_len psk ecdhe) "s hs traffic" th).
Proof.
  intros Hh He Ht. unfold ks_handshake. rewrite empty_hash_correct, derive_secret_correct by ks.
  cbn [mbind option_bind]. rewrite take_ge by (rewrite Derive_length by ks; lia).
  rewrite extract_correct by ks. cbn [mbind option_bind].
  rewrite derive_secret_correct by ks. cbn [mbind option_bind].
  rewrite derive_secret_correct by ks. reflexivity.
Qed.

Lemma ks_master_correct hash_len psk ecdhe th : hash_ok hash_len -> length th = hash_len ->
  ks_master hash_len (Handshake hash_len psk ecdhe) th
  = Some (Master hash_len psk ecdhe,
      Derive_Secret hash_len (Master hash_len psk ecdhe) "c ap traffic" th,
      Derive_Secret hash_len (Master hash_len psk ecdhe) "s ap traffic" th).
Proof.
  intros Hh Ht. unfold ks_master. destruct (hash_ok_pos _ Hh) as [_ H48].
  rewrite empty_hash_correct, derive_secret_correct by ks.
  cbn [mbind option_bind]. rewrite take_ge by (rewrite Derive_length by ks; lia).
  rewrite take_ks_zeros, extract_correct by ks. cbn [mbind option_bind].
  rewrite derive_secret_correct by ks. cbn [mbind option_bind].
  rewrite derive_secret_correct by ks. reflexivity.
Qed.

Lemma ks_verify_data_correct hash_len key th : hash_ok hash_len -> length th = hash_len ->
  ks_verify_data hash_len key th
  = Some (hmac_of hash_len (Expand_Label hash_len key (str "finished") [] hash_len) th).
Proof.
  intros Hh Ht. unfold ks_verify_data. destruct (hash_ok_pos _ Hh) as [_ H48].
  rewrite hkdf_expand_label_correct; [|done|].
  2:{ apply (label_args hash_len "finished"); [done|unfold ks_label; cbn; lia|cbn; lia]. }
  cbn [mbind option_bind]. pose proof (proj1 (expand_label_shape hash_len key (str "finished") [] hash_len Hh)).
  rewrite (take_ge th), take_ge by lia. apply hmac_correct; [done| |]; apply size_short; unfold Expand_Label; lia.
Qed.
End Build.

(** ** Properties *)

(** C21. Equivalence: running the schedule, [ks_early] then [ks_handshake] then
    [ks_master] then [ks_res_master], every assertion holds and each output is
    the secret RFC 9846 section 7.1's diagram names, from the PSK (or zeros),
    the (EC)DHE secret and the transcript hashes; in every build, for each of
    its hashes. *)
Theorem key_schedule_is_rfc9846 (build : HkdfBuild) (hash_len : nat) (psk ecdhe th_sh th_sf th_cf : list Z)
    (resumption : bool) (Hh : hash_ok hash_len) (Hpsk : size_ok psk) (Hecdhe : size_ok ecdhe)
    (Hsh : length th_sh = hash_len) (Hsf : length th_sf = hash_len) (Hcf : length th_cf = hash_len) :
  (r1 ← ks_early hash_len psk resumption;
   r2 ← ks_handshake hash_len r1.1 ecdhe th_sh;
   r3 ← ks_master hash_len r2.1.1 th_sf;
   res ← ks_res_master hash_len r3.1.1 th_cf;
   Some (r1.2, r2.1.2, r2.2, r3.1.2, r3.2, res))
  = let early := Early hash_len psk in
    let hs := Handshake hash_len psk ecdhe in
    let master := Master hash_len psk ecdhe in
    Some (Derive_Secret hash_len early (if resumption then "res binder" else "ext binder") (Hash hash_len []),
          Derive_Secret hash_len hs "c hs traffic" th_sh, Derive_Secret hash_len hs "s hs traffic" th_sh,
          Derive_Secret hash_len master "c ap traffic" th_sf, Derive_Secret hash_len master "s ap traffic" th_sf,
          Derive_Secret hash_len master "res master" th_cf).
Proof.
  rewrite ks_early_correct by done. cbn [mbind option_bind fst snd].
  rewrite ks_handshake_correct by done. cbn [mbind option_bind fst snd].
  rewrite ks_master_correct by done. cbn [mbind option_bind fst snd]. unfold ks_res_master.
  rewrite derive_secret_correct by (done || (unfold ks_label; cbn; lia)). reflexivity.
Qed.

Lemma key_schedule_is_rfc9846_witness :
  exists b c s ca sa r,
  (r1 ← ks_early (build := sha384_build) 48 (replicate 48 0) true;
   r2 ← ks_handshake (build := sha384_build) 48 r1.1 (replicate 32 5) (replicate 48 1);
   r3 ← ks_master (build := sha384_build) 48 r2.1.1 (replicate 48 2);
   res ← ks_res_master (build := sha384_build) 48 r3.1.1 (replicate 48 3);
   Some (r1.2, r2.1.2, r2.2, r3.1.2, r3.2, res)) = Some (b, c, s, ca, sa, r).
Proof.
  do 6 eexists. exact (key_schedule_is_rfc9846 sha384_build 48 (replicate 48 0) (replicate 32 5)
    (replicate 48 1) (replicate 48 2) (replicate 48 3) true
    (or_intror (conj eq_refl eq_refl)) eq_refl eq_refl eq_refl eq_refl eq_refl).
Defined.

(** Equivalence: the Finished value is HMAC of the transcript hash under
    HKDF-Expand-Label(base key, "finished", "", Hash.length), and the exporter
    is HKDF-Expand-Label(Derive-Secret(secret, label, ""), "exporter",
    Hash(context), length), for an empty context too, where the code takes the
    hash of the empty string from its table. *)
Theorem finished_and_exporter_are_rfc9846 (build : HkdfBuild) (hash_len : nat)
    (key th exp_master label context : list Z) (out_len : nat)
    (Hh : hash_ok hash_len) (Hth : length th = hash_len) (Hctx : size_ok context)
    (Hlabel : (0 < length label <= HKDF_LABEL_MAX)%nat) (Hout : (0 < out_len <= 255 * hash_len)%nat) :
  ks_verify_data hash_len key th
  = Some (hmac_of hash_len (Expand_Label hash_len key (str "finished") [] hash_len) th) /\
  ks_exporter hash_len exp_master label context out_len
  = Some (Expand_Label hash_len (Expand_Label hash_len exp_master label (Hash hash_len []) hash_len)
            (str "exporter") (Hash hash_len context) out_len).
Proof.
  split; [by apply ks_verify_data_correct|]. unfold ks_exporter. destruct (hash_ok_pos _ Hh) as [Hp H48].
  pose proof (Hash_length hash_len) as HL. pose proof label_max_range.
  rewrite empty_hash_correct by done. unfold hkdf_derive_secret. rewrite (take_ge (Hash hash_len [])) by (rewrite HL by done; lia).
  rewrite hkdf_expand_label_correct; [|done|unfold label_args_ok; rewrite HL by done; lia].
  cbn [mbind option_bind].
  assert (E : (if negb (length context =? 0)%nat then hash_context hash_len context else Hash hash_len [])
    = Hash hash_len context).
  { destruct context; [done|]. cbn [length Nat.eqb negb]. by apply hash_context_correct. }
  rewrite E, take_ge by (rewrite HL by done; lia).
  apply hkdf_expand_label_correct; [done|]. unfold label_args_ok. rewrite HL by done. cbn [str length]. lia.
Qed.

Lemma finished_and_exporter_are_rfc9846_witness :
  exists k, ks_exporter (build := sha384_build) 32 (replicate 32 1) (str "EXPORTER-Channel-Binding") [] 32 = Some k.
Proof.
  eexists. refine (proj2 (finished_and_exporter_are_rfc9846 sha384_build 32 (replicate 32 1) (replicate 32 2)
    (replicate 32 1) (str "EXPORTER-Channel-Binding") [] 32 (or_introl eq_refl) eq_refl eq_refl _ _)); cbn; lia.
Defined.
End Keysched.
