(* ===== verification/Record.v ===== *)
(** * The record layer: src/src/record.c, record.h

    One direction of record protection over an AEAD, in a build with the
    ChaCha20-Poly1305 suite.  Everything is proved against the interface
    [AeadLaws].  The outer option is a failed [CH_ASSERT]; the inner one is the
    C return value, [None] for -1.  Buffers are values here: [rec_open] runs in
    place over its own header, which [Chacha20.chacha20_xor_overlap] covers. *)

From S2P Require Import Prelude Hkdf Aead.
Import Hkdf.
Local Open Scope Z_scope.
Local Open Scope word_scope.

Definition AEAD_KEY : nat := 32.
Definition AEAD_NONCE : nat := 12.
Definition AEAD_TAG : nat := 16.
Definition REC_HDR : nat := 5.
Definition REC_CCS : Z := 20.
Definition REC_ALERT : Z := 21.
Definition REC_HANDSHAKE : Z := 22.
Definition REC_APPDATA : Z := 23.
Definition REC_PROTECTED_BODY_MAX : nat := Z.to_nat 0x4001 + AEAD_TAG.
Definition REC_PLAIN_BODY_MAX : nat := Z.to_nat 0x4000.
Definition UINT64_MAX : Z := 2 ^ 64 - 1.

Definition rec_body_max (outer : Z) : nat :=
  if (outer =? REC_APPDATA) then REC_PROTECTED_BODY_MAX else REC_PLAIN_BODY_MAX.

Record rec_dir := RecDir { d_key : list Z; d_iv : list Z; d_seq : Z }.

Module Rec.

(** ** Keys *)

Definition rec_dir_init (secret : list Z) : option rec_dir :=
  key ← hkdf_expand_label 32 secret (str "key") [] AEAD_KEY;
  iv ← hkdf_expand_label 32 secret (str "iv") [] AEAD_NONCE;
  Some (RecDir key iv 0).

(** The next secret and the rekeyed direction. *)
Definition rec_dir_update (secret : list Z) : option (list Z * rec_dir) :=
  next ← hkdf_expand_label 32 secret (str "traffic upd") [] 32;
  d ← rec_dir_init next;
  Some (next, d).

(** ** Sealing and opening *)

(** [nonce[AEAD_NONCE - 1 - i] ^= (uint8_t)(d->seq >> (8 * i))] for [i < 8]. *)
Definition nonce_of (d : rec_dir) : list Z :=
  foldl (fun nonce i =>
           let j := (AEAD_NONCE - 1 - i)%nat in
           <[j := (nonce !!! j) .^ u8 (d_seq d >> (8 * Z.of_nat i))]> nonce)
        (take AEAD_NONCE (d_iv d)) (seq 0 8).

Section Ops.
Context {aead : AeadOps}.

(** In place: the sealed body, ciphertext then tag. *)
Definition seal_body (d : rec_dir) (nonce hdr body : list Z) : option (list Z) :=
  r ← seal (d_key d) nonce hdr body;
  Some (r.1 ++ r.2).

Definition open_body (d : rec_dir) (nonce record : list Z) (len : nat) : option (option (list Z)) :=
  open (d_key d) nonce (take REC_HDR record) (take len (drop REC_HDR record))
       (take AEAD_TAG (drop (REC_HDR + len) record)).

Definition rec_seal (d : rec_dir) (type : Z) (pt : list Z) (cap : nat) : option (rec_dir * option (list Z)) :=
  let n := length pt in
  if (d_seq d =? UINT64_MAX) then Some (d, None)
  else
    let body := (n + 1 + AEAD_TAG)%nat in
    if (0x4000 + 256 <? Z.of_nat body) || (cap <? REC_HDR + body)%nat then Some (d, None)
    else
      let hdr := [REC_APPDATA; 3; 3; u8 (Z.of_nat body >> 8); u8 (Z.of_nat body)] in
      let inner := pt ++ [type] in
      let nonce := nonce_of d in
      sealed ← seal_body d nonce hdr inner;
      Some (RecDir (d_key d) (d_iv d) (u64 (d_seq d + 1)), Some (hdr ++ sealed)).

(** [while (inner_len > 0 && pt[inner_len - 1] == 0) inner_len--;] *)
Fixpoint strip_zeros (pt : list Z) (inner_len : nat) : nat :=
  match inner_len with
  | O => O
  | S k => if (pt !!! k =? 0) then strip_zeros pt k else inner_len
  end.

(** The content type and the content. *)
Definition rec_open (d : rec_dir) (record : list Z) (cap : nat) : option (rec_dir * option (Z * list Z)) :=
  let n := length record in
  if (d_seq d =? UINT64_MAX) then Some (d, None)
  else if (n <? REC_HDR + 1 + AEAD_TAG)%nat then Some (d, None)
  else
    let body := ((record !!! 3%nat) <<64 8) .| (record !!! 4%nat) in
    if negb (record !!! 0%nat =? REC_APPDATA) || negb (body =? Z.of_nat (n - REC_HDR)) || (0x4000 + 256 <? body)
    then Some (d, None)
    else
      let inner_len := (Z.to_nat body - AEAD_TAG)%nat in
      if (0x4001 <? Z.of_nat inner_len) || (cap <? inner_len)%nat then Some (d, None)
      else
        let nonce := nonce_of d in
        r ← open_body d nonce record inner_len;
        match r with
        | None => Some (d, None)
        | Some pt =>
            let d := RecDir (d_key d) (d_iv d) (u64 (d_seq d + 1)) in
            let inner_len := strip_zeros pt inner_len in
            if (inner_len =? 0)%nat then Some (d, None)
            else Some (d, Some (pt !!! (inner_len - 1)%nat, take (inner_len - 1) pt))
        end.
End Ops.

(** ** Reference *)

(** A direction as the key schedule makes it. *)
Definition dir_ok (d : rec_dir) : Prop :=
  length (d_key d) = AEAD_KEY /\ bytes_ok (d_key d) /\
  length (d_iv d) = AEAD_NONCE /\ bytes_ok (d_iv d) /\ u64_ok (d_seq d).

(** RFC 9846 section 5.3: the sequence number, in network order and padded on
    the left, XORed with the IV. *)
Definition nonce_spec (iv : list Z) (seq : Z) : list Z := xor_bytes iv (be_bytes 12 seq).

Definition header_of (body : nat) : list Z := [REC_APPDATA; 3; 3] ++ be_bytes 2 (Z.of_nat body).
Definition next_seq (d : rec_dir) : rec_dir := RecDir (d_key d) (d_iv d) (d_seq d + 1).

(** ** Lemmas: nonces and keys *)

Lemma nonce_of_spec d : length (d_iv d) = AEAD_NONCE -> u64_ok (d_seq d) ->
  nonce_of d = nonce_spec (d_iv d) (d_seq d).
Proof.
  intros Hl Hs. unfold nonce_of, nonce_spec. rewrite take_ge by lia.
  destruct d as [key iv s]. cbn [d_iv d_seq] in *. unfold AEAD_NONCE in *.
  do 12 (destruct iv as [|? iv]; [discriminate Hl|]). destruct iv; [|discriminate Hl].
  rewrite (be_bytes_split 4 8). rewrite Z.div_small by (change (8 * Z.of_nat 8) with 64; exact Hs).
  cbn. rewrite !Z.shiftr_div_pow2 by lia. rewrite !Z.lxor_0_r, !Z.div_div by lia. by rewrite Z.div_1_r.
Qed.

Lemma nonce_spec_ok iv s : bytes_ok iv -> length iv = 12%nat ->
  bytes_ok (nonce_spec iv s) /\ length (nonce_spec iv s) = 12%nat.
Proof.
  intros Hi Hl. unfold nonce_spec. split; [apply xor_bytes_ok; [done|apply be_bytes_ok]|].
  rewrite length_xor_bytes, Hl; rewrite ?length_be_bytes; lia.
Qed.

(** Two records of one direction never share a nonce. *)
Lemma nonce_spec_inj iv s1 s2 : length iv = 12%nat -> 0 <= s1 < 2 ^ 64 -> 0 <= s2 < 2 ^ 64 ->
  nonce_spec iv s1 = nonce_spec iv s2 -> s1 = s2.
Proof.
  intros Hl H1 H2 E. unfold nonce_spec in E. apply (f_equal (xor_bytes iv)) in E.
  assert (C : forall b, length b = 12%nat -> xor_bytes iv (xor_bytes iv b) = b).
  { intros b Hb. clear -Hl Hb. rewrite <- Hl in Hb. clear Hl. revert b Hb. induction iv as [|x iv IH]; intros [|y b] Hb; try done.
    cbn. f_equal; [|apply IH; cbn in Hb; lia]. rewrite <- Z.lxor_assoc, Z.lxor_nilpotent. apply Z.lxor_0_l. }
  rewrite !C in E by apply length_be_bytes. apply (f_equal be_val) in E.
  rewrite !be_val_bytes, !Z.mod_small in E; lia.
Qed.

(** The label calls of a direction are in range. *)
Lemma expand_ok secret (label : string) n : (0 < length (str label) <= 12)%nat -> (0 < n <= 32)%nat ->
  hkdf_expand_label 32 secret (str label) [] n = Some (expand_label_spec 32 secret (str label) [] n).
Proof.
  intros Hl Hn. apply hkdf_expand_label_correct; [by left|]. unfold label_args_ok.
  change HKDF_LABEL_MAX with 12%nat. cbn [length]. lia.
Qed.

Lemma rec_dir_init_correct secret :
  exists d, rec_dir_init secret = Some d /\ dir_ok d /\ d_seq d = 0 /\
    d_key d = expand_label_spec 32 secret (str "key") [] 32 /\
    d_iv d = expand_label_spec 32 secret (str "iv") [] 12.
Proof.
  unfold rec_dir_init. rewrite !expand_ok by (cbn; unfold AEAD_KEY, AEAD_NONCE; lia). cbn [mbind option_bind].
  eexists. split; [reflexivity|]. unfold dir_ok. cbn [d_key d_iv d_seq].
  destruct (expand_label_shape 32 secret (str "key") [] AEAD_KEY (or_introl eq_refl)).
  destruct (expand_label_shape 32 secret (str "iv") [] AEAD_NONCE (or_introl eq_refl)).
  done.
Qed.

Lemma rec_dir_update_eq secret :
  rec_dir_update secret
  = (d ← rec_dir_init (expand_label_spec 32 secret (str "traffic upd") [] 32);
     Some (expand_label_spec 32 secret (str "traffic upd") [] 32, d)).
Proof. unfold rec_dir_update. rewrite (bind_known _ _ _ (expand_ok secret "traffic upd" 32 ltac:(cbn; lia) ltac:(lia))). done. Qed.

Lemma strip_zeros_spec pt n : (n <= length pt)%nat ->
  let k := strip_zeros pt n in
  (k <= n)%nat /\ take n pt = take k pt ++ replicate (n - k) 0 /\ (k = 0%nat \/ pt !!! (k - 1)%nat <> 0).
Proof.
  induction n as [|n IH]; intros Hn; cbn [strip_zeros].
  - rewrite take_0. cbn. auto.
  - destruct (Z.eqb_spec (pt !!! n) 0) as [E|E].
    + destruct IH as (Hk & Ht & Hz); [lia|]. cbn zeta in *. set (k := strip_zeros pt n) in *. split_and!; [lia| |done].
      destruct (lookup_lt_is_Some_2 pt n) as [x Hx]; [lia|].
      rewrite (take_S_r _ _ _ Hx), Ht. rewrite (list_lookup_total_correct _ _ _ Hx) in E. subst x.
      replace (S n - k)%nat with (n - k + 1)%nat by lia. by rewrite replicate_add, <- app_assoc.
    + rewrite Nat.sub_diag. cbn [replicate]. rewrite app_nil_r. split_and!; [lia|done|right].
      by replace (S n - 1)%nat with n by lia.
Qed.

(** The inner plaintext is content, a nonzero type and zero padding. *)
Lemma strip_zeros_split pt : let k := strip_zeros pt (length pt) in k <> 0%nat ->
  exists z, pt = take (k - 1) pt ++ [pt !!! (k - 1)%nat] ++ replicate z 0 /\ pt !!! (k - 1)%nat <> 0.
Proof.
  intros k Hk. destruct (strip_zeros_spec pt (length pt) ltac:(lia)) as (Hle & Ht & Hz). fold k in Hle, Ht, Hz.
  rewrite take_ge in Ht by lia. exists (length pt - k)%nat. destruct Hz as [Hz|Hz]; [done|]. split; [|done].
  destruct (lookup_lt_is_Some_2 pt (k - 1)) as [x Hx]; [lia|].
  rewrite (list_lookup_total_correct _ _ _ Hx), app_assoc, <- take_S_r by done.
  by replace (S (k - 1)) with k by lia.
Qed.

Lemma strip_zeros_inner c ty z : ty <> 0 ->
  strip_zeros (c ++ [ty] ++ replicate z 0) (length (c ++ [ty] ++ replicate z 0)) = S (length c).
Proof.
  intros Hty. set (pt := c ++ [ty] ++ replicate z 0).
  assert (L : forall j, (j <= z)%nat -> strip_zeros pt (S (length c) + j) = S (length c)).
  { induction j as [|j IH]; intros Hj.
    - rewrite Nat.add_0_r. cbn [strip_zeros]. subst pt.
      rewrite lookup_total_app_r, Nat.sub_diag by lia. cbn. destruct (Z.eqb_spec ty 0); done.
    - rewrite Nat.add_succ_r. cbn [strip_zeros].
      assert (E : pt !!! (S (length c) + j)%nat = 0); [|rewrite E; apply IH; lia].
      subst pt. rewrite app_assoc, lookup_total_app_r by (rewrite length_app; cbn; lia).
      apply lookup_total_replicate_2. rewrite length_app. cbn. lia. }
  replace (length pt) with (S (length c) + z)%nat; [apply L; lia|].
  subst pt. rewrite !length_app, length_replicate. cbn. lia.
Qed.

(** ** Lemmas: sealing and opening over any AEAD *)

Section Laws.
Context {aead : AeadOps} {laws : AeadLaws aead}.

Lemma dir_nonce d : dir_ok d -> nonce_of d = nonce_spec (d_iv d) (d_seq d) /\
  bytes_ok (nonce_spec (d_iv d) (d_seq d)).
Proof.
  intros (_ & _ & Hl & Hb & Hs). split; [by apply nonce_of_spec|]. by apply nonce_spec_ok.
Qed.

Lemma header_bytes body :
  [REC_APPDATA; 3; 3; u8 (Z.of_nat body >> 8); u8 (Z.of_nat body)] = header_of body.
Proof. unfold header_of, be_bytes. rewrite Z.shiftr_div_pow2 by lia. reflexivity. Qed.

Lemma header_ok body : bytes_ok (header_of body) /\ length (header_of body) = REC_HDR.
Proof.
  unfold header_of. split; [|by rewrite length_app, length_be_bytes].
  apply Forall_app_2; [by repeat constructor|apply be_bytes_ok].
Qed.

(** A record [rec_seal] accepts to write. *)
Definition seal_fits (d : rec_dir) (n cap : nat) : Prop :=
  d_seq d < UINT64_MAX /\ Z.of_nat (n + 1 + AEAD_TAG) <= 0x4000 + 256 /\
  (REC_HDR + (n + 1 + AEAD_TAG) <= cap)%nat.

#[export] Instance seal_fits_dec d n cap : Decision (seal_fits d n cap).
Proof. unfold seal_fits. apply _. Defined.

Lemma rec_seal_correct d type pt cap :
  dir_ok d -> byte_ok type -> bytes_ok pt -> seal_fits d (length pt) cap ->
  exists ct tag,
    seal (d_key d) (nonce_spec (d_iv d) (d_seq d)) (header_of (length pt + 17)) (pt ++ [type]) = Some (ct, tag) /\
    length ct = (length pt + 1)%nat /\ bytes_ok ct /\ length tag = AEAD_TAG /\ bytes_ok tag /\
    rec_seal d type pt cap = Some (next_seq d, Some (header_of (length pt + 17) ++ ct ++ tag)).
Proof.
  intros Hd Hty Hpt (Hseq & Hbody & Hcap). destruct (dir_nonce d Hd) as [Hn Hnb].
  destruct Hd as (Hkl & Hkb & Hil & Hib & Hs). destruct (header_ok (length pt + 17)) as [Hhb _].
  assert (Hin : bytes_ok (pt ++ [type])) by (apply Forall_app_2; [done|by apply Forall_singleton]).
  destruct (seal_total (d_key d) _ _ _ Hkb Hkl Hnb Hhb Hin) as (ct & tag & Es & Hcl & Hcb & Htl & Htb).
  exists ct, tag. rewrite length_app in Hcl. split_and!; try done.
  unfold rec_seal. destruct (Z.eqb_spec (d_seq d) UINT64_MAX); [lia|].
  destruct (Z.ltb_spec (0x4000 + 256) (Z.of_nat (length pt + 1 + AEAD_TAG))); [lia|].
  destruct (Nat.ltb_spec cap (REC_HDR + (length pt + 1 + AEAD_TAG))); [lia|]. cbn [orb].
  rewrite header_bytes, Hn. unfold seal_body.
  replace (length pt + 1 + AEAD_TAG)%nat with (length pt + 17)%nat by (unfold AEAD_TAG; lia).
  rewrite Es. cbn [mbind option_bind fst snd]. unfold next_seq, UINT64_MAX, u64_ok in *.
  by rewrite u64_small by (unfold u64_ok; lia).
Qed.

Lemma rec_seal_refuses d type pt cap :
  u64_ok (d_seq d) -> ~ seal_fits d (length pt) cap -> rec_seal d type pt cap = Some (d, None).
Proof.
  intros Hs Hno. unfold rec_seal, seal_fits, UINT64_MAX, u64_ok in *.
  destruct (Z.eqb_spec (d_seq d) (2 ^ 64 - 1)); [done|].
  destruct (Z.ltb_spec (0x4000 + 256) (Z.of_nat (length pt + 1 + AEAD_TAG))); [done|].
  destruct (Nat.ltb_spec cap (REC_HDR + (length pt + 1 + AEAD_TAG))); [done|]. destruct Hno. lia.
Qed.

(** A record [rec_open] hands to the AEAD: framed as application data of its
    own length, within the limits. *)
Definition framed (record : list Z) (cap : nat) : Prop :=
  (REC_HDR + 1 + AEAD_TAG <= length record)%nat /\ record !!! 0%nat = REC_APPDATA /\
  be_val (take 2 (drop 3 record)) = Z.of_nat (length record - REC_HDR) /\
  Z.of_nat (length record - REC_HDR - AEAD_TAG) <= 0x4001 /\ (length record - REC_HDR - AEAD_TAG <= cap)%nat.

#[export] Instance framed_dec record cap : Decision (framed record cap).
Proof. unfold framed. apply _. Defined.

Definition rec_aad (record : list Z) : list Z := take REC_HDR record.
Definition rec_ct (record : list Z) : list Z := take (length record - REC_HDR - AEAD_TAG) (drop REC_HDR record).
Definition rec_tag (record : list Z) : list Z := drop (length record - AEAD_TAG) record.

Lemma record_length_field record : bytes_ok record -> (5 <= length record)%nat ->
  ((record !!! 3%nat) <<64 8) .| (record !!! 4%nat) = be_val (take 2 (drop 3 record)).
Proof.
  intros Hb Hl. pose proof (bytes_ok_total record 3 Hb) as H3. pose proof (bytes_ok_total record 4 Hb) as H4.
  do 5 (destruct record as [|? record]; [cbn in Hl; lia|]).
  cbn [lookup_total list_lookup_total] in *. cbn [take drop]. unfold be_val. cbn [foldl].
  unfold byte_ok in *. rewrite take_0. cbn [foldl].
  rewrite u64_small by (unfold u64_ok; rewrite Z.shiftl_mul_pow2; lia). rewrite lor_shiftl_add' by lia. lia.
Qed.

(** What [rec_open] does past the framing checks. *)
Lemma rec_open_framed d record cap : bytes_ok record -> u64_ok (d_seq d) ->
  d_seq d < UINT64_MAX -> framed record cap ->
  rec_open d record cap
  = (r ← open (d_key d) (nonce_of d) (rec_aad record) (rec_ct record) (rec_tag record);
     match r with
     | None => Some (d, None)
     | Some pt =>
         let k := strip_zeros pt (length record - REC_HDR - AEAD_TAG) in
         if (k =? 0)%nat then Some (next_seq d, None)
         else Some (next_seq d, Some (pt !!! (k - 1)%nat, take (k - 1) pt))
     end).
Proof.
  intros Hb Hs Hseq (Hl & H0 & Hbody & Hin & Hcap). unfold rec_open. rewrite H0, Z.eqb_refl.
  rewrite record_length_field, Hbody by (done || (unfold REC_HDR, AEAD_TAG in Hl; lia)).
  destruct (Z.eqb_spec (d_seq d) UINT64_MAX); [lia|].
  destruct (Nat.ltb_spec (length record) (REC_HDR + 1 + AEAD_TAG)); [lia|]. rewrite Z.eqb_refl, Nat2Z.id.
  unfold AEAD_TAG, REC_HDR in *.
  destruct (Z.ltb_spec (0x4000 + 256) (Z.of_nat (length record - 5))); [lia|].
  destruct (Z.ltb_spec 0x4001 (Z.of_nat (length record - 5 - 16))); [lia|].
  destruct (Nat.ltb_spec cap (length record - 5 - 16)); [lia|]. cbn [negb orb].
  unfold open_body, rec_aad, rec_ct, rec_tag, REC_HDR, AEAD_TAG.
  replace (5 + (length record - 5 - 16))%nat with (length record - 16)%nat by lia.
  rewrite (take_ge (drop (length record - 16) record)) by (rewrite length_drop; lia).
  unfold next_seq, UINT64_MAX, u64_ok in *. rewrite (u64_small (d_seq d + 1)) by (unfold u64_ok; lia). done.
Qed.

Lemma rec_open_unframed d record cap : bytes_ok record -> u64_ok (d_seq d) ->
  d_seq d = UINT64_MAX \/ ~ framed record cap -> rec_open d record cap = Some (d, None).
Proof.
  intros Hb Hs Hno. unfold rec_open. destruct (Z.eqb_spec (d_seq d) UINT64_MAX); [done|].
  destruct Hno as [Hno|Hno]; [done|].
  destruct (Nat.ltb_spec (length record) (REC_HDR + 1 + AEAD_TAG)) as [|Hl]; [done|].
  rewrite record_length_field by (done || (unfold REC_HDR, AEAD_TAG in Hl; lia)).
  destruct (Z.eqb_spec (record !!! 0%nat) REC_APPDATA); [|done].
  destruct (Z.eqb_spec (be_val (take 2 (drop 3 record))) (Z.of_nat (length record - REC_HDR))) as [E|]; [|done].
  rewrite E. cbn [negb orb]. destruct (Z.ltb_spec (0x4000 + 256) (Z.of_nat (length record - REC_HDR))); [done|].
  rewrite Nat2Z.id. destruct (Z.ltb_spec 0x4001 (Z.of_nat (length record - REC_HDR - AEAD_TAG))); [done|].
  destruct (Nat.ltb_spec cap (length record - REC_HDR - AEAD_TAG)); [done|]. destruct Hno. by split_and!.
Qed.

Lemma rec_tag_length record cap : framed record cap -> length (rec_tag record) = 16%nat /\
  length (rec_ct record) = (length record - REC_HDR - AEAD_TAG)%nat.
Proof.
  intros (Hl & _). unfold rec_tag, rec_ct, REC_HDR, AEAD_TAG in *.
  rewrite length_drop, length_take, length_drop. lia.
Qed.

Lemma not_opened d record cap : u64_ok (d_seq d) -> ~ (d_seq d < UINT64_MAX /\ framed record cap) ->
  d_seq d = UINT64_MAX \/ ~ framed record cap.
Proof.
  intros Hs Hno. destruct (decide (framed record cap)); [left|by right].
  destruct (Z.lt_ge_cases (d_seq d) UINT64_MAX); [tauto|]. unfold u64_ok, UINT64_MAX in *. lia.
Qed.

(** Opening: what is accepted, exactly. *)
Lemma rec_open_accepts d record cap d' ty content :
  dir_ok d -> bytes_ok record ->
  rec_open d record cap = Some (d', Some (ty, content)) <->
  (d_seq d < UINT64_MAX /\ framed record cap /\ d' = next_seq d /\ byte_ok ty /\ ty <> 0 /\ bytes_ok content /\
   exists z, seal (d_key d) (nonce_spec (d_iv d) (d_seq d)) (rec_aad record) (content ++ [ty] ++ replicate z 0)
             = Some (rec_ct record, rec_tag record)).
Proof.
  intros Hd Hb. destruct (dir_nonce d Hd) as [Hn Hnb]. pose proof Hd as (Hkl & Hkb & _ & _ & Hs).
  destruct (decide (d_seq d < UINT64_MAX /\ framed record cap)) as [[Hseq Hf]|Hno].
  2:{ rewrite rec_open_unframed by (done || by apply not_opened).
      split; [discriminate|tauto]. }
  rewrite rec_open_framed, Hn by done. destruct (rec_tag_length record cap Hf) as [Htl Hcl].
  assert (Hab : bytes_ok (rec_aad record)) by by apply Forall_take.
  assert (Hcb : bytes_ok (rec_ct record)) by by apply Forall_take, Forall_drop.
  assert (Htb : bytes_ok (rec_tag record)) by by apply Forall_drop.
  destruct (open_iff_seal (d_key d) _ (rec_aad record) (rec_ct record) (rec_tag record) Hkb Hkl Hnb Hab Hcb Htl Htb)
    as (r & Eo & Hr). rewrite Eo. cbn [mbind option_bind]. split.
  - destruct r as [pt|]; [|discriminate].
    destruct (open_bytes _ _ _ _ _ _ Hkb Hkl Hnb Hab Hcb Htl Htb Eo) as [Hpb Hpl].
    rewrite <- Hcl, <- Hpl. cbn zeta. destruct (Nat.eqb_spec (strip_zeros pt (length pt)) 0) as [|Hk]; [discriminate|].
    destruct (strip_zeros_split pt Hk) as (z & Hsplit & Hnz). set (k := strip_zeros pt (length pt)) in *.
    intros [= <- <- <-]. split_and!; try done; [by apply bytes_ok_total|by apply Forall_take|].
    exists z. apply Hr; [|by rewrite <- Hsplit]. by rewrite <- Hsplit.
  - intros (_ & _ & -> & Hty & Hnz & Hc & z & Es).
    assert (Hpb : bytes_ok (content ++ [ty] ++ replicate z 0)).
    { apply Forall_app_2; [done|apply Forall_app_2; [by apply Forall_singleton|by apply Forall_replicate]]. }
    apply Hr in Es as ->; [|done]. destruct (open_bytes _ _ _ _ _ _ Hkb Hkl Hnb Hab Hcb Htl Htb Eo) as [_ Hpl].
    rewrite <- Hcl, <- Hpl, strip_zeros_inner by done. cbn zeta. cbn [Nat.eqb].
    replace (S (length content) - 1)%nat with (length content) by lia.
    rewrite take_app_length, lookup_total_app_r, Nat.sub_diag by lia. done.
Qed.

Lemma rec_open_total d record cap : dir_ok d -> bytes_ok record ->
  exists d' r, rec_open d record cap = Some (d', r) /\ (d' = d \/ d' = next_seq d /\ d_seq d < UINT64_MAX).
Proof.
  intros Hd Hb. destruct (dir_nonce d Hd) as [Hn Hnb]. pose proof Hd as (Hkl & Hkb & _ & _ & Hs).
  destruct (decide (d_seq d < UINT64_MAX /\ framed record cap)) as [[Hseq Hf]|Hno].
  2:{ rewrite rec_open_unframed by (done || by apply not_opened).
      eauto. }
  rewrite rec_open_framed, Hn by done. destruct (rec_tag_length record cap Hf) as [Htl Hcl].
  destruct (open_iff_seal (d_key d) (nonce_spec (d_iv d) (d_seq d)) (rec_aad record) (rec_ct record) (rec_tag record))
    as (r & -> & _); [done|done|done|by apply Forall_take|by apply Forall_take, Forall_drop|done|by apply Forall_drop|].
  cbn [mbind option_bind]. destruct r as [pt|]; [|eauto]. cbn zeta.
  case_match; eauto 10.
Qed.

(** The record [rec_seal] wrote is framed, and splits back. *)
Lemma sealed_record n ct tag cap :
  length ct = (n + 1)%nat -> length tag = 16%nat -> Z.of_nat n <= 0x4000 -> (n + 1 <= cap)%nat ->
  let record := header_of (n + 17) ++ ct ++ tag in
  framed record cap /\ rec_aad record = header_of (n + 17) /\ rec_ct record = ct /\ rec_tag record = tag.
Proof.
  intros Hct Htag Hn Hcap record. destruct (header_ok (n + 17)) as [_ Hh]. unfold REC_HDR in Hh.
  assert (Hlen : length record = (n + 22)%nat) by (subst record; rewrite !length_app; lia).
  unfold framed, rec_aad, rec_ct, rec_tag, REC_HDR, AEAD_TAG. rewrite Hlen.
  replace (n + 22 - 5 - 16)%nat with (n + 1)%nat by lia. split_and!; try lia; subst record.
  - done.
  - change (drop 3 (header_of (n + 17) ++ ct ++ tag)) with (be_bytes 2 (Z.of_nat (n + 17)) ++ ct ++ tag).
    rewrite take_app_le, take_ge by (rewrite length_be_bytes; lia).
    rewrite be_val_bytes, Z.mod_small by lia. lia.
  - by rewrite take_app_le, take_ge by lia.
  - rewrite drop_app_ge, Hh, drop_0, take_app_le, take_ge by lia. done.
  - rewrite drop_app_ge, drop_app_ge by lia. rewrite Hh, Hct.
    replace (n + 22 - 16 - 5 - (n + 1))%nat with 0%nat by lia. by rewrite drop_0.
Qed.

Lemma seal_then_open d type pt cap1 cap2 :
  dir_ok d -> byte_ok type -> type <> 0 -> bytes_ok pt -> Z.of_nat (length pt) <= 0x4000 ->
  seal_fits d (length pt) cap1 -> (length pt + 1 <= cap2)%nat ->
  exists record, rec_seal d type pt cap1 = Some (next_seq d, Some record) /\
    bytes_ok record /\ length record = (length pt + 22)%nat /\
    rec_open d record cap2 = Some (next_seq d, Some (type, pt)).
Proof.
  intros Hd Hty Hnz Hpt Hn Hfit Hcap. pose proof Hfit as (Hseq & _).
  destruct (rec_seal_correct d type pt cap1 Hd Hty Hpt Hfit) as (ct & tag & Es & Hcl & Hcb & Htl & Htb & ->).
  destruct (sealed_record (length pt) ct tag cap2 Hcl Htl Hn Hcap) as (Hf & Ha & Hc & Ht).
  destruct (header_ok (length pt + 17)) as [Hhb Hhl]. eexists. split; [reflexivity|].
  assert (Hrb : bytes_ok (header_of (length pt + 17) ++ ct ++ tag)) by (apply Forall_app_2; [done|by apply Forall_app_2]).
  split; [done|]. split; [rewrite !length_app; unfold AEAD_TAG, REC_HDR in *; lia|].
  apply (rec_open_accepts d _ cap2 _ type pt Hd Hrb). split_and!; try done.
  exists 0%nat. rewrite Ha, Hc, Ht. exact Es.
Qed.

(** A stream of records through one direction each way. *)
Fixpoint seal_all (d : rec_dir) (msgs : list (Z * list Z)) (cap : nat) : option (rec_dir * list (list Z)) :=
  match msgs with
  | [] => Some (d, [])
  | (type, pt) :: msgs =>
      r ← rec_seal d type pt cap;
      match r with
      | (d, Some record) => rest ← seal_all d msgs cap; Some (rest.1, record :: rest.2)
      | (_, None) => None
      end
  end.
Fixpoint open_all (d : rec_dir) (records : list (list Z)) (cap : nat) : option (rec_dir * list (Z * list Z)) :=
  match records with
  | [] => Some (d, [])
  | record :: records =>
      r ← rec_open d record cap;
      match r with
      | (d, Some m) => rest ← open_all d records cap; Some (rest.1, m :: rest.2)
      | (_, None) => None
      end
  end.

Definition msg_ok (m : Z * list Z) : Prop :=
  byte_ok m.1 /\ m.1 <> 0 /\ bytes_ok m.2 /\ Z.of_nat (length m.2) <= 0x4000.

Lemma stream_roundtrip msgs : forall d cap1 cap2, dir_ok d -> Forall msg_ok msgs ->
  d_seq d + Z.of_nat (length msgs) <= UINT64_MAX ->
  (Z.to_nat 0x4000 + 22 <= cap1)%nat -> (Z.to_nat 0x4001 <= cap2)%nat ->
  exists d' records, seal_all d msgs cap1 = Some (d', records) /\ open_all d records cap2 = Some (d', msgs) /\
    d_seq d' = d_seq d + Z.of_nat (length msgs).
Proof.
  induction msgs as [|[ty pt] msgs IH]; intros d cap1 cap2 Hd Hm Hseq Hc1 Hc2.
  - exists d, []. cbn. split_and!; [done|done|lia].
  - apply Forall_cons in Hm as [(Hty & Hnz & Hpt & Hn) Hm]. cbn [fst snd length] in *.
    destruct (seal_then_open d ty pt cap1 cap2) as (record & Es & _ & _ & Eo); try done; try lia.
    { unfold seal_fits, AEAD_TAG, REC_HDR. lia. }
    assert (Hd' : dir_ok (next_seq d)).
    { destruct Hd as (? & ? & ? & ? & Hs). unfold dir_ok, next_seq, u64_ok, UINT64_MAX in *. cbn in *. split_and!; try done; lia. }
    destruct (IH (next_seq d) cap1 cap2 Hd' Hm) as (d' & records & IHs & IHo & IHq); [unfold next_seq; cbn; lia|lia|lia|].
    exists d', (record :: records). cbn [seal_all open_all]. rewrite Es, Eo. cbn [mbind option_bind].
    rewrite IHs, IHo. cbn [mbind option_bind fst snd]. split_and!; [done|done|]. rewrite IHq. unfold next_seq. cbn. lia.
Qed.
End Laws.

#[local] Existing Instance Aead.chacha20_poly1305.
#[local] Existing Instance Aead.chacha20_poly1305_laws.
#[local] Opaque Aead.aead_seal Aead.aead_open.

(** ** Properties *)

(** C13. Round trip: any sequence of records (content of up to 2^14 bytes, a
    nonzero content type) sealed in one direction opens, in order, to the same
    sequence on the peer's direction with the same key, IV and sequence
    number, and leaves both directions at the same next sequence number. *)
Theorem record_stream_roundtrip (d : rec_dir) (msgs : list (Z * list Z)) (cap1 cap2 : nat)
    (Hd : dir_ok d) (Hm : Forall msg_ok msgs) (Hseq : d_seq d + Z.of_nat (length msgs) <= UINT64_MAX)
    (Hcap1 : (Z.to_nat 0x4000 + 22 <= cap1)%nat) (Hcap2 : (Z.to_nat 0x4001 <= cap2)%nat) :
  exists d' records, seal_all d msgs cap1 = Some (d', records) /\ open_all d records cap2 = Some (d', msgs) /\
    d_seq d' = d_seq d + Z.of_nat (length msgs).
Proof. by apply stream_roundtrip. Qed.

Lemma record_stream_roundtrip_witness :
  let d := RecDir (replicate 32 1) (replicate 12 2) 254 in
  exists d' records, seal_all d [(22, [1; 2; 3]); (23, []); (21, [2; 40])] (Z.to_nat 16406) = Some (d', records) /\
    open_all d records (Z.to_nat 16385) = Some (d', [(22, [1; 2; 3]); (23, []); (21, [2; 40])]) /\ d_seq d' = 257.
Proof.
  apply (record_stream_roundtrip (RecDir (replicate 32 1) (replicate 12 2) 254)
    [(22, [1; 2; 3]); (23, []); (21, [2; 40])] (Z.to_nat 16406) (Z.to_nat 16385)).
  - unfold dir_ok. cbn. split_and!; try done; apply (bool_decide_unpack _); vm_compute; done.
  - unfold msg_ok. repeat constructor; cbn; unfold byte_ok; lia || (apply (bool_decide_unpack _); vm_compute; done).
  - vm_compute. discriminate.
  - lia.
  - lia.
Defined.

(** C10. Authenticity: [rec_open] returns a type and content exactly when the
    record is framed as application data of its own length within RFC 9846's
    limits and its body is the AEAD sealing, under this direction's key, the
    nonce of its sequence number and the record's header, of the content
    followed by a nonzero type byte and zero padding; then the sequence number
    moves by one. *)
Theorem rec_open_accepts_exactly (d d' : rec_dir) (record : list Z) (cap : nat) (ty : Z) (content : list Z)
    (Hd : dir_ok d) (Hrec : bytes_ok record) :
  rec_open d record cap = Some (d', Some (ty, content)) <->
  (d_seq d < UINT64_MAX /\ framed record cap /\ d' = next_seq d /\ byte_ok ty /\ ty <> 0 /\ bytes_ok content /\
   exists z, Aead.aead_seal (d_key d) (nonce_spec (d_iv d) (d_seq d)) (take REC_HDR record)
               (content ++ [ty] ++ replicate z 0) = Some (rec_ct record, rec_tag record)).
Proof. exact (rec_open_accepts d record cap d' ty content Hd Hrec). Qed.

Lemma rec_open_accepts_exactly_witness :
  rec_open (RecDir (replicate 32 1) (replicate 12 2) 0) [23; 3; 3; 0; 1; 0] 100
  <> Some (RecDir (replicate 32 1) (replicate 12 2) 1, Some (23, [])).
Proof.
  intros H. apply (rec_open_accepts_exactly (RecDir (replicate 32 1) (replicate 12 2) 0)
    (RecDir (replicate 32 1) (replicate 12 2) 1) [23; 3; 3; 0; 1; 0] 100 23 []) in H.
  - destruct H as (_ & (Hl & _) & _). unfold REC_HDR, AEAD_TAG in Hl. cbn [length] in Hl. lia.
  - unfold dir_ok. cbn. split_and!; try done; apply (bool_decide_unpack _); vm_compute; done.
  - apply (bool_decide_unpack _). vm_compute. done.
Defined.

(** C18. Safety: two records of one direction never share a nonce, because the
    nonce determines the sequence number and neither operation ever wraps it, or
    keeps it once a record was sealed or opened under its nonce.  Sealing writes a record and adds one, or
    writes nothing and changes nothing; a record that opens adds one, and one
    that does not adds one or changes nothing; each adds one only below
    2^64 - 1, and at 2^64 - 1 both refuse and leave the direction as it was. *)
Theorem record_nonce_never_repeats (d : rec_dir) (type : Z) (pt record : list Z) (cap : nat)
    (Hd : dir_ok d) (Hty : byte_ok type) (Hpt : bytes_ok pt) (Hrec : bytes_ok record) :
  (forall s, u64_ok s -> nonce_of (RecDir (d_key d) (d_iv d) s) = nonce_of d -> s = d_seq d) /\
  (exists d' r, rec_seal d type pt cap = Some (d', r) /\
     (d' = d /\ r = None \/ d' = next_seq d /\ d_seq d < UINT64_MAX /\ r <> None)) /\
  (exists d' r, rec_open d record cap = Some (d', r) /\
     (d' = d /\ r = None \/ d' = next_seq d /\ d_seq d < UINT64_MAX)) /\
  (d_seq d = UINT64_MAX -> rec_seal d type pt cap = Some (d, None) /\ rec_open d record cap = Some (d, None)).
Proof.
  split; [|split; [|split]].
  - intros s Hs. pose proof Hd as (_ & _ & Hl & _ & Hsq). rewrite !nonce_of_spec by done. cbn.
    by apply nonce_spec_inj.
  - destruct (decide (seal_fits d (length pt) cap)) as [Hf|Hf].
    + destruct (rec_seal_correct d type pt cap Hd Hty Hpt Hf) as (ct & tag & _ & _ & _ & _ & _ & ->).
      destruct Hf as [Hf _]. do 2 eexists. split; [reflexivity|]. by right.
    + rewrite rec_seal_refuses by (done || apply Hd). eauto 10.
  - destruct (rec_open_total d record cap Hd Hrec) as (d' & r & E & Hx). exists d', r. split; [exact E|]. destruct r as [[ty content]|]; [right|].
    + apply (rec_open_accepts d record cap d' ty content Hd Hrec) in E as (H1 & _ & H2 & _). by split.
    + destruct Hx as [->|Hx]; [by left|by right].
  - intros E. split.
    + apply rec_seal_refuses; [apply Hd|]. intros [H _]. lia.
    + apply rec_open_unframed; [done|apply Hd|]. apply not_opened; [apply Hd|]. intros [H _]. lia.
Qed.

Lemma record_nonce_never_repeats_witness : let d := RecDir (replicate 32 1) (replicate 12 2) UINT64_MAX in
  rec_seal d 23 [1] 100 = Some (d, None) /\ rec_open d [23; 3; 3; 0; 1; 0] 100 = Some (d, None).
Proof.
  intros d. refine (proj2 (proj2 (proj2 (record_nonce_never_repeats d 23 [1] [23; 3; 3; 0; 1; 0] 100 _ _ _ _))) eq_refl).
  - unfold dir_ok. cbn. split_and!; try done; apply (bool_decide_unpack _); vm_compute; done.
  - done.
  - apply (bool_decide_unpack _). vm_compute. done.
  - apply (bool_decide_unpack _). vm_compute. done.
Defined.

(** C40. Bounds: [rec_seal] writes exactly when the sequence number is below
    2^64 - 1, the body fits 2^14 + 256 bytes and the record fits [cap]; then it
    writes 22 bytes more than the content.  Content of more than 2^14 bytes
    still seals, up to that body limit, but no [rec_open] accepts the record. *)
Theorem rec_seal_bounds (d : rec_dir) (type : Z) (pt : list Z) (cap cap2 : nat)
    (Hd : dir_ok d) (Hty : byte_ok type) (Hpt : bytes_ok pt) :
  if decide (seal_fits d (length pt) cap) then
    exists record, rec_seal d type pt cap = Some (next_seq d, Some record) /\
      length record = (length pt + 22)%nat /\ (length record <= cap)%nat /\ bytes_ok record /\
      (0x4000 < Z.of_nat (length pt) -> rec_open d record cap2 = Some (d, None))
  else rec_seal d type pt cap = Some (d, None).
Proof.
  destruct (decide _) as [Hf|Hf]; [|by apply rec_seal_refuses; [apply Hd|]].
  destruct (rec_seal_correct d type pt cap Hd Hty Hpt Hf) as (ct & tag & _ & Hcl & Hcb & Htl & Htb & ->).
  destruct (header_ok (length pt + 17)) as [Hhb Hhl]. destruct Hf as (_ & _ & Hcap).
  assert (Hrb : bytes_ok (header_of (length pt + 17) ++ ct ++ tag)) by (apply Forall_app_2; [done|by apply Forall_app_2]).
  assert (Hrl : length (header_of (length pt + 17) ++ ct ++ tag) = (length pt + 22)%nat)
    by (rewrite !length_app; unfold AEAD_TAG, REC_HDR in *; lia).
  eexists. split; [reflexivity|]. unfold AEAD_TAG, REC_HDR in *. split_and!; [done|lia|done|].
  intros Hbig. apply rec_open_unframed; [done|apply Hd|right].
  intros (_ & _ & _ & H4 & _). rewrite Hrl in H4. unfold REC_HDR, AEAD_TAG in H4. lia.
Qed.

Lemma rec_seal_bounds_witness :
  rec_seal (RecDir (replicate 32 1) (replicate 12 2) 0) 23 [1; 2; 3] 24
  = Some (RecDir (replicate 32 1) (replicate 12 2) 0, None).
Proof.
  refine (rec_seal_bounds (RecDir (replicate 32 1) (replicate 12 2) 0) 23 [1; 2; 3] 24 0 _ _ _).
  - unfold dir_ok. cbn. split_and!; try done; apply (bool_decide_unpack _); vm_compute; done.
  - done.
  - apply (bool_decide_unpack _). vm_compute. done.
Defined.

(** Functional: keying a direction from a traffic secret derives key and IV
    with the labels "key" and "iv" at sequence number 0, and a KeyUpdate
    replaces the secret by HKDF-Expand-Label(secret, "traffic upd", "", 32) and
    keys from it; no assertion fails and the direction is well formed. *)
Theorem rec_dir_update_is_rfc9846 (secret : list Z) :
  let next := expand_label_spec 32 secret (str "traffic upd") [] 32 in
  exists d, rec_dir_update secret = Some (next, d) /\ rec_dir_init next = Some d /\ dir_ok d /\ d_seq d = 0 /\
    d_key d = expand_label_spec 32 next (str "key") [] 32 /\ d_iv d = expand_label_spec 32 next (str "iv") [] 12.
Proof.
  cbn zeta. destruct (rec_dir_init_correct (expand_label_spec 32 secret (str "traffic upd") [] 32))
    as (d & Hi & Hd & Hs & Hk & Hv). exists d. rewrite rec_dir_update_eq, Hi.
  split; [reflexivity|]. split; [reflexivity|]. exact (conj Hd (conj Hs (conj Hk Hv))).
Qed.
End Rec.
