(* ===== verification/QuicPacket.v ===== *)
(** * QUIC packet protection: src/src/quic_packet.c, quic_packet.h

    Packet and header protection, packet number recovery and the receive key
    set rule, in a build with the ChaCha20-Poly1305 suite.  The compares on
    secret values are mask arithmetic in the code; they are shown equal to the
    rules of RFC 9000 and RFC 9001 they stand for.  The packet protection is
    proved against the interface [AeadLaws].  A packet buffer is the list of
    its bytes, rewritten in place; the outer option is a failed [CH_ASSERT]. *)

From S2P Require Import Prelude Ct Buf Reader Wire Chacha20 Aead Record.
Local Open Scope Z_scope.
Local Open Scope word_scope.

Module Quic.
Import Chacha20.

Definition QUIC_PN_MAX_LEN : nat := 4.
Definition QUIC_PN_LEN_BITS : Z := 0x03.
Definition QUIC_KEY_PHASE_BIT : Z := 0x04.
Definition QUIC_HP_SAMPLE_LEN : nat := 16.
Definition QUIC_HP_MASK_LEN : nat := 5.
Definition QUIC_HP_BITS_LONG : Z := 0x0f.
Definition QUIC_HP_BITS_SHORT : Z := 0x1f.
Definition QUIC_INTEGRITY_LIMIT : Z := 1 <<64 36.
Definition QUIC_CONFIDENTIALITY_LIMIT : Z := 1 <<64 23.
Definition QUIC_PN_LIMIT : Z := 1 <<64 62.
Definition QUIC_KEY_PHASE_SHIFT : Z := 2.
Definition CH_QUIC_KEY_SETS : nat := 3.
Definition CH_QUIC_KEY_PREVIOUS : Z := 0.
Definition CH_QUIC_KEY_CURRENT : Z := 1.
Definition CH_QUIC_KEY_NEXT : Z := 2.
Definition CH_LEVEL_INITIAL : Z := 0.
Definition CH_LEVEL_HANDSHAKE : Z := 1.
Definition CH_LEVEL_APPLICATION : Z := 2.

(** [~x] at 64 bits. *)
Local Notation "'not64' a" := (u64 (Z.lnot a)) (at level 30) : word_scope.

Record quic_keys := QuicKeys { k_key : list Z; k_iv : list Z }.
#[export] Instance quic_keys_inhabited : Inhabited quic_keys := populate (QuicKeys [] []).
(** A [quic_hp_key] is its key's bytes. *)

(** ** Masks *)

Definition below_mask (a b : Z) : Z :=
  let borrow := ((not64 a .& b) .| ((not64 a .| b) .& (a -64 b))) >> 63 in
  not64 (borrow -64 1).

Definition byte_in_use (i pn_len : nat) : Z :=
  let borrow := (u32 (Z.of_nat i) -32 u32 (Z.of_nat pn_len)) >> 31 in
  not32 (borrow -32 1).

Definition set_in_use (name selected : Z) : Z :=
  let same := ct_memeq [name] [selected] 1 in
  u8 (not32 (same -32 1)).

(** ** Header protection *)

Definition first_byte_bits (level : Z) : Z :=
  if (level =? CH_LEVEL_APPLICATION) then QUIC_HP_BITS_SHORT else QUIC_HP_BITS_LONG.

Definition mask_pn_field (pkt : list Z) (pn_off pn_len : nat) (mask : list Z) : list Z :=
  foldl (fun pkt i => <[(pn_off + i)%nat := (pkt !!! (pn_off + i)%nat) .^ u8 ((mask !!! (1 + i)%nat) .& byte_in_use i pn_len)]> pkt)
        pkt (seq 0 QUIC_PN_MAX_LEN).

Definition quic_hp_mask (h : list Z) (sample : list Z) : list Z :=
  let counter := foldl (fun c i => c .| ((sample !!! i) <<32 (8 * Z.of_nat i))) 0 (seq 0 4) in
  let nonce := (fun i => sample !!! (4 + i)%nat) <$> seq 0 12 in
  let block := chacha20_block h nonce counter in
  (fun i => block !!! i) <$> seq 0 QUIC_HP_MASK_LEN.

Definition quic_header_protect (pkt : list Z) (pn_off pn_len : nat) (level : Z) (mask : list Z) : list Z :=
  let pkt := <[0%nat := (pkt !!! 0%nat) .^ ((mask !!! 0%nat) .& first_byte_bits level)]> pkt in
  mask_pn_field pkt pn_off pn_len mask.

(** The packet and [pn_len]. *)
Definition quic_header_unprotect (pkt : list Z) (pn_off : nat) (level : Z) (mask : list Z) : list Z * nat :=
  let pkt := <[0%nat := (pkt !!! 0%nat) .^ ((mask !!! 0%nat) .& first_byte_bits level)]> pkt in
  let pn_len := (Z.to_nat ((pkt !!! 0%nat) .& QUIC_PN_LEN_BITS) + 1)%nat in
  (mask_pn_field pkt pn_off pn_len mask, pn_len).

(** ** Packet numbers *)

Definition quic_pn_read (pkt : list Z) (pn_off pn_len : nat) : Z :=
  foldl (fun value i => value .^ ((value .^ ((value <<32 8) .| (pkt !!! (pn_off + i)%nat))) .& byte_in_use i pn_len))
        0 (seq 0 QUIC_PN_MAX_LEN).

Definition quic_pn_decode (largest_pn truncated_pn : Z) (pn_len : nat) : Z :=
  let pn_mask := (byte_in_use 0 pn_len .& 0xff) .| (byte_in_use 1 pn_len .& 0xff00) .|
                 (byte_in_use 2 pn_len .& 0xff0000) .| (byte_in_use 3 pn_len .& 0xff000000) in
  let expected_pn := largest_pn +64 1 in
  let pn_win := pn_mask +64 1 in
  let pn_hwin := pn_win >> 1 in
  let candidate_pn := (expected_pn .& not64 pn_mask) .| truncated_pn in
  let wrapped_up := not64 (below_mask expected_pn (candidate_pn +64 pn_hwin)) .&
                    below_mask candidate_pn (QUIC_PN_LIMIT -64 pn_win) in
  let wrapped_down := below_mask (expected_pn +64 pn_hwin) candidate_pn .& not64 (below_mask candidate_pn pn_win) in
  candidate_pn +64 (pn_win .& wrapped_up) -64 (pn_win .& wrapped_down).

Definition quic_nonce (iv : list Z) (pn : Z) : list Z :=
  foldl (fun nonce i =>
           let j := (AEAD_NONCE - 1 - i)%nat in
           <[j := (nonce !!! j) .^ u8 (pn >> (8 * Z.of_nat i))]> nonce)
        ((fun i => iv !!! i) <$> seq 0 AEAD_NONCE) (seq 0 8).

(** ** Key sets *)

Definition quic_key_set_select (key_phase packet_key_phase pn current_phase_lowest_pn : Z) : Z :=
  let differs := (key_phase .^ packet_key_phase) .& 1 in
  let same_phase := differs -32 1 in
  let below := u32 (below_mask pn current_phase_lowest_pn) in
  let other_phase := (CH_QUIC_KEY_PREVIOUS .& below) .| (CH_QUIC_KEY_NEXT .& not32 below) in
  let selected := (CH_QUIC_KEY_CURRENT .& same_phase) .| (other_phase .& not32 same_phase) in
  u8 selected.

(** [out[i] |= set[i] & take] over [n] bytes. *)
Definition or_masked (out set : list Z) (take : Z) : list Z :=
  imap (fun i b => b .| ((set !!! i) .& take)) out.
Definition quic_keys_select (sets : list quic_keys) (selected : Z) : quic_keys :=
  foldl (fun out s =>
           let take := set_in_use (u8 (Z.of_nat s)) selected in
           let set := sets !!! s in
           QuicKeys (or_masked (k_key out) (k_key set) take) (or_masked (k_iv out) (k_iv set) take))
        (QuicKeys (replicate AEAD_KEY 0) (replicate AEAD_NONCE 0)) (seq 0 CH_QUIC_KEY_SETS).

(** ** Packets *)

Section Ops.
Context {aead : AeadOps}.

(** Ciphertext then tag. *)
Definition seal_body (k : quic_keys) (nonce aad pt : list Z) : option (list Z) :=
  r ← seal (k_key k) nonce aad pt;
  Some (r.1 ++ r.2).

(** [n] bytes of ciphertext at [ct], then its tag. *)
Definition open_body (k : quic_keys) (nonce aad ct : list Z) (n : nat) : option (option (list Z)) :=
  open (k_key k) nonce aad (take n ct) (take AEAD_TAG (drop n ct)).

(** The result code, or [out[0 .. *out_len)]. *)
Definition quic_packet_seal (k : quic_keys) (h : list Z) (level key_phase pn : Z) (pn_len : nat)
    (hdr pt : list Z) (out : list Z) (cap : nat) : option (Z + list Z) :=
  let hdr_len := length hdr in
  let pt_len := length pt in
  if (pn_len =? 0)%nat || (QUIC_PN_MAX_LEN <? pn_len)%nat || (hdr_len <? pn_len)%nat then Some (inl CH_EINVAL)
  else if (pt_len <? QUIC_PN_MAX_LEN - pn_len)%nat then Some (inl CH_EINVAL)
  else if (cap <? AEAD_TAG)%nat || (cap - AEAD_TAG <? pt_len)%nat || (cap - AEAD_TAG - pt_len <? hdr_len)%nat then Some (inl CH_ECAP)
  else
    let total := (hdr_len + pt_len + AEAD_TAG)%nat in
    let phase_bit := if (level =? CH_LEVEL_APPLICATION) then QUIC_KEY_PHASE_BIT else 0 in
    let phase := u8 ((key_phase .& 1) <<32 QUIC_KEY_PHASE_SHIFT) in
    let w := wb_init out cap in
    let w := wb_u8 w (u8 ((hdr !!! 0%nat .& Z.lnot phase_bit) .| (phase .& phase_bit))) in
    let w := wb_bytes w (drop 1 hdr) in
    if w_err w then None
    else
      let nonce := quic_nonce (k_iv k) pn in
      sealed ← seal_body k nonce (take hdr_len (w_p w)) pt;
      let out := store_bytes (w_p w) hdr_len sealed in
      let pn_off := (hdr_len - pn_len)%nat in
      let mask := quic_hp_mask h (take QUIC_HP_SAMPLE_LEN (drop (pn_off + QUIC_PN_MAX_LEN) out)) in
      let out := quic_header_protect out pn_off pn_len level mask in
      Some (inr (take total out)).

(** The packet, and the packet number length and packet number or [None] for
    CH_QUIC_DISCARD. *)
Definition unprotect_header (h : list Z) (pkt : list Z) (pn_off : nat) (level largest_pn : Z) : list Z * option (nat * Z) :=
  let pkt_len := length pkt in
  if (pkt_len <? pn_off)%nat || (pkt_len - pn_off <? QUIC_PN_MAX_LEN + QUIC_HP_SAMPLE_LEN)%nat then (pkt, None)
  else
    let mask := quic_hp_mask h (take QUIC_HP_SAMPLE_LEN (drop (pn_off + QUIC_PN_MAX_LEN) pkt)) in
    let '(pkt, pn_len) := quic_header_unprotect pkt pn_off level mask in
    (pkt, Some (pn_len, quic_pn_decode largest_pn (quic_pn_read pkt pn_off pn_len) pn_len)).

(** The packet with the plaintext in place, and its length. *)
Definition open_payload (k : quic_keys) (pkt : list Z) (body_off : nat) (pn : Z) : option (list Z * option nat) :=
  let ct_len := (length pkt - body_off - AEAD_TAG)%nat in
  let nonce := quic_nonce (k_iv k) pn in
  opened ← open_body k nonce (take body_off pkt) (drop body_off pkt) ct_len;
  match opened with
  | None => Some (pkt, None)
  | Some pt => Some (store_bytes pkt body_off pt, Some ct_len)
  end.

(** The packet, and the packet number and plaintext length. *)
Definition quic_packet_open_handshake (k : quic_keys) (h : list Z) (pkt : list Z) (pn_off : nat) (largest_pn : Z) :
    option (list Z * option (Z * nat)) :=
  let '(pkt, u) := unprotect_header h pkt pn_off CH_LEVEL_HANDSHAKE largest_pn in
  match u with
  | None => Some (pkt, None)
  | Some (pn_len, recovered) =>
      o ← open_payload k pkt (pn_off + pn_len) recovered;
      match o.2 with
      | None => Some (o.1, None)
      | Some opened_len => Some (o.1, Some (recovered, opened_len))
      end
  end.

(** The packet, and the key set, packet number and plaintext length. *)
Definition quic_packet_open_application (sets : list quic_keys) (h : list Z) (key_phase : Z) (pkt : list Z) (pn_off : nat)
    (largest_pn current_phase_lowest_pn : Z) : option (list Z * option (Z * Z * nat)) :=
  let '(pkt, u) := unprotect_header h pkt pn_off CH_LEVEL_APPLICATION largest_pn in
  match u with
  | None => Some (pkt, None)
  | Some (pn_len, recovered) =>
      let packet_key_phase := u8 (((pkt !!! 0%nat) .& QUIC_KEY_PHASE_BIT) >> QUIC_KEY_PHASE_SHIFT) in
      let selected := quic_key_set_select key_phase packet_key_phase recovered current_phase_lowest_pn in
      let chosen := quic_keys_select sets selected in
      o ← open_payload chosen pkt (pn_off + pn_len) recovered;
      match o.2 with
      | None => Some (o.1, None)
      | Some opened_len => Some (o.1, Some (selected, recovered, opened_len))
      end
  end.
End Ops.

Definition quic_integrity_limit_exceeded (open_failures : Z) : Z := if (QUIC_INTEGRITY_LIMIT <? open_failures) then 1 else 0.
Definition quic_confidentiality_limit_reached (sealed : Z) : Z := if (QUIC_CONFIDENTIALITY_LIMIT - 1 <=? sealed) then 1 else 0.

Example pn_decode_appendix : quic_pn_decode 0xa82f30ea 0x9b32 2 = 0xa82f9b32. Proof. reflexivity. Qed.

(** ** Reference: RFC 9000 appendix A.3 and RFC 9001 section 6.5 *)

Definition DecodePacketNumber (largest_pn truncated_pn pn_nbits : Z) : Z :=
  let expected_pn := largest_pn + 1 in
  let pn_win := 2 ^ pn_nbits in
  let pn_hwin := pn_win / 2 in
  let candidate_pn := (expected_pn - expected_pn mod pn_win) + truncated_pn in
  if (candidate_pn <=? expected_pn - pn_hwin) && (candidate_pn <? 2 ^ 62 - pn_win) then candidate_pn + pn_win
  else if (expected_pn + pn_hwin <? candidate_pn) && (pn_win <=? candidate_pn) then candidate_pn - pn_win
  else candidate_pn.

Definition key_set_spec (key_phase packet_key_phase pn lowest : Z) : Z :=
  if (key_phase =? packet_key_phase) then CH_QUIC_KEY_CURRENT
  else if (pn <? lowest) then CH_QUIC_KEY_PREVIOUS else CH_QUIC_KEY_NEXT.

(** ** Lemmas: masks *)

Lemma testbit63 x : u64_ok x -> Z.testbit x 63 = (2 ^ 63 <=? x).
Proof.
  intros [H1 H2]. destruct (Z.leb_spec (2 ^ 63) x) as [H|H].
  - replace x with (2 ^ 63 + (x - 2 ^ 63)) by lia. rewrite Z.testbit_true by lia.
    replace ((2 ^ 63 + (x - 2 ^ 63)) / 2 ^ 63) with 1; [done|]. dlia.
  - apply (testbit_bounded 63); lia.
Qed.

Lemma shiftr63 x : u64_ok x -> x >> 63 = if (2 ^ 63 <=? x) then 1 else 0.
Proof. intros [H1 H2]. rewrite Z.shiftr_div_pow2 by lia. destruct (Z.leb_spec (2 ^ 63) x); dlia. Qed.

Lemma not64_small a : u64_ok a -> not64 a = 2 ^ 64 - 1 - a.
Proof.
  unfold u64_ok. intros Ha. assert (E : Z.lnot a = - a - 1) by (unfold Z.lnot; lia). rewrite E. unfold u64.
  symmetry. apply (Z.mod_unique _ _ (-1)); lia.
Qed.

Lemma below_mask_spec a b : u64_ok a -> u64_ok b -> below_mask a b = if (a <? b) then 2 ^ 64 - 1 else 0.
Proof.
  intros Ha Hb. unfold below_mask. set (v := (not64 a .& b) .| ((not64 a .| b) .& (a -64 b))).
  assert (Hd : u64_ok (a -64 b)) by apply u64_range. assert (Hn : u64_ok (not64 a)) by apply u64_range.
  assert (Hv : u64_ok v).
  { unfold u64_ok in *. apply (lor_bound 64); [lia| |]; apply (land_bound 64); try lia. apply (lor_bound 64); lia. }
  assert (Ht : Z.testbit v 63 = (a <? b)).
  { unfold v. rewrite Z.lor_spec, !Z.land_spec, Z.lor_spec. rewrite (testbit63 (not64 a)), (testbit63 b), (testbit63 (a -64 b)) by done.
    assert (En : not64 a = 2 ^ 64 - 1 - a) by by apply not64_small.
    rewrite En. unfold u64_ok in *. unfold u64. destruct (Z.ltb_spec a b) as [Hlt|Hge].
    - rewrite <- (Z.mod_unique (a - b) (2 ^ 64) (-1) (a - b + 2 ^ 64)) by lia.
      destruct (Z.leb_spec (2 ^ 63) (2 ^ 64 - 1 - a)), (Z.leb_spec (2 ^ 63) b), (Z.leb_spec (2 ^ 63) (a - b + 2 ^ 64)); try done; lia.
    - rewrite (Z.mod_small (a - b)) by lia.
      destruct (Z.leb_spec (2 ^ 63) (2 ^ 64 - 1 - a)), (Z.leb_spec (2 ^ 63) b), (Z.leb_spec (2 ^ 63) (a - b)); try done; lia. }
  rewrite shiftr63 by done. rewrite <- testbit63, Ht by done. by destruct (a <? b).
Qed.

Lemma byte_in_use_spec i n : (i <= 4)%nat -> (n <= 4)%nat -> byte_in_use i n = if (i <? n)%nat then 2 ^ 32 - 1 else 0.
Proof.
  intros Hi Hn. do 5 (destruct i as [|i]; [do 5 (destruct n as [|n]; [reflexivity|]); lia|]). lia.
Qed.

Lemma set_in_use_spec a b : byte_ok a -> byte_ok b -> set_in_use a b = if (a =? b) then 255 else 0.
Proof.
  intros Ha Hb. unfold set_in_use. rewrite ct_memeq_spec; [|by rewrite Forall_singleton..|done|done]. cbn [take].
  pose proof (bytes_eqb_eq [a] [b]) as He. destruct (bytes_eqb [a] [b]), (Z.eqb_spec a b) as [->|]; try done.
  - by injection (proj1 He eq_refl).
  - discriminate (proj2 He eq_refl).
Qed.

(** ** Lemmas: packet numbers *)

Lemma candidate_spec e t k : 0 <= k -> u64_ok e -> 0 <= t < 2 ^ k -> 2 ^ k <= 2 ^ 64 ->
  (e .& not64 (2 ^ k - 1)) .| t = e - e mod 2 ^ k + t.
Proof.
  intros Hk He Ht H64. assert (Hk' : k <= 64) by (apply (Z.pow_le_mono_r_iff 2); lia).
  assert (E : e .& not64 (2 ^ k - 1) = Z.shiftl (e / 2 ^ k) k).
  { apply Z.bits_inj'. intros i Hi. rewrite Z.land_spec. unfold u64.
    destruct (Z.lt_ge_cases i 64) as [H|H].
    - rewrite Z.mod_pow2_bits_low by lia. rewrite Z.lnot_spec by lia. replace (2 ^ k - 1) with (Z.ones k) by (rewrite Z.ones_equiv; lia).
      destruct (Z.lt_ge_cases i k) as [Hik|Hik].
      + rewrite Z.ones_spec_low, Z.shiftl_spec_low by lia. apply andb_false_r.
      + rewrite Z.ones_spec_high, Z.shiftl_spec by lia. rewrite andb_true_r, Z.div_pow2_bits by lia. f_equal. lia.
    - rewrite (testbit_bounded 64 e i) by (unfold u64_ok in He; lia). symmetry. cbn [andb]. rewrite Z.shiftl_spec, Z.div_pow2_bits by lia.
      apply (testbit_bounded 64); [unfold u64_ok in He; lia|lia]. }
  rewrite E, lor_shiftl_add' by lia. pose proof (Z.div_mod e (2 ^ k)). lia.
Qed.

(** A full or empty 64-bit mask. *)
Definition mask64 (b : bool) : Z := if b then 2 ^ 64 - 1 else 0.
Lemma mask64_and a b : Z.land (mask64 a) (mask64 b) = mask64 (a && b).
Proof. by destruct a, b. Qed.
Lemma mask64_not a : not64 (mask64 a) = mask64 (negb a).
Proof. by destruct a. Qed.
Lemma mask64_take x b : u64_ok x -> Z.land x (mask64 b) = if b then x else 0.
Proof.
  intros Hx. destruct b; [|apply Z.land_0_r]. cbn [mask64]. rewrite (land_mask 64) by (rewrite ?Z.ones_equiv; lia). by apply Z.mod_small.
Qed.

Lemma pn_mask_spec n : (1 <= n <= 4)%nat ->
  (byte_in_use 0 n .& 0xff) .| (byte_in_use 1 n .& 0xff00) .| (byte_in_use 2 n .& 0xff0000) .| (byte_in_use 3 n .& 0xff000000)
  = 2 ^ (8 * Z.of_nat n) - 1.
Proof. intros Hn. do 5 (destruct n as [|n]; [try lia; reflexivity|]). lia. Qed.

Lemma pn_window n : (1 <= n <= 4)%nat -> 2 ^ 8 <= 2 ^ (8 * Z.of_nat n) <= 2 ^ 32.
Proof. intros Hn. split; apply Z.pow_le_mono_r; lia. Qed.

Lemma pn_decode_spec largest t n : (1 <= n <= 4)%nat -> 0 <= largest < 2 ^ 62 -> 0 <= t < 2 ^ (8 * Z.of_nat n) ->
  quic_pn_decode largest t n = DecodePacketNumber largest t (8 * Z.of_nat n).
Proof.
  intros Hn Hl Ht. unfold quic_pn_decode, DecodePacketNumber. rewrite pn_mask_spec by done. pose proof (pn_window n Hn) as Hw.
  assert (Hk : 0 <= 8 * Z.of_nat n) by lia. generalize dependent (8 * Z.of_nat n). intros k Ht Hw Hk.
  rewrite (u64_small (largest + 1)) by (unfold u64_ok; lia). rewrite candidate_spec by (unfold u64_ok; lia).
  rewrite (u64_small (2 ^ k - 1 + 1)) by (unfold u64_ok; lia). replace (2 ^ k - 1 + 1) with (2 ^ k) by lia.
  assert (Eh : 2 ^ k >> 1 = 2 ^ k / 2) by (by rewrite Z.shiftr_div_pow2 by lia). rewrite Eh.
  set (w := 2 ^ k) in *. set (e := largest + 1) in *. assert (He : 0 <= e <= 2 ^ 62) by lia.
  set (c := e - e mod w + t). assert (Hc : 0 <= c < e + w) by (subst c; pose proof (Z.mod_pos_bound e w); pose proof (Z.mod_le e w); lia).
  assert (Hh : 0 <= w / 2 <= 2 ^ 31) by dlia.
  rewrite (u64_small (c + w / 2)), (u64_small (e + w / 2)) by (unfold u64_ok; lia).
  change QUIC_PN_LIMIT with (2 ^ 62). rewrite (u64_small (2 ^ 62 - w)) by (unfold u64_ok; lia).
  rewrite !below_mask_spec by (unfold u64_ok; lia).
  fold (mask64 (e <? c + w / 2)) (mask64 (c <? 2 ^ 62 - w)) (mask64 (e + w / 2 <? c)) (mask64 (c <? w)).
  rewrite !mask64_not, !mask64_and, !mask64_take by (unfold u64_ok; lia).
  assert (E1 : negb (e <? c + w / 2) = (c <=? e - w / 2)) by (destruct (Z.ltb_spec e (c + w / 2)), (Z.leb_spec c (e - w / 2)); try done; lia).
  assert (E2 : negb (c <? w) = (w <=? c)) by (destruct (Z.ltb_spec c w), (Z.leb_spec w c); try done; lia). rewrite E1, E2.
  destruct (Z.leb_spec c (e - w / 2)), (Z.ltb_spec c (2 ^ 62 - w)), (Z.ltb_spec (e + w / 2) c), (Z.leb_spec w c); cbn [andb]; try lia;
    rewrite ?Z.add_0_r, ?Z.sub_0_r; try rewrite (u64_small (c + w)) by (unfold u64_ok; lia); try rewrite (u64_small c) by (unfold u64_ok; lia);
    apply u64_small; unfold u64_ok; lia.
Qed.

(** The rule recovers every packet number within half a window. *)
Lemma decode_recovers largest pn n : (1 <= n <= 4)%nat -> 0 <= largest < 2 ^ 62 -> 0 <= pn < 2 ^ 62 ->
  let hwin := 2 ^ (8 * Z.of_nat n) / 2 in
  largest + 1 - hwin < pn <= largest + 1 + hwin ->
  DecodePacketNumber largest (pn mod 2 ^ (8 * Z.of_nat n)) (8 * Z.of_nat n) = pn.
Proof.
  intros Hn Hl Hp hwin Hwin. unfold DecodePacketNumber. pose proof (pn_window n Hn) as Hw. fold hwin. set (w := 2 ^ (8 * Z.of_nat n)) in *.
  set (e := largest + 1) in *. assert (Hev : w = 2 * hwin).
  { subst w hwin. replace (8 * Z.of_nat n) with (1 + (8 * Z.of_nat n - 1)) by lia. rewrite Z.pow_add_r by lia. change (2 ^ 1) with 2.
    rewrite (Z.mul_comm 2), Z.div_mul by lia. lia. }
  pose proof (Z.div_mod e w ltac:(lia)). pose proof (Z.div_mod pn w ltac:(lia)). pose proof (Z.mod_pos_bound e w). pose proof (Z.mod_pos_bound pn w).
  clearbody w hwin. assert (Hq : pn / w = e / w - 1 \/ pn / w = e / w \/ pn / w = e / w + 1) by nia.
  destruct Hq as [Hq|[Hq|Hq]]; rewrite Hq, ?Z.mul_sub_distr_l, ?Z.mul_add_distr_l in *; set (A := w * (e / w)) in *; clearbody A;
    destruct (Z.leb_spec (e - e mod w + pn mod w) (e - hwin)), (Z.ltb_spec (e - e mod w + pn mod w) (2 ^ 62 - w)),
      (Z.ltb_spec (e + hwin) (e - e mod w + pn mod w)), (Z.leb_spec w (e - e mod w + pn mod w)); cbn [andb]; lia.
Qed.

(** ** Lemmas: header protection

    A packet is its first byte, the rest of its header, the four bytes at the
    packet number offset, and what follows. *)

(** The first [n] bytes of [xs] masked. *)
Definition mask_first (n : nat) (xs ms : list Z) : list Z := xor_bytes (take n xs) ms ++ drop n xs.

Lemma four_bytes (xs : list Z) : length xs = 4%nat -> exists x0 x1 x2 x3, xs = [x0; x1; x2; x3].
Proof. intros H. do 4 (destruct xs as [|? xs]; [discriminate H|]). destruct xs; [|discriminate H]. eauto. Qed.

Lemma mask_byte (m : Z) (b : bool) : byte_ok m -> u8 (m .& (if b then 2 ^ 32 - 1 else 0)) = if b then m else 0.
Proof.
  unfold byte_ok. intros Hm. destruct b; [|by rewrite Z.land_0_r]. rewrite (land_mask 32) by (rewrite ?Z.ones_equiv; lia).
  rewrite Z.mod_small by lia. by apply u8_small.
Qed.

Lemma insert_at (a r : list Z) i x y : i = length a -> <[i := y]> (a ++ x :: r) = a ++ y :: r.
Proof. intros ->. by rewrite insert_app_r_alt, Nat.sub_diag by lia. Qed.

Lemma lookup_at (a r : list Z) i x : i = length a -> (a ++ x :: r) !!! i = x.
Proof. intros ->. by rewrite lookup_total_app_r, Nat.sub_diag by lia. Qed.

Lemma mask_pn_field_at a xs r n mask : length xs = 4%nat -> (1 <= n <= 4)%nat -> bytes_ok mask -> length mask = 5%nat ->
  mask_pn_field (a ++ xs ++ r) (length a) n mask = a ++ mask_first n xs (drop 1 mask) ++ r.
Proof.
  intros Hx Hn Hm Hl. destruct (four_bytes xs Hx) as (x0 & x1 & x2 & x3 & ->).
  destruct mask as [|m0 mask]; [discriminate Hl|]. injection Hl as Hl. destruct (four_bytes mask Hl) as (m1 & m2 & m3 & m4 & ->).
  rewrite !Forall_cons in Hm. destruct Hm as (_ & M1 & M2 & M3 & M4 & _).
  unfold mask_pn_field. cbn [seq QUIC_PN_MAX_LEN foldl Nat.add app drop]. rewrite !byte_in_use_spec by lia.
  change ([m0; m1; m2; m3; m4] !!! 1%nat) with m1. change ([m0; m1; m2; m3; m4] !!! 2%nat) with m2.
  change ([m0; m1; m2; m3; m4] !!! 3%nat) with m3. change ([m0; m1; m2; m3; m4] !!! 4%nat) with m4. rewrite !mask_byte by done.
  rewrite (lookup_at a), (insert_at a) by lia.
  set (y0 := x0 .^ _). replace (a ++ y0 :: x1 :: x2 :: x3 :: r) with ((a ++ [y0]) ++ x1 :: x2 :: x3 :: r) by by rewrite <- app_assoc.
  rewrite (lookup_at (a ++ [y0])), (insert_at (a ++ [y0])) by (rewrite length_app; cbn; lia).
  set (y1 := x1 .^ _). replace ((a ++ [y0]) ++ y1 :: x2 :: x3 :: r) with ((a ++ [y0; y1]) ++ x2 :: x3 :: r) by by rewrite <- !app_assoc.
  rewrite (lookup_at (a ++ [y0; y1])), (insert_at (a ++ [y0; y1])) by (rewrite length_app; cbn; lia).
  set (y2 := x2 .^ _). replace ((a ++ [y0; y1]) ++ y2 :: x3 :: r) with ((a ++ [y0; y1; y2]) ++ x3 :: r) by by rewrite <- !app_assoc.
  rewrite (lookup_at (a ++ [y0; y1; y2])), (insert_at (a ++ [y0; y1; y2])) by (rewrite length_app; cbn; lia).
  rewrite <- app_assoc. f_equal. subst y0 y1 y2.
  do 5 (destruct n as [|n]; [try lia; unfold mask_first, xor_bytes; cbn; by rewrite ?Z.lxor_0_r|]). lia.
Qed.

Lemma mask_first_twice n xs ms : length xs = 4%nat -> length ms = 4%nat -> (n <= 4)%nat -> mask_first n (mask_first n xs ms) ms = xs.
Proof.
  intros Hx Hm Hn. destruct (four_bytes xs Hx) as (x0 & x1 & x2 & x3 & ->). destruct (four_bytes ms Hm) as (m0 & m1 & m2 & m3 & ->).
  do 5 (destruct n as [|n]; [unfold mask_first, xor_bytes; cbn; by rewrite ?lxor_cancel|]). lia.
Qed.

Lemma length_mask_first n xs ms : length xs = 4%nat -> length ms = 4%nat -> (n <= 4)%nat -> length (mask_first n xs ms) = 4%nat.
Proof.
  intros Hx Hm Hn. unfold mask_first, xor_bytes. rewrite length_app, length_zip_with, length_take, length_drop. lia.
Qed.

Lemma pn_read_at a xs r n : length xs = 4%nat -> (1 <= n <= 4)%nat -> bytes_ok xs ->
  quic_pn_read (a ++ xs ++ r) (length a) n = be_val (take n xs).
Proof.
  intros Hx Hn Hb. destruct (four_bytes xs Hx) as (x0 & x1 & x2 & x3 & ->). rewrite !Forall_cons in Hb. destruct Hb as (B0 & B1 & B2 & B3 & _).
  unfold quic_pn_read. cbn [seq QUIC_PN_MAX_LEN foldl app]. rewrite !byte_in_use_spec by lia.
  rewrite (lookup_at a _ (length a + 0)) by lia.
  replace (a ++ x0 :: x1 :: x2 :: x3 :: r) with ((a ++ [x0]) ++ x1 :: x2 :: x3 :: r) by by rewrite <- app_assoc.
  rewrite (lookup_at (a ++ [x0])) by (rewrite length_app; cbn; lia).
  replace ((a ++ [x0]) ++ x1 :: x2 :: x3 :: r) with ((a ++ [x0; x1]) ++ x2 :: x3 :: r) by by rewrite <- !app_assoc.
  rewrite (lookup_at (a ++ [x0; x1])) by (rewrite length_app; cbn; lia).
  replace ((a ++ [x0; x1]) ++ x2 :: x3 :: r) with ((a ++ [x0; x1; x2]) ++ x3 :: r) by by rewrite <- !app_assoc.
  rewrite (lookup_at (a ++ [x0; x1; x2])) by (rewrite length_app; cbn; lia). unfold byte_ok in *.
  assert (Step : forall v b c, 0 <= v < 2 ^ 24 -> 0 <= b < 2 ^ 8 ->
    v .^ ((v .^ ((v <<32 8) .| b)) .& (if (c : bool) then 2 ^ 32 - 1 else 0)) = if c then v * 2 ^ 8 + b else v).
  { intros v b c Hv Hbb. rewrite (u32_small (Z.shiftl v 8)) by (unfold u32_ok; rewrite Z.shiftl_mul_pow2; lia). rewrite lor_shiftl_add' by lia.
    destruct c; [|by rewrite Z.land_0_r, Z.lxor_0_r]. rewrite (land_mask 32) by (rewrite ?Z.ones_equiv; lia). rewrite Z.mod_small.
    - by rewrite <- Z.lxor_assoc, Z.lxor_nilpotent, Z.lxor_0_l.
    - apply (lxor_bound 32); lia. }
  pose proof (fun v b => Step v b true) as ST. pose proof (fun v b => Step v b false) as SF. cbv iota beta in ST, SF. clear Step.
  assert (Hc : n = 1%nat \/ n = 2%nat \/ n = 3%nat \/ n = 4%nat) by lia.
  repeat destruct Hc as [Hc|Hc]; subst n;
    repeat match goal with |- context [(?i <? ?j)%nat] => let v := eval vm_compute in (i <? j)%nat in change (i <? j)%nat with v end;
    cbv iota; rewrite (ST 0 x0) by lia; first [rewrite (fun v => ST v x1) by lia|rewrite (fun v => SF v x1) by lia];
    first [rewrite (fun v => ST v x2) by lia|rewrite (fun v => SF v x2) by lia];
    first [rewrite (fun v => ST v x3) by lia|rewrite (fun v => SF v x3) by lia]; cbn; lia.
Qed.

Lemma hp_mask_ok h sample : bytes_ok (quic_hp_mask h sample) /\ length (quic_hp_mask h sample) = 5%nat.
Proof.
  unfold quic_hp_mask. split; [|by rewrite length_fmap, length_seq]. apply Forall_fmap, Forall_forall. intros i _. apply bytes_ok_total, chacha20_block_ok.
Qed.

Lemma protect_at b0 a xs r n level mask : length xs = 4%nat -> (1 <= n <= 4)%nat -> bytes_ok mask -> length mask = 5%nat ->
  quic_header_protect (b0 :: a ++ xs ++ r) (1 + length a) n level mask =
  (b0 .^ ((mask !!! 0%nat) .& first_byte_bits level)) :: a ++ mask_first n xs (drop 1 mask) ++ r.
Proof.
  intros Hx Hn Hm Hl. unfold quic_header_protect. change ((b0 :: a ++ xs ++ r) !!! 0%nat) with b0. set (c0 := b0 .^ _).
  change (<[0%nat:=c0]> (b0 :: a ++ xs ++ r)) with ((c0 :: a) ++ xs ++ r). change (1 + length a)%nat with (length (c0 :: a)).
  by rewrite mask_pn_field_at.
Qed.

Lemma unprotect_at c0 a ys r level mask : length ys = 4%nat -> bytes_ok mask -> length mask = 5%nat ->
  let b0 := c0 .^ ((mask !!! 0%nat) .& first_byte_bits level) in let n := (Z.to_nat (b0 .& 3) + 1)%nat in
  quic_header_unprotect (c0 :: a ++ ys ++ r) (1 + length a) level mask = (b0 :: a ++ mask_first n ys (drop 1 mask) ++ r, n) /\ (1 <= n <= 4)%nat.
Proof.
  intros Hx Hm Hl b0 n. assert (Hn : (1 <= n <= 4)%nat).
  { subst n. rewrite (land_mask 2) by done. pose proof (Z.mod_pos_bound b0 (2 ^ 2)). lia. }
  split; [|done]. unfold quic_header_unprotect. change ((c0 :: a ++ ys ++ r) !!! 0%nat) with c0. fold b0.
  change (<[0%nat:=b0]> (c0 :: a ++ ys ++ r)) with ((b0 :: a) ++ ys ++ r). change (1 + length a)%nat with (length (b0 :: a)).
  change (((b0 :: a) ++ ys ++ r) !!! 0%nat) with b0. change QUIC_PN_LEN_BITS with 3. fold n. by rewrite mask_pn_field_at.
Qed.

(** The sample starts four bytes into the packet number field, so protecting a
    header does not move it. *)
Lemma sample_at (b0 : Z) (a xs r : list Z) : length xs = 4%nat -> drop (1 + length a + QUIC_PN_MAX_LEN) (b0 :: a ++ xs ++ r) = r.
Proof.
  intros Hx. rewrite app_comm_cons, app_assoc. replace (1 + length a + QUIC_PN_MAX_LEN)%nat with (length ((b0 :: a) ++ xs)).
  - apply drop_app_length.
  - rewrite length_app, Hx. unfold QUIC_PN_MAX_LEN. cbn [length]. lia.
Qed.

(** Removing protection undoes it, and recovers the packet number. *)
Lemma unprotect_protected h b0 a xs r level largest n : bytes_ok xs -> length xs = 4%nat -> (16 <= length r)%nat ->
  Z.to_nat (b0 .& 3) = (n - 1)%nat -> (1 <= n <= 4)%nat ->
  let pkt := b0 :: a ++ xs ++ r in
  let mask := quic_hp_mask h (take QUIC_HP_SAMPLE_LEN (drop (1 + length a + QUIC_PN_MAX_LEN) pkt)) in
  unprotect_header h (quic_header_protect pkt (1 + length a) n level mask) (1 + length a) level largest
  = (pkt, Some (n, quic_pn_decode largest (be_val (take n xs)) n)).
Proof.
  intros Hb Hx Hr Hn Hn4 pkt mask. destruct (hp_mask_ok h (take QUIC_HP_SAMPLE_LEN (drop (1 + length a + QUIC_PN_MAX_LEN) pkt))) as [Mb Ml]. fold mask in Mb, Ml.
  subst pkt. rewrite protect_at by done. set (c0 := b0 .^ _). set (ys := mask_first n xs (drop 1 mask)).
  assert (Hy : length ys = 4%nat) by (apply length_mask_first; rewrite ?length_drop; lia).
  unfold unprotect_header. rewrite sample_at by done.
  assert (Hlen : length (c0 :: a ++ ys ++ r) = (1 + length a + 4 + length r)%nat) by (cbn [length]; rewrite !length_app, Hy; lia).
  rewrite Hlen. unfold QUIC_PN_MAX_LEN, QUIC_HP_SAMPLE_LEN.
  destruct (Nat.ltb_spec (1 + length a + 4 + length r) (1 + length a)); [lia|].
  destruct (Nat.ltb_spec (1 + length a + 4 + length r - (1 + length a)) (4 + 16)); [lia|]. cbn [orb].
  assert (Em : quic_hp_mask h (take 16 r) = mask).
  { subst mask. by rewrite sample_at. }
  rewrite Em. destruct (unprotect_at c0 a ys r level mask Hy Mb Ml) as [E _].
  assert (Eb : c0 .^ ((mask !!! 0%nat) .& first_byte_bits level) = b0) by (subst c0; apply lxor_cancel). rewrite Eb in E.
  replace (Z.to_nat (b0 .& 3) + 1)%nat with n in E by lia. rewrite E. subst ys.
  rewrite mask_first_twice by (rewrite ?length_drop; lia). rewrite app_comm_cons.
  change (1 + length a)%nat with (length (b0 :: a)). by rewrite pn_read_at.
Qed.

(** ** Lemmas: nonces and key sets *)

Lemma quic_nonce_spec iv pn : length iv = 12%nat -> u64_ok pn -> quic_nonce iv pn = Rec.nonce_spec iv pn.
Proof.
  intros Hl Hp. transitivity (Rec.nonce_of (RecDir [] iv pn)); [|by apply (Rec.nonce_of_spec (RecDir [] iv pn))].
  unfold quic_nonce, Rec.nonce_of. cbn [d_iv d_seq]. f_equal. rewrite take_ge by (unfold AEAD_NONCE; lia). unfold AEAD_NONCE. do 12 (destruct iv as [|? iv]; [discriminate Hl|]). destruct iv; [|discriminate Hl]. done.
Qed.

Lemma key_set_select_spec kp pk pn lowest : 0 <= kp <= 1 -> 0 <= pk <= 1 -> u64_ok pn -> u64_ok lowest ->
  quic_key_set_select kp pk pn lowest = key_set_spec kp pk pn lowest.
Proof.
  intros Hk Hp Hn Hl. unfold quic_key_set_select, key_set_spec. rewrite below_mask_spec by done.
  assert (Hkc : kp = 0 \/ kp = 1) by lia. assert (Hpc : pk = 0 \/ pk = 1) by lia.
  destruct Hkc as [-> | ->], Hpc as [-> | ->], (pn <? lowest); reflexivity.
Qed.

Definition keys_ok (k : quic_keys) : Prop :=
  bytes_ok (k_key k) /\ length (k_key k) = 32%nat /\ bytes_ok (k_iv k) /\ length (k_iv k) = 12%nat.

Lemma or_masked_none out set : or_masked out set 0 = out.
Proof. unfold or_masked. apply list_eq. intros i. rewrite list_lookup_imap. destruct (out !! i); [|done]. cbn. by rewrite Z.land_0_r, Z.lor_0_r. Qed.

Lemma or_masked_all set n : bytes_ok set -> length set = n -> or_masked (replicate n 0) set 255 = set.
Proof.
  intros Hb <-. unfold or_masked. apply list_eq. intros i. rewrite list_lookup_imap. destruct (set !! i) as [b|] eqn:E.
  - assert (Hi : (i < length set)%nat) by by eapply lookup_lt_Some. rewrite lookup_replicate_2 by done. cbn.
    rewrite (list_lookup_total_correct _ _ _ E). rewrite (land_mask 8) by done. f_equal. apply u8_small.
    rewrite Forall_lookup in Hb. by apply (Hb i).
  - rewrite (proj1 (lookup_replicate_None _ _ _)); [done|]. by apply lookup_ge_None.
Qed.

(** The masked loop picks the set it was told to. *)
Lemma keys_select_spec s0 s1 s2 selected : keys_ok s0 -> keys_ok s1 -> keys_ok s2 -> 0 <= selected <= 2 ->
  quic_keys_select [s0; s1; s2] selected = [s0; s1; s2] !!! Z.to_nat selected.
Proof.
  intros (A1 & A2 & A3 & A4) (B1 & B2 & B3 & B4) (C1 & C2 & C3 & C4) Hs. unfold quic_keys_select. cbn [seq CH_QUIC_KEY_SETS foldl k_key k_iv].
  rewrite !set_in_use_spec by (unfold byte_ok; try apply u8_range; lia).
  assert (Hc : selected = 0 \/ selected = 1 \/ selected = 2) by lia.
  destruct Hc as [-> | [-> | ->]]; cbn [Z.to_nat];
    repeat match goal with |- context [u8 (Z.of_nat ?i) =? ?j] => let v := eval vm_compute in (u8 (Z.of_nat i) =? j) in change (u8 (Z.of_nat i) =? j) with v end;
    cbv iota; rewrite ?or_masked_none, ?or_masked_all by done; [destruct s0|destruct s1|destruct s2]; done.
Qed.

(** ** Lemmas: packets *)

Section Packets.
Context {O : AeadOps} {L : AeadLaws O}.

(** Byte 0 as the sender writes it. *)
Definition phased (level key_phase b0 : Z) : Z :=
  if (level =? CH_LEVEL_APPLICATION) then u8 ((b0 .& Z.lnot QUIC_KEY_PHASE_BIT) .| (u8 ((key_phase .& 1) <<32 2) .& QUIC_KEY_PHASE_BIT)) else b0.

(** The bytes of a protected packet, from those before header protection. *)
Definition protected (h : list Z) (level : Z) (pn_off n : nat) (pkt : list Z) : list Z :=
  quic_header_protect pkt pn_off n level (quic_hp_mask h (take QUIC_HP_SAMPLE_LEN (drop (pn_off + QUIC_PN_MAX_LEN) pkt))).

(** A header: its first byte, what precedes the packet number, and the packet
    number's [n] bytes. *)
Definition header_ok (b0 : Z) (a f : list Z) (n : nat) : Prop :=
  byte_ok b0 /\ bytes_ok a /\ bytes_ok f /\ length f = n /\ (1 <= n <= 4)%nat.

Lemma phased_ok level kp b0 : byte_ok b0 -> byte_ok (phased level kp b0).
Proof. intros Hb. unfold phased. destruct (_ =? _); [apply u8_range|done]. Qed.

(** Where the packet number field and the sample fall in a sealed packet. *)
Lemma packet_split (b0 : Z) (a f ct tag : list Z) n : length f = n -> (1 <= n <= 4)%nat -> (4 - n <= length ct)%nat -> length tag = 16%nat ->
  let xs := f ++ take (4 - n) ct in let r := drop (4 - n) ct ++ tag in
  (b0 :: a ++ f) ++ ct ++ tag = b0 :: a ++ xs ++ r /\ length xs = 4%nat /\ (16 <= length r)%nat /\ take n xs = f.
Proof.
  intros Hf Hn Hc Ht xs r. subst xs r. split_and!.
  - cbn [app]. f_equal. rewrite <- !app_assoc. do 2 f_equal. rewrite app_assoc, take_drop. done.
  - rewrite length_app, length_take. lia.
  - rewrite length_app. lia.
  - rewrite <- Hf. apply take_app_length.
Qed.

(** The writer's copy of the header. *)
Lemma header_copy out cap (b : Z) (rest : list Z) : (S (length rest) <= cap)%nat -> (cap <= length out)%nat ->
  let w := wb_bytes (wb_u8 (wb_init out cap) b) rest in
  w_err w = false /\ take (S (length rest)) (w_p w) = b :: rest /\ length (w_p w) = length out.
Proof.
  intros Hc Ho w. pose proof (wb_init_inv out cap Ho) as H0. pose proof (wb_u8_appended _ b H0) as H1.
  pose proof (wb_bytes_appended _ rest (proj1 H1)) as H2. pose proof (appended_app _ _ _ _ _ H1 H2) as (Hi & Ec & _ & El & _ & _ & Hw).
  fold w in Hi, Ec, El, Hw. assert (He : w_err w = false).
  { destruct (w_err w); [|done]. destruct Hw as [Hw|Hw]; [done|]. cbn in Hw. lia. }
  rewrite He in Hw. destruct Hw as (_ & _ & Hw). split; [done|]. split; [|exact El]. change (written w = b :: rest) in Hw.
  assert (Hn : w_len w = S (length rest)).
  { apply (f_equal length) in Hw. unfold written in Hw. rewrite length_take in Hw. cbn [length] in Hw. destruct Hi as [? ?]. cbn in Ec. lia. }
  by rewrite <- Hn.
Qed.

Lemma quic_seal_packet k h level kp pn b0 a f n pt out cap :
  keys_ok k -> header_ok b0 a f n -> bytes_ok pt -> u64_ok pn -> (4 - n <= length pt)%nat ->
  (1 + length a + n + length pt + 16 <= cap)%nat -> (cap <= length out)%nat ->
  let hdr := phased level kp b0 :: a ++ f in
  exists ct tag, seal (k_key k) (Rec.nonce_spec (k_iv k) pn) hdr pt = Some (ct, tag) /\
    length ct = length pt /\ bytes_ok ct /\ length tag = 16%nat /\ bytes_ok tag /\
    quic_packet_seal k h level kp pn n (b0 :: a ++ f) pt out cap = Some (inr (protected h level (1 + length a) n (hdr ++ ct ++ tag))).
Proof.
  intros (Kb & Kl & Ib & Il) (Hb0 & Ha & Hf & Hfl & Hn) Hpt Hpn Hpl Hcap Hout hdr.
  assert (Hhdr : bytes_ok hdr) by (constructor; [by apply phased_ok|by apply Forall_app]).
  destruct (Rec.nonce_spec_ok (k_iv k) pn Ib Il) as [Nb _].
  destruct (seal_total (k_key k) (Rec.nonce_spec (k_iv k) pn) hdr pt Kb Kl Nb Hhdr Hpt) as (ct & tag & Es & Hcl & Hcb & Htl & Htb).
  exists ct, tag. do 5 (split; [done|]). unfold quic_packet_seal, AEAD_TAG, QUIC_PN_MAX_LEN.
  assert (Hl : length (b0 :: a ++ f) = (1 + length a + n)%nat) by (cbn [length]; rewrite length_app; lia). rewrite Hl.
  destruct (Nat.eqb_spec n 0); [lia|]. destruct (Nat.ltb_spec 4 n); [lia|]. destruct (Nat.ltb_spec (1 + length a + n) n); [lia|]. cbn [orb].
  destruct (Nat.ltb_spec (length pt) (4 - n)); [lia|]. destruct (Nat.ltb_spec cap 16); [lia|].
  destruct (Nat.ltb_spec (cap - 16) (length pt)); [lia|]. destruct (Nat.ltb_spec (cap - 16 - length pt) (1 + length a + n)); [lia|]. cbn [orb].
  change ((b0 :: a ++ f) !!! 0%nat) with b0. change (drop 1 (b0 :: a ++ f)) with (a ++ f).
  assert (Eb : u8 ((b0 .& Z.lnot (if level =? CH_LEVEL_APPLICATION then QUIC_KEY_PHASE_BIT else 0)) .|
      (u8 ((kp .& 1) <<32 QUIC_KEY_PHASE_SHIFT) .& (if level =? CH_LEVEL_APPLICATION then QUIC_KEY_PHASE_BIT else 0))) = phased level kp b0).
  { unfold phased. destruct (level =? CH_LEVEL_APPLICATION); [done|]. rewrite Z.land_0_r, Z.lor_0_r. change (Z.lnot 0) with (-1). rewrite Z.land_m1_r. by apply u8_small. }
  rewrite Eb. destruct (header_copy out cap (phased level kp b0) (a ++ f)) as (He & Ht & Hp); [rewrite length_app; lia|done|].
  set (w := wb_bytes _ (a ++ f)) in *. rewrite He. replace (S (length (a ++ f))) with (1 + length a + n)%nat in Ht by (rewrite length_app; lia).
  rewrite Ht, quic_nonce_spec by done. fold hdr. unfold seal_body. rewrite Es. cbn [mbind option_bind fst snd].
  unfold store_bytes. rewrite Ht. fold hdr. set (junk := drop _ (w_p w)).
  replace (1 + length a + n - n)%nat with (1 + length a)%nat by lia.
  destruct (packet_split (phased level kp b0) a f ct tag n Hfl Hn ltac:(lia) Htl) as (Esp & Hxs & Hr & _). fold hdr in Esp.
  set (xs := f ++ take (4 - n) ct) in *. set (r := drop (4 - n) ct ++ tag) in *.
  assert (Ej : hdr ++ (ct ++ tag) ++ junk = phased level kp b0 :: a ++ xs ++ (r ++ junk)).
  { rewrite app_assoc. rewrite Esp. cbn [app]. by rewrite <- !app_assoc. }
  rewrite Ej, sample_at by done. unfold protected. rewrite Esp, sample_at by done. unfold QUIC_HP_SAMPLE_LEN. rewrite take_app_le by lia.
  destruct (hp_mask_ok h (take 16 r)) as [Mb Ml]. rewrite !protect_at by done.
  do 2 f_equal. rewrite !app_comm_cons, !app_assoc. apply take_app_length'.
  rewrite <- !app_assoc, <- !app_comm_cons. cbn [length]. rewrite !length_app, (length_mask_first n xs) by (rewrite ?length_drop; lia).
  unfold r. rewrite length_app, length_drop. lia.
Qed.

(** Opening the payload of an unprotected packet. *)
Lemma open_payload_at k hdr ct tag pn : keys_ok k -> bytes_ok hdr -> bytes_ok ct -> bytes_ok tag -> length tag = 16%nat -> u64_ok pn ->
  exists r, open_payload k (hdr ++ ct ++ tag) (length hdr) pn =
      Some (match r with Some pt => (hdr ++ pt ++ tag, Some (length ct)) | None => (hdr ++ ct ++ tag, None) end) /\
    (forall pt, bytes_ok pt -> r = Some pt <-> seal (k_key k) (Rec.nonce_spec (k_iv k) pn) hdr pt = Some (ct, tag)) /\
    (forall pt, r = Some pt -> bytes_ok pt /\ length pt = length ct).
Proof.
  intros (Kb & Kl & Ib & Il) Hh Hc Ht Htl Hpn. destruct (Rec.nonce_spec_ok (k_iv k) pn Ib Il) as [Nb _].
  destruct (open_iff_seal (k_key k) (Rec.nonce_spec (k_iv k) pn) hdr ct tag Kb Kl Nb Hh Hc Htl Ht) as (r & Er & Hr).
  exists r. split; [|split; [done|]].
  - unfold open_payload, open_body. rewrite !length_app, Htl.
    replace (length hdr + (length ct + 16) - length hdr - AEAD_TAG)%nat with (length ct) by (unfold AEAD_TAG; lia).
    rewrite take_app_length, drop_app_length, take_app_length, drop_app_length. unfold AEAD_TAG. rewrite take_ge by lia.
    rewrite quic_nonce_spec by done. rewrite Er. cbn [mbind option_bind]. destruct r as [pt|]; [|done].
    destruct (open_bytes (k_key k) (Rec.nonce_spec (k_iv k) pn) hdr ct tag pt Kb Kl Nb Hh Hc Htl Ht Er) as [_ Hpl].
    unfold store_bytes. rewrite take_app_length. do 3 f_equal. f_equal. rewrite app_assoc. apply drop_app_length'. rewrite length_app. lia.
  - intros pt ->. by apply (open_bytes (k_key k) (Rec.nonce_spec (k_iv k) pn) hdr ct tag).
Qed.

Lemma phased_bits level kp b0 : byte_ok b0 -> 0 <= kp <= 1 ->
  phased level kp b0 .& 3 = b0 .& 3 /\
  (level = CH_LEVEL_APPLICATION -> u8 ((phased level kp b0 .& QUIC_KEY_PHASE_BIT) >> QUIC_KEY_PHASE_SHIFT) = kp).
Proof.
  intros Hb Hk. unfold phased. destruct (Z.eqb_spec level CH_LEVEL_APPLICATION) as [->|]; [|done].
  assert (Hall : forall kp, 0 <= kp <= 1 -> (let p := u8 ((b0 .& Z.lnot QUIC_KEY_PHASE_BIT) .| (u8 ((kp .& 1) <<32 2) .& QUIC_KEY_PHASE_BIT)) in
    (p .& 3 =? b0 .& 3) && (u8 ((p .& QUIC_KEY_PHASE_BIT) >> QUIC_KEY_PHASE_SHIFT) =? kp)) = true).
  { clear kp Hk. intros kp Hk. assert (Hc : kp = 0 \/ kp = 1) by lia. unfold byte_ok in Hb.
    destruct Hc as [-> | ->]; (eapply (forallb_below 256 (fun b0 => let p := u8 ((b0 .& Z.lnot QUIC_KEY_PHASE_BIT) .| (u8 ((_ .& 1) <<32 2) .& QUIC_KEY_PHASE_BIT)) in
      (p .& 3 =? b0 .& 3) && (u8 ((p .& QUIC_KEY_PHASE_BIT) >> QUIC_KEY_PHASE_SHIFT) =? _))); [vm_compute; reflexivity|lia]). }
  specialize (Hall kp Hk). cbv zeta in Hall. rewrite andb_true_iff, !Z.eqb_eq in Hall. destruct Hall as [H1 H2]. split; [exact H1|done].
Qed.

(** A sealed packet, unprotected by the receiver. *)
Lemma unprotect_sealed h level kp b0 a f n ct tag pn largest :
  header_ok b0 a f n -> 0 <= kp <= 1 -> b0 .& 3 = Z.of_nat n - 1 -> f = be_bytes n pn -> bytes_ok ct -> bytes_ok tag ->
  (4 - n <= length ct)%nat -> length tag = 16%nat -> 0 <= largest < 2 ^ 62 -> 0 <= pn < 2 ^ 62 ->
  largest + 1 - 2 ^ (8 * Z.of_nat n) / 2 < pn <= largest + 1 + 2 ^ (8 * Z.of_nat n) / 2 ->
  let pkt := (phased level kp b0 :: a ++ f) ++ ct ++ tag in
  unprotect_header h (protected h level (1 + length a) n pkt) (1 + length a) level largest = (pkt, Some (n, pn)).
Proof.
  intros (Hb0 & Ha & Hf & Hfl & Hn) Hk Hb3 Ef Hc Ht Hcl Htl Hl Hpn Hwin pkt.
  destruct (packet_split (phased level kp b0) a f ct tag n Hfl Hn Hcl Htl) as (Esp & Hxs & Hr & Etk). subst pkt. rewrite Esp.
  unfold protected. rewrite unprotect_protected; [|apply Forall_app; split; [done|by apply Forall_take]|done|done| |done].
  - rewrite Etk, Ef, be_val_bytes, pn_decode_spec by (done || apply Z.mod_pos_bound; lia). by rewrite decode_recovers.
  - destruct (phased_bits level kp b0 Hb0 Hk) as [E3 _]. rewrite E3, Hb3. lia.
Qed.

(** The packet a receiver unprotected is the one whose protection it got. *)
Lemma protect_unprotected h pkt pn_off level largest pkt' n pn : bytes_ok pkt -> (1 <= pn_off)%nat -> 0 <= largest < 2 ^ 62 ->
  unprotect_header h pkt pn_off level largest = (pkt', Some (n, pn)) ->
  pkt = protected h level pn_off n pkt' /\ bytes_ok pkt' /\ (1 <= n <= 4)%nat /\ (pn_off + n + 16 <= length pkt')%nat /\
  pn = DecodePacketNumber largest (be_val (take n (drop pn_off pkt'))) (8 * Z.of_nat n).
Proof.
  intros Hb Hoff Hl. unfold unprotect_header, QUIC_PN_MAX_LEN, QUIC_HP_SAMPLE_LEN. destruct (Nat.ltb_spec (length pkt) pn_off); [discriminate|].
  destruct (Nat.ltb_spec (length pkt - pn_off) (4 + 16)); [discriminate|]. cbn [orb]. intros E.
  destruct pkt as [|c0 pkt]; [cbn [length] in *; lia|]. set (a := take (pn_off - 1) pkt). set (ys := take 4 (drop (pn_off - 1) pkt)). set (r := drop 4 (drop (pn_off - 1) pkt)).
  assert (Ep : pkt = a ++ ys ++ r) by (subst a ys r; by rewrite !take_drop). cbn [length] in *.
  assert (La : pn_off = (1 + length a)%nat) by (subst a; rewrite length_take; lia).
  assert (Ly : length ys = 4%nat) by (subst ys; rewrite length_take, length_drop; lia).
  assert (Lr : (16 <= length r)%nat) by (subst r; rewrite !length_drop; lia).
  clearbody a ys r. subst pkt pn_off. apply Forall_cons in Hb as [Hc0 Hb]. rewrite !Forall_app in Hb. destruct Hb as (Ba & By & Br).
  rewrite sample_at in E by done. destruct (hp_mask_ok h (take 16 r)) as [Mb Ml]. set (mask := quic_hp_mask h (take 16 r)) in *.
  destruct (unprotect_at c0 a ys r level mask Ly Mb Ml) as [Eu Hn]. rewrite Eu in E. clear Eu.
  set (b0 := c0 .^ _) in *. set (k := (Z.to_nat (b0 .& 3) + 1)%nat) in *. set (xs := mask_first k ys (drop 1 mask)) in *.
  assert (Lx : length xs = 4%nat) by (apply length_mask_first; rewrite ?length_drop; lia).
  assert (Bx : bytes_ok xs).
  { apply Forall_app. split; [apply xor_bytes_ok; [by apply Forall_take|by apply Forall_drop]|by apply Forall_drop]. }
  assert (Bb : byte_ok b0).
  { subst b0. apply (lxor_bound 8); [lia|done|]. rewrite Z.land_comm. apply (land_bound 8); [lia|unfold first_byte_bits; destruct (_ =? _); vm_compute; done|].
    apply bytes_ok_total. done. }
  change (b0 :: a ++ xs ++ r) with ((b0 :: a) ++ xs ++ r) in E. change (1 + length a)%nat with (length (b0 :: a)) in E. rewrite pn_read_at in E by done.
  apply (f_equal snd) in E as E2. apply (f_equal fst) in E as E1. cbn [fst snd] in E1, E2. apply (f_equal (from_option id (0%nat, 0))) in E2. cbn [from_option id] in E2.
  apply (f_equal fst) in E2 as E3. apply (f_equal snd) in E2 as E4. cbn [fst snd] in E3, E4. subst pkt' n pn.
  split_and!; [| |lia|lia| |].
  - unfold protected, QUIC_HP_SAMPLE_LEN. cbn [app]. rewrite sample_at by done. fold mask. rewrite protect_at by done. subst xs.
    rewrite mask_first_twice by (rewrite ?length_drop; lia). f_equal. subst b0. symmetry. apply lxor_cancel.
  - constructor; [done|]. apply Forall_app. split; [done|]. by apply Forall_app.
  - cbn [app length]. rewrite !length_app. lia.
  - rewrite <- pn_decode_spec; [|done|done|].
    + do 2 f_equal. rewrite (drop_app_length' (b0 :: a)) by done. rewrite take_app_le by lia. done.
    + rewrite (drop_app_length' (b0 :: a)) by done. pose proof (be_val_bound (take k (xs ++ r)) ltac:(apply Forall_take, Forall_app; done)) as Hbd.
      rewrite length_take, length_app in Hbd. replace (k `min` (length xs + length r))%nat with k in Hbd by lia. exact Hbd.
Qed.

(** ** Properties *)

(** C17. Round trip: a packet sealed with a well-formed header (the packet number's
    low bytes at its end, their count in byte 0) is opened by a peer whose
    largest packet number is within half a window, to the same packet number
    and payload: at the Handshake level under the same keys, and at the
    application level whenever the set that RFC 9001 section 6.5's rule names
    holds those keys, with the sender's Key Phase bit in the header. *)
Theorem quic_packet_roundtrip k h level kp pn b0 a n pt out cap largest rp s0 s1 s2 lowest
    (Hk : keys_ok k) (Hh : header_ok b0 a (be_bytes n pn) n) (Hb3 : b0 .& 3 = Z.of_nat n - 1) (Hpt : bytes_ok pt)
    (Hkp : 0 <= kp <= 1) (Hrp : 0 <= rp <= 1) (Hpn : 0 <= pn < 2 ^ 62) (Hl : 0 <= largest < 2 ^ 62) (Hlow : u64_ok lowest)
    (Hwin : largest + 1 - 2 ^ (8 * Z.of_nat n) / 2 < pn <= largest + 1 + 2 ^ (8 * Z.of_nat n) / 2)
    (Hmin : (4 - n <= length pt)%nat) (Hcap : (1 + length a + n + length pt + 16 <= cap)%nat) (Hout : (cap <= length out)%nat)
    (Hsets : keys_ok s0 /\ keys_ok s1 /\ keys_ok s2) (Hset : [s0; s1; s2] !!! Z.to_nat (key_set_spec rp kp pn lowest) = k) :
  let hdr := phased level kp b0 :: a ++ be_bytes n pn in
  exists pkt tag, quic_packet_seal k h level kp pn n (b0 :: a ++ be_bytes n pn) pt out cap = Some (inr pkt) /\
    length pkt = (1 + length a + n + length pt + 16)%nat /\
    (level = CH_LEVEL_HANDSHAKE ->
       quic_packet_open_handshake k h pkt (1 + length a) largest = Some (hdr ++ pt ++ tag, Some (pn, length pt))) /\
    (level = CH_LEVEL_APPLICATION ->
       quic_packet_open_application [s0; s1; s2] h rp pkt (1 + length a) largest lowest =
       Some (hdr ++ pt ++ tag, Some (key_set_spec rp kp pn lowest, pn, length pt))).
Proof.
  intros hdr. destruct (quic_seal_packet k h level kp pn b0 a (be_bytes n pn) n pt out cap Hk Hh Hpt ltac:(unfold u64_ok; lia) Hmin Hcap Hout)
    as (ct & tag & Es & Hcl & Hcb & Htl & Htb & Eseal). fold hdr in Es, Eseal.
  exists (protected h level (1 + length a) n (hdr ++ ct ++ tag)), tag. split; [exact Eseal|].
  pose proof Hh as (Hb0 & Ha & Hf & Hfl & Hn). assert (Hhdr : bytes_ok hdr) by (constructor; [by apply phased_ok|by apply Forall_app]).
  assert (Hhl : length hdr = (1 + length a + n)%nat) by (subst hdr; cbn [length]; rewrite length_app; lia).
  pose proof (unprotect_sealed h level kp b0 a (be_bytes n pn) n ct tag pn largest Hh Hkp Hb3 eq_refl Hcb Htb ltac:(lia) Htl Hl Hpn Hwin) as Eu.
  cbv zeta in Eu. fold hdr in Eu.
  destruct (open_payload_at k hdr ct tag pn Hk Hhdr Hcb Htb Htl ltac:(unfold u64_ok; lia)) as (r & Eo & Hr & _).
  apply Hr in Es; [|done]. rewrite Es in Eo. rewrite Hhl in Eo. split_and!.
  - destruct (packet_split (phased level kp b0) a (be_bytes n pn) ct tag n Hfl Hn ltac:(lia) Htl) as (Esp & Hxs & Hr16 & _). fold hdr in Esp.
    unfold protected. rewrite Esp. match goal with |- context [quic_hp_mask h ?s] => destruct (hp_mask_ok h s) as [Mb Ml] end.
    rewrite protect_at by done. cbn [length]. rewrite !length_app, (length_mask_first n) by (rewrite ?length_drop; lia). rewrite length_drop. lia.
  - intros ->. unfold quic_packet_open_handshake. rewrite Eu, Eo. cbn [mbind option_bind fst snd]. by rewrite Hcl.
  - intros ->. unfold quic_packet_open_application. rewrite Eu. change ((hdr ++ ct ++ tag) !!! 0%nat) with (phased CH_LEVEL_APPLICATION kp b0).
    destruct (phased_bits CH_LEVEL_APPLICATION kp b0 Hb0 Hkp) as [_ Ep]. rewrite Ep by done.
    rewrite key_set_select_spec by (unfold u64_ok; lia || done).
    destruct Hsets as (H0 & H1 & H2). rewrite keys_select_spec; [|done|done|done|unfold key_set_spec; repeat case_match; vm_compute; split; discriminate].
    rewrite Hset, Eo. cbn [mbind option_bind fst snd]. by rewrite Hcl.
Qed.

(** The range of the figure: one past it only after the last packet number. *)
Lemma decode_range largest t n : (1 <= n <= 4)%nat -> 0 <= largest < 2 ^ 62 -> 0 <= t < 2 ^ (8 * Z.of_nat n) ->
  let w := 2 ^ (8 * Z.of_nat n) in let pn := DecodePacketNumber largest t (8 * Z.of_nat n) in
  if decide (largest = 2 ^ 62 - 1 /\ t <= w / 2) then pn = 2 ^ 62 + t else 0 <= pn < 2 ^ 62.
Proof.
  intros Hn Hl Ht w pn. subst pn. unfold DecodePacketNumber. fold w. fold w in Ht.
  assert (Hw : 2 ^ 62 = w * 2 ^ (62 - 8 * Z.of_nat n) /\ 256 <= w <= 2 ^ 32).
  { subst w. rewrite <- Z.pow_add_r by lia. split; [by replace (8 * Z.of_nat n + (62 - 8 * Z.of_nat n)) with 62 by lia|]. change 256 with (2 ^ 8). split; apply Z.pow_le_mono_r; lia. }
  destruct Hw as [E Hw]. set (m := 2 ^ (62 - 8 * Z.of_nat n)) in *. set (e := largest + 1). assert (He : 0 < e <= 2 ^ 62) by lia.
  pose proof (Z.div_mod e w ltac:(lia)) as Ed. pose proof (Z.mod_pos_bound e w ltac:(lia)) as Er. assert (Eh : w / 2 * 2 <= w) by dlia. assert (Hh : 0 <= w / 2) by dlia. assert (Hq0 : 0 <= e / w) by (apply Z.div_pos; lia).
  set (q := e / w) in *. set (r := e mod w) in *. set (h := w / 2) in *. clearbody q r h m w.
  replace (e - r + t) with (w * q + t) by lia.
  assert (Hlast : e = 2 ^ 62 -> q = m /\ r = 0).
  { intros Ee. assert (H : w * (m - q) = r) by lia. assert (m - q < 1) by nia. assert (0 <= m - q) by nia. assert (q = m) as -> by lia. split; [reflexivity|lia]. }
  assert (Hless : e < 2 ^ 62 -> w * q + w <= 2 ^ 62).
  { intros Ee. assert (q + 1 <= m) by nia. nia. }
  case_decide as Hx.
  - destruct Hx as [El Hth]. destruct (Hlast ltac:(lia)) as [-> ->].
    destruct (Z.leb_spec (w * m + t) (e - h)), (Z.ltb_spec (w * m + t) (2 ^ 62 - w)), (Z.ltb_spec (e + h) (w * m + t)), (Z.leb_spec w (w * m + t)); cbn [andb]; lia.
  - assert (Hq : q = m /\ r = 0 /\ h < t \/ w * q + w <= 2 ^ 62) by (destruct (Z.eq_dec e (2 ^ 62)) as [E2|E2]; [left; destruct (Hlast E2); lia|right; apply Hless; lia]).
    assert (0 <= w * q) by nia. set (A := w * q) in *. clearbody A.
    destruct (Z.leb_spec (A + t) (e - h)), (Z.ltb_spec (A + t) (2 ^ 62 - w)), (Z.ltb_spec (e + h) (A + t)), (Z.leb_spec w (A + t)); cbn [andb]; lia.
Qed.

(** C30. Packet numbers: the branch-free recovery is RFC 9000 appendix A.3's, for
    every packet number length and every truncated value; so it recovers each
    packet number within half a window of the next expected one.  Its result is a
    packet number, below 2^62, except where the largest processed is already
    2^62 - 1 and the truncated value is at most half a window: there both the
    figure and the code answer 2^62 plus that value, which the header of
    [quic_pn_decode] says they do not. *)
Theorem quic_pn_decode_is_rfc9000 largest n (Hn : (1 <= n <= 4)%nat) (Hl : 0 <= largest < 2 ^ 62) :
  (forall t, 0 <= t < 2 ^ (8 * Z.of_nat n) -> quic_pn_decode largest t n = DecodePacketNumber largest t (8 * Z.of_nat n)) /\
  (forall pn, 0 <= pn < 2 ^ 62 ->
     largest + 1 - 2 ^ (8 * Z.of_nat n) / 2 < pn <= largest + 1 + 2 ^ (8 * Z.of_nat n) / 2 ->
     quic_pn_decode largest (pn mod 2 ^ (8 * Z.of_nat n)) n = pn) /\
  (forall t, 0 <= t < 2 ^ (8 * Z.of_nat n) ->
     if decide (largest = 2 ^ 62 - 1 /\ t <= 2 ^ (8 * Z.of_nat n) / 2) then quic_pn_decode largest t n = 2 ^ 62 + t
     else 0 <= quic_pn_decode largest t n < 2 ^ 62).
Proof.
  split; [intros; by apply pn_decode_spec|]. split; [|intros t Ht; rewrite pn_decode_spec by done; by apply decode_range]. intros pn Hp Hw. rewrite pn_decode_spec; [by apply decode_recovers|done|done|].
  apply Z.mod_pos_bound. apply Z.pow_pos_nonneg; lia.
Qed.

(** C16. Authenticity: a packet opens at the Handshake level only when it is the
    header-protected form of a header, a ciphertext and a tag that the AEAD
    gives for a payload under these keys, the nonce of the recovered packet
    number and that header; then the buffer holds header, payload and tag.
    Every other packet is discarded, and no call fails an assertion. *)
Theorem quic_open_only_sealed k h pkt pn_off largest (Hk : keys_ok k) (Hb : bytes_ok pkt) (Hoff : (1 <= pn_off)%nat) (Hl : 0 <= largest < 2 ^ 62) :
  (exists pkt' r, quic_packet_open_handshake k h pkt pn_off largest = Some (pkt', r)) /\
  (forall pkt' pn len, quic_packet_open_handshake k h pkt pn_off largest = Some (pkt', Some (pn, len)) ->
     exists n hdr ct tag pt, (1 <= n <= 4)%nat /\ length hdr = (pn_off + n)%nat /\ length pt = len /\ bytes_ok pt /\
       pkt = protected h CH_LEVEL_HANDSHAKE pn_off n (hdr ++ ct ++ tag) /\
       pn = DecodePacketNumber largest (be_val (drop pn_off hdr)) (8 * Z.of_nat n) /\
       seal (k_key k) (Rec.nonce_spec (k_iv k) pn) hdr pt = Some (ct, tag) /\ pkt' = hdr ++ pt ++ tag).
Proof.
  unfold quic_packet_open_handshake. destruct (unprotect_header h pkt pn_off CH_LEVEL_HANDSHAKE largest) as [p1 [[n pn]|]] eqn:Eu.
  2:{ split; [by do 2 eexists|]. intros ? ? ? H. discriminate H. }
  apply protect_unprotected in Eu as (-> & Hb1 & Hn & Hlen & Hpn); [|done|done|done].
  set (hdr := take (pn_off + n) p1). set (ct := take (length p1 - (pn_off + n) - 16) (drop (pn_off + n) p1)).
  set (tag := drop (length p1 - (pn_off + n) - 16) (drop (pn_off + n) p1)).
  assert (Ep : p1 = hdr ++ ct ++ tag) by (subst hdr ct tag; by rewrite !take_drop).
  assert (Lh : length hdr = (pn_off + n)%nat) by (subst hdr; rewrite length_take; lia).
  assert (Lt : length tag = 16%nat) by (subst tag; rewrite !length_drop; lia).
  assert (Hpl : u64_ok pn).
  { subst pn. rewrite <- pn_decode_spec; [unfold quic_pn_decode; apply u64_range|done|done|].
    pose proof (be_val_bound (take n (drop pn_off p1)) ltac:(by apply Forall_take, Forall_drop)) as Hbd. rewrite length_take, length_drop in Hbd.
    replace (n `min` (length p1 - pn_off))%nat with n in Hbd by lia. exact Hbd. }
  assert (Ef : take n (drop pn_off p1) = drop pn_off hdr) by (subst hdr; by rewrite skipn_firstn_comm, Nat.add_comm, Nat.add_sub).
  rewrite Ef in Hpn. clearbody hdr ct tag. subst p1. rewrite !Forall_app in Hb1. destruct Hb1 as (Bh & Bc & Bt).
  rewrite <- Lh. destruct (open_payload_at k hdr ct tag pn Hk Bh Bc Bt Lt Hpl) as (r & Eo & Hr & Hrb). rewrite Eo. cbn [mbind option_bind].
  destruct r as [pt|]; cbn [fst snd].
  - split; [by do 2 eexists|]. intros pkt' pn' len H. destruct (Hrb pt eq_refl) as [Bp Lp]. exists n, hdr, ct, tag, pt.
    assert (E1 : hdr ++ pt ++ tag = pkt' /\ pn = pn' /\ length ct = len) by by simplify_eq. destruct E1 as (<- & <- & <-).
    split_and!; try done; try lia. by apply Hr.
  - split; [by do 2 eexists|]. intros ? ? ? H. discriminate H.
Qed.
End Packets.

#[local] Existing Instance Aead.chacha20_poly1305.
#[local] Existing Instance Aead.chacha20_poly1305_laws.

Definition sample_keys : quic_keys := QuicKeys (replicate 32 1) (replicate 12 2).
Lemma sample_keys_ok : keys_ok sample_keys.
Proof. split_and!; try done; by apply Forall_replicate. Qed.

Lemma quic_packet_roundtrip_witness : exists pkt tag,
  quic_packet_seal sample_keys (replicate 32 3) CH_LEVEL_HANDSHAKE 0 5 2 (1 :: [9] ++ be_bytes 2 5) [7; 8] (replicate 60 0) 60 = Some (inr pkt) /\
  quic_packet_open_handshake sample_keys (replicate 32 3) pkt 2 4 = Some ((1 :: [9] ++ be_bytes 2 5) ++ [7; 8] ++ tag, Some (5, 2%nat)).
Proof.
  destruct (quic_packet_roundtrip (O := Aead.chacha20_poly1305) sample_keys (replicate 32 3) CH_LEVEL_HANDSHAKE 0 5 1 [9] 2 [7; 8] (replicate 60 0) 60 4 0
    sample_keys sample_keys sample_keys 0) as (pkt & tag & E1 & _ & E2 & _).
  - apply sample_keys_ok.
  - split_and!; try (by vm_compute); try lia; [by rewrite Forall_singleton; vm_compute|apply be_bytes_ok].
  - done.
  - rewrite !Forall_cons, Forall_nil. by vm_compute.
  - lia.
  - lia.
  - lia.
  - lia.
  - unfold u64_ok. lia.
  - vm_compute. split; [done|discriminate].
  - cbn. lia.
  - cbn. lia.
  - rewrite length_replicate. lia.
  - split_and!; apply sample_keys_ok.
  - done.
  - exists pkt, tag. split; [exact E1|]. apply E2. done.
Defined.

Lemma quic_pn_decode_is_rfc9000_witness : quic_pn_decode 0xa82f30ea (0xa82f9b32 mod 2 ^ (8 * Z.of_nat 2)) 2 = 0xa82f9b32 /\
  quic_pn_decode (2 ^ 62 - 1) 0 1 = 2 ^ 62.
Proof.
  split.
  - apply (quic_pn_decode_is_rfc9000 0xa82f30ea 2); [lia|lia|lia|]. vm_compute. split; [done|discriminate].
  - destruct (quic_pn_decode_is_rfc9000 (2 ^ 62 - 1) 1) as (_ & _ & H); [lia|lia|]. specialize (H 0 ltac:(lia)).
    rewrite decide_True in H; [exact H|]. split; [reflexivity|]. vm_compute. discriminate.
Defined.

Lemma quic_open_only_sealed_witness : exists pkt' r,
  quic_packet_open_handshake sample_keys (replicate 32 3) (replicate 40 0) 2 4 = Some (pkt', r).
Proof.
  apply (quic_open_only_sealed (O := Aead.chacha20_poly1305) sample_keys (replicate 32 3) (replicate 40 0) 2 4);
    [apply sample_keys_ok|by apply Forall_replicate|lia|lia].
Defined.
End Quic.
