(* ===== verification/Cookie.v ===== *)
(** * Stateless server tokens: src/src/srv_cookie.c, quic_token.c

    The HelloRetryRequest cookie and the QUIC Retry token: what a server hands
    a client under a MAC and later takes back without having kept it.  Each
    opener is shown to accept exactly what its mint writes. *)

From S2P Require Import Prelude Ct Buf Reader MdHash Sha256 Sha512 Hkdf Build Wire.
Import Sha256 Sha512 Hkdf.
Local Open Scope Z_scope.
Local Open Scope word_scope.

(** ** Shared lemmas *)

(** A sequence of writes that fits is what it wrote. *)
Lemma writes_fit ops out cap : (cap <= length out)%nat -> (length (concat (wire <$> ops)) <= cap)%nat ->
  let w := foldl run_write (wb_init out cap) ops in
  w_err w = false /\ written w = concat (wire <$> ops) /\ w_len w = length (concat (wire <$> ops)) /\ w_cap w = cap /\ wb_inv w.
Proof.
  intros Ho Hf w. pose proof (run_writes_appended ops _ (wb_init_inv out cap Ho)) as (Hi & Ec & _ & El & _ & _ & Hw). fold w in Hi, Ec, El, Hw.
  assert (He : w_err w = false).
  { destruct (w_err w); [|done]. destruct Hw as [Hw|Hw]; [done|]. cbn in Hw. lia. }
  rewrite He in Hw. destruct Hw as (_ & _ & Hw). change (written w = concat (wire <$> ops)) in Hw. split_and!; try done.
  rewrite <- Hw. unfold written. rewrite length_take. destruct Hi as [? ?]. lia.
Qed.

(** One more field after them. *)
Lemma written_then w src : wb_inv w -> w_err w = false -> (w_len w + length src <= w_cap w)%nat ->
  let w' := wb_bytes w src in w_err w' = false /\ written w' = written w ++ src /\ w_len w' = (w_len w + length src)%nat.
Proof.
  intros Hi He Hf w'. destruct (wb_bytes_appended w src Hi) as (Hi' & Ec & _ & El & _ & _ & Hw). fold w' in Hi', Ec, El, Hw.
  assert (He' : w_err w' = false).
  { destruct (w_err w'); [|done]. destruct Hw as [Hw|Hw]; [congruence|lia]. }
  rewrite He' in Hw. destruct Hw as (_ & _ & Hw). split_and!; try done.
  apply (f_equal length) in Hw. unfold written in Hw. rewrite length_app, !length_take in Hw. destruct Hi, Hi'. lia.
Qed.

(** The comparison of a tag with the one computed. *)
Lemma memeq_iff a b n : bytes_ok a -> bytes_ok b -> length a = n -> length b = n -> negb (ct_memeq a b n =? 0) = true <-> a = b.
Proof.
  intros Ha Hb La Lb. rewrite ct_memeq_spec by (done || lia). rewrite !take_ge by lia. rewrite <- bytes_eqb_eq. by destruct (bytes_eqb a b).
Qed.

Lemma hmac_sha256_shape key msg : length (hmac_sha256 key msg) = SHA256_LEN /\ bytes_ok (hmac_sha256 key msg).
Proof. rewrite hmac_sha256_spec. apply Sha256.sha256_spec_shape. Qed.

Module Cookie.
Section Cookies.
Context {build : HsBuild}.

Definition SRV_COOKIE_VERSION : Z := 1.
Definition SRV_COOKIE_HASH_MAX : nat := 48.
Definition SRV_COOKIE_MAC_LEN : nat := if CH_PROFILE_CNSA2 then SHA384_LEN else SHA256_LEN.
Definition SRV_COOKIE_HEAD : nat := 5.
Definition SRV_COOKIE_MAX : nat := 1 + 2 + 2 + SRV_COOKIE_HASH_MAX + SHA256_LEN + SRV_COOKIE_MAC_LEN.

Definition suite_hash_len (suite : Z) : nat :=
  if CH_PROFILE_CNSA2 then (if (suite =? SUITE_AES_256_GCM_SHA384) then SHA384_LEN else 0)
  else if CH_SUITE_AES_GCM && (suite =? SUITE_AES_256_GCM_SHA384) then SHA384_LEN
  else if CH_SUITE_AES_GCM && (suite =? SUITE_AES_128_GCM_SHA256) then SHA256_LEN
  else if (suite =? SUITE_CHACHA20_POLY1305_SHA256) then SHA256_LEN else 0.

Definition cookie_mac (key msg : list Z) : list Z := if CH_PROFILE_CNSA2 then hmac_sha384 key msg else hmac_sha256 key msg.

(** The cookie's bytes, [None] for a return of 0. *)
Definition srv_cookie_mint (key : list Z) (suite group : Z) (ch1_hash frozen out : list Z) (cap : nat) : option (list Z) :=
  let hash_len := length ch1_hash in
  if (hash_len <? SHA256_LEN)%nat || (SRV_COOKIE_HASH_MAX <? hash_len)%nat then None
  else
    let total := (SRV_COOKIE_HEAD + hash_len + SHA256_LEN + SRV_COOKIE_MAC_LEN)%nat in
    if (cap <? total)%nat then None
    else
      let w := wb_init out cap in
      let w := wb_u8 w SRV_COOKIE_VERSION in
      let w := wb_u16 w suite in
      let w := wb_u16 w group in
      let w := wb_bytes w ch1_hash in
      let w := wb_bytes w (take SHA256_LEN frozen) in
      let mac := cookie_mac key (take (w_len w) (w_p w)) in
      let w := wb_bytes w mac in
      if w_err w then None else Some (take (w_len w) (w_p w)).

(** suite, group, hash and frozen digest; [Fail] is CH_EPROTO. *)
Definition cookie_open (key cookie : list Z) : prog (Z * Z * list Z * list Z) :=
  version ← u8_;
  body_suite ← u16_;
  body_group ← u16_;
  e ← err_;
  guard_ (negb (e || negb (version =? SRV_COOKIE_VERSION)));;
  let body_hash_len := suite_hash_len body_suite in
  guard_ (negb (body_hash_len =? 0)%nat);;
  body_hash ← nbytes_ body_hash_len;
  body_frozen ← nbytes_ SHA256_LEN;
  mac ← nbytes_ SRV_COOKIE_MAC_LEN;
  e ← err_;
  n ← left_;
  guard_ (negb (e || negb (n =? 0)%nat));;
  match body_hash, body_frozen, mac with
  | Some body_hash, Some body_frozen, Some mac =>
      let want_mac := cookie_mac key (take (length cookie - SRV_COOKIE_MAC_LEN) cookie) in
      guard_ (negb (ct_memeq mac want_mac SRV_COOKIE_MAC_LEN =? 0));;
      Ret (body_suite, body_group, body_hash, body_frozen)
  | _, _, _ => Fail
  end.
Definition srv_cookie_open (key cookie : list Z) : option (Z * Z * list Z * list Z) := parse (cookie_open key cookie) cookie.

(** ** Reference *)

Definition cookie_body (suite group : Z) (h frozen : list Z) : list Z :=
  SRV_COOKIE_VERSION :: be_bytes 2 suite ++ be_bytes 2 group ++ h ++ frozen.
Definition cookie_of (key : list Z) (suite group : Z) (h frozen : list Z) : list Z :=
  let body := cookie_body suite group h frozen in body ++ cookie_mac key body.

(** ** Lemmas *)

Lemma mac_shape key msg : (length key <= 1000)%nat -> (length msg <= 1000)%nat ->
  length (cookie_mac key msg) = SRV_COOKIE_MAC_LEN /\ bytes_ok (cookie_mac key msg).
Proof.
  intros Hk Hm. unfold cookie_mac, SRV_COOKIE_MAC_LEN. destruct CH_PROFILE_CNSA2; [|apply hmac_sha256_shape].
  rewrite hmac_sha384_spec by lia. apply Sha512.sha384_spec_shape.
Qed.

Lemma suite_hash_range s : suite_hash_len s = 0%nat \/ suite_hash_len s = 32%nat \/ suite_hash_len s = 48%nat.
Proof. unfold suite_hash_len. repeat case_match; auto. Qed.

Lemma mac_len_range : (SRV_COOKIE_MAC_LEN <= 48)%nat.
Proof. unfold SRV_COOKIE_MAC_LEN, SHA384_LEN, SHA256_LEN. destruct CH_PROFILE_CNSA2; lia. Qed.

Lemma length_cookie_body s g h f : length (cookie_body s g h f) = (5 + length h + length f)%nat.
Proof. unfold cookie_body. cbn [length]. rewrite !length_app, !length_be_bytes. lia. Qed.

(** A cookie without its MAC is its body. *)
Lemma body_of_tail s g h f m n : length m = n ->
  take (length (SRV_COOKIE_VERSION :: be_bytes 2 s ++ be_bytes 2 g ++ h ++ f ++ m) - n) (SRV_COOKIE_VERSION :: be_bytes 2 s ++ be_bytes 2 g ++ h ++ f ++ m) = cookie_body s g h f.
Proof.
  intros <-. replace (SRV_COOKIE_VERSION :: be_bytes 2 s ++ be_bytes 2 g ++ h ++ f ++ m) with (cookie_body s g h f ++ m).
  - apply take_app_length'. rewrite length_app. lia.
  - unfold cookie_body. cbn [app]. by rewrite <- !app_assoc.
Qed.

Lemma cookie_split key s g h f :
  cookie_of key s g h f = SRV_COOKIE_VERSION :: be_bytes 2 s ++ be_bytes 2 g ++ h ++ f ++ cookie_mac key (cookie_body s g h f).
Proof. unfold cookie_of. cbv zeta. unfold cookie_body at 1. cbn [app]. by rewrite <- !app_assoc. Qed.

Lemma mint_writes key s g h f out cap : length key = 32%nat -> (32 <= length h <= 48)%nat -> length f = 32%nat -> (cap <= length out)%nat ->
  srv_cookie_mint key s g h f out cap =
  if (cap <? 5 + length h + 32 + SRV_COOKIE_MAC_LEN)%nat then None else Some (cookie_of key s g h f).
Proof.
  intros Hk Hh Hf Ho. unfold srv_cookie_mint, SHA256_LEN, SRV_COOKIE_HASH_MAX, SRV_COOKIE_HEAD.
  destruct (Nat.ltb_spec (length h) 32); [lia|]. destruct (Nat.ltb_spec 48 (length h)); [lia|]. cbn [orb].
  destruct (Nat.ltb_spec cap (5 + length h + 32 + SRV_COOKIE_MAC_LEN)) as [|Hc]; [done|]. rewrite (take_ge f) by lia.
  set (ops := [WrU8 SRV_COOKIE_VERSION; WrU16 s; WrU16 g; WrBytes h; WrBytes f]).
  assert (Eb : concat (wire <$> ops) = cookie_body s g h f) by (cbn; by rewrite app_nil_r).
  destruct (writes_fit ops out cap Ho) as (He & Hw & Hl & Ec & Hi); [rewrite Eb, length_cookie_body; lia|]. rewrite Eb in Hw, Hl.
  set (w := foldl run_write (wb_init out cap) ops) in *. change (wb_bytes (wb_bytes (wb_u16 (wb_u16 (wb_u8 (wb_init out cap) SRV_COOKIE_VERSION) s) g) h) f) with w.
  fold (written w). rewrite Hw. destruct (mac_shape key (cookie_body s g h f)) as [Ml _]; [lia|rewrite length_cookie_body; lia|].
  destruct (written_then w (cookie_mac key (cookie_body s g h f)) Hi He) as (He' & Hw' & _); [rewrite length_cookie_body in Hl; lia|].
  rewrite He'. fold (written (wb_bytes w (cookie_mac key (cookie_body s g h f)))). by rewrite Hw', Hw.
Qed.

Lemma open_iff key cookie s g h f : bytes_ok cookie -> length key = 32%nat ->
  srv_cookie_open key cookie = Some (s, g, h, f) <->
  cookie = cookie_of key s g h f /\ 0 <= s < 2 ^ 16 /\ 0 <= g < 2 ^ 16 /\ suite_hash_len s <> 0%nat /\ length h = suite_hash_len s /\ length f = 32%nat.
Proof.
  intros Hb Hk. unfold srv_cookie_open. rewrite parse_some by done. pose proof mac_len_range as Hml. pose proof (suite_hash_range s) as Hsr.
  unfold cookie_open. split.
  - intros (s' & H). rewrite runl_u8_iff in H by done. destruct H as (v & l1 & Hv & -> & H). apply Forall_cons in Hb as [_ Hb].
    rewrite runl_u16_iff in H by done. destruct H as (a & l2 & Ha & -> & H). apply Forall_app in Hb as [_ Hb].
    rewrite runl_u16_iff in H by (done || intros ?; cbn; by destruct v as [|[]|]). destruct H as (b & l3 & Hb' & -> & H). apply Forall_app in Hb as [_ Hb].
    rewrite runl_err, !runl_guard_some in H. cbn [is_err orb] in H. destruct H as (Ev & Es & H).
    rewrite negb_involutive, Z.eqb_eq in Ev. rewrite negb_true_iff, Nat.eqb_neq in Es. subst v.
    rewrite runl_nbytes_iff in H by done. destruct H as (h' & l4 & -> & Lh & H).
    rewrite runl_nbytes_iff in H by done. destruct H as (f' & l5 & -> & Lf & H).
    rewrite runl_nbytes_iff in H by done. destruct H as (m & l6 & -> & Lm & H).
    rewrite runl_err, runl_left, !runl_guard_some in H.
    cbn [is_err left_of orb] in H. destruct H as (E6 & Em & H). rewrite negb_involutive, Nat.eqb_eq in E6. destruct l6; [|discriminate].
    rewrite app_nil_r in *. injection H as -> -> -> -> _. rewrite body_of_tail in Em by done.
    rewrite !Forall_app in Hb. destruct Hb as (_ & _ & Hm). destruct (mac_shape key (cookie_body s g h f)) as [Ml Mb]; [lia|rewrite length_cookie_body; unfold SHA256_LEN in *; lia|].
    rewrite memeq_iff in Em by done. subst m. split_and!; try done; try apply Ha; try apply Hb'. 
    exact (eq_sym (cookie_split key s g h f)).
  - intros (-> & Hs & Hg & Hn & Lh & Lf). exists (Some []). 
    destruct (mac_shape key (cookie_body s g h f)) as [Ml Mb]; [lia|rewrite length_cookie_body; unfold SHA256_LEN in *; lia|].
    rewrite cookie_split, runl_u8_cons, !runl_u16_at, runl_err, !runl_guard_some by done. cbn [is_err orb].
    split; [done|]. split; [by rewrite negb_true_iff, Nat.eqb_neq|].
    apply runl_nbytes_some. do 2 eexists. split_and!; [reflexivity|done|]. apply runl_nbytes_some. do 2 eexists. split_and!; [reflexivity|done|].
    apply runl_nbytes_some. do 2 eexists. split_and!; [by rewrite app_nil_r|done|]. rewrite runl_err, runl_left, !runl_guard_some.
    split; [done|]. split; [|done]. rewrite body_of_tail by done. by apply memeq_iff.
Qed.

(** ** Properties *)

(** C25. The retry cookie is stateless and exact.  Whatever the output buffer,
    a capacity of [SRV_COOKIE_MAX] suffices to mint, and the server opens a
    cookie exactly when it is the bytes the mint writes under the same key for
    the suite, group, transcript hash and frozen digest reported, of a suite
    the build holds and with a hash of that suite's length: nothing of another
    shape, version, suite or length is opened. *)
Theorem cookie_open_exact key cookie s g h f out : bytes_ok cookie -> length key = 32%nat -> length out = SRV_COOKIE_MAX ->
  srv_cookie_open key cookie = Some (s, g, h, f) <->
  srv_cookie_mint key s g h f out SRV_COOKIE_MAX = Some cookie /\ 0 <= s < 2 ^ 16 /\ 0 <= g < 2 ^ 16 /\
  suite_hash_len s <> 0%nat /\ length h = suite_hash_len s /\ length f = 32%nat.
Proof.
  intros Hb Hk Ho. pose proof (suite_hash_range s) as Hr. rewrite open_iff by done. split; intros (E & Hs & Hg & Hn & Hh & Hf).
  all: assert (length h <= 48)%nat by lia; pose proof (mint_writes key s g h f out SRV_COOKIE_MAX Hk ltac:(lia) Hf ltac:(lia)) as Em; destruct (Nat.ltb_spec SRV_COOKIE_MAX (5 + length h + 32 + SRV_COOKIE_MAC_LEN)) as [Hc|_];
    [unfold SRV_COOKIE_MAX, SRV_COOKIE_HASH_MAX, SHA256_LEN in Hc; lia|].
  - subst cookie. exact (conj Em (conj Hs (conj Hg (conj Hn (conj Hh Hf))))).
  - rewrite E in Em. injection Em as ->. exact (conj eq_refl (conj Hs (conj Hg (conj Hn (conj Hh Hf))))).
Qed.
End Cookies.

Lemma cookie_open_exact_witness :
  let key := replicate 32 7 in let h := replicate 32 1 in let f := replicate 32 2 in
  srv_cookie_open (build := raw_build) key (default [] (srv_cookie_mint (build := raw_build) key 0x1303 0x1d h f (replicate 117 0) 117)) = Some (0x1303, 0x1d, h, f).
Proof.
  apply (cookie_open_exact (build := raw_build) _ _ _ _ _ _ (replicate 117 0)); [apply (bool_decide_unpack _); vm_compute; exact I|reflexivity|reflexivity|].
  split_and!; [vm_compute; reflexivity|lia..|discriminate|reflexivity|reflexivity].
Defined.
End Cookie.

(** ** The QUIC Retry token: src/src/quic_token.c *)
Module Token.

Definition token_label : list Z := str "chapulin quic token".
Definition CH_QUIC_DCID_MAX : nat := 20.
Definition CH_QUIC_TOKEN_ADDRESS_MAX : nat := 18.
Definition CH_QUIC_TOKEN_MAX : nat := 1 + 8 + 1 + CH_QUIC_DCID_MAX + 1 + CH_QUIC_DCID_MAX + SHA256_LEN.
Definition QUIC_TOKEN_INSTANT_LEN : nat := 8.
Definition QUIC_TOKEN_FIXED : nat := 1 + QUIC_TOKEN_INSTANT_LEN + 1 + 1 + SHA256_LEN.
Definition QUIC_TOKEN_VERSION_LEN : nat := 4.
Definition QUIC_TOKEN_TAG_INPUT_MAX : nat :=
  length token_label + QUIC_TOKEN_VERSION_LEN + 1 + CH_QUIC_TOKEN_ADDRESS_MAX + CH_QUIC_TOKEN_MAX - SHA256_LEN.
Definition QUIC_TOKEN_TYPE_RETRY : Z := 0x01.
Definition CH_QUIC_VERSION_1 : Z := 0x00000001.
Definition CH_QUIC_VERSION_2 : Z := 0x6B3343CF.

Definition quic_version_derived (version : Z) : bool := (version =? CH_QUIC_VERSION_1) || (version =? CH_QUIC_VERSION_2).

(** Each array holds [CH_QUIC_DCID_MAX] bytes, of which the length counts the first. *)
Record ch_quic_retry_cids := {
  original_dcid : list Z;
  original_dcid_len : nat;
  retry_scid : list Z;
  retry_scid_len : nat;
}.

Definition arguments_ok (version : Z) (address_len : nat) : bool :=
  (0 <? address_len)%nat && (address_len <=? CH_QUIC_TOKEN_ADDRESS_MAX)%nat && quic_version_derived version.

Definition write_instant (w : wbuf) (seconds : Z) : wbuf :=
  foldl (fun w shift => wb_u8 w (u8 (seconds >> shift))) w [56; 48; 40; 32; 24; 16; 8; 0].

Fixpoint read_instant_from (i : nat) (seconds : Z) : prog Z :=
  match i with
  | O => Ret seconds
  | S i => b ← u8_; read_instant_from i ((seconds <<64 8) .| b)
  end.
Definition read_instant : prog Z := read_instant_from QUIC_TOKEN_INSTANT_LEN 0.

(** [None] is the failed assertion. *)
Definition token_tag (key : list Z) (version : Z) (address body : list Z) : option (list Z) :=
  let input := replicate QUIC_TOKEN_TAG_INPUT_MAX 0 in
  let w := wb_init input QUIC_TOKEN_TAG_INPUT_MAX in
  let w := wb_bytes w token_label in
  let w := wb_u16 w (u16 (version >> 16)) in
  let w := wb_u16 w (u16 version) in
  let w := wb_u8 w (u8 (Z.of_nat (length address))) in
  let w := wb_bytes w address in
  let w := wb_bytes w body in
  if w_err w then None else Some (hmac_sha256 key (take (w_len w) (w_p w))).

(** The token, or the error code; [None] is a failed assertion. *)
Definition ch_srv_quic_token_mint (key : list Z) (version : Z) (address : list Z) (cids : ch_quic_retry_cids) (issued_seconds : Z)
    (out : list Z) (cap : nat) : option (outcome (list Z)) :=
  if negb (arguments_ok version (length address)) || (CH_QUIC_DCID_MAX <? original_dcid_len cids)%nat || (CH_QUIC_DCID_MAX <? retry_scid_len cids)%nat
  then Some (Refuse CH_EINVAL None)
  else
    let total := (QUIC_TOKEN_FIXED + original_dcid_len cids + retry_scid_len cids)%nat in
    if (cap <? total)%nat then Some (Refuse CH_ECAP None)
    else
      let w := wb_init out cap in
      let w := wb_u8 w QUIC_TOKEN_TYPE_RETRY in
      let w := write_instant w issued_seconds in
      let w := wb_u8 w (Z.of_nat (original_dcid_len cids)) in
      let w := wb_bytes w (take (original_dcid_len cids) (original_dcid cids)) in
      let w := wb_u8 w (Z.of_nat (retry_scid_len cids)) in
      let w := wb_bytes w (take (retry_scid_len cids) (retry_scid cids)) in
      tag ← token_tag key version address (take (w_len w) (w_p w));
      let w := wb_bytes w tag in
      if negb (w_err w) && (w_len w =? total)%nat then Some (Done (take (w_len w) (w_p w))) else None.

(** [cids] as it is on entry; what it becomes, or the error code.  [Fail] is a
    failed assertion. *)
Definition token_check (key : list Z) (version : Z) (token address : list Z) (now_seconds lifetime_seconds : Z) (cids : ch_quic_retry_cids) :
    prog (outcome ch_quic_retry_cids) :=
  if negb (arguments_ok version (length address)) then Ret (Refuse CH_EINVAL None)
  else
    type ← u8_;
    e ← err_;
    if e || negb (type =? QUIC_TOKEN_TYPE_RETRY) then Ret (Refuse CH_EPROTO None)
    else
      issued_seconds ← read_instant;
      odl ← u8_;
      od ← nbytes_ (Z.to_nat odl);
      rsl ← u8_;
      rs ← nbytes_ (Z.to_nat rsl);
      tag ← nbytes_ SHA256_LEN;
      e ← err_;
      n ← left_;
      if e || negb (n =? 0)%nat || (CH_QUIC_DCID_MAX <? Z.to_nat odl)%nat || (CH_QUIC_DCID_MAX <? Z.to_nat rsl)%nat
      then Ret (Refuse CH_EAUTH None)
      else
        match token_tag key version address (take (length token - SHA256_LEN) token), od, rs, tag with
        | Some want, Some od, Some rs, Some tag =>
            if ct_memeq tag want SHA256_LEN =? 0 then Ret (Refuse CH_EAUTH None)
            else if (now_seconds <? issued_seconds) || (lifetime_seconds <? (now_seconds -64 issued_seconds)) then Ret (Refuse CH_EAUTH None)
            else Ret (Done {| original_dcid := store_bytes (original_dcid cids) 0 od; original_dcid_len := Z.to_nat odl;
                              retry_scid := store_bytes (retry_scid cids) 0 rs; retry_scid_len := Z.to_nat rsl |})
        | _, _, _, _ => Fail
        end.
Definition ch_srv_quic_token_check (key : list Z) (version : Z) (token address : list Z) (now_seconds lifetime_seconds : Z) (cids : ch_quic_retry_cids) :
    option (outcome ch_quic_retry_cids) := parse (token_check key version token address now_seconds lifetime_seconds cids) token.

(** ** Reference *)

Definition token_body (issued : Z) (od rs : list Z) : list Z :=
  QUIC_TOKEN_TYPE_RETRY :: be_bytes 8 issued ++ Z.of_nat (length od) :: od ++ Z.of_nat (length rs) :: rs.
Definition tag_input (version : Z) (address body : list Z) : list Z :=
  token_label ++ be_bytes 4 version ++ Z.of_nat (length address) :: address ++ body.
Definition token_of (key : list Z) (version : Z) (address : list Z) (issued : Z) (od rs : list Z) : list Z :=
  let body := token_body issued od rs in body ++ hmac_sha256 key (tag_input version address body).

(** ** Lemmas *)

Lemma instant_wire seconds : concat (wire <$> ((fun shift => WrU8 (u8 (seconds >> shift))) <$> [56; 48; 40; 32; 24; 16; 8; 0])) = be_bytes 8 seconds.
Proof.
  rewrite !fmap_cons. cbn [wire concat app fmap list_fmap]. unfold be_bytes. cbn [le_bytes]. rewrite !Z.div_div by lia.
  rewrite !Z.shiftr_div_pow2, Z.pow_0_r, Z.div_1_r by lia. reflexivity.
Qed.

Lemma write_instant_ops w seconds : write_instant w seconds = foldl run_write w ((fun shift => WrU8 (u8 (seconds >> shift))) <$> [56; 48; 40; 32; 24; 16; 8; 0]).
Proof. unfold write_instant. cbn [fmap list_fmap foldl run_write]. reflexivity. Qed.

Lemma runl_instant_none n : forall acc, exists v, runl (read_instant_from n acc) None = (Some v, None).
Proof. induction n as [|n IH]; intros acc; cbn [read_instant_from]; [by exists acc|]. rewrite runl_u8_none. apply IH. Qed.

Lemma runl_instant_short n : forall acc l, (length l < n)%nat -> exists v, runl (read_instant_from n acc) (Some l) = (Some v, None).
Proof.
  induction n as [|n IH]; intros acc l Hn; [lia|]. cbn [read_instant_from]. destruct l as [|b l].
  - rewrite runl_u8_nil. apply runl_instant_none.
  - rewrite runl_u8_cons. apply IH. cbn in Hn. lia.
Qed.

Lemma push_byte acc b : 0 <= acc < 2 ^ 56 -> byte_ok b -> (acc <<64 8) .| b = acc * 2 ^ 8 + b.
Proof. intros. rewrite <- lor_shiftl_add' by done. f_equal. apply u64_small. rewrite Z.shiftl_mul_pow2 by lia. unfold u64_ok. lia. Qed.

Lemma runl_instant_long bs : forall acc l, bytes_ok bs -> 0 <= acc -> (acc + 1) * 2 ^ (8 * Z.of_nat (length bs)) <= 2 ^ 64 ->
  runl (read_instant_from (length bs) acc) (Some (bs ++ l)) = (Some (acc * 2 ^ (8 * Z.of_nat (length bs)) + be_val bs), Some l).
Proof.
  induction bs as [|b bs IH]; intros acc l Hb H0 Ha; cbn [read_instant_from length app].
  - cbn [runl]. do 2 f_equal. cbn. lia.
  - apply Forall_cons in Hb as [Hv Hb]. cbn [length] in *. rewrite pow2_8 in *. pose proof (pow2_pos (length bs)) as Hp. rewrite runl_u8_cons.
    rewrite push_byte by (try done; nia). rewrite IH by (try done; unfold byte_ok in *; nia). f_equal. f_equal. rewrite be_val_cons. lia.
Qed.

Lemma runl_instant_iff {B} (f : Z -> prog B) l res s' : bytes_ok l -> (forall v, runl (f v) None <> (res, s')) ->
  runl (read_instant ≫= f) (Some l) = (res, s') <->
  exists v l', 0 <= v < 2 ^ 64 /\ l = be_bytes 8 v ++ l' /\ runl (f v) (Some l') = (res, s').
Proof.
  intros Hl Hf. unfold read_instant, QUIC_TOKEN_INSTANT_LEN. rewrite runl_bind. split.
  - destruct (decide (length l < 8)%nat) as [Hs|Hs].
    + destruct (runl_instant_short 8 0 l Hs) as [v E]. rewrite E. intros H. by apply Hf in H.
    + rewrite <- (take_drop 8 l) in Hl |- *. set (bs := take 8 l) in *. assert (Hb : length bs = 8%nat) by (subst bs; rewrite length_take; lia).
      apply Forall_app in Hl as [Hl _]. rewrite <- Hb at 1. rewrite runl_instant_long by (try done; rewrite ?Hb; lia). rewrite Z.mul_0_l, Z.add_0_l.
      intros H. exists (be_val bs), (drop 8 l). pose proof (be_val_bound bs Hl) as Hv. pose proof (be_bytes_val bs Hl) as Eb. rewrite Hb in Hv, Eb. by rewrite Eb.
  - intros (v & l' & Hv & -> & H). pose proof (runl_instant_long (be_bytes 8 v) 0 l' (be_bytes_ok _ _) ltac:(lia)) as E.
    rewrite length_be_bytes, be_val_bytes, Z.mod_small in E by lia. rewrite E by lia. exact H.
Qed.

Lemma runl_instant_value l : bytes_ok l -> ~ (length l < 8)%nat ->
  exists v l', runl (read_instant_from 8 0) (Some l) = (Some v, Some l') /\ length l = (8 + length l')%nat.
Proof.
  intros Hb Hl. rewrite <- (take_drop 8 l) in Hb |- *. apply Forall_app in Hb as [Hb _].
  assert (L8 : length (take 8 l) = 8%nat) by (rewrite length_take; lia). exists (be_val (take 8 l)), (drop 8 l).
  split; [|rewrite length_app; lia]. pose proof (runl_instant_long (take 8 l) 0 (drop 8 l) Hb) as E. rewrite L8 in E. rewrite E by lia. reflexivity.
Qed.

Lemma length_token_body issued od rs : length (token_body issued od rs) = (11 + length od + length rs)%nat.
Proof. unfold token_body. cbn [length]. rewrite length_app, length_be_bytes. cbn [length]. rewrite length_app. cbn [length]. lia. Qed.

Lemma version_wire version : be_bytes 2 (u16 (version >> 16)) ++ be_bytes 2 (u16 version) = be_bytes 4 version.
Proof.
  rewrite (be_bytes_split 2 2), Z.shiftr_div_pow2 by lia. unfold u16. change (2 ^ 16) with (2 ^ (8 * Z.of_nat 2)). by rewrite !be_bytes_mod.
Qed.

(** The tag is the HMAC of its input, and the assertion holds of every body a
    token can have. *)
Lemma token_tag_spec key version address body : (1 <= length address <= 18)%nat -> (length body <= 51)%nat ->
  token_tag key version address body = Some (hmac_sha256 key (tag_input version address body)).
Proof.
  intros Ha Hb. unfold token_tag.
  set (ops := [WrBytes token_label; WrU16 (u16 (version >> 16)); WrU16 (u16 version); WrU8 (u8 (Z.of_nat (length address))); WrBytes address; WrBytes body]).
  assert (Eb : concat (wire <$> ops) = tag_input version address body).
  { unfold tag_input. rewrite <- version_wire. cbn [ops wire fmap list_fmap concat]. rewrite u8_small by (unfold byte_ok; lia). by rewrite app_nil_r, <- !app_assoc. }
  destruct (writes_fit ops (replicate QUIC_TOKEN_TAG_INPUT_MAX 0) QUIC_TOKEN_TAG_INPUT_MAX) as (He & Hw & _).
  { by rewrite length_replicate. }
  { rewrite Eb. unfold tag_input. rewrite !length_app, length_be_bytes. cbn [length]. rewrite length_app.
    change (length token_label) with 19%nat. change QUIC_TOKEN_TAG_INPUT_MAX with 93%nat. lia. }
  change (match w_err (foldl run_write (wb_init (replicate QUIC_TOKEN_TAG_INPUT_MAX 0) QUIC_TOKEN_TAG_INPUT_MAX) ops) with
    true => None | false => Some (hmac_sha256 key (written (foldl run_write (wb_init (replicate QUIC_TOKEN_TAG_INPUT_MAX 0) QUIC_TOKEN_TAG_INPUT_MAX) ops))) end
    = Some (hmac_sha256 key (tag_input version address body))). rewrite He, Hw, Eb. reflexivity.
Qed.

Definition cids_ok (c : ch_quic_retry_cids) : Prop :=
  length (original_dcid c) = CH_QUIC_DCID_MAX /\ length (retry_scid c) = CH_QUIC_DCID_MAX /\
  (original_dcid_len c <= CH_QUIC_DCID_MAX)%nat /\ (retry_scid_len c <= CH_QUIC_DCID_MAX)%nat.
Definition dcid (c : ch_quic_retry_cids) : list Z := take (original_dcid_len c) (original_dcid c).
Definition scid (c : ch_quic_retry_cids) : list Z := take (retry_scid_len c) (retry_scid c).

Lemma length_cids c : cids_ok c -> length (dcid c) = original_dcid_len c /\ length (scid c) = retry_scid_len c.
Proof. intros (? & ? & ? & ?). unfold dcid, scid. rewrite !length_take. lia. Qed.

Lemma arguments_range version (address : list Z) : arguments_ok version (length address) = true -> (1 <= length address <= 18)%nat /\ 0 <= version < 2 ^ 32.
Proof.
  unfold arguments_ok, quic_version_derived, CH_QUIC_TOKEN_ADDRESS_MAX. rewrite !andb_true_iff, orb_true_iff, Nat.ltb_lt, Nat.leb_le, !Z.eqb_eq.
  intros [[? ?] [->| ->]]; cbv [CH_QUIC_VERSION_1 CH_QUIC_VERSION_2]; lia.
Qed.

(** The body before the tag, as the writer leaves it. *)
Definition body_writer (issued : Z) (c : ch_quic_retry_cids) (out : list Z) (cap : nat) : wbuf :=
  wb_bytes (wb_u8 (wb_bytes (wb_u8 (write_instant (wb_u8 (wb_init out cap) QUIC_TOKEN_TYPE_RETRY) issued)
    (Z.of_nat (original_dcid_len c))) (dcid c)) (Z.of_nat (retry_scid_len c))) (scid c).

Lemma body_written issued c out cap : cids_ok c -> (cap <= length out)%nat -> (11 + original_dcid_len c + retry_scid_len c <= cap)%nat ->
  let w := body_writer issued c out cap in
  w_err w = false /\ written w = token_body issued (dcid c) (scid c) /\ w_len w = (11 + original_dcid_len c + retry_scid_len c)%nat /\ w_cap w = cap /\ wb_inv w.
Proof.
  intros Hc Ho Hcap. destruct (length_cids c Hc) as [Ld Ls].
  set (ops := WrU8 QUIC_TOKEN_TYPE_RETRY :: ((fun shift => WrU8 (u8 (issued >> shift))) <$> [56; 48; 40; 32; 24; 16; 8; 0]) ++
    [WrU8 (Z.of_nat (original_dcid_len c)); WrBytes (dcid c); WrU8 (Z.of_nat (retry_scid_len c)); WrBytes (scid c)]).
  assert (Eb : concat (wire <$> ops) = token_body issued (dcid c) (scid c)).
  { unfold ops. rewrite fmap_cons, fmap_app. cbn [concat wire]. rewrite concat_app, instant_wire. unfold token_body.
    cbn [fmap list_fmap concat wire app]. rewrite Ld, Ls. by rewrite app_nil_r. }
  pose proof (writes_fit ops out cap Ho) as Hw. rewrite Eb, length_token_body, Ld, Ls in Hw. specialize (Hw Hcap). cbv zeta in Hw |- *.
  assert (Ew : body_writer issued c out cap = foldl run_write (wb_init out cap) ops).
  { unfold body_writer, ops. rewrite write_instant_ops. generalize ((fun shift => WrU8 (u8 (issued >> shift))) <$> [56; 48; 40; 32; 24; 16; 8; 0]).
    intros xs. cbn [foldl]. rewrite foldl_app. reflexivity. }
  rewrite Ew. exact Hw.
Qed.

#[local] Opaque wb_u8 wb_bytes write_instant hmac_sha256 token_tag.
Lemma mint_token key version address c issued out cap : arguments_ok version (length address) = true -> cids_ok c -> (cap <= length out)%nat ->
  ch_srv_quic_token_mint key version address c issued out cap =
  Some (if (cap <? 43 + original_dcid_len c + retry_scid_len c)%nat then Refuse CH_ECAP None else Done (token_of key version address issued (dcid c) (scid c))).
Proof.
  intros Ha Hc Ho. pose proof (arguments_range _ _ Ha) as [Hal _]. unfold ch_srv_quic_token_mint. rewrite Ha. destruct (length_cids c Hc) as [Ld Ls].
  pose proof Hc as (_ & _ & Hd & Hs). unfold CH_QUIC_DCID_MAX in *.
  destruct (Nat.ltb_spec 20 (original_dcid_len c)); [lia|]. destruct (Nat.ltb_spec 20 (retry_scid_len c)); [lia|]. cbn [negb orb].
  change QUIC_TOKEN_FIXED with 43%nat. destruct (Nat.ltb_spec cap (43 + original_dcid_len c + retry_scid_len c)) as [|Hcap]; [done|].
  destruct (body_written issued c out cap Hc Ho) as (He & Hw & Hl & Ec & Hi); [lia|]. fold (dcid c) (scid c). cbv zeta. unfold body_writer in He, Hw, Hl, Ec, Hi.
  set (w := wb_bytes (wb_u8 _ _) (scid c)) in *. clearbody w. change (take (w_len w) (w_p w)) with (written w).
  rewrite Hw. pose proof (length_token_body issued (dcid c) (scid c)) as Lb. unfold token_of. cbv zeta. generalize dependent (token_body issued (dcid c) (scid c)). intros body Hw Lb.
  rewrite (bind_known _ _ _ (token_tag_spec key version address body Hal ltac:(lia))).
  destruct (hmac_sha256_shape key (tag_input version address body)) as [Ml _]. generalize dependent (hmac_sha256 key (tag_input version address body)). intros tag Ml. unfold SHA256_LEN in Ml.
  destruct (written_then w tag Hi He) as (He' & Hw' & Hl'); [lia|]. rewrite He', Hl'. change (written (wb_bytes w tag) = written w ++ tag) in Hw'.
  unfold written in Hw'. rewrite Hl' in Hw'. rewrite Hw'. fold (written w). rewrite Hw.
  destruct (Nat.eqb_spec (w_len w + length tag) (43 + original_dcid_len c + retry_scid_len c)); [reflexivity|lia].
Qed.

#[local] Transparent wb_u8 wb_bytes write_instant hmac_sha256 token_tag.

(** What [check] reports: the arrays overwritten from their start. *)
Definition cids_of (cids : ch_quic_retry_cids) (od rs : list Z) : ch_quic_retry_cids :=
  {| original_dcid := store_bytes (original_dcid cids) 0 od; original_dcid_len := length od;
     retry_scid := store_bytes (retry_scid cids) 0 rs; retry_scid_len := length rs |}.

Lemma token_split key version address issued od rs :
  token_of key version address issued od rs =
  QUIC_TOKEN_TYPE_RETRY :: be_bytes 8 issued ++ Z.of_nat (length od) :: od ++ Z.of_nat (length rs) :: rs ++ hmac_sha256 key (tag_input version address (token_body issued od rs)).
Proof. unfold token_of. cbv zeta. unfold token_body at 1. cbn [app]. rewrite <- app_assoc. cbn [app]. rewrite <- app_assoc. reflexivity. Qed.

Lemma body_of_token issued od rs m n : length m = n ->
  let t := QUIC_TOKEN_TYPE_RETRY :: be_bytes 8 issued ++ Z.of_nat (length od) :: od ++ Z.of_nat (length rs) :: rs ++ m in
  take (length t - n) t = token_body issued od rs.
Proof.
  intros <- t. replace t with (token_body issued od rs ++ m).
  - apply take_app_length'. rewrite length_app. lia.
  - unfold token_body, t. cbn [app]. rewrite <- app_assoc. cbn [app]. by rewrite <- app_assoc.
Qed.

Lemma in_window now issued lifetime : 0 <= now < 2 ^ 64 -> 0 <= issued < 2 ^ 64 ->
  (now <? issued) || (lifetime <? (now -64 issued)) = false <-> issued <= now <= issued + lifetime.
Proof.
  intros Hn Hi. rewrite orb_false_iff, !Z.ltb_ge. split; intros H.
  - rewrite u64_small in H by (unfold u64_ok; lia). lia.
  - rewrite u64_small by (unfold u64_ok; lia). lia.
Qed.

Lemma check_iff key version token address now lifetime cids c :
  bytes_ok token -> arguments_ok version (length address) = true -> 0 <= now < 2 ^ 64 ->
  ch_srv_quic_token_check key version token address now lifetime cids = Some (Done c) <->
  exists issued od rs, token = token_of key version address issued od rs /\ 0 <= issued < 2 ^ 64 /\ issued <= now <= issued + lifetime /\
    (length od <= 20)%nat /\ (length rs <= 20)%nat /\ c = cids_of cids od rs.
Proof.
  intros Hb Ha Hn. destruct (arguments_range _ _ Ha) as [Hal _]. unfold ch_srv_quic_token_check. rewrite parse_some by done. unfold token_check. rewrite Ha. cbn [negb]. split.
  - intros (s' & H). rewrite runl_u8_iff in H by (done || intros ?; rewrite runl_err; done). destruct H as (t & l1 & Ht & -> & H). rewrite runl_err in H. cbn [is_err orb] in H.
    destruct (Z.eqb_spec t QUIC_TOKEN_TYPE_RETRY) as [->|]; [cbn [negb] in H|discriminate]. apply Forall_cons in Hb as [_ Hb].
    rewrite runl_instant_iff in H by done. destruct H as (issued & l2 & Hi & -> & H). apply Forall_app in Hb as [_ Hb].
    rewrite runl_u8_iff in H by done. destruct H as (odl & l3 & Hol & -> & H). apply Forall_cons in Hb as [_ Hb].
    rewrite runl_nbytes_iff in H by done. destruct H as (od & l4 & -> & Lo & H). apply Forall_app in Hb as [_ Hb].
    rewrite runl_u8_iff in H by done. destruct H as (rsl & l5 & Hrl & -> & H). apply Forall_cons in Hb as [_ Hb].
    rewrite runl_nbytes_iff in H by done. destruct H as (rs & l6 & -> & Lr & H). apply Forall_app in Hb as [_ Hb].
    rewrite runl_nbytes_iff in H by done. destruct H as (tag & l7 & -> & Lt & H). rewrite runl_err, runl_left in H. cbn [is_err left_of orb] in H.
    destruct l7; [|discriminate]. change (negb (length (@nil Z) =? 0)%nat) with false in H. cbn [orb] in H. rewrite app_nil_r in *. unfold CH_QUIC_DCID_MAX in H.
    destruct (Nat.ltb_spec 20 (Z.to_nat odl)) as [|Ho]; [discriminate|]. destruct (Nat.ltb_spec 20 (Z.to_nat rsl)) as [|Hr]; [discriminate|]. cbn [orb] in H.
    assert (Eo : odl = Z.of_nat (length od)) by (unfold byte_ok in *; lia). assert (Er : rsl = Z.of_nat (length rs)) by (unfold byte_ok in *; lia). subst odl rsl.
    rewrite body_of_token in H by done. rewrite token_tag_spec in H by (rewrite ?length_token_body; lia).
    destruct (hmac_sha256_shape key (tag_input version address (token_body issued od rs))) as [Ml Mb].
    destruct (Z.eqb_spec (ct_memeq tag (hmac_sha256 key (tag_input version address (token_body issued od rs))) SHA256_LEN) 0) as [|Et]; [discriminate|].
    rewrite <- Z.eqb_neq, <- negb_true_iff, memeq_iff in Et by done. rewrite !Nat2Z.id in H.
    destruct ((now <? issued) || (lifetime <? (now -64 issued))) eqn:Ew; [discriminate|]. rewrite in_window in Ew by done. injection H as <- _.
    exists issued, od, rs. rewrite Nat2Z.id in *. rewrite token_split, Et. split_and!; try done; lia.
  - intros (issued & od & rs & -> & Hi & Hw & Ho & Hr & ->). exists (Some []). rewrite token_split in *.
    destruct (hmac_sha256_shape key (tag_input version address (token_body issued od rs))) as [Ml Mb].
    rewrite runl_u8_cons, runl_err. cbn [is_err orb]. rewrite Z.eqb_refl. cbn [negb]. apply Forall_cons in Hb as [_ Hb].
    apply runl_instant_iff; [done..|]. do 2 eexists. split; [exact Hi|]. split; [reflexivity|]. rewrite runl_u8_cons, Nat2Z.id.
    apply runl_nbytes_some. do 2 eexists. split; [reflexivity|]. split; [reflexivity|]. rewrite runl_u8_cons, Nat2Z.id.
    apply runl_nbytes_some. do 2 eexists. split; [reflexivity|]. split; [reflexivity|].
    apply runl_nbytes_some. do 2 eexists. split; [by rewrite app_nil_r|]. split; [exact Ml|]. rewrite runl_err, runl_left. cbn [is_err left_of]. change (negb (length (@nil Z) =? 0)%nat) with false. cbn [orb].
    unfold CH_QUIC_DCID_MAX. destruct (Nat.ltb_spec 20 (length od)); [lia|]. destruct (Nat.ltb_spec 20 (length rs)); [lia|]. cbn [orb].
    rewrite body_of_token by done. rewrite token_tag_spec by (rewrite ?length_token_body; lia).
    pose proof (proj2 (memeq_iff _ _ _ Mb Mb Ml Ml) eq_refl) as Em. rewrite negb_true_iff in Em. rewrite Em.
    rewrite (proj2 (in_window now issued lifetime Hn Hi) Hw). reflexivity.
Qed.

Lemma cids_of_ok cids od rs : length (original_dcid cids) = 20%nat -> length (retry_scid cids) = 20%nat -> (length od <= 20)%nat -> (length rs <= 20)%nat ->
  cids_ok (cids_of cids od rs) /\ dcid (cids_of cids od rs) = od /\ scid (cids_of cids od rs) = rs.
Proof.
  intros H1 H2 Ho Hr. unfold cids_ok, dcid, scid, cids_of, CH_QUIC_DCID_MAX. cbn [original_dcid original_dcid_len retry_scid retry_scid_len].
  rewrite !length_store_bytes by lia. pose proof (take_store_bytes (original_dcid cids) 0 od) as T1. pose proof (take_store_bytes (retry_scid cids) 0 rs) as T2.
  cbn [Nat.add take app] in T1, T2. rewrite T1, T2 by lia. split_and!; done || lia.
Qed.

(** A token that fails any check after its type byte earns [CH_EAUTH]; no
    assertion fails and no read is past the end. *)
Lemma check_total key version token address now lifetime cids : bytes_ok token -> arguments_ok version (length address) = true ->
  head token = Some QUIC_TOKEN_TYPE_RETRY ->
  (exists c, ch_srv_quic_token_check key version token address now lifetime cids = Some (Done c)) \/
  ch_srv_quic_token_check key version token address now lifetime cids = Some (Refuse CH_EAUTH None).
Proof.
  intros Hb Ha Ht. destruct (arguments_range _ _ Ha) as [Hal _]. unfold ch_srv_quic_token_check. rewrite parse_list by done. unfold token_check. rewrite Ha. cbn [negb].
  destruct token as [|t l1]; [done|]. injection Ht as ->. rewrite runl_u8_cons, runl_err. cbn [is_err orb]. rewrite Z.eqb_refl. cbn [negb].
  unfold read_instant, QUIC_TOKEN_INSTANT_LEN. rewrite runl_bind. apply Forall_cons in Hb as [_ Hb].
  destruct (decide (length l1 < 8)%nat) as [Hs|Hs]; [destruct (runl_instant_short 8 0 l1 Hs) as [v ->]; by right|].
  destruct (runl_instant_value l1 Hb Hs) as (v & l2 & -> & Ll). cbv beta iota.
  destruct l2 as [|odl l3]; [rewrite runl_u8_nil; by right|]. rewrite runl_u8_cons, runl_nbytes.
  destruct (Nat.ltb_spec (length l3) (Z.to_nat odl)) as [|Ho]; [by right|]. pose proof (length_drop l3 (Z.to_nat odl)) as L4. destruct (drop (Z.to_nat odl) l3) as [|rsl l5]; [rewrite runl_u8_nil; by right|].
  rewrite runl_u8_cons, runl_nbytes. destruct (Nat.ltb_spec (length l5) (Z.to_nat rsl)) as [|Hr]; [by right|]. rewrite runl_nbytes.
  destruct (Nat.ltb_spec (length (drop (Z.to_nat rsl) l5)) SHA256_LEN) as [|Htag]; [by right|]. rewrite runl_err, runl_left. cbn [is_err left_of orb].
  destruct (Nat.eqb_spec (length (drop SHA256_LEN (drop (Z.to_nat rsl) l5))) 0) as [E0|]; [cbn [negb orb]|by right]. unfold CH_QUIC_DCID_MAX.
  destruct (Nat.ltb_spec 20 (Z.to_nat odl)); [by right|]. destruct (Nat.ltb_spec 20 (Z.to_nat rsl)); [by right|]. cbn [orb].
  rewrite !length_drop in *. cbn [length] in *. unfold SHA256_LEN in *.
  rewrite token_tag_spec by (rewrite ?length_take; cbn [length]; lia). set (want := hmac_sha256 _ _). clearbody want.
  destruct (_ =? 0); [by right|]. destruct (_ || _); [by right|]. left. eexists. reflexivity.
Qed.

(** ** Properties *)

(** C24. The Retry token is stateless and exact.  A token checks exactly when it
    is what the mint writes under the same key, the same version and the same
    client address, for the connection IDs reported and some instant of issue
    that is not after now and no more than the lifetime before it; the bytes
    of the caller's arrays past the lengths are left as they were. *)
Theorem retry_token_exact key version token address now lifetime cids c out :
  bytes_ok token -> arguments_ok version (length address) = true -> 0 <= now < 2 ^ 64 -> length out = CH_QUIC_TOKEN_MAX ->
  length (original_dcid cids) = CH_QUIC_DCID_MAX -> length (retry_scid cids) = CH_QUIC_DCID_MAX ->
  ch_srv_quic_token_check key version token address now lifetime cids = Some (Done c) <->
  exists issued, ch_srv_quic_token_mint key version address c issued out CH_QUIC_TOKEN_MAX = Some (Done token) /\
    0 <= issued < 2 ^ 64 /\ issued <= now <= issued + lifetime /\ cids_ok c /\ c = cids_of cids (dcid c) (scid c).
Proof.
  intros Hb Ha Hn Ho H1 H2. rewrite check_iff by done. split.
  - intros (issued & od & rs & -> & Hi & Hw & Hod & Hrs & ->). destruct (cids_of_ok cids od rs H1 H2 Hod Hrs) as (Hc & Ed & Es). exists issued.
    rewrite Ed, Es, mint_token by (done || lia). destruct (Nat.ltb_spec CH_QUIC_TOKEN_MAX (43 + original_dcid_len (cids_of cids od rs) + retry_scid_len (cids_of cids od rs))) as [Hl|_].
    + cbn [original_dcid_len retry_scid_len cids_of] in Hl. change CH_QUIC_TOKEN_MAX with 83%nat in Hl. lia.
    + rewrite Ed, Es. split_and!; done || lia.
  - intros (issued & Hm & Hi & Hw & Hc & Ec). exists issued, (dcid c), (scid c). destruct (length_cids c Hc) as [Ld Ls].
    rewrite mint_token in Hm by (done || lia). destruct (Nat.ltb _ _) in Hm; [discriminate|]. injection Hm as <-.
    destruct Hc as (_ & _ & Hd & Hs). unfold CH_QUIC_DCID_MAX in *. split_and!; done || lia.
Qed.

(** The token calls always return, and each refusal has its code.  A bad
    address length or version is CH_EINVAL before the token is read; an empty
    token or one of another type is CH_EPROTO; every other token is accepted
    or refused with CH_EAUTH.  The mint refuses the same arguments and
    oversized connection IDs with CH_EINVAL, a short buffer with CH_ECAP, and
    otherwise writes its token: no assertion of either call can fail. *)
Theorem retry_token_codes key version token address now lifetime cids issued out cap :
  bytes_ok token -> (cap <= length out)%nat -> length (original_dcid cids) = CH_QUIC_DCID_MAX -> length (retry_scid cids) = CH_QUIC_DCID_MAX ->
  (let check := ch_srv_quic_token_check key version token address now lifetime cids in
   if negb (arguments_ok version (length address)) then check = Some (Refuse CH_EINVAL None)
   else if decide (head token = Some QUIC_TOKEN_TYPE_RETRY) then (exists c, check = Some (Done c)) \/ check = Some (Refuse CH_EAUTH None)
   else check = Some (Refuse CH_EPROTO None)) /\
  (let mint := ch_srv_quic_token_mint key version address cids issued out cap in
   if negb (arguments_ok version (length address)) || (20 <? original_dcid_len cids)%nat || (20 <? retry_scid_len cids)%nat then mint = Some (Refuse CH_EINVAL None)
   else if (cap <? 43 + original_dcid_len cids + retry_scid_len cids)%nat then mint = Some (Refuse CH_ECAP None)
   else exists t, mint = Some (Done t) /\ length t = (43 + original_dcid_len cids + retry_scid_len cids)%nat).
Proof.
  intros Hb Ho H1 H2. cbv zeta. split.
  - destruct (negb (arguments_ok version (length address))) eqn:Ea.
    + unfold ch_srv_quic_token_check, token_check. by rewrite Ea.
    + rewrite negb_false_iff in Ea. destruct (decide _) as [Ht|Ht]; [by apply check_total|].
      unfold ch_srv_quic_token_check. rewrite parse_list by done. unfold token_check. rewrite Ea. cbn [negb].
      destruct token as [|t l]; [by rewrite runl_u8_nil, runl_err|]. rewrite runl_u8_cons, runl_err. cbn [is_err orb].
      destruct (Z.eqb_spec t QUIC_TOKEN_TYPE_RETRY) as [->|]; [done|]. reflexivity.
  - destruct (negb (arguments_ok version (length address)) || (20 <? original_dcid_len cids)%nat || (20 <? retry_scid_len cids)%nat) eqn:Ea.
    + unfold ch_srv_quic_token_mint, CH_QUIC_DCID_MAX. by rewrite Ea.
    + rewrite !orb_false_iff, negb_false_iff, !Nat.ltb_ge in Ea. destruct Ea as [[Ea Hd] Hs]. assert (Hc : cids_ok cids) by done.
      rewrite mint_token by done. destruct (Nat.ltb _ _); [done|]. eexists. split; [reflexivity|].
      unfold token_of. rewrite length_app, length_token_body. destruct (length_cids cids Hc) as [-> ->].
      destruct (hmac_sha256_shape key (tag_input version address (token_body issued (dcid cids) (scid cids)))) as [-> _]. unfold SHA256_LEN. lia.
Qed.

Definition sample_key : list Z := replicate 32 5.
Definition sample_address : list Z := [192; 0; 2; 1; 17; 92].
Definition blank_cids : ch_quic_retry_cids := {| original_dcid := replicate 20 0; original_dcid_len := 0; retry_scid := replicate 20 0; retry_scid_len := 0 |}.
Definition sample_cids : ch_quic_retry_cids := cids_of blank_cids [1; 2; 3] [9].
Definition sample_token : list Z :=
  match ch_srv_quic_token_mint sample_key 1 sample_address sample_cids 1000 (replicate 83 0) 83 with Some (Done t) => t | _ => [] end.

Lemma retry_token_exact_witness : ch_srv_quic_token_check sample_key 1 sample_token sample_address 1010 15 blank_cids = Some (Done sample_cids).
Proof.
  apply (retry_token_exact sample_key 1 sample_token sample_address 1010 15 blank_cids sample_cids (replicate 83 0));
    [apply (bool_decide_unpack _); vm_compute; exact I|reflexivity|lia|reflexivity|reflexivity|reflexivity|].
  exists 1000. split; [vm_compute; reflexivity|]. split; [lia|]. split; [lia|]. split; [|reflexivity].
  split; [reflexivity|]. split; [reflexivity|]. split; vm_compute; lia.
Defined.

Lemma retry_token_codes_witness : ch_srv_quic_token_check sample_key 1 (2 :: drop 1 sample_token) sample_address 1010 15 blank_cids = Some (Refuse CH_EPROTO None).
Proof.
  destruct (retry_token_codes sample_key 1 (2 :: drop 1 sample_token) sample_address 1010 15 blank_cids 0 [] 0) as [H _];
    [apply (bool_decide_unpack _); vm_compute; exact I|cbn; lia|reflexivity|reflexivity|]. exact H.
Defined.
End Token.
