(* ===== verification/HsParser.v ===== *)
(** * ServerHello and HelloRetryRequest: src/src/handshake_parser.c, handshake_parser.h

    The client's parser of the server's first message, in every build.  It is
    shown to accept exactly the messages of its grammar and to report what they
    hold.  The other client parsers are in [HsParserEe]. *)

From S2P Require Import Prelude Ct Buf Reader Build Wire.
Local Open Scope Z_scope.
Local Open Scope word_scope.

Module Hsp.
Section Parsers.
Context {build : HsBuild}.

Definition hsp_hrr_magic : list Z :=
  [0xcf; 0x21; 0xad; 0x74; 0xe5; 0x9a; 0x61; 0x11; 0xbe; 0x1d; 0x8c; 0x02; 0x1e; 0x65; 0xb8; 0x91;
   0xc2; 0xa2; 0x11; 0x16; 0x7a; 0xbb; 0x8c; 0x5e; 0x07; 0x9e; 0x09; 0xe2; 0xc8; 0xa8; 0x33; 0x9c].

(** ** ServerHello *)

Definition HSP_SEEN_PRE_SHARED_KEY : Z := 2 ^ 2.

Record server_hello_info := ShInfo {
  sh_hrr : bool; sh_version_ok : bool; sh_have_share : bool; sh_psk_ok : bool; sh_seen : Z;
  sh_group : Z; sh_server_pub : list Z; sh_server_ct : option (list Z); sh_server_p256 : option (list Z);
  sh_retry_group : Z; sh_cookie : option (list Z); sh_suite : Z }.

(** The structure the caller zeroes. *)
Definition zero_info : server_hello_info :=
  ShInfo false false false false 0 0 (replicate 32 0) None None 0 None 0.

Definition set_hrr i v := ShInfo v (sh_version_ok i) (sh_have_share i) (sh_psk_ok i) (sh_seen i) (sh_group i)
  (sh_server_pub i) (sh_server_ct i) (sh_server_p256 i) (sh_retry_group i) (sh_cookie i) (sh_suite i).
Definition set_version_ok i v := ShInfo (sh_hrr i) v (sh_have_share i) (sh_psk_ok i) (sh_seen i) (sh_group i)
  (sh_server_pub i) (sh_server_ct i) (sh_server_p256 i) (sh_retry_group i) (sh_cookie i) (sh_suite i).
Definition set_psk_ok i v := ShInfo (sh_hrr i) (sh_version_ok i) (sh_have_share i) v (sh_seen i) (sh_group i)
  (sh_server_pub i) (sh_server_ct i) (sh_server_p256 i) (sh_retry_group i) (sh_cookie i) (sh_suite i).
Definition set_seen i v := ShInfo (sh_hrr i) (sh_version_ok i) (sh_have_share i) (sh_psk_ok i) v (sh_group i)
  (sh_server_pub i) (sh_server_ct i) (sh_server_p256 i) (sh_retry_group i) (sh_cookie i) (sh_suite i).
Definition set_server_pub i v := ShInfo (sh_hrr i) (sh_version_ok i) (sh_have_share i) (sh_psk_ok i) (sh_seen i) (sh_group i)
  v (sh_server_ct i) (sh_server_p256 i) (sh_retry_group i) (sh_cookie i) (sh_suite i).
Definition set_server_ct i v := ShInfo (sh_hrr i) (sh_version_ok i) (sh_have_share i) (sh_psk_ok i) (sh_seen i) (sh_group i)
  (sh_server_pub i) v (sh_server_p256 i) (sh_retry_group i) (sh_cookie i) (sh_suite i).
Definition set_server_p256 i v := ShInfo (sh_hrr i) (sh_version_ok i) (sh_have_share i) (sh_psk_ok i) (sh_seen i) (sh_group i)
  (sh_server_pub i) (sh_server_ct i) v (sh_retry_group i) (sh_cookie i) (sh_suite i).
(** [info->group = v; info->have_share = 1;] *)
Definition set_group i v := ShInfo (sh_hrr i) (sh_version_ok i) true (sh_psk_ok i) (sh_seen i) v
  (sh_server_pub i) (sh_server_ct i) (sh_server_p256 i) (sh_retry_group i) (sh_cookie i) (sh_suite i).
Definition set_retry_group i v := ShInfo (sh_hrr i) (sh_version_ok i) (sh_have_share i) (sh_psk_ok i) (sh_seen i) (sh_group i)
  (sh_server_pub i) (sh_server_ct i) (sh_server_p256 i) v (sh_cookie i) (sh_suite i).
Definition set_cookie i v := ShInfo (sh_hrr i) (sh_version_ok i) (sh_have_share i) (sh_psk_ok i) (sh_seen i) (sh_group i)
  (sh_server_pub i) (sh_server_ct i) (sh_server_p256 i) (sh_retry_group i) v (sh_suite i).
Definition set_suite i v := ShInfo (sh_hrr i) (sh_version_ok i) (sh_have_share i) (sh_psk_ok i) (sh_seen i) (sh_group i)
  (sh_server_pub i) (sh_server_ct i) (sh_server_p256 i) (sh_retry_group i) (sh_cookie i) v.

Definition server_hello_ext_bit (ext : Z) : Z :=
  if (ext =? EXT_SUPPORTED_VERSIONS) then 2 ^ 0
  else if (ext =? EXT_KEY_SHARE) then 2 ^ 1
  else if (ext =? EXT_PRE_SHARED_KEY) then HSP_SEEN_PRE_SHARED_KEY
  else if (ext =? EXT_COOKIE) then 2 ^ 3
  else 0.

Definition parse_x25519_share (info : server_hello_info) : prog (outcome server_hello_info) :=
  n ← u16_;
  if negb (n =? Z.of_nat X25519_LEN) then eproto
  else
    pub ← nbytes_ X25519_LEN;
    match pub with
    | None => eproto
    | Some pub => Ret (Done (set_group (set_server_pub info pub) CH_GROUP_X25519))
    end.

Definition parse_p256_share (info : server_hello_info) : prog (outcome server_hello_info) :=
  n ← u16_;
  if negb (n =? Z.of_nat P256_POINT_LEN) then eproto
  else
    point ← nbytes_ P256_POINT_LEN;
    match point with
    | None => eproto
    | Some point => Ret (Done (set_group (set_server_p256 info (Some point)) CH_GROUP_SECP256R1))
    end.

Definition parse_retry_group (info : server_hello_info) : prog (outcome server_hello_info) :=
  g ← u16_;
  if negb (g =? CH_GROUP_SECP256R1) then eproto else Ret (Done (set_retry_group info CH_GROUP_SECP256R1)).

Definition suite_offered (suite : Z) : bool :=
  if CH_CLIENT_AES_SUITES then
    (suite =? SUITE_CHACHA20_POLY1305_SHA256) || (suite =? SUITE_AES_128_GCM_SHA256) || (suite =? SUITE_AES_256_GCM_SHA384)
  else if CH_PROFILE_CNSA2 then (suite =? SUITE_AES_256_GCM_SHA384)
  else (suite =? SUITE_CHACHA20_POLY1305_SHA256).

(** The end of [parse_key_share]: the ciphertext where the build has ML-KEM,
    then the x25519 value where it has one. *)
Definition kex_share_body (group : Z) (info : server_hello_info) : prog (outcome server_hello_info) :=
  info ←! (if CH_KEX_MLKEM then
             ct ← nbytes_ MLKEM_CT_LEN;
             match ct with None => eproto | Some ct => Ret (Done (set_server_ct info (Some ct))) end
           else Ret (Done info));
  info ←! (if CH_PROFILE_CNSA2 then Ret (Done info)
           else
             pub ← nbytes_ X25519_LEN;
             match pub with None => eproto | Some pub => Ret (Done (set_server_pub info pub)) end);
  Ret (Done (set_group info group)).

Definition parse_key_share (info : server_hello_info) (hrr : bool) : prog (outcome server_hello_info) :=
  if hrr then (if CH_KEX_TWO_GROUPS then parse_retry_group info else eproto)
  else
    group ← u16_;
    if CH_KEX_TWO_GROUPS then
      if (group =? CH_GROUP_X25519) then parse_x25519_share info
      else if (group =? CH_GROUP_SECP256R1) then parse_p256_share info
      else if negb (group =? CH_GROUP_X25519MLKEM768) then eproto
      else
        n ← u16_;
        if negb (n =? Z.of_nat CH_HYBRID_SERVER_SHARE) then eproto else kex_share_body group info
    else if negb (group =? CH_KEX_GROUP) then eproto
    else
      n ← u16_;
      if negb (n =? Z.of_nat CH_KEX_SERVER_SHARE) then eproto else kex_share_body group info.

Definition parse_cookie (info : server_hello_info) (hrr : bool) : prog (outcome server_hello_info) :=
  if negb hrr then eproto
  else
    cookie_len ← u16_;
    cookie ← nbytes_ (Z.to_nat cookie_len);
    match cookie with
    | None => eproto
    | Some cookie =>
        if (Z.of_nat HSP_COOKIE_MAX <? cookie_len) then eproto else Ret (Done (set_cookie info (Some cookie)))
    end.

(** The switch over the type, on the extension's own reader, and the check
    that the body was read whole. *)
Definition server_hello_ext_body (ext : Z) (info : server_hello_info) (hrr : bool) : prog (outcome server_hello_info) :=
  info ←! (if (ext =? EXT_SUPPORTED_VERSIONS) then v ← u16_; Ret (Done (set_version_ok info (v =? TLS13)))
           else if (ext =? EXT_KEY_SHARE) then parse_key_share info hrr
           else if (ext =? EXT_PRE_SHARED_KEY) then v ← u16_; Ret (Done (set_psk_ok info (v =? 0)))
           else parse_cookie info hrr);
  e ← err_;
  n ← left_;
  if e || negb (n =? 0)%nat then eproto else Ret (Done info).

Definition parse_server_hello_ext (hrr psk_mode : bool) (info : server_hello_info) : prog (outcome server_hello_info) :=
  x ← read_ext;
  let ext := x.1 in
  match x.2 with
  | None => eproto
  | Some ext_data =>
      if (ext =? EXT_PRE_SHARED_KEY) && (hrr || negb psk_mode) then eproto
      else
        let bit := server_hello_ext_bit ext in
        if (bit =? 0) then eproto
        else if negb (sh_seen info .& bit =? 0) then eproto
        else sub_ (server_hello_ext_body ext (set_seen info (u8 (sh_seen info .| bit))) hrr) ext_data
  end.

Definition hsp_parse_server_hello (psk_mode : bool) (info : server_hello_info) : prog (outcome server_hello_info) :=
  v ← u16_;
  if negb (v =? 0x0303) then eproto
  else
    random ← nbytes_ 32;
    match random with
    | None => eproto
    | Some random =>
        let info := set_hrr info (bytes_eqb random hsp_hrr_magic) in
        sid ← u8_;
        if negb (sid =? 0) then eproto
        else
          suite ← u16_;
          let info := if CH_SUITE_AES_GCM then set_suite info suite else info in
          if negb (if CH_SUITE_AES_GCM then suite_offered suite else suite =? SUITE_CHACHA20_POLY1305_SHA256) then eproto
          else
            comp ← u8_;
            if negb (comp =? 0) then eproto
            else
              exts_len ← u16_;
              e ← err_;
              n ← left_;
              if e || negb (exts_len =? Z.of_nat n) then eproto
              else
                info ←! loop_left (parse_server_hello_ext (sh_hrr info) psk_mode) info;
                if sh_version_ok info then Ret (Done info) else eproto
    end.

(** ** The grammar of a ServerHello

    An extension as the message means it. *)
Inductive sh_ext :=
  | ShVersion (v : Z)
  | ShX25519 (pub : list Z)
  | ShP256 (point : list Z)
  | ShKex (ct pub : list Z)      (** the build's group with ML-KEM, or its one group *)
  | ShRetryGroup
  | ShPsk (selected : Z)
  | ShCookie (c : list Z).

Definition sh_kex_group : Z := if CH_KEX_TWO_GROUPS then CH_GROUP_X25519MLKEM768 else CH_KEX_GROUP.
Definition sh_kex_share_len : nat := if CH_KEX_TWO_GROUPS then CH_HYBRID_SERVER_SHARE else CH_KEX_SERVER_SHARE.

Definition sh_wire (x : sh_ext) : ext :=
  match x with
  | ShVersion v => (EXT_SUPPORTED_VERSIONS, be_bytes 2 v)
  | ShX25519 pub => (EXT_KEY_SHARE, be_bytes 2 CH_GROUP_X25519 ++ be_bytes 2 32 ++ pub)
  | ShP256 point => (EXT_KEY_SHARE, be_bytes 2 CH_GROUP_SECP256R1 ++ be_bytes 2 65 ++ point)
  | ShKex ct pub => (EXT_KEY_SHARE, be_bytes 2 sh_kex_group ++ be_bytes 2 (Z.of_nat sh_kex_share_len) ++ ct ++ pub)
  | ShRetryGroup => (EXT_KEY_SHARE, be_bytes 2 CH_GROUP_SECP256R1)
  | ShPsk i => (EXT_PRE_SHARED_KEY, be_bytes 2 i)
  | ShCookie c => (EXT_COOKIE, be_bytes 2 (Z.of_nat (length c)) ++ c)
  end.

(** Which extensions a hello of each kind may carry, and their sizes. *)
Definition sh_legal (hrr psk_mode : bool) (x : sh_ext) : Prop :=
  match x with
  | ShVersion v => 0 <= v < 2 ^ 16
  | ShX25519 pub => hrr = false /\ CH_KEX_TWO_GROUPS = true /\ length pub = 32%nat
  | ShP256 point => hrr = false /\ CH_KEX_TWO_GROUPS = true /\ length point = 65%nat
  | ShKex ct pub => hrr = false /\ length ct = (if CH_KEX_MLKEM then MLKEM_CT_LEN else 0)%nat /\
      length pub = (if CH_PROFILE_CNSA2 then 0 else 32)%nat
  | ShRetryGroup => hrr = true /\ CH_KEX_TWO_GROUPS = true
  | ShPsk i => hrr = false /\ psk_mode = true /\ 0 <= i < 2 ^ 16
  | ShCookie c => hrr = true /\ (length c <= HSP_COOKIE_MAX)%nat
  end.

(** What the parser reports of one extension. *)
Definition sh_apply (x : sh_ext) (i : server_hello_info) : server_hello_info :=
  match x with
  | ShVersion v => set_version_ok i (v =? TLS13)
  | ShX25519 pub => set_group (set_server_pub i pub) CH_GROUP_X25519
  | ShP256 point => set_group (set_server_p256 i (Some point)) CH_GROUP_SECP256R1
  | ShKex ct pub =>
      let i := if CH_KEX_MLKEM then set_server_ct i (Some ct) else i in
      let i := if CH_PROFILE_CNSA2 then i else set_server_pub i pub in
      set_group i sh_kex_group
  | ShRetryGroup => set_retry_group i CH_GROUP_SECP256R1
  | ShPsk v => set_psk_ok i (v =? 0)
  | ShCookie c => set_cookie i (Some c)
  end.
Definition sh_bit (x : sh_ext) : Z := server_hello_ext_bit (sh_wire x).1.
Definition sh_step (x : sh_ext) (i : server_hello_info) : server_hello_info :=
  sh_apply x (set_seen i (u8 (sh_seen i .| sh_bit x))).

(** ** Lemmas: one extension *)

Lemma ext_end_iff {A} (a b : A) s s' :
  runl (e ← err_; n ← left_; if e || negb (n =? 0)%nat then eproto else Ret (Done a)) s = (Some (Done b), s') <->
  s = Some [] /\ s' = Some [] /\ a = b.
Proof.
  rewrite runl_err, runl_left. destruct s as [[|]|]; cbn; split; try discriminate; try (by intros (? & _)).
  - by intros [= -> <-].
  - by intros (_ & -> & ->).
Qed.

(** A reader held to filling its body. *)
Lemma parse_whole {A B} (p : prog (outcome A)) (g : A -> B) d b : bytes_ok d ->
  parse (a ←! p; e ← err_; n ← left_; if e || negb (n =? 0)%nat then eproto else Ret (Done (g a))) d = Some (Done b) <->
  exists a, runl p (Some d) = (Some (Done a), Some []) /\ b = g a.
Proof.
  intros Hd. rewrite parse_some by done. split.
  - intros (s' & H). apply runl_obind_done in H as (a & s1 & H1 & H2). apply ext_end_iff in H2 as (-> & _ & <-). eauto.
  - intros (a & H & ->). exists (Some []). apply runl_obind_done. exists a, (Some []). by rewrite ext_end_iff.
Qed.

Lemma take_be2 v (d : list Z) : d = be_bytes 2 v ++ [] <-> d = be_bytes 2 v.
Proof. by rewrite app_nil_r. Qed.

Lemma read_u16_whole {A} (f : Z -> A) d a : bytes_ok d ->
  runl (v ← u16_; Ret (Done (f v))) (Some d) = (Some (Done a), Some []) <->
  exists v, 0 <= v < 2 ^ 16 /\ d = be_bytes 2 v /\ a = f v.
Proof.
  intros Hd. rewrite runl_u16_some by done. split.
  - intros (v & l' & Hv & -> & [= <- ->]). exists v. by rewrite app_nil_r.
  - intros (v & Hv & -> & ->). exists v, []. by rewrite app_nil_r.
Qed.

(** A length-checked value that ends its body: [n; n bytes]. *)
Lemma read_sized_whole {A} (n : nat) (f : list Z -> A) d a : bytes_ok d -> Z.of_nat n < 2 ^ 16 ->
  runl (k ← u16_; if negb (k =? Z.of_nat n) then eproto else
        b ← nbytes_ n; match b with None => eproto | Some b => Ret (Done (f b)) end) (Some d) = (Some (Done a), Some []) <->
  exists b, length b = n /\ d = be_bytes 2 (Z.of_nat n) ++ b /\ a = f b.
Proof.
  intros Hd Hn. rewrite runl_u16_some by done. split.
  - intros (k & l & Hk & -> & H). destruct (Z.eqb_spec k (Z.of_nat n)) as [->|]; [|discriminate]. cbn [negb] in H.
    rewrite runl_nbytes_some in H. destruct H as (b & l' & -> & Hb & [= <- ->]). exists b. by rewrite app_nil_r.
  - intros (b & Hb & -> & ->). exists (Z.of_nat n), b. split_and!; try done; try lia.
    rewrite Z.eqb_refl. cbn [negb]. rewrite runl_nbytes_some. exists b, []. by rewrite app_nil_r.
Qed.

Lemma kex_share_body_iff g i d i' :
  runl (kex_share_body g i) (Some d) = (Some (Done i'), Some []) <->
  exists ct pub, length ct = (if CH_KEX_MLKEM then MLKEM_CT_LEN else 0)%nat /\ length pub = (if CH_PROFILE_CNSA2 then 0 else 32)%nat /\
    d = ct ++ pub /\
    i' = set_group (let i := if CH_KEX_MLKEM then set_server_ct i (Some ct) else i in
                    if CH_PROFILE_CNSA2 then i else set_server_pub i pub) g.
Proof.
  unfold kex_share_body. rewrite runl_obind_done. split.
  - intros (i1 & s1 & H1 & H). apply runl_obind_done in H as (i2 & s2 & H2 & [= <- ->]).
    assert (E1 : exists ct l1, length ct = (if CH_KEX_MLKEM then MLKEM_CT_LEN else 0)%nat /\ d = ct ++ l1 /\ s1 = Some l1 /\
      i1 = if CH_KEX_MLKEM then set_server_ct i (Some ct) else i).
    { destruct CH_KEX_MLKEM; [|injection H1 as <- <-; by exists [], d].
      rewrite runl_nbytes_iff in H1 by done. destruct H1 as (b & l' & -> & Hb & [= <- <-]). by exists b, l'. }
    destruct E1 as (ct & l1 & Hct & -> & -> & ->).
    destruct CH_PROFILE_CNSA2; [injection H2 as <- ->; by exists ct, []|].
    rewrite runl_nbytes_some in H2. destruct H2 as (b & l' & -> & Hb & [= <- ->]). exists ct, b. by rewrite app_nil_r.
  - intros (ct & pub & Hct & Hpub & -> & ->). eexists (if CH_KEX_MLKEM then set_server_ct i (Some ct) else i), (Some pub). split.
    + destruct CH_KEX_MLKEM; [|by destruct ct]. rewrite runl_nbytes_some. by exists ct, pub.
    + rewrite runl_obind_done. eexists _, (Some []). split; [|reflexivity].
      destruct CH_PROFILE_CNSA2; [by destruct pub|]. rewrite runl_nbytes_some. exists pub, []. by rewrite app_nil_r.
Qed.

Lemma kex_sizes : 0 <= sh_kex_group < 2 ^ 16 /\ Z.of_nat sh_kex_share_len < 2 ^ 16.
Proof.
  unfold sh_kex_group, sh_kex_share_len, CH_KEX_GROUP, CH_KEX_SERVER_SHARE, MLKEM_CT_LEN.
  destruct CH_KEX_TWO_GROUPS, CH_PROFILE_CNSA2, CH_KEX_PQ; vm_compute; split_and!; done || discriminate.
Qed.

(** The group's length field and share, once the group is known. *)
Lemma kex_sized_iff i d i' : bytes_ok d ->
  runl (n ← u16_; if negb (n =? Z.of_nat sh_kex_share_len) then eproto else kex_share_body sh_kex_group i) (Some d) =
    (Some (Done i'), Some []) <->
  exists ct pub, sh_legal false true (ShKex ct pub) /\ d = be_bytes 2 (Z.of_nat sh_kex_share_len) ++ ct ++ pub /\
    i' = sh_apply (ShKex ct pub) i.
Proof.
  intros Hd. pose proof kex_sizes as [_ Hs]. rewrite runl_u16_some by done. cbn [sh_legal]. split.
  - intros (n & l & Hn & -> & H). destruct (Z.eqb_spec n (Z.of_nat sh_kex_share_len)) as [->|]; [|discriminate].
    apply kex_share_body_iff in H as (ct & pub & Hct & Hpub & -> & ->). by exists ct, pub.
  - intros (ct & pub & (_ & Hct & Hpub) & -> & ->). do 2 eexists. split_and!; [..|reflexivity|]; try lia.
    rewrite Z.eqb_refl. apply kex_share_body_iff. by exists ct, pub.
Qed.

Lemma parse_key_share_sound hrr psk i d i' : bytes_ok d ->
  runl (parse_key_share i hrr) (Some d) = (Some (Done i'), Some []) ->
  exists x, sh_wire x = (EXT_KEY_SHARE, d) /\ sh_legal hrr psk x /\ i' = sh_apply x i.
Proof.
  intros Hd. unfold parse_key_share. destruct hrr.
  - destruct CH_KEX_TWO_GROUPS eqn:E2; [|discriminate]. intros H. unfold parse_retry_group in H.
    apply runl_u16_some in H as (g & l & Hg & -> & H); [|done].
    destruct (Z.eqb_spec g CH_GROUP_SECP256R1) as [->|]; [|discriminate]. injection H as <- ->.
    exists ShRetryGroup. by rewrite app_nil_r.
  - intros H. apply runl_u16_some in H as (g & l & Hg & -> & H); [|done]. apply Forall_app in Hd as [_ Hd].
    destruct CH_KEX_TWO_GROUPS eqn:E2.
    + destruct (Z.eqb_spec g CH_GROUP_X25519) as [->|].
      { apply (read_sized_whole 32) in H as (b & Hb & -> & ->); [|done|done]. by exists (ShX25519 b). }
      destruct (Z.eqb_spec g CH_GROUP_SECP256R1) as [->|].
      { apply (read_sized_whole 65) in H as (b & Hb & -> & ->); [|done|done]. by exists (ShP256 b). }
      destruct (Z.eqb_spec g CH_GROUP_X25519MLKEM768) as [->|]; [|discriminate]. cbn [negb] in H.
      assert (Eg : sh_kex_group = CH_GROUP_X25519MLKEM768) by (unfold sh_kex_group; by rewrite E2).
      assert (El : sh_kex_share_len = CH_HYBRID_SERVER_SHARE) by (unfold sh_kex_share_len; by rewrite E2).
      rewrite <- El, <- Eg in H. apply kex_sized_iff in H as (ct & pub & Hx & -> & ->); [|done].
      exists (ShKex ct pub). cbn [sh_wire]. rewrite Eg. split; [done|]. split; [exact Hx|done].
    + destruct (Z.eqb_spec g CH_KEX_GROUP) as [->|]; [|discriminate]. cbn [negb] in H.
      assert (Eg : sh_kex_group = CH_KEX_GROUP) by (unfold sh_kex_group; by rewrite E2).
      assert (El : sh_kex_share_len = CH_KEX_SERVER_SHARE) by (unfold sh_kex_share_len; by rewrite E2).
      rewrite <- El, <- Eg in H. apply kex_sized_iff in H as (ct & pub & Hx & -> & ->); [|done].
      exists (ShKex ct pub). cbn [sh_wire]. rewrite Eg. split; [done|]. split; [exact Hx|done].
Qed.

Lemma parse_key_share_complete hrr psk i x d : bytes_ok d ->
  sh_wire x = (EXT_KEY_SHARE, d) -> sh_legal hrr psk x ->
  runl (parse_key_share i hrr) (Some d) = (Some (Done (sh_apply x i)), Some []).
Proof.
  intros Hd Hw Hx. unfold parse_key_share. destruct x as [v|pub|pt|ct pub| |v|c]; try discriminate Hw;
    apply (f_equal snd) in Hw; cbn [snd sh_wire] in Hw; subst d; cbn [sh_legal] in Hx.
  - destruct Hx as (-> & E2 & Hl). rewrite E2. cbv iota. rewrite runl_u16_at by done. rewrite Z.eqb_refl.
    apply Forall_app in Hd as [_ Hd]. apply (read_sized_whole 32); [done|done|]. by exists pub.
  - destruct Hx as (-> & E2 & Hl). rewrite E2. cbv iota. rewrite runl_u16_at by done.
    change (CH_GROUP_SECP256R1 =? CH_GROUP_X25519) with false. cbv iota. rewrite Z.eqb_refl.
    apply Forall_app in Hd as [_ Hd]. apply (read_sized_whole 65); [done|done|]. by exists pt.
  - pose proof kex_sizes as [Hg _]. apply Forall_app in Hd as [_ Hd]. destruct Hx as (-> & Hct & Hpub).
    cbv iota. rewrite runl_u16_at by done.
    assert (H : runl (n ← u16_; if negb (n =? Z.of_nat sh_kex_share_len) then eproto else kex_share_body sh_kex_group i)
      (Some (be_bytes 2 (Z.of_nat sh_kex_share_len) ++ ct ++ pub)) = (Some (Done (sh_apply (ShKex ct pub) i)), Some [])).
    { apply kex_sized_iff; [done|]. by exists ct, pub. }
    revert H. unfold sh_kex_group, sh_kex_share_len. destruct CH_KEX_TWO_GROUPS; [exact id|]. rewrite Z.eqb_refl. exact id.
  - destruct Hx as (-> & E2). rewrite E2. reflexivity.
Qed.

Lemma parse_cookie_iff i hrr d i' : bytes_ok d ->
  runl (parse_cookie i hrr) (Some d) = (Some (Done i'), Some []) <->
  exists c, hrr = true /\ (length c <= HSP_COOKIE_MAX)%nat /\ d = be_bytes 2 (Z.of_nat (length c)) ++ c /\ i' = set_cookie i (Some c).
Proof.
  intros Hd. assert (Hm : (HSP_COOKIE_MAX <= 133)%nat) by (unfold HSP_COOKIE_MAX; destruct CH_PROFILE_CNSA2; lia).
  unfold parse_cookie. destruct hrr; cbn [negb]; [|split; [discriminate|by intros (c & ? & _)]].
  rewrite runl_u16_some by done. split.
  - intros (n & l & Hn & -> & H). apply runl_nbytes_some in H as (c & l' & -> & Hc & H).
    destruct (Z.ltb_spec (Z.of_nat HSP_COOKIE_MAX) n); [discriminate|]. injection H as <- ->. exists c.
    rewrite app_nil_r, Hc, Z2Nat.id by lia. split_and!; try done; lia.
  - intros (c & _ & Hc & -> & ->). exists (Z.of_nat (length c)), c. split_and!; try done; try lia.
    rewrite Nat2Z.id. apply runl_nbytes_some. exists c, []. rewrite app_nil_r. split_and!; try done.
    by destruct (Z.ltb_spec (Z.of_nat HSP_COOKIE_MAX) (Z.of_nat (length c))); [lia|].
Qed.

Lemma ext_body_iff t i hrr psk d i' : bytes_ok d -> server_hello_ext_bit t <> 0 ->
  (t = EXT_PRE_SHARED_KEY -> hrr = false /\ psk = true) ->
  parse (server_hello_ext_body t i hrr) d = Some (Done i') <->
  exists x, sh_wire x = (t, d) /\ sh_legal hrr psk x /\ i' = sh_apply x i.
Proof.
  intros Hd Hbit Hpsk. unfold server_hello_ext_body. rewrite (parse_whole _ id) by done.
  transitivity (runl (if t =? EXT_SUPPORTED_VERSIONS then v ← u16_; Ret (Done (set_version_ok i (v =? TLS13)))
     else if t =? EXT_KEY_SHARE then parse_key_share i hrr
     else if t =? EXT_PRE_SHARED_KEY then v ← u16_; Ret (Done (set_psk_ok i (v =? 0))) else parse_cookie i hrr)
     (Some d) = (Some (Done i'), Some [])); [unfold id; naive_solver|].
  unfold server_hello_ext_bit in Hbit. destruct (Z.eqb_spec t EXT_SUPPORTED_VERSIONS) as [->|H1].
  { rewrite read_u16_whole by done. split; [intros (v & Hv & -> & ->); by exists (ShVersion v)|].
    intros ([] & Hw & Hx & ->); try discriminate Hw. apply (f_equal snd) in Hw. cbn in Hx. by eexists. }
  destruct (Z.eqb_spec t EXT_KEY_SHARE) as [->|H2].
  { split; [by apply parse_key_share_sound|]. intros (x & Hw & Hx & ->). by eapply parse_key_share_complete. }
  destruct (Z.eqb_spec t EXT_PRE_SHARED_KEY) as [->|H3].
  { rewrite read_u16_whole by done. destruct (Hpsk eq_refl). split; [intros (v & Hv & -> & ->); by exists (ShPsk v)|].
    intros ([] & Hw & Hx & ->); try discriminate Hw. apply (f_equal snd) in Hw. destruct Hx as (_ & _ & ?). by eexists. }
  destruct (Z.eqb_spec t EXT_COOKIE) as [->|H4]; [|done].
  rewrite parse_cookie_iff by done. split; [intros (c & -> & Hc & -> & ->); by exists (ShCookie c)|].
  intros ([] & Hw & Hx & ->); try discriminate Hw. apply (f_equal snd) in Hw. destruct Hx as (-> & ?). by eexists.
Qed.

(** ** Lemmas: the extension block *)

Definition sh_type (x : sh_ext) : Z := (sh_wire x).1.
(** The number of an extension's bit. *)
Definition sh_idx (t : Z) : Z :=
  if (t =? EXT_SUPPORTED_VERSIONS) then 0 else if (t =? EXT_KEY_SHARE) then 1
  else if (t =? EXT_PRE_SHARED_KEY) then 2 else 3.

Lemma sh_types x : sh_type x = EXT_SUPPORTED_VERSIONS \/ sh_type x = EXT_KEY_SHARE \/
  sh_type x = EXT_PRE_SHARED_KEY \/ sh_type x = EXT_COOKIE.
Proof. destruct x; auto. Qed.

Lemma sh_bit_idx x : sh_bit x = 2 ^ sh_idx (sh_type x) /\ 0 <= sh_idx (sh_type x) <= 3.
Proof. unfold sh_bit. fold (sh_type x). destruct (sh_types x) as [->|[->|[->| ->]]]; vm_compute; split_and!; done || discriminate. Qed.

Lemma sh_idx_inj x y : sh_idx (sh_type x) = sh_idx (sh_type y) <-> sh_type x = sh_type y.
Proof.
  split; [|by intros ->]. destruct (sh_types x) as [->|[->|[->| ->]]], (sh_types y) as [->|[->|[->| ->]]];
    done || (intros H; vm_compute in H; discriminate).
Qed.

Definition sh_ext_step (hrr psk : bool) (_ : nat) (i : server_hello_info) (x : ext) : option server_hello_info :=
  if (x.1 =? EXT_PRE_SHARED_KEY) && (hrr || negb psk) then None
  else
    let bit := server_hello_ext_bit x.1 in
    if (bit =? 0) || negb (sh_seen i .& bit =? 0) then None
    else match parse (server_hello_ext_body x.1 (set_seen i (u8 (sh_seen i .| bit))) hrr) x.2 with
         | Some (Done i') => Some i' | _ => None end.

Lemma parse_server_hello_ext_done hrr psk i l i' s' : bytes_ok l -> l <> [] ->
  runl (parse_server_hello_ext hrr psk i) (Some l) = (Some (Done i'), s') <->
  exists x l', ext_fits x /\ l = wire_ext x ++ l' /\ s' = Some l' /\ sh_ext_step hrr psk (length l) i x = Some i'.
Proof.
  intros Hl _. unfold parse_server_hello_ext. rewrite read_ext_iff by done. unfold sh_ext_step. split.
  - intros (x & l' & Hx & -> & H). cbn [fst snd] in H. exists x, l'. split; [done|]. split; [done|]. revert H.
    destruct (_ && _); [discriminate|]. destruct (_ =? 0); [discriminate|]. cbn [orb]. destruct (negb _); [discriminate|].
    intros H. apply runl_sub_some in H as [-> <-]. done.
  - intros (x & l' & Hx & -> & -> & H). exists x, l'. split; [done|]. split; [done|]. cbn [fst snd]. revert H.
    destruct (_ && _); [discriminate|]. destruct (_ =? 0); [discriminate|]. cbn [orb]. destruct (negb _); [discriminate|].
    intros H. apply runl_sub_some. split; [|done]. by destruct (parse _ x.2) as [[]|]; simplify_eq.
Qed.

(** One step of the walk, as the grammar reads it. *)
Lemma sh_ext_step_iff hrr psk n i x i' : bytes_ok x.2 -> 0 <= sh_seen i < 2 ^ 8 ->
  sh_ext_step hrr psk n i x = Some i' <->
  exists y, x = sh_wire y /\ sh_legal hrr psk y /\ Z.testbit (sh_seen i) (sh_idx (sh_type y)) = false /\ i' = sh_step y i.
Proof.
  intros Hx Hs. unfold sh_ext_step. split.
  - destruct (_ && _) eqn:E1; [discriminate|]. destruct (Z.eqb_spec (server_hello_ext_bit x.1) 0) as [|Hb]; [discriminate|].
    cbn [orb]. destruct (sh_seen i .& server_hello_ext_bit x.1 =? 0) eqn:E2; cbn [negb]; [|discriminate].
    destruct (parse _ x.2) as [[i1|]|] eqn:E; try discriminate. intros [= <-].
    apply (ext_body_iff _ _ _ psk) in E as (y & Hw & Hy & ->); [|done|done|].
    + exists y. rewrite Hw. destruct x as [t d]. cbn [fst snd] in *. split; [done|]. split; [done|].
      assert (Et : sh_bit y = server_hello_ext_bit t) by (unfold sh_bit; by rewrite Hw).
      unfold sh_step. rewrite Et. split; [|done]. rewrite <- Et in E2. destruct (sh_bit_idx y) as [Eb Hi].
      rewrite Eb, land_bit_clear in E2 by lia. by destruct (Z.testbit _ _).
    + intros Ht. rewrite Ht, Z.eqb_refl in E1. by destruct hrr, psk.
  - intros (y & -> & Hy & Ht & ->). fold (sh_type y). destruct (sh_bit_idx y) as [Eb Hi].
    assert (Eb' : server_hello_ext_bit (sh_type y) = 2 ^ sh_idx (sh_type y)) by exact Eb. rewrite Eb', land_bit_clear, Ht by lia.
    destruct (Z.eqb_spec (2 ^ sh_idx (sh_type y)) 0) as [H0|_]; [pose proof (Z.pow_pos_nonneg 2 (sh_idx (sh_type y))); lia|].
    assert (E1 : (sh_type y =? EXT_PRE_SHARED_KEY) && (hrr || negb psk) = false).
    { destruct y; try done. destruct Hy as (-> & -> & _). done. }
    rewrite E1. cbn [orb negb]. replace (parse _ (sh_wire y).2) with (Some (Done (sh_step y i))); [done|]. symmetry.
    apply (ext_body_iff _ _ _ psk); [done| | |].
    + rewrite Eb'. pose proof (Z.pow_pos_nonneg 2 (sh_idx (sh_type y))). lia.
    + intros Ht'. rewrite Ht', Z.eqb_refl in E1. by destruct hrr, psk.
    + exists y. unfold sh_step, sh_bit. fold (sh_type y). rewrite Eb'. by destruct (sh_wire y) eqn:Ew; unfold sh_type; rewrite Ew.
Qed.

Definition sh_report : list sh_ext -> server_hello_info -> server_hello_info := report sh_step.

Lemma seen_apply x i : sh_seen (sh_apply x i) = sh_seen i.
Proof. destruct x; try done. cbn. by destruct CH_KEX_MLKEM, CH_PROFILE_CNSA2. Qed.

Lemma seen_step x i : 0 <= sh_seen i < 2 ^ 8 ->
  sh_seen (sh_step x i) = Z.lor (sh_seen i) (2 ^ sh_idx (sh_type x)) /\ 0 <= sh_seen (sh_step x i) < 2 ^ 8.
Proof.
  intros Hs. unfold sh_step. rewrite seen_apply. cbn [sh_seen set_seen]. destruct (sh_bit_idx x) as [-> Hi].
  assert (Hb : 0 <= 2 ^ sh_idx (sh_type x) < 2 ^ 8) by (split; [lia|apply Z.pow_lt_mono_r; lia]).
  pose proof (lor_bound 8 _ _ ltac:(lia) Hs Hb). rewrite u8_small by done. done.
Qed.

Lemma sh_walk_iff hrr psk xs i i' : Forall (fun x => bytes_ok x.2) xs -> 0 <= sh_seen i < 2 ^ 8 ->
  walk (sh_ext_step hrr psk) i xs = Some i' <->
  exists ys, xs = sh_wire <$> ys /\ Forall (sh_legal hrr psk) ys /\ NoDup (sh_type <$> ys) /\
    Forall (fun y => Z.testbit (sh_seen i) (sh_idx (sh_type y)) = false) ys /\ i' = sh_report ys i.
Proof.
  apply (mask_walk_iff _ sh_wire _ sh_step sh_seen sh_idx).
  - intros y. destruct (sh_bit_idx y) as [_ Hi]. unfold sh_type in Hi. unfold ytype. lia.
  - intros y z. apply sh_idx_inj.
  - apply seen_step.
  - intros. by apply sh_ext_step_iff.
Qed.

(** ** Lemmas: the message *)

Definition sh_suite_ok (suite : Z) : Prop :=
  (if CH_SUITE_AES_GCM then suite_offered suite else suite =? SUITE_CHACHA20_POLY1305_SHA256) = true.
Definition sh_exts (ys : list sh_ext) : list Z := wire_exts (sh_wire <$> ys).
Definition sh_message (random : list Z) (suite : Z) (ys : list sh_ext) : list Z :=
  be_bytes 2 0x0303 ++ random ++ [0] ++ be_bytes 2 suite ++ [0] ++
  be_bytes 2 (Z.of_nat (length (sh_exts ys))) ++ sh_exts ys.
(** What the parser knows before the extensions. *)
Definition sh_base (random : list Z) (suite : Z) : server_hello_info :=
  let i := set_hrr zero_info (bytes_eqb random hsp_hrr_magic) in
  if CH_SUITE_AES_GCM then set_suite i suite else i.
Definition sh_is_hrr (random : list Z) : bool := bytes_eqb random hsp_hrr_magic.

Lemma sh_suite_range suite : sh_suite_ok suite -> 0 <= suite < 2 ^ 16.
Proof.
  unfold sh_suite_ok, suite_offered. destruct CH_SUITE_AES_GCM, CH_CLIENT_AES_SUITES, CH_PROFILE_CNSA2;
    rewrite ?orb_true_iff, !Z.eqb_eq; unfold SUITE_CHACHA20_POLY1305_SHA256, SUITE_AES_128_GCM_SHA256, SUITE_AES_256_GCM_SHA384; lia.
Qed.

Lemma sh_legal_fits hrr psk y : sh_legal hrr psk y -> ext_fits (sh_wire y).
Proof.
  assert (HSP_COOKIE_MAX <= 133)%nat by (unfold HSP_COOKIE_MAX; destruct CH_PROFILE_CNSA2; lia).
  assert (MLKEM_CT_LEN <= 1568)%nat by (unfold MLKEM_CT_LEN, MLKEM_CT_LEN_1024, MLKEM_CT_LEN_768; destruct CH_PROFILE_CNSA2; lia).
  unfold ext_fits, sh_legal. intros Hy. destruct y; cbn [sh_wire fst snd];
    unfold EXT_SUPPORTED_VERSIONS, EXT_KEY_SHARE, EXT_PRE_SHARED_KEY, EXT_COOKIE;
    rewrite ?length_app, ?length_be_bytes; destruct CH_KEX_MLKEM, CH_PROFILE_CNSA2; lia.
Qed.

(** A run that has underrun is refused. *)
Ltac starved :=
  repeat first
    [ discriminate
    | progress rewrite ?runl_u16_none, ?runl_u8_none, ?runl_err
    | progress cbn [is_err orb]
    | match goal with |- context [if ?c then _ else _] => destruct c end ].

(** The extension block and the last check. *)
Lemma sh_block_iff hrr psk i l i' s' : bytes_ok l -> sh_seen i = 0 ->
  runl (info ←! loop_left (parse_server_hello_ext hrr psk) i; if sh_version_ok info then Ret (Done info) else eproto) (Some l) =
    (Some (Done i'), s') <->
  s' = Some [] /\ exists ys, l = sh_exts ys /\ Forall (sh_legal hrr psk) ys /\ NoDup (sh_type <$> ys) /\
    i' = sh_report ys i /\ sh_version_ok i' = true.
Proof.
  intros Hl Hs. rewrite runl_obind_done. split.
  - intros (i1 & s1 & H1 & H2).
    apply (loop_left_done _ (sh_ext_step hrr psk)) in H1 as (xs & Hf & -> & -> & Hw);
      [|by intros; apply parse_server_hello_ext_done|done].
    apply wire_exts_ok in Hl. apply sh_walk_iff in Hw as (ys & -> & Hy & Hnd & _ & ->); [|done|rewrite Hs; lia].
    destruct (sh_version_ok (sh_report ys i)) eqn:Ev; [|discriminate]. injection H2 as <- <-. split; [done|]. by exists ys.
  - intros (-> & ys & -> & Hy & Hnd & -> & Hv). exists (sh_report ys i), (Some []). split; [|by rewrite Hv].
    apply (loop_left_done _ (sh_ext_step hrr psk)); [by intros; apply parse_server_hello_ext_done|done|].
    exists (sh_wire <$> ys). split; [|split; [done|split; [done|]]].
    + apply Forall_fmap. eapply Forall_impl; [exact Hy|]. apply sh_legal_fits.
    + apply sh_walk_iff; [by apply wire_exts_ok|rewrite Hs; lia|]. exists ys. split_and!; try done.
      apply Forall_forall. intros y _. rewrite Hs. apply Z.bits_0.
Qed.

Lemma sh_base_fields random suite : sh_seen (sh_base random suite) = 0 /\ sh_hrr (sh_base random suite) = sh_is_hrr random /\
  sh_version_ok (sh_base random suite) = false /\ sh_cookie (sh_base random suite) = None /\ sh_psk_ok (sh_base random suite) = false /\
  sh_have_share (sh_base random suite) = false.
Proof. unfold sh_base. by destruct CH_SUITE_AES_GCM. Qed.

Lemma server_hello_sound psk body i : bytes_ok body ->
  parse (hsp_parse_server_hello psk zero_info) body = Some (Done i) ->
  exists random suite ys, length random = 32%nat /\ sh_suite_ok suite /\ body = sh_message random suite ys /\
    Forall (sh_legal (sh_is_hrr random) psk) ys /\ NoDup (sh_type <$> ys) /\
    Z.of_nat (length (sh_exts ys)) < 2 ^ 16 /\ i = sh_report ys (sh_base random suite) /\ sh_version_ok i = true.
Proof.
  intros Hb. rewrite parse_some by done. intros (s' & H). unfold hsp_parse_server_hello in H.
  rewrite runl_u16_iff in H; [|done|intros; starved]. destruct H as (v & l1 & Hv & -> & H). apply Forall_app in Hb as [_ Hb].
  destruct (Z.eqb_spec v 0x0303) as [->|]; [|discriminate]. cbn [negb] in H.
  rewrite runl_nbytes_iff in H by done. destruct H as (random & l2 & -> & Hr & H). apply Forall_app in Hb as [_ Hb].
  rewrite runl_u8_iff in H; [|done|intros; starved]. destruct H as (sid & l3 & _ & -> & H). apply Forall_cons in Hb as [_ Hb].
  destruct (Z.eqb_spec sid 0) as [->|]; [|discriminate]. cbn [negb] in H.
  rewrite runl_u16_iff in H; [|done|intros; starved]. destruct H as (suite & l4 & Hsu & -> & H). apply Forall_app in Hb as [_ Hb].
  match type of H with runl (if negb ?c then _ else _) _ = _ => destruct c eqn:Esu; [|discriminate] end. cbn [negb] in H.
  rewrite runl_u8_iff in H; [|done|intros; starved]. destruct H as (comp & l5 & _ & -> & H). apply Forall_cons in Hb as [_ Hb].
  destruct (Z.eqb_spec comp 0) as [->|]; [|discriminate]. cbn [negb] in H.
  rewrite runl_u16_iff in H; [|done|intros; starved]. destruct H as (n & l6 & Hn & -> & H). apply Forall_app in Hb as [_ Hb].
  rewrite runl_err, runl_left in H. cbn [is_err left_of orb] in H.
  destruct (Z.eqb_spec n (Z.of_nat (length l6))) as [->|]; [|discriminate]. cbn [negb] in H.
  fold (sh_base random suite) in H. destruct (sh_base_fields random suite) as (E0 & Eh & _). rewrite Eh in H.
  apply sh_block_iff in H as (-> & ys & -> & Hy & Hnd & -> & Hv1); [|done|done].
  exists random, suite, ys. unfold sh_message. split_and!; try done. lia.
Qed.

Lemma server_hello_complete psk random suite ys : length random = 32%nat -> sh_suite_ok suite ->
  bytes_ok (sh_message random suite ys) -> Forall (sh_legal (sh_is_hrr random) psk) ys -> NoDup (sh_type <$> ys) ->
  Z.of_nat (length (sh_exts ys)) < 2 ^ 16 -> sh_version_ok (sh_report ys (sh_base random suite)) = true ->
  parse (hsp_parse_server_hello psk zero_info) (sh_message random suite ys) = Some (Done (sh_report ys (sh_base random suite))).
Proof.
  intros Hr Hs Hb Hy Hnd Hn Hv. rewrite parse_some by done. exists (Some []). unfold sh_message, hsp_parse_server_hello in *.
  rewrite !Forall_app in Hb. destruct Hb as (_ & _ & _ & _ & _ & _ & Hb).
  rewrite runl_u16_at by done. cbn [negb Z.eqb Pos.eqb]. rewrite runl_nbytes_iff by done.
  do 2 eexists. split; [reflexivity|]. split; [done|]. cbn [app]. rewrite runl_u8_cons. cbn [negb Z.eqb].
  rewrite runl_u16_at by by apply sh_suite_range. rewrite Hs. cbn [negb]. rewrite runl_u8_cons. cbn [negb Z.eqb].
  rewrite runl_u16_at by lia. rewrite runl_err, runl_left. cbn [is_err left_of orb]. rewrite Z.eqb_refl. cbn [negb].
  fold (sh_base random suite). destruct (sh_base_fields random suite) as (E0 & Eh & _). rewrite Eh.
  apply sh_block_iff; [done|done|]. split; [done|]. by exists ys.
Qed.

(** ** Lemmas: what is reported *)

Definition sh_is_share (y : sh_ext) : Prop :=
  match y with ShX25519 _ | ShP256 _ | ShKex _ _ => True | _ => False end.

(** Fields written by one type only. *)
Lemma other_version y i : sh_type y <> EXT_SUPPORTED_VERSIONS -> sh_version_ok (sh_step y i) = sh_version_ok i.
Proof. destruct y; try done. cbn. by destruct CH_KEX_MLKEM, CH_PROFILE_CNSA2. Qed.
Lemma other_cookie y i : sh_type y <> EXT_COOKIE -> sh_cookie (sh_step y i) = sh_cookie i.
Proof. destruct y; try done. cbn. by destruct CH_KEX_MLKEM, CH_PROFILE_CNSA2. Qed.
Lemma other_psk y i : sh_type y <> EXT_PRE_SHARED_KEY -> sh_psk_ok (sh_step y i) = sh_psk_ok i.
Proof. destruct y; try done. cbn. by destruct CH_KEX_MLKEM, CH_PROFILE_CNSA2. Qed.
Definition sh_share i := (sh_have_share i, sh_group i, sh_server_pub i, sh_server_ct i, sh_server_p256 i).
Lemma other_share y i : sh_type y <> EXT_KEY_SHARE -> sh_share (sh_step y i) = sh_share i.
Proof. by destruct y. Qed.
Lemma own_share y i j : sh_share i = sh_share j -> sh_share (sh_step y i) = sh_share (sh_step y j).
Proof. destruct i, j; unfold sh_share; cbn; intros [= -> -> -> -> ->]. destruct y; try done. cbn. by destruct CH_KEX_MLKEM, CH_PROFILE_CNSA2. Qed.

Lemma report_hrr ys i : sh_hrr (sh_report ys i) = sh_hrr i.
Proof.
  unfold sh_report. apply (report_other sh_wire sh_step sh_hrr (-1)); [|apply Forall_forall; intros []; done].
  intros [] ? _; try done. cbn. by destruct CH_KEX_MLKEM, CH_PROFILE_CNSA2.
Qed.

Lemma version_seen random suite ys : NoDup (sh_type <$> ys) ->
  sh_version_ok (sh_report ys (sh_base random suite)) = true <-> ShVersion TLS13 ∈ ys.
Proof.
  unfold sh_report. intros Hnd. destruct (sh_base_fields random suite) as (_ & _ & E & _). split.
  - intros H. destruct (report_absent sh_wire sh_step sh_version_ok _ ys (sh_base random suite) other_version) as (y & Hin & Ht); [by rewrite H, E|].
    rewrite (report_field sh_wire sh_step sh_version_ok _ y ys _ other_version) in H by (done || by destruct y).
    destruct y; try discriminate Ht. cbn in H. apply Z.eqb_eq in H. by subst.
  - intros Hin. by rewrite (report_field sh_wire sh_step sh_version_ok _ (ShVersion TLS13) ys _ other_version (fun _ _ _ => eq_refl) Hnd Hin).
Qed.

Lemma cookie_seen random suite ys c : NoDup (sh_type <$> ys) ->
  sh_cookie (sh_report ys (sh_base random suite)) = Some c <-> ShCookie c ∈ ys.
Proof.
  unfold sh_report. intros Hnd. destruct (sh_base_fields random suite) as (_ & _ & _ & E & _). split.
  - intros H. destruct (report_absent sh_wire sh_step sh_cookie _ ys (sh_base random suite) other_cookie) as (y & Hin & Ht); [by rewrite H, E|].
    rewrite (report_field sh_wire sh_step sh_cookie _ y ys _ other_cookie) in H by (done || by destruct y).
    destruct y; try discriminate Ht. cbn in H. by injection H as <-.
  - intros Hin. by rewrite (report_field sh_wire sh_step sh_cookie _ (ShCookie c) ys _ other_cookie (fun _ _ _ => eq_refl) Hnd Hin).
Qed.

Lemma psk_seen random suite ys : NoDup (sh_type <$> ys) ->
  sh_psk_ok (sh_report ys (sh_base random suite)) = true <-> ShPsk 0 ∈ ys.
Proof.
  unfold sh_report. intros Hnd. destruct (sh_base_fields random suite) as (_ & _ & _ & _ & E & _). split.
  - intros H. destruct (report_absent sh_wire sh_step sh_psk_ok _ ys (sh_base random suite) other_psk) as (y & Hin & Ht); [by rewrite H, E|].
    rewrite (report_field sh_wire sh_step sh_psk_ok _ y ys _ other_psk) in H by (done || by destruct y).
    destruct y; try discriminate Ht. cbn in H. apply Z.eqb_eq in H. by subst.
  - intros Hin. by rewrite (report_field sh_wire sh_step sh_psk_ok _ (ShPsk 0) ys _ other_psk (fun _ _ _ => eq_refl) Hnd Hin).
Qed.

Lemma share_own ys y random suite : NoDup (sh_type <$> ys) -> y ∈ ys -> sh_type y = EXT_KEY_SHARE ->
  sh_share (report sh_step ys (sh_base random suite)) = sh_share (sh_step y (sh_base random suite)).
Proof. intros Hnd Hin Ht. apply (report_field sh_wire sh_step sh_share _ y ys _ other_share); [|done..]. intros. by apply own_share. Qed.

Lemma share_seen random suite ys : NoDup (sh_type <$> ys) ->
  sh_have_share (sh_report ys (sh_base random suite)) = true <-> exists y, y ∈ ys /\ sh_is_share y.
Proof.
  unfold sh_report. intros Hnd. destruct (sh_base_fields random suite) as (_ & _ & _ & _ & _ & E). split.
  - intros H. destruct (report_absent sh_wire sh_step sh_share _ ys (sh_base random suite) other_share) as (y & Hin & Ht).
    { unfold sh_share. rewrite H, E. by intros [=]. }
    pose proof (share_own ys y random suite Hnd Hin Ht) as Hs. apply (f_equal (fun t => t.1.1.1.1)) in Hs. cbn in Hs. rewrite H in Hs.
    exists y. split; [done|]. destruct y; try done. cbn in Hs. by rewrite E in Hs.
  - intros (y & Hin & Hy). assert (Ht : sh_type y = EXT_KEY_SHARE) by by destruct y.
    pose proof (share_own ys y random suite Hnd Hin Ht) as Hs. apply (f_equal (fun t => t.1.1.1.1)) in Hs. cbn in Hs. rewrite Hs.
    by destruct y.
Qed.

Lemma share_fields ys y random suite : NoDup (sh_type <$> ys) -> y ∈ ys ->
  let i := sh_report ys (sh_base random suite) in
  match y with
  | ShX25519 pub => sh_group i = CH_GROUP_X25519 /\ sh_server_pub i = pub
  | ShP256 point => sh_group i = CH_GROUP_SECP256R1 /\ sh_server_p256 i = Some point
  | ShKex ct pub => sh_group i = sh_kex_group /\
      (CH_KEX_MLKEM = true -> sh_server_ct i = Some ct) /\ (CH_PROFILE_CNSA2 = false -> sh_server_pub i = pub)
  | _ => True
  end.
Proof.
  intros Hnd Hin i. subst i. unfold sh_report. destruct y; try done;
    match goal with |- context [report _ ys _] => pose proof (share_own ys _ random suite Hnd Hin eq_refl) as Hs end;
    unfold sh_share in Hs; injection Hs as _ Hg Hp Hc Hq; rewrite ?Hg, ?Hp, ?Hc, ?Hq; try done.
  cbn. destruct CH_KEX_MLKEM, CH_PROFILE_CNSA2; done.
Qed.

(** ** Lemmas: termination *)

Definition only_eproto (rc : Z) (al : option Z) : Prop := rc = CH_EPROTO /\ al = None.
Abbreviation settles p := (total (fine only_eproto any) p) (only parsing).

Lemma key_share_total i hrr : settles (parse_key_share i hrr).
Proof.
  unfold parse_key_share, parse_retry_group, parse_x25519_share, parse_p256_share, kex_share_body.
  repeat first [total_step | eapply (total_obind _ any); [|intros ? _]].
Qed.

Lemma ext_body_total t i hrr : settles (server_hello_ext_body t i hrr).
Proof.
  unfold server_hello_ext_body, parse_cookie. eapply (total_obind _ any); [|intros ? _; repeat total_step].
  repeat first [apply key_share_total | total_step].
Qed.

Lemma server_hello_ext_total hrr psk i : settles (parse_server_hello_ext hrr psk i).
Proof.
  unfold parse_server_hello_ext. eapply total_bind; [apply total_read_ext|]. intros [t o] Ho. cbn [fst snd] in *.
  destruct o as [d|]; [|by apply total_ret]. repeat first [apply total_sub; [done|apply ext_body_total] | total_step].
Qed.

Lemma server_hello_ext_shrinks hrr psk i l i' s' : bytes_ok l -> l <> [] ->
  runl (parse_server_hello_ext hrr psk i) (Some l) = (Some (Done i'), s') ->
  exists l', s' = Some l' /\ (length l' < length l)%nat.
Proof.
  intros Hl Hne H. apply parse_server_hello_ext_done in H as (x & l' & _ & -> & -> & _); [|done|done].
  exists l'. rewrite length_app, length_wire_ext. split; [done|lia].
Qed.

Lemma server_hello_total psk : settles (hsp_parse_server_hello psk zero_info).
Proof.
  unfold hsp_parse_server_hello. repeat total_step.
  all: eapply (total_obind _ any); [|intros; repeat total_step].
  all: apply total_loop_left; [intros; apply server_hello_ext_total|apply server_hello_ext_shrinks|done].
Qed.

(** ** Properties *)

(** C11. The ServerHello parser accepts exactly its grammar.  A body is
    accepted, with the report [i], exactly when it is the encoding of a
    32-byte random, a suite the build can offer and a list of extensions, one
    per type, each legal for this kind of hello (a HelloRetryRequest when the
    random is the magic value) and this PSK mode, with supported_versions
    0x0304 among them; [i] is what those extensions say. *)
Theorem server_hello_exact psk body i : bytes_ok body ->
  parse (hsp_parse_server_hello psk zero_info) body = Some (Done i) <->
  exists random suite ys, length random = 32%nat /\ sh_suite_ok suite /\ body = sh_message random suite ys /\
    Z.of_nat (length (sh_exts ys)) < 2 ^ 16 /\
    Forall (sh_legal (sh_is_hrr random) psk) ys /\ NoDup (sh_type <$> ys) /\ ShVersion TLS13 ∈ ys /\
    i = sh_report ys (sh_base random suite).
Proof.
  intros Hb. split.
  - intros H. destruct (server_hello_sound psk body i Hb H) as (random & suite & ys & Hr & Hs & -> & Hy & Hnd & Hn & -> & Hv).
    exists random, suite, ys. split_and!; try done. by eapply version_seen.
  - intros (random & suite & ys & Hr & Hs & -> & Hn & Hy & Hnd & Hv & ->). apply server_hello_complete; try done.
    by apply version_seen.
Qed.

(** What an accepted hello reports, whatever the order of its
    extensions: the cookie and the PSK selection are those of the extension
    that carries them, the retry flag is the magic random, and a share is
    reported exactly when a key_share with one was read, with the group and
    the key the extension named. *)
Theorem server_hello_report random suite ys : NoDup (sh_type <$> ys) ->
  let i := sh_report ys (sh_base random suite) in
  sh_hrr i = sh_is_hrr random /\
  (forall c, sh_cookie i = Some c <-> ShCookie c ∈ ys) /\
  (sh_psk_ok i = true <-> ShPsk 0 ∈ ys) /\
  (sh_have_share i = true <-> exists y, y ∈ ys /\ sh_is_share y) /\
  (forall pub, ShX25519 pub ∈ ys -> sh_group i = CH_GROUP_X25519 /\ sh_server_pub i = pub) /\
  (forall point, ShP256 point ∈ ys -> sh_group i = CH_GROUP_SECP256R1 /\ sh_server_p256 i = Some point) /\
  (forall ct pub, ShKex ct pub ∈ ys -> sh_group i = sh_kex_group /\
    (CH_KEX_MLKEM = true -> sh_server_ct i = Some ct) /\ (CH_PROFILE_CNSA2 = false -> sh_server_pub i = pub)).
Proof.
  intros Hnd i. subst i. split_and!.
  - rewrite report_hrr. apply sh_base_fields.
  - intros c. by apply cookie_seen.
  - by apply psk_seen.
  - by apply share_seen.
  - intros pub Hin. exact (share_fields ys _ random suite Hnd Hin).
  - intros point Hin. exact (share_fields ys _ random suite Hnd Hin).
  - intros ct pub Hin. exact (share_fields ys _ random suite Hnd Hin).
Qed.

(** The ServerHello parser always returns: on every body it yields a
    report or CH_EPROTO with the caller's alert, and its loop ends. *)
Theorem server_hello_returns psk body : bytes_ok body ->
  exists o, parse (hsp_parse_server_hello psk zero_info) body = Some o /\
    match o with Done _ => True | Refuse rc al => rc = CH_EPROTO /\ al = None end.
Proof.
  intros Hb. rewrite parse_list by done. destruct (server_hello_total psk (Some body) Hb) as (o & s' & -> & Ho & _). by exists o.
Qed.
End Parsers.

(** A plain hello of the x25519 build. *)
Definition sample_hello : list sh_ext := [ShVersion TLS13; ShKex [] (replicate 32 9)].

Lemma server_hello_exact_witness :
  parse (hsp_parse_server_hello (build := raw_build) false zero_info)
    (sh_message (build := raw_build) (replicate 32 7) 0x1303 sample_hello) =
  Some (Done (sh_report (build := raw_build) sample_hello (sh_base (build := raw_build) (replicate 32 7) 0x1303))).
Proof.
  apply (server_hello_exact (build := raw_build)).
  - vm_compute. repeat (constructor; [split; discriminate || reflexivity|]); constructor.
  - exists (replicate 32 7), 0x1303, sample_hello. split; [done|]. split; [done|]. split; [done|]. split; [vm_compute; done|].
    split; [|split; [|split; [by left|done]]].
    + apply Forall_cons; split; [unfold sh_legal, TLS13; lia|]. apply Forall_cons; split; [vm_compute; done|constructor].
    + apply (bool_decide_unpack _). vm_compute. exact I.
Defined.

Lemma server_hello_report_witness :
  sh_have_share (sh_report (build := raw_build) sample_hello (sh_base (build := raw_build) (replicate 32 7) 0x1303)) = true.
Proof.
  eapply (server_hello_report (build := raw_build) (replicate 32 7) 0x1303 sample_hello).
  - apply (bool_decide_unpack _). vm_compute. exact I.
  - exists (ShKex [] (replicate 32 9)). split; [by right; left|done].
Defined.

Lemma server_hello_returns_witness :
  exists o, parse (hsp_parse_server_hello (build := raw_build) false zero_info) [3; 3; 0] = Some o.
Proof.
  destruct (server_hello_returns (build := raw_build) false [3; 3; 0]) as (o & H & _).
  - repeat (constructor; [split; discriminate || reflexivity|]); constructor.
  - by exists o.
Defined.
End Hsp.
