(* ===== verification/HsParserEe.v ===== *)
(** * EncryptedExtensions, Certificate framing and CertificateVerify:
      src/src/handshake_parser_ee.c and the end of handshake_parser.c

    The client's remaining parsers, in every build, with the alert each
    refusal names. *)

From S2P Require Import Prelude Ct Buf Reader Build Wire.
Local Open Scope Z_scope.
Local Open Scope word_scope.

Module Ee.
Section Parsers.
Context {build : HsBuild}.

(** ** Certificate and CertificateVerify *)

Definition hsp_parse_certificate : prog (outcome (option (list Z))) :=
  c ← u8_;
  if negb (c =? 0) then refuse ALERT_ILLEGAL_PARAMETER
  else
    len ← u24_;
    e ← err_;
    n ← left_;
    if e || negb (len =? Z.of_nat n) || (len =? 0) then eproto
    else list ← nbytes_ (Z.to_nat len); Ret (Done list).

Definition certificate_verify_scheme_ok (algorithm : Z) : bool :=
  (algorithm =? SIGALG_RSA_PSS_RSAE_SHA256) || (algorithm =? SIGALG_ECDSA_P256_SHA256) || (algorithm =? SIGALG_ECDSA_P384_SHA384).

(** The scheme and the signature. *)
Definition hsp_parse_certificate_verify : prog (outcome (Z * list Z)) :=
  algorithm ← u16_;
  if negb (if CH_TRUST_WEBPKI then certificate_verify_scheme_ok algorithm else algorithm =? CH_PIN_SIGALG) then
    Ret (Refuse CH_EAUTH (Some ALERT_HANDSHAKE_FAILURE))
  else
    len ← u16_;
    sig ← nbytes_ (Z.to_nat len);
    n ← left_;
    match sig with
    | None => eproto
    | Some sig => if negb (n =? 0)%nat then eproto else Ret (Done (algorithm, sig))
    end.

(** ** EncryptedExtensions *)

(** What the loop writes: the caller's outputs, the mask and the alert of an
    arm that refused. *)
Record ee_state := EeState {
  ee_peer_limit : Z; ee_selected : Z; ee_cert_type : Z; ee_transport : option (list Z); ee_seen : Z; ee_arm_alert : Z }.
Definition set_limit s v := EeState v (ee_selected s) (ee_cert_type s) (ee_transport s) (ee_seen s) (ee_arm_alert s).
Definition set_selected s v := EeState (ee_peer_limit s) v (ee_cert_type s) (ee_transport s) (ee_seen s) (ee_arm_alert s).
Definition set_cert_type s v := EeState (ee_peer_limit s) (ee_selected s) v (ee_transport s) (ee_seen s) (ee_arm_alert s).
Definition set_transport s v := EeState (ee_peer_limit s) (ee_selected s) (ee_cert_type s) v (ee_seen s) (ee_arm_alert s).
Definition set_seen s v := EeState (ee_peer_limit s) (ee_selected s) (ee_cert_type s) (ee_transport s) v (ee_arm_alert s).
Definition set_arm_alert s v := EeState (ee_peer_limit s) (ee_selected s) (ee_cert_type s) (ee_transport s) (ee_seen s) v.

(** What the ClientHello offered. *)
Record ee_offer := EeOffer { o_protocols : list (list Z); o_server_name_sent : bool; o_cert_types : Z }.

(** The new limit; [None] is CH_EPROTO. *)
Definition record_size_limit_body (peer_limit : Z) : prog (option Z) :=
  limit ← u16_;
  e ← err_;
  n ← left_;
  if e || negb (n =? 0)%nat || (limit <? 64) then Ret None
  else
    let pt := u16 (limit - 1) in
    Ret (Some (if (pt <? peer_limit) then pt else peer_limit)).
Definition parse_record_size_limit (ext_data : list Z) (peer_limit : Z) : option Z :=
  match parse (record_size_limit_body peer_limit) ext_data with Some o => o | None => None end.

Definition alpn_body : prog (option (list Z)) :=
  list_len ← u16_;
  name_len ← u8_;
  name ← nbytes_ (Z.to_nat name_len);
  e ← err_;
  n ← left_;
  if e || (name_len =? 0) || negb (list_len =? 1 + name_len) || negb (n =? 0)%nat then Ret None else Ret name.
(** The search for the name among the offered ones. *)
Fixpoint alpn_index (i : nat) (offered : list (list Z)) (name : list Z) : option nat :=
  match offered with
  | [] => None
  | p :: offered => if bytes_eqb p name then Some i else alpn_index (S i) offered name
  end.
(** The state after the arm and whether it returned CH_OK. *)
Definition parse_alpn (ext_data : list Z) (offered : list (list Z)) (s : ee_state) : ee_state * bool :=
  match parse alpn_body ext_data with
  | Some (Some name) =>
      match alpn_index 0 offered name with
      | Some i => (set_selected s (u8 (Z.of_nat i)), true)
      | None => (set_arm_alert s (if CH_TRANSPORT_QUIC_NONBLOCKING then ALERT_NO_APPLICATION_PROTOCOL else ALERT_ILLEGAL_PARAMETER), false)
      end
  | _ => (set_arm_alert s ALERT_DECODE_ERROR, false)
  end.

Definition alpn_ext_bit (ext : Z) (ext_data : list Z) (offered : list (list Z)) (s : ee_state) : ee_state * Z :=
  if (ext =? EXT_ALPN) && (0 <? length offered)%nat then
    let '(s, ok) := parse_alpn ext_data offered s in (s, if ok then 2 ^ 3 else 0)
  else (s, 0).

Definition server_name_acknowledged (ext : Z) (ext_len : nat) : bool := (ext =? EXT_SERVER_NAME) && (ext_len =? 0)%nat.

Definition cert_type_offered (offered type : Z) : bool := (type <? 8) && negb ((offered >> type) .& 1 =? 0).

Definition cert_type_body : prog (option Z) :=
  type ← u8_;
  e ← err_;
  n ← left_;
  if e || negb (n =? 0)%nat then Ret None else Ret (Some type).
Definition parse_server_cert_type (ext_data : list Z) (offered : Z) (s : ee_state) : ee_state * bool :=
  match parse cert_type_body ext_data with
  | Some (Some type) =>
      if negb (cert_type_offered offered type) then (set_arm_alert s ALERT_ILLEGAL_PARAMETER, false)
      else (set_cert_type s type, true)
  | _ => (set_arm_alert s ALERT_DECODE_ERROR, false)
  end.

Definition webpki_ext_bit (ext : Z) (ext_data : list Z) (o : ee_offer) (s : ee_state) : ee_state * Z :=
  if (ext =? EXT_SERVER_NAME) && o_server_name_sent o then
    if server_name_acknowledged ext (length ext_data) then (s, 2 ^ 2) else (set_arm_alert s ALERT_DECODE_ERROR, 0)
  else if (ext =? EXT_SERVER_CERTIFICATE_TYPE) && negb (o_cert_types o =? 0) then
    let '(s, ok) := parse_server_cert_type ext_data (o_cert_types o) s in (s, if ok then 2 ^ 5 else 0)
  else (s, 0).

(** [if (seen & bit) return CH_EPROTO; seen |= bit;] *)
Definition mark_seen (s : ee_state) (bit : Z) : outcome ee_state :=
  if negb (ee_seen s .& bit =? 0) then Refuse CH_EPROTO None else Done (set_seen s (u8 (ee_seen s .| bit))).

(** The two extra arms, read before the chain. *)
Definition extra_arms (o : ee_offer) (s : ee_state) (ext : Z) (ext_data : list Z) : ee_state * Z :=
  let '(s, extra_bit) :=
    if CH_TRUST_WEBPKI || CH_TRANSPORT_QUIC_NONBLOCKING then alpn_ext_bit ext ext_data (o_protocols o) s else (s, 0) in
  if CH_TRUST_WEBPKI then let '(s, b) := webpki_ext_bit ext ext_data o s in (s, extra_bit .| b) else (s, extra_bit).

(** One pass of the loop, after the framing. *)
Definition ee_one (o : ee_offer) (s : ee_state) (ext : Z) (ext_data : list Z) : outcome ee_state :=
  let '(s, extra_bit) := extra_arms o s ext ext_data in
  if (ext =? EXT_RECORD_SIZE_LIMIT) then
    match parse_record_size_limit ext_data (ee_peer_limit s) with
    | None => Refuse CH_EPROTO None
    | Some limit => mark_seen (set_limit s limit) (2 ^ 0)
    end
  else if (ext =? EXT_SUPPORTED_GROUPS) then mark_seen s (2 ^ 1)
  else if negb (extra_bit =? 0) then mark_seen s extra_bit
  else if CH_TRANSPORT_QUIC_NONBLOCKING && (ext =? EXT_QUIC_TRANSPORT_PARAMS) then
    mark_seen (set_transport s (Some ext_data)) (2 ^ 4)
  else Refuse CH_EPROTO (Some (if CH_TRUST_WEBPKI || CH_TRANSPORT_QUIC_NONBLOCKING then ee_arm_alert s else ALERT_UNSUPPORTED_EXTENSION)).

Definition ee_pass (o : ee_offer) (s : ee_state) : prog (outcome ee_state) :=
  x ← read_ext;
  match x.2 with
  | None => eproto
  | Some ext_data => Ret (ee_one o s x.1 ext_data)
  end.

Definition hsp_parse_encrypted_exts (o : ee_offer) (peer_limit selected cert_type : Z) : prog (outcome ee_state) :=
  exts_len ← u16_;
  e ← err_;
  n ← left_;
  if e || negb (exts_len =? Z.of_nat n) then eproto
  else
    s ←! loop_left (ee_pass o) (EeState peer_limit selected cert_type None 0 ALERT_UNSUPPORTED_EXTENSION);
    if CH_TRANSPORT_QUIC_NONBLOCKING && (ee_seen s .& 2 ^ 4 =? 0) then refuse ALERT_MISSING_EXTENSION
    else Ret (Done s).

(** ** The grammar of EncryptedExtensions *)

Inductive ee_ext :=
  | EeLimit (limit : Z)
  | EeGroups (body : list Z)
  | EeServerName
  | EeAlpn (name : list Z)
  | EeTransport (params : list Z)
  | EeCertType (type : Z).

Definition ee_wire (x : ee_ext) : ext :=
  match x with
  | EeLimit v => (EXT_RECORD_SIZE_LIMIT, be_bytes 2 v)
  | EeGroups b => (EXT_SUPPORTED_GROUPS, b)
  | EeServerName => (EXT_SERVER_NAME, [])
  | EeAlpn name => (EXT_ALPN, be_bytes 2 (1 + Z.of_nat (length name)) ++ [Z.of_nat (length name)] ++ name)
  | EeTransport b => (EXT_QUIC_TRANSPORT_PARAMS, b)
  | EeCertType t => (EXT_SERVER_CERTIFICATE_TYPE, [t])
  end.
Definition ee_type (x : ee_ext) : Z := (ee_wire x).1.

(** An extension the ClientHello asked for, of the right shape. *)
Definition ee_legal (o : ee_offer) (x : ee_ext) : Prop :=
  match x with
  | EeLimit v => 64 <= v < 2 ^ 16
  | EeGroups _ => True
  | EeServerName => CH_TRUST_WEBPKI = true /\ o_server_name_sent o = true
  | EeAlpn name => CH_TRUST_WEBPKI || CH_TRANSPORT_QUIC_NONBLOCKING = true /\ name ∈ o_protocols o /\ (1 <= length name <= 255)%nat
  | EeTransport _ => CH_TRANSPORT_QUIC_NONBLOCKING = true
  | EeCertType t => CH_TRUST_WEBPKI = true /\ 0 <= t < 8 /\ Z.testbit (o_cert_types o) t = true
  end.

Definition ee_idx (t : Z) : Z :=
  if (t =? EXT_RECORD_SIZE_LIMIT) then 0 else if (t =? EXT_SUPPORTED_GROUPS) then 1 else if (t =? EXT_SERVER_NAME) then 2
  else if (t =? EXT_ALPN) then 3 else if (t =? EXT_QUIC_TRANSPORT_PARAMS) then 4 else 5.

Definition ee_apply (o : ee_offer) (x : ee_ext) (s : ee_state) : ee_state :=
  let s := match x with
    | EeLimit v => set_limit s (Z.min (v - 1) (ee_peer_limit s))
    | EeGroups _ | EeServerName => s
    | EeAlpn name => set_selected s (u8 (Z.of_nat (default 0%nat (alpn_index 0 (o_protocols o) name))))
    | EeTransport b => set_transport s (Some b)
    | EeCertType t => set_cert_type s t
    end in
  set_seen s (u8 (ee_seen s .| 2 ^ ee_idx (ee_type x))).

Definition ee_report (o : ee_offer) : list ee_ext -> ee_state -> ee_state := report (ee_apply o).
Definition ee_message (ys : list ee_ext) : list Z :=
  be_bytes 2 (Z.of_nat (length (wire_exts (ee_wire <$> ys)))) ++ wire_exts (ee_wire <$> ys).

(** ** Lemmas: the arms *)

Lemma parse_limit_iff d lim v : bytes_ok d ->
  parse_record_size_limit d lim = Some v <-> exists w, 64 <= w < 2 ^ 16 /\ d = be_bytes 2 w /\ v = Z.min (w - 1) lim.
Proof.
  intros Hd. unfold parse_record_size_limit.
  transitivity (exists s', runl (record_size_limit_body lim) (Some d) = (Some (Some v), s')).
  { rewrite <- parse_some by done. destruct (parse _ d) as [[]|]; split; congruence. }
  unfold record_size_limit_body. split.
  - intros (s' & H). rewrite runl_u16_iff in H; [|done|intros; by rewrite runl_err]. destruct H as (w & l & Hw & -> & H).
    rewrite runl_err, runl_left in H. cbn [is_err left_of orb] in H. destruct l as [|b l]; [|discriminate]. cbn [length Nat.eqb negb orb] in H.
    destruct (Z.ltb_spec w 64); [discriminate|]. injection H as <- _. exists w. rewrite app_nil_r. split; [lia|]. split; [done|].
    rewrite u16_small by lia. destruct (Z.ltb_spec (w - 1) lim); lia.
  - intros (w & Hw & -> & ->). exists (Some []). rewrite <- (app_nil_r (be_bytes 2 w)), runl_u16_at by lia.
    rewrite runl_err, runl_left. cbn [is_err left_of orb length Nat.eqb negb]. destruct (Z.ltb_spec w 64); [lia|]. cbn [runl].
    rewrite u16_small by lia. do 2 f_equal. f_equal. destruct (Z.ltb_spec (w - 1) lim); lia.
Qed.

Lemma alpn_body_iff d name : bytes_ok d ->
  parse alpn_body d = Some (Some name) <->
  (1 <= length name <= 255)%nat /\ d = be_bytes 2 (1 + Z.of_nat (length name)) ++ [Z.of_nat (length name)] ++ name.
Proof.
  intros Hd. rewrite parse_some by done. unfold alpn_body. split.
  - intros (s' & H). rewrite runl_u16_iff in H; [|done|intros; by rewrite runl_u8_none]. destruct H as (n & l1 & Hn & -> & H).
    apply Forall_app in Hd as [_ Hd]. rewrite runl_u8_iff in H; [|done|intros; done]. destruct H as (k & l2 & Hk & -> & H).
    rewrite runl_nbytes_iff in H by done. destruct H as (b & l3 & -> & Hb & H). rewrite runl_err, runl_left in H.
    cbn [is_err left_of orb] in H. destruct (Z.eqb_spec k 0); [discriminate|].
    destruct (Z.eqb_spec n (1 + k)) as [->|]; [|discriminate]. destruct l3 as [|]; [|discriminate]. cbn in H. injection H as <- _.
    unfold byte_ok in Hk. rewrite Hb, Z2Nat.id, app_nil_r by lia. split; [lia|done].
  - intros (Hn & ->). exists (Some []). rewrite runl_u16_at by lia. cbn [app]. rewrite runl_u8_cons.
    rewrite Nat2Z.id, runl_nbytes_iff by done. exists name, []. rewrite app_nil_r. split; [done|]. split; [done|].
    rewrite runl_err, runl_left. cbn [is_err left_of orb]. destruct (Z.eqb_spec (Z.of_nat (length name)) 0); [lia|].
    by rewrite Z.eqb_refl.
Qed.

Lemma alpn_index_some i offered name j : alpn_index i offered name = Some j -> name ∈ offered.
Proof.
  revert i. induction offered as [|p offered IH]; intros i; cbn; [discriminate|].
  destruct (bytes_eqb p name) eqn:E; [apply bytes_eqb_eq in E as ->; by left|]. intros H. right. by eapply IH.
Qed.
Lemma alpn_index_in i offered name : name ∈ offered -> exists j, alpn_index i offered name = Some j.
Proof.
  revert i. induction offered as [|p offered IH]; intros i Hin; [by apply not_elem_of_nil in Hin|]. cbn.
  destruct (bytes_eqb p name) eqn:E; [eauto|]. apply elem_of_cons in Hin as [->|Hin]; [|by apply IH].
  by rewrite (proj2 (bytes_eqb_eq p p)) in E.
Qed.

Lemma cert_type_body_iff d t : bytes_ok d -> parse cert_type_body d = Some (Some t) <-> byte_ok t /\ d = [t].
Proof.
  intros Hd. rewrite parse_some by done. unfold cert_type_body. split.
  - intros (s' & H). rewrite runl_u8_iff in H; [|done|done]. destruct H as (v & l & Hv & -> & H).
    rewrite runl_err, runl_left in H. destruct l; [|discriminate]. by injection H as <- _.
  - intros (Ht & ->). by exists (Some []).
Qed.

Lemma cert_type_offered_bit o t : 0 <= t -> cert_type_offered o t = (t <? 8) && Z.testbit o t.
Proof.
  intros Ht. unfold cert_type_offered. f_equal. rewrite (land_mask 1), Z.shiftr_div_pow2, <- Z.testbit_spec' by (done || lia).
  by destruct (Z.testbit o t).
Qed.

(** The arms leave every other extension alone. *)
Lemma extra_arms_other o s t d : t <> EXT_ALPN -> t <> EXT_SERVER_NAME -> t <> EXT_SERVER_CERTIFICATE_TYPE ->
  extra_arms o s t d = (s, 0).
Proof.
  intros H1 H2 H3. unfold extra_arms, alpn_ext_bit, webpki_ext_bit.
  rewrite (proj2 (Z.eqb_neq _ _) H1), (proj2 (Z.eqb_neq _ _) H2), (proj2 (Z.eqb_neq _ _) H3). cbn [andb].
  by destruct CH_TRUST_WEBPKI, CH_TRANSPORT_QUIC_NONBLOCKING.
Qed.

Lemma mark_seen_iff s i s' : 0 <= i < 8 ->
  mark_seen s (2 ^ i) = Done s' <-> Z.testbit (ee_seen s) i = false /\ s' = set_seen s (u8 (ee_seen s .| 2 ^ i)).
Proof.
  intros Hi. unfold mark_seen. rewrite land_bit_clear by lia. destruct (Z.testbit (ee_seen s) i); cbn; naive_solver.
Qed.

Ltac known_type :=
  cbv [EXT_RECORD_SIZE_LIMIT EXT_SUPPORTED_GROUPS EXT_SERVER_NAME EXT_ALPN EXT_QUIC_TRANSPORT_PARAMS EXT_SERVER_CERTIFICATE_TYPE];
  cbn [Z.eqb Pos.eqb andb orb negb].

Lemma ee_alpn_iff o s d s' : bytes_ok d ->
  ee_one o s EXT_ALPN d = Done s' <->
  exists name, ee_legal o (EeAlpn name) /\ d = (ee_wire (EeAlpn name)).2 /\ Z.testbit (ee_seen s) 3 = false /\ s' = ee_apply o (EeAlpn name) s.
Proof.
  intros Hd. unfold ee_one, extra_arms, alpn_ext_bit, webpki_ext_bit. known_type. rewrite andb_false_r.
  assert (E : forall b : bool, (let '(s, e) := if b then let '(s, ok) := parse_alpn d (o_protocols o) s in (s, if ok then 2 ^ 3 else 0) else (s, 0)
     in if CH_TRUST_WEBPKI then (s, e .| 0) else (s, e)) =
     if b then let '(s, ok) := parse_alpn d (o_protocols o) s in (s, if ok then 2 ^ 3 else 0) else (s, 0)).
  { intros b. destruct b; [destruct (parse_alpn d (o_protocols o) s)|]; destruct CH_TRUST_WEBPKI; by rewrite ?Z.lor_0_r. }
  cbn [ee_legal]. destruct (CH_TRUST_WEBPKI || CH_TRANSPORT_QUIC_NONBLOCKING) eqn:Eb; cbn [andb].
  - rewrite E. destruct (Nat.ltb_spec 0 (length (o_protocols o))) as [Hp|Hp]; cbn [negb Z.eqb].
    + unfold parse_alpn. split.
      * destruct (parse alpn_body d) as [[name|]|] eqn:Ea; [|discriminate..]. apply alpn_body_iff in Ea as [Hn ->]; [|done].
        destruct (alpn_index 0 (o_protocols o) name) as [j|] eqn:Ej; [|discriminate]. intros H.
        apply (mark_seen_iff _ 3) in H as [Ht ->]; [|lia]. exists name. split; [split_and!; [done|exact (alpn_index_some _ _ _ _ Ej)|lia|lia]|].
        split; [done|]. split; [done|]. unfold ee_apply. by rewrite Ej.
      * intros (name & (_ & Hin & Hn) & -> & Ht & ->). rewrite (proj2 (alpn_body_iff _ name Hd)) by done.
        destruct (alpn_index_in 0 _ _ Hin) as [j Ej]. rewrite Ej. apply (mark_seen_iff _ 3); [lia|]. split; [done|].
        unfold ee_apply. by rewrite Ej.
    + split; [discriminate|]. intros (name & (_ & Hin & _) & _). destruct (o_protocols o); [by apply not_elem_of_nil in Hin|cbn in Hp; lia].
  - split; [|by intros (name & (? & _) & _)]. destruct CH_TRUST_WEBPKI; discriminate.
Qed.

Lemma ee_server_name_iff o s d s' :
  ee_one o s EXT_SERVER_NAME d = Done s' <->
  ee_legal o EeServerName /\ d = [] /\ Z.testbit (ee_seen s) 2 = false /\ s' = ee_apply o EeServerName s.
Proof.
  unfold ee_one, extra_arms, alpn_ext_bit, webpki_ext_bit, server_name_acknowledged. known_type. rewrite andb_false_r. cbn [ee_legal].
  assert (E : (if CH_TRUST_WEBPKI || CH_TRANSPORT_QUIC_NONBLOCKING then (s, 0) else (s, 0)) = (s, 0)) by by destruct (_ || _).
  rewrite E. destruct CH_TRUST_WEBPKI; [|split; [discriminate|by intros ([? _] & _)]].
  destruct (o_server_name_sent o); [|split; [discriminate|by intros ([_ ?] & _)]].
  destruct d as [|b d]; cbn [length Nat.eqb]; [|split; [discriminate|by intros (_ & ? & _)]].
  split.
  - intros H. by apply (mark_seen_iff _ 2) in H as [Ht ->].
  - intros (_ & _ & Ht & ->). by apply (mark_seen_iff _ 2).
Qed.

Lemma ee_cert_type_iff o s d s' : bytes_ok d ->
  ee_one o s EXT_SERVER_CERTIFICATE_TYPE d = Done s' <->
  exists t, ee_legal o (EeCertType t) /\ d = [t] /\ Z.testbit (ee_seen s) 5 = false /\ s' = ee_apply o (EeCertType t) s.
Proof.
  intros Hd. unfold ee_one, extra_arms, alpn_ext_bit, webpki_ext_bit. known_type. rewrite andb_false_r. cbn [ee_legal].
  assert (E : (if CH_TRUST_WEBPKI || CH_TRANSPORT_QUIC_NONBLOCKING then (s, 0) else (s, 0)) = (s, 0)) by by destruct (_ || _).
  rewrite E. destruct CH_TRUST_WEBPKI; [|split; [discriminate|by intros (t & [? _] & _)]].
  destruct (Z.eqb_spec (o_cert_types o) 0) as [E0|E0]; cbn [negb].
  { split; [discriminate|]. intros (t & (_ & _ & Hb) & _). by rewrite E0, Z.bits_0 in Hb. }
  unfold parse_server_cert_type. split.
  - destruct (parse cert_type_body d) as [[t|]|] eqn:Et; [|discriminate..]. apply cert_type_body_iff in Et as [Ht ->]; [|done].
    unfold byte_ok in Ht. rewrite cert_type_offered_bit by lia. destruct (Z.ltb_spec t 8) as [H8|]; [|discriminate].
    destruct (Z.testbit (o_cert_types o) t) eqn:Eb; [|discriminate]. intros H. apply (mark_seen_iff _ 5) in H as [Hs ->]; [|lia].
    exists t. split_and!; try done; lia.
  - intros (t & (_ & Ht & Hb) & -> & Hs & ->). rewrite (proj2 (cert_type_body_iff [t] t Hd)) by (split; [unfold byte_ok; lia|done]).
    rewrite cert_type_offered_bit, Hb by lia. destruct (Z.ltb_spec t 8); [|lia]. cbn [andb negb]. by apply (mark_seen_iff _ 5).
Qed.

Lemma ee_one_iff o s t d s' : bytes_ok d ->
  ee_one o s t d = Done s' <->
  exists y, (t, d) = ee_wire y /\ ee_legal o y /\ Z.testbit (ee_seen s) (ee_idx (ee_type y)) = false /\ s' = ee_apply o y s.
Proof.
  intros Hd.
  destruct (decide (t = EXT_ALPN)) as [->|H1].
  { rewrite ee_alpn_iff by done. split; [intros (name & ? & -> & ?); by exists (EeAlpn name)|].
    intros (y & E & Hy & Ht & ->). destruct y; try discriminate E. apply (f_equal snd) in E. by eexists. }
  destruct (decide (t = EXT_SERVER_NAME)) as [->|H2].
  { rewrite ee_server_name_iff. split; [intros (? & -> & ?); by exists EeServerName|].
    intros (y & E & Hy & Ht & ->). destruct y; try discriminate E. by apply (f_equal snd) in E. }
  destruct (decide (t = EXT_SERVER_CERTIFICATE_TYPE)) as [->|H3].
  { rewrite ee_cert_type_iff by done. split; [intros (v & ? & -> & ?); by exists (EeCertType v)|].
    intros (y & E & Hy & Ht & ->). destruct y; try discriminate E. apply (f_equal snd) in E. by eexists. }
  unfold ee_one. rewrite extra_arms_other by done. cbn [Z.eqb negb].
  destruct (Z.eqb_spec t EXT_RECORD_SIZE_LIMIT) as [->|H4].
  { split.
    - destruct (parse_record_size_limit d (ee_peer_limit s)) as [v|] eqn:Ev; [|discriminate]. intros H.
      apply parse_limit_iff in Ev as (w & Hw & -> & ->); [|done]. apply (mark_seen_iff _ 0) in H as [Ht ->]; [|lia]. by exists (EeLimit w).
    - intros (y & E & Hy & Ht & ->). destruct y; try discriminate E. apply (f_equal snd) in E. cbn [snd ee_wire] in E. cbn [ee_legal] in Hy.
      rewrite (proj2 (parse_limit_iff d _ (Z.min (limit - 1) (ee_peer_limit s)) Hd)) by by exists limit. by apply (mark_seen_iff _ 0). }
  destruct (Z.eqb_spec t EXT_SUPPORTED_GROUPS) as [->|H5].
  { split; [intros H; apply (mark_seen_iff _ 1) in H as [Ht ->]; [|lia]; by exists (EeGroups d)|].
    intros (y & E & _ & Ht & ->). destruct y; try discriminate E. by apply (mark_seen_iff _ 1). }
  destruct (Z.eqb_spec t EXT_QUIC_TRANSPORT_PARAMS) as [->|H6].
  { destruct CH_TRANSPORT_QUIC_NONBLOCKING eqn:Eq; cbn [andb].
    - split; [intros H; apply (mark_seen_iff _ 4) in H as [Ht ->]; [|lia]; by exists (EeTransport d)|].
      intros (y & E & _ & Ht & ->). destruct y; try discriminate E. apply (f_equal snd) in E. cbn in E. subst. by apply (mark_seen_iff _ 4).
    - split; [discriminate|]. intros (y & E & Hy & _). destruct y; try discriminate E. cbn [ee_legal] in Hy. congruence. }
  rewrite andb_false_r. split; [discriminate|]. intros (y & E & _). by destruct y; apply (f_equal fst) in E; cbn in E.
Qed.

(** ** Lemmas: the block *)

Definition ee_step (o : ee_offer) (_ : nat) (s : ee_state) (x : ext) : option ee_state :=
  match ee_one o s x.1 x.2 with Done s' => Some s' | Refuse _ _ => None end.

Lemma ee_pass_done o s l s1 r : bytes_ok l -> l <> [] ->
  runl (ee_pass o s) (Some l) = (Some (Done s1), r) <->
  exists x l', ext_fits x /\ l = wire_ext x ++ l' /\ r = Some l' /\ ee_step o (length l) s x = Some s1.
Proof.
  intros Hl _. unfold ee_pass, ee_step. rewrite read_ext_iff by done. split.
  - intros (x & l' & Hx & -> & H). cbn in H. injection H as H <-. exists x, l'. by rewrite H.
  - intros (x & l' & Hx & -> & -> & H). exists x, l'. split; [done|]. split; [done|]. cbn.
    destruct (ee_one o s x.1 x.2); by simplify_eq.
Qed.

Lemma ee_types y : 0 <= ee_idx (ee_type y) < 8.
Proof. destruct y; vm_compute; split; discriminate || done. Qed.
Lemma ee_idx_inj y z : ee_idx (ee_type y) = ee_idx (ee_type z) -> ee_type y = ee_type z.
Proof. destruct y, z; vm_compute; done || discriminate. Qed.

Lemma ee_seen_apply o y s : 0 <= ee_seen s < 2 ^ 8 ->
  ee_seen (ee_apply o y s) = Z.lor (ee_seen s) (2 ^ ee_idx (ee_type y)) /\ 0 <= ee_seen (ee_apply o y s) < 2 ^ 8.
Proof.
  intros Hs. pose proof (ee_types y) as Hi.
  assert (Hb : 0 <= 2 ^ ee_idx (ee_type y) < 2 ^ 8) by (split; [lia|apply Z.pow_lt_mono_r; lia]).
  assert (E : ee_seen (ee_apply o y s) = u8 (Z.lor (ee_seen s) (2 ^ ee_idx (ee_type y)))) by by destruct y.
  rewrite E. pose proof (lor_bound 8 _ _ ltac:(lia) Hs Hb). rewrite u8_small by done. done.
Qed.

Lemma ee_walk_iff o xs s s' : Forall (fun x => bytes_ok x.2) xs -> 0 <= ee_seen s < 2 ^ 8 ->
  walk (ee_step o) s xs = Some s' <->
  exists ys, xs = ee_wire <$> ys /\ Forall (ee_legal o) ys /\ NoDup (ee_type <$> ys) /\
    Forall (fun y => Z.testbit (ee_seen s) (ee_idx (ee_type y)) = false) ys /\ s' = ee_report o ys s.
Proof.
  apply (mask_walk_iff _ ee_wire _ (ee_apply o) ee_seen ee_idx).
  - apply ee_types.
  - apply ee_idx_inj.
  - apply ee_seen_apply.
  - intros n a [t d] a' Hd _. unfold ee_step. cbn [fst snd].
    pose proof (ee_one_iff o a t d a' Hd) as H. cbn [snd] in *. destruct (ee_one o a t d); naive_solver.
Qed.

Definition ee_start (peer_limit selected cert_type : Z) : ee_state :=
  EeState peer_limit selected cert_type None 0 ALERT_UNSUPPORTED_EXTENSION.

Lemma ee_loop_iff o pl sel ct l s r : bytes_ok l ->
  runl (loop_left (ee_pass o) (ee_start pl sel ct)) (Some l) = (Some (Done s), r) <->
  exists ys, Forall ext_fits (ee_wire <$> ys) /\ l = wire_exts (ee_wire <$> ys) /\ r = Some [] /\
    Forall (ee_legal o) ys /\ NoDup (ee_type <$> ys) /\ s = ee_report o ys (ee_start pl sel ct).
Proof.
  intros Hl. rewrite (loop_left_done _ (ee_step o)); [|by intros; apply ee_pass_done|done]. split.
  - intros (xs & Hf & -> & -> & Hw). apply wire_exts_ok in Hl.
    apply ee_walk_iff in Hw as (ys & -> & Hy & Hnd & _ & ->); [|done|done]. by exists ys.
  - intros (ys & Hf & -> & -> & Hy & Hnd & ->). exists (ee_wire <$> ys). split_and!; try done.
    apply ee_walk_iff; [by apply wire_exts_ok|done|]. exists ys. split_and!; try done. apply Forall_forall. intros y _. apply Z.bits_0.
Qed.

(** A block shorter than 2^16 holds extensions that fit. *)
Lemma ee_fits ys : Z.of_nat (length (wire_exts (ee_wire <$> ys))) < 2 ^ 16 -> Forall ext_fits (ee_wire <$> ys).
Proof.
  induction ys as [|y ys IH]; [constructor|]. cbn [fmap list_fmap]. rewrite wire_exts_cons, length_app, length_wire_ext. intros H.
  constructor; [|apply IH; lia]. split; [by destruct y; vm_compute; split; discriminate || done|lia].
Qed.

Lemma transport_seen o ys s : NoDup (ee_type <$> ys) -> ee_seen s = 0 ->
  Z.testbit (ee_seen (ee_report o ys s)) 4 = true <-> exists b, EeTransport b ∈ ys.
Proof.
  intros _ Hs. assert (Hgen : forall s, 0 <= ee_seen s < 2 ^ 8 -> Z.testbit (ee_seen (ee_report o ys s)) 4 =
    Z.testbit (ee_seen s) 4 || existsb (fun y => ee_idx (ee_type y) =? 4) ys).
  { clear. unfold ee_report. induction ys as [|y ys IH]; intros s Hs; cbn [existsb]; [by rewrite orb_false_r|].
    change (report (ee_apply o) (y :: ys) s) with (report (ee_apply o) ys (ee_apply o y s)).
    destruct (ee_seen_apply o y s Hs) as [E Hb]. pose proof (ee_types y). rewrite IH, E, testbit_lor_bit by (done || lia).
    by rewrite <- orb_assoc. }
  rewrite Hgen by (rewrite Hs; lia). rewrite Hs, Z.bits_0. cbn [orb]. rewrite existsb_exists. split.
  - intros (y & Hin & Hy). destruct y; try discriminate Hy. exists params. by apply list_elem_of_In.
  - intros (b & Hin). exists (EeTransport b). split; [by apply list_elem_of_In|done].
Qed.


(** The alerts a refusal may name. *)
Definition ee_alerts : list Z :=
  [ALERT_ILLEGAL_PARAMETER; ALERT_DECODE_ERROR; ALERT_MISSING_EXTENSION; ALERT_UNSUPPORTED_EXTENSION; ALERT_NO_APPLICATION_PROTOCOL].
Definition ee_refusal (rc : Z) (al : option Z) : Prop :=
  rc = CH_EPROTO /\ match al with None => True | Some a => a ∈ ee_alerts end.
Definition ee_state_ok (s : ee_state) : Prop := ee_arm_alert s ∈ ee_alerts.

Lemma arms_alert o s t d : ee_state_ok s -> ee_state_ok (extra_arms o s t d).1.
Proof.
  intros Hs. unfold ee_state_ok, ee_alerts, extra_arms, alpn_ext_bit, webpki_ext_bit, parse_alpn, parse_server_cert_type in *.
  repeat case_match; simplify_eq; cbn [fst ee_arm_alert set_arm_alert set_selected set_cert_type];
    first [exact Hs | apply (bool_decide_unpack _); vm_compute; exact I].
Qed.

Lemma mark_seen_fine s b : ee_state_ok s -> fine ee_refusal ee_state_ok (mark_seen s b).
Proof. intros Hs. unfold mark_seen. by destruct (negb _). Qed.

Lemma ee_one_fine o s t d : ee_state_ok s -> fine ee_refusal ee_state_ok (ee_one o s t d).
Proof.
  intros Hs. unfold ee_one. pose proof (arms_alert o s t d Hs) as Ha. destruct (extra_arms o s t d) as [s1 eb]. cbn [fst] in Ha.
  repeat case_match; first [by apply mark_seen_fine | done | split; [done|exact Ha] |
    split; [done|apply (bool_decide_unpack _); vm_compute; exact I]].
Qed.

Lemma ee_pass_shrinks o s l s1 r : bytes_ok l -> l <> [] -> runl (ee_pass o s) (Some l) = (Some (Done s1), r) ->
  exists l', r = Some l' /\ (length l' < length l)%nat.
Proof.
  intros Hl Hne H. apply ee_pass_done in H as (x & l' & _ & -> & -> & _); [|done|done].
  exists l'. rewrite length_app, length_wire_ext. split; [done|lia].
Qed.

Lemma ee_total o pl sel ct : total (fine ee_refusal ee_state_ok) (hsp_parse_encrypted_exts o pl sel ct).
Proof.
  unfold hsp_parse_encrypted_exts. repeat total_step.
  eapply (total_obind _ ee_state_ok).
  - apply total_loop_left; [|apply ee_pass_shrinks|apply (bool_decide_unpack _); vm_compute; exact I].
    intros s Hs. unfold ee_pass. eapply total_bind; [apply total_read_ext|]. intros [t [d|]] _; cbn [fst snd]; apply total_ret; [|done].
    by apply ee_one_fine.
  - intros s Hs. destruct (_ && _); apply total_ret; [|done]. split; [done|]. apply (bool_decide_unpack _); vm_compute; exact I.
Qed.

(** A limit stays one a record can carry a byte in. *)
Definition limit_ok (s : ee_state) : Prop := 1 <= ee_peer_limit s.

Lemma arms_limit o s t d : ee_peer_limit (extra_arms o s t d).1 = ee_peer_limit s.
Proof. unfold extra_arms, alpn_ext_bit, webpki_ext_bit, parse_alpn, parse_server_cert_type. repeat case_match; simplify_eq; reflexivity. Qed.

Lemma ee_one_limit o s t d : bytes_ok d -> limit_ok s -> fine (fun _ _ => True) limit_ok (ee_one o s t d).
Proof.
  intros Hd Hs. unfold ee_one. pose proof (arms_limit o s t d) as Ha. destruct (extra_arms o s t d) as [s1 eb]. cbn [fst] in Ha. unfold limit_ok in *. rewrite <- Ha in Hs.
  assert (Hm : forall s b, 1 <= ee_peer_limit s -> fine (fun _ _ => True) (fun s => 1 <= ee_peer_limit s) (mark_seen s b)) by (intros s2 b H2; unfold mark_seen; by destruct (negb _)).
  destruct (t =? EXT_RECORD_SIZE_LIMIT).
  - destruct (parse_record_size_limit d (ee_peer_limit s1)) as [v|] eqn:Ev; [|done]. apply parse_limit_iff in Ev as (x & Hx & _ & ->); [|done]. apply Hm. cbn [ee_peer_limit set_limit]. lia.
  - repeat case_match; first [by apply Hm|done].
Qed.

Lemma ee_limit_positive o pl sel ct body s : bytes_ok body -> 1 <= pl -> parse (hsp_parse_encrypted_exts o pl sel ct) body = Some (Done s) -> limit_ok s.
Proof.
  intros Hb Hpl E. assert (Ht : total (fine (fun _ _ => True) limit_ok) (hsp_parse_encrypted_exts o pl sel ct)).
  { unfold hsp_parse_encrypted_exts. repeat total_step. eapply (total_obind _ limit_ok).
    - apply total_loop_left; [|apply ee_pass_shrinks|exact Hpl].
      intros s1 Hs. unfold ee_pass. eapply total_bind; [apply total_read_ext|]. intros [t [d|]] Hd; cbn [fst snd] in *; apply total_ret; [|done]. by apply ee_one_limit.
    - intros s1 Hs. destruct (_ && _); by apply total_ret. }
  destruct (Ht (Some body) Hb) as (r & s' & Er & Hr & _). rewrite parse_list, Er in E by done. by injection E as ->.
Qed.

(** ** Lemmas: refusal of what was not asked for *)

(** The types the client has an arm for, given what it offered. *)
Definition ee_asked (o : ee_offer) (t : Z) : bool :=
  (t =? EXT_RECORD_SIZE_LIMIT) || (t =? EXT_SUPPORTED_GROUPS) ||
  ((CH_TRUST_WEBPKI || CH_TRANSPORT_QUIC_NONBLOCKING) && (t =? EXT_ALPN) && (0 <? length (o_protocols o))%nat) ||
  (CH_TRUST_WEBPKI && (t =? EXT_SERVER_NAME) && o_server_name_sent o) ||
  (CH_TRUST_WEBPKI && (t =? EXT_SERVER_CERTIFICATE_TYPE) && negb (o_cert_types o =? 0)) ||
  (CH_TRANSPORT_QUIC_NONBLOCKING && (t =? EXT_QUIC_TRANSPORT_PARAMS)).

Lemma unasked_refused o s t d : ee_asked o t = false ->
  ee_one o s t d = Refuse CH_EPROTO (Some (if CH_TRUST_WEBPKI || CH_TRANSPORT_QUIC_NONBLOCKING then ee_arm_alert s else ALERT_UNSUPPORTED_EXTENSION)).
Proof.
  unfold ee_asked. rewrite !orb_false_iff. intros (((((Hl & Hg) & H1) & H2) & H3) & H4).
  assert (E : extra_arms o s t d = (s, 0)).
  { unfold extra_arms, alpn_ext_bit, webpki_ext_bit. rewrite <- andb_assoc in H1, H2, H3.
    destruct CH_TRUST_WEBPKI; cbn [andb orb] in *; rewrite ?H2, ?H3.
    - rewrite H1. done.
    - destruct CH_TRANSPORT_QUIC_NONBLOCKING; cbn [andb] in H1; by rewrite ?H1. }
  unfold ee_one. rewrite E, Hl, Hg, H4. done.
Qed.

Lemma ee_pass_at o s x l : ext_fits x -> bytes_ok (wire_ext x ++ l) ->
  runl (ee_pass o s) (Some (wire_ext x ++ l)) = (Some (ee_one o s x.1 x.2), Some l).
Proof.
  intros Hx Hb. unfold ee_pass. apply read_ext_iff; [done|by intros|]. by exists x, l.
Qed.

Lemma arm_alert_apply o y s : ee_arm_alert (ee_apply o y s) = ee_arm_alert s.
Proof. by destruct y. Qed.

(** The loop over a legal prefix, up to the first extension not asked for. *)
Lemma ee_loop_refuses o ys x rest s fuel : bytes_ok (wire_exts ((ee_wire <$> ys) ++ x :: rest)) ->
  Forall ext_fits ((ee_wire <$> ys) ++ x :: rest) -> (length ys < fuel)%nat -> Forall (ee_legal o) ys ->
  NoDup (ee_type <$> ys) -> Forall (fun y => Z.testbit (ee_seen s) (ee_idx (ee_type y)) = false) ys -> 0 <= ee_seen s < 2 ^ 8 ->
  ee_asked o x.1 = false -> ee_arm_alert s = ALERT_UNSUPPORTED_EXTENSION ->
  (runl (while_left fuel (ee_pass o) s) (Some (wire_exts ((ee_wire <$> ys) ++ x :: rest)))).1 =
    Some (Refuse CH_EPROTO (Some ALERT_UNSUPPORTED_EXTENSION)).
Proof.
  revert s fuel. induction ys as [|y ys IH]; intros s fuel Hb Hf Hfuel Hy Hnd Ht Hs Hx Ha; destruct fuel as [|fuel]; try (cbn in Hfuel; lia);
    cbn [fmap list_fmap app] in *; rewrite wire_exts_cons in *; inversion Hf as [|? ? Hf1 Hf2]; subst;
    cbn [while_left]; rewrite runl_left; cbn [left_of]; rewrite length_app, length_wire_ext; cbn [Nat.add Nat.eqb];
    rewrite runl_obind, ee_pass_at by done.
  - rewrite unasked_refused, Ha by done. by destruct (_ || _).
  - inversion Hy as [|? ? Hy1 Hy2]; subst. inversion Ht as [|? ? Ht1 Ht2]; subst. inversion Hnd as [|? ? Hni Hnd']; subst.
    assert (E : ee_one o s (ee_wire y).1 (ee_wire y).2 = Done (ee_apply o y s)).
    { apply ee_one_iff; [|exists y; split_and!; try done; by destruct (ee_wire y)]. apply Forall_app in Hb as [Hb _]. by apply wire_ext_ok in Hb. }
    rewrite E. apply Forall_app in Hb as [_ Hb]. destruct (ee_seen_apply o y s Hs) as [Es Hs']. pose proof (ee_types y) as Hi.
    apply IH; try done; [cbn in Hfuel; lia| |by rewrite arm_alert_apply].
    rewrite Es. rewrite Forall_forall in Ht2 |- *. intros z Hin. rewrite testbit_lor_bit, Ht2 by (done || lia). cbn [orb].
    apply Z.eqb_neq. intros Hz. apply ee_idx_inj in Hz. apply Hni. rewrite Hz. by apply list_elem_of_fmap_2.
Qed.

(** ** Lemmas: Certificate and CertificateVerify *)

Definition cv_offered (scheme : Z) : bool :=
  if CH_TRUST_WEBPKI then certificate_verify_scheme_ok scheme else scheme =? CH_PIN_SIGALG.

Lemma cv_offered_range scheme : cv_offered scheme = true -> 0 <= scheme < 2 ^ 16.
Proof.
  unfold cv_offered, certificate_verify_scheme_ok, CH_PIN_SIGALG. destruct CH_TRUST_WEBPKI, CH_PIN_ECDSA, CH_PIN_MLDSA;
    rewrite ?orb_true_iff, !Z.eqb_eq; unfold SIGALG_RSA_PSS_RSAE_SHA256, SIGALG_ECDSA_P256_SHA256, SIGALG_ECDSA_P384_SHA384, SIGALG_MLDSA87; lia.
Qed.

Lemma runl_u24_iff {B} (f : Z -> prog B) l res s' : bytes_ok l -> (forall v, runl (f v) None <> (res, s')) ->
  runl (u24_ ≫= f) (Some l) = (res, s') <->
  exists v l', 0 <= v < 2 ^ 24 /\ l = be_bytes 3 v ++ l' /\ runl (f v) (Some l') = (res, s').
Proof.
  intros Hl Hn.
  assert (Hat : forall v l', 0 <= v < 2 ^ 24 -> runl (u24_ ≫= f) (Some (be_bytes 3 v ++ l')) = runl (f v) (Some l')).
  { intros v l' Hv. unfold u24_, be_bytes. cbn [le_bytes reverse]. cbn -[u8 u32 Z.shiftl Z.lor Z.div]. 
    assert (Hj : forall a b, 0 <= a < 2 ^ 16 -> 0 <= b < 2 ^ 8 -> (a <<32 8) .| b = a * 2 ^ 8 + b).
    { intros a b Ha Hb'. rewrite u32_small by (unfold u32_ok; rewrite Z.shiftl_mul_pow2; lia). by rewrite lor_shiftl_add'. }
    rewrite (Hj (u8 (v / 2 ^ 8 / 2 ^ 8))) by (unfold u8; dlia). rewrite Hj by (unfold u8; dlia).
    by replace ((u8 (v / 2 ^ 8 / 2 ^ 8) * 2 ^ 8 + u8 (v / 2 ^ 8)) * 2 ^ 8 + u8 v) with v by (unfold u8; dlia). }
  split.
  - intros H. destruct (le_lt_dec 3 (length l)) as [H3|H3].
    + destruct l as [|a [|b [|c l]]]; cbn in H3; try lia. rewrite !Forall_cons in Hl. destruct Hl as (Ha & Hb' & Hc & _).
      unfold byte_ok in *. exists (a * 2 ^ 16 + b * 2 ^ 8 + c), l.
      assert (E : be_bytes 3 (a * 2 ^ 16 + b * 2 ^ 8 + c) = [a; b; c]).
      { unfold be_bytes. cbn. repeat (apply (f_equal2 cons); [unfold u8; dlia|]). done. }
      split; [lia|]. rewrite E. split; [done|]. rewrite <- H, <- (Hat _ l) by lia. by rewrite E.
    + destruct l as [|a [|b [|c l]]]; cbn in H3; try lia; unfold u24_ in H; cbn -[Z.shiftl u32 Z.lor] in H; by apply Hn in H.
  - intros (v & l' & Hv & -> & H). by rewrite Hat.
Qed.

Lemma certificate_iff body l : bytes_ok body ->
  parse hsp_parse_certificate body = Some (Done (Some l)) <->
  body = 0 :: be_bytes 3 (Z.of_nat (length l)) ++ l /\ (0 < length l)%nat /\ Z.of_nat (length l) < 2 ^ 24.
Proof.
  intros Hb. rewrite parse_some by done. unfold hsp_parse_certificate. split.
  - intros (s' & H). rewrite runl_u8_iff in H; [|done|intros v; by destruct (negb _)]. destruct H as (c & l1 & _ & -> & H).
    apply Forall_cons in Hb as [_ Hb]. destruct (Z.eqb_spec c 0) as [->|]; [|discriminate]. cbn [negb] in H.
    rewrite runl_u24_iff in H; [|done|intros; by rewrite runl_err]. destruct H as (n & l2 & Hn & -> & H).
    rewrite runl_err, runl_left in H. cbn [is_err left_of orb] in H. destruct (Z.eqb_spec n (Z.of_nat (length l2))) as [->|]; [|discriminate].
    destruct (Z.eqb_spec (Z.of_nat (length l2)) 0); [discriminate|]. cbn [negb orb] in H. rewrite Nat2Z.id, runl_nbytes_iff in H by done.
    destruct H as (b & l3 & -> & Hlen & H). injection H as -> _. rewrite length_app in *. destruct l3; [|cbn in Hlen; lia].
    cbn [length] in *. rewrite Nat.add_0_r, app_nil_r in *. split_and!; [done|lia|lia].
  - intros (-> & H0 & Hn). exists (Some []). rewrite runl_u8_cons. cbn [negb Z.eqb]. apply Forall_cons in Hb as [_ Hb].
    rewrite runl_u24_iff; [|done|intros; by rewrite runl_err]. exists (Z.of_nat (length l)), l. split; [lia|]. split; [done|].
    rewrite runl_err, runl_left. cbn [is_err left_of orb]. rewrite Z.eqb_refl. destruct (Z.eqb_spec (Z.of_nat (length l)) 0); [lia|].
    cbn [negb orb]. rewrite Nat2Z.id, runl_nbytes_iff by done. exists l, []. by rewrite app_nil_r.
Qed.

Lemma certificate_verify_iff body scheme sig : bytes_ok body ->
  parse hsp_parse_certificate_verify body = Some (Done (scheme, sig)) <->
  body = be_bytes 2 scheme ++ be_bytes 2 (Z.of_nat (length sig)) ++ sig /\ Z.of_nat (length sig) < 2 ^ 16 /\ cv_offered scheme = true.
Proof.
  intros Hb. rewrite parse_some by done. unfold hsp_parse_certificate_verify. split.
  - intros (s' & H). rewrite runl_u16_iff in H; [|done|intros v; by destruct (negb _)]. destruct H as (a & l1 & Ha & -> & H).
    apply Forall_app in Hb as [_ Hb]. fold (cv_offered a) in H. destruct (cv_offered a) eqn:Ea; [|discriminate]. cbn [negb] in H.
    rewrite runl_u16_iff in H by done. destruct H as (n & l2 & Hn & -> & H). rewrite runl_nbytes_iff in H by done.
    destruct H as (b & l3 & -> & Hlen & H). rewrite runl_left in H. destruct l3; [|discriminate]. injection H as <- <- _.
    rewrite app_nil_r, Hlen, Z2Nat.id by lia. split_and!; [done|lia|done].
  - intros (-> & Hn & Hs). exists (Some []). rewrite runl_u16_at by by apply cv_offered_range. fold (cv_offered scheme). rewrite Hs. cbn [negb].
    rewrite runl_u16_at by lia. rewrite Nat2Z.id, runl_nbytes_iff by done. exists sig, []. by rewrite app_nil_r.
Qed.

(** ** Properties *)

(** C34. The EncryptedExtensions parser accepts exactly its grammar.  A body is
    accepted exactly when it is the encoding of a list of extensions of
    distinct types, each one the ClientHello asked for and well formed
    (record_size_limit of at least 64, an offered ALPN name, an empty
    server_name acknowledgement, an offered certificate type,
    supported_groups, QUIC's transport parameters), with the transport
    parameters present in a QUIC build; the outputs are what they say, the
    limit lowered to one less than the peer's and never raised. *)
Theorem encrypted_exts_exact o peer_limit selected cert_type body s : bytes_ok body ->
  parse (hsp_parse_encrypted_exts o peer_limit selected cert_type) body = Some (Done s) <->
  exists ys, body = ee_message ys /\ Z.of_nat (length (wire_exts (ee_wire <$> ys))) < 2 ^ 16 /\
    Forall (ee_legal o) ys /\ NoDup (ee_type <$> ys) /\
    (CH_TRANSPORT_QUIC_NONBLOCKING = true -> exists params, EeTransport params ∈ ys) /\
    s = ee_report o ys (ee_start peer_limit selected cert_type).
Proof.
  intros Hb. rewrite parse_some by done. unfold hsp_parse_encrypted_exts, ee_message. split.
  - intros (r & H). rewrite runl_u16_iff in H; [|done|intros; by rewrite runl_err]. destruct H as (n & l & Hn & -> & H).
    apply Forall_app in Hb as [_ Hb]. rewrite runl_err, runl_left in H. cbn [is_err left_of orb] in H.
    destruct (Z.eqb_spec n (Z.of_nat (length l))) as [->|]; [|discriminate]. cbn [negb] in H.
    apply runl_obind_done in H as (s1 & r1 & H1 & H). apply ee_loop_iff in H1 as (ys & Hf & -> & -> & Hy & Hnd & ->); [|done].
    rewrite (land_bit_clear _ 4) in H by lia. exists ys. split; [done|]. split; [lia|]. split; [done|]. split; [done|]. split.
    + intros Eq. apply (transport_seen o ys (ee_start peer_limit selected cert_type) Hnd eq_refl). rewrite Eq in H. cbn [andb] in H.
      by destruct (Z.testbit _ 4).
    + destruct (_ && _); [discriminate|]. by injection H as <- _.
  - intros (ys & -> & Hlen & Hy & Hnd & Hq & ->). exists (Some []). rewrite runl_u16_at by lia. apply Forall_app in Hb as [_ Hb].
    rewrite runl_err, runl_left. cbn [is_err left_of orb]. rewrite Z.eqb_refl. cbn [negb]. apply runl_obind_done.
    do 2 eexists. split; [apply ee_loop_iff; [done|]; exists ys; split_and!; [by apply ee_fits|done..]|].
    rewrite (land_bit_clear _ 4) by lia. destruct CH_TRANSPORT_QUIC_NONBLOCKING; [|done].
    by rewrite (proj2 (transport_seen o ys (ee_start peer_limit selected cert_type) Hnd eq_refl) (Hq eq_refl)).
Qed.

(** The EncryptedExtensions parser always returns, a refusal is always
    CH_EPROTO, and the alert it names is one of the five its rules give. *)
Theorem encrypted_exts_returns o peer_limit selected cert_type body : bytes_ok body ->
  exists r, parse (hsp_parse_encrypted_exts o peer_limit selected cert_type) body = Some r /\
    match r with
    | Done _ => True
    | Refuse rc al => rc = CH_EPROTO /\ match al with None => True | Some a => a ∈ ee_alerts end
    end.
Proof.
  intros Hb. rewrite parse_list by done. destruct (ee_total o peer_limit selected cert_type (Some body) Hb) as (r & s' & -> & Hr & _).
  exists r. split; [done|]. destruct r; [done|exact Hr].
Qed.

(** An extension the ClientHello did not ask for is answered with
    unsupported_extension: whatever legal extensions come before it and
    whatever follows, the message is refused with CH_EPROTO and that alert. *)
Theorem encrypted_exts_unsolicited o peer_limit selected cert_type ys x rest :
  let block := wire_exts ((ee_wire <$> ys) ++ x :: rest) in
  bytes_ok block -> Forall ext_fits ((ee_wire <$> ys) ++ x :: rest) -> Z.of_nat (length block) < 2 ^ 16 ->
  Forall (ee_legal o) ys -> NoDup (ee_type <$> ys) -> ee_asked o x.1 = false ->
  parse (hsp_parse_encrypted_exts o peer_limit selected cert_type) (be_bytes 2 (Z.of_nat (length block)) ++ block) =
    Some (Refuse CH_EPROTO (Some ALERT_UNSUPPORTED_EXTENSION)).
Proof.
  intros block Hb Hf Hlen Hy Hnd Hx. rewrite parse_list by (apply Forall_app_2; [apply be_bytes_ok|done]).
  unfold hsp_parse_encrypted_exts. rewrite runl_u16_at by lia. rewrite runl_err, runl_left. cbn [is_err left_of orb].
  rewrite Z.eqb_refl. cbn [negb]. rewrite runl_obind. unfold loop_left. rewrite runl_left. cbn [left_of].
  assert (Hk : (length ys < length block)%nat).
  { pose proof (length_wire_exts_le ((ee_wire <$> ys) ++ x :: rest)) as H. fold block in H. rewrite length_app, length_fmap in H. cbn [length] in H. lia. }
  pose proof (ee_loop_refuses o ys x rest (ee_start peer_limit selected cert_type) (length block) Hb Hf Hk Hy Hnd) as H.
  fold block in H. unfold ee_start in H. destruct (runl _ _) as [out r]. cbn [fst] in H.
  rewrite H; [done|apply Forall_forall; intros; apply Z.bits_0|cbn; lia|done|done].
Qed.

(** Certificate and CertificateVerify.  The Certificate body is accepted
    exactly when it is an empty context and a non-empty list that fills it; a
    body with a non-empty context is refused with illegal_parameter.
    CertificateVerify is accepted exactly when it is an offered scheme and a
    signature that fills it; another scheme is CH_EAUTH with handshake_failure. *)
Theorem certificate_messages_exact body : bytes_ok body ->
  (forall l, parse hsp_parse_certificate body = Some (Done (Some l)) <->
     body = 0 :: be_bytes 3 (Z.of_nat (length l)) ++ l /\ (0 < length l)%nat /\ Z.of_nat (length l) < 2 ^ 24) /\
  (forall c rest, body = c :: rest -> c <> 0 ->
     parse hsp_parse_certificate body = Some (Refuse CH_EPROTO (Some ALERT_ILLEGAL_PARAMETER))) /\
  (forall scheme sig, parse hsp_parse_certificate_verify body = Some (Done (scheme, sig)) <->
     body = be_bytes 2 scheme ++ be_bytes 2 (Z.of_nat (length sig)) ++ sig /\ Z.of_nat (length sig) < 2 ^ 16 /\ cv_offered scheme = true) /\
  (forall scheme rest, body = be_bytes 2 scheme ++ rest -> 0 <= scheme < 2 ^ 16 -> cv_offered scheme = false ->
     parse hsp_parse_certificate_verify body = Some (Refuse CH_EAUTH (Some ALERT_HANDSHAKE_FAILURE))).
Proof.
  intros Hb. split_and!.
  - intros l. by apply certificate_iff.
  - intros c rest -> Hc. rewrite parse_list by done. unfold hsp_parse_certificate. rewrite runl_u8_cons.
    by destruct (Z.eqb_spec c 0).
  - intros scheme sig. by apply certificate_verify_iff.
  - intros scheme rest -> Hr Hs. rewrite parse_list by done. unfold hsp_parse_certificate_verify. rewrite runl_u16_at by done.
    unfold cv_offered in Hs. by rewrite Hs.
Qed.
End Parsers.

(** A web client that offered two protocols and a server name. *)
Definition sample_offer : ee_offer := EeOffer [str "h2"; str "http/1.1"] true 5.
Definition sample_exts : list ee_ext := [EeServerName; EeAlpn (str "http/1.1"); EeLimit 1025; EeCertType 2].

Lemma sample_legal : Forall (ee_legal (build := webpki_build) sample_offer) sample_exts.
Proof.
  repeat (apply Forall_cons; split); [..|apply Forall_nil_2].
  - done.
  - cbn [ee_legal]. split; [done|]. split; [by right; left|]. vm_compute. lia.
  - cbn [ee_legal]. lia.
  - cbn [ee_legal]. split_and!; done || lia.
Qed.

Lemma encrypted_exts_exact_witness :
  parse (hsp_parse_encrypted_exts (build := webpki_build) sample_offer 16384 255 0) (ee_message sample_exts) =
  Some (Done (EeState 1024 1 2 None 45 ALERT_UNSUPPORTED_EXTENSION)).
Proof.
  apply (encrypted_exts_exact (build := webpki_build)).
  - vm_compute. repeat (constructor; [split; discriminate || reflexivity|]); constructor.
  - exists sample_exts. split; [done|]. split; [vm_compute; done|]. split; [exact sample_legal|].
    split; [apply (bool_decide_unpack _); vm_compute; exact I|]. done.
Defined.

Lemma encrypted_exts_returns_witness :
  exists r, parse (hsp_parse_encrypted_exts (build := webpki_build) sample_offer 16384 255 0) [0; 4; 0; 42; 0; 0] = Some r.
Proof.
  destruct (encrypted_exts_returns (build := webpki_build) sample_offer 16384 255 0 [0; 4; 0; 42; 0; 0]) as (r & H & _).
  - repeat (constructor; [split; discriminate || reflexivity|]); constructor.
  - by exists r.
Defined.

(** early_data after a legal prefix. *)
Lemma encrypted_exts_unsolicited_witness :
  let block := wire_exts ((ee_wire <$> sample_exts) ++ [(EXT_EARLY_DATA, [])]) in
  parse (hsp_parse_encrypted_exts (build := webpki_build) sample_offer 16384 255 0) (be_bytes 2 (Z.of_nat (length block)) ++ block) =
    Some (Refuse CH_EPROTO (Some ALERT_UNSUPPORTED_EXTENSION)).
Proof.
  apply (encrypted_exts_unsolicited (build := webpki_build) sample_offer 16384 255 0 sample_exts).
  - vm_compute. repeat (constructor; [split; discriminate || reflexivity|]); constructor.
  - repeat (apply Forall_cons; split); [..|apply Forall_nil_2]; vm_compute; split_and!; discriminate || done.
  - vm_compute. done.
  - exact sample_legal.
  - apply (bool_decide_unpack _). vm_compute. exact I.
  - done.
Defined.

Lemma certificate_messages_exact_witness :
  parse (hsp_parse_certificate_verify (build := raw_build)) [0x08; 0x04; 0; 2; 5; 6] = Some (Done (0x0804, [5; 6])).
Proof.
  apply (certificate_messages_exact (build := raw_build)).
  - repeat (constructor; [split; discriminate || reflexivity|]); constructor.
  - vm_compute. split_and!; done.
Defined.
End Ee.
