(* ===== verification/SrvExt.v ===== *)
(** * The extension readers of the ClientHello parser: src/src/srv_parser_ext.c

    What the parser reports, the code points a server build holds, and one
    reader per extension a server recognizes, with what each accepts. *)

From S2P Require Import Prelude Ct Buf Reader Build Wire.
Local Open Scope Z_scope.
Local Open Scope word_scope.

Module SrvExt.

(** What the parser reports.  A pointer into the message is the bytes it spans,
    NULL is [None]. *)
Record client_hello := ClientHello {
  ch_random : list Z;
  ch_session_id : list Z;
  ch_suites : Z;
  ch_groups : Z;
  ch_shares : Z;
  ch_sigalgs : Z;
  ch_mlkem_share : option (list Z);
  ch_x25519_share : option (list Z);
  ch_hybrid_share : option (list Z);
  ch_p256_share : option (list Z);
  ch_cookie : option (list Z);
  ch_server_name : option (list Z);
  ch_alpn_selected : Z;
  ch_record_size_limit : Z;
  ch_psk_modes : Z;
  ch_truncated_len : nat;
  ch_psk_identities : option (list Z);
  ch_psk_binders : option (list Z);
  ch_seen : Z;
  ch_frozen : list Z;
  ch_transport_params : option (list Z) }.

Definition set_random (c : client_hello) (v : list Z) : client_hello :=
  ClientHello v (ch_session_id c) (ch_suites c) (ch_groups c) (ch_shares c) (ch_sigalgs c) (ch_mlkem_share c)
    (ch_x25519_share c) (ch_hybrid_share c) (ch_p256_share c) (ch_cookie c) (ch_server_name c) (ch_alpn_selected c) (ch_record_size_limit c)
    (ch_psk_modes c) (ch_truncated_len c) (ch_psk_identities c) (ch_psk_binders c) (ch_seen c) (ch_frozen c) (ch_transport_params c).
Definition set_session_id (c : client_hello) (v : list Z) : client_hello :=
  ClientHello (ch_random c) v (ch_suites c) (ch_groups c) (ch_shares c) (ch_sigalgs c) (ch_mlkem_share c)
    (ch_x25519_share c) (ch_hybrid_share c) (ch_p256_share c) (ch_cookie c) (ch_server_name c) (ch_alpn_selected c) (ch_record_size_limit c)
    (ch_psk_modes c) (ch_truncated_len c) (ch_psk_identities c) (ch_psk_binders c) (ch_seen c) (ch_frozen c) (ch_transport_params c).
Definition set_suites (c : client_hello) (v : Z) : client_hello :=
  ClientHello (ch_random c) (ch_session_id c) v (ch_groups c) (ch_shares c) (ch_sigalgs c) (ch_mlkem_share c)
    (ch_x25519_share c) (ch_hybrid_share c) (ch_p256_share c) (ch_cookie c) (ch_server_name c) (ch_alpn_selected c) (ch_record_size_limit c)
    (ch_psk_modes c) (ch_truncated_len c) (ch_psk_identities c) (ch_psk_binders c) (ch_seen c) (ch_frozen c) (ch_transport_params c).
Definition set_groups (c : client_hello) (v : Z) : client_hello :=
  ClientHello (ch_random c) (ch_session_id c) (ch_suites c) v (ch_shares c) (ch_sigalgs c) (ch_mlkem_share c)
    (ch_x25519_share c) (ch_hybrid_share c) (ch_p256_share c) (ch_cookie c) (ch_server_name c) (ch_alpn_selected c) (ch_record_size_limit c)
    (ch_psk_modes c) (ch_truncated_len c) (ch_psk_identities c) (ch_psk_binders c) (ch_seen c) (ch_frozen c) (ch_transport_params c).
Definition set_shares (c : client_hello) (v : Z) : client_hello :=
  ClientHello (ch_random c) (ch_session_id c) (ch_suites c) (ch_groups c) v (ch_sigalgs c) (ch_mlkem_share c)
    (ch_x25519_share c) (ch_hybrid_share c) (ch_p256_share c) (ch_cookie c) (ch_server_name c) (ch_alpn_selected c) (ch_record_size_limit c)
    (ch_psk_modes c) (ch_truncated_len c) (ch_psk_identities c) (ch_psk_binders c) (ch_seen c) (ch_frozen c) (ch_transport_params c).
Definition set_sigalgs (c : client_hello) (v : Z) : client_hello :=
  ClientHello (ch_random c) (ch_session_id c) (ch_suites c) (ch_groups c) (ch_shares c) v (ch_mlkem_share c)
    (ch_x25519_share c) (ch_hybrid_share c) (ch_p256_share c) (ch_cookie c) (ch_server_name c) (ch_alpn_selected c) (ch_record_size_limit c)
    (ch_psk_modes c) (ch_truncated_len c) (ch_psk_identities c) (ch_psk_binders c) (ch_seen c) (ch_frozen c) (ch_transport_params c).
Definition set_mlkem_share (c : client_hello) (v : option (list Z)) : client_hello :=
  ClientHello (ch_random c) (ch_session_id c) (ch_suites c) (ch_groups c) (ch_shares c) (ch_sigalgs c) v
    (ch_x25519_share c) (ch_hybrid_share c) (ch_p256_share c) (ch_cookie c) (ch_server_name c) (ch_alpn_selected c) (ch_record_size_limit c)
    (ch_psk_modes c) (ch_truncated_len c) (ch_psk_identities c) (ch_psk_binders c) (ch_seen c) (ch_frozen c) (ch_transport_params c).
Definition set_x25519_share (c : client_hello) (v : option (list Z)) : client_hello :=
  ClientHello (ch_random c) (ch_session_id c) (ch_suites c) (ch_groups c) (ch_shares c) (ch_sigalgs c) (ch_mlkem_share c)
    v (ch_hybrid_share c) (ch_p256_share c) (ch_cookie c) (ch_server_name c) (ch_alpn_selected c) (ch_record_size_limit c)
    (ch_psk_modes c) (ch_truncated_len c) (ch_psk_identities c) (ch_psk_binders c) (ch_seen c) (ch_frozen c) (ch_transport_params c).
Definition set_hybrid_share (c : client_hello) (v : option (list Z)) : client_hello :=
  ClientHello (ch_random c) (ch_session_id c) (ch_suites c) (ch_groups c) (ch_shares c) (ch_sigalgs c) (ch_mlkem_share c)
    (ch_x25519_share c) v (ch_p256_share c) (ch_cookie c) (ch_server_name c) (ch_alpn_selected c) (ch_record_size_limit c)
    (ch_psk_modes c) (ch_truncated_len c) (ch_psk_identities c) (ch_psk_binders c) (ch_seen c) (ch_frozen c) (ch_transport_params c).
Definition set_p256_share (c : client_hello) (v : option (list Z)) : client_hello :=
  ClientHello (ch_random c) (ch_session_id c) (ch_suites c) (ch_groups c) (ch_shares c) (ch_sigalgs c) (ch_mlkem_share c)
    (ch_x25519_share c) (ch_hybrid_share c) v (ch_cookie c) (ch_server_name c) (ch_alpn_selected c) (ch_record_size_limit c)
    (ch_psk_modes c) (ch_truncated_len c) (ch_psk_identities c) (ch_psk_binders c) (ch_seen c) (ch_frozen c) (ch_transport_params c).
Definition set_cookie (c : client_hello) (v : option (list Z)) : client_hello :=
  ClientHello (ch_random c) (ch_session_id c) (ch_suites c) (ch_groups c) (ch_shares c) (ch_sigalgs c) (ch_mlkem_share c)
    (ch_x25519_share c) (ch_hybrid_share c) (ch_p256_share c) v (ch_server_name c) (ch_alpn_selected c) (ch_record_size_limit c)
    (ch_psk_modes c) (ch_truncated_len c) (ch_psk_identities c) (ch_psk_binders c) (ch_seen c) (ch_frozen c) (ch_transport_params c).
Definition set_server_name (c : client_hello) (v : option (list Z)) : client_hello :=
  ClientHello (ch_random c) (ch_session_id c) (ch_suites c) (ch_groups c) (ch_shares c) (ch_sigalgs c) (ch_mlkem_share c)
    (ch_x25519_share c) (ch_hybrid_share c) (ch_p256_share c) (ch_cookie c) v (ch_alpn_selected c) (ch_record_size_limit c)
    (ch_psk_modes c) (ch_truncated_len c) (ch_psk_identities c) (ch_psk_binders c) (ch_seen c) (ch_frozen c) (ch_transport_params c).
Definition set_alpn_selected (c : client_hello) (v : Z) : client_hello :=
  ClientHello (ch_random c) (ch_session_id c) (ch_suites c) (ch_groups c) (ch_shares c) (ch_sigalgs c) (ch_mlkem_share c)
    (ch_x25519_share c) (ch_hybrid_share c) (ch_p256_share c) (ch_cookie c) (ch_server_name c) v (ch_record_size_limit c)
    (ch_psk_modes c) (ch_truncated_len c) (ch_psk_identities c) (ch_psk_binders c) (ch_seen c) (ch_frozen c) (ch_transport_params c).
Definition set_record_size_limit (c : client_hello) (v : Z) : client_hello :=
  ClientHello (ch_random c) (ch_session_id c) (ch_suites c) (ch_groups c) (ch_shares c) (ch_sigalgs c) (ch_mlkem_share c)
    (ch_x25519_share c) (ch_hybrid_share c) (ch_p256_share c) (ch_cookie c) (ch_server_name c) (ch_alpn_selected c) v
    (ch_psk_modes c) (ch_truncated_len c) (ch_psk_identities c) (ch_psk_binders c) (ch_seen c) (ch_frozen c) (ch_transport_params c).
Definition set_psk_modes (c : client_hello) (v : Z) : client_hello :=
  ClientHello (ch_random c) (ch_session_id c) (ch_suites c) (ch_groups c) (ch_shares c) (ch_sigalgs c) (ch_mlkem_share c)
    (ch_x25519_share c) (ch_hybrid_share c) (ch_p256_share c) (ch_cookie c) (ch_server_name c) (ch_alpn_selected c) (ch_record_size_limit c)
    v (ch_truncated_len c) (ch_psk_identities c) (ch_psk_binders c) (ch_seen c) (ch_frozen c) (ch_transport_params c).
Definition set_truncated_len (c : client_hello) (v : nat) : client_hello :=
  ClientHello (ch_random c) (ch_session_id c) (ch_suites c) (ch_groups c) (ch_shares c) (ch_sigalgs c) (ch_mlkem_share c)
    (ch_x25519_share c) (ch_hybrid_share c) (ch_p256_share c) (ch_cookie c) (ch_server_name c) (ch_alpn_selected c) (ch_record_size_limit c)
    (ch_psk_modes c) v (ch_psk_identities c) (ch_psk_binders c) (ch_seen c) (ch_frozen c) (ch_transport_params c).
Definition set_psk_identities (c : client_hello) (v : option (list Z)) : client_hello :=
  ClientHello (ch_random c) (ch_session_id c) (ch_suites c) (ch_groups c) (ch_shares c) (ch_sigalgs c) (ch_mlkem_share c)
    (ch_x25519_share c) (ch_hybrid_share c) (ch_p256_share c) (ch_cookie c) (ch_server_name c) (ch_alpn_selected c) (ch_record_size_limit c)
    (ch_psk_modes c) (ch_truncated_len c) v (ch_psk_binders c) (ch_seen c) (ch_frozen c) (ch_transport_params c).
Definition set_psk_binders (c : client_hello) (v : option (list Z)) : client_hello :=
  ClientHello (ch_random c) (ch_session_id c) (ch_suites c) (ch_groups c) (ch_shares c) (ch_sigalgs c) (ch_mlkem_share c)
    (ch_x25519_share c) (ch_hybrid_share c) (ch_p256_share c) (ch_cookie c) (ch_server_name c) (ch_alpn_selected c) (ch_record_size_limit c)
    (ch_psk_modes c) (ch_truncated_len c) (ch_psk_identities c) v (ch_seen c) (ch_frozen c) (ch_transport_params c).
Definition set_seen (c : client_hello) (v : Z) : client_hello :=
  ClientHello (ch_random c) (ch_session_id c) (ch_suites c) (ch_groups c) (ch_shares c) (ch_sigalgs c) (ch_mlkem_share c)
    (ch_x25519_share c) (ch_hybrid_share c) (ch_p256_share c) (ch_cookie c) (ch_server_name c) (ch_alpn_selected c) (ch_record_size_limit c)
    (ch_psk_modes c) (ch_truncated_len c) (ch_psk_identities c) (ch_psk_binders c) v (ch_frozen c) (ch_transport_params c).
Definition set_frozen (c : client_hello) (v : list Z) : client_hello :=
  ClientHello (ch_random c) (ch_session_id c) (ch_suites c) (ch_groups c) (ch_shares c) (ch_sigalgs c) (ch_mlkem_share c)
    (ch_x25519_share c) (ch_hybrid_share c) (ch_p256_share c) (ch_cookie c) (ch_server_name c) (ch_alpn_selected c) (ch_record_size_limit c)
    (ch_psk_modes c) (ch_truncated_len c) (ch_psk_identities c) (ch_psk_binders c) (ch_seen c) v (ch_transport_params c).
Definition set_transport_params (c : client_hello) (v : option (list Z)) : client_hello :=
  ClientHello (ch_random c) (ch_session_id c) (ch_suites c) (ch_groups c) (ch_shares c) (ch_sigalgs c) (ch_mlkem_share c)
    (ch_x25519_share c) (ch_hybrid_share c) (ch_p256_share c) (ch_cookie c) (ch_server_name c) (ch_alpn_selected c) (ch_record_size_limit c)
    (ch_psk_modes c) (ch_truncated_len c) (ch_psk_identities c) (ch_psk_binders c) (ch_seen c) (ch_frozen c) v.

(** The structure the caller zeroes. *)
Definition zero_hello : client_hello := ClientHello (replicate 32 0) [] 0 0 0 0 None None None None None None 0 0 0 0 None None 0 (replicate 32 0) None.

Section Parsers.
Context {build : HsBuild}.

(** ** Code points *)

Definition SRV_GROUP_X25519 : Z := 0x01.
Definition SRV_GROUP_X25519MLKEM768 : Z := 0x02.
Definition SRV_GROUP_SECP256R1 : Z := 0x04.
Definition SRV_GROUP_MLKEM1024 : Z := 0x08.
Definition srv_group_bit (group : Z) : Z :=
  if CH_PROFILE_CNSA2 then (if (group =? CH_GROUP_MLKEM1024) then SRV_GROUP_MLKEM1024 else 0)
  else if (group =? CH_GROUP_MLKEM1024) then SRV_GROUP_MLKEM1024
  else if (group =? CH_GROUP_X25519MLKEM768) then SRV_GROUP_X25519MLKEM768
  else if (group =? CH_GROUP_SECP256R1) then SRV_GROUP_SECP256R1
  else if (group =? CH_GROUP_X25519) then SRV_GROUP_X25519 else 0.

Definition SRV_SUITE_CHACHA20_POLY1305 : Z := 0x01.
Definition SRV_SUITE_AES_128_GCM : Z := 0x02.
Definition SRV_SUITE_AES_256_GCM : Z := 0x04.
Definition srv_suite_bit (suite : Z) : Z :=
  if CH_PROFILE_CNSA2 then (if (suite =? SUITE_AES_256_GCM_SHA384) then SRV_SUITE_AES_256_GCM else 0)
  else if CH_SUITE_AES_GCM && (suite =? SUITE_AES_128_GCM_SHA256) then SRV_SUITE_AES_128_GCM
  else if CH_SUITE_AES_GCM && (suite =? SUITE_AES_256_GCM_SHA384) then SRV_SUITE_AES_256_GCM
  else if (suite =? SUITE_CHACHA20_POLY1305_SHA256) then SRV_SUITE_CHACHA20_POLY1305 else 0.

Definition SRV_SIGALG_ECDSA_P256 : Z := 0x01.
Definition SRV_SIGALG_RSA_PSS : Z := 0x02.
Definition SRV_SIGALG_MLDSA87 : Z := 0x04.

Definition SRV_RANDOM : nat := 32.
Definition SRV_SESSION_ID_MAX : Z := 32.
Definition SRV_CLIENT_HELLO_EXT_MAX : nat := 128.

Definition ext_bit (type : Z) : Z :=
  if (type =? EXT_SERVER_NAME) then 0x0001
  else if (type =? EXT_SUPPORTED_GROUPS) then 0x0002
  else if (type =? EXT_SIGNATURE_ALGORITHMS) then 0x0004
  else if (type =? EXT_ALPN) then 0x0008
  else if (type =? EXT_RECORD_SIZE_LIMIT) then 0x0010
  else if (type =? EXT_PRE_SHARED_KEY) then 0x0020
  else if (type =? EXT_SUPPORTED_VERSIONS) then 0x0040
  else if (type =? EXT_COOKIE) then 0x0080
  else if (type =? EXT_PSK_MODES) then 0x0100
  else if (type =? EXT_KEY_SHARE) then 0x0200
  else if (type =? EXT_EARLY_DATA) then 0x0400
  else if (type =? EXT_PADDING) then 0x0800
  else if (type =? EXT_QUIC_TRANSPORT_PARAMS) then 0x1000
  else 0.
Definition srv_ext_known (type : Z) : bool := negb (ext_bit type =? 0).

Definition frozen_covers (type : Z) : bool :=
  negb (type =? EXT_KEY_SHARE) && negb (type =? EXT_EARLY_DATA) && negb (type =? EXT_COOKIE) &&
  negb (type =? EXT_PRE_SHARED_KEY) && negb (type =? EXT_PADDING).

(** ** Lists of code points *)

Definition srv_open_code_point_list : prog (Z * bool) :=
  list_len ← u16_;
  e ← err_;
  n ← left_;
  Ret (list_len, negb e && (2 <=? list_len) && (list_len .& 1 =? 0) && (list_len <=? Z.of_nat n)).

Definition srv_list_has (list_len : nat) (code : Z) : prog bool :=
  for_u16_list list_len (fun v found => if (v =? code) then true else found) false.

(** ** The extension readers *)

Definition read_server_name (ch : client_hello) : prog (outcome client_hello) :=
  list_len ← u16_;
  name_type ← u8_;
  name_len ← u16_;
  name ← nbytes_ (Z.to_nat name_len);
  match name with
  | None => refuse ALERT_DECODE_ERROR
  | Some name =>
      if negb (name_type =? 0) || (name_len =? 0) || negb (list_len =? 3 + name_len) then refuse ALERT_DECODE_ERROR
      else Ret (Done (set_server_name ch (Some name)))
  end.

Definition read_supported_groups (ch : client_hello) : prog (outcome client_hello) :=
  o ← srv_open_code_point_list;
  if negb o.2 then refuse ALERT_DECODE_ERROR
  else
    ch ← for_u16_list (Z.to_nat o.1) (fun v ch => set_groups ch (ch_groups ch .| srv_group_bit v)) ch;
    Ret (Done ch).

Definition take_sigalg (scheme : Z) (ch : client_hello) : client_hello :=
  let ch := if CH_SIGN_MLDSA && (scheme =? SIGALG_MLDSA87) then set_sigalgs ch (ch_sigalgs ch .| SRV_SIGALG_MLDSA87) else ch in
  if CH_PROFILE_CNSA2 then ch
  else
    let ch := if (scheme =? SIGALG_ECDSA_P256_SHA256) then set_sigalgs ch (ch_sigalgs ch .| SRV_SIGALG_ECDSA_P256) else ch in
    if (scheme =? SIGALG_RSA_PSS_RSAE_SHA256) then set_sigalgs ch (ch_sigalgs ch .| SRV_SIGALG_RSA_PSS) else ch.
Definition read_signature_algorithms (ch : client_hello) : prog (outcome client_hello) :=
  o ← srv_open_code_point_list;
  if negb o.2 then refuse ALERT_DECODE_ERROR
  else ch ← for_u16_list (Z.to_nat o.1) take_sigalg ch; Ret (Done ch).

(** [j] is the index of the first name of [offered] in the caller's list. *)
Fixpoint alpn_offered (j : nat) (offered : list (list Z)) (name : list Z) (ch : client_hello) : client_hello :=
  match offered with
  | [] => ch
  | p :: offered =>
      if (length p =? length name)%nat && negb (ct_memeq p name (length name) =? 0) then
        if (ch_alpn_selected ch =? CH_ALPN_NONE) || (Z.of_nat j <? ch_alpn_selected ch)
        then set_alpn_selected ch (u8 (Z.of_nat j)) else ch
      else alpn_offered (S j) offered name ch
  end.
Definition alpn_name (offered : list (list Z)) (ch : client_hello) : prog (outcome (client_hello * nat)) :=
  name_len ← u8_;
  name ← nbytes_ (Z.to_nat name_len);
  match name with
  | None => refuse ALERT_DECODE_ERROR
  | Some name =>
      if (name_len =? 0) then refuse ALERT_DECODE_ERROR
      else Ret (Done (alpn_offered 0 offered name ch, (1 + Z.to_nat name_len)%nat))
  end.
Definition read_alpn (offered : list (list Z)) (ch : client_hello) : prog (outcome client_hello) :=
  list_len ← u16_;
  e ← err_;
  n ← left_;
  if e || (list_len <? 2) || (Z.of_nat n <? list_len) then refuse ALERT_DECODE_ERROR
  else while_used (Z.to_nat list_len) 0 (Z.to_nat list_len) (alpn_name offered) ch.

Definition read_record_size_limit (ch : client_hello) : prog (outcome client_hello) :=
  limit ← u16_;
  e ← err_;
  if (e : bool) then refuse ALERT_DECODE_ERROR
  else if (limit <? 64) then refuse ALERT_ILLEGAL_PARAMETER
  else Ret (Done (set_record_size_limit ch (u16 (limit - 1)))).

Definition psk_identity (ch : client_hello) : prog (outcome (client_hello * nat)) :=
  identity_len ← u16_;
  identity ← nbytes_ (Z.to_nat identity_len);
  match identity with
  | None => refuse ALERT_DECODE_ERROR
  | Some _ =>
      if (identity_len =? 0) then refuse ALERT_DECODE_ERROR
      else
        age ← nbytes_ 4;
        match age with
        | None => refuse ALERT_DECODE_ERROR
        | Some _ => Ret (Done (ch, (2 + Z.to_nat identity_len + 4)%nat))
        end
  end.
(** The report and [*identities_len]. *)
Definition read_psk_identities (ch : client_hello) : prog (outcome (client_hello * nat)) :=
  identities_len ← u16_;
  e ← err_;
  n ← left_;
  if e || (identities_len <? 7) || (Z.of_nat n <? identities_len) then refuse ALERT_DECODE_ERROR
  else
    let len := Z.to_nat identities_len in
    ids ← peek_ len;
    ch ←! while_used len 0 len psk_identity (set_psk_identities ch (Some ids));
    Ret (Done (ch, len)).

Definition psk_binder (ch : client_hello) : prog (outcome (client_hello * nat)) :=
  binder_len ← u8_;
  binder ← nbytes_ (Z.to_nat binder_len);
  match binder with
  | None => refuse ALERT_DECODE_ERROR
  | Some _ =>
      if (binder_len <? 32) then refuse ALERT_DECODE_ERROR
      else Ret (Done (ch, (1 + Z.to_nat binder_len)%nat))
  end.
Definition read_psk_binders (ch : client_hello) : prog (outcome client_hello) :=
  binders_len ← u16_;
  e ← err_;
  n ← left_;
  if e || (binders_len <? 33) || (Z.of_nat n <? binders_len) then refuse ALERT_DECODE_ERROR
  else
    let len := Z.to_nat binders_len in
    b ← peek_ len;
    while_used len 0 len psk_binder (set_psk_binders ch (Some b)).

Definition read_pre_shared_key (data_off : nat) (ch : client_hello) : prog (outcome client_hello) :=
  r ←! read_psk_identities ch;
  read_psk_binders (set_truncated_len r.1 (data_off + 2 + r.2)).

Definition read_supported_versions (ch : client_hello) : prog (outcome client_hello) :=
  list_len ← u8_;
  e ← err_;
  n ← left_;
  if e || (list_len <? 2) || negb (list_len .& 1 =? 0) || (Z.of_nat n <? list_len) then refuse ALERT_DECODE_ERROR
  else
    found ← srv_list_has (Z.to_nat list_len) TLS13;
    if negb found then refuse ALERT_PROTOCOL_VERSION else Ret (Done ch).

Definition read_cookie (ch : client_hello) : prog (outcome client_hello) :=
  cookie_len ← u16_;
  cookie ← nbytes_ (Z.to_nat cookie_len);
  match cookie with
  | None => refuse ALERT_DECODE_ERROR
  | Some cookie =>
      if (cookie_len =? 0) then refuse ALERT_DECODE_ERROR else Ret (Done (set_cookie ch (Some cookie)))
  end.

Definition SRV_PSK_KE : Z := 0x01.
Definition SRV_PSK_DHE_KE : Z := 0x02.
Fixpoint psk_modes_loop (count : nat) (ch : client_hello) : prog client_hello :=
  match count with
  | O => Ret ch
  | S count =>
      mode ← u8_;
      let ch := if (mode =? 0) then set_psk_modes ch (ch_psk_modes ch .| SRV_PSK_KE) else ch in
      let ch := if (mode =? 1) then set_psk_modes ch (ch_psk_modes ch .| SRV_PSK_DHE_KE) else ch in
      psk_modes_loop count ch
  end.
Definition read_psk_modes (ch : client_hello) : prog (outcome client_hello) :=
  list_len ← u8_;
  e ← err_;
  n ← left_;
  if e || (list_len =? 0) || (Z.of_nat n <? list_len) then refuse ALERT_DECODE_ERROR
  else ch ← psk_modes_loop (Z.to_nat list_len) ch; Ret (Done ch).

Definition share_len_of (bit : Z) : nat :=
  if CH_PROFILE_CNSA2 then MLKEM_EK_LEN_1024
  else if (bit =? SRV_GROUP_MLKEM1024) then MLKEM_EK_LEN_1024
  else if (bit =? SRV_GROUP_X25519MLKEM768) then CH_HYBRID_CLIENT_SHARE
  else if (bit =? SRV_GROUP_SECP256R1) then P256_POINT_LEN else X25519_LEN.

Definition take_share (bit : Z) (share : list Z) (ch : client_hello) : outcome client_hello :=
  if negb (length share =? share_len_of bit)%nat then Refuse CH_EPROTO (Some ALERT_ILLEGAL_PARAMETER)
  else if negb (ch_shares ch .& bit =? 0) then Done ch
  else
    let ch := set_shares ch (ch_shares ch .| bit) in
    Done (if CH_PROFILE_CNSA2 then set_mlkem_share ch (Some share)
          else if (bit =? SRV_GROUP_MLKEM1024) then set_mlkem_share ch (Some share)
          else if (bit =? SRV_GROUP_X25519MLKEM768) then set_hybrid_share ch (Some share)
          else if (bit =? SRV_GROUP_SECP256R1) then set_p256_share ch (Some share)
          else set_x25519_share ch (Some share)).

Definition key_share_entry (ch : client_hello) : prog (outcome (client_hello * nat)) :=
  group ← u16_;
  share_len ← u16_;
  share ← nbytes_ (Z.to_nat share_len);
  match share with
  | None => refuse ALERT_DECODE_ERROR
  | Some share =>
      if (share_len =? 0) then refuse ALERT_DECODE_ERROR
      else
        let bit := srv_group_bit group in
        ch ←! Ret (if negb (bit =? 0) then take_share bit share ch else Done ch);
        Ret (Done (ch, (4 + Z.to_nat share_len)%nat))
  end.
Definition read_key_share (ch : client_hello) : prog (outcome client_hello) :=
  list_len ← u16_;
  e ← err_;
  n ← left_;
  if e || (Z.of_nat n <? list_len) then refuse ALERT_DECODE_ERROR
  else while_used (Z.to_nat list_len) 0 (Z.to_nat list_len) key_share_entry ch.

Definition srv_read_extension (offered : list (list Z)) (type : Z) (data_off : nat) (ch : client_hello) : prog (outcome client_hello) :=
  if (type =? EXT_SERVER_NAME) then read_server_name ch
  else if (type =? EXT_SUPPORTED_GROUPS) then read_supported_groups ch
  else if (type =? EXT_SIGNATURE_ALGORITHMS) then read_signature_algorithms ch
  else if (type =? EXT_ALPN) then read_alpn offered ch
  else if (type =? EXT_RECORD_SIZE_LIMIT) then read_record_size_limit ch
  else if (type =? EXT_PRE_SHARED_KEY) then read_pre_shared_key data_off ch
  else if (type =? EXT_SUPPORTED_VERSIONS) then read_supported_versions ch
  else if (type =? EXT_COOKIE) then read_cookie ch
  else if (type =? EXT_PSK_MODES) then read_psk_modes ch
  else if (type =? EXT_KEY_SHARE) then read_key_share ch
  else if (type =? EXT_PADDING) then n ← left_; skip_ n;; Ret (Done ch)
  else if (type =? EXT_EARLY_DATA) then Ret (Done ch)
  else if (type =? EXT_QUIC_TRANSPORT_PARAMS) then
    if CH_TRANSPORT_QUIC_NONBLOCKING then
      n ← left_;
      params ← nbytes_ n;
      Ret (Done (set_transport_params ch params))
    else refuse ALERT_UNSUPPORTED_EXTENSION
  else refuse ALERT_DECODE_ERROR.

(** ** Lemmas: lists of code points *)

(** The wire form of a list of 16-bit code points, without its length. *)
Definition code_points (vs : list Z) : list Z := mjoin (be_bytes 2 <$> vs).
Definition code_ok (v : Z) : Prop := 0 <= v < 2 ^ 16.

Lemma length_code_points vs : length (code_points vs) = (2 * length vs)%nat.
Proof.
  induction vs as [|v vs IH]; [done|]. change (code_points (v :: vs)) with (be_bytes 2 v ++ code_points vs).
  rewrite length_app, length_be_bytes, IH. cbn [length]. lia.
Qed.

Lemma split_code_points l k : bytes_ok l -> (2 * k <= length l)%nat ->
  exists vs l', length vs = k /\ Forall code_ok vs /\ l = code_points vs ++ l'.
Proof.
  revert l. induction k as [|k IH]; intros l Hl Hk; [by exists [], l; repeat constructor|].
  destruct (split_be2 l Hl) as (v & l1 & Hv & ->); [lia|]. apply Forall_app in Hl as [_ Hl]. rewrite length_app, length_be_bytes in Hk.
  destruct (IH l1 Hl) as (vs & l' & Hn & Hvs & ->); [lia|]. exists (v :: vs), l'. split; [cbn; lia|]. split; [by constructor|].
  by rewrite app_assoc.
Qed.

Lemma runl_for_u16 {A} (f : Z -> A -> A) vs a l : Forall code_ok vs ->
  runl (for_u16 (length vs) f a) (Some (code_points vs ++ l)) = (Some (fold_left (fun a v => f v a) vs a), Some l).
Proof.
  intros Hv. revert a. induction Hv as [|v vs Hv Hvs IH]; intros a; [done|]. cbn [length for_u16 fold_left].
  change (code_points (v :: vs)) with (be_bytes 2 v ++ code_points vs). rewrite <- app_assoc, runl_u16_at by done. apply IH.
Qed.

(** A length-prefixed list of code points, read and folded. *)
Lemma code_point_list_iff {A B} (f : Z -> A -> A) (a : A) (k : A -> prog (outcome B)) al l r s' : bytes_ok l ->
  runl (o ← srv_open_code_point_list; if negb o.2 then refuse al else
        a ← for_u16_list (Z.to_nat o.1) f a; k a) (Some l) = (Some (Done r), s') <->
  exists vs l', (1 <= length vs)%nat /\ 2 * Z.of_nat (length vs) < 2 ^ 16 /\ Forall code_ok vs /\
    l = be_bytes 2 (2 * Z.of_nat (length vs)) ++ code_points vs ++ l' /\
    runl (k (fold_left (fun a v => f v a) vs a)) (Some l') = (Some (Done r), s').
Proof.
  intros Hl. unfold srv_open_code_point_list.
  match goal with |- runl (?p ≫= ?g) _ = _ <-> _ => set (G := g) end.
  assert (E : runl ((list_len ← u16_; e ← err_; n ← left_;
      Ret (list_len, negb e && (2 <=? list_len) && (list_len .& 1 =? 0) && (list_len <=? Z.of_nat n))) ≫= G) (Some l) =
    runl (list_len ← u16_; e ← err_; n ← left_; G (list_len, negb e && (2 <=? list_len) && (list_len .& 1 =? 0) && (list_len <=? Z.of_nat n))) (Some l)).
  { rewrite !runl_bind. destruct (runl u16_ (Some l)) as [[v|] s1]; done. }
  rewrite E. clear E. rewrite runl_u16_iff; [|done|intros v; by rewrite runl_err, runl_left]. unfold G. clear G. split.
  - intros (n & l1 & Hn & -> & H). apply Forall_app in Hl as [_ Hl]. rewrite runl_err, runl_left in H. cbn [is_err left_of negb fst snd andb] in H.
    destruct (Z.leb_spec 2 n); [|discriminate]. rewrite (land_mask 1) in H by done. destruct (Z.eqb_spec (n mod 2 ^ 1) 0); [|discriminate].
    destruct (Z.leb_spec n (Z.of_nat (length l1))); [|discriminate]. cbn [andb negb] in H.
    destruct (split_code_points l1 (Z.to_nat (n / 2)) Hl) as (vs & l' & Hlen & Hvs & ->); [dlia|].
    assert (En : n = 2 * Z.of_nat (length vs)) by (rewrite Hlen; dlia).
    unfold for_u16_list in H. replace ((Z.to_nat n + 1) / 2)%nat with (length vs) in H.
    2:{ rewrite En. replace (Z.to_nat (2 * Z.of_nat (length vs)) + 1)%nat with (1 + length vs * 2)%nat by lia. by rewrite Nat.div_add. }
    rewrite runl_bind, runl_for_u16 in H by done. exists vs, l'. rewrite <- En. split_and!; try done; lia.
  - intros (vs & l' & H1 & Hn & Hvs & -> & H). do 2 eexists. split_and!; [..|reflexivity|]; [lia|done|].
    rewrite runl_err, runl_left. cbn [is_err left_of negb fst snd andb]. rewrite length_app, length_code_points.
    rewrite (land_mask 1) by done. replace ((2 * Z.of_nat (length vs)) mod 2 ^ 1) with 0 by dlia.
    destruct (Z.leb_spec 2 (2 * Z.of_nat (length vs))); [|lia]. destruct (Z.leb_spec (2 * Z.of_nat (length vs)) (Z.of_nat (2 * length vs + length l'))); [|lia].
    cbn [andb negb Z.eqb]. unfold for_u16_list.
    replace ((Z.to_nat (2 * Z.of_nat (length vs)) + 1) / 2)%nat with (length vs).
    2:{ replace (Z.to_nat (2 * Z.of_nat (length vs)) + 1)%nat with (1 + length vs * 2)%nat by lia. by rewrite Nat.div_add. }
    by rewrite runl_bind, runl_for_u16.
Qed.

(** ** Lemmas: what the readers keep true *)

Definition srv_alerts : list Z :=
  [ALERT_ILLEGAL_PARAMETER; ALERT_DECODE_ERROR; ALERT_PROTOCOL_VERSION; ALERT_MISSING_EXTENSION; ALERT_UNSUPPORTED_EXTENSION].
Definition srv_refusal (rc : Z) (al : option Z) : Prop := rc = CH_EPROTO /\ exists a, al = Some a /\ a ∈ srv_alerts.

(** The share reported for a group. *)
Definition share_of (ch : client_hello) (bit : Z) : option (list Z) :=
  if (bit =? SRV_GROUP_MLKEM1024) then ch_mlkem_share ch
  else if (bit =? SRV_GROUP_X25519MLKEM768) then ch_hybrid_share ch
  else if (bit =? SRV_GROUP_SECP256R1) then ch_p256_share ch else ch_x25519_share ch.
(** The groups a build holds. *)
Definition held_bits : list Z :=
  if CH_PROFILE_CNSA2 then [SRV_GROUP_MLKEM1024]
  else [SRV_GROUP_MLKEM1024; SRV_GROUP_X25519MLKEM768; SRV_GROUP_SECP256R1; SRV_GROUP_X25519].

(** Every share reported has the length of its group, and every bit of
    [shares] is a group the build holds. *)
Definition shares_ok (ch : client_hello) : Prop :=
  0 <= ch_shares ch < 2 ^ 4 /\
  forall bit, bit ∈ held_bits -> ch_shares ch .& bit <> 0 ->
    exists share, share_of ch bit = Some share /\ length share = share_len_of bit.

Definition alpn_ok (offered : list (list Z)) (ch : client_hello) : Prop :=
  ch_alpn_selected ch = CH_ALPN_NONE \/ 0 <= ch_alpn_selected ch < Z.of_nat (length offered).
Definition limit_ok (ch : client_hello) : Prop :=
  ch_record_size_limit ch = 0 \/ 63 <= ch_record_size_limit ch < 2 ^ 16 - 1.

(** The fields the readers fill, valid together; no reader writes [seen]. *)
Definition hello_ok (offered : list (list Z)) (sn : Z) (ch : client_hello) : Prop :=
  shares_ok ch /\ alpn_ok offered ch /\ limit_ok ch /\ ch_seen ch = sn.

Lemma srv_refusal_of a : a ∈ srv_alerts -> srv_refusal CH_EPROTO (Some a).
Proof. intros Ha. split; [done|]. by exists a. Qed.
End Parsers.

(** The goal of a reader's refusal. *)
Ltac srv_refuses := apply srv_refusal_of; apply (bool_decide_unpack _); vm_compute; exact I.

Section Totals.
Context {build : HsBuild} (offered : list (list Z)) (sn : Z).
Abbreviation keeps p := (total (fine srv_refusal (hello_ok offered sn)) p) (only parsing).
Abbreviation keeps_used p := (total (fine srv_refusal (fun r => hello_ok offered sn r.1 /\ (1 <= r.2)%nat)) p) (only parsing).

Ltac reader_step := first
  [ match goal with |- total _ (Ret (Refuse _ _)) => apply total_ret; srv_refuses end
  | match goal with |- total _ (refuse _) => apply total_ret; srv_refuses end
  | total_step ].

Lemma keeps_open : total any srv_open_code_point_list.
Proof. unfold srv_open_code_point_list. repeat total_step. Qed.

Lemma keeps_server_name ch : hello_ok offered sn ch -> keeps (read_server_name ch).
Proof. intros Hc. unfold read_server_name. repeat reader_step. Qed.
Lemma keeps_cookie ch : hello_ok offered sn ch -> keeps (read_cookie ch).
Proof. intros Hc. unfold read_cookie. repeat reader_step. Qed.

Lemma keeps_groups ch : hello_ok offered sn ch -> keeps (read_supported_groups ch).
Proof.
  intros Hc. unfold read_supported_groups. eapply total_bind; [apply keeps_open|]. intros [n b] _. cbn [fst snd].
  destruct (negb b); [reader_step|]. eapply total_bind; [apply (total_for_u16 (hello_ok offered sn)); [|done]|].
  - intros v c _ Hc'. exact Hc'.
  - intros c Hc'. by apply total_ret.
Qed.

Lemma keeps_sigalgs ch : hello_ok offered sn ch -> keeps (read_signature_algorithms ch).
Proof.
  intros Hc. unfold read_signature_algorithms. eapply total_bind; [apply keeps_open|]. intros [n b] _. cbn [fst snd].
  destruct (negb b); [reader_step|]. eapply total_bind; [apply (total_for_u16 (hello_ok offered sn)); [|done]|].
  - intros v c _ Hc'. unfold take_sigalg. destruct (CH_SIGN_MLDSA && _), CH_PROFILE_CNSA2, (v =? SIGALG_ECDSA_P256_SHA256),
      (v =? SIGALG_RSA_PSS_RSAE_SHA256); exact Hc'.
  - intros c Hc'. by apply total_ret.
Qed.

Lemma keeps_limit ch : hello_ok offered sn ch -> keeps (read_record_size_limit ch).
Proof.
  intros Hc. unfold read_record_size_limit. repeat reader_step. destruct Hc as (H1 & H2 & _ & H4). split_and!; [exact H1|exact H2| |exact H4].
  right. cbn [ch_record_size_limit set_record_size_limit].
  match goal with H : (?a <? 64) = false |- _ => apply Z.ltb_ge in H end. cbv beta in *. rewrite u16_small by lia. lia.
Qed.

Lemma alpn_offered_ok j l name ch : (j + length l <= length offered)%nat -> hello_ok offered sn ch ->
  hello_ok offered sn (alpn_offered j l name ch).
Proof.
  revert j. induction l as [|p l IH]; intros j Hj Hc; cbn [alpn_offered]; [done|]. cbn [length] in Hj.
  destruct (_ && _); [|apply IH; [lia|done]]. destruct (_ || _); [|done]. destruct Hc as (H1 & _ & H3 & H4). split_and!; [exact H1| |exact H3|exact H4].
  right. cbn [ch_alpn_selected set_alpn_selected]. pose proof (Z.mod_le (Z.of_nat j) (2 ^ 8)). unfold u8. pose proof (Z.mod_pos_bound (Z.of_nat j) (2 ^ 8)). lia.
Qed.

Lemma keeps_alpn ch : hello_ok offered sn ch -> keeps (read_alpn offered ch).
Proof.
  intros Hc. unfold read_alpn. repeat reader_step. apply total_while_used; [|srv_refuses|lia|done].
  intros c Hc'. unfold alpn_name. repeat reader_step. cbn [fine fst snd]. split; [|lia]. by apply alpn_offered_ok.
Qed.

Lemma keeps_identities ch : hello_ok offered sn ch -> total (fine srv_refusal (fun r => hello_ok offered sn r.1)) (read_psk_identities ch).
Proof.
  intros Hc. unfold read_psk_identities. repeat reader_step. eapply (total_obind _ (hello_ok offered sn)).
  - apply total_while_used; [|srv_refuses|lia|exact Hc]. intros c Hc'. unfold psk_identity. repeat reader_step. split; [done|cbn; lia].
  - intros c Hc'. by apply total_ret.
Qed.
Lemma keeps_binders ch : hello_ok offered sn ch -> keeps (read_psk_binders ch).
Proof.
  intros Hc. unfold read_psk_binders. repeat reader_step. apply total_while_used; [|srv_refuses|lia|exact Hc].
  intros c Hc'. unfold psk_binder. repeat reader_step. split; [done|cbn; lia].
Qed.
Lemma keeps_psk off ch : hello_ok offered sn ch -> keeps (read_pre_shared_key off ch).
Proof.
  intros Hc. unfold read_pre_shared_key. eapply total_obind; [by apply keeps_identities|]. intros [c n] Hc'. by apply keeps_binders.
Qed.

Lemma keeps_versions ch : hello_ok offered sn ch -> keeps (read_supported_versions ch).
Proof.
  intros Hc. unfold read_supported_versions. repeat reader_step. eapply total_bind; [by apply (total_for_u16 any)|].
  intros found _. repeat reader_step.
Qed.

Lemma keeps_psk_modes ch : hello_ok offered sn ch -> keeps (read_psk_modes ch).
Proof.
  intros Hc. unfold read_psk_modes. repeat reader_step. eapply (total_bind (hello_ok offered sn)); [|intros c Hc'; by apply total_ret].
  generalize (Z.to_nat a). intros count. revert ch Hc. induction count as [|count IH]; intros ch Hc; cbn [psk_modes_loop]; [by apply total_ret|].
  eapply total_bind; [apply total_u8|]. intros m _. apply IH. by destruct (m =? 0), (m =? 1).
Qed.

Lemma group_bit_held g : srv_group_bit g <> 0 -> srv_group_bit g ∈ held_bits.
Proof.
  unfold srv_group_bit, held_bits. intros H. repeat case_match; try done; rewrite ?elem_of_cons; auto 6.
Qed.

(** The share a group's entry sets, and that the others keep. *)
Lemma share_of_set bit b share ch : bit ∈ held_bits -> b ∈ held_bits ->
  share_of (if CH_PROFILE_CNSA2 then set_mlkem_share ch (Some share)
            else if (bit =? SRV_GROUP_MLKEM1024) then set_mlkem_share ch (Some share)
            else if (bit =? SRV_GROUP_X25519MLKEM768) then set_hybrid_share ch (Some share)
            else if (bit =? SRV_GROUP_SECP256R1) then set_p256_share ch (Some share)
            else set_x25519_share ch (Some share)) b = if (b =? bit) then Some share else share_of ch b.
Proof.
  unfold held_bits. destruct CH_PROFILE_CNSA2; rewrite ?elem_of_cons, ?elem_of_nil;
    intros Hbit Hb; repeat match goal with H : _ \/ _ |- _ => destruct H as [H|H] end; subst; done.
Qed.

Lemma held_land bit b s : bit ∈ held_bits -> b ∈ held_bits -> bit <> b -> Z.land (Z.lor s bit) b = Z.land s b.
Proof.
  intros Hbit Hb Hne. rewrite Z.land_lor_distr_l. replace (Z.land bit b) with 0; [apply Z.lor_0_r|]. revert Hbit Hb Hne.
  unfold held_bits. destruct CH_PROFILE_CNSA2; rewrite ?elem_of_cons, ?elem_of_nil; intros Hbit Hb Hne;
    repeat match goal with H : _ \/ _ |- _ => destruct H as [H|H] end; subst; done.
Qed.

Lemma held_range bit : bit ∈ held_bits -> 0 <= bit < 2 ^ 4.
Proof.
  unfold held_bits. destruct CH_PROFILE_CNSA2; rewrite ?elem_of_cons, ?elem_of_nil; intros H;
    repeat destruct H as [->|H]; try done; vm_compute; split; done || discriminate.
Qed.

Lemma take_share_ok bit share ch : bit ∈ held_bits -> hello_ok offered sn ch ->
  fine srv_refusal (hello_ok offered sn) (take_share bit share ch).
Proof.
  intros Hbit (Hs & Ha & Hl & Hsn). unfold take_share. destruct (Nat.eqb_spec (length share) (share_len_of bit)) as [El|]; cbn [negb]; [|srv_refuses].
  destruct (negb _); [done|]. destruct Hs as [Hr Hs]. cbn [fine]. set (c := set_shares ch _).
  match goal with |- hello_ok _ _ ?x => set (d := x) end.
  assert (Hd : ch_shares d = ch_shares ch .| bit /\ ch_alpn_selected d = ch_alpn_selected ch /\
    ch_record_size_limit d = ch_record_size_limit ch /\ ch_seen d = ch_seen ch).
  { unfold d. by repeat case_match. }
  destruct Hd as (D1 & D2 & D3 & D4). unfold hello_ok, alpn_ok, limit_ok, shares_ok. rewrite D1, D2, D3, D4. split_and!; try done.
  - apply (lor_bound 4); [lia|done|by apply held_range].
  - apply (lor_bound 4); [lia|done|by apply held_range].
  - intros b Hb Hne. unfold d. rewrite share_of_set by done. destruct (Z.eqb_spec b bit) as [->|Hn]; [by exists share|].
    rewrite held_land in Hne by congruence. destruct (Hs b Hb Hne) as (sh & E & Hlen). exists sh. split; [|done].
    rewrite <- E. unfold c, share_of. by repeat case_match.
Qed.

Lemma keeps_key_share ch : hello_ok offered sn ch -> keeps (read_key_share ch).
Proof.
  intros Hc. unfold read_key_share. repeat reader_step. apply total_while_used; [|srv_refuses|lia|exact Hc].
  intros c Hc'. unfold key_share_entry. repeat reader_step. eapply (total_obind _ (hello_ok offered sn)).
  - apply total_ret. destruct (Z.eqb_spec (srv_group_bit a2) 0) as [|Hb]; cbn [negb]; [done|].
    apply take_share_ok; [by apply group_bit_held|done].
  - intros c' Hc2. apply total_ret. split; [done|cbn; lia].
Qed.

(** Every reader returns, refuses with a named alert, and keeps [hello_ok]. *)
Lemma keeps_extension type off ch : hello_ok offered sn ch -> keeps (srv_read_extension offered type off ch).
Proof.
  intros Hc. unfold srv_read_extension.
  destruct (type =? _); [by apply keeps_server_name|]. destruct (type =? _); [by apply keeps_groups|].
  destruct (type =? _); [by apply keeps_sigalgs|]. destruct (type =? _); [by apply keeps_alpn|].
  destruct (type =? _); [by apply keeps_limit|]. destruct (type =? _); [by apply keeps_psk|].
  destruct (type =? _); [by apply keeps_versions|]. destruct (type =? _); [by apply keeps_cookie|].
  destruct (type =? _); [by apply keeps_psk_modes|]. destruct (type =? _); [by apply keeps_key_share|].
  destruct (type =? _); [repeat reader_step; eapply total_bind; [apply total_skip|]; intros; by apply total_ret|].
  destruct (type =? _); [by apply total_ret|]. repeat reader_step.
Qed.
End Totals.
End SrvExt.
