(* ===== verification/SrvParser.v ===== *)
(** * The server's ClientHello parser: src/src/srv_parser.c

    The walk over one ClientHello: its head, the count and the distinctness of
    its extensions, the reader of each one, the frozen digest that binds a
    second hello to the first, and the checks over the whole message. *)

From Stdlib Require Import Sorting.Sorted.
From stdpp Require Import sorting.
From S2P Require Import Prelude Ct Buf Reader MdHash Sha256 Build Wire SrvExt.
Local Open Scope Z_scope.
Local Open Scope word_scope.

Module Srv.
Import Sha256 SrvExt.

(** [while (rb_left(r) > 0) body], the body going on with [inl] or returning [inr] *)
Fixpoint scan {A R} (fuel : nat) (body : A -> prog (A + R)) (fin : A -> R) (a : A) : prog R :=
  n ← left_;
  if (n =? 0)%nat then Ret (fin a)
  else match fuel with
       | O => Fail
       | S fuel => o ← body a; match o with inl a => scan fuel body fin a | inr r => Ret r end
       end.
Definition scan_left {A R} (body : A -> prog (A + R)) (fin : A -> R) (a : A) : prog R :=
  n ← left_; scan n body fin a.

(** One extension header and the skip over its body. *)
Definition skip_ext : prog (Z * nat) :=
  type ← u16_;
  len ← u16_;
  skip_ (Z.to_nat len);;
  Ret (type, Z.to_nat len).

(** ** Scans of a well-framed block *)

Lemma runl_copy {B} (f : option (list Z) -> prog B) s : runl (copy_ ≫= f) s = runl (f s) s.
Proof. done. Qed.

(** The scan over decoded extensions, [g] given those not yet passed. *)
Fixpoint scan_exts {A R} (g : A -> list ext -> A + R) (fin : A -> R) (a : A) (xs : list ext) : R :=
  match xs with
  | [] => fin a
  | _ :: xs' => match g a xs with inl a => scan_exts g fin a xs' | inr r => r end
  end.

Lemma skip_ext_at {B} (f : Z * nat -> prog B) x l : ext_fits x ->
  runl (skip_ext ≫= f) (Some (wire_ext x ++ l)) = runl (f (x.1, length x.2)) (Some l).
Proof.
  intros [Ht Hn]. unfold skip_ext, wire_ext. rewrite runl_bind, <- !app_assoc, !runl_u16_at by lia.
  rewrite Nat2Z.id. unfold skip_. cbn [runl mbind prog_mbind prog_bind]. unfold listn.
  rewrite length_app. destruct (Nat.ltb_spec (length x.2 + length l) (length x.2)); [lia|]. cbn [runl]. by rewrite drop_app_length.
Qed.

Lemma scan_left_wire {A R} (body : A -> prog (A + R)) (fin : A -> R) (g : A -> list ext -> A + R) a xs :
  (forall a x xs, ext_fits x -> runl (body a) (Some (wire_exts (x :: xs))) = (Some (g a (x :: xs)), Some (wire_exts xs))) ->
  Forall ext_fits xs -> bytes_ok (wire_exts xs) -> parse (scan_left body fin a) (wire_exts xs) = Some (scan_exts g fin a xs).
Proof.
  intros Hbody Hf Hb. rewrite parse_list by done. clear Hb. unfold scan_left. rewrite runl_left. cbn [left_of].
  assert (Hlen : (length xs <= length (wire_exts xs))%nat) by (pose proof (length_wire_exts_le xs); lia).
  revert a Hlen. generalize (length (wire_exts xs)) as fuel. induction Hf as [|x xs Hx Hxs IH]; intros fuel a Hlen.
  - by destruct fuel.
  - destruct fuel as [|fuel]; [cbn in Hlen; lia|]. cbn [scan scan_exts]. rewrite runl_left. cbn [left_of].
    rewrite wire_exts_cons at 1. rewrite length_app, length_wire_ext. cbn [Nat.add Nat.eqb].
    rewrite runl_bind, Hbody by done. destruct (g a (x :: xs)) as [a1|r]; [|done]. apply IH. cbn in Hlen. lia.
Qed.

Section Parsers.
Context {build : HsBuild}.

(** ** Count and duplicates *)

Definition type_before_pass (type : Z) (_ : ()) : prog (() + bool) :=
  x ← skip_ext;
  e ← err_;
  if (e : bool) then Ret (inr false) else if (x.1 =? type) then Ret (inr true) else Ret (inl ()).
(** [exts] is the first [n] bytes of the block. *)
Definition type_before (exts : list Z) (type : Z) : option bool :=
  parse (scan_left (type_before_pass type) (fun _ => false) ()) exts.

Definition over_max_pass (count : nat) : prog (nat + bool) :=
  x ← skip_ext;
  e ← err_;
  if (e : bool) then Ret (inr false)
  else
    let count := (count + 1)%nat in
    if (SRV_CLIENT_HELLO_EXT_MAX <? count)%nat then Ret (inr true) else Ret (inl count).
Definition srv_ext_over_max (exts : list Z) : option bool :=
  parse (scan_left over_max_pass (fun _ => false) 0%nat) exts.

Definition duplicate_pass (exts : list Z) (before : nat) : prog (nat + bool) :=
  x ← skip_ext;
  e ← err_;
  if (e : bool) then Ret (inr false)
  else
    match type_before (take before exts) x.1 with
    | None => Fail
    | Some true => Ret (inr true)
    | Some false => Ret (inl (before + (4 + x.2))%nat)
    end.
Definition srv_ext_duplicate (exts : list Z) : option bool :=
  parse (scan_left (duplicate_pass exts) (fun _ => false) 0%nat) exts.

(** ** The frozen digest *)

(** The extension found: the bytes from its first one, its type and its length. *)
Definition found := option (list Z * Z * nat).
Definition next_covered_pass (lowest_type : Z) (f : found) : prog (found + found) :=
  ext ← copy_;
  x ← skip_ext;
  e ← err_;
  if (e : bool) then Ret (inr None)
  else
    let '(ext_type, ext_len) := x in
    if frozen_covers ext_type && (lowest_type <=? ext_type) &&
       match f with None => true | Some (_, type, _) => ext_type <? type end
    then Ret (inl (Some (default [] ext, ext_type, ext_len)))
    else Ret (inl f).
Definition next_covered (exts : list Z) (lowest_type : Z) : option found :=
  parse (scan_left (next_covered_pass lowest_type) id None) exts.

(** [for (;;) { ... }] *)
Fixpoint add_frozen_loop (fuel : nat) (frozen : md_ctx (list Z)) (exts : list Z) (lowest_type : Z) : option (md_ctx (list Z)) :=
  match fuel with
  | O => None
  | S fuel =>
      f ← next_covered exts lowest_type;
      match f with
      | None => Some frozen
      | Some (ext, type, len) => add_frozen_loop fuel (sha256_update frozen (take (4 + len) ext)) exts (type +32 1)
      end
  end.
Definition add_frozen_extensions (frozen : md_ctx (list Z)) (exts : list Z) : option (md_ctx (list Z)) :=
  add_frozen_loop (S (length exts)) frozen exts 0.

(** ** The walk *)

Definition parse_head (body : list Z) (frozen : md_ctx (list Z)) (ch : client_hello) :
    prog (outcome (client_hello * md_ctx (list Z))) :=
  _ ← u16_;
  random_bytes ← nbytes_ SRV_RANDOM;
  match random_bytes with
  | None => refuse ALERT_DECODE_ERROR
  | Some random_bytes =>
      let ch := set_random ch random_bytes in
      session_id_len ← u8_;
      session_id ← nbytes_ (Z.to_nat session_id_len);
      match session_id with
      | None => refuse ALERT_DECODE_ERROR
      | Some session_id =>
          if (SRV_SESSION_ID_MAX <? session_id_len) then refuse ALERT_DECODE_ERROR
          else
            let ch := set_session_id ch session_id in
            o ← srv_open_code_point_list;
            if negb o.2 then refuse ALERT_DECODE_ERROR
            else
              ch ← for_u16_list (Z.to_nat o.1) (fun v ch => set_suites ch (ch_suites ch .| srv_suite_bit v)) ch;
              compression_len ← u8_;
              compression ← nbytes_ (Z.to_nat compression_len);
              match compression with
              | None => refuse ALERT_DECODE_ERROR
              | Some compression =>
                  if negb (compression_len =? 1) || negb (compression !!! 0%nat =? 0) then refuse ALERT_ILLEGAL_PARAMETER
                  else
                    n ← left_;
                    Ret (Done (ch, sha256_update frozen (take (length body - n) body)))
              end
      end
  end.

(** One recognized extension's body, held to being read whole. *)
Definition read_filled (offered : list (list Z)) (type : Z) (data_off : nat) (ch : client_hello) : prog (outcome client_hello) :=
  ch ←! srv_read_extension offered type data_off ch;
  e ← err_;
  k ← left_;
  if e || negb (k =? 0)%nat then refuse ALERT_DECODE_ERROR else Ret (Done ch).

(** [n] is the message's length. *)
Definition parse_extension (n : nat) (offered : list (list Z)) (ch : client_hello) : prog (outcome client_hello) :=
  if negb (ch_seen ch .& ext_bit EXT_PRE_SHARED_KEY =? 0) then refuse ALERT_ILLEGAL_PARAMETER
  else
    left ← left_;
    let data_off := (n - left + 4)%nat in
    x ← read_ext;
    match x.2 with
    | None => refuse ALERT_DECODE_ERROR
    | Some data =>
        if negb (srv_ext_known x.1) then Ret (Done ch)
        else
          let ch := set_seen ch (ch_seen ch .| ext_bit x.1) in
          sub_ (read_filled offered x.1 data_off ch) data
    end.

Definition check_required (ch : client_hello) : outcome client_hello :=
  let seen := ch_seen ch in
  let has t := negb (seen .& ext_bit t =? 0) in
  if negb (has EXT_SUPPORTED_VERSIONS) then Refuse CH_EPROTO (Some ALERT_PROTOCOL_VERSION)
  else if has EXT_PRE_SHARED_KEY && negb (has EXT_PSK_MODES) then Refuse CH_EPROTO (Some ALERT_ILLEGAL_PARAMETER)
  else
    let auth := ext_bit EXT_SIGNATURE_ALGORITHMS .| ext_bit EXT_SUPPORTED_GROUPS in
    if negb (has EXT_PRE_SHARED_KEY) && negb ((seen .& auth) =? auth) then Refuse CH_EPROTO (Some ALERT_MISSING_EXTENSION)
    else if negb (eqb (negb (has EXT_SUPPORTED_GROUPS)) (negb (has EXT_KEY_SHARE))) then
      Refuse CH_EPROTO (Some ALERT_MISSING_EXTENSION)
    else if negb ((ch_shares ch .& u8 (Z.lnot (ch_groups ch))) =? 0) then Refuse CH_EPROTO (Some ALERT_ILLEGAL_PARAMETER)
    else Done ch.

(** [block] is the uninitialized block buffer of the digest on the stack. *)
Definition srv_parse_client_hello (body block : list Z) (offered : list (list Z)) (ch : client_hello) : prog (outcome client_hello) :=
  let frozen := sha256_init block in
  let ch := set_alpn_selected ch CH_ALPN_NONE in
  h ←! parse_head body frozen ch;
  n ← left_;
  if (n =? 0)%nat then refuse ALERT_PROTOCOL_VERSION
  else
    exts_len ← u16_;
    e ← err_;
    n ← left_;
    if e || negb (exts_len =? Z.of_nat n) then refuse ALERT_DECODE_ERROR
    else
      exts ← peek_ (Z.to_nat exts_len);
      match srv_ext_over_max exts with
      | None => Fail
      | Some true => refuse ALERT_ILLEGAL_PARAMETER
      | Some false =>
          match srv_ext_duplicate exts with
          | None => Fail
          | Some true => refuse ALERT_ILLEGAL_PARAMETER
          | Some false =>
              ch ←! loop_left (parse_extension (length body) offered) h.1;
              match add_frozen_extensions h.2 exts with
              | None => Fail
              | Some frozen => Ret (check_required (set_frozen ch (sha256_final frozen).1))
              end
          end
      end.

(** ** Lemmas: count and duplicates *)

Lemma type_before_wire xs t : Forall ext_fits xs -> bytes_ok (wire_exts xs) ->
  type_before (wire_exts xs) t = Some (existsb (fun x => x.1 =? t) xs).
Proof.
  intros Hf Hb. unfold type_before.
  rewrite (scan_left_wire _ _ (fun _ ys => match ys with x :: _ => if (x.1 =? t) then inr true else inl () | [] => inl () end)); [|
    |done|done].
  - f_equal. clear. induction xs as [|x xs IH]; [done|]. cbn. by destruct (x.1 =? t).
  - intros [] x ys Hx. unfold type_before_pass. rewrite wire_exts_cons, skip_ext_at, runl_err by done. cbn [is_err fst].
    by destruct (x.1 =? t).
Qed.

Lemma over_max_wire xs : Forall ext_fits xs -> bytes_ok (wire_exts xs) ->
  srv_ext_over_max (wire_exts xs) = Some (SRV_CLIENT_HELLO_EXT_MAX <? length xs)%nat.
Proof.
  intros Hf Hb. unfold srv_ext_over_max.
  rewrite (scan_left_wire _ _ (fun n _ => if (SRV_CLIENT_HELLO_EXT_MAX <? n + 1)%nat then inr true else inl (n + 1)%nat)); [|
    |done|done].
  - f_equal. assert (Hgen : forall n, (n <= SRV_CLIENT_HELLO_EXT_MAX)%nat ->
      scan_exts (fun n _ => if (SRV_CLIENT_HELLO_EXT_MAX <? n + 1)%nat then inr true else inl (n + 1)%nat) (fun _ => false) n xs =
      (SRV_CLIENT_HELLO_EXT_MAX <? n + length xs)%nat).
    { clear. unfold SRV_CLIENT_HELLO_EXT_MAX. induction xs as [|x xs IH]; intros n Hn; cbn [scan_exts length].
      - symmetry. apply Nat.ltb_ge. lia.
      - destruct (Nat.ltb_spec 128 (n + 1)); [symmetry; apply Nat.ltb_lt; lia|]. rewrite IH by lia. f_equal. lia. }
    by rewrite Hgen by lia.
  - intros n x ys Hx. unfold over_max_pass. rewrite wire_exts_cons, skip_ext_at, runl_err by done. cbn [is_err].
    by destruct (_ <? _)%nat.
Qed.

(** The distinctness the duplicate scan decides. *)
Fixpoint has_dup (pre xs : list ext) : bool :=
  match xs with
  | [] => false
  | x :: xs => existsb (fun y => y.1 =? x.1) pre || has_dup (pre ++ [x]) xs
  end.

Lemma duplicate_wire xs : Forall ext_fits xs -> bytes_ok (wire_exts xs) ->
  srv_ext_duplicate (wire_exts xs) = Some (has_dup [] xs).
Proof.
  intros Hf Hb. unfold srv_ext_duplicate. rewrite parse_list by done. unfold scan_left. rewrite runl_left. cbn [left_of].
  assert (Hlen : (length xs <= length (wire_exts xs))%nat) by (pose proof (length_wire_exts_le xs); lia).
  assert (Hgen : forall ys pre fuel, xs = pre ++ ys -> (length ys <= fuel)%nat ->
    (runl (scan fuel (duplicate_pass (wire_exts xs)) (fun _ => false) (length (wire_exts pre))) (Some (wire_exts ys))).1 = Some (has_dup pre ys));
    [|by apply (Hgen xs [])].
  clear Hlen. induction ys as [|y ys IH]; intros pre fuel E Hfuel; [by destruct fuel|].
  destruct fuel as [|fuel]; [cbn in Hfuel; lia|]. cbn [scan has_dup]. rewrite runl_left. cbn [left_of].
  rewrite wire_exts_cons at 1. rewrite length_app, length_wire_ext. cbn [Nat.add Nat.eqb].
  assert (Hpre : Forall ext_fits pre /\ ext_fits y /\ bytes_ok (wire_exts pre) /\ take (length (wire_exts pre)) (wire_exts xs) = wire_exts pre).
  { rewrite E in Hf, Hb |- *. rewrite Forall_app, Forall_cons in Hf. unfold wire_exts in *. rewrite fmap_app, join_app in *.
    rewrite take_app_length. apply Forall_app in Hb. tauto. }
  destruct Hpre as (Hfp & Hfy & Hbp & Et). rewrite runl_bind. unfold duplicate_pass at 1.
  rewrite wire_exts_cons, skip_ext_at, runl_err by done. cbn [is_err fst snd].
  rewrite Et, type_before_wire by done. destruct (existsb (fun x => x.1 =? y.1) pre); [done|]. cbn [orb runl].
  assert (El : (length (wire_exts pre) + (4 + length y.2))%nat = length (wire_exts (pre ++ [y]))).
  { unfold wire_exts. rewrite fmap_app, join_app, length_app. cbn [fmap list_fmap mjoin list_join]. rewrite app_nil_r, length_wire_ext. lia. }
  rewrite El. apply IH; [by rewrite <- app_assoc|cbn in Hfuel; lia].
Qed.

Lemma has_dup_spec pre xs : NoDup (fst <$> pre) -> has_dup pre xs = false <-> NoDup (fst <$> pre ++ xs).
Proof.
  revert pre. induction xs as [|x xs IH]; intros pre Hp; cbn [has_dup]; [by rewrite app_nil_r|].
  assert (Hx : existsb (fun y : ext => y.1 =? x.1) pre = false <-> x.1 ∉ fst <$> pre).
  { rewrite <- not_true_iff_false, existsb_exists, list_elem_of_fmap. setoid_rewrite Z.eqb_eq. setoid_rewrite list_elem_of_In. naive_solver. }
  rewrite orb_false_iff, Hx. rewrite (app_assoc pre [x] xs : pre ++ x :: xs = _). split.
  - intros [Hni H]. apply IH; [|done]. rewrite fmap_app. apply NoDup_app. split; [done|]. split; [|apply NoDup_singleton].
    intros t Ht. cbn. rewrite list_elem_of_singleton. by intros ->.
  - intros H. pose proof H as H'. rewrite fmap_app in H'. apply NoDup_app in H' as (H1 & _ & _). split; [|by apply IH].
    rewrite fmap_app in H1. apply NoDup_app in H1 as (_ & Hd & _). intros Hin. apply (Hd _ Hin). by left.
Qed.

(** ** Lemmas: the frozen digest *)

(** The covered extensions at or above a type. *)
Definition covered (lowest : Z) (xs : list ext) : list ext :=
  filter (fun x => frozen_covers x.1 = true /\ lowest <= x.1) xs.

(** [f] is the extension of [cs] with the least type. *)
Definition least (cs : list ext) (f : found) : Prop :=
  match f with
  | None => cs = []
  | Some (e, t, n) => exists x, x ∈ cs /\ t = x.1 /\ take (4 + n) e = wire_ext x /\ forall y, y ∈ cs -> t <= y.1
  end.

Definition covered_step (lowest : Z) (f : found) (ys : list ext) : found + found :=
  match ys with
  | [] => inl f
  | x :: _ =>
      if frozen_covers x.1 && (lowest <=? x.1) && match f with None => true | Some (_, type, _) => x.1 <? type end
      then inl (Some (wire_exts ys, x.1, length x.2)) else inl f
  end.

Lemma least_step lowest pre x xs f : least (covered lowest pre) f ->
  exists f', covered_step lowest f (x :: xs) = inl f' /\ least (covered lowest (pre ++ [x])) f'.
Proof.
  intros Hl. unfold covered_step. unfold covered at 1. rewrite filter_app. fold (covered lowest pre).
  destruct (frozen_covers x.1) eqn:Ec; cbn [andb].
  2:{ exists f. split; [done|]. rewrite filter_cons_False, filter_nil, app_nil_r by (intros [? _]; congruence). done. }
  destruct (Z.leb_spec lowest x.1) as [Hx|Hx]; cbn [andb].
  2:{ exists f. split; [done|]. rewrite filter_cons_False, filter_nil, app_nil_r by (intros [_ ?]; lia). done. }
  rewrite filter_cons_True, filter_nil by done.
  assert (Et : take (4 + length x.2) (wire_exts (x :: xs)) = wire_ext x).
  { rewrite wire_exts_cons, take_app_le by (rewrite length_wire_ext; lia). apply take_ge. rewrite length_wire_ext. lia. }
  destruct f as [[[e t] n]|].
  - destruct Hl as (z & Hz & -> & Ez & Hmin). destruct (Z.ltb_spec x.1 z.1) as [Hlt|Hge]; eexists; (split; [reflexivity|]).
    + exists x. split_and!; [apply elem_of_app; right; by left|done|done|]. intros y [Hy|Hy]%elem_of_app.
      * specialize (Hmin y Hy). lia.
      * apply list_elem_of_singleton in Hy as ->. lia.
    + exists z. split_and!; [by apply elem_of_app; left|done|done|]. intros y [Hy|Hy]%elem_of_app; [by apply Hmin|].
      apply list_elem_of_singleton in Hy as ->. lia.
  - eexists. split; [reflexivity|]. cbn [least] in Hl. rewrite Hl. exists x. split_and!; [by left|done|done|]. intros y Hy.
    apply list_elem_of_singleton in Hy as ->. lia.
Qed.

Lemma scan_least lowest xs pre f : least (covered lowest pre) f -> least (covered lowest (pre ++ xs)) (scan_exts (covered_step lowest) id f xs).
Proof.
  revert pre f. induction xs as [|x xs IH]; intros pre f Hl; cbn [scan_exts]; [by rewrite app_nil_r|].
  destruct (least_step lowest pre x xs f Hl) as (f' & -> & Hf'). rewrite (app_assoc pre [x] xs : pre ++ x :: xs = _). by apply IH.
Qed.

Lemma next_covered_wire xs lowest : Forall ext_fits xs -> bytes_ok (wire_exts xs) ->
  exists f, next_covered (wire_exts xs) lowest = Some f /\ least (covered lowest xs) f.
Proof.
  intros Hf Hb. exists (scan_exts (covered_step lowest) id None xs). split.
  - unfold next_covered. apply scan_left_wire; [|done|done]. intros f x ys Hx. unfold next_covered_pass. rewrite runl_copy.
    rewrite (wire_exts_cons x ys), skip_ext_at, runl_err by done. cbn [is_err default]. unfold covered_step. rewrite (wire_exts_cons x ys).
    by destruct (_ && _).
  - apply (scan_least lowest xs []). done.
Qed.

(** Extensions in ascending type order. *)
Definition by_type : relation ext := fun x y => x.1 <= y.1.
#[local] Instance by_type_dec : RelDecision by_type := fun x y => decide (x.1 <= y.1).
#[local] Instance by_type_trans : Transitive by_type.
Proof. intros x y z. unfold by_type. lia. Qed.
#[local] Instance by_type_total : Total by_type.
Proof. intros x y. unfold by_type. lia. Qed.

(** What the digest covers of a block, in the order it is hashed. *)
Definition frozen_order (xs : list ext) : list ext := merge_sort by_type (covered 0 xs).

Lemma NoDup_types_inj (xs : list ext) x y : NoDup (fst <$> xs) -> x ∈ xs -> y ∈ xs -> x.1 = y.1 -> x = y.
Proof.
  intros Hnd Hx Hy E. apply list_elem_of_lookup in Hx as [i Hi], Hy as [j Hj].
  assert (i = j) as <-; [|congruence]. apply (NoDup_lookup (fst <$> xs) i j x.1 Hnd).
  - by rewrite list_lookup_fmap, Hi.
  - by rewrite list_lookup_fmap, Hj, E.
Qed.

Lemma frozen_order_unique (xs ys : list ext) : NoDup (fst <$> xs) -> StronglySorted by_type ys -> ys ≡ₚ covered 0 xs -> ys = frozen_order xs.
Proof.
  intros Hnd Hs Hp. unfold frozen_order. apply (StronglySorted_unique_strong by_type); [|done|apply StronglySorted_merge_sort; apply _|].
  - intros x y Hx Hy Hxy Hyx. unfold by_type in *. rewrite Hp in Hx. rewrite merge_sort_Permutation in Hy.
    unfold covered in *. apply list_elem_of_filter in Hx as [_ Hx], Hy as [_ Hy]. apply (NoDup_types_inj xs); [done|done|done|lia].
  - by rewrite merge_sort_Permutation.
Qed.

(** One pass takes the least extension and leaves those above it. *)
Lemma covered_take lowest (xs : list ext) x : NoDup (fst <$> xs) -> x ∈ covered lowest xs ->
  (forall y, y ∈ covered lowest xs -> x.1 <= y.1) -> covered lowest xs ≡ₚ x :: covered (x.1 + 1) xs.
Proof.
  intros Hnd Hx Hmin. assert (HndX : NoDup xs) by by eapply NoDup_fmap_1.
  apply NoDup_Permutation.
  - by apply NoDup_filter.
  - constructor; [|by apply NoDup_filter]. intros Hin. apply list_elem_of_filter in Hin as [[_ ?] _]. lia.
  - intros y. rewrite elem_of_cons. unfold covered in *. rewrite !list_elem_of_filter. apply list_elem_of_filter in Hx as [[Hc Hl] Hx]. split.
    + intros [[Hcy Hly] Hy]. destruct (decide (x.1 = y.1)) as [E|E]; [left; symmetry; by eapply NoDup_types_inj|right].
      specialize (Hmin y). rewrite list_elem_of_filter in Hmin. specialize (Hmin (conj (conj Hcy Hly) Hy)). split; [split; [done|lia]|done].
    + intros [->|[[Hcy Hly] Hy]]; [done|]. split; [split; [done|lia]|done].
Qed.

Lemma add_frozen_loop_spec fuel xs lowest frozen m : Forall ext_fits xs -> bytes_ok (wire_exts xs) -> NoDup (fst <$> xs) ->
  (length (covered lowest xs) < fuel)%nat -> sha256_absorbed frozen m ->
  exists frozen' ys, add_frozen_loop fuel frozen (wire_exts xs) lowest = Some frozen' /\
    sha256_absorbed frozen' (m ++ wire_exts ys) /\ StronglySorted by_type ys /\ ys ≡ₚ covered lowest xs.
Proof.
  intros Hf Hb Hnd. revert lowest frozen m. induction fuel as [|fuel IH]; intros lowest frozen m Hlen Ha; [lia|]. cbn [add_frozen_loop].
  destruct (next_covered_wire xs lowest Hf Hb) as (f & -> & Hl). cbn [mbind option_bind]. destruct f as [[[e t] n]|].
  - destruct Hl as (x & Hx & -> & -> & Hmin). pose proof (covered_take lowest xs x Hnd Hx Hmin) as Hp.
    assert (Ht : x.1 +32 1 = x.1 + 1).
    { apply u32_small. apply list_elem_of_filter in Hx as [_ Hx]. rewrite Forall_forall in Hf. destruct (Hf x Hx) as [? _]. unfold u32_ok. lia. }
    rewrite Ht. assert (Hlen' : (length (covered (x.1 + 1) xs) < fuel)%nat) by (rewrite Hp in Hlen; cbn in Hlen; lia).
    destruct (IH (x.1 + 1) _ _ Hlen' (update_absorbs _ _ (wire_ext x) Ha)) as (f' & ys & E & Ha' & Hs & Hy).
    exists f', (x :: ys). split; [done|]. split; [by rewrite wire_exts_cons, app_assoc|]. split; [|by rewrite Hp, Hy].
    constructor; [done|]. apply Forall_forall. intros y Hin. rewrite Hy in Hin. apply list_elem_of_filter in Hin as [[_ ?] _]. unfold by_type. lia.
  - exists frozen, []. cbn [least] in Hl. rewrite Hl. split; [done|]. split; [by rewrite app_nil_r|]. split; [constructor|done].
Qed.

Lemma add_frozen_wire xs frozen m : Forall ext_fits xs -> bytes_ok (wire_exts xs) -> NoDup (fst <$> xs) -> sha256_absorbed frozen m ->
  exists frozen', add_frozen_extensions frozen (wire_exts xs) = Some frozen' /\ sha256_absorbed frozen' (m ++ wire_exts (frozen_order xs)).
Proof.
  intros Hf Hb Hnd Ha. assert (Hlen : (length (covered 0 xs) < S (length (wire_exts xs)))%nat).
  { pose proof (length_wire_exts_le xs). assert (length (covered 0 xs) <= length xs)%nat by apply length_filter. lia. }
  destruct (add_frozen_loop_spec _ xs 0 frozen m Hf Hb Hnd Hlen Ha) as (f' & ys & E & Ha' & Hs & Hp).
  exists f'. split; [done|]. by rewrite <- (frozen_order_unique xs ys).
Qed.

(** ** Lemmas: the head *)

Definition hello_head (ver : Z) (random sid suites : list Z) : list Z :=
  be_bytes 2 ver ++ random ++ [Z.of_nat (length sid)] ++ sid ++
  be_bytes 2 (2 * Z.of_nat (length suites)) ++ code_points suites ++ [1; 0].
Definition head_ok (ver : Z) (random sid suites : list Z) : Prop :=
  code_ok ver /\ length random = 32%nat /\ (length sid <= 32)%nat /\
  (1 <= length suites)%nat /\ 2 * Z.of_nat (length suites) < 2 ^ 16 /\ Forall code_ok suites.
Definition head_report (random sid suites : list Z) (ch : client_hello) : client_hello :=
  fold_left (fun ch v => set_suites ch (ch_suites ch .| srv_suite_bit v)) suites (set_session_id (set_random ch random) sid).

Lemma parse_head_sound body frozen ch l r s' : bytes_ok l ->
  runl (parse_head body frozen ch) (Some l) = (Some (Done r), s') ->
  exists ver random sid suites l', head_ok ver random sid suites /\ l = hello_head ver random sid suites ++ l' /\ s' = Some l' /\
    r = (head_report random sid suites ch, sha256_update frozen (take (length body - length l') body)).
Proof.
  intros Hl H. unfold parse_head in H. rewrite runl_u16_iff in H; [|done|by intros].
  destruct H as (ver & l1 & Hv & -> & H). apply Forall_app in Hl as [_ Hl].
  rewrite runl_nbytes_iff in H by done. destruct H as (random & l2 & -> & Hr & H). apply Forall_app in Hl as [_ Hl].
  rewrite runl_u8_iff in H; [|done|by intros]. destruct H as (n & l3 & Hn & -> & H). apply Forall_cons in Hl as [_ Hl].
  rewrite runl_nbytes_iff in H by done. destruct H as (sid & l4 & -> & Hs & H). apply Forall_app in Hl as [_ Hl].
  destruct (Z.ltb_spec SRV_SESSION_ID_MAX n) as [|Hle]; [discriminate|]. unfold SRV_SESSION_ID_MAX, byte_ok in *.
  apply (code_point_list_iff _ _ (fun ch => compression_len ← u8_; _)) in H as (suites & l5 & H1 & H2 & H3 & -> & H); [|done].
  rewrite !Forall_app in Hl. destruct Hl as (_ & _ & Hl).
  rewrite runl_u8_iff in H; [|done|by intros]. destruct H as (cl & l6 & _ & -> & H).
  rewrite runl_nbytes_iff in H by done. destruct H as (cb & l7 & -> & Hc & H).
  destruct (Z.eqb_spec cl 1) as [->|]; [|discriminate]. destruct cb as [|c0 [|]]; try discriminate Hc. cbn [negb orb] in H.
  change ([c0] !!! 0%nat) with c0 in H. destruct (Z.eqb_spec c0 0) as [->|]; [|discriminate]. cbn [negb] in H. rewrite runl_left in H. injection H as <- <-.
  exists ver, random, sid, suites, l7. unfold head_ok, hello_head. split; [split_and!; try done; lia|].
  split; [|done]. rewrite Hs, Z2Nat.id by lia. rewrite <- !app_assoc. done.
Qed.

Lemma parse_head_complete body frozen ch ver random sid suites l' : head_ok ver random sid suites ->
  bytes_ok (hello_head ver random sid suites ++ l') ->
  runl (parse_head body frozen ch) (Some (hello_head ver random sid suites ++ l')) =
  (Some (Done (head_report random sid suites ch, sha256_update frozen (take (length body - length l') body))), Some l').
Proof.
  intros (Hv & Hr & Hs & H1 & H2 & H3) Hb. unfold hello_head in *. rewrite <- !app_assoc in *. unfold parse_head.
  rewrite runl_u16_at by done. rewrite runl_nbytes_iff by done. exists random. eexists. split; [reflexivity|]. split; [done|].
  cbn [app]. rewrite runl_u8_cons, Nat2Z.id, runl_nbytes_iff by done. exists sid. eexists. split; [reflexivity|]. split; [done|].
  destruct (Z.ltb_spec SRV_SESSION_ID_MAX (Z.of_nat (length sid))); [unfold SRV_SESSION_ID_MAX in *; lia|].
  do 4 apply Forall_app in Hb as [_ Hb].
  apply (code_point_list_iff _ _ (fun ch => compression_len ← u8_; _)); [done|]. exists suites. eexists. split_and!; [done..|reflexivity|].
  cbn [app]. rewrite runl_u8_cons, runl_nbytes_iff by done. by exists [0], l'.
Qed.

(** ** Lemmas: the extensions *)

(** One pass of the walk when [x] is next and [left] bytes of the block remain. *)
Definition hello_step (n : nat) (offered : list (list Z)) (left : nat) (ch : client_hello) (x : ext) : option client_hello :=
  if negb (ch_seen ch .& ext_bit EXT_PRE_SHARED_KEY =? 0) then None
  else if negb (srv_ext_known x.1) then Some ch
  else match parse (read_filled offered x.1 (n - left + 4) (set_seen ch (ch_seen ch .| ext_bit x.1))) x.2 with
       | Some (Done c) => Some c | _ => None end.

Lemma parse_extension_done n offered ch l ch' s' : bytes_ok l -> l <> [] ->
  runl (parse_extension n offered ch) (Some l) = (Some (Done ch'), s') <->
  exists x l', ext_fits x /\ l = wire_ext x ++ l' /\ s' = Some l' /\ hello_step n offered (length l) ch x = Some ch'.
Proof.
  intros Hl _. unfold parse_extension, hello_step. destruct (negb _).
  { split; [discriminate|]. by intros (x & l' & _ & _ & _ & ?). }
  rewrite runl_left. cbn [left_of]. rewrite read_ext_iff by done. split.
  - intros (x & l' & Hx & -> & H). cbn [fst snd] in H. exists x, l'. split; [done|]. split; [done|]. revert H.
    destruct (negb (srv_ext_known x.1)); [by intros [= -> ->]|]. intros H. apply runl_sub_some in H as [-> <-]. done.
  - intros (x & l' & Hx & -> & -> & H). exists x, l'. split; [done|]. split; [done|]. cbn [fst snd]. revert H.
    destruct (negb (srv_ext_known x.1)); [by intros [= ->]|]. intros H. apply runl_sub_some. split; [|done].
    by destruct (parse _ x.2) as [[]|]; simplify_eq.
Qed.

Lemma read_filled_total offered sn type off ch : hello_ok offered sn ch ->
  total (fine srv_refusal (hello_ok offered sn)) (read_filled offered type off ch).
Proof.
  intros Hc. unfold read_filled. eapply total_obind; [by apply keeps_extension|]. intros c Hc'.
  eapply total_bind; [apply total_err|intros e _]. eapply total_bind; [apply total_left|intros k _].
  destruct (_ || _); apply total_ret; [srv_refuses|done].
Qed.

Lemma hello_step_ok n offered left sn ch x ch' : bytes_ok x.2 -> hello_ok offered sn ch ->
  hello_step n offered left ch x = Some ch' -> hello_ok offered (sn .| ext_bit x.1) ch'.
Proof.
  intros Hx Hc. unfold hello_step. destruct (negb _); [discriminate|]. pose proof Hc as (H1 & H2 & H3 & Hs).
  destruct (negb (srv_ext_known x.1)) eqn:Ek.
  - intros [= <-]. unfold srv_ext_known in Ek. rewrite negb_involutive, Z.eqb_eq in Ek. by rewrite Ek, Z.lor_0_r.
  - assert (Hc' : hello_ok offered (sn .| ext_bit x.1) (set_seen ch (ch_seen ch .| ext_bit x.1))) by (rewrite Hs; split_and!; done).
    destruct (read_filled_total offered _ x.1 (n - left + 4) _ Hc' (Some x.2) Hx) as (o & s' & E & Ho & _).
    rewrite parse_list, E by done. cbn [fst]. destruct o; [|discriminate]. by intros [= <-].
Qed.

(** The mask the walk leaves. *)
Definition seen_of (sn : Z) (xs : list ext) : Z := fold_left (fun s x => s .| ext_bit x.1) xs sn.

Lemma walk_ok n offered xs sn ch ch' : Forall (fun x => bytes_ok x.2) xs -> hello_ok offered sn ch ->
  walk (hello_step n offered) ch xs = Some ch' -> hello_ok offered (seen_of sn xs) ch'.
Proof.
  intros Hx. revert sn ch. induction Hx as [|x xs Hx Hxs IH]; intros sn ch Hc; cbn [walk]; [by intros [= <-]|].
  destruct (hello_step n offered _ ch x) as [c|] eqn:E; [|discriminate]. cbn [mbind option_bind]. apply IH. by eapply hello_step_ok.
Qed.

(** The recognized types. *)
Definition known_types : list Z :=
  [EXT_SERVER_NAME; EXT_SUPPORTED_GROUPS; EXT_SIGNATURE_ALGORITHMS; EXT_ALPN; EXT_RECORD_SIZE_LIMIT; EXT_PRE_SHARED_KEY;
   EXT_SUPPORTED_VERSIONS; EXT_COOKIE; EXT_PSK_MODES; EXT_KEY_SHARE; EXT_EARLY_DATA; EXT_PADDING; EXT_QUIC_TRANSPORT_PARAMS].

Lemma ext_bit_unknown u : ¬ u ∈ known_types -> ext_bit u = 0.
Proof.
  intros Hu. unfold ext_bit. unfold known_types in Hu. rewrite !not_elem_of_cons in Hu.
  destruct Hu as (H1 & H2 & H3 & H4 & H5 & H6 & H7 & H8 & H9 & H10 & H11 & H12 & H13 & _).
  by rewrite !(proj2 (Z.eqb_neq _ _)).
Qed.

Lemma ext_bit_land t u : t ∈ known_types -> (Z.land (ext_bit u) (ext_bit t) =? 0) = negb (u =? t).
Proof.
  intros Ht. destruct (decide (u ∈ known_types)) as [Hu|Hu].
  - assert (Hall : forallb (fun t => forallb (fun u => eqb (Z.land (ext_bit u) (ext_bit t) =? 0) (negb (u =? t))) known_types) known_types = true)
      by (vm_compute; reflexivity).
    rewrite forallb_forall in Hall. specialize (Hall t). rewrite forallb_forall in Hall.
    apply eqb_true_iff, Hall; by apply list_elem_of_In.
  - rewrite (ext_bit_unknown u Hu). destruct (Z.eqb_spec u t) as [->|]; [done|]. by rewrite Z.land_0_l.
Qed.

(** A bit of the mask says its type was in the block. *)
Lemma seen_of_spec t xs sn : t ∈ known_types ->
  (seen_of sn xs .& ext_bit t =? 0) = (sn .& ext_bit t =? 0) && negb (existsb (fun x => x.1 =? t) xs).
Proof.
  intros Ht. revert sn. induction xs as [|x xs IH]; intros sn; cbn [existsb]; [by rewrite andb_true_r|].
  change (seen_of sn (x :: xs)) with (seen_of (sn .| ext_bit x.1) xs). rewrite IH, Z.land_lor_distr_l, negb_orb, andb_assoc. f_equal.
  rewrite <- ext_bit_land by done. apply eq_true_iff_eq. rewrite andb_true_iff, !Z.eqb_eq. apply Z.lor_eq_0_iff.
Qed.

Lemma existsb_types t (xs : list ext) : existsb (fun x => x.1 =? t) xs = true <-> t ∈ fst <$> xs.
Proof.
  rewrite existsb_exists, list_elem_of_fmap. setoid_rewrite Z.eqb_eq. setoid_rewrite list_elem_of_In. naive_solver.
Qed.

(** pre_shared_key ends the block. *)
Lemma psk_last n offered ch pre x post ch' : Forall (fun x => bytes_ok x.2) (pre ++ x :: post) -> forall sn, hello_ok offered sn ch ->
  walk (hello_step n offered) ch (pre ++ x :: post) = Some ch' -> x.1 = EXT_PRE_SHARED_KEY -> post = [].
Proof.
  revert ch. induction pre as [|y pre IH]; intros ch Hb sn Hc Hw Hx; cbn [app walk] in Hw; inversion Hb as [|? ? Hb1 Hb2]; subst.
  - destruct (hello_step n offered _ ch x) as [c|] eqn:E; [|discriminate]. cbn [mbind option_bind] in Hw.
    destruct post as [|z post]; [done|]. apply (hello_step_ok _ _ _ sn) in E as (_ & _ & _ & Es); [|done|done].
    cbn [walk] in Hw. unfold hello_step in Hw. rewrite Es, Hx, Z.land_lor_distr_l in Hw.
    destruct (Z.eqb_spec (sn .& ext_bit EXT_PRE_SHARED_KEY .| ext_bit EXT_PRE_SHARED_KEY .& ext_bit EXT_PRE_SHARED_KEY) 0) as [E0|]; [|done].
    apply Z.lor_eq_0_iff in E0 as [_ E0]. discriminate E0.
  - destruct (hello_step n offered _ ch y) as [c|] eqn:E; [|discriminate]. cbn [mbind option_bind] in Hw.
    apply (hello_step_ok _ _ _ sn) in E; [|done|done]. by eapply IH.
Qed.

(** ** Lemmas: the whole message *)

(** The message that carries a head and a block. *)
Definition hello_message (ver : Z) (random sid suites : list Z) (xs : list ext) : list Z :=
  hello_head ver random sid suites ++ be_bytes 2 (Z.of_nat (length (wire_exts xs))) ++ wire_exts xs.
Definition block_ok (xs : list ext) : Prop :=
  Forall ext_fits xs /\ Z.of_nat (length (wire_exts xs)) < 2 ^ 16 /\
  (length xs <= SRV_CLIENT_HELLO_EXT_MAX)%nat /\ NoDup (fst <$> xs).
(** What a block must hold, by the types it has and the groups it reported. *)
Definition required (xs : list ext) (ch : client_hello) : Prop :=
  let has t := t ∈ fst <$> xs in
  has EXT_SUPPORTED_VERSIONS /\
  (has EXT_PRE_SHARED_KEY -> has EXT_PSK_MODES) /\
  (~ has EXT_PRE_SHARED_KEY -> has EXT_SIGNATURE_ALGORITHMS /\ has EXT_SUPPORTED_GROUPS) /\
  (has EXT_SUPPORTED_GROUPS <-> has EXT_KEY_SHARE) /\
  ch_shares ch .& u8 (Z.lnot (ch_groups ch)) = 0.
(** What the digest covers. *)
Definition frozen_preimage (ver : Z) (random sid suites : list Z) (xs : list ext) : list Z :=
  hello_head ver random sid suites ++ wire_exts (frozen_order xs).
Definition hello_start (random sid suites : list Z) : client_hello :=
  head_report random sid suites (set_alpn_selected zero_hello CH_ALPN_NONE).

Lemma land_lor_both m a b : (Z.land m (Z.lor a b) =? Z.lor a b) = (Z.land m a =? a) && (Z.land m b =? b).
Proof.
  apply eq_true_iff_eq. rewrite andb_true_iff, !Z.eqb_eq. split.
  - intros H. split; apply Z.bits_inj'; intros i Hi; apply (f_equal (fun z => Z.testbit z i)) in H;
      rewrite Z.land_spec, !Z.lor_spec in H; rewrite Z.land_spec;
      destruct (Z.testbit m i), (Z.testbit a i), (Z.testbit b i); done.
  - intros [Ha Hb]. by rewrite Z.land_lor_distr_r, Ha, Hb.
Qed.

(** A single bit is either clear or whole. *)
Lemma ext_bit_whole t m : t ∈ known_types -> (Z.land m (ext_bit t) =? ext_bit t) = negb (Z.land m (ext_bit t) =? 0).
Proof.
  intros Ht. assert (Hp : exists i, 0 <= i /\ ext_bit t = 2 ^ i).
  { exists (Z.log2 (ext_bit t)). split; [apply Z.log2_nonneg|].
    assert (Hall : Forall (fun t => ext_bit t = 2 ^ Z.log2 (ext_bit t)) known_types) by (repeat constructor).
    rewrite Forall_forall in Hall. by apply Hall. }
  destruct Hp as (i & Hi & ->). rewrite land_bit_clear, negb_involutive by done. destruct (Z.testbit m i) eqn:E.
  - apply Z.eqb_eq, Z.bits_inj'. intros j Hj. rewrite Z.land_spec, Z.pow2_bits_eqb by done.
    destruct (Z.eqb_spec i j) as [->|]; [by rewrite E|apply andb_false_r].
  - apply Z.eqb_neq. intros H. apply (f_equal (fun z => Z.testbit z i)) in H.
    by rewrite Z.land_spec, E, Z.pow2_bits_true in H.
Qed.

(** The mask the walk leaves, read as the types of the block. *)
Lemma seen_has t xs : t ∈ known_types -> negb (seen_of 0 xs .& ext_bit t =? 0) = true <-> t ∈ fst <$> xs.
Proof. intros Ht. by rewrite seen_of_spec, Z.land_0_l, Z.eqb_refl, andb_true_l, negb_involutive, existsb_types. Qed.

Lemma check_required_iff xs ch ch' : ch_seen ch = seen_of 0 xs ->
  check_required ch = Done ch' <-> required xs ch /\ ch' = ch.
Proof.
  intros Es. unfold check_required, required. rewrite Es, land_lor_both.
  rewrite !ext_bit_whole by (apply (bool_decide_unpack _); vm_compute; exact I).
  rewrite <- !seen_has by (apply (bool_decide_unpack _); vm_compute; exact I).
  assert (Tr : true = true <-> True) by done. assert (Fa : false = true <-> False) by done.
  destruct (Z.eqb_spec (ch_shares ch .& u8 (Z.lnot (ch_groups ch))) 0) as [E|E],
    (seen_of 0 xs .& ext_bit EXT_SUPPORTED_VERSIONS =? 0),
    (seen_of 0 xs .& ext_bit EXT_PRE_SHARED_KEY =? 0),
    (seen_of 0 xs .& ext_bit EXT_PSK_MODES =? 0),
    (seen_of 0 xs .& ext_bit EXT_SIGNATURE_ALGORITHMS =? 0),
    (seen_of 0 xs .& ext_bit EXT_SUPPORTED_GROUPS =? 0),
    (seen_of 0 xs .& ext_bit EXT_KEY_SHARE =? 0)
;
    cbn [negb andb eqb]; rewrite ?Tr, ?Fa; (split; [intros H; first [discriminate H|injection H as <-; tauto]|intros [H ->]; tauto]).
Qed.

Lemma runl_peek {B} n (f : list Z -> prog B) l : runl (peek_ n ≫= f) (Some l) = runl (f (take n l)) (Some l).
Proof. done. Qed.

Lemma start_ok offered random sid suites : hello_ok offered 0 (hello_start random sid suites).
Proof.
  unfold hello_start, head_report. set (c := set_session_id _ _).
  assert (Hc : hello_ok offered 0 c).
  { split_and!; [split; [cbn; lia|intros bit _ H; destruct H; apply Z.land_0_l]|by left|by left|done]. }
  clearbody c. revert c Hc. induction suites as [|v vs IH]; intros c Hc; [done|]. cbn [fold_left]. apply IH. exact Hc.
Qed.

Lemma walk_seen n offered random sid suites xs ch : bytes_ok (wire_exts xs) ->
  walk (hello_step n offered) (hello_start random sid suites) xs = Some ch -> hello_ok offered (seen_of 0 xs) ch.
Proof. intros Hb Hw. eapply walk_ok; [by apply wire_exts_ok|apply start_ok|exact Hw]. Qed.

(** The digest over the head and a block that passed the scans. *)
Lemma frozen_of_block block ver random sid suites xs : length block = 64%nat -> bytes_ok (wire_exts xs) ->
  Forall ext_fits xs -> NoDup (fst <$> xs) ->
  exists f, add_frozen_extensions (sha256_update (sha256_init block) (hello_head ver random sid suites)) (wire_exts xs) = Some f /\
    (sha256_final f).1 = sha256_spec (frozen_preimage ver random sid suites xs).
Proof.
  intros Hblk Hb Hf Hnd.
  destruct (add_frozen_wire xs _ _ Hf Hb Hnd (update_absorbs _ _ (hello_head ver random sid suites) (sha256_init_absorbed block Hblk)))
    as (f & E & Ha). exists f. split; [exact E|]. exact (sha256_final_digest f _ Ha).
Qed.

Lemma scans_pass xs : bytes_ok (wire_exts xs) -> Forall ext_fits xs ->
  srv_ext_over_max (wire_exts xs) = Some false /\ srv_ext_duplicate (wire_exts xs) = Some false <->
  (length xs <= SRV_CLIENT_HELLO_EXT_MAX)%nat /\ NoDup (fst <$> xs).
Proof.
  intros Hb Hf. rewrite over_max_wire, duplicate_wire by done. rewrite <- (has_dup_spec [] xs) by constructor.
  split; intros [H1 H2]; split; try congruence.
  - injection H1 as H1. by apply Nat.ltb_ge in H1.
  - f_equal. by apply Nat.ltb_ge.
Qed.

Lemma head_taken ver random sid suites l : let h := hello_head ver random sid suites in
  take (length (h ++ l) - length l) (h ++ l) = h.
Proof. intros h. rewrite length_app. replace (length h + length l - length l)%nat with (length h) by lia. apply take_app_length. Qed.

(** After the head: the block, held to fill the message. *)
Lemma runl_block_len {B} (f : Z -> prog (outcome B)) l r s' : bytes_ok l ->
  runl (exts_len ← u16_; e ← err_; n ← left_;
        if e || negb (exts_len =? Z.of_nat n) then refuse ALERT_DECODE_ERROR else f exts_len) (Some l) = (Some (Done r), s') <->
  exists x, Z.of_nat (length x) < 2 ^ 16 /\ l = be_bytes 2 (Z.of_nat (length x)) ++ x /\
    runl (f (Z.of_nat (length x))) (Some x) = (Some (Done r), s').
Proof.
  intros Hl. rewrite runl_u16_iff; [|done|intros v; by rewrite runl_err, runl_left]. split.
  - intros (v & x & Hv & -> & H). rewrite runl_err, runl_left in H. cbn [is_err left_of orb] in H.
    destruct (Z.eqb_spec v (Z.of_nat (length x))) as [->|]; [|discriminate]. exists x. split_and!; [lia|done|exact H].
  - intros (x & Hx & -> & H). exists (Z.of_nat (length x)), x. split_and!; [lia|lia|done|].
    rewrite runl_err, runl_left. cbn [is_err left_of orb]. by rewrite Z.eqb_refl.
Qed.

(** What the parser accepts and what it reports. *)
Definition accepted (body : list Z) (offered : list (list Z)) (ch : client_hello)
    (ver : Z) (random sid suites : list Z) (xs : list ext) : Prop :=
  head_ok ver random sid suites /\ block_ok xs /\ body = hello_message ver random sid suites xs /\
  exists ch1, walk (hello_step (length body) offered) (hello_start random sid suites) xs = Some ch1 /\
    required xs ch1 /\ ch = set_frozen ch1 (sha256_spec (frozen_preimage ver random sid suites xs)).

Lemma client_hello_sound body block offered ch : bytes_ok body -> length block = 64%nat ->
  parse (srv_parse_client_hello body block offered zero_hello) body = Some (Done ch) ->
  exists ver random sid suites xs, accepted body offered ch ver random sid suites xs.
Proof.
  intros Hb Hblk. rewrite parse_list by done. destruct (runl _ _) as [o s'] eqn:E. cbn [fst]. intros ->. revert E.
  unfold srv_parse_client_hello. rewrite runl_obind_done. intros (h & s1 & H1 & H2).
  apply parse_head_sound in H1 as (ver & random & sid & suites & l & Hh & -> & -> & ->); [|done].
  pose proof Hb as Hb'. apply Forall_app in Hb' as [_ Hbl].
  rewrite runl_left in H2. cbn [left_of fst snd] in H2. destruct (length l =? 0)%nat; [discriminate|].
  apply runl_block_len in H2 as (x & Hx & -> & H2); [|done]. apply Forall_app in Hbl as [_ Hbx].
  rewrite runl_peek, Nat2Z.id, take_ge in H2 by done.
  destruct (srv_ext_over_max x) as [[]|] eqn:Eo; try discriminate. destruct (srv_ext_duplicate x) as [[]|] eqn:Ed; try discriminate.
  rewrite runl_obind_done in H2. destruct H2 as (ch1 & s2 & H2 & H3).
  eapply loop_left_done in H2 as (xs & Hf & Ex & Es2 & Hw); [|intros; apply (parse_extension_done _ offered); done|done].
  subst x s2.
  destruct (proj1 (scans_pass xs Hbx Hf) (conj Eo Ed)) as [Hmax Hnd]. rewrite head_taken in H3.
  destruct (frozen_of_block block ver random sid suites xs Hblk Hbx Hf Hnd) as (f & Ef & Efin). rewrite Ef, Efin in H3.
  injection H3 as H3 _. pose proof (walk_seen _ _ _ _ _ _ _ Hbx Hw) as (_ & _ & _ & Es).
  apply (check_required_iff xs) in H3 as [Hr ->]; [|exact Es].
  exists ver, random, sid, suites, xs. split; [done|]. split; [by split_and!|]. split; [done|]. by exists ch1.
Qed.

Lemma client_hello_complete body block offered ch ver random sid suites xs : bytes_ok body -> length block = 64%nat ->
  accepted body offered ch ver random sid suites xs ->
  parse (srv_parse_client_hello body block offered zero_hello) body = Some (Done ch).
Proof.
  intros Hb Hblk (Hh & (Hf & Hlen & Hmax & Hnd) & Ebody & ch1 & Hw & Hr & ->). rewrite parse_list by done.
  assert (E : runl (srv_parse_client_hello body block offered zero_hello) (Some body) =
    (Some (Done (set_frozen ch1 (sha256_spec (frozen_preimage ver random sid suites xs)))), Some [])); [|by rewrite E].
  unfold srv_parse_client_hello. apply runl_obind_done. unfold hello_message in Ebody.
  do 2 eexists. rewrite Ebody in Hb. pose proof Hb as Hb'. rewrite !Forall_app in Hb'. destruct Hb' as (_ & _ & Hbx).
  split; [rewrite Ebody; by apply parse_head_complete|].
  rewrite runl_left. cbn [left_of fst snd]. destruct (Nat.eqb_spec (length (be_bytes 2 (Z.of_nat (length (wire_exts xs))) ++ wire_exts xs)) 0) as [E0|_];
    [rewrite length_app, length_be_bytes in E0; lia|].
  apply runl_block_len; [by apply Forall_app in Hb as [_ ?]|]. exists (wire_exts xs). split; [done|]. split; [done|].
  rewrite runl_peek, Nat2Z.id, take_ge by done.
  destruct (proj2 (scans_pass xs Hbx Hf) (conj Hmax Hnd)) as [Eo Ed]. rewrite Eo, Ed.
  rewrite runl_obind_done. exists ch1, (Some []). split.
  { apply (loop_left_done _ (hello_step (length body) offered)); [intros; by apply parse_extension_done|done|]. by exists xs. }
  rewrite head_taken.
  destruct (frozen_of_block block ver random sid suites xs Hblk Hbx Hf Hnd) as (f & Ef & Efin). rewrite Ef, Efin.
  pose proof (walk_seen _ _ _ _ _ _ _ Hbx Hw) as (_ & _ & _ & Es).
  assert (Er : check_required (set_frozen ch1 (sha256_spec (frozen_preimage ver random sid suites xs))) =
    Done (set_frozen ch1 (sha256_spec (frozen_preimage ver random sid suites xs)))) by (apply (check_required_iff xs); done).
  cbn [runl]. by rewrite Er.
Qed.

(** ** Lemmas: the parser returns on every message *)

Lemma total_parse {A} (P : A -> Prop) (p : prog A) l : total P p -> bytes_ok l -> exists a, parse p l = Some a.
Proof. intros Hp Hl. destruct (Hp (Some l) Hl) as (a & s' & E & _). exists a. by rewrite parse_list, E. Qed.

Lemma total_scan {A R} (body : A -> prog (A + R)) (fin : A -> R) a :
  (forall a, total any (body a)) ->
  (forall a l a' s', bytes_ok l -> runl (body a) (Some l) = (Some (inl a'), s') ->
    exists l', s' = Some l' /\ (length l' < length l)%nat) ->
  total any (scan_left body fin a).
Proof.
  intros Ht Hdec s Hs. unfold scan_left. rewrite runl_left.
  assert (Hgen : forall fuel a s, state_ok s -> (left_of s <= fuel)%nat ->
    exists r s', runl (scan fuel body fin a) s = (Some r, s') /\ any r /\ state_ok s'); [|by apply Hgen].
  clear a s Hs. induction fuel as [|fuel IH]; intros a s Hs Hf; cbn [scan]; rewrite runl_left.
  - destruct (Nat.eqb_spec (left_of s) 0); [|lia]. by exists (fin a), s.
  - destruct (Nat.eqb_spec (left_of s) 0); [by exists (fin a), s|]. rewrite runl_bind.
    destruct (Ht a s Hs) as (o & s1 & E & _ & Hs1). rewrite E. destruct o as [a1|r]; [|by exists r, s1].
    destruct s as [l|]; [|done]. apply Hdec in E as (l' & -> & Hl); [|done]. apply IH; [done|]. cbn in *. lia.
Qed.

Lemma total_skip_ext : total any skip_ext.
Proof.
  unfold skip_ext. do 2 (eapply total_bind; [apply total_u16|intros ? _]). eapply total_bind; [apply total_skip|intros [] _]. by apply total_ret.
Qed.

Lemma skip_ext_shrinks l x l' : bytes_ok l -> runl skip_ext (Some l) = (Some x, Some l') -> (length l' < length l)%nat.
Proof.
  intros Hl. unfold skip_ext. rewrite runl_u16_some by done. intros (t & l1 & _ & -> & H). apply Forall_app in Hl as [_ Hl].
  rewrite runl_u16_some in H by done. destruct H as (n & l2 & _ & -> & H). unfold skip_ in H.
  cbn [runl mbind prog_mbind prog_bind] in H. unfold listn in H. destruct (_ <? _)%nat; [discriminate|].
  injection H as _ <-. rewrite !length_app, !length_be_bytes, length_drop. lia.
Qed.

(** A pass that stops at an underrun and otherwise only decides moves on. *)
Lemma skip_pass_shrinks {A R} (r : R) (k : Z * nat -> prog (A + R)) l a' s' : bytes_ok l ->
  (forall x s o s1, runl (k x) s = (Some o, s1) -> s1 = s) ->
  runl (x ← skip_ext; e ← err_; if (e : bool) then Ret (inr r) else k x) (Some l) = (Some (inl a'), s') ->
  exists l', s' = Some l' /\ (length l' < length l)%nat.
Proof.
  intros Hl Hk. rewrite runl_bind. destruct (runl skip_ext (Some l)) as [[x|] s1] eqn:E; [|discriminate].
  rewrite runl_err. destruct s1 as [l1|]; [|discriminate]. cbn [is_err]. intros H. apply Hk in H as ->.
  exists l1. split; [done|]. by apply skip_ext_shrinks in E.
Qed.

Lemma type_before_returns exts t : bytes_ok exts -> exists b, type_before exts t = Some b.
Proof.
  intros Hb. eapply total_parse; [|done]. apply total_scan.
  - intros []. eapply total_bind; [apply total_skip_ext|intros x _]. repeat total_step.
  - intros [] l a' s' Hl. apply skip_pass_shrinks; [done|]. intros x s o s1. by destruct (x.1 =? t); intros [= _ <-].
Qed.

Lemma over_max_returns exts : bytes_ok exts -> exists b, srv_ext_over_max exts = Some b.
Proof.
  intros Hb. eapply total_parse; [|done]. apply total_scan.
  - intros n. eapply total_bind; [apply total_skip_ext|intros x _]. cbv zeta. repeat total_step.
  - intros n l a' s' Hl. apply skip_pass_shrinks; [done|]. intros x s o s1. by destruct (_ <? _)%nat; intros [= _ <-].
Qed.

Lemma duplicate_returns exts : bytes_ok exts -> exists b, srv_ext_duplicate exts = Some b.
Proof.
  intros Hb. eapply total_parse; [|done]. apply total_scan.
  - intros n. eapply total_bind; [apply total_skip_ext|intros x _]. eapply total_bind; [apply total_err|intros e _].
    destruct e; [by apply total_ret|].
    destruct (type_before_returns (take n exts) x.1) as [b ->]; [by apply Forall_take|]. destruct b; by apply total_ret.
  - intros n l a' s' Hl. apply skip_pass_shrinks; [done|]. intros x s o s1.
    destruct (type_before _ _) as [[]|]; by intros [= _ <-].
Qed.

Lemma parse_head_total offered body frozen ch : hello_ok offered 0 ch ->
  total (fine srv_refusal (fun r => hello_ok offered 0 r.1 /\ exists m, r.2 = sha256_update frozen m)) (parse_head body frozen ch).
Proof.
  intros Hc. unfold parse_head, refuse. eapply total_bind; [apply total_u16|intros v _]. eapply total_bind; [apply total_nbytes|intros o _].
  destruct o as [rb|]; [|apply total_ret; srv_refuses]. eapply total_bind; [apply total_u8|intros sl _].
  eapply total_bind; [apply total_nbytes|intros o _]. destruct o as [sid|]; [|apply total_ret; srv_refuses].
  destruct (_ <? _); [apply total_ret; srv_refuses|]. eapply total_bind; [apply keeps_open|intros c _].
  destruct (negb c.2); [apply total_ret; srv_refuses|].
  eapply total_bind; [apply (total_for_u16 (hello_ok offered 0)); [intros ? c1 _ Hc1; exact Hc1|exact Hc]|intros c1 Hc1].
  eapply total_bind; [apply total_u8|intros cl _]. eapply total_bind; [apply total_nbytes|intros o _].
  destruct o as [cb|]; [|apply total_ret; srv_refuses]. destruct (_ || _); [apply total_ret; srv_refuses|].
  eapply total_bind; [apply total_left|intros n _]. apply total_ret. split; [done|]. by eexists.
Qed.

Lemma parse_extension_total n offered ch : (exists sn, hello_ok offered sn ch) ->
  total (fine srv_refusal (fun c => exists sn, hello_ok offered sn c)) (parse_extension n offered ch).
Proof.
  intros [sn Hc]. unfold parse_extension, refuse. destruct (negb _); [apply total_ret; srv_refuses|].
  eapply total_bind; [apply total_left|intros k _]. eapply total_bind; [apply total_read_ext|intros [t o] Ho]. cbn [fst snd] in *.
  destruct o as [d|]; [|apply total_ret; srv_refuses]. destruct (negb (srv_ext_known t)); [apply total_ret; by exists sn|].
  apply total_sub; [done|]. eapply total_impl; [apply (read_filled_total offered (ch_seen ch .| ext_bit t))|].
  - destruct Hc as (H1 & H2 & H3 & _). by split_and!.
  - intros [c|rc al] H; [by eexists|exact H].
Qed.

Lemma extensions_total n offered ch : (exists sn, hello_ok offered sn ch) ->
  total (fine srv_refusal (fun c => exists sn, hello_ok offered sn c)) (loop_left (parse_extension n offered) ch).
Proof.
  intros Hc. apply total_loop_left; [intros; by apply parse_extension_total| |done].
  intros a l a' s' Hl Hne H. apply parse_extension_done in H as (x & l' & _ & -> & -> & _); [|done|done].
  exists l'. split; [done|]. rewrite length_app, length_wire_ext. lia.
Qed.

Lemma check_required_fine ch : fine srv_refusal any (check_required ch).
Proof.
  unfold check_required. cbv zeta. repeat (match goal with |- fine _ _ (if ?c then _ else _) => destruct c end; [srv_refuses|]). done.
Qed.

Lemma client_hello_total body block offered : length block = 64%nat ->
  total (fine srv_refusal any) (srv_parse_client_hello body block offered zero_hello).
Proof.
  intros Hblk. unfold srv_parse_client_hello, refuse. eapply total_obind; [apply (parse_head_total offered), (start_ok offered (replicate 32 0) [] [])|].
  intros [c f] [Hc [m Ef]]. cbn [fst snd] in *. eapply total_bind; [apply total_left|intros n _].
  destruct (n =? 0)%nat; [apply total_ret; srv_refuses|]. eapply total_bind; [apply total_u16|intros len _].
  intros s Hs. rewrite runl_err, runl_left. destruct s as [l|]; cbn [is_err left_of orb].
  2:{ apply total_ret; [srv_refuses|done]. }
  destruct (Z.eqb_spec len (Z.of_nat (length l))) as [->|]; cbn [negb]; [|apply total_ret; [srv_refuses|done]].
  rewrite runl_peek, Nat2Z.id, take_ge by done. cbn [state_ok] in Hs.
  destruct (over_max_returns l Hs) as [om Eo]. rewrite Eo. destruct om; [apply total_ret; [srv_refuses|done]|].
  destruct (duplicate_returns l Hs) as [dup Ed]. rewrite Ed. destruct dup; [apply total_ret; [srv_refuses|done]|].
  rewrite runl_obind. destruct (extensions_total (length body) offered c (ex_intro _ 0 Hc) (Some l) Hs) as (o & s1 & E & Ho & Hs1). rewrite E.
  destruct o as [c1|rc al]; [|by exists (Refuse rc al), s1].
  eapply loop_left_done in E as (xs & Hf & El & _); [|intros; apply (parse_extension_done _ offered); done|done]. subst l.
  destruct (proj1 (scans_pass xs Hs Hf) (conj Eo Ed)) as [_ Hnd].
  destruct (add_frozen_wire xs f m Hf Hs Hnd) as (f' & Ef' & _); [rewrite Ef; exact (update_absorbs _ [] m (sha256_init_absorbed block Hblk))|].
  rewrite Ef'. apply total_ret; [apply check_required_fine|done].
Qed.

(** ** Lemmas: what equal digest inputs say *)

Lemma code_points_inj vs ws : Forall code_ok vs -> Forall code_ok ws -> length vs = length ws -> code_points vs = code_points ws -> vs = ws.
Proof.
  intros Hv. revert ws. induction Hv as [|v vs Hv Hvs IH]; intros ws Hw Hl E; [by destruct ws|].
  destruct Hw as [|w ws Hw Hws]; [done|]. change (be_bytes 2 v ++ code_points vs = be_bytes 2 w ++ code_points ws) in E.
  apply app_inj_1 in E as [E1 E2]; [|by rewrite !length_be_bytes]. apply (f_equal be_val) in E1. unfold code_ok in *.
  rewrite !be_val_bytes, !Z.mod_small in E1 by (cbn; lia). cbn [length] in Hl. by rewrite E1, (IH ws) by (done || lia).
Qed.

Lemma hello_head_inj ver random sid suites ver' random' sid' suites' l l' :
  head_ok ver random sid suites -> head_ok ver' random' sid' suites' ->
  hello_head ver random sid suites ++ l = hello_head ver' random' sid' suites' ++ l' ->
  ver = ver' /\ random = random' /\ sid = sid' /\ suites = suites' /\ l = l'.
Proof.
  intros (Hv & Hr & Hs & H1 & H2 & H3) (Hv' & Hr' & Hs' & H1' & H2' & H3') E. unfold hello_head in E. rewrite <- !app_assoc in E. unfold code_ok in *.
  apply app_inj_1 in E as [E1 E]; [|by rewrite !length_be_bytes]. apply (f_equal be_val) in E1.
  rewrite !be_val_bytes, !Z.mod_small in E1 by (cbn; lia). apply app_inj_1 in E as [-> E]; [|lia].
  apply app_inj_1 in E as [E2 E]; [|done]. injection E2 as E2. apply app_inj_1 in E as [-> E]; [|lia]. apply app_inj_1 in E as [E3 E]; [|by rewrite !length_be_bytes].
  apply (f_equal be_val) in E3. rewrite !be_val_bytes, !Z.mod_small in E3 by (cbn; lia).
  apply app_inj_1 in E as [E4 E]; [|rewrite !length_code_points; lia]. apply code_points_inj in E4 as ->; [|done|done|lia].
  apply app_inj_1 in E as [_ ->]; done.
Qed.

Lemma frozen_order_fits xs : Forall ext_fits xs -> Forall ext_fits (frozen_order xs).
Proof.
  intros H. unfold frozen_order. rewrite merge_sort_Permutation, !Forall_forall in *.
  intros x Hx. apply list_elem_of_filter in Hx as [_ Hx]. auto.
Qed.

Lemma frozen_order_perm xs ys : NoDup (fst <$> xs) -> frozen_order xs = frozen_order ys <-> covered 0 xs ≡ₚ covered 0 ys.
Proof.
  intros Hnd. split.
  - intros E. rewrite <- (merge_sort_Permutation by_type (covered 0 xs)), <- (merge_sort_Permutation by_type (covered 0 ys)).
    fold (frozen_order xs) (frozen_order ys). by rewrite E.
  - intros Hp. symmetry. apply frozen_order_unique; [done|apply StronglySorted_merge_sort; apply _|].
    unfold frozen_order. by rewrite merge_sort_Permutation.
Qed.

(** ** Properties *)

(** C9. The ClientHello parser accepts exactly the well-formed messages: a head, a
    block of at most 128 extensions of distinct types that fills the message,
    every one read whole by its reader and none after pre_shared_key, holding
    what check_required asks for; its report is what the readers wrote, and its
    frozen digest is the SHA-256 of the head followed by the covered
    extensions in ascending type order. *)
Theorem client_hello_exact body block offered ch : bytes_ok body -> length block = 64%nat ->
  parse (srv_parse_client_hello body block offered zero_hello) body = Some (Done ch) <->
  exists ver random sid suites xs, accepted body offered ch ver random sid suites xs.
Proof.
  intros Hb Hblk. split; [by apply client_hello_sound|]. intros (ver & random & sid & suites & xs & H). by eapply client_hello_complete.
Qed.

(** C12. What an accepted ClientHello guarantees the server: the required
    extensions are in the block, pre_shared_key ends it, [seen] names the
    recognized types present, every share reported belongs to a group that was offered
    and has that group's length, the selected protocol is one the server
    offered, and the record limit is in range. *)
Theorem client_hello_safe body block offered ch : bytes_ok body -> length block = 64%nat ->
  parse (srv_parse_client_hello body block offered zero_hello) body = Some (Done ch) ->
  exists head (xs : list ext), body = head ++ be_bytes 2 (Z.of_nat (length (wire_exts xs))) ++ wire_exts xs /\
    NoDup (fst <$> xs) /\ required xs ch /\
    (forall pre x post, xs = pre ++ x :: post -> x.1 = EXT_PRE_SHARED_KEY -> post = []) /\
    (forall t, t ∈ known_types -> negb (ch_seen ch .& ext_bit t =? 0) = true <-> t ∈ fst <$> xs) /\
    shares_ok ch /\ alpn_ok offered ch /\ limit_ok ch.
Proof.
  intros Hb Hblk H. apply client_hello_sound in H as (ver & random & sid & suites & xs & _ & (_ & _ & _ & Hnd) & E & ch1 & Hw & Hr & ->); [|done|done].
  exists (hello_head ver random sid suites), xs. rewrite E in Hb. unfold hello_message in Hb. rewrite !Forall_app in Hb. destruct Hb as (_ & _ & Hx).
  pose proof (walk_seen _ _ _ _ _ _ _ Hx Hw) as (H1 & H2 & H3 & H4). split; [done|]. split; [done|]. split; [exact Hr|]. split.
  - intros pre x post -> Hxt. eapply psk_last; [|apply start_ok|exact Hw|done]. by apply wire_exts_ok.
  - split; [|done]. intros t Ht. cbn [ch_seen set_frozen]. rewrite H4. by apply seen_has.
Qed.

(** C23. The frozen digest binds a second ClientHello to the first: of two messages
    the parser accepts, each digest is the SHA-256 of bytes that are equal
    exactly when the heads are equal and the blocks carry the same covered
    extensions, in any order. *)
Theorem frozen_digest_binds body1 body2 block offered ch1 ch2 : bytes_ok body1 -> bytes_ok body2 -> length block = 64%nat ->
  parse (srv_parse_client_hello body1 block offered zero_hello) body1 = Some (Done ch1) ->
  parse (srv_parse_client_hello body2 block offered zero_hello) body2 = Some (Done ch2) ->
  exists head1 xs1 frozen1 head2 xs2 frozen2,
    body1 = head1 ++ be_bytes 2 (Z.of_nat (length (wire_exts xs1))) ++ wire_exts xs1 /\
    body2 = head2 ++ be_bytes 2 (Z.of_nat (length (wire_exts xs2))) ++ wire_exts xs2 /\
    ch_frozen ch1 = sha256_spec frozen1 /\ ch_frozen ch2 = sha256_spec frozen2 /\
    (frozen1 = frozen2 <-> head1 = head2 /\ covered 0 xs1 ≡ₚ covered 0 xs2).
Proof.
  intros Hb1 Hb2 Hblk H1 H2.
  apply client_hello_sound in H1 as (v1 & r1 & i1 & s1 & xs1 & Hh1 & (Hf1 & _ & _ & Hnd1) & E1 & c1 & _ & _ & ->); [|done|done].
  apply client_hello_sound in H2 as (v2 & r2 & i2 & s2 & xs2 & Hh2 & (Hf2 & _ & _ & Hnd2) & E2 & c2 & _ & _ & ->); [|done|done].
  exists (hello_head v1 r1 i1 s1), xs1, (frozen_preimage v1 r1 i1 s1 xs1), (hello_head v2 r2 i2 s2), xs2, (frozen_preimage v2 r2 i2 s2 xs2).
  split; [exact E1|]. split; [exact E2|]. split; [done|]. split; [done|]. rewrite <- frozen_order_perm by done. unfold frozen_preimage. split.
  - intros E. apply hello_head_inj in E as (-> & -> & -> & -> & E); [|done|done].
    split; [done|]. by apply wire_exts_inj in E; [|by apply frozen_order_fits..].
  - by intros [-> ->].
Qed.

(** C39. The ClientHello parser returns on every message: a report, or CH_EPROTO
    with one of five alerts; none of its loops runs out. *)
Theorem client_hello_returns body block offered : bytes_ok body -> length block = 64%nat ->
  exists o, parse (srv_parse_client_hello body block offered zero_hello) body = Some o /\
    match o with Done _ => True | Refuse rc al => rc = CH_EPROTO /\ exists a, al = Some a /\ a ∈ srv_alerts end.
Proof.
  intros Hb Hblk. rewrite parse_list by done. destruct (client_hello_total body block offered Hblk (Some body) Hb) as (o & s' & -> & Ho & _). by exists o.
Qed.
End Parsers.

(** A hello of the x25519 build without a PSK. *)
Definition sample_block : list ext :=
  [(EXT_SUPPORTED_VERSIONS, [2; 3; 4]); (EXT_SUPPORTED_GROUPS, [0; 2; 0; 29]); (EXT_SIGNATURE_ALGORITHMS, [0; 2; 4; 3]);
   (EXT_KEY_SHARE, [0; 36; 0; 29; 0; 32] ++ replicate 32 9)].
Definition sample_message (block : list ext) : list Z := hello_message 0x0303 (replicate 32 7) [] [0x1303] block.
Definition sample_walk (block : list ext) : option client_hello :=
  walk (hello_step (build := raw_build) (length (sample_message block)) []) (hello_start (build := raw_build) (replicate 32 7) [] [0x1303]) block.
Definition sample_report (block : list ext) : client_hello :=
  set_frozen (default zero_hello (sample_walk block)) (sha256_spec (frozen_preimage 0x0303 (replicate 32 7) [] [0x1303] block)).

Ltac by_decide := apply (bool_decide_unpack _); vm_compute; exact I.
Ltac sample_bytes := vm_compute; repeat (constructor; [split; discriminate || reflexivity|]); constructor.

Lemma sample_accepted_of block : Forall ext_fits block -> bool_decide (NoDup (fst <$> block)) = true ->
  Z.of_nat (length (wire_exts block)) < 2 ^ 16 -> (length block <= 128)%nat -> is_Some (sample_walk block) ->
  required block (default zero_hello (sample_walk block)) ->
  accepted (build := raw_build) (sample_message block) [] (sample_report block) 0x0303 (replicate 32 7) [] [0x1303] block.
Proof.
  intros Hf Hnd Hl Hn [c Hc] Hr. split; [|split; [|split; [done|]]].
  - unfold head_ok, code_ok. rewrite length_replicate. cbn [length]. split_and!; try lia. repeat constructor; lia.
  - split_and!; [done|done|done|by apply bool_decide_eq_true in Hnd].
  - exists c. unfold sample_report. rewrite Hc in Hr |- *. by split_and!.
Qed.

Lemma sample_block_accepted (block : list ext) : block ≡ₚ sample_block -> is_Some (sample_walk block) ->
  ch_shares (default zero_hello (sample_walk block)) .& u8 (Z.lnot (ch_groups (default zero_hello (sample_walk block)))) = 0 ->
  accepted (build := raw_build) (sample_message block) [] (sample_report block) 0x0303 (replicate 32 7) [] [0x1303] block.
Proof.
  intros Hp Hw Hs. assert (Hin : forall t, t ∈ fst <$> block <-> t ∈ fst <$> sample_block) by (intros t; by rewrite Hp).
  apply sample_accepted_of; [rewrite Hp| | | |done|].
  - unfold sample_block. rewrite !Forall_cons, Forall_nil. vm_compute. by split_and!.
  - apply bool_decide_eq_true. rewrite Hp. apply (bool_decide_unpack _). vm_compute. exact I.
  - assert (E : length (wire_exts block) = length (wire_exts sample_block)) by (unfold wire_exts; by rewrite Hp). rewrite E. vm_compute. done.
  - rewrite Hp. vm_compute. lia.
  - unfold required. cbv zeta. rewrite !Hin. split; [by_decide|]. split.
    { intros H. exfalso. revert H. by_decide. }
    split; [intros _; split; by_decide|]. split; [|exact Hs]. split; intros _; by_decide.
Qed.

Lemma client_hello_exact_witness :
  parse (srv_parse_client_hello (build := raw_build) (sample_message sample_block) (replicate 64 0) [] zero_hello) (sample_message sample_block)
  = Some (Done (sample_report sample_block)).
Proof.
  apply (client_hello_exact (build := raw_build)); [sample_bytes|by rewrite length_replicate|].
  exists 0x0303, (replicate 32 7), [], [0x1303], sample_block.
  apply sample_block_accepted; [done|vm_compute; by eexists|vm_compute; reflexivity].
Defined.

Lemma client_hello_safe_witness : shares_ok (build := raw_build) (sample_report sample_block).
Proof.
  destruct (client_hello_safe (build := raw_build) (sample_message sample_block) (replicate 64 0) [] (sample_report sample_block))
    as (h & xs & _ & _ & _ & _ & _ & H & _); [sample_bytes|by rewrite length_replicate| |exact H].
  eapply client_hello_complete; [sample_bytes|by rewrite length_replicate|].
  apply sample_block_accepted; [done|vm_compute; by eexists|vm_compute; reflexivity].
Defined.

Lemma sample_parses (block : list ext) : block ≡ₚ sample_block -> bytes_ok (sample_message block) -> is_Some (sample_walk block) ->
  ch_shares (default zero_hello (sample_walk block)) .& u8 (Z.lnot (ch_groups (default zero_hello (sample_walk block)))) = 0 ->
  parse (srv_parse_client_hello (build := raw_build) (sample_message block) (replicate 64 0) [] zero_hello) (sample_message block)
  = Some (Done (sample_report block)).
Proof.
  intros Hp Hb Hw Hs. eapply client_hello_complete; [done|by rewrite length_replicate|]. by apply sample_block_accepted.
Qed.

Lemma frozen_digest_binds_witness : exists frozen1 frozen2,
  ch_frozen (sample_report sample_block) = sha256_spec frozen1 /\ ch_frozen (sample_report (reverse sample_block)) = sha256_spec frozen2.
Proof.
  destruct (frozen_digest_binds (build := raw_build) (sample_message sample_block) (sample_message (reverse sample_block)) (replicate 64 0) []
    (sample_report sample_block) (sample_report (reverse sample_block))) as (_ & _ & f1 & _ & _ & f2 & _ & _ & E1 & E2 & _).
  - sample_bytes.
  - sample_bytes.
  - by rewrite length_replicate.
  - apply sample_parses; [done|sample_bytes|vm_compute; by eexists|vm_compute; reflexivity].
  - apply sample_parses; [apply reverse_Permutation|sample_bytes|vm_compute; by eexists|vm_compute; reflexivity].
  - exists f1, f2. exact (conj E1 E2).
Defined.

Lemma client_hello_returns_witness :
  exists o, parse (srv_parse_client_hello (build := raw_build) [3; 3; 0] (replicate 64 0) [] zero_hello) [3; 3; 0] = Some o.
Proof.
  destruct (client_hello_returns (build := raw_build) [3; 3; 0] (replicate 64 0) []) as (o & H & _); [sample_bytes|by rewrite length_replicate|].
  by exists o.
Defined.
End Srv.
