(* ===== verification/HsMessage.v ===== *)
(** * The client's ClientHello: src/src/handshake_message.c, handshake_message.h

    The one message a client builds from its configuration, in every build.
    What it writes is shown to be the encoding of an explicit list of
    extensions, whatever the buffer.  [Hello] composes it with the server's
    parser. *)

From S2P Require Import Prelude Ct Buf Writer Reader MdHash Sha256 Sha512 Build Wire SrvExt SrvParser.
Import Sha256 Sha512 SrvExt Srv.
Local Open Scope Z_scope.
Local Open Scope word_scope.

Module HsMessage.

(** The fields of [ch_cfg] a hello is built from.  A NULL pointer is [None]; the
    saved ticket is its [age_add]; of the pins only their number matters. *)
Record ch_cfg := {
  psk : option (list Z);
  psk_id : list Z;
  ticket : option Z;
  ticket_age_ms : Z;
  require_pq : bool;
  cpu : Z;
  cfg_hostname : list Z;
  spki_pin_count : nat;
  cipher_suites : option (list Z);
  alpn_protocols : list (list Z);
  transport_params : list Z;
}.

Section Message.
Context {build : HsBuild} (CH_CPU_RUNTIME CH_ROLE_SERVER : bool).

Definition HS_CLIENT_HELLO : Z := 1.
Definition CH_CERT_TYPE_X509 : Z := 0.
Definition CH_CERT_TYPE_RAW_PUBLIC_KEY : Z := 2.
Definition CH_CPU_CONSTANT_TIME_AES : Z := 0x02.

Definition SUITE_AES_FIRST : bool := CH_SUITE_AES_GCM && CH_CPU_RUNTIME.
Definition SUITE_CNSA2_SERVER : bool := CH_PROFILE_CNSA2 && CH_ROLE_SERVER.
Definition suite_default_order : list Z :=
  if SUITE_CNSA2_SERVER then [SUITE_AES_256_GCM_SHA384]
  else if SUITE_AES_FIRST then [SUITE_AES_256_GCM_SHA384; SUITE_AES_128_GCM_SHA256; SUITE_CHACHA20_POLY1305_SHA256]
  else if CH_SUITE_AES_GCM then [SUITE_CHACHA20_POLY1305_SHA256; SUITE_AES_128_GCM_SHA256; SUITE_AES_256_GCM_SHA384]
  else [SUITE_CHACHA20_POLY1305_SHA256].
Definition SUITE_ORDER_WITHOUT_AES : bool := CH_CPU_RUNTIME && CH_SUITE_AES_GCM && negb SUITE_CNSA2_SERVER.
Definition suite_session_default (cfg : ch_cfg) : list Z :=
  if SUITE_ORDER_WITHOUT_AES && (cpu cfg .& CH_CPU_CONSTANT_TIME_AES =? 0) then [SUITE_CHACHA20_POLY1305_SHA256]
  else suite_default_order.

Definition hs_offered_suites (cfg : ch_cfg) : list Z :=
  match cipher_suites cfg with Some suites => suites | None => suite_session_default cfg end.
Definition hs_suite_offered (cfg : ch_cfg) (suite : Z) : bool :=
  if CH_CLIENT_AES_SUITES then existsb (Z.eqb suite) (hs_offered_suites cfg)
  else if CH_PROFILE_CNSA2 then (suite =? SUITE_AES_256_GCM_SHA384)
  else (suite =? SUITE_CHACHA20_POLY1305_SHA256).

Definition hs_psk_hash_len (cfg : ch_cfg) : nat :=
  if CH_PROFILE_CNSA2 then SHA384_LEN
  else if CH_CLIENT_AES_SUITES &&
          match ticket cfg with Some _ => (length (default [] (psk cfg)) =? SHA384_LEN)%nat | None => false end
  then SHA384_LEN else SHA256_LEN.

Definition ticket_obfuscated_age (age_add age_ms : Z) : Z := u32 age_ms +32 age_add.

Definition webpki_cert_types_offered (cfg : ch_cfg) : Z :=
  if (spki_pin_count cfg =? 0)%nat then 0
  else u8 (Z.shiftl 1 CH_CERT_TYPE_RAW_PUBLIC_KEY .| Z.shiftl 1 CH_CERT_TYPE_X509).

Definition write_alpn (w : wbuf) (cfg : ch_cfg) : wbuf :=
  if (length (alpn_protocols cfg) =? 0)%nat then w
  else
    let w := wb_u16 w EXT_ALPN in
    let '(ext, w) := wb_mark w 2 in
    let '(list, w) := wb_mark w 2 in
    let w := foldl (fun w name => wb_bytes (wb_u8 w (u8 (Z.of_nat (length name)))) name) w (alpn_protocols cfg) in
    let w := wb_patch16 w list in
    wb_patch16 w ext.

Definition write_server_name (w : wbuf) (cfg : ch_cfg) : wbuf :=
  let hostname_len := Z.of_nat (length (cfg_hostname cfg)) in
  if (hostname_len =? 0) then w
  else
    let w := wb_u16 w EXT_SERVER_NAME in
    let w := wb_u16 w (u16 (2 + 1 + 2 + hostname_len)) in
    let w := wb_u16 w (u16 (1 + 2 + hostname_len)) in
    let w := wb_u8 w 0 in
    let w := wb_u16 w (u16 hostname_len) in
    wb_bytes w (cfg_hostname cfg).

Definition write_webpki_signature_algorithms (w : wbuf) : wbuf :=
  let w := wb_u16 w EXT_SIGNATURE_ALGORITHMS in
  let w := wb_u16 w (2 + 5 * 2) in
  let w := wb_u16 w (5 * 2) in
  let w := wb_u16 w SIGALG_RSA_PSS_RSAE_SHA256 in
  let w := wb_u16 w SIGALG_ECDSA_P256_SHA256 in
  let w := wb_u16 w SIGALG_ECDSA_P384_SHA384 in
  let w := wb_u16 w SIGALG_RSA_PKCS1_SHA256 in
  wb_u16 w SIGALG_RSA_PKCS1_SHA384.

Definition write_cert_types (w : wbuf) (cfg : ch_cfg) : wbuf :=
  let offered := webpki_cert_types_offered cfg in
  if (offered =? 0) then w
  else
    let raw := (offered >> CH_CERT_TYPE_RAW_PUBLIC_KEY) .& 1 in
    let x509 := (offered >> CH_CERT_TYPE_X509) .& 1 in
    let w := wb_u16 w EXT_SERVER_CERTIFICATE_TYPE in
    let w := wb_u16 w (u16 (1 + raw + x509)) in
    let w := wb_u8 w (u8 (raw + x509)) in
    let w := if negb (raw =? 0) then wb_u8 w CH_CERT_TYPE_RAW_PUBLIC_KEY else w in
    if negb (x509 =? 0) then wb_u8 w CH_CERT_TYPE_X509 else w.

Definition write_pre_shared_key (w : wbuf) (cfg : ch_cfg) : wbuf :=
  let w := wb_u16 w EXT_PRE_SHARED_KEY in
  let '(psk, w) := wb_mark w 2 in
  let '(ids, w) := wb_mark w 2 in
  let w := wb_u16 w (u16 (Z.of_nat (length (psk_id cfg)))) in
  let w := wb_bytes w (psk_id cfg) in
  let age := match ticket cfg with Some age_add => ticket_obfuscated_age age_add (ticket_age_ms cfg) | None => 0 end in
  let w := wb_u16 w (u16 (age >> 16)) in
  let w := wb_u16 w (u16 age) in
  let w := wb_patch16 w ids in
  let hash_len := hs_psk_hash_len cfg in
  let w := wb_u16 w (u16 (1 + Z.of_nat hash_len)) in
  let w := wb_u8 w (u8 (Z.of_nat hash_len)) in
  let '(_, w) := wb_mark w hash_len in
  wb_patch16 w psk.

Definition write_cipher_suites (w : wbuf) (cfg : ch_cfg) : wbuf :=
  let suites := hs_offered_suites cfg in
  let w := wb_u16 w (u16 (2 * Z.of_nat (length suites))) in
  foldl (fun w suite => wb_u16 w suite) w suites.

Definition write_two_groups (w : wbuf) (cfg : ch_cfg) (ek pub : list Z) (p256_pub : option (list Z)) : wbuf :=
  let groups_len := if require_pq cfg then 2 else 6 in
  let w := wb_u16 w EXT_SUPPORTED_GROUPS in
  let w := wb_u16 w (u16 (2 + groups_len)) in
  let w := wb_u16 w (u16 groups_len) in
  let w := wb_u16 w CH_GROUP_X25519MLKEM768 in
  let w := if negb (require_pq cfg) then wb_u16 (wb_u16 w CH_GROUP_X25519) CH_GROUP_SECP256R1 else w in
  let w := wb_u16 w EXT_KEY_SHARE in
  let '(ext, w) := wb_mark w 2 in
  let '(shares, w) := wb_mark w 2 in
  let w := match p256_pub with
           | Some p256_pub =>
               let w := wb_u16 w CH_GROUP_SECP256R1 in
               let w := wb_u16 w (Z.of_nat P256_POINT_LEN) in
               wb_bytes w p256_pub
           | None =>
               let w := wb_u16 w CH_GROUP_X25519MLKEM768 in
               let w := wb_u16 w (Z.of_nat CH_HYBRID_CLIENT_SHARE) in
               let w := wb_bytes w ek in
               let w := wb_bytes w pub in
               if negb (require_pq cfg) then
                 let w := wb_u16 w CH_GROUP_X25519 in
                 let w := wb_u16 w 32 in
                 wb_bytes w pub
               else w
           end in
  let w := wb_patch16 w shares in
  wb_patch16 w ext.

(** The blocks of [hs_build_client_hello] a macro or a pointer selects: the
    suites, the names, the groups and shares, what sizes the records or the
    transport, the cookie, and how the server is to authenticate. *)
Definition hello_suites (w : wbuf) (cfg : ch_cfg) : wbuf :=
  if CH_CLIENT_AES_SUITES then write_cipher_suites w cfg
  else if CH_PROFILE_CNSA2 then wb_u16 (wb_u16 w 2) SUITE_AES_256_GCM_SHA384
  else wb_u16 (wb_u16 w 2) SUITE_CHACHA20_POLY1305_SHA256.
Definition hello_names (w : wbuf) (cfg : ch_cfg) : wbuf :=
  if CH_TRUST_WEBPKI then write_alpn (write_server_name w cfg) cfg
  else if CH_TRANSPORT_QUIC_NONBLOCKING then write_alpn w cfg else w.
Definition hello_groups (w : wbuf) (cfg : ch_cfg) (ek pub : list Z) (p256_pub : option (list Z)) : wbuf :=
  if CH_KEX_TWO_GROUPS then write_two_groups w cfg ek pub p256_pub
  else
    let w := wb_u16 w EXT_SUPPORTED_GROUPS in
    let w := wb_u16 w 4 in
    let w := wb_u16 w 2 in
    let w := wb_u16 w CH_KEX_GROUP in
    let w := wb_u16 w EXT_KEY_SHARE in
    let w := wb_u16 w (2 + 2 + 2 + Z.of_nat CH_KEX_CLIENT_SHARE) in
    let w := wb_u16 w (2 + 2 + Z.of_nat CH_KEX_CLIENT_SHARE) in
    let w := wb_u16 w CH_KEX_GROUP in
    let w := wb_u16 w (Z.of_nat CH_KEX_CLIENT_SHARE) in
    if CH_PROFILE_CNSA2 then wb_bytes w ek
    else
      let w := if CH_KEX_HYBRID then wb_bytes w ek else w in
      wb_bytes w pub.
Definition hello_transport (w : wbuf) (cfg : ch_cfg) (record_size_limit : Z) : wbuf :=
  if negb CH_TRANSPORT_QUIC_NONBLOCKING then
    let w := wb_u16 w EXT_RECORD_SIZE_LIMIT in
    let w := wb_u16 w 2 in
    wb_u16 w record_size_limit
  else
    let w := wb_u16 w EXT_QUIC_TRANSPORT_PARAMS in
    let w := wb_u16 w (u16 (Z.of_nat (length (transport_params cfg)))) in
    wb_bytes w (transport_params cfg).
Definition hello_cookie (w : wbuf) (cookie : option (list Z)) : wbuf :=
  match cookie with
  | Some cookie =>
      let w := wb_u16 w EXT_COOKIE in
      let w := wb_u16 w (u16 (2 + Z.of_nat (length cookie))) in
      let w := wb_u16 w (u16 (Z.of_nat (length cookie))) in
      wb_bytes w cookie
  | None => w
  end.
Definition hello_auth (w : wbuf) (cfg : ch_cfg) : wbuf :=
  if CH_TRUST_WEBPKI then
    let w := write_webpki_signature_algorithms w in
    let w := write_cert_types w cfg in
    match psk cfg with Some _ => write_pre_shared_key w cfg | None => w end
  else
    match psk cfg with
    | None =>
        let w := wb_u16 w EXT_SIGNATURE_ALGORITHMS in
        let w := wb_u16 w 4 in
        let w := wb_u16 w 2 in
        wb_u16 w CH_PIN_SIGALG
    | Some _ => write_pre_shared_key w cfg
    end.

(** The message, [None] for a return of 0. *)
Definition hs_build_client_hello (out : list Z) (cap : nat) (cfg : ch_cfg) (ek : list Z) (p256_pub : option (list Z)) (pub random32 : list Z)
    (record_size_limit : Z) (cookie : option (list Z)) : option (list Z) :=
  let w := wb_init out cap in
  let w := wb_u8 w HS_CLIENT_HELLO in
  let '(msg, w) := wb_mark w 3 in
  let w := wb_u16 w 0x0303 in
  let w := wb_bytes w random32 in
  let w := wb_u8 w 0 in
  let w := hello_suites w cfg in
  let w := wb_u8 w 1 in
  let w := wb_u8 w 0 in
  let '(exts, w) := wb_mark w 2 in
  let w := hello_names w cfg in
  let w := wb_u16 w EXT_SUPPORTED_VERSIONS in
  let w := wb_u16 w 3 in
  let w := wb_u8 w 2 in
  let w := wb_u16 w TLS13 in
  let w := hello_groups w cfg ek pub p256_pub in
  let w := wb_u16 w EXT_PSK_MODES in
  let w := wb_u16 w 2 in
  let w := wb_u8 w 1 in
  let w := wb_u8 w 1 in
  let w := hello_transport w cfg record_size_limit in
  let w := hello_cookie w cookie in
  let w := hello_auth w cfg in
  let w := wb_patch16 w exts in
  let w := wb_patch24 w msg in
  if w_err w then None else Some (take (w_len w) (w_p w)).

(** ** Reference: the extensions of a hello *)

Definition vec16 (l : list Z) : list Z := be_bytes 2 (Z.of_nat (length l)) ++ l.
Definition protocol_name (name : list Z) : list Z := u8 (Z.of_nat (length name)) :: name.
Definition key_share_entry (e : Z * list Z) : list Z := be_bytes 2 e.1 ++ vec16 e.2.

Definition suites_of (cfg : ch_cfg) : list Z :=
  if CH_CLIENT_AES_SUITES then hs_offered_suites cfg
  else if CH_PROFILE_CNSA2 then [SUITE_AES_256_GCM_SHA384] else [SUITE_CHACHA20_POLY1305_SHA256].
Definition groups_of (cfg : ch_cfg) : list Z :=
  if CH_KEX_TWO_GROUPS then CH_GROUP_X25519MLKEM768 :: (if require_pq cfg then [] else [CH_GROUP_X25519; CH_GROUP_SECP256R1])
  else [CH_KEX_GROUP].
Definition shares_of (cfg : ch_cfg) (ek pub : list Z) (p256_pub : option (list Z)) : list (Z * list Z) :=
  if CH_KEX_TWO_GROUPS then
    match p256_pub with
    | Some point => [(CH_GROUP_SECP256R1, point)]
    | None => (CH_GROUP_X25519MLKEM768, ek ++ pub) :: (if require_pq cfg then [] else [(CH_GROUP_X25519, pub)])
    end
  else [(CH_KEX_GROUP, if CH_PROFILE_CNSA2 then ek else (if CH_KEX_HYBRID then ek else []) ++ pub)].

Definition server_name_exts (cfg : ch_cfg) : list ext :=
  if (Z.of_nat (length (cfg_hostname cfg)) =? 0) then [] else [(EXT_SERVER_NAME, vec16 (0 :: vec16 (cfg_hostname cfg)))].
Definition alpn_exts (cfg : ch_cfg) : list ext :=
  if (length (alpn_protocols cfg) =? 0)%nat then [] else [(EXT_ALPN, vec16 (mjoin (protocol_name <$> alpn_protocols cfg)))].
Definition names_exts (cfg : ch_cfg) : list ext :=
  if CH_TRUST_WEBPKI then server_name_exts cfg ++ alpn_exts cfg
  else if CH_TRANSPORT_QUIC_NONBLOCKING then alpn_exts cfg else [].
Definition groups_exts (cfg : ch_cfg) (ek pub : list Z) (p256_pub : option (list Z)) : list ext :=
  [(EXT_SUPPORTED_GROUPS, vec16 (code_points (groups_of cfg)));
   (EXT_KEY_SHARE, vec16 (mjoin (key_share_entry <$> shares_of cfg ek pub p256_pub)))].
Definition transport_exts (cfg : ch_cfg) (record_size_limit : Z) : list ext :=
  if negb CH_TRANSPORT_QUIC_NONBLOCKING then [(EXT_RECORD_SIZE_LIMIT, be_bytes 2 record_size_limit)]
  else [(EXT_QUIC_TRANSPORT_PARAMS, transport_params cfg)].
Definition cookie_exts (cookie : option (list Z)) : list ext :=
  match cookie with Some c => [(EXT_COOKIE, vec16 c)] | None => [] end.
Definition psk_age (cfg : ch_cfg) : Z :=
  match ticket cfg with Some age_add => ticket_obfuscated_age age_add (ticket_age_ms cfg) | None => 0 end.
Definition psk_exts (cfg : ch_cfg) : list ext :=
  match psk cfg with
  | Some _ => [(EXT_PRE_SHARED_KEY, vec16 (vec16 (psk_id cfg) ++ be_bytes 4 (psk_age cfg)) ++
                vec16 (u8 (Z.of_nat (hs_psk_hash_len cfg)) :: replicate (hs_psk_hash_len cfg) 0))]
  | None => []
  end.
Definition sigalgs_of : list Z :=
  if CH_TRUST_WEBPKI
  then [SIGALG_RSA_PSS_RSAE_SHA256; SIGALG_ECDSA_P256_SHA256; SIGALG_ECDSA_P384_SHA384; SIGALG_RSA_PKCS1_SHA256; SIGALG_RSA_PKCS1_SHA384]
  else [CH_PIN_SIGALG].
Definition cert_type_exts (cfg : ch_cfg) : list ext :=
  if (spki_pin_count cfg =? 0)%nat then [] else [(EXT_SERVER_CERTIFICATE_TYPE, [2; CH_CERT_TYPE_RAW_PUBLIC_KEY; CH_CERT_TYPE_X509])].
Definition auth_exts (cfg : ch_cfg) : list ext :=
  if CH_TRUST_WEBPKI then (EXT_SIGNATURE_ALGORITHMS, vec16 (code_points sigalgs_of)) :: cert_type_exts cfg ++ psk_exts cfg
  else match psk cfg with None => [(EXT_SIGNATURE_ALGORITHMS, vec16 (code_points sigalgs_of))] | Some _ => psk_exts cfg end.

Definition client_exts (cfg : ch_cfg) (ek : list Z) (p256_pub : option (list Z)) (pub : list Z) (record_size_limit : Z) (cookie : option (list Z)) : list ext :=
  names_exts cfg ++ [(EXT_SUPPORTED_VERSIONS, 2 :: be_bytes 2 TLS13)] ++ groups_exts cfg ek pub p256_pub ++ [(EXT_PSK_MODES, [1; 1])] ++
  transport_exts cfg record_size_limit ++ cookie_exts cookie ++ auth_exts cfg.
Definition client_hello_body (cfg : ch_cfg) (ek : list Z) (p256_pub : option (list Z)) (pub random32 : list Z) (record_size_limit : Z) (cookie : option (list Z)) : list Z :=
  hello_message 0x0303 random32 [] (suites_of cfg) (client_exts cfg ek p256_pub pub record_size_limit cookie).

(** The macro selections profile_cfg.h lets through. *)
Definition build_ok : Prop := CH_PROFILE_CNSA2 = true -> CH_KEX_PQ = false /\ CH_TRUST_WEBPKI = false /\ CH_SUITE_AES_GCM = true.
(** The lengths the parameter types fix. *)
Definition keys_ok (ek pub : list Z) (p256_pub : option (list Z)) : Prop :=
  (CH_KEX_MLKEM = true -> length ek = MLKEM_EK_LEN) /\ length pub = 32%nat /\
  match p256_pub with Some p => length p = P256_POINT_LEN | None => True end.

(** ** Lemmas: what is written *)

Lemma be2_u16 x : be_bytes 2 (u16 x) = be_bytes 2 x.
Proof. unfold u16. change (2 ^ 16) with (2 ^ (8 * Z.of_nat 2)). apply be_bytes_mod. Qed.

Lemma wire_exts_app xs ys : wire_exts (xs ++ ys) = wire_exts xs ++ wire_exts ys.
Proof. unfold wire_exts. by rewrite fmap_app, join_app. Qed.

Lemma wire_exts_one t d : wire_exts [(t, d)] = be_bytes 2 t ++ vec16 d.
Proof. unfold wire_exts. cbn. by rewrite app_nil_r. Qed.

Lemma write_alpn_emits w cfg : wb_inv w -> appended w (wire_exts (alpn_exts cfg)) (write_alpn w cfg).
Proof.
  intros Hw. unfold write_alpn, alpn_exts. destruct (_ =? 0)%nat; [by apply appended_refl|]. eapply appended_eq.
  - emits.
  - rewrite wire_exts_one. unfold vec16. by rewrite !app_nil_l.
Qed.

Lemma length_vec16 l : length (vec16 l) = (2 + length l)%nat.
Proof. unfold vec16. by rewrite length_app, length_be_bytes. Qed.

(** A written length is the length of what follows it. *)
Lemma be2_vec n l : n = Z.of_nat (length l) -> be_bytes 2 n ++ l = vec16 l.
Proof. by intros ->. Qed.
Lemma be2_vec_app n l r : n = Z.of_nat (length l) -> be_bytes 2 n ++ l ++ r = vec16 l ++ r.
Proof. intros ->. unfold vec16. by rewrite <- app_assoc. Qed.

Lemma write_server_name_emits w cfg : wb_inv w -> appended w (wire_exts (server_name_exts cfg)) (write_server_name w cfg).
Proof.
  intros Hw. unfold write_server_name, server_name_exts. cbv zeta. destruct (_ =? 0); [by apply appended_refl|]. eapply appended_eq.
  - emits.
  - rewrite wire_exts_one, !be2_u16, app_nil_l, <- !app_assoc. cbn [app]. rewrite (be2_vec _ (cfg_hostname cfg)) by done.
    rewrite (be2_vec _ (0 :: vec16 (cfg_hostname cfg))), (be2_vec _ (vec16 (0 :: vec16 (cfg_hostname cfg)))) by (rewrite ?length_vec16; cbn [length]; rewrite ?length_vec16; lia).
    done.
Qed.

Lemma write_sigalgs_emits w : wb_inv w -> CH_TRUST_WEBPKI = true ->
  appended w (wire_exts [(EXT_SIGNATURE_ALGORITHMS, vec16 (code_points sigalgs_of))]) (write_webpki_signature_algorithms w).
Proof. intros Hw Ht. unfold write_webpki_signature_algorithms, sigalgs_of. rewrite Ht. eapply appended_eq; [emits|]. reflexivity. Qed.

Lemma write_cert_types_emits w cfg : wb_inv w -> appended w (wire_exts (cert_type_exts cfg)) (write_cert_types w cfg).
Proof.
  intros Hw. unfold write_cert_types, cert_type_exts, webpki_cert_types_offered. destruct (_ =? 0)%nat; [by apply appended_refl|].
  change (appended w (wire_exts [(EXT_SERVER_CERTIFICATE_TYPE, [2; CH_CERT_TYPE_RAW_PUBLIC_KEY; CH_CERT_TYPE_X509])])
    (wb_u8 (wb_u8 (wb_u8 (wb_u16 (wb_u16 w EXT_SERVER_CERTIFICATE_TYPE) 3) 2) CH_CERT_TYPE_RAW_PUBLIC_KEY) CH_CERT_TYPE_X509)).
  eapply appended_eq; [emits|reflexivity].
Qed.

Lemma write_psk_emits w cfg : wb_inv w -> appended w (wire_exts (psk_exts cfg)) (match psk cfg with Some _ => write_pre_shared_key w cfg | None => w end).
Proof.
  intros Hw. unfold write_pre_shared_key, psk_exts. fold (psk_age cfg). destruct (psk cfg); [|by apply appended_refl]. eapply appended_eq; [emits|].
  rewrite wire_exts_one, !be2_u16, !app_nil_l, <- !app_assoc.
  unfold vec16. rewrite Z.shiftr_div_pow2 by lia. change (be_bytes 4 (psk_age cfg)) with (be_bytes (2 + 2) (psk_age cfg)). rewrite (be_bytes_split 2 2 (psk_age cfg)).
  replace (Z.of_nat (length (u8 (Z.of_nat (hs_psk_hash_len cfg)) :: replicate (hs_psk_hash_len cfg) 0))) with (1 + Z.of_nat (hs_psk_hash_len cfg))
    by (cbn [length]; rewrite length_replicate; lia).
  rewrite <- !app_assoc. reflexivity.
Qed.

Lemma write_suites_emits w cfg : wb_inv w ->
  appended w (be_bytes 2 (2 * Z.of_nat (length (suites_of cfg))) ++ code_points (suites_of cfg)) (hello_suites w cfg).
Proof.
  intros Hw. unfold hello_suites, suites_of, write_cipher_suites. destruct CH_CLIENT_AES_SUITES, CH_PROFILE_CNSA2.
  all: eapply appended_eq; [emits|]; rewrite ?be2_u16; reflexivity.
Qed.

Lemma hello_names_emits w cfg : wb_inv w -> appended w (wire_exts (names_exts cfg)) (hello_names w cfg).
Proof.
  intros Hw. unfold hello_names, names_exts. destruct CH_TRUST_WEBPKI; [|destruct CH_TRANSPORT_QUIC_NONBLOCKING; [by apply write_alpn_emits|by apply appended_refl]].
  rewrite wire_exts_app. pose proof (write_server_name_emits w cfg Hw) as H. eapply appended_app; [exact H|]. eapply write_alpn_emits, appended_inv, H.
Qed.

Lemma hello_transport_emits w cfg limit : wb_inv w -> appended w (wire_exts (transport_exts cfg limit)) (hello_transport w cfg limit).
Proof.
  intros Hw. unfold hello_transport, transport_exts. destruct (negb _); (eapply appended_eq; [emits|]); rewrite wire_exts_one, ?be2_u16; unfold vec16;
    by rewrite <- ?app_assoc.
Qed.

Lemma hello_cookie_emits w cookie : wb_inv w -> appended w (wire_exts (cookie_exts cookie)) (hello_cookie w cookie).
Proof.
  intros Hw. unfold hello_cookie, cookie_exts. destruct cookie as [c|]; [|by apply appended_refl]. eapply appended_eq; [emits|].
  rewrite wire_exts_one, !be2_u16, app_nil_l, <- !app_assoc, (be2_vec _ c), (be2_vec _ (vec16 c)) by (rewrite ?length_vec16; lia). done.
Qed.

Lemma hello_auth_emits w cfg : wb_inv w -> appended w (wire_exts (auth_exts cfg)) (hello_auth w cfg).
Proof.
  intros Hw. unfold hello_auth, auth_exts. pose proof (write_psk_emits w cfg Hw) as Hp. destruct CH_TRUST_WEBPKI eqn:Et.
  - rewrite wire_exts_cons, wire_exts_app. pose proof (write_sigalgs_emits w Hw Et) as H1. rewrite wire_exts_cons, app_nil_r in H1. eapply appended_app; [exact H1|].
    pose proof (write_cert_types_emits _ cfg (appended_inv _ _ _ H1)) as H2. eapply appended_app; [exact H2|]. eapply write_psk_emits, appended_inv, H2.
  - destruct (psk cfg) eqn:Ep; [exact Hp|]. unfold sigalgs_of. rewrite Et. eapply appended_eq; [emits|]. reflexivity.
Qed.

Lemma length_hybrid_share (ek pub : list Z) : CH_PROFILE_CNSA2 = false -> length ek = MLKEM_EK_LEN -> length pub = 32%nat -> Z.of_nat CH_HYBRID_CLIENT_SHARE = Z.of_nat (length (ek ++ pub)).
Proof. intros Hp He Hpub. rewrite length_app, He, Hpub. unfold MLKEM_EK_LEN. by rewrite Hp. Qed.

Lemma write_two_groups_emits w cfg ek pub p256_pub : wb_inv w -> CH_TRUST_WEBPKI = true -> CH_PROFILE_CNSA2 = false -> keys_ok ek pub p256_pub ->
  appended w (wire_exts (groups_exts cfg ek pub p256_pub)) (write_two_groups w cfg ek pub p256_pub).
Proof.
  intros Hw Ht Hp (He & Hpub & Hpt). assert (Hek : length ek = MLKEM_EK_LEN) by (apply He; unfold CH_KEX_MLKEM, CH_KEX_HYBRID, CH_KEX_TWO_GROUPS; by rewrite Ht, orb_true_r).
  unfold write_two_groups, groups_exts, groups_of, shares_of, CH_KEX_TWO_GROUPS. rewrite Ht, wire_exts_cons, wire_exts_one. unfold wire_ext. cbn [fst snd].
  set (point := Z.of_nat P256_POINT_LEN). assert (Epoint : match p256_pub with Some p => point = Z.of_nat (length p) | None => True end) by (destruct p256_pub; [by rewrite Hpt|done]). clearbody point.
  set (hybrid := Z.of_nat CH_HYBRID_CLIENT_SHARE). assert (Eh : hybrid = Z.of_nat (length (ek ++ pub))) by by apply length_hybrid_share. clearbody hybrid.
  destruct (require_pq cfg), p256_pub as [pt|]; cbn [negb]; (eapply appended_eq; [emits|]).
  all: unfold key_share_entry; cbn [mjoin list_join fmap list_fmap fst snd code_points]; rewrite ?app_nil_l, ?app_nil_r.
  all: try rewrite Epoint; try rewrite Eh; unfold vec16; rewrite <- !app_assoc; try reflexivity.
  replace (be_bytes 2 32) with (be_bytes 2 (Z.of_nat (length pub))) by (by rewrite Hpub). reflexivity.
Qed.

Lemma hello_groups_emits w cfg ek pub p256_pub : wb_inv w -> build_ok -> keys_ok ek pub p256_pub ->
  appended w (wire_exts (groups_exts cfg ek pub p256_pub)) (hello_groups w cfg ek pub p256_pub).
Proof.
  intros Hw Hb Hk. unfold hello_groups. destruct CH_KEX_TWO_GROUPS eqn:Et.
  { apply write_two_groups_emits; [done|done| |done]. destruct CH_PROFILE_CNSA2 eqn:Ep; [|done]. destruct (Hb Ep) as (_ & Hw' & _). unfold CH_KEX_TWO_GROUPS in Et. congruence. }
  destruct Hk as (He & Hpub & _). unfold groups_exts, groups_of, shares_of. rewrite Et, wire_exts_cons, wire_exts_one. unfold wire_ext. cbn [fst snd].
  set (share := if CH_PROFILE_CNSA2 then ek else (if CH_KEX_HYBRID then ek else []) ++ pub).
  assert (El : length share = CH_KEX_CLIENT_SHARE).
  { unfold share, CH_KEX_CLIENT_SHARE, CH_KEX_HYBRID, CH_HYBRID_CLIENT_SHARE, CH_KEX_MLKEM, CH_KEX_HYBRID in *. rewrite Et, orb_false_r in *.
    destruct CH_PROFILE_CNSA2 eqn:Ep; [apply He; by rewrite orb_true_r|]. rewrite length_app, Hpub. destruct CH_KEX_PQ eqn:Eq; [|done].
    rewrite He by done. unfold MLKEM_EK_LEN. by rewrite Ep. }
  set (n := Z.of_nat CH_KEX_CLIENT_SHARE). assert (En : n = Z.of_nat (length share)) by (by rewrite El).
  assert (E2 : 2 + 2 + n = Z.of_nat (length (be_bytes 2 CH_KEX_GROUP ++ vec16 share))) by (rewrite length_app, length_be_bytes, length_vec16; lia).
  assert (E3 : 2 + 2 + 2 + n = Z.of_nat (length (vec16 (be_bytes 2 CH_KEX_GROUP ++ vec16 share)))) by (rewrite length_vec16; lia).
  rewrite E2, E3, En. cbn [mjoin list_join fmap list_fmap fst snd code_points]. unfold key_share_entry. cbn [fst snd]. rewrite !app_nil_r.
  unfold share. destruct CH_PROFILE_CNSA2; [|destruct CH_KEX_HYBRID]; (eapply appended_eq; [emits|]); unfold vec16; rewrite <- !app_assoc; reflexivity.
Qed.

(** Calls of the builders above. *)
Ltac emit_step := first
  [ match goal with
    | |- appended _ _ (hello_suites _ _) => eapply emit_call; [|intros; by apply write_suites_emits]
    | |- appended _ _ (hello_names _ _) => eapply emit_call; [|intros; by apply hello_names_emits]
    | |- appended _ _ (hello_groups _ _ _ _ _) => eapply emit_call; [|intros; by apply hello_groups_emits]
    | |- appended _ _ (hello_transport _ _ _) => eapply emit_call; [|intros; by apply hello_transport_emits]
    | |- appended _ _ (hello_cookie _ _) => eapply emit_call; [|intros; by apply hello_cookie_emits]
    | |- appended _ _ (hello_auth _ _) => eapply emit_call; [|intros; by apply hello_auth_emits]
    end
  | progress emits ].

Lemma hello_built out cap cfg ek p256_pub pub random32 limit cookie :
  (cap <= length out)%nat -> build_ok -> keys_ok ek pub p256_pub -> length random32 = 32%nat ->
  let body := client_hello_body cfg ek p256_pub pub random32 limit cookie in
  let message := HS_CLIENT_HELLO :: be_bytes 3 (Z.of_nat (length body)) ++ body in
  hs_build_client_hello out cap cfg ek p256_pub pub random32 limit cookie = if (length message <=? cap)%nat then Some message else None.
Proof.
  intros Ho Hb Hk Hr body message. unfold hs_build_client_hello. rewrite !wb_mark_bytes. cbv beta iota zeta. eapply builder_result; [exact Ho|].
  pose proof (wb_init_inv out cap Ho) as Hi. eapply appended_eq; [repeat emit_step|].
  { repeat first [apply wb_u8_keeps|apply wb_u16_keeps|apply wb_bytes_keeps|eapply appended_inv, write_suites_emits|done]. }
  assert (E1 : wire_exts [(EXT_SUPPORTED_VERSIONS, 2 :: be_bytes 2 TLS13)] = be_bytes 2 EXT_SUPPORTED_VERSIONS ++ be_bytes 2 3 ++ [2] ++ be_bytes 2 TLS13) by reflexivity.
  assert (E2 : wire_exts [(EXT_PSK_MODES, [1; 1])] = be_bytes 2 EXT_PSK_MODES ++ be_bytes 2 2 ++ [1] ++ [1]) by reflexivity.
  unfold message, body, client_hello_body, hello_message, hello_head, client_exts. rewrite !wire_exts_app, E1, E2. cbn [length].
  generalize (wire_exts (names_exts cfg)), (wire_exts (groups_exts cfg ek pub p256_pub)), (wire_exts (transport_exts cfg limit)), (wire_exts (cookie_exts cookie)), (wire_exts (auth_exts cfg)).
  intros. rewrite !app_nil_l, <- !app_assoc. reflexivity.
Qed.

(** ** The size of a hello *)

Definition CH_TICKET_ID_MAX : nat := 320.
Definition CH_TRANSPORT_PARAMS_MAX : nat := 256.
Definition CH_HOSTNAME_MAX : nat := 253.
Definition SUITE_HELD_COUNT : nat := if SUITE_CNSA2_SERVER then 1 else if CH_SUITE_AES_GCM then 3 else 1.
Definition CH_HELLO_ALPN_MAX : nat := if CH_TRUST_WEBPKI || CH_TRANSPORT_QUIC_NONBLOCKING then 4 + 2 + CH_ALPN_MAX * (1 + CH_ALPN_NAME_MAX) else 0.
Definition CH_HELLO_SERVER_NAME_MAX : nat := if CH_TRUST_WEBPKI then 4 + 2 + 1 + 2 + CH_HOSTNAME_MAX else 0.
Definition CH_HELLO_CERT_PATH_MAX : nat := if CH_TRUST_WEBPKI then (4 + 2 + 5 * 2) + (4 + 1 + 2) else 0.
(** 4 + CH_TRANSPORT_PARAMS_MAX - 6 *)
Definition CH_HELLO_TRANSPORT_MAX : nat := if CH_TRANSPORT_QUIC_NONBLOCKING then 4 + CH_TRANSPORT_PARAMS_MAX - 6 else 0.
Definition CH_HELLO_FIRST_SHARE_MAX : nat := if CH_KEX_TWO_GROUPS then CH_HYBRID_CLIENT_SHARE else CH_KEX_CLIENT_SHARE.
Definition CH_HELLO_MORE_GROUPS_MAX : nat := if CH_KEX_TWO_GROUPS then 2 + 2 else 0.
Definition CH_HELLO_SECOND_SHARE_MAX : nat := if CH_KEX_TWO_GROUPS then 2 + 2 + 32 else 0.
Definition CH_HELLO_AES_SUITES_MAX : nat := if CH_CLIENT_AES_SUITES then 4 else 0.
Definition CH_HELLO_SHA384_BINDER_MAX : nat := if CH_CLIENT_AES_SUITES || CH_PROFILE_CNSA2 then SHA384_LEN - SHA256_LEN else 0.
Definition CH_HELLO_MAX : nat :=
  137 + CH_HELLO_SERVER_NAME_MAX + CH_HELLO_ALPN_MAX + CH_HELLO_TRANSPORT_MAX + CH_HELLO_CERT_PATH_MAX + CH_HELLO_MORE_GROUPS_MAX +
  CH_HELLO_SECOND_SHARE_MAX + CH_HELLO_AES_SUITES_MAX + CH_HELLO_SHA384_BINDER_MAX + CH_TICKET_ID_MAX + HSP_COOKIE_MAX + CH_HELLO_FIRST_SHARE_MAX.

(** What the configuration checks hold every session to. *)
Definition cfg_ok (cfg : ch_cfg) (cookie : option (list Z)) : Prop :=
  (length (cfg_hostname cfg) <= CH_HOSTNAME_MAX)%nat /\
  (length (alpn_protocols cfg) <= CH_ALPN_MAX)%nat /\ Forall (fun n => (1 <= length n <= CH_ALPN_NAME_MAX)%nat) (alpn_protocols cfg) /\
  (length (transport_params cfg) <= CH_TRANSPORT_PARAMS_MAX)%nat /\ (length (psk_id cfg) <= CH_TICKET_ID_MAX)%nat /\
  match cookie with Some c => (1 <= length c <= HSP_COOKIE_MAX)%nat | None => True end /\
  (1 <= length (suites_of cfg) <= 3)%nat /\ Forall code_ok (suites_of cfg).

Lemma length_wire_exts_cons x xs : length (wire_exts (x :: xs)) = (4 + length x.2 + length (wire_exts xs))%nat.
Proof. by rewrite wire_exts_cons, length_app, length_wire_ext. Qed.
Lemma length_wire_exts_nil : length (wire_exts []) = 0%nat.
Proof. done. Qed.

Lemma length_protocol_names names : Forall (fun n => (1 <= length n <= CH_ALPN_NAME_MAX)%nat) names ->
  (length (mjoin (protocol_name <$> names)) <= length names * (1 + CH_ALPN_NAME_MAX))%nat.
Proof.
  induction 1 as [|n names Hn Hns IH]; [cbn; lia|]. change (mjoin (protocol_name <$> n :: names)) with (protocol_name n ++ mjoin (protocol_name <$> names)).
  rewrite length_app. unfold protocol_name at 1. cbn [length]. lia.
Qed.

Ltac ext_lengths := repeat (first [rewrite length_wire_exts_cons|rewrite wire_exts_app|rewrite length_app|rewrite length_vec16|rewrite length_be_bytes
  |rewrite length_code_points|rewrite length_wire_exts_nil|rewrite length_replicate]; cbn [fst snd length]).

Lemma length_names_exts cfg cookie : cfg_ok cfg cookie -> (length (wire_exts (names_exts cfg)) <= CH_HELLO_SERVER_NAME_MAX + CH_HELLO_ALPN_MAX)%nat.
Proof.
  intros (Hh & Hn & Hns & _). pose proof (length_protocol_names _ Hns) as Hp. unfold names_exts, server_name_exts, alpn_exts, CH_HELLO_SERVER_NAME_MAX, CH_HELLO_ALPN_MAX.
  assert (length (mjoin (protocol_name <$> alpn_protocols cfg)) <= CH_ALPN_MAX * (1 + CH_ALPN_NAME_MAX))%nat by (unfold CH_ALPN_MAX, CH_ALPN_NAME_MAX in *; nia).
  destruct CH_TRUST_WEBPKI, CH_TRANSPORT_QUIC_NONBLOCKING; cbn [orb]; try destruct (Z.of_nat _ =? 0); try destruct (_ =? 0)%nat; ext_lengths; try lia.
Qed.

Lemma length_shares cfg ek pub p256_pub : build_ok -> keys_ok ek pub p256_pub ->
  (length (wire_exts (groups_exts cfg ek pub p256_pub)) <= 18 + CH_HELLO_MORE_GROUPS_MAX + CH_HELLO_SECOND_SHARE_MAX + CH_HELLO_FIRST_SHARE_MAX)%nat.
Proof.
  intros Hb (He & Hpub & Hpt). unfold groups_exts, groups_of, shares_of, CH_HELLO_MORE_GROUPS_MAX, CH_HELLO_SECOND_SHARE_MAX, CH_HELLO_FIRST_SHARE_MAX,
    CH_KEX_CLIENT_SHARE, CH_HYBRID_CLIENT_SHARE, CH_KEX_MLKEM, CH_KEX_HYBRID, CH_KEX_TWO_GROUPS, MLKEM_EK_LEN, MLKEM_EK_LEN_768, MLKEM_EK_LEN_1024, P256_POINT_LEN in *.
  destruct CH_PROFILE_CNSA2 eqn:Ep; [destruct (Hb Ep) as (Eq & Et & _); rewrite ?Eq, ?Et in *|destruct CH_TRUST_WEBPKI, CH_KEX_PQ]; cbn [orb] in *; try rewrite (He eq_refl);
    try destruct p256_pub; try destruct (require_pq cfg); unfold key_share_entry; cbn [fmap list_fmap mjoin list_join fst snd app]; ext_lengths; try specialize (He eq_refl); lia.
Qed.

Lemma hash_len_range cfg : build_ok -> (32 <= hs_psk_hash_len cfg <= 32 + CH_HELLO_SHA384_BINDER_MAX)%nat.
Proof.
  intros Hb. unfold hs_psk_hash_len, CH_HELLO_SHA384_BINDER_MAX, SHA384_LEN, SHA256_LEN. destruct CH_PROFILE_CNSA2; [rewrite orb_true_r; lia|].
  rewrite orb_false_r. destruct CH_CLIENT_AES_SUITES; cbn [andb]; [|lia]. destruct (ticket cfg); [destruct (_ =? _)%nat|]; lia.
Qed.

Lemma length_psk_exts cfg : build_ok -> (length (psk_id cfg) <= CH_TICKET_ID_MAX)%nat ->
  (length (wire_exts (psk_exts cfg)) <= 47 + CH_HELLO_SHA384_BINDER_MAX + CH_TICKET_ID_MAX)%nat.
Proof. intros Hb Hi. pose proof (hash_len_range cfg Hb). unfold psk_exts. destruct (psk cfg); ext_lengths; lia. Qed.

Lemma length_auth_exts cfg : build_ok -> (length (psk_id cfg) <= CH_TICKET_ID_MAX)%nat ->
  (length (wire_exts (auth_exts cfg)) <= 47 + CH_HELLO_CERT_PATH_MAX + CH_HELLO_SHA384_BINDER_MAX + CH_TICKET_ID_MAX)%nat.
Proof.
  intros Hb Hi. pose proof (length_psk_exts cfg Hb Hi) as Hp. unfold auth_exts, cert_type_exts, sigalgs_of, CH_HELLO_CERT_PATH_MAX.
  destruct CH_TRUST_WEBPKI; [destruct (_ =? 0)%nat|destruct (psk cfg)]; ext_lengths; lia.
Qed.

Lemma length_suites cfg cookie : build_ok -> cfg_ok cfg cookie -> (2 * length (suites_of cfg) <= 2 + CH_HELLO_AES_SUITES_MAX)%nat.
Proof.
  intros Hb (_ & _ & _ & _ & _ & _ & Hs & _). unfold CH_HELLO_AES_SUITES_MAX. unfold suites_of in *. destruct CH_CLIENT_AES_SUITES; [lia|]. by destruct CH_PROFILE_CNSA2; cbn; lia.
Qed.

Lemma length_client_exts cfg ek p256_pub pub limit cookie : build_ok -> keys_ok ek pub p256_pub -> cfg_ok cfg cookie ->
  (length (wire_exts (client_exts cfg ek p256_pub pub limit cookie)) + 47 + CH_HELLO_AES_SUITES_MAX <= CH_HELLO_MAX)%nat.
Proof.
  intros Hb Hk Hc. pose proof (length_names_exts cfg cookie Hc) as L1. pose proof (length_shares cfg _ _ _ Hb Hk) as L2. pose proof (length_suites _ _ Hb Hc) as L3.
  destruct Hc as (_ & _ & _ & Htp & Hid & Hck & _ & _). pose proof (length_auth_exts cfg Hb Hid) as L4.
  assert (L5 : (length (wire_exts (transport_exts cfg limit)) <= 6 + CH_HELLO_TRANSPORT_MAX)%nat).
  { unfold transport_exts, CH_HELLO_TRANSPORT_MAX, CH_TRANSPORT_PARAMS_MAX in *. destruct CH_TRANSPORT_QUIC_NONBLOCKING; cbn [negb]; ext_lengths; lia. }
  assert (L6 : (length (wire_exts (cookie_exts cookie)) <= 6 + HSP_COOKIE_MAX)%nat) by (unfold cookie_exts; destruct cookie; ext_lengths; lia).
  unfold client_exts, CH_HELLO_MAX. ext_lengths. lia.
Qed.

Lemma length_hello cfg ek p256_pub pub random32 limit cookie : build_ok -> keys_ok ek pub p256_pub -> cfg_ok cfg cookie -> length random32 = 32%nat ->
  (4 + length (client_hello_body cfg ek p256_pub pub random32 limit cookie) <= CH_HELLO_MAX)%nat.
Proof.
  intros Hb Hk Hc Hr. pose proof (length_client_exts cfg ek p256_pub pub limit cookie Hb Hk Hc) as L. pose proof (length_suites _ _ Hb Hc) as L3.
  unfold client_hello_body, hello_message, hello_head. rewrite !length_app, !length_be_bytes, length_code_points, Hr. cbn [length]. lia.
Qed.

Lemma hello_max_bound : (CH_HELLO_MAX <= 4000)%nat.
Proof.
  unfold CH_HELLO_MAX, CH_HELLO_SERVER_NAME_MAX, CH_HELLO_ALPN_MAX, CH_HELLO_TRANSPORT_MAX, CH_HELLO_CERT_PATH_MAX, CH_HELLO_MORE_GROUPS_MAX, CH_HELLO_SECOND_SHARE_MAX,
    CH_HELLO_AES_SUITES_MAX, CH_HELLO_SHA384_BINDER_MAX, CH_TICKET_ID_MAX, HSP_COOKIE_MAX, CH_HELLO_FIRST_SHARE_MAX, CH_KEX_CLIENT_SHARE, CH_HYBRID_CLIENT_SHARE, MLKEM_EK_LEN.
  destruct CH_TRUST_WEBPKI, CH_TRANSPORT_QUIC_NONBLOCKING, CH_KEX_TWO_GROUPS, CH_CLIENT_AES_SUITES, CH_PROFILE_CNSA2, CH_KEX_PQ; vm_compute; lia.
Qed.

(** ** The shape of the block *)

(** The types a hello can hold, in the order it writes them. *)
Definition hello_types : list Z :=
  [EXT_SERVER_NAME; EXT_ALPN; EXT_SUPPORTED_VERSIONS; EXT_SUPPORTED_GROUPS; EXT_KEY_SHARE; EXT_PSK_MODES; EXT_RECORD_SIZE_LIMIT;
   EXT_QUIC_TRANSPORT_PARAMS; EXT_COOKIE; EXT_SIGNATURE_ALGORITHMS; EXT_SERVER_CERTIFICATE_TYPE; EXT_PRE_SHARED_KEY].

Lemma client_types cfg ek p256_pub pub limit cookie : (fst <$> client_exts cfg ek p256_pub pub limit cookie) `sublist_of` hello_types.
Proof.
  assert (Hn : forall a : Z, [] `sublist_of` [a]) by (intros; apply sublist_nil_l).
  unfold client_exts. rewrite !fmap_app.
  change hello_types with ([EXT_SERVER_NAME; EXT_ALPN] ++ [EXT_SUPPORTED_VERSIONS] ++ [EXT_SUPPORTED_GROUPS; EXT_KEY_SHARE] ++ [EXT_PSK_MODES] ++
    [EXT_RECORD_SIZE_LIMIT; EXT_QUIC_TRANSPORT_PARAMS] ++ [EXT_COOKIE] ++ [EXT_SIGNATURE_ALGORITHMS; EXT_SERVER_CERTIFICATE_TYPE; EXT_PRE_SHARED_KEY]).
  repeat apply sublist_app.
  - unfold names_exts, server_name_exts, alpn_exts.
    destruct CH_TRUST_WEBPKI, CH_TRANSPORT_QUIC_NONBLOCKING; try destruct (Z.of_nat _ =? 0); try destruct (_ =? 0)%nat; cbn; repeat constructor.
  - done.
  - done.
  - done.
  - unfold transport_exts. destruct CH_TRANSPORT_QUIC_NONBLOCKING; cbn; repeat constructor.
  - unfold cookie_exts. destruct cookie; cbn; repeat constructor.
  - unfold auth_exts, cert_type_exts, psk_exts. destruct CH_TRUST_WEBPKI; [destruct (_ =? 0)%nat|]; destruct (psk cfg); cbn; repeat constructor.
Qed.

Lemma ext_in_block x xs : x ∈ xs -> (4 + length x.2 <= length (wire_exts xs))%nat.
Proof.
  induction 1 as [x xs|x y xs H IH]; rewrite wire_exts_cons, length_app, length_wire_ext; [lia|]. lia.
Qed.

Lemma client_block_ok cfg ek p256_pub pub limit cookie : build_ok -> keys_ok ek pub p256_pub -> cfg_ok cfg cookie ->
  block_ok (client_exts cfg ek p256_pub pub limit cookie).
Proof.
  intros Hb Hk Hc. pose proof (length_client_exts cfg ek p256_pub pub limit cookie Hb Hk Hc) as L. pose proof hello_max_bound as Lm.
  pose proof (client_types cfg ek p256_pub pub limit cookie) as Ht. set (xs := client_exts cfg ek p256_pub pub limit cookie) in *. unfold block_ok. split_and!.
  - rewrite Forall_forall. intros x Hx. pose proof (ext_in_block x xs Hx) as Lx. split; [|lia].
    assert (Hx1 : x.1 ∈ hello_types) by (eapply sublist_subseteq; [exact Ht|]; apply list_elem_of_fmap; eauto).
    revert Hx1. generalize x.1. apply Forall_forall. apply (bool_decide_unpack _). vm_compute. exact I.
  - lia.
  - apply sublist_length in Ht. rewrite length_fmap in Ht. unfold SRV_CLIENT_HELLO_EXT_MAX. cbn in Ht. lia.
  - eapply sublist_NoDup; [|exact Ht]. apply (bool_decide_unpack _). vm_compute. exact I.
Qed.

(** In a buffer of [CH_HELLO_MAX] bytes the whole message is written. *)
Lemma hello_written out cap cfg ek p256_pub pub random32 limit cookie :
  build_ok -> keys_ok ek pub p256_pub -> cfg_ok cfg cookie -> length random32 = 32%nat -> (CH_HELLO_MAX <= cap <= length out)%nat ->
  let body := client_hello_body cfg ek p256_pub pub random32 limit cookie in
  hs_build_client_hello out cap cfg ek p256_pub pub random32 limit cookie = Some (HS_CLIENT_HELLO :: be_bytes 3 (Z.of_nat (length body)) ++ body) /\
  (4 + length body <= CH_HELLO_MAX)%nat.
Proof.
  intros Hb Hk Hc Hr Hcap body. pose proof (length_hello cfg ek p256_pub pub random32 limit cookie Hb Hk Hc Hr) as L. fold body in L.
  rewrite hello_built by (done || lia). cbv zeta. fold body. split; [|exact L].
  destruct (Nat.leb_spec (length (HS_CLIENT_HELLO :: be_bytes 3 (Z.of_nat (length body)) ++ body)) cap) as [|Hl]; [done|].
  cbn [length] in Hl. rewrite length_app, length_be_bytes in Hl. lia.
Qed.
End Message.

(** ** Properties *)

(** C26. The ClientHello a configuration builds.  In every build a buffer of
    [CH_HELLO_MAX] bytes is enough for every session the configuration checks
    let through, and what is written is one well-formed handshake message: the
    legacy head, the suites the session offers, and one block of distinct
    extensions that encodes the configuration, with each length prefix the
    length of what follows it. *)
Theorem client_hello_encodes {build : HsBuild} cpu_runtime role_server out cap cfg ek p256_pub pub random32 limit cookie :
  build_ok -> keys_ok ek pub p256_pub -> cfg_ok cpu_runtime role_server cfg cookie -> length random32 = 32%nat ->
  (CH_HELLO_MAX <= cap <= length out)%nat ->
  let xs := client_exts cfg ek p256_pub pub limit cookie in
  let body := hello_message 0x0303 random32 [] (suites_of cpu_runtime role_server cfg) xs in
  hs_build_client_hello cpu_runtime role_server out cap cfg ek p256_pub pub random32 limit cookie =
    Some (HS_CLIENT_HELLO :: be_bytes 3 (Z.of_nat (length body)) ++ body) /\
  (4 + length body <= CH_HELLO_MAX)%nat /\ block_ok xs.
Proof. intros Hb Hk Hc Hr Hcap xs body. destruct (hello_written cpu_runtime role_server out cap cfg ek p256_pub pub random32 limit cookie Hb Hk Hc Hr Hcap) as [E L]. split; [exact E|]. split; [exact L|eapply client_block_ok; eassumption]. Qed.

Definition sample_cfg : ch_cfg :=
  {| psk := None; psk_id := []; ticket := None; ticket_age_ms := 0; require_pq := false; cpu := 0; cfg_hostname := []; spki_pin_count := 0;
     cipher_suites := None; alpn_protocols := []; transport_params := [] |}.

Lemma client_hello_encodes_witness :
  CH_HELLO_MAX (build := raw_build) = 617%nat /\
  match hs_build_client_hello (build := raw_build) false false (replicate 617 0) 617 sample_cfg [] None (replicate 32 9) (replicate 32 7) 16385 None with
  | Some m => length m = 124%nat
  | None => False
  end.
Proof.
  split; [reflexivity|].
  destruct (client_hello_encodes (build := raw_build) false false (replicate 617 0) 617 sample_cfg [] None (replicate 32 9) (replicate 32 7) 16385 None) as (E & _).
  - discriminate.
  - split; [discriminate|]. split; [reflexivity|exact I].
  - unfold cfg_ok. split_and!; try (vm_compute; lia); [apply Forall_nil_2|].
    change (Forall code_ok [SUITE_CHACHA20_POLY1305_SHA256]). rewrite Forall_singleton. unfold code_ok, SUITE_CHACHA20_POLY1305_SHA256. lia.
  - reflexivity.
  - vm_compute. lia.
  - rewrite E. vm_compute. reflexivity.
Defined.
End HsMessage.
