(* ===== verification/Hello.v ===== *)
(** * A client's hello at a server: handshake_message.c with srv_parser.c

    The composition of the ClientHello builder and the ClientHello parser, for
    every client build and every server build: what the server's readers do
    with each extension a client writes, and what the server then reports. *)

From S2P Require Import Prelude Ct Buf Reader MdHash Sha256 Sha512 Build Wire SrvExt SrvParser HsMessage.
Import Sha256 Sha512 SrvExt Srv HsMessage.
Local Open Scope Z_scope.
Local Open Scope word_scope.

Module Hello.

(** ** Loops over what a builder wrote *)

Lemma runl_while_used {A E} (body : A -> prog (outcome (A * nat))) (enc : E -> list Z) (f : E -> A -> A) (P : E -> Prop) :
  (forall e a l, P e -> runl (body a) (Some (enc e ++ l)) = (Some (Done (f e a, length (enc e))), Some l)) ->
  (forall e, P e -> (1 <= length (enc e))%nat) ->
  forall es fuel used len a r, Forall P es -> (used + length (mjoin (enc <$> es)) = len)%nat -> (length (mjoin (enc <$> es)) <= fuel)%nat ->
  runl (while_used fuel used len body a) (Some (mjoin (enc <$> es) ++ r)) = (Some (Done (fold_left (fun a e => f e a) es a)), Some r).
Proof.
  intros Hb Hl es. induction es as [|e es IH]; intros fuel used len a r Hp Hlen Hf.
  - cbn in Hlen |- *. destruct fuel; cbn [while_used]; destruct (Nat.ltb_spec used len); try lia; by destruct (Nat.eqb_spec used len); [|lia].
  - apply Forall_cons in Hp as [He Hp]. change (mjoin (enc <$> e :: es)) with (enc e ++ mjoin (enc <$> es)) in *. rewrite length_app in *. specialize (Hl e He).
    destruct fuel as [|fuel]; [lia|]. cbn [while_used]. destruct (Nat.ltb_spec used len); [|lia].
    rewrite <- app_assoc, runl_obind, Hb by done. cbn [fst snd fold_left]. apply IH; [done|lia|lia].
Qed.

(** The whole of a list, read to its end. *)
Lemma runl_while_all {A E} (body : A -> prog (outcome (A * nat))) (enc : E -> list Z) (f : E -> A -> A) (P : E -> Prop) :
  (forall e a l, P e -> runl (body a) (Some (enc e ++ l)) = (Some (Done (f e a, length (enc e))), Some l)) ->
  (forall e, P e -> (1 <= length (enc e))%nat) ->
  forall es a, Forall P es -> let n := length (mjoin (enc <$> es)) in
  runl (while_used n 0 n body a) (Some (mjoin (enc <$> es))) = (Some (Done (fold_left (fun a e => f e a) es a)), Some []).
Proof.
  intros Hb Hl es a Hp n. pose proof (runl_while_used body enc f P Hb Hl es n 0 n a [] Hp eq_refl (le_n _)) as H. by rewrite app_nil_r in H.
Qed.

(** A list that holds one item. *)
Lemma runl_one {A} (body : A -> prog (outcome (A * nat))) enc n a r : length enc = n ->
  (forall a l, runl (body a) (Some (enc ++ l)) = (Some (Done (a, length enc)), Some l)) -> (1 <= n)%nat ->
  runl (while_used n 0 n body a) (Some (enc ++ r)) = (Some (Done a), Some r).
Proof.
  intros Hl Hb Hn. pose proof (runl_while_used body (fun e : list Z => e) (fun _ c => c) (fun e => e = enc)) as H.
  specialize (H ltac:(by intros e c l ->) ltac:(intros e ->; lia) [enc] n 0%nat n a r ltac:(by apply Forall_singleton)).
  cbn [fmap list_fmap mjoin list_join fold_left] in H. rewrite app_nil_r in H. apply H; lia.
Qed.

Section Compose.
Context (cb sb : HsBuild) (CH_CPU_RUNTIME CH_ROLE_SERVER : bool) (offered : list (list Z)).

Definition see (t : Z) (ch : client_hello) : client_hello := set_seen ch (ch_seen ch .| ext_bit t).

(** What a server does with an extension it knows. *)
Definition reads (x : ext) (g : client_hello -> client_hello) : Prop :=
  (forall ch, ch_seen (g ch) = ch_seen ch .| ext_bit x.1) /\
  forall n left ch, ch_seen ch .& ext_bit EXT_PRE_SHARED_KEY = 0 -> hello_step (build := sb) n offered left ch x = Some (g ch).

Lemma reads_known t d g : srv_ext_known t = true -> t <> EXT_PRE_SHARED_KEY -> bytes_ok d ->
  (forall ch, ch_seen (g ch) = ch_seen ch) ->
  (forall off ch, runl (srv_read_extension (build := sb) offered t off ch) (Some d) = (Some (Done (g ch)), Some [])) ->
  reads (t, d) (fun ch => g (see t ch)).
Proof.
  intros Hk Ht Hd Hs Hr. split; [intros ch; by rewrite Hs|]. intros n left ch Hp. unfold hello_step. cbn [fst snd]. rewrite Hp, Z.eqb_refl, Hk. cbn [negb].
  rewrite parse_list by done. unfold read_filled. rewrite runl_obind, Hr, runl_err, runl_left. reflexivity.
Qed.

Lemma reads_unknown t d : srv_ext_known t = false -> reads (t, d) id.
Proof.
  intros Hk. split.
  - intros ch. unfold srv_ext_known in Hk. rewrite negb_false_iff, Z.eqb_eq in Hk. cbn [fst]. by rewrite Hk, Z.lor_0_r.
  - intros n left ch Hp. unfold hello_step. cbn [fst]. by rewrite Hp, Hk.
Qed.

Definition run_reads (gs : list (client_hello -> client_hello)) (ch : client_hello) : client_hello := fold_left (fun c g => g c) gs ch.

Lemma walk_reads n xs gs ys : Forall2 reads xs gs -> Forall (fun x => ext_bit x.1 .& ext_bit EXT_PRE_SHARED_KEY = 0) xs ->
  forall ch, ch_seen ch .& ext_bit EXT_PRE_SHARED_KEY = 0 ->
  walk (hello_step (build := sb) n offered) ch (xs ++ ys) = walk (hello_step (build := sb) n offered) (run_reads gs ch) ys /\
  ch_seen (run_reads gs ch) .& ext_bit EXT_PRE_SHARED_KEY = 0.
Proof.
  induction 1 as [|x g xs gs Hx Hxs IH]; intros Hp ch Hc; [done|]. apply Forall_cons in Hp as [Hpx Hp]. destruct Hx as [Hs Hx].
  cbn [app walk]. rewrite Hx by done. cbn [mbind option_bind run_reads fold_left]. apply IH; [done|]. by rewrite Hs, Z.land_lor_distr_l, Hc, Hpx.
Qed.

(** ** The extensions of a hello *)

Lemma read_vec16 {B} (f : Z -> prog B) l r : Z.of_nat (length l) < 2 ^ 16 -> runl (u16_ ≫= f) (Some (vec16 l ++ r)) = runl (f (Z.of_nat (length l))) (Some (l ++ r)).
Proof. intros Hl. unfold vec16. rewrite <- app_assoc. apply runl_u16_at. lia. Qed.

Lemma read_nbytes {B} (f : option (list Z) -> prog B) l r n : n = length l -> runl (nbytes_ n ≫= f) (Some (l ++ r)) = runl (f (Some l)) (Some r).
Proof. intros ->. rewrite runl_nbytes, length_app. destruct (Nat.ltb_spec (length l + length r) (length l)); [lia|]. by rewrite take_app_length, drop_app_length. Qed.

Lemma vec16_ok l : bytes_ok l -> bytes_ok (vec16 l).
Proof. intros H. apply Forall_app_2; [apply be_bytes_ok|done]. Qed.

Lemma reads_server_name h : bytes_ok h -> (1 <= length h <= 253)%nat ->
  reads (EXT_SERVER_NAME, vec16 (0 :: vec16 h)) (fun ch => set_server_name (see EXT_SERVER_NAME ch) (Some h)).
Proof.
  intros Hb Hl. apply (reads_known _ _ (fun ch => set_server_name ch (Some h))); [done|done| |done|].
  - apply vec16_ok, Forall_cons. split; [unfold byte_ok; lia|by apply vec16_ok].
  - intros off ch. cbn [srv_read_extension]. change (srv_read_extension offered EXT_SERVER_NAME off ch) with (read_server_name ch). unfold read_server_name.
    rewrite <- (app_nil_r (vec16 _)), read_vec16 by (cbn [length]; rewrite length_vec16; lia). cbn [app]. rewrite runl_u8_cons, read_vec16 by lia.
    rewrite read_nbytes by lia. destruct (Z.eqb_spec (Z.of_nat (length h)) 0); [lia|].
    destruct (Z.eqb_spec (Z.of_nat (length (0 :: vec16 h))) (3 + Z.of_nat (length h))) as [|Hn]; [done|]. cbn [length] in Hn. rewrite length_vec16 in Hn. lia.
Qed.

Lemma code_points_ok vs : bytes_ok (code_points vs).
Proof. induction vs as [|v vs IH]; [apply Forall_nil_2|]. apply Forall_app_2; [apply be_bytes_ok|done]. Qed.

(** A list of code points, folded. *)
Lemma read_code_points {A} (f : Z -> A -> A) (a : A) (k : A -> client_hello) vs : Forall code_ok vs -> (1 <= length vs < 1000)%nat ->
  runl (o ← srv_open_code_point_list; if negb o.2 then refuse ALERT_DECODE_ERROR else a ← for_u16_list (Z.to_nat o.1) f a; Ret (Done (k a)))
    (Some (vec16 (code_points vs))) = (Some (Done (k (fold_left (fun a v => f v a) vs a))), Some []).
Proof.
  intros Hv Hn. apply code_point_list_iff; [apply vec16_ok, code_points_ok|]. exists vs, []. unfold vec16. rewrite length_code_points, app_nil_r.
  split_and!; try done; try lia. do 2 f_equal. lia.
Qed.

Definition groups_mask (gs : list Z) : Z := fold_left (fun m g => m .| srv_group_bit (build := sb) g) gs 0.
Lemma fold_groups gs : forall ch, fold_left (fun c g => set_groups c (ch_groups c .| srv_group_bit (build := sb) g)) gs ch =
  set_groups ch (fold_left (fun m g => m .| srv_group_bit (build := sb) g) gs (ch_groups ch)).
Proof. induction gs as [|g gs IH]; intros ch; cbn [fold_left]; [by destruct ch|]. by rewrite IH. Qed.

Lemma reads_groups gs : Forall code_ok gs -> (1 <= length gs < 1000)%nat ->
  reads (EXT_SUPPORTED_GROUPS, vec16 (code_points gs))
    (fun ch => set_groups (see EXT_SUPPORTED_GROUPS ch) (fold_left (fun m g => m .| srv_group_bit (build := sb) g) gs (ch_groups ch))).
Proof.
  intros Hg Hn. apply (reads_known _ _ (fun ch => set_groups ch (fold_left (fun m g => m .| srv_group_bit (build := sb) g) gs (ch_groups ch))));
    [done|done|apply vec16_ok, code_points_ok|done|]. intros off ch. rewrite <- fold_groups.
  apply (read_code_points (fun v c => set_groups c (ch_groups c .| srv_group_bit (build := sb) v)) ch id gs Hg Hn).
Qed.

Lemma take_sigalg_seen v ch : ch_seen (take_sigalg (build := sb) v ch) = ch_seen ch.
Proof. unfold take_sigalg. by repeat case_match. Qed.
Lemma fold_sigalgs_seen vs : forall ch, ch_seen (fold_left (fun c v => take_sigalg (build := sb) v c) vs ch) = ch_seen ch.
Proof. induction vs as [|v vs IH]; intros ch; cbn [fold_left]; [done|]. by rewrite IH, take_sigalg_seen. Qed.

Lemma reads_sigalgs vs : Forall code_ok vs -> (1 <= length vs < 1000)%nat ->
  reads (EXT_SIGNATURE_ALGORITHMS, vec16 (code_points vs))
    (fun ch => fold_left (fun c v => take_sigalg (build := sb) v c) vs (see EXT_SIGNATURE_ALGORITHMS ch)).
Proof.
  intros Hg Hn. apply (reads_known _ _ (fun ch => fold_left (fun c v => take_sigalg (build := sb) v c) vs ch)); [done|done|apply vec16_ok, code_points_ok|apply fold_sigalgs_seen|].
  intros off ch. apply (read_code_points (take_sigalg (build := sb)) ch id vs Hg Hn).
Qed.

Lemma reads_versions : reads (EXT_SUPPORTED_VERSIONS, 2 :: be_bytes 2 TLS13) (see EXT_SUPPORTED_VERSIONS).
Proof. apply (reads_known _ _ id); [done|done|apply (bool_decide_unpack _); vm_compute; exact I|done|]. intros off ch. reflexivity. Qed.

Lemma reads_psk_modes : reads (EXT_PSK_MODES, [1; 1]) (fun ch => set_psk_modes (see EXT_PSK_MODES ch) (ch_psk_modes ch .| SRV_PSK_DHE_KE)).
Proof.
  apply (reads_known _ _ (fun ch => set_psk_modes ch (ch_psk_modes ch .| SRV_PSK_DHE_KE))); [done|done|apply (bool_decide_unpack _); vm_compute; exact I|done|].
  intros off ch. reflexivity.
Qed.

Lemma reads_limit limit : 64 <= limit < 2 ^ 16 -> reads (EXT_RECORD_SIZE_LIMIT, be_bytes 2 limit) (fun ch => set_record_size_limit (see EXT_RECORD_SIZE_LIMIT ch) (limit - 1)).
Proof.
  intros Hl. apply (reads_known _ _ (fun ch => set_record_size_limit ch (limit - 1))); [done|done|apply be_bytes_ok|done|].
  intros off ch. change (srv_read_extension offered EXT_RECORD_SIZE_LIMIT off ch) with (read_record_size_limit ch). unfold read_record_size_limit.
  rewrite <- (app_nil_r (be_bytes 2 limit)), runl_u16_at, runl_err by lia. cbn [is_err]. destruct (Z.ltb_spec limit 64); [lia|]. by rewrite u16_small by lia.
Qed.

Lemma reads_cookie c : bytes_ok c -> (1 <= length c < 1000)%nat -> reads (EXT_COOKIE, vec16 c) (fun ch => set_cookie (see EXT_COOKIE ch) (Some c)).
Proof.
  intros Hb Hl. apply (reads_known _ _ (fun ch => set_cookie ch (Some c))); [done|done|by apply vec16_ok|done|].
  intros off ch. change (srv_read_extension offered EXT_COOKIE off ch) with (read_cookie ch). unfold read_cookie.
  rewrite <- (app_nil_r (vec16 _)), read_vec16, read_nbytes by lia. by destruct (Z.eqb_spec (Z.of_nat (length c)) 0); [lia|].
Qed.

Lemma reads_params p : bytes_ok p -> @CH_TRANSPORT_QUIC_NONBLOCKING sb = true ->
  reads (EXT_QUIC_TRANSPORT_PARAMS, p) (fun ch => set_transport_params (see EXT_QUIC_TRANSPORT_PARAMS ch) (Some p)).
Proof.
  intros Hb Hq. apply (reads_known _ _ (fun ch => set_transport_params ch (Some p))); [done|done|done|done|].
  intros off ch. change (srv_read_extension (build := sb) offered EXT_QUIC_TRANSPORT_PARAMS off ch) with
    (if @CH_TRANSPORT_QUIC_NONBLOCKING sb then n ← left_; params ← nbytes_ n; Ret (Done (set_transport_params ch params)) else refuse ALERT_UNSUPPORTED_EXTENSION).
  rewrite Hq, runl_left. cbn [left_of]. rewrite <- (app_nil_r p) at 2. by rewrite read_nbytes.
Qed.

(** The name the server selects so far, after one more name of the client's. *)
Fixpoint alpn_pick (j : nat) (protocols : list (list Z)) (name : list Z) (selected : Z) : Z :=
  match protocols with
  | [] => selected
  | p :: protocols =>
      if bytes_eqb p name then (if (selected =? CH_ALPN_NONE) || (Z.of_nat j <? selected) then u8 (Z.of_nat j) else selected)
      else alpn_pick (S j) protocols name selected
  end.

Lemma alpn_offered_pick protocols name ch : bytes_ok name -> Forall bytes_ok protocols -> forall j,
  alpn_offered j protocols name ch = set_alpn_selected ch (alpn_pick j protocols name (ch_alpn_selected ch)).
Proof.
  intros Hn. induction 1 as [|p protocols Hp Hps IH]; intros j; cbn [alpn_offered alpn_pick]; [by destruct ch|].
  destruct (Nat.eqb_spec (length p) (length name)) as [El|El]; cbn [andb].
  - pose proof (ct_memeq_spec p name (length name) Hp Hn ltac:(lia) ltac:(lia)) as Em. rewrite !take_ge in Em by lia. rewrite Em.
    destruct (bytes_eqb p name); cbn; [|apply IH]. destruct (_ || _); [done|by destruct ch].
  - destruct (bytes_eqb p name) eqn:E; [apply bytes_eqb_eq in E; congruence|apply IH].
Qed.

Definition alpn_picks (names : list (list Z)) (selected : Z) : Z := fold_left (fun s n => alpn_pick 0 offered n s) names selected.

Lemma fold_alpn names : Forall bytes_ok names -> Forall bytes_ok offered -> forall ch,
  fold_left (fun c n => alpn_offered 0 offered n c) names ch = set_alpn_selected ch (alpn_picks names (ch_alpn_selected ch)).
Proof.
  intros Hns Ho. induction Hns as [|n names Hn Hns IH]; intros ch; cbn [fold_left alpn_picks]; [by destruct ch|]. by rewrite IH, alpn_offered_pick.
Qed.

Lemma names_ok names : Forall bytes_ok names -> bytes_ok (mjoin (protocol_name <$> names)).
Proof.
  induction 1 as [|n names Hn Hns IH]; [apply Forall_nil_2|]. change (mjoin (protocol_name <$> n :: names)) with (protocol_name n ++ mjoin (protocol_name <$> names)).
  apply Forall_app_2; [|done]. apply Forall_cons. split; [apply u8_range|done].
Qed.

Lemma reads_alpn names : Forall bytes_ok names -> Forall bytes_ok offered -> names <> [] -> (length names <= CH_ALPN_MAX)%nat ->
  Forall (fun n => (1 <= length n <= CH_ALPN_NAME_MAX)%nat) names ->
  reads (EXT_ALPN, vec16 (mjoin (protocol_name <$> names))) (fun ch => set_alpn_selected (see EXT_ALPN ch) (alpn_picks names (ch_alpn_selected ch))).
Proof.
  intros Hb Ho Hne Hn Hl. pose proof (length_protocol_names _ Hl) as Lp. unfold CH_ALPN_MAX, CH_ALPN_NAME_MAX in *.
  apply (reads_known _ _ (fun ch => set_alpn_selected ch (alpn_picks names (ch_alpn_selected ch)))); [done|done|by apply vec16_ok, names_ok|done|].
  intros off ch. change (srv_read_extension (build := sb) offered EXT_ALPN off ch) with (read_alpn offered ch). unfold read_alpn.
  assert (L2 : (2 <= length (mjoin (protocol_name <$> names)))%nat).
  { destruct names as [|n names']; [done|]. apply Forall_cons in Hl as [Hl _]. change (mjoin (protocol_name <$> n :: names')) with (protocol_name n ++ mjoin (protocol_name <$> names')).
    rewrite length_app. unfold protocol_name at 1. cbn [length]. lia. }
  rewrite <- (app_nil_r (vec16 _)), read_vec16, runl_err, runl_left by lia. cbn [is_err left_of orb]. rewrite app_nil_r.
  destruct (Z.ltb_spec (Z.of_nat (length (mjoin (protocol_name <$> names)))) 2); [lia|]. cbn [orb]. rewrite Z.ltb_irrefl, Nat2Z.id, <- fold_alpn by done.
  apply (runl_while_all (alpn_name offered) protocol_name (fun n c => alpn_offered 0 offered n c) (fun n => (1 <= length n <= 32)%nat)); [| |done].
  - intros n c l Hnl. unfold alpn_name, protocol_name. cbn [app]. rewrite runl_u8_cons, u8_small by (unfold byte_ok; lia). rewrite read_nbytes by lia.
    destruct (Z.eqb_spec (Z.of_nat (length n)) 0); [lia|]. cbn [length]. rewrite Nat2Z.id. done.
  - intros n Hnl. cbn. lia.
Qed.

(** One share, kept when the server holds its group. *)
Definition keep_share (e : Z * list Z) (ch : client_hello) : client_hello :=
  let bit := srv_group_bit (build := sb) e.1 in
  if negb (bit =? 0) then match take_share (build := sb) bit e.2 ch with Done c => c | Refuse _ _ => ch end else ch.
Definition share_fits (e : Z * list Z) : Prop :=
  code_ok e.1 /\ (1 <= length e.2 < 2000)%nat /\ bytes_ok e.2 /\ (srv_group_bit (build := sb) e.1 <> 0 -> length e.2 = share_len_of (build := sb) (srv_group_bit (build := sb) e.1)).

Lemma keep_share_seen es : forall ch, ch_seen (fold_left (fun c e => keep_share e c) es ch) = ch_seen ch.
Proof.
  induction es as [|e es IH]; intros ch; cbn [fold_left]; [done|]. rewrite IH. unfold keep_share, take_share. by repeat case_match; simplify_eq.
Qed.

Lemma shares_bytes_ok es : Forall share_fits es -> bytes_ok (mjoin (HsMessage.key_share_entry <$> es)).
Proof.
  induction 1 as [|e es (_ & _ & Hb & _) Hes IH]; [apply Forall_nil_2|].
  apply Forall_app_2; [|done]. apply Forall_app_2; [apply be_bytes_ok|by apply vec16_ok].
Qed.

Lemma reads_shares es : Forall share_fits es -> Z.of_nat (length (mjoin (HsMessage.key_share_entry <$> es))) < 2 ^ 16 ->
  reads (EXT_KEY_SHARE, vec16 (mjoin (HsMessage.key_share_entry <$> es))) (fun ch => fold_left (fun c e => keep_share e c) es (see EXT_KEY_SHARE ch)).
Proof.
  intros He Hl. apply (reads_known _ _ (fun ch => fold_left (fun c e => keep_share e c) es ch)); [done|done|by apply vec16_ok, shares_bytes_ok|apply keep_share_seen|].
  intros off ch. change (srv_read_extension (build := sb) offered EXT_KEY_SHARE off ch) with (read_key_share (build := sb) ch). unfold read_key_share.
  rewrite <- (app_nil_r (vec16 _)), read_vec16, runl_err, runl_left by lia. cbn [is_err left_of orb]. rewrite app_nil_r, Z.ltb_irrefl, Nat2Z.id.
  apply (runl_while_all (SrvExt.key_share_entry (build := sb)) HsMessage.key_share_entry keep_share share_fits); [| |done].
  - intros [g s] c l (Hg & Hs & _ & Hfit). cbn [fst snd] in *. unfold SrvExt.key_share_entry, HsMessage.key_share_entry, keep_share. cbn [fst snd].
    rewrite <- app_assoc, runl_u16_at, read_vec16, read_nbytes by (done || lia). destruct (Z.eqb_spec (Z.of_nat (length s)) 0); [lia|].
    rewrite runl_obind. cbn [runl]. rewrite length_app, length_be_bytes, length_vec16, Nat2Z.id.
    destruct (Z.eqb_spec (srv_group_bit (build := sb) g) 0) as [|Hbit]; cbn [negb]; [done|]. unfold take_share. rewrite <- Hfit, Nat.eqb_refl by done. cbn [negb].
    by destruct (negb (ch_shares c .& srv_group_bit (build := sb) g =? 0)).
  - intros [g s] _. unfold HsMessage.key_share_entry. rewrite length_app, length_be_bytes. lia.
Qed.

(** pre_shared_key with one identity and one binder, at its place in the message. *)
Definition psk_identities (id : list Z) (age : Z) : list Z := vec16 id ++ be_bytes 4 age.
Definition psk_binders (hash_len : nat) : list Z := u8 (Z.of_nat hash_len) :: replicate hash_len 0.
Definition take_psk (off : nat) (id : list Z) (age : Z) (hash_len : nat) (ch : client_hello) : client_hello :=
  set_psk_binders (set_truncated_len (set_psk_identities (see EXT_PRE_SHARED_KEY ch) (Some (psk_identities id age))) (off + 2 + length (psk_identities id age)))
    (Some (psk_binders hash_len)).

Lemma step_psk n left ch id age hash_len : ch_seen ch .& ext_bit EXT_PRE_SHARED_KEY = 0 -> bytes_ok id -> (1 <= length id <= 320)%nat -> (32 <= hash_len <= 48)%nat ->
  hello_step (build := sb) n offered left ch (EXT_PRE_SHARED_KEY, vec16 (psk_identities id age) ++ vec16 (psk_binders hash_len)) =
  Some (take_psk (n - left + 4) id age hash_len ch).
Proof.
  intros Hc Hb Hl Hh. unfold hello_step. cbn [fst snd]. rewrite Hc, Z.eqb_refl. change (srv_ext_known EXT_PRE_SHARED_KEY) with true. cbn [negb].
  set (off := (n - left + 4)%nat). fold (see EXT_PRE_SHARED_KEY ch). set (c := see EXT_PRE_SHARED_KEY ch).
  assert (Li : length (psk_identities id age) = (6 + length id)%nat) by (unfold psk_identities; rewrite length_app, length_vec16, length_be_bytes; lia).
  assert (Lb : length (psk_binders hash_len) = (1 + hash_len)%nat) by (unfold psk_binders; cbn [length]; by rewrite length_replicate).
  assert (Hbi : bytes_ok (psk_identities id age)) by (apply Forall_app_2; [by apply vec16_ok|apply be_bytes_ok]).
  assert (Hbb : bytes_ok (psk_binders hash_len)) by (apply Forall_cons; split; [apply u8_range|apply Forall_replicate; unfold byte_ok; lia]).
  rewrite parse_list by (apply Forall_app_2; by apply vec16_ok). unfold read_filled.
  change (srv_read_extension (build := sb) offered EXT_PRE_SHARED_KEY off c) with (read_pre_shared_key off c). unfold read_pre_shared_key, read_psk_identities.
  rewrite !runl_obind.
  rewrite read_vec16, runl_err, runl_left by lia. cbn [is_err left_of orb]. rewrite Li, length_app, Li, Nat2Z.id.
  destruct (Z.ltb_spec (Z.of_nat (6 + length id)) 7); [lia|]. destruct (Z.ltb_spec (Z.of_nat (6 + length id + length (vec16 (psk_binders hash_len)))) (Z.of_nat (6 + length id))); [lia|].
  cbn [orb]. rewrite runl_peek, take_app_length' by done. rewrite runl_obind.
  rewrite (runl_one psk_identity (psk_identities id age)); [|lia| |lia].
  2:{ intros a l. unfold psk_identity, psk_identities. rewrite <- app_assoc, read_vec16, read_nbytes by lia. destruct (Z.eqb_spec (Z.of_nat (length id)) 0); [lia|].
      rewrite read_nbytes by (by rewrite length_be_bytes). rewrite length_app, length_vec16, length_be_bytes, Nat2Z.id. reflexivity. }
  cbn [runl fst snd]. unfold read_psk_binders. rewrite <- (app_nil_r (vec16 (psk_binders hash_len))), read_vec16, runl_err, runl_left by lia. cbn [is_err left_of orb].
  rewrite app_nil_r, Lb, Nat2Z.id. destruct (Z.ltb_spec (Z.of_nat (1 + hash_len)) 33); [lia|]. rewrite Z.ltb_irrefl. cbn [orb]. rewrite runl_peek, take_ge by lia.
  rewrite <- (app_nil_r (psk_binders hash_len)) at 2. rewrite (runl_one psk_binder (psk_binders hash_len)); [|lia| |lia].
  2:{ intros a l. unfold psk_binder, psk_binders. cbn [app]. rewrite runl_u8_cons, u8_small by (unfold byte_ok; lia). rewrite read_nbytes by (rewrite length_replicate; lia).
      destruct (Z.ltb_spec (Z.of_nat hash_len) 32); [lia|]. cbn [length]. by rewrite length_replicate, Nat2Z.id. }
  rewrite runl_err, runl_left. cbn [is_err left_of orb length Nat.eqb negb]. unfold take_psk. rewrite Li. reflexivity.
Qed.

(** ** What the server has read of each part of a hello *)

Definition sigalg_step (v m : Z) : Z :=
  let m := if @CH_SIGN_MLDSA sb && (v =? SIGALG_MLDSA87) then m .| SRV_SIGALG_MLDSA87 else m in
  if @CH_PROFILE_CNSA2 sb then m
  else
    let m := if (v =? SIGALG_ECDSA_P256_SHA256) then m .| SRV_SIGALG_ECDSA_P256 else m in
    if (v =? SIGALG_RSA_PSS_RSAE_SHA256) then m .| SRV_SIGALG_RSA_PSS else m.
Definition sigalgs_mask (vs : list Z) (m : Z) : Z := fold_left (fun m v => sigalg_step v m) vs m.

Lemma fold_sigalgs vs : forall ch, fold_left (fun c v => take_sigalg (build := sb) v c) vs ch = set_sigalgs ch (sigalgs_mask vs (ch_sigalgs ch)).
Proof.
  induction vs as [|v vs IH]; intros ch; cbn [fold_left sigalgs_mask]; [by destruct ch|]. rewrite IH.
  assert (E : take_sigalg (build := sb) v ch = set_sigalgs ch (sigalg_step v (ch_sigalgs ch))); [|by rewrite E].
  unfold take_sigalg, sigalg_step. cbv zeta. destruct (_ && _), (@CH_PROFILE_CNSA2 sb), (v =? SIGALG_ECDSA_P256_SHA256), (v =? SIGALG_RSA_PSS_RSAE_SHA256); by destruct ch.
Qed.

(** Shares touch the mask and the four shares, and nothing else. *)
Definition with_shares (ch c : client_hello) : client_hello :=
  set_shares (set_mlkem_share (set_x25519_share (set_hybrid_share (set_p256_share ch (ch_p256_share c)) (ch_hybrid_share c)) (ch_x25519_share c)) (ch_mlkem_share c)) (ch_shares c).
Lemma keep_share_frame e ch c : keep_share e (with_shares ch c) = with_shares ch (keep_share e c).
Proof. destruct ch, c. unfold keep_share, take_share, with_shares. cbn. repeat case_match; simplify_eq; done. Qed.
Lemma fold_shares_frame es ch : forall c, fold_left (fun c e => keep_share e c) es (with_shares ch c) = with_shares ch (fold_left (fun c e => keep_share e c) es c).
Proof. induction es as [|e es IH]; intros c; cbn [fold_left]; [done|]. by rewrite keep_share_frame, IH. Qed.
Lemma fold_shares es r si su g sa ck sn al rl pm tl pi pb seen fr tp :
  fold_left (fun c e => keep_share e c) es (ClientHello r si su g 0 sa None None None None ck sn al rl pm tl pi pb seen fr tp) =
  let c := fold_left (fun c e => keep_share e c) es zero_hello in
  ClientHello r si su g (ch_shares c) sa (ch_mlkem_share c) (ch_x25519_share c) (ch_hybrid_share c) (ch_p256_share c) ck sn al rl pm tl pi pb seen fr tp.
Proof. exact (fold_shares_frame es (ClientHello r si su g 0 sa None None None None ck sn al rl pm tl pi pb seen fr tp) zero_hello). Qed.

Context (cfg : ch_cfg) (ek pub random32 : list Z) (p256_pub : option (list Z)) (limit : Z) (cookie : option (list Z)).

Abbreviation webpki := (@CH_TRUST_WEBPKI cb).
Abbreviation quic := (@CH_TRANSPORT_QUIC_NONBLOCKING cb).

Definition sends_name : bool := webpki && negb (Z.of_nat (length (cfg_hostname cfg)) =? 0).
Definition sends_alpn : bool := (webpki || quic) && negb (length (alpn_protocols cfg) =? 0)%nat.
Definition name_reads : list (client_hello -> client_hello) :=
  (if sends_name then [fun ch => set_server_name (see EXT_SERVER_NAME ch) (Some (cfg_hostname cfg))] else []) ++
  (if sends_alpn then [fun ch => set_alpn_selected (see EXT_ALPN ch) (alpn_picks (alpn_protocols cfg) (ch_alpn_selected ch))] else []).
Definition group_reads : list (client_hello -> client_hello) :=
  [(fun ch => set_groups (see EXT_SUPPORTED_GROUPS ch) (fold_left (fun m g => m .| srv_group_bit (build := sb) g) (groups_of (build := cb) cfg) (ch_groups ch)));
   (fun ch => fold_left (fun c e => keep_share e c) (shares_of (build := cb) cfg ek pub p256_pub) (see EXT_KEY_SHARE ch))].
Definition transport_reads : list (client_hello -> client_hello) :=
  if quic then [fun ch => set_transport_params (see EXT_QUIC_TRANSPORT_PARAMS ch) (Some (transport_params cfg))]
  else [fun ch => set_record_size_limit (see EXT_RECORD_SIZE_LIMIT ch) (limit - 1)].
Definition cookie_reads : list (client_hello -> client_hello) :=
  match cookie with Some c => [fun ch => set_cookie (see EXT_COOKIE ch) (Some c)] | None => [] end.
Definition sends_sigalgs : bool := webpki || match psk cfg with None => true | Some _ => false end.
Definition auth_reads : list (client_hello -> client_hello) :=
  (if sends_sigalgs then [fun ch => fold_left (fun c v => take_sigalg (build := sb) v c) (sigalgs_of (build := cb)) (see EXT_SIGNATURE_ALGORITHMS ch)] else []) ++
  (if webpki && negb (spki_pin_count cfg =? 0)%nat then [id] else []).
Definition all_reads : list (client_hello -> client_hello) :=
  name_reads ++ [see EXT_SUPPORTED_VERSIONS] ++ group_reads ++ [fun ch => set_psk_modes (see EXT_PSK_MODES ch) (ch_psk_modes ch .| SRV_PSK_DHE_KE)] ++
  transport_reads ++ cookie_reads ++ auth_reads.

(** The block without pre_shared_key. *)
Definition auth_exts_head : list ext :=
  (if sends_sigalgs then [(EXT_SIGNATURE_ALGORITHMS, vec16 (code_points (sigalgs_of (build := cb))))] else []) ++
  (if webpki then cert_type_exts cfg else []).
Definition head_exts : list ext :=
  names_exts (build := cb) cfg ++ [(EXT_SUPPORTED_VERSIONS, 2 :: be_bytes 2 TLS13)] ++ groups_exts (build := cb) cfg ek pub p256_pub ++ [(EXT_PSK_MODES, [1; 1])] ++
  transport_exts (build := cb) cfg limit ++ cookie_exts cookie ++ auth_exts_head.

Lemma client_exts_split : client_exts (build := cb) cfg ek p256_pub pub limit cookie = head_exts ++ psk_exts (build := cb) cfg.
Proof.
  unfold client_exts, head_exts, auth_exts_head, auth_exts, sends_sigalgs. rewrite <- !app_assoc. do 6 f_equal.
  destruct webpki; cbn [orb]; [done|]. unfold psk_exts. by destruct (psk cfg).
Qed.

(** ** The hypotheses of a session *)

Definition session_bytes : Prop :=
  bytes_ok (cfg_hostname cfg) /\ Forall bytes_ok (alpn_protocols cfg) /\ bytes_ok (transport_params cfg) /\ bytes_ok (psk_id cfg) /\
  bytes_ok ek /\ bytes_ok pub /\ bytes_ok random32 /\ match p256_pub with Some p => bytes_ok p | None => True end /\ match cookie with Some c => bytes_ok c | None => True end.
Definition session_ok : Prop :=
  build_ok (build := cb) /\ keys_ok (build := cb) ek pub p256_pub /\ cfg_ok (build := cb) CH_CPU_RUNTIME CH_ROLE_SERVER cfg cookie /\ length random32 = 32%nat /\
  64 <= limit < 2 ^ 16 /\ (psk cfg <> None -> psk_id cfg <> []) /\ session_bytes /\
  (p256_pub <> None -> require_pq cfg = false).
(** A server that reads QUIC's transport parameters when the client sends them. *)
Definition server_ok : Prop := Forall bytes_ok offered /\ (quic = true -> @CH_TRANSPORT_QUIC_NONBLOCKING sb = true).

Lemma groups_codes : Forall code_ok (groups_of (build := cb) cfg) /\ (1 <= length (groups_of (build := cb) cfg) < 1000)%nat.
Proof.
  unfold groups_of, CH_KEX_GROUP. destruct CH_KEX_TWO_GROUPS, (require_pq cfg), CH_PROFILE_CNSA2, CH_KEX_PQ;
    (split; [rewrite !Forall_cons, ?Forall_nil; unfold code_ok; vm_compute; repeat split; discriminate|cbn; lia]).
Qed.

Lemma sigalgs_codes : Forall code_ok (sigalgs_of (build := cb)) /\ (1 <= length (sigalgs_of (build := cb)) < 1000)%nat.
Proof.
  unfold sigalgs_of, CH_PIN_SIGALG. destruct CH_TRUST_WEBPKI, CH_PIN_ECDSA, CH_PIN_MLDSA;
    (split; [rewrite !Forall_cons, ?Forall_nil; unfold code_ok; vm_compute; repeat split; discriminate|cbn; lia]).
Qed.

Lemma client_shares_fit : session_ok -> Forall share_fits (shares_of (build := cb) cfg ek pub p256_pub).
Proof.
  intros (Hb & (He & Hpub & Hpt) & _ & _ & _ & _ & (_ & _ & _ & _ & Hbe & Hbp & _ & Hbt & _) & _).
  assert (Hep : bytes_ok (ek ++ pub)) by by apply Forall_app_2.
  unfold shares_of, CH_KEX_TWO_GROUPS, CH_KEX_MLKEM, CH_KEX_HYBRID, CH_KEX_TWO_GROUPS, CH_KEX_GROUP in *.
  assert (Hlen : forall g (s : list Z), code_ok g -> bytes_ok s ->
     (g = CH_GROUP_X25519MLKEM768 /\ length s = CH_HYBRID_CLIENT_SHARE) \/ (g = CH_GROUP_X25519 /\ length s = 32%nat) \/ (g = CH_GROUP_SECP256R1 /\ length s = 65%nat) \/ (g = CH_GROUP_MLKEM1024 /\ length s = 1568%nat) ->
     share_fits (g, s)).
  { intros g l Hg Hl Hgs. unfold share_fits. cbn [fst snd]. unfold CH_HYBRID_CLIENT_SHARE, MLKEM_EK_LEN_768 in Hgs. split; [done|]. split; [lia|]. split; [done|].
    unfold srv_group_bit, share_len_of. destruct (@CH_PROFILE_CNSA2 sb); destruct Hgs as [[-> Hs]|[[-> Hs]|[[-> Hs]|[-> Hs]]]]; rewrite Hs; cbn; intros; done || congruence. }
  destruct (@CH_PROFILE_CNSA2 cb) eqn:Ep; [destruct (Hb Ep) as (Eq & Et & _); rewrite Et, Eq in *|destruct (@CH_TRUST_WEBPKI cb) eqn:Et, (@CH_KEX_PQ cb) eqn:Eq]; cbn [orb] in He |- *;
    try (specialize (He eq_refl); unfold MLKEM_EK_LEN in He; rewrite Ep in He); try destruct p256_pub as [pt|]; try destruct (require_pq cfg);
    rewrite ?Forall_cons, ?Forall_nil; rewrite ?app_nil_l; split_and?; try done; apply Hlen; try done; rewrite ?length_app, ?He, ?Hpub, ?Hpt; tauto.
Qed.

Lemma names_read : session_ok -> server_ok -> Forall2 reads (names_exts (build := cb) cfg) name_reads.
Proof.
  intros (Hb & _ & (Hh & Hn & Hns & _) & _ & _ & _ & (Bh & Bn & _) & _) (Ho & _).
  assert (H1 : Z.of_nat (length (cfg_hostname cfg)) <> 0 ->
    Forall2 reads [(EXT_SERVER_NAME, vec16 (0 :: vec16 (cfg_hostname cfg)))] [fun ch => set_server_name (see EXT_SERVER_NAME ch) (Some (cfg_hostname cfg))]).
  { intros Hz. apply Forall2_cons_2; [apply reads_server_name; [done|unfold HsMessage.CH_HOSTNAME_MAX in Hh; lia]|apply Forall2_nil_2]. }
  assert (H2 : length (alpn_protocols cfg) <> 0%nat ->
    Forall2 reads [(EXT_ALPN, vec16 (mjoin (protocol_name <$> alpn_protocols cfg)))] [fun ch => set_alpn_selected (see EXT_ALPN ch) (alpn_picks (alpn_protocols cfg) (ch_alpn_selected ch))]).
  { intros Hz. apply Forall2_cons_2; [|apply Forall2_nil_2]. apply reads_alpn; try done. by intros E; rewrite E in Hz. }
  pose proof (fun a b => Forall2_app (H1 a) (H2 b)) as H3. cbn [app] in H3.
  unfold names_exts, name_reads, sends_name, sends_alpn, server_name_exts, alpn_exts.
  destruct webpki, quic; cbn [orb andb]; destruct (Z.eqb_spec (Z.of_nat (length (cfg_hostname cfg))) 0), (Nat.eqb_spec (length (alpn_protocols cfg)) 0); cbn [negb andb app];
    first [exact (H1 ltac:(assumption)) | exact (H2 ltac:(assumption)) | exact (H3 ltac:(assumption) ltac:(assumption)) | apply Forall2_nil_2].
Qed.

Lemma head_read : session_ok -> server_ok -> Forall2 reads head_exts all_reads.
Proof.
  intros Hs Hv. pose proof (names_read Hs Hv) as H1. pose proof (client_shares_fit Hs) as Hf. destruct groups_codes as [Hg Hgn], sigalgs_codes as [Hsa Hsn].
  pose proof Hs as (Hb & Hk & Hc & _ & Hl & _ & (_ & _ & Btp & _ & _ & _ & _ & _ & Bc) & _). pose proof Hc as (_ & _ & _ & Htp & _ & Hck & _). destruct Hv as (_ & Hq).
  unfold head_exts, all_reads. apply Forall2_app; [exact H1|]. apply (Forall2_app (l1 := [_]) (l1' := [_])); [apply Forall2_cons_2; [apply reads_versions|apply Forall2_nil_2]|].
  apply Forall2_app; [|apply (Forall2_app (l1 := [_]) (l1' := [_])); [apply Forall2_cons_2; [apply reads_psk_modes|apply Forall2_nil_2]|]].
  - apply Forall2_cons_2; [by apply reads_groups|]. apply Forall2_cons_2; [|apply Forall2_nil_2]. apply reads_shares; [done|].
    pose proof (length_shares (build := cb) cfg _ _ _ Hb Hk) as L. pose proof (hello_max_bound (build := cb)) as Lm. unfold groups_exts in L.
    rewrite !length_wire_exts_cons in L. cbn [fst snd] in L. rewrite !length_vec16 in L.
    unfold CH_HELLO_MAX in Lm. lia.
  - apply Forall2_app; [|apply Forall2_app].
    + unfold transport_exts, transport_reads. destruct quic; (apply Forall2_cons_2; [|apply Forall2_nil_2]); [apply reads_params; [done|by apply Hq]|by apply reads_limit].
    + unfold cookie_exts, cookie_reads. destruct cookie as [c|]; [|apply Forall2_nil_2]. apply Forall2_cons_2; [|apply Forall2_nil_2]. apply reads_cookie; [done|].
      unfold HSP_COOKIE_MAX in Hck. destruct CH_PROFILE_CNSA2; lia.
    + unfold auth_exts_head, auth_reads, cert_type_exts. apply Forall2_app.
      * destruct sends_sigalgs; [|apply Forall2_nil_2]. apply Forall2_cons_2; [by apply reads_sigalgs|apply Forall2_nil_2].
      * destruct webpki; cbn [andb]; [|apply Forall2_nil_2]. destruct (_ =? 0)%nat; cbn [negb]; [apply Forall2_nil_2|].
        apply Forall2_cons_2; [by apply reads_unknown|apply Forall2_nil_2].
Qed.

Lemma head_types : Forall (fun x => ext_bit x.1 .& ext_bit EXT_PRE_SHARED_KEY = 0) head_exts.
Proof.
  unfold head_exts, names_exts, server_name_exts, alpn_exts, groups_exts, transport_exts, cookie_exts, auth_exts_head, cert_type_exts. repeat apply Forall_app_2;
    repeat case_match; repeat (first [apply Forall_nil_2|apply Forall_app_2|apply Forall_cons; split; [vm_compute; reflexivity|]]).
Qed.

(** ** The report *)

Definition suites : list Z := suites_of (build := cb) CH_CPU_RUNTIME CH_ROLE_SERVER cfg.
Definition start : client_hello := hello_start (build := sb) random32 [] suites.
Definition suites_mask : Z := fold_left (fun m v => m .| srv_suite_bit (build := sb) v) suites 0.

Lemma start_form : start = set_suites (set_session_id (set_random (set_alpn_selected zero_hello CH_ALPN_NONE) random32) []) suites_mask.
Proof.
  unfold start, hello_start, head_report, suites_mask.
  assert (H : forall vs ch, fold_left (fun ch v => set_suites ch (ch_suites ch .| srv_suite_bit (build := sb) v)) vs ch =
    set_suites ch (fold_left (fun m v => m .| srv_suite_bit (build := sb) v) vs (ch_suites ch))).
  { induction vs as [|v vs IH]; intros ch; cbn [fold_left]; [by destruct ch|]. by rewrite IH. }
  by rewrite H.
Qed.

Abbreviation shares := (shares_of (build := cb) cfg ek pub p256_pub).

Lemma run_cons g gs ch ch' r : g ch = ch' -> run_reads gs ch' = r -> run_reads (g :: gs) ch = r.
Proof. by intros <-. Qed.

(** Runs the readers on a report, one at a time. *)
Ltac report :=
  cbn [app];
  repeat (eapply run_cons;
    [rewrite ?fold_sigalgs;
     lazy beta iota delta [set_suites set_session_id set_random set_alpn_selected set_server_name set_groups set_seen set_cookie set_psk_modes set_record_size_limit
       set_sigalgs set_transport_params zero_hello ch_random ch_session_id ch_suites ch_groups ch_shares ch_sigalgs ch_mlkem_share ch_x25519_share ch_hybrid_share
       ch_p256_share ch_cookie ch_server_name ch_alpn_selected ch_record_size_limit ch_psk_modes ch_truncated_len ch_psk_identities ch_psk_binders ch_seen
       ch_frozen ch_transport_params id see]; reflexivity|]); reflexivity.

(** The report up to the groups, and what the readers after the shares make of one. *)
Lemma run_to_groups : exists seen, run_reads (name_reads ++ [see EXT_SUPPORTED_VERSIONS] ++ take 1 group_reads) start =
  ClientHello random32 [] suites_mask (groups_mask (groups_of (build := cb) cfg)) 0 0 None None None None None
    (if sends_name then Some (cfg_hostname cfg) else None) (if sends_alpn then alpn_picks (alpn_protocols cfg) CH_ALPN_NONE else CH_ALPN_NONE)
    0 0 0 None None seen (replicate 32 0) None.
Proof.
  rewrite start_form. unfold name_reads, group_reads, groups_mask, zero_hello.
  generalize suites_mask (groups_of (build := cb) cfg) (cfg_hostname cfg) (alpn_protocols cfg) (replicate 32 0).
  intros sm gs h al fz. generalize sends_name sends_alpn. intros bn ba. cbn [take].
  destruct bn, ba; eexists; report.
Qed.

Lemma run_from_shares r si su g sh m x hy p sn al seen fr : exists seen',
  run_reads ([fun ch => set_psk_modes (see EXT_PSK_MODES ch) (ch_psk_modes ch .| SRV_PSK_DHE_KE)] ++ transport_reads ++ cookie_reads ++ auth_reads)
    (ClientHello r si su g sh 0 m x hy p None sn al 0 0 0 None None seen fr None) =
  ClientHello r si su g sh (if sends_sigalgs then sigalgs_mask (sigalgs_of (build := cb)) 0 else 0) m x hy p cookie sn al
    (if quic then 0 else limit - 1) SRV_PSK_DHE_KE 0 None None seen' fr (if quic then Some (transport_params cfg) else None).
Proof.
  unfold transport_reads, cookie_reads, auth_reads. generalize (sigalgs_of (build := cb)) (transport_params cfg). intros sa tp.
  generalize sends_sigalgs (webpki && negb (spki_pin_count cfg =? 0)%nat). intros bs bp.
  destruct quic, cookie, bs, bp; eexists; report.
Qed.

(** Every field a reader filled, after all of them. *)
Lemma run_form : exists seen, run_reads all_reads start =
  let c := fold_left (fun c e => keep_share e c) shares zero_hello in
  ClientHello random32 [] suites_mask (groups_mask (groups_of (build := cb) cfg)) (ch_shares c)
    (if sends_sigalgs then sigalgs_mask (sigalgs_of (build := cb)) 0 else 0) (ch_mlkem_share c) (ch_x25519_share c) (ch_hybrid_share c) (ch_p256_share c)
    cookie (if sends_name then Some (cfg_hostname cfg) else None) (if sends_alpn then alpn_picks (alpn_protocols cfg) CH_ALPN_NONE else CH_ALPN_NONE)
    (if quic then 0 else limit - 1) SRV_PSK_DHE_KE 0 None None seen (replicate 32 0) (if quic then Some (transport_params cfg) else None).
Proof.
  destruct run_to_groups as (seen & E). cbv zeta.
  edestruct run_from_shares as (seen' & E2). exists seen'. rewrite <- E2. clear E2.
  change all_reads with (name_reads ++ [see EXT_SUPPORTED_VERSIONS] ++ (take 1 group_reads ++ drop 1 group_reads) ++
    [fun ch => set_psk_modes (see EXT_PSK_MODES ch) (ch_psk_modes ch .| SRV_PSK_DHE_KE)] ++ transport_reads ++ cookie_reads ++ auth_reads).
  rewrite <- (app_assoc (take 1 group_reads)), 2!app_assoc, <- (app_assoc name_reads). unfold run_reads in *. rewrite fold_left_app, E, fold_left_app. f_equal.
  unfold group_reads. cbn [drop fold_left]. unfold see, set_seen. cbv beta iota delta [ch_random ch_session_id ch_suites ch_groups ch_shares ch_sigalgs ch_mlkem_share ch_x25519_share ch_hybrid_share
    ch_p256_share ch_cookie ch_server_name ch_alpn_selected ch_record_size_limit ch_psk_modes ch_truncated_len ch_psk_identities ch_psk_binders ch_seen
    ch_frozen ch_transport_params]. apply fold_shares.
Qed.
(** ** The checks over the whole hello *)

Lemma head_has t : t ∈ [EXT_SUPPORTED_VERSIONS; EXT_SUPPORTED_GROUPS; EXT_KEY_SHARE; EXT_PSK_MODES] -> t ∈ head_exts.*1.
Proof.
  intros Ht. unfold head_exts, groups_exts. rewrite !fmap_app, !elem_of_app. cbn [fmap list_fmap fst].
  rewrite !elem_of_cons, elem_of_nil in Ht. rewrite !elem_of_cons. destruct Ht as [->|[->|[->|[->|[]]]]]; tauto.
Qed.
Lemma head_has_sigalgs : psk cfg = None -> EXT_SIGNATURE_ALGORITHMS ∈ head_exts.*1.
Proof.
  intros Hp. unfold head_exts, auth_exts_head, sends_sigalgs. rewrite Hp, orb_true_r, !fmap_app, !elem_of_app. do 6 right. left. by left.
Qed.

Lemma shares_offered : session_ok -> Forall (fun e => e.1 ∈ groups_of (build := cb) cfg) shares.
Proof.
  intros (_ & _ & _ & _ & _ & _ & _ & Hp). unfold shares_of, groups_of. destruct CH_KEX_TWO_GROUPS; [|apply Forall_singleton; by left].
  destruct p256_pub as [p|]; [rewrite Hp by done; apply Forall_singleton; do 2 right; by left|].
  destruct (require_pq cfg); repeat (apply Forall_cons; split; [cbn [fst]; rewrite !elem_of_cons; tauto|]); apply Forall_nil_2.
Qed.

Lemma fold_lor_covers (f : Z -> Z) vs : forall m, m .| fold_left (fun m v => m .| f v) vs m = fold_left (fun m v => m .| f v) vs m.
Proof.
  induction vs as [|v vs IH]; intros m; cbn [fold_left]; [apply Z.lor_diag|]. rewrite <- (IH (m .| f v)). by rewrite Z.lor_assoc, Z.lor_assoc, Z.lor_diag.
Qed.
Lemma fold_lor_in (f : Z -> Z) v vs : v ∈ vs -> forall m, f v .| fold_left (fun m v => m .| f v) vs m = fold_left (fun m v => m .| f v) vs m.
Proof.
  induction 1 as [v vs|v w vs _ IH]; intros m; cbn [fold_left]; [|apply IH]. rewrite <- (fold_lor_covers f vs (m .| f v)).
  by rewrite !Z.lor_assoc, (Z.lor_comm (f v) m), <- (Z.lor_assoc m (f v) (f v)), Z.lor_diag.
Qed.

(** A mask of bits all within another. *)
Definition within (a g : Z) : Prop := a .| g = g.
Lemma within_clear a g : 0 <= a < 256 -> within a g -> a .& u8 (Z.lnot g) = 0.
Proof.
  intros Ha Hg. apply Z.bits_inj'. intros i Hi. rewrite Z.land_spec, Z.bits_0. unfold u8. destruct (Z.ltb_spec i 8).
  - rewrite Z.mod_pow2_bits_low, Z.lnot_spec by lia. rewrite <- Hg, Z.lor_spec. by destruct (Z.testbit a i).
  - by rewrite (Z.mod_pow2_bits_high _ 8), andb_false_r by lia.
Qed.
Lemma within_lor a b g : within a g -> within b g -> within (a .| b) g.
Proof. unfold within. intros Ha Hb. by rewrite <- Z.lor_assoc, Hb, Ha. Qed.

Lemma group_bit_range g : 0 <= srv_group_bit (build := sb) g < 256.
Proof. unfold srv_group_bit. repeat case_match; vm_compute; split; congruence. Qed.

Lemma keep_share_mask e ch : ch_shares (keep_share e ch) = ch_shares ch \/ ch_shares (keep_share e ch) = ch_shares ch .| srv_group_bit (build := sb) e.1.
Proof. unfold keep_share, take_share. repeat case_match; simplify_eq; auto. Qed.

Lemma shares_within g es : Forall (fun e => within (srv_group_bit (build := sb) e.1) g) es -> forall ch, 0 <= ch_shares ch < 256 -> within (ch_shares ch) g ->
  let c := fold_left (fun c e => keep_share e c) es ch in 0 <= ch_shares c < 256 /\ within (ch_shares c) g.
Proof.
  induction 1 as [|e es He Hes IH]; intros ch Hr Hg; cbn [fold_left]; [done|]. apply IH.
  - pose proof (group_bit_range e.1). destruct (keep_share_mask e ch) as [-> | ->]; [done|]. apply (lor_bound 8); [lia|done|done].
  - destruct (keep_share_mask e ch) as [-> | ->]; [done|]. by apply within_lor.
Qed.
(** The value a report holds for a group. *)
Definition share_at (bit : Z) (ch : client_hello) : option (list Z) :=
  if @CH_PROFILE_CNSA2 sb then ch_mlkem_share ch
  else if (bit =? SRV_GROUP_MLKEM1024) then ch_mlkem_share ch
  else if (bit =? SRV_GROUP_X25519MLKEM768) then ch_hybrid_share ch
  else if (bit =? SRV_GROUP_SECP256R1) then ch_p256_share ch
  else ch_x25519_share ch.

Lemma keep_share_at e ch : share_fits e -> srv_group_bit (build := sb) e.1 <> 0 -> ch_shares ch = 0 ->
  share_at (srv_group_bit (build := sb) e.1) (keep_share e ch) = Some e.2.
Proof.
  intros (_ & _ & _ & Hf) Hb Hc. unfold keep_share, take_share, share_at. rewrite <- Hf by done. rewrite Nat.eqb_refl, Hc, Z.land_0_l.
  destruct (Z.eqb_spec (srv_group_bit (build := sb) e.1) 0); [done|]. cbn [negb Z.eqb]. destruct (@CH_PROFILE_CNSA2 sb); [done|]. by repeat case_match.
Qed.

Lemma shares_kept : session_ok -> forall e, e ∈ shares -> srv_group_bit (build := sb) e.1 <> 0 ->
  share_at (srv_group_bit (build := sb) e.1) (fold_left (fun c e => keep_share e c) shares zero_hello) = Some e.2.
Proof.
  intros Hs e He Hb. pose proof (client_shares_fit Hs) as Hf.
  assert (H : (exists a, shares = [a]) \/ exists k x, shares = [(CH_GROUP_X25519MLKEM768, k); (CH_GROUP_X25519, x)]).
  { unfold shares_of. destruct CH_KEX_TWO_GROUPS; [|by left; eexists]. destruct p256_pub; [by left; eexists|]. destruct (require_pq cfg); [by left; eexists|by right; do 2 eexists]. }
  destruct H as [(a & E)|(k & x & E)]; rewrite E in *.
  - apply list_elem_of_singleton in He as ->. rewrite Forall_singleton in Hf. cbn [fold_left]. by apply keep_share_at.
  - rewrite !Forall_cons in Hf. destruct Hf as ((_ & _ & _ & Hk) & (_ & _ & _ & Hx) & _). cbn [fst snd] in Hk, Hx.
    cbn [fold_left]. unfold keep_share, take_share, share_at. cbn [fst snd].
    unfold srv_group_bit in *. destruct (@CH_PROFILE_CNSA2 sb).
    + rewrite elem_of_cons, list_elem_of_singleton in He. by destruct He as [-> | ->].
    + rewrite <- Hk, <- Hx by done. rewrite !Nat.eqb_refl. rewrite elem_of_cons, list_elem_of_singleton in He. by destruct He as [-> | ->].
Qed.

(** ** The report of a hello *)

(** What the server holds of the offered PSK in a hello of [n] bytes. *)
Definition psk_report (n : nat) (ch : client_hello) : Prop :=
  match psk cfg with
  | None => ch_psk_identities ch = None /\ ch_psk_binders ch = None /\ ch_truncated_len ch = 0%nat
  | Some _ =>
      ch_psk_identities ch = Some (psk_identities (psk_id cfg) (psk_age cfg)) /\
      ch_psk_binders ch = Some (psk_binders (hs_psk_hash_len (build := cb) cfg)) /\
      (ch_truncated_len ch + (3 + hs_psk_hash_len (build := cb) cfg))%nat = n
  end.
Definition hello_report (ch : client_hello) : Prop :=
  ch_random ch = random32 /\ ch_session_id ch = [] /\ ch_suites ch = suites_mask /\ ch_groups ch = groups_mask (groups_of (build := cb) cfg) /\
  ch_sigalgs ch = (if sends_sigalgs then sigalgs_mask (sigalgs_of (build := cb)) 0 else 0) /\
  (forall e, e ∈ shares -> srv_group_bit (build := sb) e.1 <> 0 -> share_at (srv_group_bit (build := sb) e.1) ch = Some e.2) /\
  ch_cookie ch = cookie /\ ch_server_name ch = (if sends_name then Some (cfg_hostname cfg) else None) /\
  ch_alpn_selected ch = (if sends_alpn then alpn_picks (alpn_protocols cfg) CH_ALPN_NONE else CH_ALPN_NONE) /\
  ch_record_size_limit ch = (if quic then 0 else limit - 1) /\ ch_psk_modes ch = SRV_PSK_DHE_KE /\
  ch_transport_params ch = (if quic then Some (transport_params cfg) else None).

Lemma psk_hash_len_range : (32 <= hs_psk_hash_len (build := cb) cfg <= 48)%nat.
Proof. unfold hs_psk_hash_len. repeat case_match; vm_compute; lia. Qed.

Lemma walk_hello n : session_ok -> server_ok -> exists ch,
  walk (hello_step (build := sb) n offered) start (head_exts ++ psk_exts (build := cb) cfg) = Some ch /\ hello_report ch /\
  within (ch_shares ch) (ch_groups ch) /\ 0 <= ch_shares ch < 256 /\
  ((length (wire_exts (psk_exts (build := cb) cfg)) <= n)%nat -> psk_report n ch).
Proof.
  intros Hs Hv. destruct (walk_reads n head_exts all_reads (psk_exts (build := cb) cfg) (head_read Hs Hv) head_types start) as [E Eseen]; [by rewrite start_form|].
  rewrite E. clear E. destruct run_form as (seen & Er). cbv zeta in Er. rewrite Er in Eseen |- *. clear Er.
  pose proof (shares_kept Hs) as Hk. pose proof (shares_offered Hs) as Ho.
  destruct (shares_within (groups_mask (groups_of (build := cb) cfg)) shares) with (ch := zero_hello) as [Hr Hw].
  { eapply Forall_impl; [exact Ho|]. intros e He. by apply (fold_lor_in (srv_group_bit (build := sb))). }
  { cbn. lia. } { done. }
  revert Hk Hr Hw. generalize (fold_left (fun c e => keep_share e c) shares zero_hello). intros c Hk Hr Hw.
  unfold psk_report, psk_exts. destruct (psk cfg) eqn:Ep; cbn [walk].
  - destruct Hs as (_ & _ & (_ & _ & _ & _ & Hid & _) & _ & _ & Hne & (_ & _ & _ & Hbid & _) & _). specialize (Hne ltac:(congruence)). pose proof psk_hash_len_range as Hh.
    change (vec16 (psk_id cfg) ++ be_bytes 4 (psk_age cfg)) with (psk_identities (psk_id cfg) (psk_age cfg)).
    change (u8 (Z.of_nat (hs_psk_hash_len (build := cb) cfg)) :: replicate (hs_psk_hash_len (build := cb) cfg) 0) with (psk_binders (hs_psk_hash_len (build := cb) cfg)).
    assert (Hl : (1 <= length (psk_id cfg) <= 320)%nat) by (destruct (psk_id cfg); [done|]; unfold CH_TICKET_ID_MAX in Hid; cbn [length] in *; lia).
    rewrite step_psk by done. cbn [mbind option_bind]. eexists. split; [reflexivity|]. split; [unfold hello_report; split_and!; first [done | exact Hk]|]. split; [exact Hw|]. split; [exact Hr|].
    intros Hn. split; [done|]. split; [done|]. cbn [take_psk set_psk_binders set_truncated_len ch_truncated_len].
    rewrite length_wire_exts_cons in *. cbn [fst snd] in *. rewrite length_app, !length_vec16 in *. change (length (wire_exts [])) with 0%nat in *.
    unfold psk_binders in *. cbn [length] in *. rewrite length_replicate in *. lia.
  - eexists. split; [reflexivity|]. split; [unfold hello_report; split_and!; first [done | exact Hk]|]. split; [exact Hw|]. split; [exact Hr|]. intros _. by split_and!.
Qed.
Lemma walk_seen_types n ch : walk (hello_step (build := sb) n offered) start (head_exts ++ psk_exts (build := cb) cfg) = Some ch ->
  bytes_ok (wire_exts (head_exts ++ psk_exts (build := cb) cfg)) -> within (ch_shares ch) (ch_groups ch) -> 0 <= ch_shares ch < 256 ->
  required (head_exts ++ psk_exts (build := cb) cfg) ch.
Proof.
  intros Hw Hb Hs Hr. unfold required. rewrite fmap_app.
  assert (Hh : forall t, t ∈ [EXT_SUPPORTED_VERSIONS; EXT_SUPPORTED_GROUPS; EXT_KEY_SHARE; EXT_PSK_MODES] -> t ∈ head_exts.*1 ++ (psk_exts (build := cb) cfg).*1)
    by (intros t Ht; apply elem_of_app; left; by apply head_has).
  split; [apply Hh; by left|]. split; [intros _; apply Hh; do 3 right; by left|].
  assert (Hg : EXT_SUPPORTED_GROUPS ∈ head_exts.*1 ++ (psk_exts (build := cb) cfg).*1) by (apply Hh; right; by left).
  assert (Hk : EXT_KEY_SHARE ∈ head_exts.*1 ++ (psk_exts (build := cb) cfg).*1) by (apply Hh; do 2 right; by left).
  split; [|split; [done|by apply within_clear]]. intros Hp. split; [|exact Hg]. apply elem_of_app; left. apply head_has_sigalgs.
  destruct (psk cfg) eqn:E; [|done]. destruct Hp. apply elem_of_app. right. unfold psk_exts. rewrite E. by left.
Qed.

Lemma exts_bytes_ok : session_ok -> Forall (fun x => bytes_ok x.2) (head_exts ++ psk_exts (build := cb) cfg).
Proof.
  intros Hs. pose proof (shares_bytes_ok shares (client_shares_fit Hs)) as Bsh. destruct Hs as (_ & _ & _ & _ & _ & _ & (Bh & Bn & Bt & Bi & _ & _ & _ & _ & Bc) & _).
  unfold head_exts, names_exts, server_name_exts, alpn_exts, groups_exts, transport_exts, cookie_exts, auth_exts_head, cert_type_exts, psk_exts.
  repeat apply Forall_app_2; repeat case_match;
    repeat (first [apply Forall_nil_2|apply Forall_app_2|apply Forall_cons; split]); cbn [fst snd];
    repeat (first [assumption|apply vec16_ok|apply be_bytes_ok|apply code_points_ok|by apply names_ok|apply u8_range|apply Forall_app_2|apply Forall_nil_2
      |apply Forall_cons; split|apply Forall_replicate|(unfold byte_ok; vm_compute; split; congruence)]).
Qed.

Lemma hello_bytes_ok : session_ok -> bytes_ok (client_hello_body (build := cb) CH_CPU_RUNTIME CH_ROLE_SERVER cfg ek p256_pub pub random32 limit cookie).
Proof.
  intros Hs. pose proof (exts_bytes_ok Hs) as Hx. destruct Hs as (_ & _ & _ & _ & _ & _ & (_ & _ & _ & _ & _ & _ & Br & _) & _).
  unfold client_hello_body, hello_message. rewrite client_exts_split.
  apply Forall_app_2; [|apply Forall_app_2; [apply be_bytes_ok|by apply wire_exts_ok]].
  unfold hello_head. repeat apply Forall_app_2; try apply be_bytes_ok; try done; try apply code_points_ok; by apply (bool_decide_unpack _).
Qed.
End Compose.

(** The parser on the body of a hello. *)
Lemma hello_read cb sb cpu_runtime role_server offered cfg ek pub random32 p256_pub limit cookie block :
  session_ok cb cpu_runtime role_server cfg ek pub random32 p256_pub limit cookie -> server_ok cb sb offered -> length block = 64%nat ->
  let body := client_hello_body (build := cb) cpu_runtime role_server cfg ek p256_pub pub random32 limit cookie in
  exists ch, parse (srv_parse_client_hello (build := sb) body block offered zero_hello) body = Some (Done ch) /\
    hello_report cb sb cpu_runtime role_server offered cfg ek pub random32 p256_pub limit cookie ch /\
    psk_report cb cfg (length body) ch.
Proof.
  intros Hs Hv Hblk body. epose proof (hello_bytes_ok cb sb _ _ _ _ _ _ _ _ _ Hs) as Hb. epose proof (exts_bytes_ok cb sb _ _ _ _ _ _ _ _ _ Hs) as Hx. fold body in Hb.
  pose proof Hs as (Hbuild & Hkeys & Hc & Hr & _). pose proof (client_block_ok _ _ cfg ek p256_pub pub limit cookie Hbuild Hkeys Hc) as Hblock.
  assert (Ebody : body = hello_message 0x0303 random32 [] (suites cb cpu_runtime role_server cfg) (client_exts (build := cb) cfg ek p256_pub pub limit cookie)) by done.
  rewrite client_exts_split in *.
  edestruct (walk_hello cb sb) with (n := length body) as (ch & Hw & Hrep & Hin & Hrange & Hpsk); [exact Hs|exact Hv|].
  eexists. split; [|split].
  - eapply client_hello_complete; [exact Hb|exact Hblk|]. split; [|split; [exact Hblock|split; [exact Ebody|exists ch]]].
    + pose proof (length_suites _ _ cfg cookie Hbuild Hc) as Hl. pose proof Hc as (_ & _ & _ & _ & _ & _ & Hsl & Hsc).
      unfold head_ok, suites. split_and!; [unfold code_ok; lia|exact Hr|cbn [length]; lia|lia|lia|exact Hsc].
    + split; [exact Hw|]. split; [|reflexivity]. eapply walk_seen_types; try eassumption. by apply wire_exts_ok.
  - exact Hrep.
  - apply Hpsk. rewrite Ebody. unfold hello_message, wire_exts. rewrite fmap_app, join_app, !length_app. lia.
Qed.
(** ** Property *)

(** C15. A client's hello at a server.  For every client build and every
    configuration its checks let through, [hs_build_client_hello], given
    [CH_HELLO_MAX] bytes, writes one handshake message; and every server build,
    but that a client of a QUIC build needs a server of a QUIC build, parses the
    bytes of its body without an alert and reports exactly what the client meant:
    its random, the suites, groups and signature schemes the server also knows,
    the key share of every group the server holds, the cookie, the host name, the
    protocol the server prefers, the record limit or the QUIC parameters, and the
    PSK's identity, its binders and the length of the body before them. *)
Theorem hello_reaches_server cb sb cpu_runtime role_server offered cfg ek pub random32 p256_pub limit cookie block out cap :
  session_ok cb cpu_runtime role_server cfg ek pub random32 p256_pub limit cookie -> server_ok cb sb offered -> length block = 64%nat ->
  (CH_HELLO_MAX (build := cb) <= cap <= length out)%nat ->
  exists body ch,
    hs_build_client_hello (build := cb) cpu_runtime role_server out cap cfg ek p256_pub pub random32 limit cookie =
      Some (HS_CLIENT_HELLO :: be_bytes 3 (Z.of_nat (length body)) ++ body) /\
    parse (srv_parse_client_hello (build := sb) body block offered zero_hello) body = Some (Done ch) /\
    hello_report cb sb cpu_runtime role_server offered cfg ek pub random32 p256_pub limit cookie ch /\
    psk_report cb cfg (length body) ch.
Proof.
  intros Hs Hv Hblk Hcap. pose proof Hs as (Hbuild & Hkeys & Hc & Hr & _).
  destruct (hello_read cb sb _ _ _ _ _ _ _ _ _ _ _ Hs Hv Hblk) as (ch & Hp & Hrep & Hpsk).
  destruct (hello_written (build := cb) cpu_runtime role_server out cap cfg ek p256_pub pub random32 limit cookie Hbuild Hkeys Hc Hr Hcap) as [E _].
  exists (client_hello_body (build := cb) cpu_runtime role_server cfg ek p256_pub pub random32 limit cookie), ch.
  split; [exact E|]. split; [exact Hp|]. split; [exact Hrep|exact Hpsk].
Qed.

(** A resumption of the x25519 build. *)
Definition sample_psk_cfg : ch_cfg :=
  {| psk := Some (replicate 32 1); psk_id := [5; 6; 7]; ticket := None; ticket_age_ms := 0; require_pq := false; cpu := 0; cfg_hostname := []; spki_pin_count := 0;
     cipher_suites := None; alpn_protocols := []; transport_params := [] |}.

Lemma hello_reaches_server_witness :
  exists body ch,
    hs_build_client_hello (build := raw_build) false false (replicate 617 0) 617 sample_psk_cfg [] None (replicate 32 9) (replicate 32 7) 16385 None =
      Some (HS_CLIENT_HELLO :: be_bytes 3 (Z.of_nat (length body)) ++ body) /\
    parse (srv_parse_client_hello (build := raw_build) body (replicate 64 0) [] zero_hello) body = Some (Done ch) /\
    ch_random ch = replicate 32 7 /\ ch_record_size_limit ch = 16384.
Proof.
  edestruct (hello_reaches_server raw_build raw_build false false [] sample_psk_cfg [] (replicate 32 9) (replicate 32 7) None 16385 None (replicate 64 0) (replicate 617 0) 617) as (body & ch & E & Hp & Hr & _).
  - unfold session_ok, cfg_ok, session_bytes. split_and!; try done; try (apply (bool_decide_unpack _); vm_compute; exact I); try (cbn; lia).
  - by split.
  - done.
  - vm_compute. lia.
  - exists body, ch. split; [exact E|]. split; [exact Hp|]. destruct Hr as (Hr1 & _ & _ & _ & _ & _ & _ & _ & _ & Hr2 & _). by split.
Defined.
End Hello.
