(* ===== verification/Cmd.v ===== *)
(** * Commands: C functions that change a struct and return a code

    A handler of the handshake takes a pointer to its state, changes it and
    returns [CH_OK] or an error code.  Here it is a [cmd]: a state-and-error
    program over the struct's record, with a failed [CH_ASSERT] as [None].
    The file also holds the update notation for records, and the weakest
    precondition [wp] its client lemmas are proved with: [wp c Q s] says that
    from [s] no assertion of [c] fails and its answer and state satisfy [Q]. *)

From S2P Require Import Prelude.
Local Open Scope Z_scope.

(** ** Record update

    [s <| f := v |>] is [s] with the field [f] replaced.  A record declares its
    fields once, as the [Eta] expansion of a value; the setter of a field is
    found by abstracting that field in it. *)

Class Eta (R : Type) := eta : R -> R.
Class Setter {R A} (proj : R -> A) := set_field : A -> R -> R.
Arguments set_field {R A} proj {_} _ _.

Ltac setter R A proj :=
  let inst := constr:(_ : Eta R) in
  exact (fun (v : A) (s : R) => ltac:(
    let e := eval hnf in (@eta R inst s) in
    let e := eval pattern (proj s) in e in
    match e with ?f _ => let r := eval cbv beta in (f v) in exact r end)).
#[export] Hint Extern 1 (@Setter ?R ?A ?proj) => setter R A proj : typeclass_instances.

Notation "s <| f := v |>" := (set_field f v s) (at level 1, left associativity, f at level 0, format "s  <| f  :=  v |>") : stdpp_scope.

Arguments set_field : simpl never.

(** A field of an updated record is the value written or the field before, and
    a second write to a field forgets the first. *)
Ltac is_field R p :=
  let e := constr:(fun s : R => ltac:(let e := eval hnf in (eta s) in exact e)) in
  lazymatch e with context [p] => idtac end.
Ltac field_rule p A R f i v s :=
  let E := fresh in
  first [ assert (E : forall (v0 : A) (s0 : R), p (@set_field R A f i v0 s0) = p s0) by (intros; reflexivity); rewrite (E v s); clear E
        | assert (E : forall (v0 : A) (s0 : R), p (@set_field R A f i v0 s0) = v0) by (intros; reflexivity); rewrite (E v s); clear E ].
Ltac fields :=
  repeat match goal with
  | |- context [?p (@set_field ?R ?A ?f ?i ?v ?s)] => is_field R p; field_rule p A R f i v s
  | |- context [@set_field ?R ?A ?f ?i ?w (@set_field ?R ?A ?f ?i ?v ?s)] =>
      let E := fresh in
      assert (E : forall (w0 v0 : A) (s0 : R), @set_field R A f i w0 (@set_field R A f i v0 s0) = @set_field R A f i w0 s0) by (intros; reflexivity);
      rewrite (E w v s); clear E
  end.
Ltac fields_in H :=
  repeat match type of H with
  | context [?p (@set_field ?R ?A ?f ?i ?v ?s)] =>
      is_field R p;
      first [ rewrite ((fun (v0 : A) (s0 : R) => eq_refl : p (@set_field R A f i v0 s0) = p s0) v s) in H
            | rewrite ((fun (v0 : A) (s0 : R) => eq_refl : p (@set_field R A f i v0 s0) = v0) v s) in H ]
  end.

(** ** Commands *)

(** What a handler answers: a value beside [CH_OK], or an error code. *)
Inductive res (A : Type) :=
  | Ok (a : A)
  | Code (rc : Z).
Arguments Ok {A} a.
Arguments Code {A} rc.

Definition cmd (S A : Type) : Type := S -> option (S * res A).

Section Ops.
Context {S : Type}.

#[export] Instance cmd_ret : MRet (cmd S) := fun A a s => Some (s, Ok a).
#[export] Instance cmd_bind : MBind (cmd S) := fun A B f c s =>
  match c s with
  | Some (s, Ok a) => f a s
  | Some (s, Code rc) => Some (s, Code rc)
  | None => None
  end.

(** [return rc;] *)
Definition fail {A} (rc : Z) : cmd S A := fun s => Some (s, Code rc).
Definition get_ : cmd S S := fun s => Some (s, Ok s).
Definition gets {A} (f : S -> A) : cmd S A := fun s => Some (s, Ok (f s)).
Definition modify (f : S -> S) : cmd S () := fun s => Some (f s, Ok ()).
(** A call whose assertions may fail. *)
Definition call {A} (o : option A) : cmd S A := fun s => match o with Some a => Some (s, Ok a) | None => None end.
(** [CH_ASSERT(b);] *)
Definition ch_assert (b : bool) : cmd S () := fun s => if b then Some (s, Ok ()) else None.

(** A call whose code the caller looks at. *)
Definition attempt {A} (c : cmd S A) : cmd S (res A) := fun s => match c s with Some (s, r) => Some (s, Ok r) | None => None end.

(** ** Weakest preconditions *)

Definition wp {A} (c : cmd S A) (Q : A -> S -> Prop) (E : Z -> S -> Prop) (s : S) : Prop :=
  match c s with
  | Some (s, Ok a) => Q a s
  | Some (s, Code rc) => E rc s
  | None => False
  end.

Lemma wp_mono {A} (c : cmd S A) Q E Q' E' s : wp c Q E s ->
  (forall a s, Q a s -> Q' a s) -> (forall rc s, E rc s -> E' rc s) -> wp c Q' E' s.
Proof. unfold wp. destruct (c s) as [[? [|]]|]; naive_solver. Qed.

Lemma wp_bind {A B} (c : cmd S A) (f : A -> cmd S B) Q E s :
  wp (c ≫= f) Q E s <-> wp c (fun a => wp (f a) Q E) E s.
Proof. unfold wp, mbind, cmd_bind. by destruct (c s) as [[? [|]]|]. Qed.

Lemma wp_ret {A} (a : A) Q E s : wp (mret a) Q E s <-> Q a s.
Proof. done. Qed.
Lemma wp_fail {A} rc (Q : A -> S -> Prop) E s : wp (fail rc) Q E s <-> E rc s.
Proof. done. Qed.
Lemma wp_get Q E s : wp get_ Q E s <-> Q s s.
Proof. done. Qed.
Lemma wp_gets {A} (f : S -> A) Q E s : wp (gets f) Q E s <-> Q (f s) s.
Proof. done. Qed.
Lemma wp_modify f Q E s : wp (modify f) Q E s <-> Q () (f s).
Proof. done. Qed.
Lemma wp_call {A} (a : A) Q E s o : o = Some a -> wp (call o) Q E s <-> Q a s.
Proof. intros ->. done. Qed.
Lemma wp_assert (b : bool) Q E s : b = true -> wp (ch_assert b) Q E s <-> Q () s.
Proof. intros ->. done. Qed.

Lemma wp_attempt {A} (c : cmd S A) Q E s : wp (attempt c) Q E s <-> wp c (fun a => Q (Ok a)) (fun rc => Q (Code rc)) s.
Proof. unfold wp, attempt. by destruct (c s) as [[? [|]]|]. Qed.

(** A command that answers from every state its precondition names. *)
Lemma wp_answer {A} (c : cmd S A) Q E s : wp c Q E s ->
  exists s' r, c s = Some (s', r) /\ match r with Ok a => Q a s' | Code rc => E rc s' end.
Proof. unfold wp. destruct (c s) as [[s' r]|]; [|done]. intros. exists s', r. split; [done|by destruct r]. Qed.

(** The value of an executed command. *)
Lemma wp_run {A} (c : cmd S A) Q E s s' r : c s = Some (s', r) -> wp c Q E s ->
  match r with Ok a => Q a s' | Code rc => E rc s' end.
Proof. unfold wp. by intros ->; destruct r. Qed.
End Ops.
Arguments get_ {S}.

(** Run a command on a part of a larger state. *)
Definition on {R S A} (get : R -> S) (put : S -> R -> R) (c : cmd S A) : cmd R A := fun r =>
  match c (get r) with
  | Some (s, x) => Some (put s r, x)
  | None => None
  end.

Lemma wp_on {R S A} (get : R -> S) put (c : cmd S A) Q E r :
  wp (on get put c) Q E r <-> wp c (fun a s => Q a (put s r)) (fun rc s => E rc (put s r)) (get r).
Proof. unfold wp, on. by destruct (c (get r)) as [[? [|]]|]. Qed.

(** One step of a command: the binds and the state operations, where they are
    written. *)
Ltac wp_step :=
  lazymatch goal with
  | |- wp (_ ≫= _) _ _ _ => rewrite wp_bind
  | |- wp (mret _) _ _ _ => rewrite wp_ret
  | |- wp (fail _) _ _ _ => rewrite wp_fail
  | |- wp get_ _ _ _ => rewrite wp_get
  | |- wp (gets _) _ _ _ => rewrite wp_gets
  | |- wp (modify _) _ _ _ => rewrite wp_modify
  | |- wp (on _ _ _) _ _ _ => rewrite wp_on
  | |- wp (attempt _) _ _ _ => rewrite wp_attempt
  | |- wp _ _ _ _ => progress cbv beta iota
  end; cbv beta.
Ltac wps := repeat wp_step.
