(* ===== verification/ClientCfg.v ===== *)
(** * What a client session is configured with: src/src/tls.c,
    src/src/handshake_post.h, handshake_post.c, include/chapulin/cfg.h, ticket.h

    The configuration of a TRUST=raw client over TCP, the rules an init call
    holds it to, and the ticket it may present.  The build is the device client
    with the x25519 key exchange and an RSA or an ECDSA pin; an accepted
    configuration is shown to keep every bound the ClientHello builder needs. *)

From S2P Require Import Prelude Ct MdHash Sha256 Sha512 Hkdf Build Wire HsMessage Record Cmd.
Import Sha256 Hkdf.
Local Open Scope Z_scope.
Local Open Scope word_scope.

(** The raw client: x25519, ChaCha20-Poly1305 and SHA-256, the pinned key RSA or
    ECDSA as [CH_PIN_ECDSA] says. *)
Definition client_build (pin_ecdsa : bool) : HsBuild := Build_HsBuild false false false false false pin_ecdsa false false.

Definition CH_MIN_RXBUF : nat := 512.
Definition CH_PSK_LEN_MIN : nat := 16.
Definition CH_TICKET_LIFETIME_MAX : Z := 604800.
Definition HSPOST_TRUST_PIN : Z := 1.
Definition HSPOST_TRUST_PSK : Z := 2.

(** [ch_saved_ticket]: the fields a resuming client reads. *)
Record ch_saved_ticket := SavedTicket {
  tk_psk : list Z; tk_psk_len : nat; tk_lifetime_s : Z; tk_age_add : Z; tk_trust_hash : list Z;
  tk_identity : list Z; tk_identity_len : nat }.

(** The fields of [ch_cfg] this build reads.  A pointer that may be NULL is an
    option; of the callbacks only their presence matters here, and the receive
    buffer is the memory it names. *)
Record client_cfg := ClientCfg {
  psk : option (list Z); psk_len : nat; psk_id : option (list Z); psk_id_len : nat;
  ticket : option ch_saved_ticket; ticket_age_ms : Z;
  server_pubkey : option (list Z); server_pubkey_len : nat;
  server_pubkey2 : option (list Z); server_pubkey2_len : nat;
  cfg_buf : option (list Z); cfg_buf_len : nat;
  has_send : bool; has_recv : bool; has_epoch_load : bool; has_epoch_store : bool; require_pq : bool }.
#[export] Instance eta_client_cfg : Eta client_cfg := fun c =>
  ClientCfg (psk c) (psk_len c) (psk_id c) (psk_id_len c) (ticket c) (ticket_age_ms c) (server_pubkey c) (server_pubkey_len c)
    (server_pubkey2 c) (server_pubkey2_len c) (cfg_buf c) (cfg_buf_len c) (has_send c) (has_recv c) (has_epoch_load c)
    (has_epoch_store c) (require_pq c).

(** The structure [memset] leaves. *)
Definition zero_cfg : client_cfg := ClientCfg None 0 None 0 None 0 None 0 None 0 None 0 false false false false false.

Definition is_set {A} (o : option A) : bool := match o with Some _ => true | None => false end.
(** The bytes at a pointer. *)
Definition bytes_at (p : option (list Z)) (len : nat) : list Z := take len (default [] p).

Module Cfg.

(** ** Tickets *)

Definition trust_label : list Z := str "chapulin ticket trust".

(** The stack object's block buffer starts zero here; the digest does not depend
    on it. *)
Definition hspost_trust_hash (kind : Z) (bytes : list Z) : list Z :=
  let s := sha256_init (replicate SHA256_BLOCK 0) in
  let s := sha256_update s trust_label in
  let s := sha256_update s [kind] in
  let s := sha256_update s bytes in
  (sha256_final s).1.

Definition trust_names (kind : Z) (bytes : option (list Z)) (len : nat) (want : list Z) : Z :=
  match bytes with
  | None => 0
  | Some b => ct_memeq (hspost_trust_hash kind (take len b)) want SHA256_LEN
  end.

Definition hspost_trust_holds (cfg : client_cfg) (saved : ch_saved_ticket) : bool :=
  let held := trust_names HSPOST_TRUST_PIN (server_pubkey cfg) (server_pubkey_len cfg) (tk_trust_hash saved)
    .| trust_names HSPOST_TRUST_PIN (server_pubkey2 cfg) (server_pubkey2_len cfg) (tk_trust_hash saved)
    .| trust_names HSPOST_TRUST_PSK (psk cfg) (psk_len cfg) (tk_trust_hash saved) in
  negb (held =? 0).

(** The session's copy once the ticket is written into it, [None] for 0. *)
Definition hspost_present_ticket (cfg : client_cfg) : option client_cfg :=
  match ticket cfg with
  | None => Some cfg
  | Some saved =>
      if (negb (tk_psk_len saved =? SHA256_LEN)%nat && negb (tk_psk_len saved =? HKDF_HASH_MAX)%nat)
         || (tk_lifetime_s saved =? 0) then None
      else if negb (hspost_trust_holds cfg saved) then None
      else
        let cfg := cfg <| psk := Some (tk_psk saved) |> <| psk_len := tk_psk_len saved |>
          <| psk_id := Some (tk_identity saved) |> <| psk_id_len := tk_identity_len saved |> in
        Some (cfg <| server_pubkey := None |> <| server_pubkey_len := 0%nat |>
          <| server_pubkey2 := None |> <| server_pubkey2_len := 0%nat |>)
  end.

Definition hspost_ticket_age_ok (cfg : client_cfg) : bool :=
  match ticket cfg with
  | None => true
  | Some saved =>
      let lifetime_s := CH_TICKET_LIFETIME_MAX in
      let lifetime_s := if tk_lifetime_s saved <? lifetime_s then tk_lifetime_s saved else lifetime_s in
      let lifetime_ms := lifetime_s *32 1000 in
      ticket_age_ms cfg <=? lifetime_ms
  end.

(** ** The rules of a configuration *)

Section Rules.
Context {build : HsBuild}.

(** [CH_PIN_FIXED_LEN] of an ECDSA build. *)
Definition CH_PIN_FIXED_LEN : nat := 64.
Definition pin_len_ok (len : nat) : bool :=
  if CH_PIN_ECDSA then (len =? CH_PIN_FIXED_LEN)%nat else (256 <=? len)%nat && (len <=? 384)%nat && (len mod 8 =? 0)%nat.

Definition psk_id_len_ok (len : nat) : bool := (1 <=? len)%nat && (len <=? HsMessage.CH_TICKET_ID_MAX)%nat.

Definition psk_configured (cfg : client_cfg) : bool :=
  is_set (psk cfg) && (CH_PSK_LEN_MIN <=? psk_len cfg)%nat && is_set (psk_id cfg) &&
  psk_id_len_ok (psk_id_len cfg) && negb (is_set (server_pubkey cfg)).

(** [pubkey[len - 1] & 1] is clear. *)
Definition pin_even (pubkey : option (list Z)) (len : nat) : bool := (default [] pubkey !!! (len - 1)%nat) .& 1 =? 0.

Definition tlsi_config_ok (cfg : client_cfg) : bool :=
  let psk_ok := psk_configured cfg in
  let pin_ok := negb (is_set (psk cfg)) && is_set (server_pubkey cfg) && pin_len_ok (server_pubkey_len cfg) in
  if is_set (server_pubkey2 cfg) && (negb pin_ok || negb (pin_len_ok (server_pubkey2_len cfg))) then false
  else if (negb psk_ok && negb pin_ok) || negb (is_set (cfg_buf cfg)) || (cfg_buf_len cfg <? CH_MIN_RXBUF)%nat then false
  else if require_pq cfg then false
  else if negb CH_PIN_ECDSA &&
          ((pin_ok && pin_even (server_pubkey cfg) (server_pubkey_len cfg)) ||
           (is_set (server_pubkey2 cfg) && pin_even (server_pubkey2 cfg) (server_pubkey2_len cfg))) then false
  else hspost_ticket_age_ok cfg.

(** No CA mode: an epoch callback is refused. *)
Definition tlsi_epoch_init (cfg : client_cfg) : Z :=
  if has_epoch_load cfg || has_epoch_store cfg then CH_EINVAL else CH_OK.

(** What [hs_build_client_hello] reads of a configuration: the identity only
    beside a PSK. *)
Definition hello_cfg (cfg : client_cfg) : HsMessage.ch_cfg :=
  {| HsMessage.psk := (fun p => take (psk_len cfg) p) <$> psk cfg;
     HsMessage.psk_id := if is_set (psk cfg) then bytes_at (psk_id cfg) (psk_id_len cfg) else [];
     HsMessage.ticket := tk_age_add <$> ticket cfg;
     HsMessage.ticket_age_ms := ticket_age_ms cfg;
     HsMessage.require_pq := require_pq cfg;
     HsMessage.cpu := 0; HsMessage.cfg_hostname := []; HsMessage.spki_pin_count := 0%nat;
     HsMessage.cipher_suites := None; HsMessage.alpn_protocols := []; HsMessage.transport_params := [] |}.

(** ** Lemmas *)

(** The memory the caller's pointers name: bytes, as many as each length says. *)
Definition ptr_ok (p : option (list Z)) (len : nat) : Prop :=
  match p with Some b => bytes_ok b /\ (len <= length b)%nat /\ Z.of_nat (length b) < 2 ^ 63 | None => True end.
Definition saved_ok (saved : ch_saved_ticket) : Prop :=
  bytes_ok (tk_psk saved) /\ length (tk_psk saved) = HKDF_HASH_MAX /\ bytes_ok (tk_trust_hash saved) /\
  length (tk_trust_hash saved) = SHA256_LEN /\ bytes_ok (tk_identity saved) /\ length (tk_identity saved) = HsMessage.CH_TICKET_ID_MAX.
Definition memory_ok (cfg : client_cfg) : Prop :=
  ptr_ok (psk cfg) (psk_len cfg) /\ (match psk_id cfg with Some b => bytes_ok b /\ (psk_id_len cfg <= HsMessage.CH_TICKET_ID_MAX -> psk_id_len cfg <= length b)%nat | None => True end) /\
  match ticket cfg with Some saved => saved_ok saved | None => True end /\
  ptr_ok (server_pubkey cfg) (server_pubkey_len cfg) /\ ptr_ok (server_pubkey2 cfg) (server_pubkey2_len cfg) /\
  match cfg_buf cfg with Some b => bytes_ok b /\ length b = cfg_buf_len cfg | None => True end.

(** A session's configuration: one way to authenticate, a buffer, its lengths in
    range. *)
Definition session_cfg (cfg : client_cfg) : Prop :=
  memory_ok cfg /\ (CH_MIN_RXBUF <= cfg_buf_len cfg)%nat /\ is_set (cfg_buf cfg) = true /\
  (is_set (psk cfg) = true /\ (CH_PSK_LEN_MIN <= psk_len cfg)%nat /\ is_set (psk_id cfg) = true /\
   (1 <= psk_id_len cfg <= HsMessage.CH_TICKET_ID_MAX)%nat /\ server_pubkey cfg = None /\ server_pubkey2 cfg = None
   \/ psk cfg = None /\ is_set (server_pubkey cfg) = true).

Lemma present_ticket_memory cfg cfg' : hspost_present_ticket cfg = Some cfg' -> memory_ok cfg -> memory_ok cfg'.
Proof.
  unfold hspost_present_ticket. cbv zeta. destruct (ticket cfg) as [saved|] eqn:Et; [|intros H; injection H as ->; done].
  destruct (_ || (tk_lifetime_s saved =? 0)) eqn:Hl; [done|]. destruct (negb (hspost_trust_holds _ _)); [done|]. intros H (Hp & Hi & Ht & Hk & Hk2 & Hb). injection H as <-.
  rewrite Et in Ht. destruct Ht as (H1 & H2 & H3 & H4 & H5 & H6). unfold memory_ok. fields. rewrite Et.
  apply orb_false_iff in Hl as [Hl _]. apply andb_false_iff in Hl.
  assert (Hlen : tk_psk_len saved = 32%nat).
  { destruct Hl as [Hl|Hl]; apply negb_false_iff, Nat.eqb_eq in Hl; exact Hl. }
  unfold HKDF_HASH_MAX, SHA256_LEN in *. cbn in H2.
  split_and!; try done; unfold ptr_ok; [split_and!; [done|lia|lia]|lia].
Qed.

Lemma config_ok_session cfg : tlsi_config_ok cfg = true -> memory_ok cfg -> session_cfg cfg.
Proof.
  unfold tlsi_config_ok. intros H Hm. split; [done|].
  destruct (is_set (server_pubkey2 cfg) && _) eqn:H2; [done|].
  destruct (_ || negb (is_set (cfg_buf cfg)) || _) eqn:H1; [done|]. clear H.
  apply orb_false_iff in H1 as [H1 Hlen]. apply orb_false_iff in H1 as [Hauth Hbuf]. apply negb_false_iff in Hbuf.
  apply Nat.ltb_ge in Hlen. split; [done|]. split; [done|].
  unfold psk_configured, psk_id_len_ok in *. destruct (psk cfg) eqn:Ep; cbn [is_set negb andb] in *.
  - left. destruct (CH_PSK_LEN_MIN <=? psk_len cfg)%nat eqn:E1; [|done]. destruct (is_set (psk_id cfg)) eqn:E2; [|done].
    destruct (1 <=? psk_id_len cfg)%nat eqn:E3; [|done]. destruct (psk_id_len cfg <=? _)%nat eqn:E4; [|done].
    destruct (server_pubkey cfg); [done|]. destruct (server_pubkey2 cfg); [done|].
    apply Nat.leb_le in E1, E3, E4. done.
  - right. destruct (is_set (server_pubkey cfg)); [done|]. done.
Qed.
End Rules.

(** A session's ClientHello keeps the builder's bounds. *)
Lemma session_hello_ok pin_ecdsa cfg cookie : let _ := client_build pin_ecdsa in
  session_cfg cfg -> match cookie with Some c => (1 <= length c <= HSP_COOKIE_MAX)%nat | None => True end ->
  HsMessage.cfg_ok false false (hello_cfg cfg) cookie.
Proof.
  intros build (_ & _ & _ & Hauth) Hc. unfold HsMessage.cfg_ok. cbn. split_and!; try (cbn; lia); try done.
  - destruct Hauth as [(Hp & _ & _ & H & _)|[-> _]]; [rewrite Hp; unfold bytes_at; rewrite length_take; lia|cbn; lia].
  - repeat constructor; done.
Qed.
End Cfg.
