(* ===== verification/HsRecord.v ===== *)
(** * The session and its message reader: src/src/session.h,
    src/src/handshake_record.h, handshake_record.c, transcript.h

    The state a TRANSPORT=tcp-nonblocking client keeps between calls, and the
    reader that turns fed plaintext into whole handshake messages.  The reader
    is shown to be a byte queue: what it yields is what it was fed, in order. *)

From S2P Require Import Prelude Ct MdHash Sha256 Hkdf Build Wire HsMessage Record Cmd ClientCfg.
Import Sha256 Hkdf.
Local Open Scope Z_scope.
Local Open Scope word_scope.

(** ** Code points *)

Definition HS_SERVER_HELLO : Z := 2.
Definition HS_ENCRYPTED_EXTENSIONS : Z := 8.
Definition HS_CERTIFICATE : Z := 11.
Definition HS_CERTIFICATE_REQUEST : Z := 13.
Definition HS_CERTIFICATE_VERIFY : Z := 15.
Definition HS_FINISHED : Z := 20.
Definition HS_MESSAGE_HASH : Z := 254.
Definition ALERT_CLOSE_NOTIFY : Z := 0.
Definition ALERT_USER_CANCELED : Z := 90.
Definition ALERT_UNEXPECTED_MESSAGE : Z := 10.
Definition ALERT_BAD_RECORD_MAC : Z := 20.
Definition ALERT_RECORD_OVERFLOW : Z := 22.
Definition ALERT_DECRYPT_ERROR : Z := 51.
Definition ALERT_INTERNAL_ERROR : Z := 80.
Definition CH_ST_START : Z := 0.
Definition CH_ST_CONNECTED : Z := 1.
Definition CH_ST_CLOSED : Z := 2.
Definition CH_ST_FAILED : Z := 3.

(** ** The state *)

Definition CH_TX_PT : nat := 512.
Definition CH_TX_HELLO : nat := 617.
Definition CH_TX_STAGE : nat := if (CH_TX_PT + 1 + AEAD_TAG <=? CH_TX_HELLO)%nat then CH_TX_HELLO else (CH_TX_PT + 1 + AEAD_TAG)%nat.

(** [ch_tls_priv], the fields a client of this build writes.  The
    receive buffer the configuration points to is a field here. *)
Record ch_tls := Tls {
  t_cfg : client_cfg; t_buf : list Z; t_rd : rec_dir; t_wr : rec_dir;
  t_rd_secret : list Z; t_wr_secret : list Z; t_res_master : list Z; t_transcript : md_ctx (list Z);
  t_peer_limit : Z; t_state : Z; t_keys : bool; t_pin_slot : Z; t_psk_selected : bool; t_group : Z;
  t_alert_sent : Z; t_alert_received : Z; t_limit_sent : bool; t_pt_off : nat; t_pt_len : nat; t_tx : list Z;
  t_key_update_owed : bool; t_key_update_run : Z; t_read_closed : bool; t_send_epochs : Z; t_post_fill : nat }.
#[export] Instance eta_ch_tls : Eta ch_tls := fun t =>
  Tls (t_cfg t) (t_buf t) (t_rd t) (t_wr t) (t_rd_secret t) (t_wr_secret t) (t_res_master t) (t_transcript t)
    (t_peer_limit t) (t_state t) (t_keys t) (t_pin_slot t) (t_psk_selected t) (t_group t)
    (t_alert_sent t) (t_alert_received t) (t_limit_sent t) (t_pt_off t) (t_pt_len t) (t_tx t)
    (t_key_update_owed t) (t_key_update_run t) (t_read_closed t) (t_send_epochs t) (t_post_fill t).

(** [handshake_state] of this build.  Its back pointer [t] names the session, so
    the session is a field; [ccs_seen] and [quiet] belong to the blocking reader. *)
Record handshake_state := Hs {
  h_t : ch_tls; h_priv : list Z; h_pub : list Z; h_random : list Z; h_early : list Z; h_binder_key : list Z;
  h_handshake_secret : list Z; h_c_hs : list Z; h_s_hs : list Z; h_master : list Z;
  h_cookie : list Z; h_cookie_len : nat; h_record_size_limit : Z; h_encrypted : bool; h_alert : Z; h_server_finished_ok : bool }.
#[export] Instance eta_handshake_state : Eta handshake_state := fun h =>
  Hs (h_t h) (h_priv h) (h_pub h) (h_random h) (h_early h) (h_binder_key h) (h_handshake_secret h) (h_c_hs h) (h_s_hs h) (h_master h)
    (h_cookie h) (h_cookie_len h) (h_record_size_limit h) (h_encrypted h) (h_alert h) (h_server_finished_ok h).

(** What [memset] and [ct_wipe] leave. *)
Definition zero_bytes (n : nat) : list Z := replicate n 0.
Definition zero_dir : rec_dir := RecDir (zero_bytes AEAD_KEY) (zero_bytes AEAD_NONCE) 0.
Definition zero_transcript : md_ctx (list Z) := MdCtx (zero_bytes 8) 0 0 (zero_bytes SHA256_BLOCK).
Definition zero_tls : ch_tls :=
  Tls zero_cfg [] zero_dir zero_dir (zero_bytes HKDF_HASH_MAX) (zero_bytes HKDF_HASH_MAX) (zero_bytes HKDF_HASH_MAX) zero_transcript
    0 0 false 0 false 0 0 0 false 0 0 (zero_bytes (REC_HDR + CH_TX_STAGE)) false 0 false 0 0.
(** [ct_wipe(h, sizeof *h)], with the back pointer written again. *)
Definition wiped_hs (t : ch_tls) : handshake_state :=
  Hs t (zero_bytes X25519_LEN) (zero_bytes X25519_LEN) (zero_bytes 32) (zero_bytes HKDF_HASH_MAX) (zero_bytes HKDF_HASH_MAX) (zero_bytes HKDF_HASH_MAX)
    (zero_bytes HKDF_HASH_MAX) (zero_bytes HKDF_HASH_MAX) (zero_bytes HKDF_HASH_MAX) (zero_bytes 128) 0 0 false 0 false.

Abbreviation hs_cmd := (cmd handshake_state).
(** [h->alert = al;] and [h->t->... = ...;] *)
Definition set_alert (al : Z) : hs_cmd () := modify (fun h => h <| h_alert := al |>).
Definition upd_t (f : ch_tls -> ch_tls) : hs_cmd () := modify (fun h => h <| h_t := f (h_t h) |>).
(** [h->alert = al; return rc;] *)
Definition refuse {A} (al rc : Z) : hs_cmd A := set_alert al;; fail rc.

Module HsRecord.

(** ** The transcript *)

Definition transcript_init (s : md_ctx (list Z)) : md_ctx (list Z) := sha256_init (md_block s).
Definition transcript_update (s : md_ctx (list Z)) (inp : list Z) : md_ctx (list Z) := sha256_update s inp.
Definition transcript_hash_after (s : md_ctx (list Z)) (after : list Z) : list Z := (sha256_final (sha256_update s after)).1.

Definition hsr_suite_hash_len : nat := SHA256_LEN.
Definition hsr_transcript_hash : hs_cmd (list Z) := gets (fun h => transcript_hash_after (t_transcript (h_t h)) []).
Definition update_transcript (raw : list Z) : hs_cmd () :=
  upd_t (fun t => t <| t_transcript := transcript_update (t_transcript t) raw |>).

Definition hsr_restart_transcript (retry : list Z) : hs_cmd () :=
  upd_t (fun t =>
    let ch1 := transcript_hash_after (t_transcript t) [] in
    let synth := [HS_MESSAGE_HASH; 0; 0; u8 (Z.of_nat SHA256_LEN)] in
    let s := transcript_init (t_transcript t) in
    let s := transcript_update s synth in
    let s := transcript_update s ch1 in
    let s := transcript_update s retry in
    t <| t_transcript := s |>).

(** ** The reader *)

(** Appends what fits, after compacting; the count taken. *)
Definition compact (t : ch_tls) : ch_tls :=
  if (0 <? t_pt_off t)%nat then
    let n := (t_pt_len t - t_pt_off t)%nat in
    t <| t_buf := store_bytes (t_buf t) 0 (take n (drop (t_pt_off t) (t_buf t))) |> <| t_pt_len := n |> <| t_pt_off := 0%nat |>
  else t.
Definition hsr_feed (p : list Z) : hs_cmd nat := fun h =>
  let t := compact (h_t h) in
  let room := (cfg_buf_len (t_cfg t) - t_pt_len t)%nat in
  let n := if (length p <? room)%nat then length p else room in
  let t := t <| t_buf := store_bytes (t_buf t) (t_pt_len t) (take n p) |> <| t_pt_len := (t_pt_len t + n)%nat |> in
  Some (h <| h_t := t |>, Ok n).

Inductive peeked :=
  | Incomplete
  | Whole (raw_len : nat)
  | Refused (rc alert : Z).

Definition hsr_peek_message (t : ch_tls) : peeked :=
  let avail := (t_pt_len t - t_pt_off t)%nat in
  if (avail <? 4)%nat then Incomplete
  else
    let p := drop (t_pt_off t) (t_buf t) in
    let msg_len := ((p !!! 1%nat) <<64 16) .| ((p !!! 2%nat) <<64 8) .| (p !!! 3%nat) in
    if 0x4000 <? msg_len then Refused CH_EPROTO ALERT_DECODE_ERROR
    else if Z.of_nat (cfg_buf_len (t_cfg t)) <? 4 + msg_len then Refused CH_ECAP ALERT_INTERNAL_ERROR
    else if Z.of_nat avail <? 4 + msg_len then Incomplete
    else Whole (4 + Z.to_nat msg_len).

(** The type and the raw message. *)
Definition hsr_next_msg : hs_cmd (Z * list Z) :=
  t ← gets h_t;
  match hsr_peek_message t with
  | Incomplete => fail CH_EINVAL
  | Refused rc alert => refuse alert rc
  | Whole whole =>
      let p := drop (t_pt_off t) (t_buf t) in
      upd_t (fun t => t <| t_pt_off := (t_pt_off t + whole)%nat |>);;
      mret (p !!! 0%nat, take whole p)
  end.

Definition hsr_check_record_end : hs_cmd () :=
  t ← gets h_t;
  if negb (t_pt_off t =? t_pt_len t)%nat then refuse ALERT_UNEXPECTED_MESSAGE CH_EPROTO else mret ().

Definition hsr_refuse_alert {A} (pt : list Z) : hs_cmd A :=
  if negb (length pt =? 2)%nat then refuse ALERT_DECODE_ERROR CH_EPROTO
  else
    let description := pt !!! 1%nat in
    (if negb (description =? ALERT_CLOSE_NOTIFY) && negb (description =? ALERT_USER_CANCELED)
     then upd_t (fun t => t <| t_alert_received := description |>) else mret ());;
    fail CH_EPROTO.

(** ** Reference: a queue of bytes *)

(** The bytes fed and not yet read. *)
Definition unread (t : ch_tls) : list Z := take (t_pt_len t - t_pt_off t) (drop (t_pt_off t) (t_buf t)).
Definition reader_ok (t : ch_tls) : Prop :=
  length (t_buf t) = cfg_buf_len (t_cfg t) /\ bytes_ok (t_buf t) /\ (t_pt_off t <= t_pt_len t <= cfg_buf_len (t_cfg t))%nat.
(** The session with another queue. *)
Definition with_queue (t : ch_tls) (buf : list Z) (off len : nat) : ch_tls :=
  t <| t_buf := buf |> <| t_pt_off := off |> <| t_pt_len := len |>.

(** A handshake message: its type, a three-byte length and the body. *)
Definition message (type : Z) (body : list Z) : list Z := type :: be_bytes 3 (Z.of_nat (length body)) ++ body.

(** ** Lemmas: the transcript *)

Lemma transcript_init_absorbed s : length (md_block s) = SHA256_BLOCK -> sha256_absorbed (transcript_init s) [].
Proof. apply sha256_init_absorbed. Qed.

Lemma transcript_block s m : sha256_absorbed s m -> length (md_block s) = SHA256_BLOCK.
Proof. by intros (_ & _ & H & _). Qed.

Lemma transcript_hash_after_spec s m after : sha256_absorbed s m ->
  transcript_hash_after s after = sha256_spec (m ++ after).
Proof. intros H. unfold transcript_hash_after. by apply sha256_final_digest, update_absorbs. Qed.

Lemma transcript_update_absorbs s m inp : sha256_absorbed s m -> sha256_absorbed (transcript_update s inp) (m ++ inp).
Proof. apply update_absorbs. Qed.

(** ** Lemmas: the queue *)

Lemma length_unread t : reader_ok t -> length (unread t) = (t_pt_len t - t_pt_off t)%nat.
Proof. intros (H & _ & Ho). unfold unread. rewrite length_take, length_drop. lia. Qed.

Lemma unread_ok t : reader_ok t -> bytes_ok (unread t).
Proof. intros (_ & Hb & _). unfold unread. by apply Forall_take, Forall_drop. Qed.

Lemma unread_drop t : reader_ok t -> drop (t_pt_off t) (t_buf t) = unread t ++ drop (t_pt_len t) (t_buf t).
Proof.
  intros (H & _ & Ho). unfold unread. rewrite <- (take_drop (t_pt_len t - t_pt_off t) (drop (t_pt_off t) (t_buf t))) at 1.
  rewrite drop_drop. do 2 f_equal. lia.
Qed.

Lemma compact_spec t : reader_ok t ->
  exists buf, compact t = with_queue t buf 0 (length (unread t)) /\ length buf = cfg_buf_len (t_cfg t) /\ bytes_ok buf /\
    take (length (unread t)) buf = unread t.
Proof.
  intros Hr. pose proof (length_unread t Hr) as Hl. pose proof Hr as (Hb & Hok & Ho). unfold compact.
  destruct (Nat.ltb_spec 0 (t_pt_off t)) as [Hpos|Hz].
  - fold (unread t). exists (store_bytes (t_buf t) 0 (unread t)). rewrite <- Hl. split_and!.
    + by destruct t.
    + rewrite length_store_bytes; lia.
    + unfold store_bytes. rewrite take_0. apply Forall_app_2; [constructor|]. apply Forall_app_2; [by apply unread_ok|by apply Forall_drop].
    + exact (take_store_bytes (t_buf t) 0 (unread t) ltac:(lia)).
  - assert (E0 : t_pt_off t = 0%nat) by lia. exists (t_buf t). rewrite Hl, E0, Nat.sub_0_r. split_and!; [|done|done|].
    + destruct t. cbn in E0. subst. reflexivity.
    + unfold unread. by rewrite E0, drop_0, Nat.sub_0_r.
Qed.

(** Feeding appends what fits in the buffer. *)
Lemma hsr_feed_spec p Q E h : reader_ok (h_t h) -> bytes_ok p ->
  (forall buf off len n, let t := with_queue (h_t h) buf off len in
     n = Nat.min (length p) (cfg_buf_len (t_cfg (h_t h)) - length (unread (h_t h))) ->
     reader_ok t -> unread t = unread (h_t h) ++ take n p -> Q n (h <| h_t := t |>)) ->
  wp (hsr_feed p) Q E h.
Proof.
  intros Hr Hp HQ. destruct (compact_spec _ Hr) as (buf & Ec & Hl & Hb & Ht). unfold hsr_feed, wp. rewrite Ec.
  unfold with_queue. fields. set (t := h_t h) in *. set (u := unread t) in *.
  assert (Hu : (length u <= cfg_buf_len (t_cfg t))%nat) by (subst u; rewrite length_unread by done; destruct Hr as (_ & _ & ?); lia).
  set (n := if (length p <? _)%nat then _ else _).
  assert (Hn : n = Nat.min (length p) (cfg_buf_len (t_cfg t) - length u)) by (subst n; destruct (Nat.ltb_spec (length p) (cfg_buf_len (t_cfg t) - length u)); lia).
  clearbody n. assert (Hln : length (take n p) = n) by (rewrite length_take; lia).
  specialize (HQ (store_bytes buf (length u) (take n p)) 0%nat (length u + n)%nat n Hn).
  assert (Hlen : length (store_bytes buf (length u) (take n p)) = cfg_buf_len (t_cfg t)) by (rewrite length_store_bytes; lia).
  match goal with |- Q n (h <| h_t := ?x |>) => replace x with (with_queue t (store_bytes buf (length u) (take n p)) 0 (length u + n)) by (by destruct t) end.
  apply HQ.
  - unfold reader_ok, with_queue. fields. split_and!; [done| |lia|lia].
    unfold store_bytes. apply Forall_app_2; [by apply Forall_take|]. apply Forall_app_2; [by apply Forall_take|by apply Forall_drop].
  - unfold unread at 1, with_queue. fields. rewrite drop_0, Nat.sub_0_r. rewrite <- Hln at 1. rewrite take_store_bytes by lia. by rewrite Ht.
Qed.

(** A byte of the queue, read at its place in the buffer. *)
Lemma unread_lookup t i : reader_ok t -> (i < length (unread t))%nat -> drop (t_pt_off t) (t_buf t) !!! i = unread t !!! i.
Proof. intros Hr Hi. rewrite (unread_drop t Hr). by apply lookup_total_app_l. Qed.

Lemma join24 a b c : byte_ok a -> byte_ok b -> byte_ok c ->
  (a <<64 16) .| (b <<64 8) .| c = be_val [a; b; c].
Proof.
  intros. unfold be_val. cbn [foldl]. rewrite !u64_small by word_lia.
  unfold byte_ok in *. rewrite <- Z.lor_assoc, (lor_shiftl_add' 8 c b), (lor_shiftl_add' 16) by lia. lia.
Qed.

(** The header at the front of the queue. *)
Definition header_len (u : list Z) : Z := be_val (take 3 (drop 1 u)).
Lemma header_split u : bytes_ok u -> (4 <= length u)%nat ->
  (u !!! 1%nat <<64 16) .| (u !!! 2%nat <<64 8) .| (u !!! 3%nat) = header_len u /\ 0 <= header_len u < 2 ^ 24 /\
  u = u !!! 0%nat :: be_bytes 3 (header_len u) ++ drop 4 u.
Proof.
  intros Hu Hl. do 4 (destruct u as [|? u]; [cbn in Hl; lia|]). repeat (apply Forall_cons in Hu as [? Hu]).
  unfold header_len. cbn [drop take lookup_total list_lookup_total]. rewrite ?take_0, ?drop_0. rewrite join24 by done. split; [done|]. split.
  - apply (be_val_bound [_; _; _]). repeat first [assumption | apply Forall_cons_2 | apply Forall_nil_2].
  - assert (E : bytes_ok [z0; z1; z2]) by repeat first [assumption | apply Forall_cons_2 | apply Forall_nil_2].
    apply be_bytes_val in E. cbn [length] in E. by rewrite E.
Qed.

Lemma message_split u : bytes_ok u -> (4 <= length u)%nat -> header_len u + 4 <= Z.of_nat (length u) ->
  let n := (4 + Z.to_nat (header_len u))%nat in
  take n u = message (u !!! 0%nat) (take (n - 4) (drop 4 u)) /\ length (take (n - 4) (drop 4 u)) = (n - 4)%nat.
Proof.
  intros Hu Hl Hh n. destruct (header_split u Hu Hl) as (_ & Hr & E).
  assert (Hd : length (take (n - 4) (drop 4 u)) = (n - 4)%nat) by (rewrite length_take, length_drop; lia). split; [|done].
  unfold message. rewrite Hd. replace (Z.of_nat (n - 4)) with (header_len u) by lia.
  rewrite E at 1. change (u !!! 0%nat :: be_bytes 3 (header_len u) ++ drop 4 u) with ((u !!! 0%nat :: be_bytes 3 (header_len u)) ++ drop 4 u).
  rewrite take_app_ge by (cbn [length]; rewrite length_be_bytes; lia). cbn [length]. rewrite length_be_bytes. cbn [app].
  by replace (n - 4)%nat with (n - 4)%nat by lia.
Qed.

Lemma peek_view t : reader_ok t ->
  hsr_peek_message t =
  (let u := unread t in
   if (length u <? 4)%nat then Incomplete
   else if 0x4000 <? header_len u then Refused CH_EPROTO ALERT_DECODE_ERROR
   else if Z.of_nat (cfg_buf_len (t_cfg t)) <? 4 + header_len u then Refused CH_ECAP ALERT_INTERNAL_ERROR
   else if Z.of_nat (length u) <? 4 + header_len u then Incomplete
   else Whole (4 + Z.to_nat (header_len u))).
Proof.
  intros Hr. unfold hsr_peek_message. cbv zeta. rewrite <- (length_unread t Hr).
  destruct (Nat.ltb_spec (length (unread t)) 4) as [|Hl]; [done|].
  rewrite !(unread_lookup t) by (done || lia). by destruct (header_split (unread t) (unread_ok t Hr) Hl) as (-> & _).
Qed.

(** What a whole message is. *)
Lemma peek_whole t n : reader_ok t -> hsr_peek_message t = Whole n ->
  exists type body, take n (unread t) = message type body /\ byte_ok type /\ bytes_ok body /\ (n = 4 + length body)%nat /\
    (n <= length (unread t))%nat /\ Z.of_nat (length body) <= 0x4000.
Proof.
  intros Hr. rewrite peek_view by done. cbv zeta. pose proof (unread_ok t Hr) as Hu. set (u := unread t) in *.
  destruct (Nat.ltb_spec (length u) 4) as [|Hl]; [done|]. destruct (Z.ltb_spec 0x4000 (header_len u)); [done|].
  destruct (Z.ltb_spec (Z.of_nat (cfg_buf_len (t_cfg t))) (4 + header_len u)); [done|].
  destruct (Z.ltb_spec (Z.of_nat (length u)) (4 + header_len u)); [done|]. intros [= <-].
  destruct (message_split u Hu Hl ltac:(lia)) as [E Ed]. destruct (header_split u Hu Hl) as (_ & Hh & _).
  eexists _, _. split; [exact E|]. split_and!; [by apply bytes_ok_total|by apply Forall_take, Forall_drop|lia|lia|lia].
Qed.

Lemma message_header type body rest : Z.of_nat (length body) < 2 ^ 24 ->
  header_len (message type body ++ rest) = Z.of_nat (length body) /\ (message type body ++ rest) !!! 0%nat = type.
Proof.
  intros Hb. split; [|done]. unfold header_len, message. cbn [drop app]. rewrite drop_0, <- app_assoc, take_app_le, take_ge by (rewrite length_be_bytes; lia).
  rewrite be_val_bytes. apply Z.mod_small. lia.
Qed.

Lemma length_message type body : length (message type body) = (4 + length body)%nat.
Proof. unfold message. cbn [length]. rewrite length_app, length_be_bytes. lia. Qed.

Lemma message_ok type body : byte_ok type -> bytes_ok body -> bytes_ok (message type body).
Proof. intros. unfold message. constructor; [done|]. apply Forall_app_2; [apply be_bytes_ok|done]. Qed.

Lemma drop_message type body : drop 4 (message type body) = body.
Proof. unfold message. cbn [drop]. rewrite drop_app_ge by (rewrite length_be_bytes; lia). by rewrite length_be_bytes. Qed.

(** A whole message at the front of the queue is seen. *)
Lemma peek_message t type body rest : reader_ok t -> unread t = message type body ++ rest ->
  Z.of_nat (length body) <= 0x4000 -> hsr_peek_message t = Whole (length (message type body)).
Proof.
  intros Hr Eu Hb. rewrite peek_view by done. cbv zeta. pose proof (length_unread t Hr) as Hl. pose proof Hr as (_ & _ & Ho).
  rewrite Eu in *. destruct (message_header type body rest ltac:(lia)) as [Eh _]. rewrite Eh.
  rewrite length_app, length_message in *.
  destruct (Nat.ltb_spec (4 + length body + length rest) 4); [lia|]. destruct (Z.ltb_spec 0x4000 (Z.of_nat (length body))); [lia|].
  destruct (Z.ltb_spec (Z.of_nat (cfg_buf_len (t_cfg t))) (4 + Z.of_nat (length body))); [lia|].
  destruct (Z.ltb_spec (Z.of_nat (4 + length body + length rest)) (4 + Z.of_nat (length body))); [lia|]. f_equal. lia.
Qed.

Lemma peek_empty t : reader_ok t -> (length (unread t) < 4)%nat -> hsr_peek_message t = Incomplete.
Proof. intros Hr Hl. rewrite peek_view by done. cbv zeta. by destruct (Nat.ltb_spec (length (unread t)) 4); [|lia]. Qed.

(** The session after a message was read. *)
Definition skipped (n : nat) (t : ch_tls) : ch_tls := with_queue t (t_buf t) (t_pt_off t + n) (t_pt_len t).

Lemma skipped_ok t n : reader_ok t -> (n <= length (unread t))%nat -> reader_ok (skipped n t) /\ unread (skipped n t) = drop n (unread t).
Proof.
  intros Hr Hn. rewrite length_unread in Hn by done. pose proof Hr as (Hl & Hb & Ho). unfold skipped, with_queue, reader_ok, unread. fields. split.
  - split_and!; try done; lia.
  - rewrite <- (drop_drop (t_buf t)). rewrite skipn_firstn_comm. f_equal. lia.
Qed.

(** Reading the message at the front of the queue. *)
Lemma next_msg_wp type body rest Q E h : reader_ok (h_t h) -> unread (h_t h) = message type body ++ rest ->
  Z.of_nat (length body) <= 0x4000 ->
  Q (type, message type body) (h <| h_t := skipped (length (message type body)) (h_t h) |>) ->
  wp hsr_next_msg Q E h.
Proof.
  intros Hr Eu Hb HQ. unfold hsr_next_msg, upd_t. wps. rewrite (peek_message _ type body rest) by done. cbv zeta. wps. fields.
  rewrite unread_drop, Eu, <- app_assoc by done. rewrite take_app_length.
  change ((message type body ++ rest ++ drop (t_pt_len (h_t h)) (t_buf (h_t h))) !!! 0%nat) with type.
  replace (skipped _ (h_t h)) with ((h_t h) <| t_pt_off := (t_pt_off (h_t h) + length (message type body))%nat |>) in HQ by (by destruct (h_t h)).
  exact HQ.
Qed.

(** The driver reads only after it saw a whole message. *)
Lemma whole_message t n : reader_ok t -> hsr_peek_message t = Whole n ->
  exists type body rest, unread t = message type body ++ rest /\ byte_ok type /\ bytes_ok body /\ Z.of_nat (length body) <= 0x4000.
Proof.
  intros Hr Hp. destruct (peek_whole t n Hr Hp) as (type & body & E & Ht & Hb & _ & _ & Hl).
  exists type, body, (drop n (unread t)). rewrite <- E, take_drop. done.
Qed.

Lemma skipped_message t type body rest : reader_ok t -> unread t = message type body ++ rest ->
  let t' := skipped (length (message type body)) t in reader_ok t' /\ unread t' = rest.
Proof.
  intros Hr Eu. destruct (skipped_ok t (length (message type body)) Hr) as [H1 H2]; [rewrite Eu, length_app; lia|].
  split; [done|]. by rewrite H2, Eu, drop_app_length.
Qed.
End HsRecord.
