(* ===== verification/HsFlight.v ===== *)
(** * The client's flight handlers: src/src/handshake_flight.c, handshake_auth.c

    One command per handshake message, composed by [TcpClient] in the order the
    driver's step table runs them.  The build is the raw client of [ClientCfg].
    The signature verifier of the pin ([rsa_pss_verify] or [p256_ecdsa_verify])
    is a parameter: every theorem holds for every verifier.  The bytes a random
    draw writes are arguments of [hsf_begin]. *)

From S2P Require Import Prelude Ct MdHash Sha256 Sha512 X25519 Reader Build Wire Hkdf Keysched HsParser.
From S2P Require Import HsParserEe SrvParser HsMessage Record Cmd ClientCfg HsRecord.
Import Sha256 Hkdf Keysched HsRecord Cfg.
Local Open Scope Z_scope.
Local Open Scope word_scope.

Module HsFlight.

(** [CH_BINDERS_TAIL(hash_len)] and [HSF_FINISHED_MAX]. *)
Definition CH_BINDERS_TAIL (hash_len : nat) : nat := (3 + hash_len)%nat.
Definition HSF_FINISHED_MAX : nat := (4 + HKDF_HASH_MAX)%nat.

Section Client.
Context (pin_ecdsa : bool) (pin_verify : list Z -> list Z -> list Z -> bool).
#[local] Instance build : HsBuild := client_build pin_ecdsa.

(** [cfg.psk != NULL] *)
Definition psk_set (t : ch_tls) : bool := is_set (psk (t_cfg t)).
Definition psk_bytes (t : ch_tls) : list Z := bytes_at (psk (t_cfg t)) (psk_len (t_cfg t)).

Definition early_secret_without_psk : hs_cmd () :=
  r ← call (ks_early hsr_suite_hash_len (zero_bytes hsr_suite_hash_len) false);
  modify (fun h => h <| h_early := r.1 |>).

(** The check of each draw: it is not the zeros [rand_draw] wrote first. *)
Definition drawn (bytes : list Z) : bool := ct_memeq bytes (zero_bytes 32) 32 =? 0.

Definition hsf_begin (draw_priv draw_random : list Z) : hs_cmd () :=
  modify (fun h => h <| h_priv := draw_priv |>);;
  ch_assert (drawn draw_priv);;
  modify (fun h => h <| h_pub := X25519.x25519_base (h_priv h) |>);;
  modify (fun h => h <| h_random := draw_random |>);;
  ch_assert (drawn draw_random);;
  t ← gets h_t;
  (if psk_set t then
     r ← call (ks_early (HsMessage.hs_psk_hash_len (hello_cfg (t_cfg t))) (psk_bytes t) (is_set (ticket (t_cfg t))));
     modify (fun h => h <| h_early := r.1 |> <| h_binder_key := r.2 |>)
   else mret ());;
  upd_t (fun t => t <| t_transcript := transcript_init (t_transcript t) |>).

(** The cookie of the retry, when there is one. *)
Definition hello_cookie (h : handshake_state) : option (list Z) :=
  if (0 <? h_cookie_len h)%nat then Some (take (h_cookie_len h) (h_cookie h)) else None.

(** The message, written at [t.tx + REC_HDR]; [None] for a length of 0. *)
Definition hsf_build_client_hello : hs_cmd (option nat) :=
  h ← get_;
  let t := h_t h in
  let at_ := REC_HDR in
  match HsMessage.hs_build_client_hello false false (drop at_ (t_tx t)) (length (t_tx t) - at_) (hello_cfg (t_cfg t)) [] None
          (h_pub h) (h_random h) (h_record_size_limit h) (hello_cookie h) with
  | None => set_alert ALERT_INTERNAL_ERROR;; mret None
  | Some out =>
      let n := length out in
      out ← (if psk_set t then
               let hash_len := HsMessage.hs_psk_hash_len (hello_cfg (t_cfg t)) in
               let hash := transcript_hash_after (t_transcript t) (take (n - CH_BINDERS_TAIL hash_len) out) in
               binder ← call (ks_verify_data hash_len (h_binder_key h) hash);
               mret (store_bytes out (n - hash_len) binder)
             else mret out);
      upd_t (fun t => t <| t_tx := store_bytes (t_tx t) at_ out |>);;
      update_transcript out;;
      mret (Some n)
  end.

Definition take_retry (info : Hsp.server_hello_info) : hs_cmd () :=
  let cookie_len := length (default [] (Hsp.sh_cookie info)) in
  if (cookie_len =? 0)%nat then fail CH_EPROTO
  else
    modify (fun h => match Hsp.sh_cookie info with
                     | Some cookie => h <| h_cookie := store_bytes (h_cookie h) 0 cookie |>
                     | None => h
                     end);;
    modify (fun h => h <| h_cookie_len := cookie_len |>).

(** A handler whose failure writes this alert. *)
Definition with_alert {A} (al : Z) (c : hs_cmd A) : hs_cmd A := fun h =>
  match c h with
  | Some (h, Code rc) => Some (h <| h_alert := al |>, Code rc)
  | r => r
  end.

(** The answer of a parser that may write the alert. *)
Definition parsed {A} (o : option (outcome A)) : hs_cmd A :=
  o ← call o;
  match o with
  | Done a => mret a
  | Refuse rc None => fail rc
  | Refuse rc (Some al) => refuse al rc
  end.

Definition hsf_read_server_hello : hs_cmd Hsp.server_hello_info :=
  m ← hsr_next_msg;
  let '(type, raw) := m in
  if negb (type =? HS_SERVER_HELLO) then refuse ALERT_UNEXPECTED_MESSAGE CH_EPROTO
  else
    t ← gets h_t;
    info ← with_alert ALERT_ILLEGAL_PARAMETER
             (parsed (parse (Hsp.hsp_parse_server_hello (psk_set t) Hsp.zero_info) (drop 4 raw)));
    if Hsp.sh_hrr info then
      hsr_restart_transcript raw;;
      with_alert ALERT_ILLEGAL_PARAMETER (take_retry info);;
      mret info
    else update_transcript raw;; mret info.

Definition decline_psk {A} : hs_cmd A := refuse ALERT_HANDSHAKE_FAILURE CH_EAUTH.

Definition hsf_accept_server_hello (info : Hsp.server_hello_info) : hs_cmd () :=
  upd_t (fun t => t <| t_group := Hsp.sh_group info |>);;
  if negb (Hsp.sh_have_share info) then refuse ALERT_HANDSHAKE_FAILURE CH_EAUTH
  else
    t ← gets h_t;
    let psk_offered := psk_set t in
    (if negb psk_offered then early_secret_without_psk else mret ());;
    (if psk_offered && negb (Hsp.sh_psk_ok info) then decline_psk else mret ());;
    upd_t (fun t => t <| t_psk_selected := psk_offered && Hsp.sh_psk_ok info |>).

Definition hsf_derive_handshake_secrets (info : Hsp.server_hello_info) : hs_cmd () :=
  h ← get_;
  let '(ecdhe, shared_ok) := X25519.x25519 (h_priv h) (Hsp.sh_server_pub info) in
  modify (fun h => h <| h_priv := zero_bytes X25519_LEN |> <| h_pub := zero_bytes X25519_LEN |> <| h_random := zero_bytes 32 |>);;
  if negb shared_ok then
    modify (fun h => h <| h_early := zero_bytes HKDF_HASH_MAX |> <| h_binder_key := zero_bytes HKDF_HASH_MAX |>);;
    refuse ALERT_ILLEGAL_PARAMETER CH_EPROTO
  else
    hash ← hsr_transcript_hash;
    r ← call (ks_handshake hsr_suite_hash_len (h_early h) ecdhe hash);
    let '(handshake_secret, c_hs, s_hs) := r in
    modify (fun h => h <| h_handshake_secret := handshake_secret |> <| h_c_hs := c_hs |> <| h_s_hs := s_hs |>);;
    modify (fun h => h <| h_early := zero_bytes HKDF_HASH_MAX |> <| h_binder_key := zero_bytes HKDF_HASH_MAX |>).

(** The extension parser writes [t.peer_limit] as it reads; after a refusal,
    which ends the session, the model keeps the old value. *)
Definition hsf_read_encrypted_extensions : hs_cmd () :=
  m ← hsr_next_msg;
  let '(type, raw) := m in
  if negb (type =? HS_ENCRYPTED_EXTENSIONS) then refuse ALERT_UNEXPECTED_MESSAGE CH_EPROTO
  else
    set_alert ALERT_ILLEGAL_PARAMETER;;
    t ← gets h_t;
    s ← parsed (parse (Ee.hsp_parse_encrypted_exts (Ee.EeOffer [] false 0) (t_peer_limit t) 0 0) (drop 4 raw));
    upd_t (fun t => t <| t_peer_limit := Ee.ee_peer_limit s |>);;
    update_transcript raw.

(** ** Server authentication *)

Definition cv_context : list Z := str "TLS 1.3, server CertificateVerify" ++ [0].
Definition hsa_hash_signed_content (hash : list Z) : list Z :=
  let pad := replicate 64 32 in
  let s := sha256_init (replicate SHA256_BLOCK 0) in
  let s := sha256_update s pad in
  let s := sha256_update s cv_context in
  let s := sha256_update s hash in
  (sha256_final s).1.

(** [for (int i = 0; i < 2 && !sig_ok && keys[i] != NULL; i++)]: the slot that
    verified. *)
Fixpoint try_pins (i : Z) (keys : list (option (list Z))) (signed_hash sig : list Z) : option Z :=
  match keys with
  | Some key :: keys => if pin_verify key signed_hash sig then Some (i + 1) else try_pins (i + 1) keys signed_hash sig
  | _ => None
  end.
Definition pins (cfg : client_cfg) : list (option (list Z)) :=
  [take (server_pubkey_len cfg) <$> server_pubkey cfg; take (server_pubkey2_len cfg) <$> server_pubkey2 cfg].

Definition check_certificate_verify (hash : list Z) : hs_cmd () :=
  m ← hsr_next_msg;
  let '(type, raw) := m in
  if negb (type =? HS_CERTIFICATE_VERIFY) then refuse ALERT_UNEXPECTED_MESSAGE CH_EPROTO
  else
    set_alert ALERT_DECODE_ERROR;;
    sig ← parsed (parse Ee.hsp_parse_certificate_verify (drop 4 raw));
    let signed_hash := hsa_hash_signed_content hash in
    t ← gets h_t;
    match try_pins 0 (pins (t_cfg t)) signed_hash sig.2 with
    | Some slot => upd_t (fun t => t <| t_pin_slot := slot |>);; update_transcript raw
    | None => refuse ALERT_DECRYPT_ERROR CH_EAUTH
    end.

Definition hsa_server_auth : hs_cmd () :=
  m ← hsr_next_msg;
  let '(type, raw) := m in
  if (type =? HS_CERTIFICATE_REQUEST) then refuse ALERT_HANDSHAKE_FAILURE CH_EAUTH
  else if negb (type =? HS_CERTIFICATE) then refuse ALERT_UNEXPECTED_MESSAGE CH_EPROTO
  else
    set_alert ALERT_DECODE_ERROR;;
    parsed (parse Ee.hsp_parse_certificate (drop 4 raw));;
    update_transcript raw.

Definition hsa_read_certificate_verify : hs_cmd () :=
  hash ← hsr_transcript_hash;
  check_certificate_verify hash.

(** ** Finished *)

Definition hsf_read_finished : hs_cmd () :=
  hash ← hsr_transcript_hash;
  m ← hsr_next_msg;
  let '(type, raw) := m in
  if (type =? HS_CERTIFICATE) || (type =? HS_CERTIFICATE_REQUEST) then refuse ALERT_HANDSHAKE_FAILURE CH_EAUTH
  else if negb (type =? HS_FINISHED) || negb (length raw =? 4 + hsr_suite_hash_len)%nat then
    refuse ALERT_UNEXPECTED_MESSAGE CH_EPROTO
  else
    s_hs ← gets h_s_hs;
    want ← call (ks_verify_data hsr_suite_hash_len s_hs hash);
    if ct_memeq want (drop 4 raw) hsr_suite_hash_len =? 0 then refuse ALERT_DECRYPT_ERROR CH_EAUTH
    else
      update_transcript raw;;
      modify (fun h => h <| h_server_finished_ok := true |>).

(** The client Finished. *)
Definition hsf_complete : hs_cmd (list Z) :=
  h ← get_;
  ch_assert (h_server_finished_ok h);;
  hash ← hsr_transcript_hash;
  r ← call (ks_master hsr_suite_hash_len (h_handshake_secret h) hash);
  let '(master, c_ap, s_ap) := r in
  modify (fun h => h <| h_master := master |>);;
  upd_t (fun t => t <| t_wr_secret := c_ap |> <| t_rd_secret := s_ap |>);;
  c_hs ← gets h_c_hs;
  verify_data ← call (ks_verify_data hsr_suite_hash_len c_hs hash);
  let finished := [HS_FINISHED; 0; 0; u8 (Z.of_nat hsr_suite_hash_len)] ++ verify_data in
  update_transcript finished;;
  hash ← hsr_transcript_hash;
  res_master ← call (ks_res_master hsr_suite_hash_len master hash);
  upd_t (fun t => t <| t_res_master := res_master |>);;
  mret finished.

(** ** Reference: the secrets and messages of RFC 9846 *)

Definition psk_value (cfg : client_cfg) : list Z :=
  match psk cfg with Some p => take (psk_len cfg) p | None => zero_string 32 end.
Definition binder_key (cfg : client_cfg) : list Z :=
  Derive_Secret 32 (Early 32 (psk_value cfg)) (if is_set (ticket cfg) then "res binder" else "ext binder") (Hash 32 []).
(** [verify_data] of section 4.5.3, and a PSK binder. *)
Definition finished_mac (key hash : list Z) : list Z := hmac_of 32 (Expand_Label 32 key (str "finished") [] 32) hash.

(** The hello the configuration gives, before its binder. *)
Definition plain_hello (cfg : client_cfg) (pub random : list Z) (limit : Z) (cookie : option (list Z)) : list Z :=
  message HsMessage.HS_CLIENT_HELLO (HsMessage.client_hello_body false false (hello_cfg cfg) [] None pub random limit cookie).
(** The hello sent after the transcript [prefix]. *)
Definition sent_hello (cfg : client_cfg) (prefix pub random : list Z) (limit : Z) (cookie : option (list Z)) : list Z :=
  let m := plain_hello cfg pub random limit cookie in
  if is_set (psk cfg) then
    store_bytes m (length m - 32) (finished_mac (binder_key cfg) (sha256_spec (prefix ++ take (length m - 35) m)))
  else m.
(** Section 4.4.1: what stands for the first hello after a retry. *)
Definition retry_prefix (hello retry : list Z) : list Z := message HS_MESSAGE_HASH (sha256_spec hello) ++ retry.

(** The early secret and the binder key are in place where the PSK is. *)
Definition early_ok (h : handshake_state) : Prop :=
  psk_set (h_t h) = true -> h_early h = Early 32 (psk_value (t_cfg (h_t h))) /\ h_binder_key h = binder_key (t_cfg (h_t h)).
(** A code and an alert a handler fails with. *)
Definition err_code (rc : Z) : Prop := rc = CH_EPROTO \/ rc = CH_EAUTH \/ rc = CH_ECAP.
Definition alert_ok (al : Z) : Prop := byte_ok al /\ al <> 0.

#[local] Opaque hmac_of expand_label_spec sha256_spec X25519.x25519 X25519.x25519_base transcript_update transcript_init transcript_hash_after.

(** ** Lemmas *)

Lemma psk_value_size cfg : session_cfg cfg -> size_ok (psk_value cfg).
Proof.
  intros ((Hp & _) & _). unfold psk_value, size_ok. destruct (psk cfg) as [p|]; [|done].
  destruct Hp as (_ & _ & H). rewrite length_take. lia.
Qed.

Lemma finished_mac_shape key hash : length (finished_mac key hash) = 32%nat /\ bytes_ok (finished_mac key hash).
Proof. apply hmac_of_shape. by left. Qed.

Lemma verify_data_spec key hash : length hash = 32%nat -> ks_verify_data 32 key hash = Some (finished_mac key hash).
Proof. intros. apply ks_verify_data_correct; [by left|done]. Qed.

Lemma sha_length m : length (sha256_spec m) = 32%nat.
Proof. apply sha256_spec_shape. Qed.
Lemma sha_ok m : bytes_ok (sha256_spec m).
Proof. apply sha256_spec_shape. Qed.

Lemma early_without_psk : exists k, ks_early 32 (zero_bytes 32) false = Some (Early 32 (zero_string 32), k).
Proof. eexists. apply ks_early_correct; [by left|done]. Qed.

Definition begun (draw_priv draw_random : list Z) (h : handshake_state) : handshake_state :=
  let t := h_t h in
  let h := h <| h_priv := draw_priv |> <| h_pub := X25519.x25519_base draw_priv |> <| h_random := draw_random |> in
  let h := if psk_set t then h <| h_early := Early 32 (psk_value (t_cfg t)) |> <| h_binder_key := binder_key (t_cfg t) |> else h in
  h <| h_t := t <| t_transcript := transcript_init (t_transcript t) |> |>.

Lemma hsf_begin_wp draw_priv draw_random Q E h : session_cfg (t_cfg (h_t h)) -> drawn draw_priv = true -> drawn draw_random = true ->
  Q () (begun draw_priv draw_random h) -> wp (hsf_begin draw_priv draw_random) Q E h.
Proof.
  intros Hs H1 H2 HQ. unfold hsf_begin, upd_t. wps. rewrite wp_assert by done. wps. rewrite wp_assert by done. wps. fields.
  unfold begun in HQ. unfold psk_set in *. destruct (psk (t_cfg (h_t h))) as [p|] eqn:Ep; cbn [is_set] in *; wps.
  - pose proof (psk_value_size _ Hs) as Hz. unfold psk_bytes, bytes_at, psk_value in *. rewrite Ep in *. cbn [default from_option id].
    erewrite wp_call by (apply (ks_early_correct 32); [by left|exact Hz]). wps. fields. cbn [fst snd]. unfold binder_key, psk_value in HQ. rewrite Ep in HQ. exact HQ.
  - fields. exact HQ.
Qed.

(** The cookie a session holds, as the builder takes it. *)
Definition cookie_ok (h : handshake_state) : Prop := length (h_cookie h) = 128%nat /\ (h_cookie_len h <= 128)%nat.

Lemma hello_cookie_range h : cookie_ok h -> match hello_cookie h with Some c => (1 <= length c <= HSP_COOKIE_MAX)%nat | None => True end.
Proof.
  intros [H1 H2]. unfold hello_cookie. destruct (Nat.ltb_spec 0 (h_cookie_len h)); [|done].
  rewrite length_take. change HSP_COOKIE_MAX with 128%nat. lia.
Qed.

Lemma length_plain_hello cfg pub random limit cookie : session_cfg cfg -> length pub = 32%nat -> length random = 32%nat ->
  match cookie with Some c => (1 <= length c <= HSP_COOKIE_MAX)%nat | None => True end ->
  (35 <= length (plain_hello cfg pub random limit cookie) <= CH_TX_STAGE)%nat.
Proof.
  intros Hs Hp Hr Hc. unfold plain_hello. rewrite length_message. split.
  - unfold HsMessage.client_hello_body, Srv.hello_message, Srv.hello_head. rewrite !length_app, !length_be_bytes, Hr. lia.
  - pose proof (HsMessage.length_hello false false (hello_cfg cfg) [] None pub random limit cookie) as L.
    change CH_TX_STAGE with HsMessage.CH_HELLO_MAX. apply L; [discriminate|repeat split; done|by apply session_hello_ok|done].
Qed.

Lemma length_sent_hello cfg prefix pub random limit cookie : (35 <= length (plain_hello cfg pub random limit cookie))%nat ->
  length (sent_hello cfg prefix pub random limit cookie) = length (plain_hello cfg pub random limit cookie).
Proof.
  intros H. unfold sent_hello. cbv zeta. destruct (is_set _); [|done]. apply length_store_bytes.
  rewrite (proj1 (finished_mac_shape _ _)). lia.
Qed.

Lemma builder_plain h : session_cfg (t_cfg (h_t h)) -> length (t_tx (h_t h)) = (REC_HDR + CH_TX_STAGE)%nat -> cookie_ok h ->
  length (h_pub h) = 32%nat -> length (h_random h) = 32%nat ->
  HsMessage.hs_build_client_hello false false (drop REC_HDR (t_tx (h_t h))) (length (t_tx (h_t h)) - REC_HDR) (hello_cfg (t_cfg (h_t h))) [] None
    (h_pub h) (h_random h) (h_record_size_limit h) (hello_cookie h)
  = Some (plain_hello (t_cfg (h_t h)) (h_pub h) (h_random h) (h_record_size_limit h) (hello_cookie h)).
Proof.
  intros Hs Ht Hc Hp Hr. pose proof (length_plain_hello _ (h_pub h) (h_random h) (h_record_size_limit h) (hello_cookie h) Hs Hp Hr (hello_cookie_range h Hc)) as L.
  rewrite HsMessage.hello_built; [|rewrite length_drop; lia|discriminate|repeat split; done|done].
  unfold plain_hello, message in *. destruct (Nat.leb_spec (length (HsMessage.HS_CLIENT_HELLO :: be_bytes 3 (Z.of_nat (length
    (HsMessage.client_hello_body false false (hello_cfg (t_cfg (h_t h))) [] None (h_pub h) (h_random h) (h_record_size_limit h) (hello_cookie h)))) ++
    HsMessage.client_hello_body false false (hello_cfg (t_cfg (h_t h))) [] None (h_pub h) (h_random h) (h_record_size_limit h) (hello_cookie h)))
    (length (t_tx (h_t h)) - REC_HDR)) as [|Hbig]; [reflexivity|]. rewrite Ht in Hbig. lia.
Qed.

Lemma hsf_build_client_hello_wp prefix Q E h : session_cfg (t_cfg (h_t h)) -> length (t_tx (h_t h)) = (REC_HDR + CH_TX_STAGE)%nat ->
  cookie_ok h -> length (h_pub h) = 32%nat -> length (h_random h) = 32%nat -> early_ok h -> sha256_absorbed (t_transcript (h_t h)) prefix ->
  (let t := h_t h in
   let m := sent_hello (t_cfg t) prefix (h_pub h) (h_random h) (h_record_size_limit h) (hello_cookie h) in
   (length m <= CH_TX_STAGE)%nat ->
   Q (Some (length m)) (h <| h_t := t <| t_tx := store_bytes (t_tx t) REC_HDR m |> <| t_transcript := transcript_update (t_transcript t) m |> |>)) ->
  wp hsf_build_client_hello Q E h.
Proof.
  intros Hs Ht Hc Hp Hr He Ha HQ. cbv zeta in HQ. pose proof (length_plain_hello _ (h_pub h) (h_random h) (h_record_size_limit h) (hello_cookie h) Hs Hp Hr (hello_cookie_range h Hc)) as L.
  pose proof (length_sent_hello (t_cfg (h_t h)) prefix (h_pub h) (h_random h) (h_record_size_limit h) (hello_cookie h) (proj1 L)) as Ls. rewrite Ls in HQ. specialize (HQ (proj2 L)).
  unfold hsf_build_client_hello, update_transcript, upd_t. wps. rewrite builder_plain by done.
  set (m := plain_hello _ _ _ _ _) in *. unfold sent_hello in HQ. fold m in HQ. cbv zeta in HQ. clearbody m. clear Ls. unfold psk_set in *.
  destruct (is_set (psk (t_cfg (h_t h)))) eqn:Ep; wps.
  - cbv zeta. rewrite (transcript_hash_after_spec _ prefix) by done. destruct (He Ep) as [_ Hk]. rewrite Hk.
    change (HsMessage.hs_psk_hash_len (hello_cfg (t_cfg (h_t h)))) with 32%nat. change (CH_BINDERS_TAIL 32) with 35%nat.
    wps. erewrite wp_call by (apply verify_data_spec, sha_length). wps. fields. exact HQ.
  - fields. exact HQ.
Qed.

(** ** Lemmas: parsers *)

(** How a handler fails: a code, an alert to send, and the write side of the
    session as it was. *)
Definition refused (t0 : ch_tls) (rc : Z) (h : handshake_state) : Prop :=
  err_code rc /\ alert_ok (h_alert h) /\ t_wr (h_t h) = t_wr t0 /\ t_keys (h_t h) = t_keys t0 /\ t_state (h_t h) = t_state t0 /\
  length (t_tx (h_t h)) = length (t_tx t0) /\ t_alert_received (h_t h) = t_alert_received t0.
Definition refusal_ok (rc : Z) (al : option Z) : Prop := err_code rc /\ match al with Some a => alert_ok a | None => True end.

Lemma total_answers {A} (p : prog (outcome A)) body : total (fine refusal_ok any) p -> bytes_ok body ->
  exists o, parse p body = Some o /\ fine refusal_ok any o.
Proof. intros Hp Hb. rewrite parse_list by done. destruct (Hp (Some body) Hb) as (o & s' & -> & Ho & _). by exists o. Qed.

Lemma fine_impl {A} (R R' : Z -> option Z -> Prop) (P : A -> Prop) (p : prog (outcome A)) :
  (forall rc al, R rc al -> R' rc al) -> total (fine R P) p -> total (fine R' any) p.
Proof. intros H Hp. eapply total_impl; [exact Hp|]. intros [a|rc al]; [done|apply H]. Qed.

Lemma parse_hello_total psk : total (fine refusal_ok any) (Hsp.hsp_parse_server_hello psk Hsp.zero_info).
Proof. eapply fine_impl; [|apply Hsp.server_hello_total]. intros rc al [-> ->]. split; [by left|done]. Qed.
Lemma parse_ee_total o pl sel ct : total (fine refusal_ok any) (Ee.hsp_parse_encrypted_exts o pl sel ct).
Proof.
  eapply fine_impl; [|apply Ee.ee_total]. intros rc al [-> Hal]. split; [by left|]. destruct al as [a|]; [|done].
  unfold Ee.ee_alerts in Hal. split; [|intros ->]; repeat (apply elem_of_cons in Hal as [Hal|Hal]; [subst; try (by cbn)|]); try (by apply elem_of_nil in Hal); done.
Qed.
Lemma total_u24 : total any u24_.
Proof.
  unfold u24_. eapply total_bind; [apply total_u8|]. intros b0 _. eapply total_bind; [apply total_u8|]. intros b1 _.
  eapply total_bind; [apply total_u8|]. intros b2 _. by apply total_ret.
Qed.
Ltac refusal := split; [unfold err_code; auto|try exact I; repeat split; done].
Lemma parse_certificate_total : total (fine refusal_ok any) Ee.hsp_parse_certificate.
Proof.
  unfold Ee.hsp_parse_certificate, Wire.refuse, eproto. total_step. destruct (negb _); [apply total_ret; refusal|].
  eapply total_bind; [apply total_u24|]. intros len _. repeat total_step; refusal.
Qed.
Lemma parse_certificate_verify_total : total (fine refusal_ok any) Ee.hsp_parse_certificate_verify.
Proof. unfold Ee.hsp_parse_certificate_verify, eproto. repeat total_step; refusal. Qed.

Lemma parsed_wp {A} (p : prog (outcome A)) body Q E h : total (fine refusal_ok any) p -> bytes_ok body ->
  (forall a, parse p body = Some (Done a) -> Q a h) ->
  (forall rc h', (forall a, parse p body <> Some (Done a)) -> err_code rc -> h' = h \/ (exists al, alert_ok al /\ h' = h <| h_alert := al |>) -> E rc h') ->
  wp (parsed (parse p body)) Q E h.
Proof.
  intros Hp Hb HQ HE. destruct (total_answers p body Hp Hb) as (o & Eo & Ho). unfold parsed, refuse, set_alert. wps.
  rewrite wp_call by exact Eo. rewrite Eo in *. destruct o as [a|rc al].
  - by apply HQ.
  - destruct Ho as [Hrc Hal]. destruct al as [al|]; wps; (apply HE; [done|done|]); [right; by exists al|by left].
Qed.

Lemma with_alert_wp {A} al (c : hs_cmd A) Q E h :
  wp (with_alert al c) Q E h <-> wp c Q (fun rc h => E rc (h <| h_alert := al |>)) h.
Proof. unfold wp, with_alert. by destruct (c h) as [[? [|]]|]. Qed.

(** ** Lemmas: the handlers

    Each is run on a queue whose front is the message [type], [body]: it goes on
    exactly when the message is one it accepts, and otherwise fails as [refused]
    says. *)

Definition front (t : ch_tls) (type : Z) (body rest : list Z) : Prop :=
  reader_ok t /\ unread t = message type body ++ rest /\ byte_ok type /\ bytes_ok body /\ Z.of_nat (length body) <= 0x4000.
(** The session once the message is read, and hashed. *)
Definition read_past (type : Z) (body : list Z) (t : ch_tls) : ch_tls := skipped (length (message type body)) t.
Definition hashed (m : list Z) (t : ch_tls) : ch_tls := t <| t_transcript := transcript_update (t_transcript t) m |>.

Lemma front_wp {B} type body rest (f : Z * list Z -> hs_cmd B) Q E h : front (h_t h) type body rest ->
  wp (f (type, message type body)) Q E (h <| h_t := read_past type body (h_t h) |>) -> wp (hsr_next_msg ≫= f) Q E h.
Proof. intros (Hr & Hu & _ & _ & Hl) H. rewrite wp_bind. by eapply next_msg_wp. Qed.

Ltac frame := unfold refused, read_past, hashed, skipped, with_queue, set_alert, upd_t; fields;
  split_and!; try done; try (unfold err_code; by auto).
(** A failing branch: the message is not accepted. *)
Ltac wps' := unfold refuse, set_alert, upd_t; repeat (wp_step || cbv zeta); fields.

Definition ee_accepts (peer_limit : Z) (type : Z) (body : list Z) (limit : Z) : Prop :=
  type = HS_ENCRYPTED_EXTENSIONS /\ exists s,
    parse (Ee.hsp_parse_encrypted_exts (Ee.EeOffer [] false 0) peer_limit 0 0) body = Some (Done s) /\ limit = Ee.ee_peer_limit s.

Lemma hsf_read_encrypted_extensions_wp type body rest Q E h : front (h_t h) type body rest ->
  (forall limit, ee_accepts (t_peer_limit (h_t h)) type body limit ->
     Q () (h <| h_alert := ALERT_ILLEGAL_PARAMETER |> <| h_t := hashed (message type body) ((read_past type body (h_t h)) <| t_peer_limit := limit |>) |>)) ->
  (forall rc h', (forall limit, ~ ee_accepts (t_peer_limit (h_t h)) type body limit) -> refused (h_t h) rc h' -> E rc h') ->
  wp hsf_read_encrypted_extensions Q E h.
Proof.
  intros Hf HQ HE. unfold hsf_read_encrypted_extensions. eapply front_wp; [exact Hf|]. destruct Hf as (_ & _ & _ & Hb & _).
  destruct (Z.eqb_spec type HS_ENCRYPTED_EXTENSIONS) as [->|Hne]; cbn [negb]; cbv iota.
  - unfold set_alert, update_transcript, upd_t. wps. rewrite drop_message. fields. apply parsed_wp; [apply parse_ee_total|done| |].
    + intros s Hs. wps. fields. unfold read_past, skipped, with_queue in Hs. fields_in Hs. apply HQ. split; [done|]. by exists s.
    + intros rc h' Hno Hrc Hh. apply HE.
      * intros limit (_ & s & Hs & _). apply (Hno s). unfold read_past, skipped, with_queue. fields. exact Hs.
      * destruct Hh as [->|(al & Hal & ->)]; frame.
  - wps'. apply HE; [by intros limit [? _]|frame].
Qed.

Definition sh_accepts (psk : bool) (type : Z) (body : list Z) (i : Hsp.server_hello_info) : Prop :=
  type = HS_SERVER_HELLO /\ parse (Hsp.hsp_parse_server_hello psk Hsp.zero_info) body = Some (Done i) /\
  (Hsp.sh_hrr i = true -> Hsp.sh_cookie i <> None /\ Hsp.sh_cookie i <> Some []).
Definition retried (m : list Z) (t : ch_tls) : ch_tls :=
  let s := transcript_init (t_transcript t) in
  t <| t_transcript := transcript_update (transcript_update (transcript_update s [HS_MESSAGE_HASH; 0; 0; u8 (Z.of_nat SHA256_LEN)])
         (transcript_hash_after (t_transcript t) [])) m |>.
Definition keep_cookie (cookie : list Z) (h : handshake_state) : handshake_state :=
  h <| h_cookie := store_bytes (h_cookie h) 0 cookie |> <| h_cookie_len := length cookie |>.

Lemma hsf_read_server_hello_wp type body rest Q E h : front (h_t h) type body rest ->
  (forall i, sh_accepts (psk_set (h_t h)) type body i -> Hsp.sh_hrr i = false ->
     Q i (h <| h_t := hashed (message type body) (read_past type body (h_t h)) |>)) ->
  (forall i cookie, sh_accepts (psk_set (h_t h)) type body i -> Hsp.sh_hrr i = true -> Hsp.sh_cookie i = Some cookie ->
     Q i (keep_cookie cookie (h <| h_t := retried (message type body) (read_past type body (h_t h)) |>))) ->
  (forall rc h', (forall i, ~ sh_accepts (psk_set (h_t h)) type body i) -> refused (h_t h) rc h' -> E rc h') ->
  wp hsf_read_server_hello Q E h.
Proof.
  intros Hf HQ HR HE. unfold hsf_read_server_hello. eapply front_wp; [exact Hf|]. destruct Hf as (_ & _ & _ & Hb & _).
  destruct (Z.eqb_spec type HS_SERVER_HELLO) as [->|Hne]; cbn [negb]; cbv iota.
  2:{ wps'. apply HE; [by intros i [? _]|frame]. }
  wps. rewrite drop_message, with_alert_wp. fields. change (psk_set (read_past HS_SERVER_HELLO body (h_t h))) with (psk_set (h_t h)).
  apply parsed_wp; [apply parse_hello_total|done| |].
  - intros i Hi. destruct (Hsp.sh_hrr i) eqn:Eh.
    + unfold hsr_restart_transcript, upd_t. wps. rewrite with_alert_wp. unfold take_retry.
      destruct (Hsp.sh_cookie i) as [[|c cookie]|] eqn:Ec; cbn [default from_option id length Nat.eqb]; wps.
      * apply HE; [intros j (_ & Hj & Hn); rewrite Hi in Hj; injection Hj as <-; by destruct (Hn Eh)|unfold retried in *; frame].
      * fields. apply (HR i (c :: cookie)); [split; [done|]; split; [done|]; by rewrite Ec|done|done].
      * apply HE; [intros j (_ & Hj & Hn); rewrite Hi in Hj; injection Hj as <-; by destruct (Hn Eh)|frame].
    + unfold update_transcript, upd_t. wps. fields. apply HQ; [|done]. split; [done|]. split; [done|]. by rewrite Eh.
  - intros rc h' Hno Hrc Hh. apply HE.
    + intros i (_ & Hi & _). by apply (Hno i).
    + destruct Hh as [->|(al & Hal & ->)]; frame.
Qed.

(** The ServerHello is one this client can go on from. *)
Definition hello_usable (psk : bool) (i : Hsp.server_hello_info) : Prop :=
  Hsp.sh_have_share i = true /\ (psk = true -> Hsp.sh_psk_ok i = true).
Definition agreed (i : Hsp.server_hello_info) (t : ch_tls) : ch_tls :=
  t <| t_group := Hsp.sh_group i |> <| t_psk_selected := psk_set t |>.

Lemma hsf_accept_server_hello_wp i Q E h : early_ok h ->
  (hello_usable (psk_set (h_t h)) i -> Q () (h <| h_early := Early 32 (psk_value (t_cfg (h_t h))) |> <| h_t := agreed i (h_t h) |>)) ->
  (forall rc h', ~ hello_usable (psk_set (h_t h)) i -> refused (h_t h) rc h' -> E rc h') ->
  wp (hsf_accept_server_hello i) Q E h.
Proof.
  intros He HQ HE. unfold hsf_accept_server_hello, upd_t. wps. destruct (Hsp.sh_have_share i) eqn:Es; cbn [negb]; cbv iota.
  2:{ wps'. apply HE; [intros [? _]; congruence|frame]. }
  wps. fields. change (psk_set ((h_t h) <| t_group := Hsp.sh_group i |>)) with (psk_set (h_t h)). unfold agreed in HQ.
  destruct (psk_set (h_t h)) eqn:Ep; cbn [negb andb]; cbv iota.
  - destruct (Hsp.sh_psk_ok i) eqn:Ek; cbn [negb]; cbv iota.
    + wps. fields. destruct (He Ep) as [E1 _]. replace (h <| h_early := Early 32 (psk_value (t_cfg (h_t h))) |>) with h in HQ by (rewrite <- E1; by destruct h).
      apply HQ. by split.
    + unfold decline_psk. wps'. apply HE; [intros [_ H]; specialize (H eq_refl); congruence|frame].
  - unfold early_secret_without_psk. destruct early_without_psk as (k & Ek). wps. erewrite wp_call by exact Ek. wps. fields. cbn [fst].
    assert (Ev : psk_value (t_cfg (h_t h)) = zero_string 32).
    { clear -Ep. unfold psk_set, psk_value in *. destruct (psk (t_cfg (h_t h))); [discriminate Ep|reflexivity]. }
    rewrite Ev in HQ. apply HQ. by split.
Qed.
(** The keys agreed on: section 7.1's, at the transcript [hash]. *)
Definition hs_secret (cfg : client_cfg) (ecdhe : list Z) : list Z := Handshake 32 (psk_value cfg) ecdhe.
Definition c_hs_secret (cfg : client_cfg) (ecdhe hash : list Z) : list Z := Derive_Secret 32 (hs_secret cfg ecdhe) "c hs traffic" hash.
Definition s_hs_secret (cfg : client_cfg) (ecdhe hash : list Z) : list Z := Derive_Secret 32 (hs_secret cfg ecdhe) "s hs traffic" hash.
Definition derived (cfg : client_cfg) (ecdhe hash : list Z) (h : handshake_state) : handshake_state :=
  h <| h_priv := zero_bytes X25519_LEN |> <| h_pub := zero_bytes X25519_LEN |> <| h_random := zero_bytes 32 |>
    <| h_handshake_secret := hs_secret cfg ecdhe |> <| h_c_hs := c_hs_secret cfg ecdhe hash |> <| h_s_hs := s_hs_secret cfg ecdhe hash |>
    <| h_early := zero_bytes HKDF_HASH_MAX |> <| h_binder_key := zero_bytes HKDF_HASH_MAX |>.
Definition shared (priv : list Z) (i : Hsp.server_hello_info) (ecdhe : list Z) : Prop := X25519.x25519 priv (Hsp.sh_server_pub i) = (ecdhe, true).

Lemma shared_length priv i ecdhe : shared priv i ecdhe -> length ecdhe = 32%nat.
Proof.
  unfold shared. pose proof (X25519.x25519_shape priv (Hsp.sh_server_pub i)) as [Hl _]. intros H. rewrite H in Hl. exact Hl.
Qed.

Lemma hsf_derive_handshake_secrets_wp i prefix Q E h : sha256_absorbed (t_transcript (h_t h)) prefix ->
  h_early h = Early 32 (psk_value (t_cfg (h_t h))) ->
  (forall ecdhe, shared (h_priv h) i ecdhe -> Q () (derived (t_cfg (h_t h)) ecdhe (sha256_spec prefix) h)) ->
  (forall rc h', (forall ecdhe, ~ shared (h_priv h) i ecdhe) -> refused (h_t h) rc h' -> E rc h') ->
  wp (hsf_derive_handshake_secrets i) Q E h.
Proof.
  intros Ha He HQ HE. unfold hsf_derive_handshake_secrets, shared in *. pose proof (shared_length (h_priv h) i) as Hl. unfold shared in Hl.
  rewrite wp_bind, wp_get.
  destruct (X25519.x25519 (h_priv h) (Hsp.sh_server_pub i)) as [ecdhe [|]]; cbn [negb]; cbv iota; wps.
  - specialize (Hl ecdhe eq_refl). unfold hsr_transcript_hash. wps. fields. rewrite (transcript_hash_after_spec _ prefix) by done. rewrite app_nil_r.
    rewrite He. change hsr_suite_hash_len with 32%nat.
    erewrite wp_call by (apply (ks_handshake_correct 32); [by left|unfold size_ok; lia|apply sha_length]). wps. fields. by apply HQ.
  - wps'. apply HE; [discriminate|frame].
Qed.

(** ** Lemmas: server authentication *)

Definition cert_accepts (type : Z) (body : list Z) : Prop :=
  type = HS_CERTIFICATE /\ exists leaf, parse Ee.hsp_parse_certificate body = Some (Done leaf).

Lemma hsa_server_auth_wp type body rest Q E h : front (h_t h) type body rest ->
  (cert_accepts type body ->
     Q () (h <| h_alert := ALERT_DECODE_ERROR |> <| h_t := hashed (message type body) (read_past type body (h_t h)) |>)) ->
  (forall rc h', ~ cert_accepts type body -> refused (h_t h) rc h' -> E rc h') ->
  wp hsa_server_auth Q E h.
Proof.
  intros Hf HQ HE. unfold hsa_server_auth. eapply front_wp; [exact Hf|]. destruct Hf as (_ & _ & _ & Hb & _).
  destruct (Z.eqb_spec type HS_CERTIFICATE_REQUEST) as [->|Hr]; [wps'; apply HE; [by intros [? _]|frame]|].
  destruct (Z.eqb_spec type HS_CERTIFICATE) as [->|Hne]; cbn [negb]; cbv iota.
  2:{ wps'. apply HE; [by intros [? _]|frame]. }
  unfold set_alert, update_transcript, upd_t. wps. rewrite drop_message. apply parsed_wp; [apply parse_certificate_total|done| |].
  - intros leaf Hi. wps. fields. apply HQ. split; [done|]. by exists leaf.
  - intros rc h' Hno Hrc Hh. apply HE; [by intros (_ & leaf & H); apply (Hno leaf)|]. destruct Hh as [->|(al & Hal & ->)]; frame.
Qed.

(** What a CertificateVerify signs: the context string and the transcript hash. *)
Definition signed_content (hash : list Z) : list Z := sha256_spec (replicate 64 32 ++ cv_context ++ hash).
Lemma hsa_hash_signed_content_spec hash : hsa_hash_signed_content hash = signed_content hash.
Proof.
  unfold hsa_hash_signed_content, signed_content. cbv zeta. apply sha256_final_digest.
  rewrite (app_assoc (replicate 64 32)). apply update_absorbs, update_absorbs.
  rewrite <- (app_nil_l (replicate 64 32)). apply update_absorbs, sha256_init_absorbed, length_replicate.
Qed.

Definition verify_accepts (cfg : client_cfg) (hash : list Z) (type : Z) (body : list Z) (slot : Z) : Prop :=
  type = HS_CERTIFICATE_VERIFY /\ exists scheme sig,
    parse Ee.hsp_parse_certificate_verify body = Some (Done (scheme, sig)) /\ try_pins 0 (pins cfg) (signed_content hash) sig = Some slot.

Lemma hsa_read_certificate_verify_wp prefix type body rest Q E h : front (h_t h) type body rest ->
  sha256_absorbed (t_transcript (h_t h)) prefix ->
  (forall slot, verify_accepts (t_cfg (h_t h)) (sha256_spec prefix) type body slot ->
     Q () (h <| h_alert := ALERT_DECODE_ERROR |> <| h_t := hashed (message type body) ((read_past type body (h_t h)) <| t_pin_slot := slot |>) |>)) ->
  (forall rc h', (forall slot, ~ verify_accepts (t_cfg (h_t h)) (sha256_spec prefix) type body slot) -> refused (h_t h) rc h' -> E rc h') ->
  wp hsa_read_certificate_verify Q E h.
Proof.
  intros Hf Ha HQ HE. unfold hsa_read_certificate_verify, hsr_transcript_hash. wps. rewrite (transcript_hash_after_spec _ prefix) by done. rewrite app_nil_r.
  unfold check_certificate_verify. eapply front_wp; [exact Hf|]. destruct Hf as (_ & _ & _ & Hb & _).
  destruct (Z.eqb_spec type HS_CERTIFICATE_VERIFY) as [->|Hne]; cbn [negb]; cbv iota.
  2:{ wps'. apply HE; [by intros slot [? _]|frame]. }
  unfold set_alert, update_transcript, upd_t. wps. rewrite drop_message. apply parsed_wp; [apply parse_certificate_verify_total|done| |].
  - intros [scheme sig] Hi. wps. cbv zeta. wps. fields. rewrite hsa_hash_signed_content_spec. cbn [snd]. unfold read_past, skipped, with_queue. fields.
    destruct (try_pins 0 _ _ sig) as [slot|] eqn:Et; wps.
    + fields. unfold read_past, skipped, with_queue, hashed in HQ. fields_in HQ. apply HQ. split; [done|]. by exists scheme, sig.
    + unfold refuse, set_alert. wps. apply HE; [|frame]. intros slot (_ & sc & sg & Hp & Ht). rewrite Hi in Hp. injection Hp as <- <-. congruence.
  - intros rc h' Hno Hrc Hh. apply HE; [by intros slot (_ & sc & sg & H & _); apply (Hno (sc, sg))|]. destruct Hh as [->|(al & Hal & ->)]; frame.
Qed.

(** ** Lemmas: Finished *)

Definition finished_accepts (s_hs hash : list Z) (type : Z) (body : list Z) : Prop := type = HS_FINISHED /\ body = finished_mac s_hs hash.

Lemma hsf_read_finished_wp prefix type body rest Q E h : front (h_t h) type body rest ->
  sha256_absorbed (t_transcript (h_t h)) prefix ->
  (finished_accepts (h_s_hs h) (sha256_spec prefix) type body ->
     Q () (h <| h_t := hashed (message type body) (read_past type body (h_t h)) |> <| h_server_finished_ok := true |>)) ->
  (forall rc h', ~ finished_accepts (h_s_hs h) (sha256_spec prefix) type body -> refused (h_t h) rc h' -> E rc h') ->
  wp hsf_read_finished Q E h.
Proof.
  intros Hf Ha HQ HE. unfold hsf_read_finished, hsr_transcript_hash. rewrite wp_bind, wp_gets. rewrite (transcript_hash_after_spec _ prefix) by done. rewrite app_nil_r.
  eapply front_wp; [exact Hf|]. destruct Hf as (_ & _ & _ & Hb & _).
  destruct (_ || _) eqn:Ec.
  { wps'. apply HE; [intros [-> _]; discriminate Ec|frame]. }
  destruct (finished_mac_shape (h_s_hs h) (sha256_spec prefix)) as [Hml Hmb]. change hsr_suite_hash_len with 32%nat.
  destruct (negb (type =? HS_FINISHED) || _) eqn:El.
  { wps'. apply HE; [|frame]. intros [-> ->]. rewrite length_message, Hml in El. discriminate El. }
  apply orb_false_iff in El as [Et El]. apply negb_false_iff, Z.eqb_eq in Et as ->. apply negb_false_iff, Nat.eqb_eq in El.
  rewrite length_message in El. wps. fields. rewrite drop_message.
  erewrite wp_call by (apply verify_data_spec, sha_length). cbv beta.
  assert (Eq : ct_memeq (finished_mac (h_s_hs h) (sha256_spec prefix)) body 32 = 1 <-> finished_mac (h_s_hs h) (sha256_spec prefix) = body).
  { apply ct_memeq_true; try done. lia. }
  pose proof (ct_memeq_spec (finished_mac (h_s_hs h) (sha256_spec prefix)) body 32 Hmb Hb ltac:(lia) ltac:(lia)) as Ev.
  destruct (Z.eqb_spec (ct_memeq (finished_mac (h_s_hs h) (sha256_spec prefix)) body 32) 0) as [E0|E0].
  - wps'. apply HE; [|frame]. intros [_ ->]. rewrite E0 in Eq. assert (0 = 1) by (by apply Eq). lia.
  - unfold update_transcript, upd_t. wps. fields. apply HQ. split; [done|]. symmetry. apply Eq. revert E0. rewrite Ev. by destruct (bytes_eqb _ _).
Qed.

(** The client's Finished and what it leaves: the keys of the application. *)
Definition app_secret (cfg : client_cfg) (ecdhe : list Z) (label : string) (hash : list Z) : list Z :=
  Derive_Secret 32 (Master 32 (psk_value cfg) ecdhe) label hash.
Definition client_finished (c_hs hash : list Z) : list Z := message HS_FINISHED (finished_mac c_hs hash).
Definition completed (cfg : client_cfg) (ecdhe prefix finished : list Z) (h : handshake_state) : handshake_state :=
  let t := h_t h in
  h <| h_master := Master 32 (psk_value cfg) ecdhe |>
    <| h_t := t <| t_wr_secret := app_secret cfg ecdhe "c ap traffic" (sha256_spec prefix) |>
                <| t_rd_secret := app_secret cfg ecdhe "s ap traffic" (sha256_spec prefix) |>
                <| t_transcript := transcript_update (t_transcript t) finished |>
                <| t_res_master := app_secret cfg ecdhe "res master" (sha256_spec (prefix ++ finished)) |> |>.

Lemma hsf_complete_wp ecdhe prefix Q E h : sha256_absorbed (t_transcript (h_t h)) prefix -> h_server_finished_ok h = true ->
  h_handshake_secret h = hs_secret (t_cfg (h_t h)) ecdhe ->
  (let m := client_finished (h_c_hs h) (sha256_spec prefix) in Q m (completed (t_cfg (h_t h)) ecdhe prefix m h)) ->
  wp hsf_complete Q E h.
Proof.
  intros Ha Hok Hs HQ. unfold hsf_complete, hsr_transcript_hash, update_transcript, upd_t. wps. rewrite wp_assert by done. wps.
  rewrite (transcript_hash_after_spec _ prefix) by done. rewrite app_nil_r, Hs. change hsr_suite_hash_len with 32%nat.
  erewrite wp_call by (apply (ks_master_correct 32); [by left|apply sha_length]). wps. fields.
  erewrite wp_call by (apply verify_data_spec, sha_length). wps. fields.
  set (m := client_finished _ _) in HQ. cbv zeta in HQ.
  match goal with |- context [transcript_update _ ?x] => assert (Em : x = m) end.
  { subst m. unfold client_finished, message. rewrite (proj1 (finished_mac_shape _ _)). reflexivity. }
  rewrite Em. clearbody m. cbv zeta. wps. fields. rewrite (transcript_hash_after_spec _ (prefix ++ m)) by (by apply transcript_update_absorbs).
  rewrite app_nil_r. unfold ks_res_master. erewrite wp_call.
  2:{ apply (derive_secret_correct 32); [by left|unfold ks_label; cbn; lia|apply sha_length]. }
  wps. fields. exact HQ.
Qed.
End Client.
End HsFlight.
