(* ===== verification/TcpClient.v ===== *)
(** * The non-blocking TCP client: src/src/tcp_nonblocking.c,
    tcp_nonblocking_step.c, tcp_nonblocking_frame.c, tcp_nonblocking_session.h

    The driver of the handshake: the caller feeds whole records to [tcp_in],
    collects staged bytes with [tcp_out], and the session moves through the step
    table.  The model covers every call of the file over the handlers of
    [HsFlight] and the record layer of [Record], for any AEAD of [AeadOps]. *)

From S2P Require Import Prelude Ct MdHash Sha256 X25519 Reader Build Wire Hkdf Keysched HsParser HsParserEe.
From S2P Require Import HsMessage Aead Record Cmd ClientCfg HsRecord HsFlight.
Import Sha256 Hkdf Keysched HsRecord Cfg HsFlight.
Local Open Scope Z_scope.
Local Open Scope word_scope.

Module Tcp.

Definition TCP_NONBLOCKING_STEP_AWAIT_SERVER_HELLO : Z := 0.
Definition TCP_NONBLOCKING_STEP_AWAIT_RETRY_HELLO : Z := 1.
Definition TCP_NONBLOCKING_STEP_AWAIT_ENCRYPTED_EXTENSIONS : Z := 2.
Definition TCP_NONBLOCKING_STEP_AWAIT_CERTIFICATE : Z := 3.
Definition TCP_NONBLOCKING_STEP_AWAIT_CERTIFICATE_VERIFY : Z := 4.
Definition TCP_NONBLOCKING_STEP_AWAIT_FINISHED : Z := 5.
Definition TCP_NONBLOCKING_STEP_COMPLETE : Z := 6.
Definition RECORD_BODY_MAX : Z := 0x4000 + 256.
Definition REC_OVERHEAD : nat := (REC_HDR + 1 + AEAD_TAG)%nat.
Definition CH_ALERT_RECORD_LEN : nat := (REC_OVERHEAD + 2)%nat.

(** [ch_tcp_priv]; the session [t] is a field of [hs]. *)
Record ch_tcp := Tcp { r_hs : handshake_state; r_step : Z; r_tx_len : nat; r_tx_off : nat }.
#[export] Instance eta_ch_tcp : Eta ch_tcp := fun r => Tcp (r_hs r) (r_step r) (r_tx_len r) (r_tx_off r).
Definition r_t (r : ch_tcp) : ch_tls := h_t (r_hs r).
Definition put_hs (h : handshake_state) (r : ch_tcp) : ch_tcp := r <| r_hs := h |>.
Definition put_t (t : ch_tls) (r : ch_tcp) : ch_tcp := r <| r_hs := (r_hs r) <| h_t := t |> |>.

Abbreviation tcp_cmd := (cmd ch_tcp).
Definition on_hs {A} (c : hs_cmd A) : tcp_cmd A := on r_hs put_hs c.
Definition on_t (f : ch_tls -> ch_tls) : tcp_cmd () := modify (fun r => put_t (f (r_t r)) r).
Definition set_step (step : Z) : tcp_cmd () := modify (fun r => r <| r_step := step |>).

(** ** tcp_nonblocking_frame.c *)

Definition ch_tcp_whole_len : prog nat :=
  skip_ 3;;
  body_len ← u16_;
  e ← err_;
  n ← left_;
  if (e : bool) then Ret 0%nat
  else if RECORD_BODY_MAX <? body_len then Ret REC_HDR
  else Ret (if Z.of_nat n <? body_len then 0%nat else (REC_HDR + Z.to_nat body_len)%nat).

Definition zero_tcp : ch_tcp := Tcp (wiped_hs zero_tls) 0 0 0.
(** The epoch fields it keeps are zero in this build. *)
Definition tcp_nonblocking_refuse_init : ch_tcp * Z := (put_t (zero_tls <| t_state := CH_ST_FAILED |>) zero_tcp, CH_EINVAL).

Definition tcp_nonblocking_wipe (r : ch_tcp) : ch_tcp :=
  let t := r_t r in
  let t := t <| t_rd := zero_dir |> <| t_wr := zero_dir |> <| t_rd_secret := zero_bytes HKDF_HASH_MAX |>
    <| t_wr_secret := zero_bytes HKDF_HASH_MAX |> <| t_res_master := zero_bytes HKDF_HASH_MAX |>
    <| t_tx := zero_bytes (length (t_tx t)) |> <| t_pt_off := 0%nat |> <| t_pt_len := 0%nat |> <| t_keys := false |> in
  Tcp (wiped_hs t) (r_step r) 0 0.

Definition tcp_nonblocking_session_dead (r : ch_tcp) : bool :=
  (t_state (r_t r) =? CH_ST_CLOSED) || (t_state (r_t r) =? CH_ST_FAILED).

Section Client.
Context {aead : AeadOps} (pin_ecdsa : bool) (pin_verify : list Z -> list Z -> list Z -> bool).
#[local] Instance build : HsBuild := client_build pin_ecdsa.

(** The record, empty for a return of 0. *)
Definition alert_record (r : ch_tcp) (description : Z) : option (ch_tcp * list Z) :=
  let t := r_t r in
  if t_keys t then
    s ← Rec.rec_seal (t_wr t) REC_ALERT [2; description] CH_ALERT_RECORD_LEN;
    Some (put_t (t <| t_wr := s.1 |>) r, default [] s.2)
  else Some (r, [REC_ALERT; 0x03; 0x03; 0; 2; 2; description]).

Definition tcp_nonblocking_fail (r : ch_tcp) : option (ch_tcp * list Z) :=
  let alert := if (t_alert_received (r_t r) =? 0) then h_alert (r_hs r) else 0 in
  a ← (if negb (alert =? 0) then alert_record r alert else Some (r, []));
  let '(r, rec) := a in
  let r := put_t ((r_t r) <| t_alert_sent := alert |>) r in
  let r := tcp_nonblocking_wipe r in
  Some (put_t ((r_t r) <| t_state := CH_ST_FAILED |>) r, rec).

(** In the clear, sealed, or a record this mode cannot use. *)
Definition record_plaintext (rec : list Z) (outer : Z) : tcp_cmd (list Z) :=
  let pt := drop REC_HDR rec in
  r ← get_;
  if h_encrypted (r_hs r) then
    o ← call (Rec.rec_open (t_rd (r_t r)) rec (length pt));
    on_t (fun t => t <| t_rd := o.1 |>);;
    match o.2 with
    | None => on_hs (refuse ALERT_BAD_RECORD_MAC CH_EPROTO)
    | Some (inner, opened) =>
        if negb (inner =? REC_HANDSHAKE) then
          on_hs (set_alert ALERT_UNEXPECTED_MESSAGE);;
          if (inner =? REC_ALERT) then on_hs (hsr_refuse_alert opened) else fail CH_EPROTO
        else mret opened
    end
  else if negb (outer =? REC_HANDSHAKE) then on_hs (refuse ALERT_UNEXPECTED_MESSAGE CH_EPROTO)
  else mret pt.

Definition tcp_nonblocking_take_record (rec : list Z) (outer : Z) : tcp_cmd () :=
  if (outer =? REC_CCS) then mret ()
  else if (outer =? REC_ALERT) then
    on_hs (set_alert ALERT_UNEXPECTED_MESSAGE);;
    on_hs (hsr_refuse_alert (drop REC_HDR rec))
  else
    pt ← record_plaintext rec outer;
    n ← on_hs (hsr_feed pt);
    if negb (n =? length pt)%nat then on_hs (refuse ALERT_RECORD_OVERFLOW CH_ECAP) else mret ().

(** ** tcp_nonblocking_step.c *)

Definition tcp_nonblocking_stage_plain (n : nat) : tcp_cmd () :=
  on_t (fun t => t <| t_tx := store_bytes (t_tx t) 0 [REC_HANDSHAKE; 0x03; 0x03; u8 (Z.of_nat n >> 8); u8 (Z.of_nat n)] |>);;
  modify (fun r => r <| r_tx_len := (REC_HDR + n)%nat |> <| r_tx_off := 0%nat |>).

Definition stage_sealed (pt : list Z) : tcp_cmd () :=
  t ← gets r_t;
  s ← call (Rec.rec_seal (t_wr t) REC_HANDSHAKE pt (length (t_tx t)));
  on_t (fun t => t <| t_wr := s.1 |>);;
  match s.2 with
  | None => on_hs (refuse ALERT_INTERNAL_ERROR CH_ECAP)
  | Some out =>
      on_t (fun t => t <| t_tx := store_bytes (t_tx t) 0 out |>);;
      modify (fun r => r <| r_tx_len := length out |> <| r_tx_off := 0%nat |>)
  end.

(** [REC_DIR_INIT_SUITE] of both directions. *)
Definition key_directions (rd wr : list Z) : tcp_cmd () :=
  rd ← call (Rec.rec_dir_init rd);
  wr ← call (Rec.rec_dir_init wr);
  on_t (fun t => t <| t_rd := rd |> <| t_wr := wr |>).

(** The two ways [step_server_hello] goes on. *)
Definition answer_retry : tcp_cmd () :=
  step ← gets r_step;
  if (step =? TCP_NONBLOCKING_STEP_AWAIT_RETRY_HELLO) then on_hs (refuse ALERT_UNEXPECTED_MESSAGE CH_EPROTO)
  else
    n ← on_hs (hsf_build_client_hello pin_ecdsa);
    match n with
    | None => fail CH_ECAP
    | Some n => tcp_nonblocking_stage_plain n;; set_step TCP_NONBLOCKING_STEP_AWAIT_RETRY_HELLO
    end.
Definition take_server_hello (info : Hsp.server_hello_info) : tcp_cmd () :=
  on_hs (hsf_accept_server_hello info);;
  on_hs hsr_check_record_end;;
  on_hs (hsf_derive_handshake_secrets info);;
  h ← gets r_hs;
  key_directions (h_s_hs h) (h_c_hs h);;
  on_hs (modify (fun h => h <| h_encrypted := true |>));;
  on_t (fun t => t <| t_keys := true |>);;
  set_step TCP_NONBLOCKING_STEP_AWAIT_ENCRYPTED_EXTENSIONS.

Definition step_server_hello : tcp_cmd () :=
  info ← on_hs (hsf_read_server_hello pin_ecdsa);
  if Hsp.sh_hrr info then answer_retry else take_server_hello info.

Definition step_encrypted_extensions : tcp_cmd () :=
  on_hs (hsf_read_encrypted_extensions pin_ecdsa);;
  t ← gets r_t;
  set_step (if t_psk_selected t then TCP_NONBLOCKING_STEP_AWAIT_FINISHED else TCP_NONBLOCKING_STEP_AWAIT_CERTIFICATE).

Definition step_certificate : tcp_cmd () :=
  on_hs hsa_server_auth;;
  set_step TCP_NONBLOCKING_STEP_AWAIT_CERTIFICATE_VERIFY.

Definition step_certificate_verify : tcp_cmd () :=
  on_hs (hsa_read_certificate_verify pin_ecdsa pin_verify);;
  set_step TCP_NONBLOCKING_STEP_AWAIT_FINISHED.

Definition step_finished : tcp_cmd () :=
  on_hs hsf_read_finished;;
  on_hs hsr_check_record_end;;
  finished ← on_hs hsf_complete;
  stage_sealed finished;;
  t ← gets r_t;
  key_directions (t_rd_secret t) (t_wr_secret t);;
  on_t (fun t => t <| t_pt_off := 0%nat |> <| t_pt_len := 0%nat |>);;
  modify (fun r => put_hs (wiped_hs (r_t r)) r);;
  set_step TCP_NONBLOCKING_STEP_COMPLETE.

Definition step_complete : tcp_cmd () := on_hs (refuse ALERT_UNEXPECTED_MESSAGE CH_EPROTO).

Definition tcp_nonblocking_advance : tcp_cmd () :=
  step ← gets r_step;
  if (step =? TCP_NONBLOCKING_STEP_AWAIT_SERVER_HELLO) || (step =? TCP_NONBLOCKING_STEP_AWAIT_RETRY_HELLO) then step_server_hello
  else if (step =? TCP_NONBLOCKING_STEP_AWAIT_ENCRYPTED_EXTENSIONS) then step_encrypted_extensions
  else if (step =? TCP_NONBLOCKING_STEP_AWAIT_CERTIFICATE) then step_certificate
  else if (step =? TCP_NONBLOCKING_STEP_AWAIT_CERTIFICATE_VERIFY) then step_certificate_verify
  else if (step =? TCP_NONBLOCKING_STEP_AWAIT_FINISHED) then step_finished
  else if (step =? TCP_NONBLOCKING_STEP_COMPLETE) then step_complete
  else on_hs (refuse ALERT_UNEXPECTED_MESSAGE CH_EPROTO).

(** ** tcp_nonblocking.c *)

(** [tcp_init] from [hsf_begin] on. *)
Definition tcp_begin (draw_priv draw_random : list Z) : tcp_cmd () :=
  on_hs (hsf_begin pin_ecdsa draw_priv draw_random);;
  n ← on_hs (hsf_build_client_hello pin_ecdsa);
  match n with
  | None => fail CH_EINVAL
  | Some n =>
      tcp_nonblocking_stage_plain n;;
      set_step TCP_NONBLOCKING_STEP_AWAIT_SERVER_HELLO;;
      on_t (fun t => t <| t_state := CH_ST_START |>)
  end.

(** The session, the code. *)
Definition tcp_init (cfg : client_cfg) (draw_priv draw_random : list Z) : option (ch_tcp * Z) :=
  match hspost_present_ticket cfg with
  | None => Some tcp_nonblocking_refuse_init
  | Some session =>
      if negb (tlsi_config_ok session) || negb (has_send cfg) || negb (has_recv cfg) then Some tcp_nonblocking_refuse_init
      else if negb (tlsi_epoch_init session =? CH_OK) then Some tcp_nonblocking_refuse_init
      else
        let t := zero_tls <| t_cfg := session |> <| t_buf := default [] (cfg_buf session) |> in
        let room := (cfg_buf_len session - REC_HDR - AEAD_TAG)%nat in
        let limit := if 0x4001 <? Z.of_nat room then 0x4001 else u16 (Z.of_nat room) in
        let h := (wiped_hs t) <| h_alert := ALERT_DECODE_ERROR |> <| h_record_size_limit := limit |> in
        let r := Tcp (h <| h_t := t <| t_limit_sent := true |> <| t_peer_limit := Z.of_nat CH_TX_PT |> |>) 0 0 0 in
        x ← tcp_begin draw_priv draw_random r;
        match x with
        | (r, Ok _) => Some (r, CH_OK)
        | (_, Code _) => Some tcp_nonblocking_refuse_init
        end
  end.

(** [fail(r, rc)] *)
Definition tcp_fail (r : ch_tcp) (rc : Z) : option (ch_tcp * Z) :=
  f ← tcp_nonblocking_fail r;
  let '(r, rec) := f in
  let r := put_t ((r_t r) <| t_tx := store_bytes (t_tx (r_t r)) 0 rec |>) r in
  Some (r <| r_tx_len := length rec |> <| r_tx_off := 0%nat |>, rc).

(** [for (;;)]: each round consumes a message, so the buffer's length is fuel
    enough ([drive_ends]). *)
Fixpoint drive (fuel : nat) (r : ch_tcp) : option (ch_tcp * Z) :=
  match fuel with
  | O => None
  | S fuel =>
      match hsr_peek_message (r_t r) with
      | Incomplete => Some (r, CH_OK)
      | Refused rc alert => tcp_fail (put_hs ((r_hs r) <| h_alert := alert |>) r) rc
      | Whole _ =>
          x ← tcp_nonblocking_advance r;
          match x with
          | (r, Code rc) => tcp_fail r rc
          | (r, Ok _) => if negb (r_tx_len r =? 0)%nat then Some (r, CH_OK) else drive fuel r
          end
      end
  end.

(** [for (;;)] of [tcp_in], with [off] and [*consumed]: each round that goes on
    consumes a record header, so the input's length is fuel enough. *)
Fixpoint in_loop (fuel : nat) (r : ch_tcp) (p : list Z) (off consumed : nat) : option (ch_tcp * Z * nat) :=
  match fuel with
  | O => None
  | S fuel =>
      let n := length p in
      if (n - off <? REC_HDR)%nat then Some (r, CH_OK, consumed)
      else
        let rec := drop off p in
        let body_len := ((rec !!! 3%nat) <<64 8) .| (rec !!! 4%nat) in
        if Z.of_nat (rec_body_max (rec !!! 0%nat)) <? body_len then
          f ← tcp_fail (put_hs ((r_hs r) <| h_alert := ALERT_RECORD_OVERFLOW |>) r) CH_EPROTO;
          Some (f, consumed)
        else if Z.of_nat (n - off) <? Z.of_nat REC_HDR + body_len then Some (r, CH_OK, consumed)
        else
          let len := (REC_HDR + Z.to_nat body_len)%nat in
          x ← tcp_nonblocking_take_record (take len rec) (rec !!! 0%nat) r;
          match x with
          | (r, Code rc) => f ← tcp_fail r rc; Some (f, consumed)
          | (r, Ok _) =>
              let off := (off + len)%nat in
              d ← drive (S (cfg_buf_len (t_cfg (r_t r)))) r;
              let '(r, rc) := d in
              if negb (rc =? CH_OK) then Some (r, rc, off)
              else if negb (r_tx_len r =? 0)%nat then Some (r, CH_OK, off)
              else in_loop fuel r p off off
          end
  end.

(** The session, the code and [*consumed]. *)
Definition tcp_in (r : ch_tcp) (p : list Z) : option (ch_tcp * Z * nat) :=
  if negb (t_state (r_t r) <=? CH_ST_FAILED) then None
  else if tcp_nonblocking_session_dead r then Some (r, CH_EPROTO, 0%nat)
  else if negb (r_tx_len r =? 0)%nat then Some (r, CH_EINVAL, 0%nat)
  else in_loop (S (length p)) r p 0 0.

(** The session, the code and the bytes handed over, [None] where [*out_len] is
    not written. *)
Definition tcp_out (r : ch_tcp) (cap : nat) : ch_tcp * Z * option (list Z) :=
  if tcp_nonblocking_session_dead r && (r_tx_len r =? 0)%nat then (r, CH_EINVAL, None)
  else if (cap =? 0)%nat then (r, CH_ECAP, None)
  else
    let left := (r_tx_len r - r_tx_off r)%nat in
    if (left =? 0)%nat then (r, CH_OK, Some [])
    else
      let n := if (left <? cap)%nat then left else cap in
      let out := take n (drop (r_tx_off r) (t_tx (r_t r))) in
      let r := r <| r_tx_off := (r_tx_off r + n)%nat |> in
      if (r_tx_off r =? r_tx_len r)%nat then
        let r := r <| r_tx_len := 0%nat |> <| r_tx_off := 0%nat |> in
        if (r_step r =? TCP_NONBLOCKING_STEP_COMPLETE) && (t_state (r_t r) =? CH_ST_START) then
          (put_t ((r_t r) <| t_state := CH_ST_CONNECTED |>) r, CH_OK, Some out)
        else (r, CH_OK, Some out)
      else (r, CH_OK, Some out).

Definition tcp_close (r : ch_tcp) : ch_tcp :=
  let r := tcp_nonblocking_wipe r in
  put_t ((r_t r) <| t_state := CH_ST_CLOSED |>) r.
End Client.
End Tcp.
