(* ===== verification/TcpProto.v ===== *)
(** * The handshake a session follows

    The client's side of RFC 9846's handshake as a state machine over messages,
    with the whole transcript as its state, and the proof that each step of
    [TcpClient]'s table is a step of it: it goes on exactly when the machine
    accepts the message, with the session's fields and keys as the machine's
    state says. *)

From S2P Require Import Prelude Ct MdHash Sha256 X25519 Reader Build Wire Hkdf Keysched HsParser HsParserEe.
From S2P Require Import HsMessage Aead Record Cmd ClientCfg HsRecord HsFlight TcpClient.
Import Sha256 Hkdf Keysched HsRecord Cfg HsFlight Tcp.
Local Open Scope Z_scope.

Module Proto.

(** What a session drew and what it was given. *)
Record opening := Opening { o_cfg : client_cfg; o_priv : list Z; o_random : list Z; o_limit : Z }.
Definition o_pub (o : opening) : list Z := X25519.x25519_base (o_priv o).
Definition o_psk (o : opening) : bool := is_set (psk (o_cfg o)).

(** The shared secret, and the transcript through the ServerHello. *)
Record agreement := Agreement { a_ecdhe : list Z; a_hello : list Z }.

(** [T] is the transcript; [limit] the peer's record size limit; [slot] the pin
    that verified, none where the PSK authenticates. *)
Inductive proto :=
  | Waiting (was_retried : bool) (T : list Z)
  | Keyed (a : agreement) (T : list Z)
  | Extended (a : agreement) (limit : Z) (T : list Z)
  | Certified (a : agreement) (limit : Z) (T : list Z)
  | Authenticated (a : agreement) (limit : Z) (slot : option Z) (T : list Z)
  | Complete (a : agreement) (limit : Z) (slot : option Z) (T : list Z).

Definition c_hs (o : opening) (a : agreement) : list Z := c_hs_secret (o_cfg o) (a_ecdhe a) (sha256_spec (a_hello a)).
Definition s_hs (o : opening) (a : agreement) : list Z := s_hs_secret (o_cfg o) (a_ecdhe a) (sha256_spec (a_hello a)).

(** ** The session in a state of the machine *)

Definition dir_of (secret : list Z) (seq : Z) : rec_dir :=
  RecDir (Expand_Label 32 secret (str "key") [] 32) (Expand_Label 32 secret (str "iv") [] 12) seq.

(** The bytes staged for [tcp_out], if any. *)
Definition staged_ok (r : ch_tcp) : Prop :=
  (r_tx_len r <= length (t_tx (r_t r)) /\ (r_tx_off r < r_tx_len r \/ r_tx_len r = 0 /\ r_tx_off r = 0))%nat.

(** What a connected session starts from: nothing counted yet, and a limit of
    the peer's that admits a byte. *)
Definition unused (t : ch_tls) : Prop :=
  1 <= t_peer_limit t /\
  t_key_update_owed t = false /\ t_key_update_run t = 0 /\ t_read_closed t = false /\ t_send_epochs t = 0 /\ t_post_fill t = 0%nat.

(** In every live state: [T] is what the transcript context absorbed. *)
Definition live (o : opening) (r : ch_tcp) (T : list Z) : Prop :=
  let t := r_t r in
  session_cfg (t_cfg t) /\ t_cfg t = o_cfg o /\ reader_ok t /\ length (t_tx t) = (REC_HDR + CH_TX_STAGE)%nat /\
  sha256_absorbed (t_transcript t) T /\ t_alert_received t = 0 /\ staged_ok r /\ unused t.

(** Handshake keys are in place, what they came from is gone, and nothing is
    owed to the peer. *)
Definition keyed (o : opening) (r : ch_tcp) (a : agreement) : Prop :=
  let h := r_hs r in let t := r_t r in
  t_state t = CH_ST_START /\ r_tx_len r = 0%nat /\ h_encrypted h = true /\ t_keys t = true /\ h_handshake_secret h = hs_secret (o_cfg o) (a_ecdhe a) /\
  h_c_hs h = c_hs o a /\ h_s_hs h = s_hs o a /\ t_wr t = dir_of (c_hs o a) 0 /\
  (t_rd t = dir_of (s_hs o a) (d_seq (t_rd t)) /\ u64_ok (d_seq (t_rd t))) /\ t_psk_selected t = o_psk o /\
  (h_priv h = zero_bytes X25519_LEN /\ h_pub h = zero_bytes X25519_LEN /\ h_random h = zero_bytes 32 /\
   h_early h = zero_bytes HKDF_HASH_MAX /\ h_binder_key h = zero_bytes HKDF_HASH_MAX).

(** Application keys are in place, and the handshake is wiped; nothing is queued
    until the session is connected. *)
Definition connectable (o : opening) (r : ch_tcp) (a : agreement) (T : list Z) : Prop :=
  let t := r_t r in
  let finished := client_finished (c_hs o a) (sha256_spec T) in
  let c_ap := app_secret (o_cfg o) (a_ecdhe a) "c ap traffic" (sha256_spec T) in
  let s_ap := app_secret (o_cfg o) (a_ecdhe a) "s ap traffic" (sha256_spec T) in
  live o r (T ++ finished) /\ r_hs r = wiped_hs t /\ t_keys t = true /\
  t_wr_secret t = c_ap /\ t_rd_secret t = s_ap /\ t_wr t = dir_of c_ap 0 /\ t_rd t = dir_of s_ap 0 /\
  t_res_master t = app_secret (o_cfg o) (a_ecdhe a) "res master" (sha256_spec (T ++ finished)) /\ t_psk_selected t = o_psk o /\
  (t_state t = CH_ST_START /\ r_tx_len r <> 0%nat /\ unread t = [] \/ t_state t = CH_ST_CONNECTED /\ r_tx_len r = 0%nat).

Definition slot_ok (r : ch_tcp) (slot : option Z) : Prop := match slot with Some s => t_pin_slot (r_t r) = s | None => True end.

Definition tracks (o : opening) (p : proto) (r : ch_tcp) : Prop :=
  let h := r_hs r in let t := r_t r in
  match p with
  | Waiting was_retried T =>
      live o r T /\ r_step r = (if was_retried then TCP_NONBLOCKING_STEP_AWAIT_RETRY_HELLO else TCP_NONBLOCKING_STEP_AWAIT_SERVER_HELLO) /\
      t_state t = CH_ST_START /\ h_encrypted h = false /\ t_keys t = false /\ h_priv h = o_priv o /\ h_pub h = o_pub o /\ (h_random h = o_random o /\ length (o_random o) = 32%nat) /\
      h_record_size_limit h = o_limit o /\ early_ok h /\ cookie_ok h /\ t_peer_limit t = Z.of_nat CH_TX_PT
  | Keyed a T => live o r T /\ keyed o r a /\ r_step r = TCP_NONBLOCKING_STEP_AWAIT_ENCRYPTED_EXTENSIONS /\ t_peer_limit t = Z.of_nat CH_TX_PT
  | Extended a limit T => live o r T /\ keyed o r a /\ r_step r = TCP_NONBLOCKING_STEP_AWAIT_CERTIFICATE /\ t_peer_limit t = limit
  | Certified a limit T => live o r T /\ keyed o r a /\ r_step r = TCP_NONBLOCKING_STEP_AWAIT_CERTIFICATE_VERIFY /\ t_peer_limit t = limit
  | Authenticated a limit slot T => live o r T /\ keyed o r a /\ r_step r = TCP_NONBLOCKING_STEP_AWAIT_FINISHED /\ t_peer_limit t = limit /\ slot_ok r slot
  | Complete a limit slot T => connectable o r a T /\ r_step r = TCP_NONBLOCKING_STEP_COMPLETE /\ t_peer_limit t = limit /\ slot_ok r slot
  end.

(** How a call fails, before [tcp_fail] ends the session. *)
Definition failing (r0 : ch_tcp) (rc : Z) (r : ch_tcp) : Prop :=
  err_code rc /\ alert_ok (h_alert (r_hs r)) /\ t_wr (r_t r) = t_wr (r_t r0) /\ t_keys (r_t r) = t_keys (r_t r0) /\ length (t_tx (r_t r)) = length (t_tx (r_t r0)).
(** So, and not for an alert of the peer's. *)
Definition refusing (r0 : ch_tcp) (rc : Z) (r : ch_tcp) : Prop := failing r0 rc r /\ t_alert_received (r_t r) = t_alert_received (r_t r0).

Lemma o_pub_length o : length (o_pub o) = 32%nat.
Proof. exact (proj1 (X25519.clamp_and_ladder_shape _ _)). Qed.

#[local] Opaque hmac_of expand_label_spec sha256_spec X25519.x25519 X25519.x25519_base transcript_update transcript_init transcript_hash_after.

(** ** Lemmas: the session *)

Lemma rec_dir_init_at secret : Rec.rec_dir_init secret = Some (dir_of secret 0).
Proof.
  destruct (Rec.rec_dir_init_correct secret) as ([key iv seq] & -> & _ & Hs & Hk & Hi). cbn in Hs, Hk, Hi. unfold dir_of, Expand_Label.
  rewrite Hs, Hk, Hi. reflexivity.
Qed.
Lemma dir_of_ok secret seq : u64_ok seq -> Rec.dir_ok (dir_of secret seq).
Proof.
  intros Hs. destruct (Rec.rec_dir_init_correct secret) as (d & Ed & (H1 & H2 & H3 & H4 & _) & _). rewrite rec_dir_init_at in Ed. injection Ed as <-. done.
Qed.

Lemma dir_of_next secret seq : Rec.next_seq (dir_of secret seq) = dir_of secret (seq + 1).
Proof. done. Qed.
Lemma dir_of_seq secret seq : d_seq (dir_of secret seq) = seq.
Proof. done. Qed.

Lemma u64_zero : u64_ok 0.
Proof. done. Qed.

Lemma retried_absorbs T m t : sha256_absorbed (t_transcript t) T -> sha256_absorbed (t_transcript (retried m t)) (retry_prefix T m).
Proof.
  intros Ha. unfold retried. fields. rewrite (transcript_hash_after_spec _ T) by done. rewrite app_nil_r. unfold retry_prefix, message.
  rewrite (sha_length T). generalize (sha256_spec T). intros d.
  change (HS_MESSAGE_HASH :: be_bytes 3 (Z.of_nat 32) ++ d) with (([] ++ [HS_MESSAGE_HASH; 0; 0; u8 (Z.of_nat SHA256_LEN)]) ++ d).
  do 3 apply transcript_update_absorbs. apply transcript_init_absorbed. by apply transcript_block in Ha.
Qed.

Lemma err_eproto : err_code CH_EPROTO.
Proof. by left. Qed.
Lemma alert_unexpected : alert_ok ALERT_UNEXPECTED_MESSAGE.
Proof. by split. Qed.
Ltac frame := unfold refused, read_past, hashed, skipped, with_queue, retried, keep_cookie; fields; split_and!; first [exact err_eproto | apply alert_unexpected | reflexivity].
Ltac same := unfold r_t, agreed, hashed, derived, retried, keep_cookie, read_past, skipped, with_queue; fields; reflexivity.
Ltac wps' := unfold refuse, set_alert, upd_t; repeat (wp_step || cbv zeta); fields.

Lemma failing_hs r r1 rc h t0 : refused t0 rc h -> t_wr t0 = t_wr (r_t r) -> t_keys t0 = t_keys (r_t r) -> length (t_tx t0) = length (t_tx (r_t r)) ->
  t_alert_received t0 = t_alert_received (r_t r) -> refusing r rc (r1 <| r_hs := h |>).
Proof. intros (H1 & H2 & H3 & H4 & _ & H5 & H6) E1 E2 E3 E4. unfold refusing, failing, r_t. fields. rewrite H3, H4, H5, H6. split_and!; try apply H2; done. Qed.

Lemma psk_offered o t : t_cfg t = o_cfg o -> psk_set t = o_psk o.
Proof. unfold psk_set, o_psk. by intros ->. Qed.

Lemma record_end t : reader_ok t -> (t_pt_off t =? t_pt_len t)%nat = bool_decide (unread t = []).
Proof.
  intros Hr. pose proof (length_unread t Hr) as Hl. destruct Hr as (_ & _ & Ho). case_bool_decide as E.
  - rewrite E in Hl. cbn in Hl. apply Nat.eqb_eq. lia.
  - apply Nat.eqb_neq. intros H. apply E. destruct (unread t); [done|cbn in Hl; lia].
Qed.

Lemma check_record_end_wp Q E h : reader_ok (h_t h) ->
  (unread (h_t h) = [] -> Q () h) ->
  (unread (h_t h) <> [] -> refused (h_t h) CH_EPROTO (h <| h_alert := ALERT_UNEXPECTED_MESSAGE |>) -> E CH_EPROTO (h <| h_alert := ALERT_UNEXPECTED_MESSAGE |>)) ->
  wp hsr_check_record_end Q E h.
Proof.
  intros Hr HQ HE. unfold hsr_check_record_end. wps. rewrite record_end by done. case_bool_decide as Eu; cbn [negb]; cbv iota; wps.
  - by apply HQ.
  - wps'. apply HE; [done|frame].
Qed.

Lemma read_past_queue type body rest t : front t type body rest ->
  reader_ok (read_past type body t) /\ unread (read_past type body t) = rest.
Proof. intros (Hr & Hu & _). by apply skipped_message. Qed.

Lemma wp_on_hs {A} (c : hs_cmd A) Q E r : wp (on_hs c) Q E r <->
  wp c (fun a h => Q a (r <| r_hs := h |>)) (fun rc h => E rc (r <| r_hs := h |>)) (r_hs r).
Proof. apply wp_on. Qed.
Lemma wp_on_t f Q E r : wp (on_t f) Q E r <-> Q () (r <| r_hs := (r_hs r) <| h_t := f (h_t (r_hs r)) |> |>).
Proof. done. Qed.
Lemma key_directions_wp rd wr Q E r :
  Q () (r <| r_hs := (r_hs r) <| h_t := (h_t (r_hs r)) <| t_rd := dir_of rd 0 |> <| t_wr := dir_of wr 0 |> |> |>) ->
  wp (key_directions rd wr) Q E r.
Proof.
  intros HQ. unfold key_directions. wps. erewrite wp_call by apply rec_dir_init_at. wps. erewrite wp_call by apply rec_dir_init_at.
  rewrite wp_on_t. exact HQ.
Qed.

#[local] Opaque absorbed dir_of hs_secret c_hs_secret s_hs_secret app_secret finished_mac zero_bytes store_bytes.

(** The parts of an invariant an update left alone. *)
Ltac keep :=
  match goal with
  | H : ?P |- ?P => exact H
  | H : reader_ok _ |- reader_ok _ => exact H
  | H : staged_ok _ |- staged_ok _ => exact H
  | H : staged_ok _ /\ _ |- staged_ok _ => exact (proj1 H)
  | H : unused _ |- unused _ => exact H
  | H : _ /\ unused _ |- unused _ => exact (proj2 H)
  | H : early_ok _ |- early_ok _ => exact H
  | H : cookie_ok _ |- cookie_ok _ => exact H
  | H : _ = ?b |- _ = ?b => exact H
  end.
Ltac settle := split_and!; try reflexivity; try keep.

(** A step of a driver's command. *)
Ltac step :=
  lazymatch goal with
  | |- wp (on_hs _) _ _ _ => rewrite wp_on_hs
  | |- wp (on_t _) _ _ _ => rewrite wp_on_t
  | |- wp (key_directions _ _) _ _ _ => apply key_directions_wp
  | |- wp (set_step _) _ _ _ => unfold set_step; rewrite wp_modify
  | |- wp (refuse _ _) _ _ _ => unfold refuse, set_alert
  | _ => wp_step
  end; cbv beta; fields.
Ltac steps := repeat step.

Lemma keep_cookie_ok cookie h : cookie_ok h -> (1 <= length cookie <= 128)%nat -> cookie_ok (keep_cookie cookie h).
Proof. intros [H1 H2] Hc. unfold cookie_ok, keep_cookie. fields. rewrite length_store_bytes by lia. lia. Qed.
Lemma kept_cookie cookie h : cookie_ok h -> (1 <= length cookie <= 128)%nat -> hello_cookie (keep_cookie cookie h) = Some cookie.
Proof.
  intros [H1 H2] Hc. unfold hello_cookie, keep_cookie. fields. destruct (Nat.ltb_spec 0 (length cookie)); [|lia].
  f_equal. exact (take_store_bytes (h_cookie h) 0 cookie ltac:(lia)).
Qed.

(** A hello staged behind its record header. *)
Lemma staged_length tx m n : length tx = (REC_HDR + CH_TX_STAGE)%nat -> (length m <= CH_TX_STAGE)%nat ->
  length (store_bytes (store_bytes tx REC_HDR m) 0 [REC_HANDSHAKE; 3; 3; u8 (n >> 8)%word; u8 n]) = length tx.
Proof. intros Ht Hm. unfold REC_HDR in *. assert (length (store_bytes tx 5 m) = length tx) by (apply length_store_bytes; lia). rewrite length_store_bytes; [done|cbn; lia]. Qed.

(** ** The machine *)

Section Client.
Context {aead : AeadOps} {laws : AeadLaws aead} (pin_ecdsa : bool) (pin_verify : list Z -> list Z -> list Z -> bool).
#[local] Instance build : HsBuild := client_build pin_ecdsa.

(** The hello sent after [prefix]. *)
Definition hello_after (o : opening) (prefix : list Z) (cookie : option (list Z)) : list Z :=
  sent_hello pin_ecdsa (o_cfg o) prefix (o_pub o) (o_random o) (o_limit o) cookie.
(** One message of the server, [last] where it ends its record. *)
Inductive accepts (o : opening) : proto -> Z -> list Z -> bool -> proto -> Prop :=
  | accept_retry T type body last i cookie :
      sh_accepts pin_ecdsa (o_psk o) type body i -> Hsp.sh_hrr i = true -> Hsp.sh_cookie i = Some cookie ->
      let prefix := retry_prefix T (message type body) in
      accepts o (Waiting false T) type body last (Waiting true (prefix ++ hello_after o prefix (Some cookie)))
  | accept_server_hello was_retried T type body i ecdhe :
      sh_accepts pin_ecdsa (o_psk o) type body i -> Hsp.sh_hrr i = false -> hello_usable (o_psk o) i -> shared (o_priv o) i ecdhe ->
      let T' := T ++ message type body in
      accepts o (Waiting was_retried T) type body true (Keyed (Agreement ecdhe T') T')
  | accept_extensions a T type body last limit :
      ee_accepts pin_ecdsa (Z.of_nat CH_TX_PT) type body limit ->
      let T' := T ++ message type body in
      accepts o (Keyed a T) type body last (if o_psk o then Authenticated a limit None T' else Extended a limit T')
  | accept_certificate a limit T type body last :
      cert_accepts type body ->
      accepts o (Extended a limit T) type body last (Certified a limit (T ++ message type body))
  | accept_verify a limit T type body last slot :
      verify_accepts pin_ecdsa pin_verify (o_cfg o) (sha256_spec T) type body slot ->
      accepts o (Certified a limit T) type body last (Authenticated a limit (Some slot) (T ++ message type body))
  | accept_finished a limit slot T type body :
      finished_accepts (s_hs o a) (sha256_spec T) type body ->
      accepts o (Authenticated a limit slot T) type body true (Complete a limit slot (T ++ message type body)).

(** The states a session may be in, and the messages that led there. *)
Inductive reached (o : opening) : list (Z * list Z) -> proto -> Prop :=
  | reached_hello : reached o [] (Waiting false (hello_after o [] None))
  | reached_message msgs p type body last p' :
      reached o msgs p -> accepts o p type body last p' -> reached o (msgs ++ [(type, body)]) p'.

(** ** Lemmas: the machine *)

Lemma cookie_range psk type body i cookie : bytes_ok body -> sh_accepts pin_ecdsa psk type body i -> Hsp.sh_hrr i = true -> Hsp.sh_cookie i = Some cookie ->
  (1 <= length cookie <= 128)%nat.
Proof.
  intros Hb (_ & Hp & Hn) Hh Hc. destruct (Hn Hh) as [_ Hne]. rewrite Hc in Hne. assert (1 <= length cookie)%nat by (destruct cookie; [done|cbn; lia]).
  clear Hn Hne. destruct (Hsp.server_hello_sound psk body i Hb Hp) as (random & suite & ys & _ & _ & _ & Hy & Hnd & _ & -> & _).
  apply Hsp.cookie_seen in Hc; [|done]. rewrite Forall_forall in Hy. apply Hy in Hc as [_ Hl]. split; [done|exact Hl].
Qed.

(** The client's Finished is staged, in a record the server's copy of the
    handshake key opens. *)
Definition owes_finished (o : opening) (a : agreement) (T : list Z) (r : ch_tcp) : Prop :=
  exists rec, Rec.rec_open (dir_of (c_hs o a) 0) rec (length rec) =
      Some (Rec.next_seq (dir_of (c_hs o a) 0), Some (REC_HANDSHAKE, client_finished (c_hs o a) (sha256_spec T))) /\
    r_tx_len r = length rec /\ r_tx_off r = 0%nat /\ take (length rec) (t_tx (r_t r)) = rec.
(** What opens the records that follow; at the end, what is still owed. *)
Definition reads_as (o : opening) (p' : proto) (r0 r : ch_tcp) : Prop :=
  match p' with
  | Keyed a _ => t_rd (r_t r) = dir_of (s_hs o a) 0
  | Complete a _ _ T => t_state (r_t r) = CH_ST_START /\ owes_finished o a T r
  | Waiting _ _ => True
  | _ => t_rd (r_t r) = t_rd (r_t r0)
  end.
Definition advanced (o : opening) (p : proto) (type : Z) (body rest : list Z) (r0 r : ch_tcp) : Prop :=
  exists p', accepts o p type body (bool_decide (rest = [])) p' /\ tracks o p' r /\ unread (r_t r) = rest /\ reads_as o p' r0 r.
Definition stopped (o : opening) (p : proto) (type : Z) (body rest : list Z) (r0 : ch_tcp) (rc : Z) (r : ch_tcp) : Prop :=
  (forall p', ~ accepts o p type body (bool_decide (rest = [])) p') /\ refusing r0 rc r.

(** A ServerHello is read in one way. *)
Lemma sh_functional psk type body i j : sh_accepts pin_ecdsa psk type body i -> sh_accepts pin_ecdsa psk type body j -> i = j.
Proof. intros (_ & Hi & _) (_ & Hj & _). rewrite Hi in Hj. by injection Hj. Qed.

(** What the machine asks of the message that answers a hello. *)
Lemma waiting_accepts o was_retried T type body last p' : accepts o (Waiting was_retried T) type body last p' ->
  exists i, sh_accepts pin_ecdsa (o_psk o) type body i /\
    (Hsp.sh_hrr i = true /\ was_retried = false \/
     Hsp.sh_hrr i = false /\ last = true /\ hello_usable (o_psk o) i /\ exists ecdhe, shared (o_priv o) i ecdhe).
Proof.
  intros H. inversion H; subst.
  - exists i. split; [assumption|]. left. split; [assumption|reflexivity].
  - exists i. split; [assumption|]. right. split; [assumption|]. split; [reflexivity|]. split; [assumption|]. exists ecdhe. assumption.
Qed.
Lemma waiting_read o was_retried T type body last p' i : accepts o (Waiting was_retried T) type body last p' ->
  sh_accepts pin_ecdsa (o_psk o) type body i ->
  Hsp.sh_hrr i = true /\ was_retried = false \/
  Hsp.sh_hrr i = false /\ last = true /\ hello_usable (o_psk o) i /\ exists ecdhe, shared (o_priv o) i ecdhe.
Proof. intros H Hi. destruct (waiting_accepts _ _ _ _ _ _ _ H) as (j & Hj & Hd). by rewrite (sh_functional _ _ _ _ _ Hi Hj). Qed.

(** ** Lemmas: the step table *)

Section Hello.
Context (o : opening) (was_retried : bool) (T : list Z) (type : Z) (body rest : list Z) (r : ch_tcp)
  (Ht : tracks o (Waiting was_retried T) r) (Htx : r_tx_len r = 0%nat) (Hf : front (r_t r) type body rest).

(** The session that has read the hello [i]. *)
Lemma take_server_hello_wp i : sh_accepts pin_ecdsa (o_psk o) type body i -> Hsp.sh_hrr i = false ->
  wp (take_server_hello i) (fun _ => advanced o (Waiting was_retried T) type body rest r) (stopped o (Waiting was_retried T) type body rest r)
    (r <| r_hs := (r_hs r) <| h_t := hashed (message type body) (read_past type body (h_t (r_hs r))) |> |>).
Proof.
  intros Hi Hh. destruct Ht as (Hl & Hstep & Hst & Henc & Hk & Hpriv & Hpub & [Hrand Hrl] & Hlim & He & Hck & Hpl).
  pose proof Hl as (Hcfg & Ho & Hr & Htxl & Ha & Hal & Hso). unfold r_t in *.
  destruct (read_past_queue _ _ _ _ Hf) as [Hr' Hu'].
  assert (Hpsk : psk_set (h_t (r_hs r)) = o_psk o) by exact (psk_offered o _ Ho).
  unfold take_server_hello. steps. apply hsf_accept_server_hello_wp; [exact He| |].
  - intros Hus. assert (Hus' : hello_usable (o_psk o) i) by (rewrite <- Hpsk; exact Hus). clear Hus. steps.
    apply check_record_end_wp; fields; [exact Hr'| |].
    + intros Hu. change (unread (read_past type body (h_t (r_hs r))) = []) in Hu. rewrite Hu' in Hu. rewrite Hu in *. clear Hu. steps.
      eapply (hsf_derive_handshake_secrets_wp i (T ++ message type body)); fields; [exact (transcript_update_absorbs _ _ _ Ha)|reflexivity| |].
      * intros ecdhe Hsh. steps. exists (Keyed (Agreement ecdhe (T ++ message type body)) (T ++ message type body)). split_and!.
        -- rewrite bool_decide_eq_true_2 by done. apply (accept_server_hello o was_retried T type body i ecdhe); [exact Hi|exact Hh|exact Hus'|rewrite <- Hpriv; exact Hsh].
        -- unfold agreed, hashed, derived, read_past, skipped, with_queue. fields. unfold tracks, live, keyed, r_t, c_hs, s_hs, a_ecdhe, a_hello. fields. rewrite <- Ho.
           settle; [exact (transcript_update_absorbs _ _ _ Ha)|rewrite dir_of_seq; exact u64_zero].
        -- exact Hu'.
        -- unfold reads_as, r_t. fields. unfold derived, s_hs, a_ecdhe, a_hello. fields. rewrite <- Ho. reflexivity.
      * intros rc h' Hno Href. split; [|eapply failing_hs; [exact Href|same..]].
        intros p' Hp'. destruct (waiting_read _ _ _ _ _ _ _ i Hp' Hi) as [[E _]|(_ & _ & _ & ecdhe & Hsh)]; [congruence|].
        apply (Hno ecdhe). rewrite Hpriv. exact Hsh.
    + intros Hne Href. change (unread (read_past type body (h_t (r_hs r))) <> []) in Hne. rewrite Hu' in Hne.
      split; [|eapply failing_hs; [exact Href|same..]].
      intros p' Hp'. destruct (waiting_read _ _ _ _ _ _ _ i Hp' Hi) as [[E _]|(_ & El & _)]; [congruence|]. exact (Hne (bool_decide_eq_true_1 _ El)).
  - intros rc h' Hno Href. split; [|eapply failing_hs; [exact Href|same..]].
    intros p' Hp'. destruct (waiting_read _ _ _ _ _ _ _ i Hp' Hi) as [[E _]|(_ & _ & Hus & _)]; [congruence|].
    apply Hno. rewrite <- Hpsk in Hus. exact Hus.
Qed.

(** The session that has read the retry [i]. *)
Lemma answer_retry_wp i cookie : sh_accepts pin_ecdsa (o_psk o) type body i -> Hsp.sh_hrr i = true -> Hsp.sh_cookie i = Some cookie ->
  wp (answer_retry pin_ecdsa) (fun _ => advanced o (Waiting was_retried T) type body rest r) (stopped o (Waiting was_retried T) type body rest r)
    (r <| r_hs := keep_cookie cookie ((r_hs r) <| h_t := retried (message type body) (read_past type body (h_t (r_hs r))) |>) |>).
Proof.
  intros Hi Hh Hc. destruct Ht as (Hl & Hstep & Hst & Henc & Hk & Hpriv & Hpub & [Hrand Hrl] & Hlim & He & Hck & Hpl).
  pose proof Hl as (Hcfg & Ho & Hr & Htxl & Ha & Hal & Hso). unfold r_t in *.
  destruct (read_past_queue _ _ _ _ Hf) as [Hr' Hu']. pose proof Hf as (_ & _ & _ & Hb & _).
  pose proof (cookie_range _ _ _ _ _ Hb Hi Hh Hc) as Hcl.
  unfold answer_retry. steps. rewrite Hstep. destruct was_retried; cbn [Z.eqb Pos.eqb TCP_NONBLOCKING_STEP_AWAIT_RETRY_HELLO TCP_NONBLOCKING_STEP_AWAIT_SERVER_HELLO]; cbv iota.
  - steps. split.
    + intros p' Hp'. destruct (waiting_read _ _ _ _ _ _ _ i Hp' Hi) as [[_ E]|[E _]]; congruence.
    + eapply (failing_hs _ _ _ _ (h_t (r_hs r))); [|same..]. frame.
  - steps. set (prefix := retry_prefix T (message type body)).
    assert (Ec : hello_cookie (keep_cookie cookie ((r_hs r) <| h_t := retried (message type body) (read_past type body (h_t (r_hs r))) |>)) = Some cookie).
    { by apply kept_cookie. }
    eapply (hsf_build_client_hello_wp pin_ecdsa prefix).
    + exact Hcfg.
    + exact Htxl.
    + by apply keep_cookie_ok.
    + change (length (h_pub (r_hs r)) = 32%nat). rewrite Hpub. exact (o_pub_length o).
    + change (length (h_random (r_hs r)) = 32%nat). rewrite Hrand. exact Hrl.
    + exact He.
    + exact (retried_absorbs _ _ _ Ha).
    + cbv zeta. rewrite Ec.
      match goal with |- context [sent_hello ?a ?b ?c ?d ?e ?f ?g] => assert (Em : sent_hello a b c d e f g = hello_after o prefix (Some cookie)) end.
      { unfold hello_after. rewrite <- Ho, <- Hpub, <- Hrand, <- Hlim. reflexivity. }
      rewrite Em. clear Em. intros Hlen. steps. unfold tcp_nonblocking_stage_plain. steps.
      exists (Waiting true (prefix ++ hello_after o prefix (Some cookie))). split_and!.
      * exact (accept_retry o T type body _ i cookie Hi Hh Hc).
      * unfold keep_cookie, retried, read_past, skipped, with_queue. fields.
        set (m := hello_after o prefix (Some cookie)) in *. pose proof (staged_length _ m (Z.of_nat (length m)) Htxl Hlen) as Hsl.
        unfold tracks, live, r_t. fields. settle.
        -- rewrite Hsl. exact Htxl.
        -- exact (transcript_update_absorbs _ _ _ (retried_absorbs _ _ _ Ha)).
        -- unfold staged_ok, r_t. fields. rewrite Hsl, Htxl. split; [lia|left; unfold REC_HDR; lia].
        -- exact (keep_cookie_ok cookie (r_hs r) Hck Hcl).
      * exact Hu'.
      * exact I.
Qed.

Lemma step_server_hello_wp :
  wp (step_server_hello pin_ecdsa) (fun _ => advanced o (Waiting was_retried T) type body rest r) (stopped o (Waiting was_retried T) type body rest r) r.
Proof.
  pose proof Ht as (Hl & _). destruct Hl as (_ & Ho & _). assert (Hpsk : psk_set (h_t (r_hs r)) = o_psk o) by exact (psk_offered o _ Ho).
  unfold step_server_hello. steps. eapply hsf_read_server_hello_wp; [exact Hf| | |].
  - intros i Hi Hh. rewrite Hpsk in Hi. steps. rewrite Hh. by apply take_server_hello_wp.
  - intros i cookie Hi Hh Hc. rewrite Hpsk in Hi. steps. rewrite Hh. by apply (answer_retry_wp i).
  - intros rc h' Hno Href. rewrite Hpsk in Hno. split; [|eapply failing_hs; [exact Href|same..]].
    intros p' Hp'. destruct (waiting_accepts _ _ _ _ _ _ _ Hp') as (i & Hi & _). exact (Hno i Hi).
Qed.
End Hello.

(** ** Lemmas: the messages under the handshake keys *)

Lemma step_encrypted_extensions_wp o a T type body rest r : tracks o (Keyed a T) r -> front (r_t r) type body rest ->
  wp (step_encrypted_extensions pin_ecdsa) (fun _ => advanced o (Keyed a T) type body rest r) (stopped o (Keyed a T) type body rest r) r.
Proof.
  intros (Hl & Hk & Hstep & Hpl) Hf. pose proof Hl as (Hcfg & Ho & Hr & Htxl & Ha & Hal & Hso). pose proof Hk as (Hst & Htx0 & He & Hks & Hhs & Hc & Hs & Hw & [Hrd Hseq] & Hp & Hz).
  unfold r_t in *. destruct (read_past_queue _ _ _ _ Hf) as [Hr' Hu'].
  unfold step_encrypted_extensions. steps. eapply hsf_read_encrypted_extensions_wp; [exact Hf| |].
  - intros limit Hee. rewrite Hpl in Hee. steps. eexists. split; [exact (accept_extensions o a T type body _ limit Hee)|]. split; [|split; [exact Hu'|destruct (o_psk o); reflexivity]].
    assert (Hlim : 1 <= limit).
    { destruct Hee as (_ & s & Es & ->). destruct Hf as (_ & _ & _ & Hb & _). apply (Ee.ee_limit_positive _ _ _ _ body s Hb) in Es; [exact Es|by cbn]. }
    destruct Hso as [Hso (_ & Huse)]. unfold hashed, read_past, skipped, with_queue, r_t. fields. rewrite Hp. unfold tracks, live, keyed, r_t, slot_ok. fields.
    destruct (o_psk o); settle; try exact (transcript_update_absorbs _ _ _ Ha); try apply Hz; try exact I; exact (conj Hlim Huse).
  - intros rc h' Hno Href. rewrite Hpl in Hno. split; [|eapply failing_hs; [exact Href|same..]].
    intros p' Hp'. inversion Hp'; subst. exact (Hno _ ltac:(eassumption)).
Qed.

Lemma step_certificate_wp o a limit T type body rest r : tracks o (Extended a limit T) r -> front (r_t r) type body rest ->
  wp step_certificate (fun _ => advanced o (Extended a limit T) type body rest r) (stopped o (Extended a limit T) type body rest r) r.
Proof.
  intros (Hl & Hk & Hstep & Hpl) Hf. pose proof Hl as (Hcfg & Ho & Hr & Htxl & Ha & Hal & Hso). pose proof Hk as (Hst & Htx0 & He & Hks & Hhs & Hc & Hs & Hw & [Hrd Hseq] & Hp & Hz).
  unfold r_t in *. destruct (read_past_queue _ _ _ _ Hf) as [Hr' Hu'].
  unfold step_certificate. steps. eapply hsa_server_auth_wp; [exact Hf| |].
  - intros Hca. steps. eexists. split; [exact (accept_certificate o a limit T type body _ Hca)|]. split; [|split; [exact Hu'|reflexivity]].
    unfold hashed, read_past, skipped, with_queue, r_t. fields. unfold tracks, live, keyed, r_t. fields.
    settle; try exact (transcript_update_absorbs _ _ _ Ha); apply Hz.
  - intros rc h' Hno Href. split; [|eapply failing_hs; [exact Href|same..]].
    intros p' Hp'. inversion Hp'; subst. exact (Hno ltac:(eassumption)).
Qed.

Lemma step_certificate_verify_wp o a limit T type body rest r : tracks o (Certified a limit T) r -> front (r_t r) type body rest ->
  wp (step_certificate_verify pin_ecdsa pin_verify) (fun _ => advanced o (Certified a limit T) type body rest r) (stopped o (Certified a limit T) type body rest r) r.
Proof.
  intros (Hl & Hk & Hstep & Hpl) Hf. pose proof Hl as (Hcfg & Ho & Hr & Htxl & Ha & Hal & Hso). pose proof Hk as (Hst & Htx0 & He & Hks & Hhs & Hc & Hs & Hw & [Hrd Hseq] & Hp & Hz).
  unfold r_t in *. destruct (read_past_queue _ _ _ _ Hf) as [Hr' Hu'].
  unfold step_certificate_verify. steps. eapply hsa_read_certificate_verify_wp; [exact Hf|exact Ha| |].
  - intros slot Hv. rewrite Ho in Hv. steps. eexists. split; [exact (accept_verify o a limit T type body _ slot Hv)|]. split; [|split; [exact Hu'|reflexivity]].
    unfold hashed, read_past, skipped, with_queue, r_t. fields. unfold tracks, live, keyed, r_t, slot_ok. fields.
    settle; try exact (transcript_update_absorbs _ _ _ Ha); apply Hz.
  - intros rc h' Hno Href. rewrite Ho in Hno. split; [|eapply failing_hs; [exact Href|same..]].
    intros p' Hp'. inversion Hp'; subst. exact (Hno _ ltac:(eassumption)).
Qed.

(** ** Lemmas: Finished *)

Lemma client_finished_shape key hash : bytes_ok (client_finished key hash) /\ length (client_finished key hash) = 36%nat.
Proof.
  destruct (finished_mac_shape key hash) as [H1 H2]. unfold client_finished. split; [by apply message_ok|]. rewrite length_message, H1. reflexivity.
Qed.

Lemma stage_sealed_wp secret pt Q E r : t_wr (h_t (r_hs r)) = dir_of secret 0 -> bytes_ok pt -> length pt = 36%nat ->
  length (t_tx (h_t (r_hs r))) = (REC_HDR + CH_TX_STAGE)%nat ->
  (forall out, length out = 58%nat ->
     Rec.rec_open (dir_of secret 0) out (length out) = Some (Rec.next_seq (dir_of secret 0), Some (REC_HANDSHAKE, pt)) ->
     Q () (r <| r_hs := (r_hs r) <| h_t := (h_t (r_hs r)) <| t_wr := Rec.next_seq (dir_of secret 0) |> <| t_tx := store_bytes (t_tx (h_t (r_hs r))) 0 out |> |> |>
            <| r_tx_len := length out |> <| r_tx_off := 0%nat |>)) ->
  wp (stage_sealed pt) Q E r.
Proof.
  intros Hw Hb Hl Htx HQ. unfold stage_sealed. wps. unfold r_t at 1 2. rewrite Hw, Htx.
  destruct (Rec.seal_then_open (dir_of secret 0) REC_HANDSHAKE pt (REC_HDR + CH_TX_STAGE) 58) as (out & Es & _ & Hlo & Eo).
  { apply dir_of_ok, u64_zero. }
  { done. }
  { done. }
  { done. }
  { rewrite Hl. lia. }
  { unfold Rec.seal_fits. rewrite dir_of_seq, Hl. split_and!; [reflexivity|by apply Z.leb_le|by apply Nat.leb_le]. }
  { rewrite Hl. lia. }
  erewrite wp_call by exact Es. assert (Hl58 : length out = 58%nat) by (rewrite Hlo, Hl; reflexivity). steps. apply HQ; [exact Hl58|]. rewrite Hl58. exact Eo.
Qed.

Lemma wiped_hs_t t : h_t (wiped_hs t) = t.
Proof. reflexivity. Qed.

Lemma finished_accepted o a limit slot T type body last p' : accepts o (Authenticated a limit slot T) type body last p' ->
  finished_accepts (s_hs o a) (sha256_spec T) type body /\ last = true.
Proof. intros H. inversion H; subst. split; [assumption|reflexivity]. Qed.

Lemma step_finished_wp o a limit slot T type body rest r : tracks o (Authenticated a limit slot T) r -> front (r_t r) type body rest ->
  wp step_finished (fun _ => advanced o (Authenticated a limit slot T) type body rest r) (stopped o (Authenticated a limit slot T) type body rest r) r.
Proof.
  intros (Hl & Hk & Hstep & Hpl & Hslot) Hf. pose proof Hl as (Hcfg & Ho & Hr & Htxl & Ha & Hal & Hso). pose proof Hk as (Hst & Htx0 & He & Hks & Hhs & Hc & Hs & Hw & [Hrd Hseq] & Hp & Hz).
  unfold r_t in *. destruct (read_past_queue _ _ _ _ Hf) as [Hr' Hu'].
  unfold step_finished. steps. eapply hsf_read_finished_wp; [exact Hf|exact Ha| |].
  - intros Hfin. rewrite Hs in Hfin. steps. apply check_record_end_wp; fields; [exact Hr'| |].
    + intros Hu. change (unread (read_past type body (h_t (r_hs r))) = []) in Hu. rewrite Hu' in Hu. rewrite Hu in *. clear Hu. steps.
      eapply (hsf_complete_wp (a_ecdhe a) (T ++ message type body)); fields; [exact (transcript_update_absorbs _ _ _ Ha)|reflexivity| |].
      { change (t_cfg (hashed (message type body) (read_past type body (h_t (r_hs r))))) with (t_cfg (h_t (r_hs r))). rewrite Ho. exact Hhs. }
      cbv zeta. rewrite Hc. set (T' := T ++ message type body). destruct (client_finished_shape (c_hs o a) (sha256_spec T')) as [Hfb Hfl].
      set (m := client_finished (c_hs o a) (sha256_spec T')) in *. unfold completed, hashed, read_past, skipped, with_queue. steps. rewrite Ho.
      eapply (stage_sealed_wp (c_hs o a)); fields; [exact Hw|exact Hfb|exact Hfl|exact Htxl|]. intros out Hlo Hopen. steps.
      eexists. split; [exact (accept_finished o a limit slot T type body Hfin)|]. fold T'. unfold put_hs, r_t. fields.
      assert (Hsl : length (store_bytes (t_tx (h_t (r_hs r))) 0 out) = length (t_tx (h_t (r_hs r)))) by (apply length_store_bytes; rewrite Htxl, Hlo; apply Nat.leb_le; reflexivity).
      assert (Htk : take (length out) (store_bytes (t_tx (h_t (r_hs r))) 0 out) = out) by exact (take_store_bytes _ 0 out (Nat.le_0_l _)).
      split; [|split; [reflexivity|split; [exact Hst|exists out; split; [exact Hopen|split; [reflexivity|split; [reflexivity|exact Htk]]]]]].
      unfold tracks, connectable, live, slot_ok, r_t. fields. fold m. rewrite !wiped_hs_t. fields. settle.
      * unfold reader_ok. fields. destruct Hr as (Hb1 & Hb2 & _). split; [exact Hb1|]. split; [exact Hb2|]. lia.
      * rewrite Hsl. exact Htxl.
      * exact (transcript_update_absorbs _ _ _ (transcript_update_absorbs _ _ _ Ha)).
      * unfold staged_ok, r_t. fields. rewrite wiped_hs_t. fields. rewrite Hsl, Htxl, Hlo. split; [apply Nat.leb_le; reflexivity|left; lia].
      * left. split; [exact Hst|]. rewrite Hlo. split; [discriminate|reflexivity].
    + intros Hne Href. change (unread (read_past type body (h_t (r_hs r))) <> []) in Hne. rewrite Hu' in Hne.
      split; [|eapply failing_hs; [exact Href|same..]].
      intros p' Hp'. apply finished_accepted in Hp' as [_ El]. exact (Hne (bool_decide_eq_true_1 _ El)).
  - intros rc h' Hno Href. rewrite Hs in Hno. split; [|eapply failing_hs; [exact Href|same..]].
    intros p' Hp'. apply finished_accepted in Hp' as [Hfin _]. exact (Hno Hfin).
Qed.


(** ** The table *)

(** From a session in the state [p] of the machine, with a whole message at the
    front of its queue, the step goes on exactly when the machine accepts the
    message, and then the session is in the machine's next state. *)
Lemma advance_wp o p type body rest r : tracks o p r -> r_tx_len r = 0%nat -> front (r_t r) type body rest ->
  wp (tcp_nonblocking_advance pin_ecdsa pin_verify) (fun _ => advanced o p type body rest r) (stopped o p type body rest r) r.
Proof.
  intros Ht Htx Hf. assert (Es : r_step r = match p with
    | Waiting false _ => TCP_NONBLOCKING_STEP_AWAIT_SERVER_HELLO | Waiting true _ => TCP_NONBLOCKING_STEP_AWAIT_RETRY_HELLO
    | Keyed _ _ => TCP_NONBLOCKING_STEP_AWAIT_ENCRYPTED_EXTENSIONS | Extended _ _ _ => TCP_NONBLOCKING_STEP_AWAIT_CERTIFICATE
    | Certified _ _ _ => TCP_NONBLOCKING_STEP_AWAIT_CERTIFICATE_VERIFY | Authenticated _ _ _ _ => TCP_NONBLOCKING_STEP_AWAIT_FINISHED
    | Complete _ _ _ _ => TCP_NONBLOCKING_STEP_COMPLETE end).
  { destruct p as [[|] T|a T|a l T|a l T|a l sl T|a l sl T]; [apply Ht..]. }
  unfold tcp_nonblocking_advance. rewrite wp_bind, wp_gets, Es.
  destruct p as [[|] T|a T|a l T|a l T|a l sl T|a l sl T].
  - exact (step_server_hello_wp o true T type body rest r Ht Htx Hf).
  - exact (step_server_hello_wp o false T type body rest r Ht Htx Hf).
  - exact (step_encrypted_extensions_wp o a T type body rest r Ht Hf).
  - exact (step_certificate_wp o a l T type body rest r Ht Hf).
  - exact (step_certificate_verify_wp o a l T type body rest r Ht Hf).
  - exact (step_finished_wp o a l sl T type body rest r Ht Hf).
  - change (wp step_complete (fun _ => advanced o (Complete a l sl T) type body rest r) (stopped o (Complete a l sl T) type body rest r) r).
    unfold step_complete. steps. split; [intros p' Hp'; inversion Hp'|].
    eapply (failing_hs _ _ _ _ (h_t (r_hs r))); [|same..]. frame.
Qed.
End Client.
End Proto.
