(* ===== verification/TcpSession.v ===== *)
(** * The driver's calls: what a session is between them

    The calls of [TcpClient] over the machine of [TcpProto]: a session is dead
    and wiped or in a state the machine reaches, whatever its caller and its
    peer do; no assertion fails and every loop ends. *)

From S2P Require Import Prelude Ct MdHash Sha256 X25519 Reader Build Wire Hkdf Keysched HsParser HsParserEe.
From S2P Require Import HsMessage Aead Record Cmd ClientCfg HsRecord HsFlight TcpClient TcpProto.
Import Sha256 Hkdf Keysched HsRecord Cfg HsFlight Tcp Proto.
Local Open Scope Z_scope.
Local Open Scope word_scope.

Module Session.

(** The session is over: its secrets are gone, and at most an alert is staged. *)
Definition dead (r : ch_tcp) : Prop :=
  let t := r_t r in
  (t_state t = CH_ST_CLOSED \/ t_state t = CH_ST_FAILED) /\ r_hs r = wiped_hs t /\ t_rd t = zero_dir /\ t_wr t = zero_dir /\
  t_rd_secret t = zero_bytes HKDF_HASH_MAX /\ t_wr_secret t = zero_bytes HKDF_HASH_MAX /\ t_res_master t = zero_bytes HKDF_HASH_MAX /\
  t_keys t = false /\ t_pt_off t = 0%nat /\ t_pt_len t = 0%nat /\ staged_ok r.

Section Client.
Context {aead : AeadOps} {laws : AeadLaws aead} (pin_ecdsa : bool) (pin_verify : list Z -> list Z -> list Z -> bool).
#[local] Instance build : HsBuild := client_build pin_ecdsa.

Lemma length_zero_bytes n : length (zero_bytes n) = n.
Proof. apply length_replicate. Qed.

#[local] Opaque hmac_of expand_label_spec sha256_spec X25519.x25519 X25519.x25519_base transcript_update transcript_init transcript_hash_after
  absorbed dir_of hs_secret c_hs_secret s_hs_secret app_secret finished_mac zero_bytes store_bytes.

(** The alert a failure owes: none after the peer's. *)
Definition alert_owed (r : ch_tcp) : Z := if t_alert_received (r_t r) =? 0 then h_alert (r_hs r) else 0.
(** The record that carries it: in the clear, or one the peer's key opens. *)
Definition alert_staged (r : ch_tcp) (alert : Z) (rec : list Z) : Prop :=
  if alert =? 0 then rec = []
  else if t_keys (r_t r) then
    exists d, Rec.rec_open (t_wr (r_t r)) rec (length rec) = Some (d, Some (REC_ALERT, [2; alert])) /\ length rec = CH_ALERT_RECORD_LEN
  else rec = [REC_ALERT; 3; 3; 0; 2; 2; alert].

(** A session that can still write its alert. *)
Definition can_fail (r : ch_tcp) : Prop :=
  byte_ok (h_alert (r_hs r)) /\ (t_keys (r_t r) = true -> Rec.dir_ok (t_wr (r_t r)) /\ d_seq (t_wr (r_t r)) < UINT64_MAX) /\
  length (t_tx (r_t r)) = (REC_HDR + CH_TX_STAGE)%nat.

Definition failed (r0 : ch_tcp) (r : ch_tcp) : Prop :=
  exists rec, dead r /\ t_state (r_t r) = CH_ST_FAILED /\ t_alert_sent (r_t r) = alert_owed r0 /\ alert_staged r0 (alert_owed r0) rec /\
    r_tx_len r = length rec /\ r_tx_off r = 0%nat /\ t_tx (r_t r) = rec ++ zero_bytes (REC_HDR + CH_TX_STAGE - length rec).

(** ** Lemmas: failing *)

Lemma alert_record_spec r alert : can_fail r -> byte_ok alert ->
  exists r' rec, alert_record r alert = Some (r', rec) /\ (exists wr, r' = put_t ((r_t r) <| t_wr := wr |>) r) /\
    (alert <> 0 -> alert_staged r alert rec) /\ (length rec <= CH_ALERT_RECORD_LEN)%nat.
Proof.
  intros (_ & Hk & _) Ha. unfold alert_record, alert_staged. destruct (t_keys (r_t r)).
  - destruct (Hk eq_refl) as [Hd Hs].
    destruct (Rec.seal_then_open (t_wr (r_t r)) REC_ALERT [2; alert] CH_ALERT_RECORD_LEN 24 Hd) as (rec & Es & _ & Hl & Eo).
    { done. }
    { done. }
    { apply Forall_cons_2; [done|]. by apply Forall_singleton. }
    { done. }
    { split; [exact Hs|]. split; [done|]. by apply Nat.leb_le. }
    { cbn. lia. }
    rewrite Es. eexists _, rec. split; [reflexivity|]. split; [by eexists|]. change (length rec = 24%nat) in Hl. rewrite Hl.
    split; [|done]. intros Hne. destruct (Z.eqb_spec alert 0); [done|]. eexists. by split.
  - exists r, [REC_ALERT; 3; 3; 0; 2; 2; alert]. split; [reflexivity|]. split.
    + exists (t_wr (r_t r)). unfold put_t, r_t. destruct r as [[[] ] ]. reflexivity.
    + split; [|cbn; unfold CH_ALERT_RECORD_LEN, REC_OVERHEAD; lia]. intros Hne. by destruct (Z.eqb_spec alert 0).
Qed.

Lemma store_zero n rec : (length rec <= n)%nat -> store_bytes (zero_bytes n) 0 rec = rec ++ zero_bytes (n - length rec).
Proof. intros H. with_strategy transparent [store_bytes zero_bytes] unfold store_bytes, zero_bytes. by rewrite take_0, drop_replicate. Qed.

Lemma wiped_set t t' : (wiped_hs t) <| h_t := t' |> = wiped_hs t'.
Proof. reflexivity. Qed.

Lemma alert_owed_byte r : can_fail r -> byte_ok (alert_owed r).
Proof. intros (Ha & _). unfold alert_owed. by destruct (_ =? 0). Qed.

(** The end of a session, from the record staged. *)
Lemma tcp_fail_spec r rc : can_fail r -> exists r', tcp_fail r rc = Some (r', rc) /\ failed r r'.
Proof.
  intros Hc. pose proof (alert_owed_byte r Hc) as Hb. pose proof Hc as (_ & _ & Htx). unfold r_t in Htx. unfold tcp_fail, tcp_nonblocking_fail. cbv zeta. fold (alert_owed r).
  assert (exists r1 rec, (if negb (alert_owed r =? 0) then alert_record r (alert_owed r) else Some (r, [])) = Some (r1, rec) /\
    (exists wr, r1 = put_t ((r_t r) <| t_wr := wr |>) r) /\ alert_staged r (alert_owed r) rec /\ (length rec <= CH_ALERT_RECORD_LEN)%nat) as (r1 & rec & -> & (wr & ->) & Hs & Hl).
  { destruct (Z.eqb_spec (alert_owed r) 0) as [E|E]; cbn [negb]; cbv iota.
    - exists r, []. split; [reflexivity|]. split; [|split; [unfold alert_staged; by rewrite E|cbn; lia]].
      exists (t_wr (r_t r)). unfold put_t, r_t. destruct r as [[[] ] ]. reflexivity.
    - destruct (alert_record_spec r (alert_owed r) Hc Hb) as (r1 & rec & E1 & E2 & E3 & E4). exists r1, rec. split; [exact E1|]. split; [exact E2|]. split; [exact (E3 E)|exact E4]. }
  cbn [mbind option_bind]. unfold tcp_nonblocking_wipe, put_t, r_t. fields. eexists. split; [reflexivity|].
  cbn [r_hs r_step r_tx_len r_tx_off]. rewrite wiped_hs_t. rewrite wiped_set. fields. rewrite Htx, store_zero by (etrans; [exact Hl|by apply Nat.leb_le]).
  exists rec. unfold dead, staged_ok, r_t. fields. cbn [r_hs r_tx_len r_tx_off]. rewrite !wiped_hs_t. fields.
  split_and!; try reflexivity.
  - right. reflexivity.
  - rewrite length_app. lia.
  - lia.
  - exact Hs.
Qed.

(** A session in a state of the machine can write its alert. *)
Lemma dir_of_writes secret : Rec.dir_ok (dir_of secret 0) /\ d_seq (dir_of secret 0) < UINT64_MAX.
Proof. split; [apply dir_of_ok, u64_zero|by rewrite dir_of_seq]. Qed.

Lemma tracks_live o p r : tracks o p r -> exists T, live o r T.
Proof.
  destruct p as [b T|a T|a l T|a l T|a l sl T|a l sl T]; intros Ht.
  - exists T. apply Ht.
  - exists T. apply Ht.
  - exists T. apply Ht.
  - exists T. apply Ht.
  - exists T. apply Ht.
  - exists (T ++ client_finished (c_hs o a) (sha256_spec T)). apply Ht.
Qed.

Lemma tracks_writes o p r : tracks o p r -> t_keys (r_t r) = true -> Rec.dir_ok (t_wr (r_t r)) /\ d_seq (t_wr (r_t r)) < UINT64_MAX.
Proof.
  assert (Hk : forall a, keyed o r a -> Rec.dir_ok (t_wr (r_t r)) /\ d_seq (t_wr (r_t r)) < UINT64_MAX).
  { intros a (_ & _ & _ & _ & _ & _ & _ & Hw & _). rewrite Hw. apply dir_of_writes. }
  destruct p as [b T|a T|a l T|a l T|a l sl T|a l sl T]; intros Ht Hkey.
  - destruct Ht as (_ & _ & _ & _ & Hn & _). congruence.
  - destruct Ht as (_ & H & _). exact (Hk a H).
  - destruct Ht as (_ & H & _). exact (Hk a H).
  - destruct Ht as (_ & H & _). exact (Hk a H).
  - destruct Ht as (_ & H & _). exact (Hk a H).
  - destruct Ht as ((_ & _ & _ & _ & _ & Hw & _) & _). rewrite Hw. apply dir_of_writes.
Qed.

Lemma tracks_reads o p r : tracks o p r -> h_encrypted (r_hs r) = true -> Rec.dir_ok (t_rd (r_t r)).
Proof.
  assert (Hk : forall a, keyed o r a -> Rec.dir_ok (t_rd (r_t r))).
  { intros a (_ & _ & _ & _ & _ & _ & _ & _ & [Hr Hs] & _). rewrite Hr. by apply dir_of_ok. }
  destruct p as [b T|a T|a l T|a l T|a l sl T|a l sl T]; intros Ht He.
  - destruct Ht as (_ & _ & _ & Hn & _). congruence.
  - destruct Ht as (_ & H & _). exact (Hk a H).
  - destruct Ht as (_ & H & _). exact (Hk a H).
  - destruct Ht as (_ & H & _). exact (Hk a H).
  - destruct Ht as (_ & H & _). exact (Hk a H).
  - destruct Ht as ((_ & Hw & _) & _). rewrite Hw in He. discriminate He.
Qed.

Lemma failing_can_fail o p r rc r' : tracks o p r -> failing r rc r' -> can_fail r'.
Proof.
  intros Ht (_ & [Ha _] & Hw & Hk & Hl). destruct (tracks_live o p r Ht) as (T & _ & _ & _ & Htx & _).
  split; [exact Ha|]. rewrite Hw, Hk, Hl. split; [exact (tracks_writes o p r Ht)|exact Htx].
Qed.

Lemma fail_ends o p r rc r' : tracks o p r -> failing r rc r' -> exists r'', tcp_fail r' rc = Some (r'', rc) /\ failed r' r''.
Proof. intros Ht Hf. by eapply tcp_fail_spec, failing_can_fail. Qed.

(** ** Lemmas: one record *)

(** The session with the read direction and the queue a record leaves. *)
Definition refed (rd : rec_dir) (buf : list Z) (off len : nat) (r : ch_tcp) : ch_tcp :=
  r <| r_hs := (r_hs r) <| h_t := with_queue ((h_t (r_hs r)) <| t_rd := rd |>) buf off len |> |>.
Definition reads_on (r : ch_tcp) (rd : rec_dir) : Prop :=
  if h_encrypted (r_hs r) then rd = Rec.next_seq (t_rd (r_t r)) /\ d_seq (t_rd (r_t r)) < UINT64_MAX else rd = t_rd (r_t r).

Lemma live_refed o r T rd buf off len : live o r T -> reader_ok (r_t (refed rd buf off len r)) -> live o (refed rd buf off len r) T.
Proof.
  intros (H1 & H2 & _ & H4 & H5 & H6 & H7) Hr. unfold refed, with_queue, r_t, live in *. fields. settle.
Qed.

Lemma keyed_refed o r a rd buf off len : keyed o r a -> reads_on r rd -> keyed o (refed rd buf off len r) a.
Proof.
  intros (H1 & H0 & H2 & H3 & H4 & H5 & H6 & H7 & [H8 H9] & H10 & H11) Hrd. unfold reads_on in Hrd. rewrite H2 in Hrd. destruct Hrd as [-> Hs].
  unfold refed, with_queue, keyed, r_t in *. fields. rewrite H8, dir_of_next, dir_of_seq. settle; try apply H11. unfold u64_ok, UINT64_MAX in *. lia.
Qed.

Lemma tracks_refed o p r rd buf off len : tracks o p r -> r_tx_len r = 0%nat -> reader_ok (r_t (refed rd buf off len r)) -> reads_on r rd -> tracks o p (refed rd buf off len r).
Proof.
  intros Ht Htx Hr Hrd. destruct p as [b T|a T|a l T|a l T|a l sl T|a l sl T]; cbv zeta beta iota delta [tracks] in *.
  - destruct Ht as (Hl & Ht). split; [by apply live_refed|]. unfold reads_on in Hrd. destruct Ht as (H1 & H2 & H3 & H4). rewrite H3 in Hrd. subst rd.
    unfold refed, with_queue, r_t in *. fields. split_and!; try apply H4; keep.
  - destruct Ht as (Hl & Hk & Ht). split; [by apply live_refed|]. split; [by apply keyed_refed|exact Ht].
  - destruct Ht as (Hl & Hk & Ht). split; [by apply live_refed|]. split; [by apply keyed_refed|exact Ht].
  - destruct Ht as (Hl & Hk & Ht). split; [by apply live_refed|]. split; [by apply keyed_refed|exact Ht].
  - destruct Ht as (Hl & Hk & Ht). split; [by apply live_refed|]. split; [by apply keyed_refed|exact Ht].
  - destruct Ht as ((Hl & Hw & Hc) & Ht). split; [|exact Ht]. assert (He : h_encrypted (r_hs r) = false) by (rewrite Hw; reflexivity).
    unfold reads_on in Hrd. rewrite He in Hrd. subst rd. split; [by apply live_refed|]. split;
      [|destruct Hc as (C1 & C2 & C3 & C4 & C5 & C6 & C7 & [(_ & Hne & _)|C8]); [by destruct Hne|exact (conj C1 (conj C2 (conj C3 (conj C4 (conj C5 (conj C6 (conj C7 (or_intror C8))))))))]].
    unfold refed, r_t. fields. match goal with |- _ = wiped_hs ?x => generalize x end. intros t'. rewrite Hw. apply wiped_set.
Qed.

(** The handshake bytes of a record, and the read direction after it. *)
Inductive carries (r : ch_tcp) (rec : list Z) (outer : Z) : list Z -> rec_dir -> Prop :=
  | carries_nothing : outer = REC_CCS -> carries r rec outer [] (t_rd (r_t r))
  | carries_plain : outer = REC_HANDSHAKE -> h_encrypted (r_hs r) = false -> carries r rec outer (drop REC_HDR rec) (t_rd (r_t r))
  | carries_sealed pt rd : outer <> REC_CCS -> outer <> REC_ALERT -> h_encrypted (r_hs r) = true ->
      Rec.rec_open (t_rd (r_t r)) rec (length (drop REC_HDR rec)) = Some (rd, Some (REC_HANDSHAKE, pt)) -> carries r rec outer pt rd.

Definition fits (r : ch_tcp) (pt : list Z) : Prop := (length (unread (r_t r)) + length pt <= cfg_buf_len (t_cfg (r_t r)))%nat.

(** ** What ends a session, and the alert it is owed *)

(** An alert of the peer's is answered only when it is not the end it reports. *)
Definition alert_answer (pt : list Z) : Z :=
  if negb (length pt =? 2)%nat then ALERT_DECODE_ERROR
  else if (pt !!! 1%nat =? ALERT_CLOSE_NOTIFY) || (pt !!! 1%nat =? ALERT_USER_CANCELED) then ALERT_UNEXPECTED_MESSAGE else 0.

(** A record the driver refuses: the code, and the alert, 0 for none. *)
Inductive bad_record (r : ch_tcp) (rec : list Z) (outer : Z) : Z -> Z -> Prop :=
  | bad_alert : outer = REC_ALERT -> bad_record r rec outer CH_EPROTO (alert_answer (drop REC_HDR rec))
  | bad_type : h_encrypted (r_hs r) = false -> outer <> REC_CCS -> outer <> REC_ALERT -> outer <> REC_HANDSHAKE ->
      bad_record r rec outer CH_EPROTO ALERT_UNEXPECTED_MESSAGE
  | bad_seal d : h_encrypted (r_hs r) = true -> outer <> REC_CCS -> outer <> REC_ALERT ->
      Rec.rec_open (t_rd (r_t r)) rec (length (drop REC_HDR rec)) = Some (d, None) -> bad_record r rec outer CH_EPROTO ALERT_BAD_RECORD_MAC
  | bad_sealed_alert d pt : h_encrypted (r_hs r) = true -> outer <> REC_CCS -> outer <> REC_ALERT ->
      Rec.rec_open (t_rd (r_t r)) rec (length (drop REC_HDR rec)) = Some (d, Some (REC_ALERT, pt)) -> bad_record r rec outer CH_EPROTO (alert_answer pt)
  | bad_sealed_type d inner pt : h_encrypted (r_hs r) = true -> outer <> REC_CCS -> outer <> REC_ALERT -> inner <> REC_ALERT -> inner <> REC_HANDSHAKE ->
      Rec.rec_open (t_rd (r_t r)) rec (length (drop REC_HDR rec)) = Some (d, Some (inner, pt)) -> bad_record r rec outer CH_EPROTO ALERT_UNEXPECTED_MESSAGE
  | bad_fill pt rd : carries r rec outer pt rd -> ~ fits r pt -> bad_record r rec outer CH_ECAP ALERT_RECORD_OVERFLOW.

(** The length a record header names. *)
Definition body_of (rec : list Z) : Z := be_val (take 2 (drop 3 rec)).

(** What a session in state [p] is failed for: a record header at the front of
    [inp], the record there, or the message at the front of its queue.  The alert
    of a message the machine refuses is the one its step left. *)
Inductive offence (o : opening) (p : proto) (r : ch_tcp) (inp : list Z) : Z -> Z -> Prop :=
  | offence_header : (REC_HDR <= length inp)%nat -> Z.of_nat (rec_body_max (inp !!! 0%nat)) < body_of inp -> offence o p r inp CH_EPROTO ALERT_RECORD_OVERFLOW
  | offence_record len rc al : len = (REC_HDR + Z.to_nat (body_of inp))%nat -> (len <= length inp)%nat -> bad_record r (take len inp) (inp !!! 0%nat) rc al -> offence o p r inp rc al
  | offence_length rc al : hsr_peek_message (r_t r) = Refused rc al -> offence o p r inp rc al
  | offence_message type body rest r1 rc : unread (r_t r) = message type body ++ rest ->
      (forall p', ~ accepts pin_ecdsa pin_verify o p type body (bool_decide (rest = [])) p') ->
      tcp_nonblocking_advance pin_ecdsa pin_verify r = Some (r1, Code rc) -> alert_ok (h_alert (r_hs r1)) -> offence o p r inp rc (h_alert (r_hs r1)).

(** What a session seals its alert under: nothing until it has keys. *)
Definition alert_key (o : opening) (p : proto) : option rec_dir :=
  match p with
  | Waiting _ _ => None
  | Keyed a _ | Extended a _ _ | Certified a _ _ | Authenticated a _ _ _ => Some (dir_of (c_hs o a) 0)
  | Complete a _ _ T => Some (dir_of (app_secret (o_cfg o) (a_ecdhe a) "c ap traffic" (sha256_spec T)) 0)
  end.
Definition alert_under (wr : option rec_dir) (alert : Z) (rec : list Z) : Prop :=
  if alert =? 0 then rec = []
  else match wr with
  | None => rec = [REC_ALERT; 3; 3; 0; 2; 2; alert]
  | Some d => length rec = CH_ALERT_RECORD_LEN /\ exists d', Rec.rec_open d rec (length rec) = Some (d', Some (REC_ALERT, [2; alert]))
  end.

Lemma alert_keyed o p r r0 alert rec : tracks o p r -> t_wr (r_t r0) = t_wr (r_t r) -> t_keys (r_t r0) = t_keys (r_t r) -> alert_staged r0 alert rec -> alert_under (alert_key o p) alert rec.
Proof.
  intros Ht Ew Ek. unfold alert_staged, alert_under. destruct (alert =? 0); [done|]. rewrite Ek, Ew.
  assert (Hk : forall a, keyed o r a -> (if t_keys (r_t r) then exists d, Rec.rec_open (t_wr (r_t r)) rec (length rec) = Some (d, Some (REC_ALERT, [2; alert])) /\ length rec = CH_ALERT_RECORD_LEN
    else rec = [REC_ALERT; 3; 3; 0; 2; 2; alert]) -> length rec = CH_ALERT_RECORD_LEN /\ exists d', Rec.rec_open (dir_of (c_hs o a) 0) rec (length rec) = Some (d', Some (REC_ALERT, [2; alert]))).
  { intros a (_ & _ & _ & -> & _ & _ & _ & -> & _) (d & H1 & H2). split; [exact H2|]. exists d. exact H1. }
  destruct p as [b T|a T|a l T|a l T|a l sl T|a l sl T]; cbn [alert_key].
  - destruct Ht as (_ & _ & _ & _ & -> & _). done.
  - destruct Ht as (_ & H & _). exact (Hk a H).
  - destruct Ht as (_ & H & _). exact (Hk a H).
  - destruct Ht as (_ & H & _). exact (Hk a H).
  - destruct Ht as (_ & H & _). exact (Hk a H).
  - destruct Ht as ((_ & _ & -> & _ & _ & -> & _) & _). intros (d & H1 & H2). split; [exact H2|]. exists d. exact H1.
Qed.

Lemma live_no_alert o p r : tracks o p r -> t_alert_received (r_t r) = 0.
Proof. intros Ht. destruct (tracks_live o p r Ht) as (T & _ & _ & _ & _ & _ & H & _). exact H. Qed.

(** Failing with an alert of one's own, or after the peer's. *)
Lemma failing_alert r r1 rc h al : err_code rc -> alert_ok al -> t_wr (h_t h) = t_wr (r_t r) -> t_keys (h_t h) = t_keys (r_t r) ->
  length (t_tx (h_t h)) = length (t_tx (r_t r)) -> failing r rc (r1 <| r_hs := h <| h_alert := al |> |>).
Proof. intros H1 H2 H3 H4 H5. unfold failing, r_t in *. fields. split; [exact H1|]. split; [exact H2|]. split; [exact H3|]. split; [exact H4|exact H5]. Qed.

Lemma failing_after_alert r r1 rc h n : err_code rc -> alert_ok (h_alert h) -> t_wr (h_t h) = t_wr (r_t r) -> t_keys (h_t h) = t_keys (r_t r) ->
  length (t_tx (h_t h)) = length (t_tx (r_t r)) -> failing r rc (r1 <| r_hs := h <| h_t := (h_t h) <| t_alert_received := n |> |> |>).
Proof. intros H1 H2 H3 H4 H5. unfold failing, r_t in *. fields. split; [exact H1|]. split; [exact H2|]. split; [exact H3|]. split; [exact H4|exact H5]. Qed.

Lemma refuse_alert_wp {A} r r1 pt (Q : A -> ch_tcp -> Prop) E : h_alert (r_hs r1) = ALERT_UNEXPECTED_MESSAGE -> t_alert_received (r_t r1) = 0 -> t_wr (r_t r1) = t_wr (r_t r) ->
  t_keys (r_t r1) = t_keys (r_t r) -> length (t_tx (r_t r1)) = length (t_tx (r_t r)) ->
  (forall r', failing r CH_EPROTO r' -> alert_owed r' = alert_answer pt -> E CH_EPROTO r') -> wp (on_hs (hsr_refuse_alert pt)) Q E r1.
Proof.
  intros Ha Hz Hw Hk Hl HE. assert (Hok : alert_ok (h_alert (r_hs r1))) by (rewrite Ha; apply alert_unexpected).
  unfold alert_answer in HE. unfold hsr_refuse_alert. step. destruct (negb (length pt =? 2)%nat).
  - steps. apply HE; [apply failing_alert; [apply err_eproto|by split|exact Hw|exact Hk|exact Hl]|]. unfold alert_owed, r_t in *. fields. rewrite Hz. reflexivity.
  - destruct (Z.eqb_spec (pt !!! 1%nat) ALERT_CLOSE_NOTIFY) as [|Hn0]; [|destruct (Z.eqb_spec (pt !!! 1%nat) ALERT_USER_CANCELED) as [|Hn1]]; cbn [negb andb orb] in *; unfold upd_t; steps; apply HE.
    1,3: unfold failing, r_t in *; fields; split; [apply err_eproto|]; split; [exact Hok|]; split; [exact Hw|]; split; [exact Hk|exact Hl].
    1,2: unfold alert_owed, r_t in *; fields; rewrite Hz, Ha; reflexivity.
    + apply failing_after_alert; [apply err_eproto|exact Hok|exact Hw|exact Hk|exact Hl].
    + unfold alert_owed, r_t in *. fields. destruct (Z.eqb_spec (pt !!! 1%nat) 0) as [E0|_]; [|reflexivity]. by destruct Hn0.
Qed.

Definition with_rd (rd : rec_dir) (r : ch_tcp) : ch_tcp := r <| r_hs := (r_hs r) <| h_t := (h_t (r_hs r)) <| t_rd := rd |> |> |>.
Lemma with_rd_same r : with_rd (t_rd (r_t r)) r = r.
Proof. destruct r as [[[] ] ]. reflexivity. Qed.

(** What feeding leaves: the same state of the machine, a longer queue. *)
Definition fed (o : opening) (p : proto) (r : ch_tcp) (pt : list Z) (rd : rec_dir) (r' : ch_tcp) : Prop :=
  tracks o p r' /\ unread (r_t r') = unread (r_t r) ++ pt /\ r_tx_len r' = r_tx_len r /\ t_rd (r_t r') = rd.

Lemma feed_wp o p r rd pt Q E : tracks o p r -> r_tx_len r = 0%nat -> reads_on r rd -> bytes_ok pt ->
  (fits r pt -> forall r', fed o p r pt rd r' -> Q () r') ->
  (~ fits r pt -> forall r', failing r CH_ECAP r' -> alert_owed r' = ALERT_RECORD_OVERFLOW -> E CH_ECAP r') ->
  wp (n ← on_hs (hsr_feed pt); if negb (n =? length pt)%nat then on_hs (refuse ALERT_RECORD_OVERFLOW CH_ECAP) else mret ()) Q E (with_rd rd r).
Proof.
  intros Ht Htx Hrd Hb HQ HE. destruct (tracks_live o p r Ht) as (T & Hcfg & _ & Hr & _). unfold with_rd. steps.
  assert (Hr1 : reader_ok ((h_t (r_hs r)) <| t_rd := rd |>)) by exact Hr.
  apply hsr_feed_spec; fields; [exact Hr1|exact Hb|]. cbv zeta. intros buf off len n Hn Hro Hu.
  change (unread ((h_t (r_hs r)) <| t_rd := rd |>)) with (unread (r_t r)) in Hn, Hu. change (h_t (r_hs r)) with (r_t r) in Hn at 1.
  pose proof (length_unread _ Hr) as Hul. pose proof Hr as (_ & _ & Hq). steps.
  destruct (Nat.eqb_spec n (length pt)) as [->|Hne]; cbn [negb]; cbv iota.
  - steps. apply HQ; [unfold fits; unfold r_t in *; lia|].
    change (fed o p r pt rd (refed rd buf off len r)). split; [apply tracks_refed; [exact Ht|exact Htx|exact Hro|exact Hrd]|].
    split; [|split; reflexivity]. rewrite take_ge in Hu by lia. exact Hu.
  - steps. apply HE; [unfold fits; unfold r_t in *; lia| |].
    + apply failing_alert; try reflexivity; [unfold err_code; auto|by split].
    + pose proof (live_no_alert o p r Ht) as Hz. unfold alert_owed, r_t, with_queue in *. fields. rewrite Hz. reflexivity.
Qed.

Lemma owed_alert r h al : t_alert_received (h_t h) = 0 -> alert_owed (r <| r_hs := h <| h_alert := al |> |>) = al.
Proof. intros H. unfold alert_owed, r_t. fields. rewrite H. reflexivity. Qed.

Lemma take_record_wp o p r rec outer Q E : tracks o p r -> r_tx_len r = 0%nat -> bytes_ok rec ->
  (forall pt rd r', carries r rec outer pt rd -> fits r pt -> fed o p r pt rd r' -> Q () r') ->
  (forall rc r', (forall pt rd, carries r rec outer pt rd -> ~ fits r pt) -> failing r rc r' -> bad_record r rec outer rc (alert_owed r') -> E rc r') ->
  wp (tcp_nonblocking_take_record rec outer) Q E r.
Proof.
  intros Ht Htx Hb HQ HE. unfold tcp_nonblocking_take_record. destruct (tracks_live o p r Ht) as (T & Hcfg & _ & Hr & _). pose proof (live_no_alert o p r Ht) as Hz.
  destruct (Z.eqb_spec outer REC_CCS) as [Ec|Hc].
  { steps. eapply HQ; [by apply carries_nothing| |].
    - unfold fits. cbn [length]. pose proof (length_unread _ Hr) as Hul. pose proof Hr as (_ & _ & Hq). unfold r_t in *. lia.
    - split; [exact Ht|]. rewrite app_nil_r. done. }
  destruct (Z.eqb_spec outer REC_ALERT) as [Ea|Ha].
  { unfold set_alert. rewrite wp_bind, wp_on_hs, wp_modify. eapply (refuse_alert_wp r); unfold r_t; fields; try reflexivity; [exact Hz|].
    intros r' Hf Ho. apply HE; [|exact Hf|rewrite Ho; by apply bad_alert]. intros pt rd Hca. inversion Hca; subst; try done; by subst outer. }
  unfold record_plaintext. cbv zeta. wps. destruct (h_encrypted (r_hs r)) eqn:Ee.
  - pose proof (tracks_reads o p r Ht Ee) as Hd. destruct (Rec.rec_open_total (t_rd (r_t r)) rec (length (drop REC_HDR rec)) Hd Hb) as (d & x & Eo & _).
    wps. rewrite (wp_call (d, x)) by exact Eo. wps. rewrite wp_on_t. cbn [fst snd].
    change (r <| r_hs := (r_hs r) <| h_t := (h_t (r_hs r)) <| t_rd := d |> |> |>) with (with_rd d r).
    assert (Hca : forall pt rd, carries r rec outer pt rd -> x = Some (REC_HANDSHAKE, pt) /\ rd = d).
    { intros pt rd Hca. inversion Hca as [| |pt' rd' _ _ _ Eo']; subst; [done|congruence|]. rewrite Eo in Eo'. by injection Eo' as -> ->. }
    destruct x as [[inner opened]|].
    + destruct (proj1 (Rec.rec_open_accepts _ _ _ _ _ _ Hd Hb) Eo) as (Hs & _ & Hn & _ & _ & Hob & _).
      destruct (Z.eqb_spec inner REC_HANDSHAKE) as [->|Hi]; cbn [negb]; cbv iota.
      * wps. apply (feed_wp o p r d opened); [exact Ht|exact Htx|unfold reads_on; rewrite Ee; by split|exact Hob| |].
        -- intros Hfit r' Hfed. eapply HQ; [by apply carries_sealed|exact Hfit|exact Hfed].
        -- intros Hno r' Hf Ho. apply HE; [|exact Hf|rewrite Ho; eapply bad_fill; [by apply carries_sealed|exact Hno]]. intros pt rd Hcr. apply Hca in Hcr as [Hpt _]. by injection Hpt as <-.
      * assert (Hno : forall pt rd, carries r rec outer pt rd -> ~ fits r pt).
        { intros pt rd Hcr. apply Hca in Hcr as [Hpt _]. injection Hpt as -> ->. done. }
        unfold set_alert. rewrite wp_bind, wp_on_hs, wp_modify. destruct (Z.eqb_spec inner REC_ALERT) as [->|Hia].
        -- eapply (refuse_alert_wp r); unfold with_rd, r_t; fields; try reflexivity; [exact Hz|]. intros r' Hf Ho. apply HE; [exact Hno|exact Hf|]. rewrite Ho. by eapply bad_sealed_alert.
        -- wps. apply HE; [exact Hno| |].
           ++ apply failing_alert; try reflexivity; [apply err_eproto|apply alert_unexpected].
           ++ rewrite owed_alert by exact Hz. by eapply bad_sealed_type.
    + steps. apply HE; [intros pt rd Hcr; by apply Hca in Hcr as [? _]| |].
      * unfold with_rd. fields. apply failing_alert; try reflexivity; [apply err_eproto|by split].
      * unfold with_rd. fields. rewrite owed_alert by exact Hz. by eapply bad_seal.
  - assert (Hca : forall pt rd, carries r rec outer pt rd -> outer = REC_HANDSHAKE /\ pt = drop REC_HDR rec).
    { intros pt rd Hcr. inversion Hcr; subst; [done|done|congruence]. }
    destruct (Z.eqb_spec outer REC_HANDSHAKE) as [Eh|Hh]; cbn [negb]; cbv iota.
    + wps. pose proof (feed_wp o p r (t_rd (r_t r)) (drop REC_HDR rec) Q E Ht Htx) as Hfw. rewrite with_rd_same in Hfw. apply Hfw; [unfold reads_on; by rewrite Ee|by apply Forall_drop| |].
      * intros Hfit r' Hfed. eapply HQ; [by apply carries_plain|exact Hfit|exact Hfed].
      * intros Hno r' Hf Ho. apply HE; [|exact Hf|rewrite Ho; eapply bad_fill; [by apply carries_plain|exact Hno]]. intros pt rd Hcr. by apply Hca in Hcr as [_ ->].
    + steps. apply HE; [intros pt rd Hcr; by apply Hca in Hcr as [? _]| |].
      * apply failing_alert; try reflexivity; [apply err_eproto|apply alert_unexpected].
      * rewrite owed_alert by exact Hz. by apply bad_type.
Qed.

(** ** Lemmas: the loops *)

(** Where the driver was led, from a state of the machine and a session: the bytes
    of the records it took, and the messages those bytes and its queue were. *)
Inductive led (o : opening) : proto -> ch_tcp -> list Z -> list (Z * list Z) -> proto -> ch_tcp -> Prop :=
  | led_here p r : led o p r [] [] p r
  | led_record p r rec pt rd r1 w new p' r' : Z.of_nat (length rec) = Z.of_nat REC_HDR + body_of rec -> carries r rec (rec !!! 0%nat) pt rd ->
      tcp_nonblocking_take_record rec (rec !!! 0%nat) r = Some (r1, Ok ()) -> fed o p r pt rd r1 -> led o p r1 w new p' r' -> led o p r (rec ++ w) new p' r'
  | led_message p r type body rest p1 r1 w new p' r' : unread (r_t r) = message type body ++ rest ->
      accepts pin_ecdsa pin_verify o p type body (bool_decide (rest = [])) p1 -> tcp_nonblocking_advance pin_ecdsa pin_verify r = Some (r1, Ok ()) ->
      tracks o p1 r1 -> unread (r_t r1) = rest -> led o p1 r1 w new p' r' -> led o p r w ((type, body) :: new) p' r'.

Lemma led_app o p r w1 new1 p1 r1 w2 new2 p2 r2 : led o p r w1 new1 p1 r1 -> led o p1 r1 w2 new2 p2 r2 -> led o p r (w1 ++ w2) (new1 ++ new2) p2 r2.
Proof.
  induction 1 as [p r|p r rec pt rd r1 w new p1 r1' Hl Hc Et Hf H IH|p r type body rest p1 r1 w new p1' r1' Hu Ha Ea Ht Hu1 H IH]; intros H2.
  - exact H2.
  - rewrite <- app_assoc. exact (led_record _ _ _ _ _ _ _ _ _ _ _ Hl Hc Et Hf (IH H2)).
  - exact (led_message _ _ _ _ _ _ _ _ _ _ _ _ Hu Ha Ea Ht Hu1 (IH H2)).
Qed.

(** What a call of the driver leaves, from [s]: the session further along by the
    bytes [w], or failed. *)
Definition further (o : opening) (msgs : list (Z * list Z)) (p : proto) (s : ch_tcp) (w : list Z) (r : ch_tcp) : Prop :=
  exists new p', led o p s w new p' r /\ reached pin_ecdsa pin_verify o (msgs ++ new) p' /\ tracks o p' r.
(** The session failed further along, at [r0], for an offence there: what it staged
    is its own alert, under its own key. *)
Definition failed_at (o : opening) (msgs : list (Z * list Z)) (p : proto) (s : ch_tcp) (w inp : list Z) (rc : Z) (r : ch_tcp) : Prop :=
  exists new p0 r0 al rec, led o p s w new p0 r0 /\ reached pin_ecdsa pin_verify o (msgs ++ new) p0 /\ tracks o p0 r0 /\ offence o p0 r0 inp rc al /\
    alert_under (alert_key o p0) al rec /\ dead r /\ t_state (r_t r) = CH_ST_FAILED /\ t_alert_sent (r_t r) = al /\
    r_tx_len r = length rec /\ r_tx_off r = 0%nat /\ t_tx (r_t r) = rec ++ zero_bytes (REC_HDR + CH_TX_STAGE - length rec).
Definition driven (o : opening) (msgs : list (Z * list Z)) (p : proto) (s : ch_tcp) (w inp : list Z) (rc : Z) (r : ch_tcp) : Prop :=
  rc = CH_OK /\ further o msgs p s w r \/ err_code rc /\ failed_at o msgs p s w inp rc r.

Lemma failed_here o msgs inp rc p r0 r1 r : reached pin_ecdsa pin_verify o msgs p -> tracks o p r0 -> failing r0 rc r1 -> offence o p r0 inp rc (alert_owed r1) -> failed r1 r ->
  failed_at o msgs p r0 [] inp rc r.
Proof.
  intros Hm Ht (_ & _ & Ew & Ek & _) Hof (rec & Hd & Hst & Hal & Hs & Hl & Ho & Htx). exists [], p, r0, (alert_owed r1), rec. rewrite app_nil_r.
  pose proof (alert_keyed o p r0 r1 _ rec Ht Ew Ek Hs) as Hs'. split; [constructor|]. by split_and!.
Qed.
Lemma further_here o msgs p r : reached pin_ecdsa pin_verify o msgs p -> tracks o p r -> further o msgs p r [] r.
Proof. intros Hm Ht. exists [], p. rewrite app_nil_r. split; [constructor|]. by split. Qed.

Lemma err_not_ok rc : err_code rc -> rc <> CH_OK.
Proof. by intros [->|[->| ->]]. Qed.

Lemma refused_alert t rc alert : hsr_peek_message t = Refused rc alert -> err_code rc /\ alert_ok alert.
Proof.
  unfold hsr_peek_message. destruct (_ <? 4)%nat; [done|]. cbv zeta. destruct (0x4000 <? _).
  { intros [= <- <-]. split; [by left|by split]. }
  destruct (_ <? _); [intros [= <- <-]; split; [unfold err_code; auto|by split]|]. by destruct (_ <? _).
Qed.

Lemma driven_more o msgs p s w1 new p1 r1 w2 inp rc r : led o p s w1 new p1 r1 -> driven o (msgs ++ new) p1 r1 w2 inp rc r -> driven o msgs p s (w1 ++ w2) inp rc r.
Proof.
  intros H1 [[-> (more & p2 & H2 & Hr & Ht)]|[Hrc (more & p2 & r0 & al & rec & H2 & Hr & Hf)]]; [left|right].
  - split; [done|]. exists (new ++ more), p2. rewrite app_assoc. split; [exact (led_app _ _ _ _ _ _ _ _ _ _ _ H1 H2)|]. by split.
  - split; [exact Hrc|]. exists (new ++ more), p2, r0, al, rec. rewrite app_assoc. split; [exact (led_app _ _ _ _ _ _ _ _ _ _ _ H1 H2)|]. by split.
Qed.

Lemma alert_failing o p r rc alert : tracks o p r -> err_code rc -> alert_ok alert -> failing r rc (put_hs ((r_hs r) <| h_alert := alert |>) r) /\ alert_owed (put_hs ((r_hs r) <| h_alert := alert |>) r) = alert.
Proof.
  intros Ht Hrc Ha. pose proof (live_no_alert o p r Ht) as Hz. unfold failing, alert_owed, put_hs, r_t in *. fields. rewrite Hz. split; [|reflexivity]. by split_and!.
Qed.

Lemma can_fail_alert o p r alert : tracks o p r -> byte_ok alert -> can_fail (put_hs ((r_hs r) <| h_alert := alert |>) r).
Proof.
  intros Ht Ha. destruct (tracks_live o p r Ht) as (T & _ & _ & _ & Htx & _). unfold can_fail, put_hs, r_t. fields.
  split; [exact Ha|]. split; [exact (tracks_writes o p r Ht)|exact Htx].
Qed.

Lemma drive_spec fuel : forall o msgs inp p r, reached pin_ecdsa pin_verify o msgs p -> tracks o p r -> r_tx_len r = 0%nat ->
  (length (unread (r_t r)) < fuel)%nat -> exists r' rc, drive pin_ecdsa pin_verify fuel r = Some (r', rc) /\ driven o msgs p r [] inp rc r'.
Proof.
  induction fuel as [|fuel IH]; intros o msgs inp p r Hm Ht Htx Hfuel; [lia|]. destruct (tracks_live o p r Ht) as (T & _ & _ & Hr & _).
  cbn [drive]. destruct (hsr_peek_message (r_t r)) as [|n|rc alert] eqn:Ep.
  - exists r, CH_OK. split; [reflexivity|]. left. split; [reflexivity|]. by apply further_here.
  - destruct (whole_message _ _ Hr Ep) as (type & body & rest & Hu & Hty & Hb & Hl).
    pose proof (advance_wp pin_ecdsa pin_verify o p type body rest r Ht Htx (conj Hr (conj Hu (conj Hty (conj Hb Hl))))) as Hw.
    apply wp_answer in Hw as (r1 & x & Ea & Hx). rewrite Ea. cbn [mbind option_bind]. destruct x as [[]|rc].
    + destruct Hx as (p' & Hacc & Ht' & Hu' & _). pose proof (reached_message _ _ _ _ _ _ _ _ _ Hm Hacc) as Hm'.
      pose proof (led_message _ _ _ _ _ _ _ _ _ _ _ _ Hu Hacc Ea Ht' Hu' (led_here o p' r1)) as Hled.
      destruct (r_tx_len r1 =? 0)%nat eqn:Etx; cbn [negb].
      * apply Nat.eqb_eq in Etx. destruct (IH o (msgs ++ [(type, body)]) inp p' r1 Hm' Ht' Etx) as (r' & rc & Ed & Hd).
        { rewrite Hu'. rewrite Hu, length_app, length_message in Hfuel. lia. }
        exists r', rc. split; [exact Ed|]. exact (driven_more _ _ _ _ _ _ _ _ _ _ _ _ Hled Hd).
      * exists r1, CH_OK. split; [reflexivity|]. left. split; [reflexivity|]. exists [(type, body)], p'. by split_and!.
    + destruct Hx as [Hno [Hf Hz]]. destruct (fail_ends o p r rc r1 Ht Hf) as (r' & Ef & Hfd). rewrite Ef. exists r', rc. split; [reflexivity|].
      right. split; [apply Hf|]. eapply failed_here; [exact Hm|exact Ht|exact Hf| |exact Hfd]. rewrite (live_no_alert o p r Ht) in Hz. unfold alert_owed. rewrite Hz.
      exact (offence_message o p r inp type body rest r1 rc Hu Hno Ea (proj1 (proj2 Hf))).
  - destruct (refused_alert _ _ _ Ep) as [Hrc Hal]. destruct (alert_failing o p r rc alert Ht Hrc Hal) as [Hf Ho].
    destruct (tcp_fail_spec _ rc (can_fail_alert o p r alert Ht (proj1 Hal))) as (r' & Ef & Hfd). rewrite Ef. exists r', rc. split; [reflexivity|].
    right. split; [exact Hrc|]. eapply failed_here; [exact Hm|exact Ht|exact Hf| |exact Hfd]. rewrite Ho. by apply offence_length.
Qed.

Lemma body_range rec : bytes_ok rec -> 0 <= body_of rec < 2 ^ 16.
Proof.
  intros Hb. unfold body_of. pose proof (be_val_bound (take 2 (drop 3 rec)) ltac:(by apply Forall_take, Forall_drop)) as H.
  rewrite length_take in H. split; [lia|]. eapply Z.lt_le_trans; [apply H|]. apply Z.pow_le_mono_r; lia.
Qed.

(** The session, the code and the count after a call: at whole records. *)
Definition took (o : opening) (msgs : list (Z * list Z)) (p : proto) (s : ch_tcp) (off : nat) (inp : list Z) (x : ch_tcp * Z * nat) : Prop :=
  let '(r, rc, consumed) := x in (off <= consumed <= length inp)%nat /\ driven o msgs p s (take (consumed - off) (drop off inp)) (drop consumed inp) rc r.

Lemma took_more o msgs p s new p1 r1 off len inp x : led o p s (take len (drop off inp)) new p1 r1 -> (off + len <= length inp)%nat -> took o (msgs ++ new) p1 r1 (off + len) inp x ->
  took o msgs p s off inp x.
Proof.
  destruct x as [[r rc] consumed]. intros Hled Hlen [Hc Hd]. split; [lia|]. pose proof (driven_more _ _ _ _ _ _ _ _ _ _ _ _ Hled Hd) as H.
  rewrite <- drop_drop, take_take_drop in H. by replace (len + (consumed - (off + len)))%nat with (consumed - off)%nat in H by lia.
Qed.

Lemma in_loop_spec fuel : forall o msgs p r inp off, bytes_ok inp -> reached pin_ecdsa pin_verify o msgs p -> tracks o p r -> r_tx_len r = 0%nat ->
  (off <= length inp)%nat -> (length inp - off < fuel)%nat ->
  exists x, in_loop pin_ecdsa pin_verify fuel r inp off off = Some x /\ took o msgs p r off inp x.
Proof.
  induction fuel as [|fuel IH]; intros o msgs p r inp off Hb Hm Ht Htx Hoff Hfuel; [lia|].
  assert (Hstay : forall r' rc, driven o msgs p r [] (drop off inp) rc r' -> took o msgs p r off inp (r', rc, off)).
  { intros r' rc Hd. split; [lia|]. by rewrite Nat.sub_diag, take_0. }
  assert (Hok : took o msgs p r off inp (r, CH_OK, off)) by (apply Hstay; left; split; [reflexivity|by apply further_here]).
  assert (Hlr0 : length (drop off inp) = (length inp - off)%nat) by apply length_drop.
  cbn [in_loop]. destruct (Nat.ltb_spec (length inp - off) REC_HDR) as [|Hlen]; [by eexists|]. unfold REC_HDR in Hlen.
  assert (Hrb : bytes_ok (drop off inp)) by by apply Forall_drop.
  rewrite Rec.record_length_field by (done || rewrite length_drop; lia). fold (body_of (drop off inp)). pose proof (body_range _ Hrb) as Hbr.
  set (rec := drop off inp) in *. destruct (Z.ltb_spec (Z.of_nat (rec_body_max (rec !!! 0%nat))) (body_of rec)) as [Hlong|_].
  { destruct (alert_failing o p r CH_EPROTO ALERT_RECORD_OVERFLOW Ht err_eproto ltac:(by split)) as [Hf Ho].
    destruct (tcp_fail_spec _ CH_EPROTO (can_fail_alert o p r ALERT_RECORD_OVERFLOW Ht ltac:(done))) as (r' & -> & Hfd).
    eexists. split; [reflexivity|]. apply Hstay. right. split; [by left|]. eapply failed_here; [exact Hm|exact Ht|exact Hf| |exact Hfd].
    rewrite Ho. apply offence_header; [unfold REC_HDR; fold rec; lia|exact Hlong]. }
  destruct (Z.ltb_spec (Z.of_nat (length inp - off)) (Z.of_nat REC_HDR + body_of rec)) as [|Hwhole]; [by eexists|].
  set (len := (REC_HDR + Z.to_nat (body_of rec))%nat). assert (Hlr : (off + len <= length inp)%nat) by (subst len; unfold REC_HDR in *; lia).
  assert (Hw : wp (tcp_nonblocking_take_record (take len rec) (rec !!! 0%nat)) (fun _ r1 => exists pt rd, carries r (take len rec) (rec !!! 0%nat) pt rd /\ fed o p r pt rd r1)
    (fun rc r1 => failing r rc r1 /\ bad_record r (take len rec) (rec !!! 0%nat) rc (alert_owed r1)) r).
  { apply (take_record_wp o p); [exact Ht|exact Htx|by apply Forall_take| |intros rc r1 _ H1 H2; by split]. intros pt rd r1 Hca _ Hf. by exists pt, rd. }
  apply wp_answer in Hw as (r1 & x & Et & Hx). rewrite Et. cbn [mbind option_bind]. destruct x as [[]|rc].
  2:{ destruct Hx as [Hf Hbad]. destruct (fail_ends o p r rc r1 Ht Hf) as (r' & Ef & Hfd). rewrite Ef. eexists. split; [reflexivity|]. apply Hstay. right. split; [apply Hf|].
      eapply failed_here; [exact Hm|exact Ht|exact Hf| |exact Hfd]. eapply offence_record; [reflexivity| |exact Hbad]. fold rec len. lia. }
  destruct Hx as (pt & rd & Hca & Hfed). pose proof Hfed as (Ht1 & _ & Htx1 & _). rewrite Htx in Htx1. destruct (tracks_live o p r1 Ht1) as (T & _ & _ & Hr1 & _).
  assert (Hled : led o p r (take len rec) [] p r1).
  { assert (E0 : take len rec !!! 0%nat = rec !!! 0%nat) by (by rewrite lookup_total_take_lt by (subst len; unfold REC_HDR; lia)).
    assert (Ebody : body_of (take len rec) = body_of rec) by (unfold body_of; rewrite !take_drop_commute, take_take; do 3 f_equal; subst len; unfold REC_HDR; lia).
    rewrite <- (app_nil_r (take len rec)). eapply led_record; [rewrite Ebody, length_take; subst len; lia|rewrite E0; exact Hca|rewrite E0; exact Et|exact Hfed|constructor]. }
  destruct (drive_spec (S (cfg_buf_len (t_cfg (r_t r1)))) o msgs (drop (off + len) inp) p r1 Hm Ht1 Htx1) as (r2 & rc & Ed & Hd).
  { rewrite length_unread by done. pose proof Hr1 as (_ & _ & ?). lia. }
  rewrite Ed. cbn [mbind option_bind].
  assert (Hd' : took o msgs p r off inp (r2, rc, (off + len)%nat)).
  { eapply (took_more o msgs p r [] p r1 off len); [exact Hled|exact Hlr|]. rewrite app_nil_r. split; [lia|]. by rewrite Nat.sub_diag, take_0. }
  destruct Hd as [[-> (new & p2 & Hled2 & Hm2 & Ht2)]|[Hrc Hf]].
  2:{ destruct (Z.eqb_spec rc CH_OK) as [E|_]; [by apply err_not_ok in Hrc|]. eexists. split; [reflexivity|exact Hd']. }
  cbn [negb Z.eqb CH_OK]. destruct (r_tx_len r2 =? 0)%nat eqn:Etx2; cbn [negb]; [|by eexists].
  apply Nat.eqb_eq in Etx2. destruct (IH o (msgs ++ new) p2 r2 inp (off + len)%nat Hb Hm2 Ht2 Etx2 Hlr) as (x & Ex & Hx); [subst len; unfold REC_HDR; lia|].
  exists x. split; [exact Ex|]. eapply took_more; [|exact Hlr|exact Hx]. pose proof (led_app _ _ _ _ _ _ _ _ _ _ _ Hled Hled2) as H. by rewrite app_nil_r in H.
Qed.

(** ** The session invariant *)

Definition inv (o : opening) (r : ch_tcp) : Prop :=
  dead r \/ exists msgs p, reached pin_ecdsa pin_verify o msgs p /\ tracks o p r.

Lemma tracks_state o p r : tracks o p r -> t_state (r_t r) = CH_ST_START \/
  t_state (r_t r) = CH_ST_CONNECTED /\ exists a l sl T, p = Complete a l sl T.
Proof.
  destruct p as [b T|a T|a l T|a l T|a l sl T|a l sl T]; intros Ht.
  - left. apply Ht.
  - left. destruct Ht as (_ & (H & _) & _). exact H.
  - left. destruct Ht as (_ & (H & _) & _). exact H.
  - left. destruct Ht as (_ & (H & _) & _). exact H.
  - left. destruct Ht as (_ & (H & _) & _). exact H.
  - destruct Ht as ((_ & _ & _ & _ & _ & _ & _ & _ & _ & [[H _]|[H _]]) & _); [by left|right]. split; [exact H|]. by exists a, l, sl, T.
Qed.

Lemma tracks_not_dead o p r : tracks o p r -> tcp_nonblocking_session_dead r = false.
Proof. intros Ht. unfold tcp_nonblocking_session_dead. by destruct (tracks_state o p r Ht) as [-> | [-> _]]. Qed.
Lemma dead_is_dead r : dead r -> tcp_nonblocking_session_dead r = true.
Proof. intros [[H|H] _]; unfold tcp_nonblocking_session_dead; by rewrite H. Qed.
Lemma failed_dead r0 r : failed r0 r -> dead r.
Proof. by intros (rec & Hd & _). Qed.

(** A call that changes only what is staged. *)
Lemma live_staged o r r' T : live o r T -> r_hs r' = r_hs r -> staged_ok r' -> live o r' T.
Proof. intros (H1 & H2 & H3 & H4 & H5 & H6 & _ & H7) E Hs. unfold live, r_t in *. rewrite E. split_and!; assumption. Qed.
Lemma tracks_staged o b T r r' : tracks o (Waiting b T) r -> r_hs r' = r_hs r -> r_step r' = r_step r -> staged_ok r' -> tracks o (Waiting b T) r'.
Proof.
  intros (Hl & Hst & Ht) Eh Es Hs. split; [by eapply live_staged|]. unfold r_t in *. rewrite Eh, Es. by split.
Qed.

(** Nothing is staged between the ServerHello and the last Finished. *)
Definition quiet (p : proto) : Prop := match p with Waiting _ _ | Complete _ _ _ _ => False | _ => True end.
Lemma quiet_staged o p r : quiet p -> tracks o p r -> r_tx_len r = 0%nat.
Proof. destruct p; intros Hq Ht; try done; destruct Ht as (_ & (_ & H & _) & _); exact H. Qed.

Lemma dead_staged r r' : dead r -> r_hs r' = r_hs r -> staged_ok r' -> dead r'.
Proof. intros Hd E Hs. unfold dead, r_t in *. rewrite E. destruct Hd as (H1 & H2 & H3 & H4 & H5 & H6 & H7 & H8 & H9 & H10 & _). split_and!; assumption. Qed.

(** Handing bytes over: the session with fewer staged, connected when the last
    byte of its Finished is out. *)
Definition handed (r : ch_tcp) (n : nat) : ch_tcp :=
  if (r_tx_off r + n =? r_tx_len r)%nat then r <| r_tx_len := 0%nat |> <| r_tx_off := 0%nat |> else r <| r_tx_off := (r_tx_off r + n)%nat |>.
Definition connects (r : ch_tcp) : bool := (r_step r =? TCP_NONBLOCKING_STEP_COMPLETE) && (t_state (r_t r) =? CH_ST_START).

Lemma tcp_out_cases r cap :
  (exists rc out, tcp_out r cap = (r, rc, out)) \/
  let n := Nat.min (r_tx_len r - r_tx_off r) cap in
  (0 < n)%nat /\ tcp_out r cap =
    (if (r_tx_off r + n =? r_tx_len r)%nat && connects r then put_t ((r_t r) <| t_state := CH_ST_CONNECTED |>) (handed r n) else handed r n,
     CH_OK, Some (take n (drop (r_tx_off r) (t_tx (r_t r))))).
Proof.
  unfold tcp_out. destruct (_ && _)%nat; [left; by eexists _, _|]. destruct (Nat.eqb_spec cap 0) as [|Hc]; [left; by eexists _, _|].
  destruct (Nat.eqb_spec (r_tx_len r - r_tx_off r) 0) as [|Hl]; [left; by eexists _, _|]. right. cbv zeta.
  set (n := if (r_tx_len r - r_tx_off r <? cap)%nat then _ else _).
  assert (En : n = Nat.min (r_tx_len r - r_tx_off r) cap) by (subst n; destruct (Nat.ltb_spec (r_tx_len r - r_tx_off r) cap); lia).
  rewrite <- En. clearbody n. split; [lia|]. unfold handed, connects. fields.
  destruct (r_tx_off r + n =? r_tx_len r)%nat; cbn [andb]; [|reflexivity]. unfold r_t. fields. by destruct (_ && _).
Qed.

Lemma handed_staged r n : staged_ok r -> (0 < n <= r_tx_len r - r_tx_off r)%nat -> staged_ok (handed r n).
Proof.
  intros [H1 H2] Hn. unfold handed. destruct (Nat.eqb_spec (r_tx_off r + n) (r_tx_len r)); unfold staged_ok, r_t in *; fields; lia.
Qed.
Lemma handed_hs r n : r_hs (handed r n) = r_hs r /\ r_step (handed r n) = r_step r.
Proof. unfold handed. destruct (_ =? _)%nat; by fields. Qed.

Lemma connects_finished o p r : tracks o p r -> connects r = true -> exists a l sl T, p = Complete a l sl T.
Proof.
  unfold connects. intros Ht H. apply andb_true_iff in H as [H _]. apply Z.eqb_eq in H.
  destruct p as [b T|a T|a l T|a l T|a l sl T|a l sl T]; [..|by exists a, l, sl, T]; exfalso.
  - destruct Ht as (_ & Hs & _). rewrite Hs in H. by destruct b.
  - destruct Ht as (_ & _ & Hs & _). rewrite Hs in H. done.
  - destruct Ht as (_ & _ & Hs & _). rewrite Hs in H. done.
  - destruct Ht as (_ & _ & Hs & _). rewrite Hs in H. done.
  - destruct Ht as (_ & _ & Hs & _). rewrite Hs in H. done.
Qed.

(** [tcp_out] from the last state: the same keys, and connected at the end. *)
Lemma handed_complete o a l sl T r n : tracks o (Complete a l sl T) r -> (0 < n <= r_tx_len r - r_tx_off r)%nat ->
  tracks o (Complete a l sl T)
    (if (r_tx_off r + n =? r_tx_len r)%nat && connects r then put_t ((r_t r) <| t_state := CH_ST_CONNECTED |>) (handed r n) else handed r n).
Proof.
  intros Ht Hn. pose proof Ht as (Hc & Hstep & Hpl & Hsl). destruct Hc as (Hl & Hw & H1 & H2 & H3 & H4 & H5 & H6 & H7 & Hd).
  destruct Hd as [(Hst & Hne & Hu)|[_ Hz]]; [|lia]. pose proof Hl as (L1 & L2 & L3 & L4 & L5 & L6 & L7 & L8).
  destruct (handed_hs r n) as [Eh Es]. pose proof (handed_staged r n L7 Hn) as Hs. unfold connects. rewrite Hstep, Hst. cbn [Z.eqb TCP_NONBLOCKING_STEP_COMPLETE CH_ST_START andb Pos.eqb].
  unfold handed in *. destruct (Nat.eqb_spec (r_tx_off r + n) (r_tx_len r)) as [Ee|Ee]; cbn [andb] in *; cbv iota.
  - unfold put_t. fields. unfold tracks, connectable, live, slot_ok, r_t in *. fields. settle; try (by rewrite Hw); try exact Hs. right. split; reflexivity.
  - unfold tracks, connectable, live, slot_ok, r_t in *. fields. settle. left. by split_and!.
Qed.

Lemma tcp_out_dead r cap : dead r -> dead (tcp_out r cap).1.1.
Proof.
  intros Hd. destruct (tcp_out_cases r cap) as [(rc & out & E)|[Hn E]]; cbv zeta in *; rewrite E; clear E; cbn [fst]; [exact Hd|].
  pose proof Hd as (Hst & _ & _ & _ & _ & _ & _ & _ & _ & _ & Hs). assert (Hc : connects r = false).
  { unfold connects. apply andb_false_iff. right. by destruct Hst as [-> | ->]. }
  rewrite Hc, andb_false_r. eapply dead_staged; [exact Hd|apply handed_hs|apply handed_staged; [exact Hs|lia]].
Qed.

Lemma tcp_out_tracks o p r cap : tracks o p r -> tracks o p (tcp_out r cap).1.1.
Proof.
  intros Ht. destruct (tcp_out_cases r cap) as [(rc & out & E)|[Hn E]]; cbv zeta in *; rewrite E; clear E; cbn [fst]; [exact Ht|].
  set (n := Nat.min (r_tx_len r - r_tx_off r) cap) in *. assert (Hr : (0 < n <= r_tx_len r - r_tx_off r)%nat) by lia. clearbody n.
  destruct (connects r) eqn:Hc.
  - destruct (connects_finished o p r Ht Hc) as (a & l & sl & T & ->). rewrite <- Hc. by apply handed_complete.
  - assert (Hq : ~ quiet p) by (intros Hq; pose proof (quiet_staged o p r Hq Ht); lia).
    destruct p as [b T|a T|a l T|a l T|a l sl T|a l sl T]; [|by destruct Hq..|rewrite <- Hc; by apply handed_complete].
    rewrite andb_false_r. destruct (tracks_live _ _ _ Ht) as (T' & _ & _ & _ & _ & _ & _ & Hs & _).
    eapply tracks_staged; [exact Ht|apply handed_hs|apply handed_hs|by apply handed_staged].
Qed.

Lemma tcp_out_inv o r cap : inv o r -> inv o (tcp_out r cap).1.1.
Proof.
  intros [Hd|(msgs & p & Hm & Ht)]; [left; by apply tcp_out_dead|right]. exists msgs, p. split; [exact Hm|by apply tcp_out_tracks].
Qed.

Lemma tcp_close_dead r : dead (tcp_close r) /\ t_state (r_t (tcp_close r)) = CH_ST_CLOSED /\ r_tx_len (tcp_close r) = 0%nat.
Proof.
  unfold tcp_close, tcp_nonblocking_wipe, put_t, dead, staged_ok, r_t. cbv zeta. fields. cbn [r_hs r_tx_len r_tx_off r_step]. rewrite wiped_hs_t, wiped_set. fields.
  split_and!; try reflexivity; [by left|lia|right; lia].
Qed.

Lemma tcp_in_spec o msgs p r inp : bytes_ok inp -> reached pin_ecdsa pin_verify o msgs p -> tracks o p r -> r_tx_len r = 0%nat ->
  exists x, tcp_in pin_ecdsa pin_verify r inp = Some x /\ took o msgs p r 0 inp x.
Proof.
  intros Hb Hm Ht Htx. unfold tcp_in. rewrite (tracks_not_dead o p r Ht), Htx.
  assert (Hle : (t_state (r_t r) <=? CH_ST_FAILED) = true) by (by destruct (tracks_state o p r Ht) as [-> | [-> _]]).
  rewrite Hle. cbn [negb Nat.eqb]. by apply (in_loop_spec _ o msgs p); try lia.
Qed.

Lemma tcp_in_inv o r inp : bytes_ok inp -> inv o r ->
  exists r' rc consumed, tcp_in pin_ecdsa pin_verify r inp = Some (r', rc, consumed) /\ inv o r' /\ (consumed <= length inp)%nat.
Proof.
  intros Hb [Hd|(msgs & p & Hm & Ht)].
  - exists r, CH_EPROTO, 0%nat. split; [|split; [by left|lia]]. unfold tcp_in. rewrite (dead_is_dead r Hd).
    destruct Hd as ([-> | ->] & _); reflexivity.
  - destruct (Nat.eq_dec (r_tx_len r) 0%nat) as [Htx|Htx].
    + destruct (tcp_in_spec o msgs p r inp Hb Hm Ht Htx) as ([[r' rc] consumed] & E & Hc & Hdr). exists r', rc, consumed. split; [exact E|]. split; [|lia].
      destruct Hdr as [[_ (new & p' & _ & Hm' & Ht')]|[_ (new & p' & r0 & al & rec & _ & _ & _ & _ & _ & Hd & _)]]; [right; by exists (msgs ++ new), p'|left; exact Hd].
    + exists r, CH_EINVAL, 0%nat. split; [|split; [right; by exists msgs, p|lia]]. unfold tcp_in. rewrite (tracks_not_dead o p r Ht).
      assert (Hle : (t_state (r_t r) <=? CH_ST_FAILED) = true) by (by destruct (tracks_state o p r Ht) as [-> | [-> _]]).
      rewrite Hle. apply Nat.eqb_neq in Htx. by rewrite Htx.
Qed.

(** ** Starting a session *)

Definition limit_of (cfg : client_cfg) : Z :=
  let room := (cfg_buf_len cfg - REC_HDR - AEAD_TAG)%nat in
  if 0x4001 <? Z.of_nat room then 0x4001 else u16 (Z.of_nat room).
Definition opening_of (session : client_cfg) (draw_priv draw_random : list Z) : opening := Opening session draw_priv draw_random (limit_of session).
(** The session [tcp_init] starts from. *)
Definition fresh_tls (session : client_cfg) : ch_tls :=
  zero_tls <| t_cfg := session |> <| t_buf := default [] (cfg_buf session) |> <| t_limit_sent := true |> <| t_peer_limit := Z.of_nat CH_TX_PT |>.

Lemma begun_early draw_priv draw_random h : early_ok (begun draw_priv draw_random h).
Proof.
  unfold early_ok, begun. cbv zeta. unfold psk_set at 1. fields. intros Hp. fold (psk_set (h_t h)) in Hp.
  destruct (psk_set (h_t h)) eqn:E; [by fields|]. unfold psk_set in E. congruence.
Qed.
Lemma begun_fields draw_priv draw_random h : let h' := begun draw_priv draw_random h in
  h_priv h' = draw_priv /\ h_pub h' = X25519.x25519_base draw_priv /\ h_random h' = draw_random /\ h_record_size_limit h' = h_record_size_limit h /\
  h_encrypted h' = h_encrypted h /\ h_cookie h' = h_cookie h /\ h_cookie_len h' = h_cookie_len h /\ h_alert h' = h_alert h /\
  h_t h' = (h_t h) <| t_transcript := transcript_init (t_transcript (h_t h)) |>.
Proof. unfold begun. cbv zeta. destruct (psk_set (h_t h)); fields; split_and!; reflexivity. Qed.

Definition fresh (session : client_cfg) : ch_tcp :=
  Tcp ((wiped_hs (fresh_tls session)) <| h_alert := ALERT_DECODE_ERROR |> <| h_record_size_limit := limit_of session |>) 0 0 0.
(** A handshake record in the clear. *)
Definition plain_record (m : list Z) : list Z := [REC_HANDSHAKE; 3; 3; u8 (Z.of_nat (length m) >> 8); u8 (Z.of_nat (length m))] ++ m.
Definition started (o : opening) (r : ch_tcp) : Prop :=
  let m := hello_after pin_ecdsa o [] None in
  tracks o (Waiting false m) r /\ unread (r_t r) = [] /\ r_tx_len r = length (plain_record m) /\ r_tx_off r = 0%nat /\ take (length (plain_record m)) (t_tx (r_t r)) = plain_record m.

Lemma staged_hello tx m : length tx = (REC_HDR + CH_TX_STAGE)%nat -> (length m <= CH_TX_STAGE)%nat ->
  take (length (plain_record m)) (store_bytes (store_bytes tx REC_HDR m) 0 [REC_HANDSHAKE; 3; 3; u8 (Z.of_nat (length m) >> 8); u8 (Z.of_nat (length m))]) = plain_record m.
Proof.
  intros Ht Hm. unfold plain_record. set (hdr := [REC_HANDSHAKE; 3; 3; u8 (Z.of_nat (length m) >> 8); u8 (Z.of_nat (length m))]).
  assert (Hh : length hdr = REC_HDR) by reflexivity. clearbody hdr. unfold REC_HDR in *.
  assert (Hl : length (take 5 tx) = 5%nat) by (rewrite length_take; lia).
  with_strategy transparent [store_bytes] unfold store_bytes. rewrite take_0, Hh, length_app, Hh. cbn [app].
  rewrite drop_app_ge by (rewrite Hl; lia). rewrite Hl. change (0 + 5 - 5)%nat with 0%nat. rewrite drop_0, app_assoc, take_app_le; [|rewrite length_app; lia]. rewrite take_ge; [done|rewrite length_app; lia].
Qed.

(** The session with its key drawn, before the hello. *)
Definition ready (o : opening) (r : ch_tcp) : Prop :=
  let h := r_hs r in let t := h_t h in
  session_cfg (t_cfg t) /\ t_cfg t = o_cfg o /\ reader_ok t /\ length (t_tx t) = (REC_HDR + CH_TX_STAGE)%nat /\ sha256_absorbed (t_transcript t) [] /\
  t_alert_received t = 0 /\ h_encrypted h = false /\ t_keys t = false /\ h_priv h = o_priv o /\ h_pub h = o_pub o /\
  (h_random h = o_random o /\ length (o_random o) = 32%nat) /\ h_record_size_limit h = o_limit o /\ early_ok h /\ cookie_ok h /\ h_cookie_len h = 0%nat /\
  t_peer_limit t = Z.of_nat CH_TX_PT /\ unread t = [] /\ unused t.

Lemma first_hello_wp o r : ready o r ->
  wp (n ← on_hs (hsf_build_client_hello pin_ecdsa);
      match n with
      | None => fail CH_EINVAL
      | Some n => tcp_nonblocking_stage_plain n;; set_step TCP_NONBLOCKING_STEP_AWAIT_SERVER_HELLO;; on_t (fun t => t <| t_state := CH_ST_START |>)
      end) (fun _ => started o) (fun _ _ => False) r.
Proof.
  intros (Hcfg & Ho & Hr & Htx & Ha & Hal & He & Hk & Hpriv & Hpub & [Hrand Hrl] & Hlim & Hea & Hck & Hcl & Hpl & Hun & Huse). steps.
  eapply (hsf_build_client_hello_wp pin_ecdsa []); [exact Hcfg|exact Htx|exact Hck|rewrite Hpub; exact (o_pub_length o)|rewrite Hrand; exact Hrl|exact Hea|exact Ha|].
  cbv zeta. assert (Ec : hello_cookie (r_hs r) = None) by (unfold hello_cookie; rewrite Hcl; reflexivity). rewrite Ec, Ho, Hpub, Hrand, Hlim.
  fold (hello_after pin_ecdsa o [] None). intros Hlen. steps. unfold tcp_nonblocking_stage_plain. steps. set (m := hello_after pin_ecdsa o [] None) in *.
  pose proof (staged_length _ m (Z.of_nat (length m)) Htx Hlen) as Hsl. pose proof (staged_hello _ m Htx Hlen) as Hsh.
  unfold started. fold m. cbv zeta. unfold r_t. fields. split_and!; [|exact Hun|unfold plain_record; rewrite length_app; reflexivity|reflexivity|exact Hsh].
  unfold tracks, live, r_t. fields. settle.
  - rewrite Hsl. exact Htx.
  - exact (transcript_update_absorbs _ [] _ Ha).
  - unfold staged_ok, r_t. fields. rewrite Hsl, Htx. unfold REC_HDR. split; [lia|left; lia].
Qed.

Lemma fresh_ready session draw_priv draw_random : session_cfg session -> bytes_ok (default [] (cfg_buf session)) ->
  length (default [] (cfg_buf session)) = cfg_buf_len session -> length draw_random = 32%nat ->
  ready (opening_of session draw_priv draw_random) ((fresh session) <| r_hs := begun draw_priv draw_random (r_hs (fresh session)) |>).
Proof.
  intros Hs Hbb Hbl H3.
  destruct (begun_fields draw_priv draw_random (r_hs (fresh session))) as (E1 & E2 & E3 & E4 & E5 & E6 & E7 & E8 & E9).
  pose proof (begun_early draw_priv draw_random (r_hs (fresh session))) as He. unfold ready. fields. rewrite E1, E2, E3, E4, E5, E7.
  split_and!; try (rewrite E9; fields); try reflexivity; try exact He.
  - exact Hs.
  - unfold reader_ok. fields. split; [exact Hbl|]. split; [exact Hbb|]. split; exact (Nat.le_0_l _).
  - exact (transcript_init_absorbed zero_transcript (length_zero_bytes _)).
  - exact H3.
  - unfold cookie_ok. rewrite E6, E7. split; [exact (length_zero_bytes _)|exact (Nat.le_0_l _)].
  - unfold unused. rewrite ?E9. fields. split; [change (1 <= Z.of_nat CH_TX_PT); by cbn|]. split_and!; reflexivity.
Qed.

Lemma tcp_begin_wp session draw_priv draw_random : session_cfg session -> bytes_ok (default [] (cfg_buf session)) ->
  length (default [] (cfg_buf session)) = cfg_buf_len session -> drawn draw_priv = true -> drawn draw_random = true -> length draw_random = 32%nat ->
  wp (tcp_begin pin_ecdsa draw_priv draw_random) (fun _ => started (opening_of session draw_priv draw_random)) (fun _ _ => False) (fresh session).
Proof.
  intros Hs Hbb Hbl H1 H2 H3. unfold tcp_begin. rewrite wp_bind, wp_on_hs.
  apply hsf_begin_wp; [exact Hs|exact H1|exact H2|]. apply first_hello_wp. by apply fresh_ready.
Qed.

(** The refusal on entry: nothing staged, and nothing but zeros. *)
Lemma refused_init_dead : dead (tcp_nonblocking_refuse_init).1 /\ t_state (r_t (tcp_nonblocking_refuse_init).1) = CH_ST_FAILED /\
  r_tx_len (tcp_nonblocking_refuse_init).1 = 0%nat.
Proof.
  unfold tcp_nonblocking_refuse_init, put_t, zero_tcp, dead, staged_ok, r_t. cbn [fst]. fields. cbn [r_hs r_tx_len r_tx_off]. rewrite ?wiped_set. fields. rewrite ?wiped_hs_t. fields.
  split_and!; try reflexivity; [by right|exact (Nat.le_0_l _)|by right].
Qed.

(** Whether [tcp_init] takes a configuration, and the session's copy of it. *)
Definition configured (cfg : client_cfg) (session : client_cfg) : Prop :=
  hspost_present_ticket cfg = Some session /\ tlsi_config_ok session = true /\ has_send cfg = true /\ has_recv cfg = true /\ tlsi_epoch_init session = CH_OK.

Lemma tcp_init_spec cfg draw_priv draw_random : memory_ok cfg -> drawn draw_priv = true -> drawn draw_random = true -> length draw_random = 32%nat ->
  exists r rc, tcp_init pin_ecdsa cfg draw_priv draw_random = Some (r, rc) /\
    ((exists session, configured cfg session /\ rc = CH_OK /\ started (opening_of session draw_priv draw_random) r) \/
     (forall session, ~ configured cfg session) /\ (r, rc) = tcp_nonblocking_refuse_init).
Proof.
  intros Hm H1 H2 H3. unfold tcp_init, configured. change (Tcp.build pin_ecdsa) with build.
  destruct (hspost_present_ticket cfg) as [session|] eqn:Ep.
  2:{ eexists _, _. split; [reflexivity|]. right. split; [by intros s [? _]|reflexivity]. }
  destruct (negb (tlsi_config_ok session) || negb (has_send cfg) || negb (has_recv cfg)) eqn:Ec.
  { eexists _, _. split; [reflexivity|]. right. split; [|reflexivity]. intros s (Es & E1 & E2 & E3 & _). injection Es as <-. by rewrite E1, E2, E3 in Ec. }
  apply orb_false_iff in Ec as [Ec E3]. apply orb_false_iff in Ec as [E1 E2]. apply negb_false_iff in E1, E2, E3.
  destruct (Z.eqb_spec (tlsi_epoch_init session) CH_OK) as [E4|E4]; cbn [negb]; cbv iota.
  2:{ eexists _, _. split; [reflexivity|]. right. split; [|reflexivity]. intros s (Es & _ & _ & _ & E5). injection Es as <-. done. }
  pose proof (config_ok_session session E1 (present_ticket_memory cfg session Ep Hm)) as Hs.
  assert (Hbuf : bytes_ok (default [] (cfg_buf session)) /\ length (default [] (cfg_buf session)) = cfg_buf_len session).
  { destruct Hs as ((_ & _ & _ & _ & _ & Hb) & _ & Hset & _). destruct (cfg_buf session); [exact Hb|discriminate Hset]. }
  pose proof (tcp_begin_wp session draw_priv draw_random Hs (proj1 Hbuf) (proj2 Hbuf) H1 H2 H3) as Hw.
  apply wp_answer in Hw as (r & x & Eb & Hx). cbv zeta. fold (limit_of session).
  match goal with |- context [tcp_begin _ _ _ ?s] => change s with (fresh session) end.
  rewrite Eb. cbn [mbind option_bind]. destruct x as [[]|]; [|done]. exists r, CH_OK. split; [reflexivity|]. left. by exists session.
Qed.
End Client.
End Session.
