(* ===== verification/TcpLive.v ===== *)
(** * An honest flight is carried to the end

    The machine of [TcpProto] is deterministic, so a step of the driver goes on
    with every message the machine accepts, to the machine's next state; a
    flight sent one message to a record, sealed under the keys agreed on, is
    opened, read and accepted whole. *)

From S2P Require Import Prelude Ct MdHash Sha256 X25519 Reader Build Wire Hkdf Keysched HsParser HsParserEe.
From S2P Require Import HsMessage Aead Record Cmd ClientCfg HsRecord HsFlight TcpClient TcpProto TcpSession.
Import Sha256 Hkdf Keysched HsRecord Cfg HsFlight Tcp Proto Session.
Local Open Scope Z_scope.
Local Open Scope word_scope.

Module Live.

Section Client.
Context {aead : AeadOps} {laws : AeadLaws aead} (pin_ecdsa : bool) (pin_verify : list Z -> list Z -> list Z -> bool).
#[local] Instance build : HsBuild := client_build pin_ecdsa.

#[local] Opaque hmac_of expand_label_spec sha256_spec X25519.x25519 X25519.x25519_base transcript_update transcript_init transcript_hash_after
  absorbed dir_of hs_secret c_hs_secret s_hs_secret app_secret finished_mac zero_bytes store_bytes.

(** ** The machine is deterministic *)

Lemma ee_functional peer_limit type body l1 l2 : ee_accepts pin_ecdsa peer_limit type body l1 -> ee_accepts pin_ecdsa peer_limit type body l2 -> l1 = l2.
Proof. intros (_ & s1 & H1 & ->) (_ & s2 & H2 & ->). rewrite H1 in H2. by injection H2 as ->. Qed.
Lemma shared_functional priv i e1 e2 : shared priv i e1 -> shared priv i e2 -> e1 = e2.
Proof. unfold shared. intros H1 H2. rewrite H1 in H2. by injection H2. Qed.
Lemma verify_functional cfg hash type body s1 s2 : verify_accepts pin_ecdsa pin_verify cfg hash type body s1 -> verify_accepts pin_ecdsa pin_verify cfg hash type body s2 -> s1 = s2.
Proof.
  intros (_ & sc1 & sg1 & H1 & E1) (_ & sc2 & sg2 & H2 & E2). rewrite H1 in H2. injection H2 as <- <-. rewrite E1 in E2. by injection E2.
Qed.

Lemma accepts_det o p type body l1 l2 p1 p2 : accepts pin_ecdsa pin_verify o p type body l1 p1 -> accepts pin_ecdsa pin_verify o p type body l2 p2 -> p1 = p2.
Proof.
  intros H1 H2. destruct H1 as [T type body l1 i cookie Hi Hh Hc prefix|b T type body i ecdhe Hi Hh Hu Hs T'|a T type body l1 limit Hl T'|a limit T type body l1 Hc|a limit T type body l1 slot Hv|a limit slot T type body Hf];
    inversion H2 as [? ? ? ? j ck Hj Hjh Hjc pf Eq|? ? ? ? j e Hj Hjh Hju Hjs T2 Eq|? ? ? ? ? lim Hjl T2 Eq|? ? ? ? ? ? Hjc Eq|? ? ? ? ? ? sl Hjv Eq|? ? ? ? ? ? Hjf Eq]; subst.
  - rewrite (sh_functional _ _ _ _ _ _ Hi Hj) in Hc. rewrite Hc in Hjc. by injection Hjc as <-.
  - exfalso. rewrite (sh_functional _ _ _ _ _ _ Hi Hj) in Hh. congruence.
  - exfalso. rewrite (sh_functional _ _ _ _ _ _ Hi Hj) in Hh. congruence.
  - rewrite (sh_functional _ _ _ _ _ _ Hi Hj) in Hs. by rewrite (shared_functional _ _ _ _ Hs Hjs).
  - by rewrite (ee_functional _ _ _ _ _ Hl Hjl).
  - reflexivity.
  - by rewrite (verify_functional _ _ _ _ _ _ Hv Hjv).
  - reflexivity.
Qed.

(** ** One message *)

(** A message the reader takes: a byte of type, a body within a record. *)
Definition message_fits (cfg : client_cfg) (type : Z) (body : list Z) : Prop :=
  byte_ok type /\ bytes_ok body /\ Z.of_nat (length (message type body)) <= 0x4000 /\ (length (message type body) <= cfg_buf_len cfg)%nat.

Lemma advance_accepted o p p' type body r : tracks o p r -> r_tx_len r = 0%nat -> unread (r_t r) = message type body ->
  byte_ok type -> bytes_ok body -> Z.of_nat (length body) <= 0x4000 -> accepts pin_ecdsa pin_verify o p type body true p' ->
  exists r', tcp_nonblocking_advance pin_ecdsa pin_verify r = Some (r', Ok ()) /\ tracks o p' r' /\ unread (r_t r') = [] /\ reads_as o p' r r'.
Proof.
  intros Ht Htx Hu Hty Hb Hl Hacc. destruct (tracks_live o p r Ht) as (T & _ & _ & Hr & _).
  assert (Hf : front (r_t r) type body []) by (split_and!; try assumption; by rewrite app_nil_r).
  pose proof (advance_wp pin_ecdsa pin_verify o p type body [] r Ht Htx Hf) as Hw. apply wp_answer in Hw as (r1 & x & Ea & Hx).
  destruct x as [[]|rc].
  - destruct Hx as (p2 & Ha2 & Ht2 & Hu2 & Hrd). rewrite bool_decide_eq_true_2 in Ha2 by done. rewrite (accepts_det _ _ _ _ _ _ _ _ Hacc Ha2). by exists r1.
  - destruct Hx as [Hno _]. rewrite bool_decide_eq_true_2 in Hno by done. by destruct (Hno p').
Qed.

Lemma drive_one fuel o p p' type body r : tracks o p r -> r_tx_len r = 0%nat -> unread (r_t r) = message type body ->
  byte_ok type -> bytes_ok body -> Z.of_nat (length body) <= 0x4000 -> accepts pin_ecdsa pin_verify o p type body true p' ->
  exists r', drive pin_ecdsa pin_verify (S (S fuel)) r = Some (r', CH_OK) /\ tracks o p' r' /\ unread (r_t r') = [] /\ reads_as o p' r r'.
Proof.
  intros Ht Htx Hu Hty Hb Hl Hacc. destruct (tracks_live o p r Ht) as (T & _ & _ & Hr & _).
  destruct (advance_accepted o p p' type body r Ht Htx Hu Hty Hb Hl Hacc) as (r' & Ea & Ht' & Hu' & Hrd). destruct (tracks_live o p' r' Ht') as (T' & _ & _ & Hr' & _).
  exists r'. split; [|done]. cbn [drive]. rewrite (peek_message _ type body []) by (done || by rewrite app_nil_r). rewrite Ea. cbn [mbind option_bind].
  destruct (r_tx_len r' =? 0)%nat; cbn [negb]; [|reflexivity]. rewrite peek_empty; [reflexivity|done|by rewrite Hu'; cbn; lia].
Qed.

(** ** One record *)

(** A record whole in its bytes, as large as its type may be. *)
Definition whole_record (rec : list Z) : Prop :=
  bytes_ok rec /\ Z.of_nat (length rec) = Z.of_nat REC_HDR + body_of rec /\ body_of rec <= Z.of_nat (rec_body_max (rec !!! 0%nat)).

Lemma take_record_one o p r rec pt rd : tracks o p r -> r_tx_len r = 0%nat -> bytes_ok rec -> carries r rec (rec !!! 0%nat) pt rd -> fits r pt ->
  (forall pt' rd', carries r rec (rec !!! 0%nat) pt' rd' -> pt' = pt /\ rd' = rd) ->
  exists r', tcp_nonblocking_take_record rec (rec !!! 0%nat) r = Some (r', Ok ()) /\ fed o p r pt rd r'.
Proof.
  intros Ht Htx Hb Hca Hfit Hun.
  assert (Hw : wp (tcp_nonblocking_take_record rec (rec !!! 0%nat)) (fun _ r1 => fed o p r pt rd r1) (fun _ _ => False) r).
  { apply (take_record_wp o p); [exact Ht|exact Htx|exact Hb| |].
    - intros pt' rd' r' Hc _ Hf. by destruct (Hun _ _ Hc) as [-> ->].
    - intros rc r' Hno _ _. exact (Hno _ _ Hca Hfit). }
  apply wp_answer in Hw as (r' & [[]|] & E & Hx); [by exists r'|done].
Qed.

(** The bytes of one record are fed, and the driver runs. *)
Lemma in_loop_record fuel o p r inp off rec post pt rd :
  bytes_ok inp -> drop off inp = rec ++ post -> whole_record rec -> tracks o p r -> r_tx_len r = 0%nat -> unread (r_t r) = [] ->
  carries r rec (rec !!! 0%nat) pt rd -> (forall pt' rd', carries r rec (rec !!! 0%nat) pt' rd' -> pt' = pt /\ rd' = rd) -> (length pt <= cfg_buf_len (o_cfg o))%nat ->
  exists r1, in_loop pin_ecdsa pin_verify (S fuel) r inp off off =
      (d ← drive pin_ecdsa pin_verify (S (cfg_buf_len (o_cfg o))) r1;
       let '(r, rc) := d in
       if negb (rc =? CH_OK) then Some (r, rc, (off + length rec)%nat)
       else if negb (r_tx_len r =? 0)%nat then Some (r, CH_OK, (off + length rec)%nat)
       else in_loop pin_ecdsa pin_verify fuel r inp (off + length rec) (off + length rec)) /\
    tracks o p r1 /\ unread (r_t r1) = pt /\ r_tx_len r1 = 0%nat /\ t_rd (r_t r1) = rd.
Proof.
  intros Hb Hd (Hrb & Hlen & Hmax) Ht Htx Hu Hca Hun Hmb. destruct (tracks_live o p r Ht) as (T & _ & Ho & Hr & _).
  assert (Hl5 : (5 <= length rec)%nat) by (pose proof (body_range rec Hrb); unfold REC_HDR in Hlen; lia).
  assert (Hld : (length inp - off)%nat = (length rec + length post)%nat) by (rewrite <- length_drop, Hd; apply length_app).
  destruct (take_record_one o p r rec pt rd Ht Htx Hrb Hca) as (r1 & Et & Ht1 & Hu1 & Htx1 & Hrd1); [|exact Hun|].
  { unfold fits. rewrite Hu, Ho. cbn [length]. lia. }
  rewrite Hu in Hu1. cbn [app] in Hu1. rewrite Htx in Htx1. destruct (tracks_live o p r1 Ht1) as (T1 & _ & Ho1 & _).
  exists r1. split; [|done]. cbn [in_loop]. rewrite Hd. unfold REC_HDR at 1. destruct (Nat.ltb_spec (length inp - off) 5) as [|_]; [lia|].
  assert (E0 : (rec ++ post) !!! 0%nat = rec !!! 0%nat) by (apply lookup_total_app_l; lia).
  assert (Eb : body_of (rec ++ post) = body_of rec) by (unfold body_of; rewrite drop_app_le, take_app_le by (rewrite ?length_drop; lia); reflexivity).
  assert (Hpb : bytes_ok (rec ++ post)) by (rewrite <- Hd; by apply Forall_drop).
  rewrite Rec.record_length_field by (done || rewrite length_app; lia). fold (body_of (rec ++ post)). rewrite Eb, E0.
  destruct (Z.ltb_spec (Z.of_nat (rec_body_max (rec !!! 0%nat))) (body_of rec)) as [|_]; [lia|].
  destruct (Z.ltb_spec (Z.of_nat (length inp - off)) (Z.of_nat REC_HDR + body_of rec)) as [|_]; [lia|].
  replace (REC_HDR + Z.to_nat (body_of rec))%nat with (length rec) by (pose proof (body_range rec Hrb); lia).
  rewrite take_app_length, Et. cbn [mbind option_bind]. rewrite Ho1. reflexivity.
Qed.

Lemma in_loop_one fuel o p p' r inp off rec post type body rd :
  bytes_ok inp -> drop off inp = rec ++ post -> whole_record rec -> tracks o p r -> r_tx_len r = 0%nat -> unread (r_t r) = [] ->
  carries r rec (rec !!! 0%nat) (message type body) rd -> (forall pt' rd', carries r rec (rec !!! 0%nat) pt' rd' -> pt' = message type body /\ rd' = rd) ->
  message_fits (o_cfg o) type body -> accepts pin_ecdsa pin_verify o p type body true p' ->
  exists r1 r', in_loop pin_ecdsa pin_verify (S fuel) r inp off off =
      (if (r_tx_len r' =? 0)%nat then in_loop pin_ecdsa pin_verify fuel r' inp (off + length rec) (off + length rec) else Some (r', CH_OK, (off + length rec)%nat)) /\
    t_rd (r_t r1) = rd /\ tracks o p' r' /\ unread (r_t r') = [] /\ reads_as o p' r1 r'.
Proof.
  intros Hb Hd Hw Ht Htx Hu Hca Hun (Hty & Hbb & Hms & Hmb) Hacc.
  destruct (in_loop_record fuel o p r inp off rec post _ rd Hb Hd Hw Ht Htx Hu Hca Hun Hmb) as (r1 & El & Ht1 & Hu1 & Htx1 & Hrd1).
  rewrite length_message in Hms, Hmb. destruct (cfg_buf_len (o_cfg o)) as [|n]; [lia|].
  destruct (drive_one n o p p' type body r1 Ht1 Htx1 Hu1 Hty Hbb ltac:(lia) Hacc) as (r' & Ed & Ht' & Hu' & Hrd').
  exists r1, r'. split; [|done]. rewrite El, Ed. cbn [mbind option_bind negb Z.eqb CH_OK]. by destruct (r_tx_len r' =? 0)%nat.
Qed.

(** A message the machine refuses ends the session. *)
Lemma in_loop_refused fuel o p r inp off rec post type body rd :
  bytes_ok inp -> drop off inp = rec ++ post -> whole_record rec -> tracks o p r -> r_tx_len r = 0%nat -> unread (r_t r) = [] ->
  carries r rec (rec !!! 0%nat) (message type body) rd -> (forall pt' rd', carries r rec (rec !!! 0%nat) pt' rd' -> pt' = message type body /\ rd' = rd) ->
  message_fits (o_cfg o) type body -> (forall p', ~ accepts pin_ecdsa pin_verify o p type body true p') ->
  exists r0 r' rc, in_loop pin_ecdsa pin_verify (S fuel) r inp off off = Some (r', rc, (off + length rec)%nat) /\ err_code rc /\ failed r0 r'.
Proof.
  intros Hb Hd Hw Ht Htx Hu Hca Hun (Hty & Hbb & Hms & Hmb) Hno.
  destruct (in_loop_record fuel o p r inp off rec post _ rd Hb Hd Hw Ht Htx Hu Hca Hun Hmb) as (r1 & El & Ht1 & Hu1 & Htx1 & Hrd1).
  destruct (tracks_live o p r1 Ht1) as (T & _ & _ & Hr1 & _). rewrite length_message in Hms.
  assert (Hf : front (r_t r1) type body []) by (split_and!; try assumption; [by rewrite app_nil_r|lia]).
  pose proof (advance_wp pin_ecdsa pin_verify o p type body [] r1 Ht1 Htx1 Hf) as Hwp. apply wp_answer in Hwp as (r2 & x & Ea & Hx).
  destruct x as [[]|rc].
  { destruct Hx as (p2 & Ha2 & _). rewrite bool_decide_eq_true_2 in Ha2 by done. by destruct (Hno p2). }
  destruct Hx as [_ [Hfail _]]. destruct (fail_ends o p r1 rc r2 Ht1 Hfail) as (r' & Ef & Hfd).
  exists r2, r', rc. split; [|split; [apply Hfail|exact Hfd]]. rewrite El. cbn [drive].
  rewrite (peek_message _ type body []) by (first [exact Hr1|exact Hty|exact Hbb|lia|by rewrite app_nil_r]).
  rewrite Ea. cbn [mbind option_bind]. rewrite Ef. cbn [mbind option_bind]. destruct (Z.eqb_spec rc CH_OK) as [E|_]; [by destruct (err_not_ok rc (proj1 Hfail))|reflexivity].
Qed.

(** ** Records in the clear and sealed *)

Lemma plain_whole m : bytes_ok m -> Z.of_nat (length m) <= 0x4000 -> whole_record (plain_record m) /\ plain_record m !!! 0%nat = REC_HANDSHAKE /\ drop REC_HDR (plain_record m) = m.
Proof.
  intros Hb Hl. split; [|done]. unfold whole_record. split.
  - apply Forall_app_2; [|done]. repeat first [apply Forall_cons_2; [first [apply u8_range|done]|]|apply Forall_nil_2].
  - assert (Eb : body_of (plain_record m) = Z.of_nat (length m)).
    { unfold body_of, plain_record. change (take 2 (drop 3 _)) with [u8 (Z.of_nat (length m) >> 8); u8 (Z.of_nat (length m))].
      rewrite Z.shiftr_div_pow2 by lia. change [u8 (Z.of_nat (length m) / 2 ^ 8); u8 (Z.of_nat (length m))] with (be_bytes 2 (Z.of_nat (length m))).
      rewrite be_val_bytes. apply Z.mod_small. lia. }
    rewrite Eb. unfold plain_record at 1. rewrite length_app. split; [cbn [length]; unfold REC_HDR; lia|].
    change (plain_record m !!! 0%nat) with REC_HANDSHAKE. change (Z.of_nat (rec_body_max REC_HANDSHAKE)) with 0x4000. lia.
Qed.

Lemma sealed_whole d pt cap d' rec : Rec.dir_ok d -> bytes_ok pt -> Z.of_nat (length pt) <= 0x4000 ->
  Rec.rec_seal d REC_HANDSHAKE pt cap = Some (d', Some rec) ->
  d' = Rec.next_seq d /\ d_seq d < UINT64_MAX /\ whole_record rec /\ rec !!! 0%nat = REC_APPDATA /\
  Rec.rec_open d rec (length (drop REC_HDR rec)) = Some (d', Some (REC_HANDSHAKE, pt)).
Proof.
  intros Hd Hb Hl Es. destruct (decide (Rec.seal_fits d (length pt) cap)) as [Hf|Hn].
  2:{ rewrite Rec.rec_seal_refuses in Es; [discriminate|apply Hd|exact Hn]. }
  destruct (Rec.rec_seal_correct d REC_HANDSHAKE pt cap Hd ltac:(done) Hb Hf) as (ct & tag & _ & Hcl & Hcb & Htl & Htb & Ec).
  destruct (Rec.seal_then_open d REC_HANDSHAKE pt cap (length pt + 17) Hd ltac:(done) ltac:(done) Hb Hl Hf ltac:(lia)) as (rec2 & Es2 & Hrb & Hrl & Eo).
  rewrite Es in Ec, Es2. injection Es2 as -> ->. injection Ec as Erec. split; [reflexivity|]. split; [apply Hf|].
  assert (Ebo : body_of rec2 = Z.of_nat (length pt + 17)).
  { rewrite Erec. unfold body_of, Rec.header_of. change (drop 3 _) with (be_bytes 2 (Z.of_nat (length pt + 17)) ++ ct ++ tag).
    rewrite take_app_le, take_ge by (rewrite length_be_bytes; lia). rewrite be_val_bytes. apply Z.mod_small. lia. }
  assert (E0 : rec2 !!! 0%nat = REC_APPDATA) by by rewrite Erec.
  split; [|split; [exact E0|]].
  - split; [exact Hrb|]. rewrite Ebo, Hrl. split; [unfold REC_HDR; lia|]. rewrite E0. change (Z.of_nat (rec_body_max REC_APPDATA)) with 0x4011. lia.
  - rewrite length_drop, Hrl. replace (length pt + 22 - REC_HDR)%nat with (length pt + 17)%nat by (unfold REC_HDR; lia). exact Eo.
Qed.

Lemma carries_sealed_iff r rec pt rd : rec !!! 0%nat = REC_APPDATA -> h_encrypted (r_hs r) = true ->
  Rec.rec_open (t_rd (r_t r)) rec (length (drop REC_HDR rec)) = Some (rd, Some (REC_HANDSHAKE, pt)) ->
  carries r rec (rec !!! 0%nat) pt rd /\ forall pt' rd', carries r rec (rec !!! 0%nat) pt' rd' -> pt' = pt /\ rd' = rd.
Proof.
  intros E0 He Eo. rewrite E0. split; [by apply carries_sealed|]. intros pt' rd' Hc.
  inversion Hc as [H|H|pt2 rd2 _ _ _ Eo2]; [discriminate H|discriminate H|]. subst. rewrite Eo in Eo2. by injection Eo2 as <- <-.
Qed.

Lemma carries_plain_iff r rec : rec !!! 0%nat = REC_HANDSHAKE -> h_encrypted (r_hs r) = false ->
  carries r rec (rec !!! 0%nat) (drop REC_HDR rec) (t_rd (r_t r)) /\
  forall pt' rd', carries r rec (rec !!! 0%nat) pt' rd' -> pt' = drop REC_HDR rec /\ rd' = t_rd (r_t r).
Proof.
  intros E0 He. rewrite E0. split; [by apply carries_plain|]. intros pt' rd' Hc.
  inversion Hc as [H|H|pt2 rd2 _ _ H _]; [discriminate H|by subst|congruence].
Qed.

(** ** A flight *)

(** Messages the machine accepts one after another, each at the end of its record. *)
Inductive follows (o : opening) : proto -> list (Z * list Z) -> proto -> Prop :=
  | follows_nil p : follows o p [] p
  | follows_cons p type body p1 flight p' :
      accepts pin_ecdsa pin_verify o p type body true p1 -> follows o p1 flight p' -> follows o p ((type, body) :: flight) p'.

(** A server that seals each message in a record of its own. *)
Definition sealed_flight (d : rec_dir) (flight : list (Z * list Z)) (cap : nat) : option (rec_dir * list (list Z)) :=
  Rec.seal_all d ((fun m => (REC_HANDSHAKE, message m.1 m.2)) <$> flight) cap.

Definition complete (p : proto) : Prop := match p with Complete _ _ _ _ => True | _ => False end.

Lemma quiet_accepts o p type body last p' : accepts pin_ecdsa pin_verify o p type body last p' -> quiet p -> quiet p' \/ complete p'.
Proof.
  intros H. destruct H; intros Hq.
  - destruct Hq.
  - destruct Hq.
  - destruct (o_psk o); left; exact I.
  - left. exact I.
  - left. exact I.
  - right. exact I.
Qed.

(** What the last state owes the server. *)
Definition owes (o : opening) (p : proto) (r : ch_tcp) : Prop := match p with Complete a _ _ T => owes_finished o a T r | _ => False end.

Lemma complete_owes o p r0 r : complete p -> reads_as o p r0 r -> t_state (r_t r) = CH_ST_START /\ owes o p r.
Proof. destruct p; intros Hc Hr; [destruct Hc..|exact Hr]. Qed.

Lemma complete_accepts o p type body last p' : accepts pin_ecdsa pin_verify o p type body last p' -> ~ complete p.
Proof. intros []; intros Hc; exact Hc. Qed.

Lemma quiet_encrypted o p r : quiet p -> tracks o p r -> h_encrypted (r_hs r) = true.
Proof. destruct p; intros Hq Ht; try done; destruct Ht as (_ & (_ & _ & H & _) & _); exact H. Qed.

Lemma finished_staged o p r : complete p -> tracks o p r -> t_state (r_t r) = CH_ST_START -> r_tx_len r <> 0%nat.
Proof.
  destruct p; try done. intros _ ((_ & _ & _ & _ & _ & _ & _ & _ & _ & [[_ (H & _)]|[H _]]) & _) Hs; [exact H|]. rewrite Hs in H. discriminate H.
Qed.

Lemma message_whole o type body : message_fits (o_cfg o) type body -> bytes_ok (message type body) /\ Z.of_nat (length (message type body)) <= 0x4000.
Proof. intros (H1 & H2 & H3 & _). split; [by apply message_ok|exact H3]. Qed.

Lemma sealed_flight_shape flight : forall d cap d' records, Rec.dir_ok d ->
  Forall (fun m => bytes_ok (message m.1 m.2) /\ Z.of_nat (length (message m.1 m.2)) <= 0x4000) flight ->
  sealed_flight d flight cap = Some (d', records) -> bytes_ok (mjoin records) /\ (length flight <= length (mjoin records))%nat.
Proof.
  induction flight as [|[type body] flight IH]; intros d cap d' records Hd Hm Hs; unfold sealed_flight in Hs.
  { injection Hs as _ <-. split; [apply Forall_nil_2|apply Nat.le_0_l]. }
  apply Forall_cons in Hm as [[Hmb Hml] Hm]. cbn [fst snd] in Hmb, Hml. rewrite fmap_cons in Hs. cbn [Rec.seal_all fst snd] in Hs.
  destruct (Rec.rec_seal _ _ _ _) as [[d1 [rec|]]|] eqn:Es; cbn [mbind option_bind] in Hs; [|discriminate Hs|discriminate Hs].
  destruct (Rec.seal_all d1 _ cap) as [[d2 recs]|] eqn:Ea; cbn [mbind option_bind fst snd] in Hs; [|discriminate Hs]. injection Hs as _ <-.
  destruct (sealed_whole _ _ _ _ _ Hd Hmb Hml Es) as (-> & Hseq & (Hrb & Hrl & _) & _ & _).
  destruct (IH (Rec.next_seq d) cap d2 recs) as [IHb IHl]; [|exact Hm|exact Ea|].
  { destruct Hd as (H1 & H2 & H3 & H4 & H5). split_and!; try assumption. cbn. unfold u64_ok, UINT64_MAX in *. lia. }
  cbn [mjoin list_join length]. split; [by apply Forall_app_2|]. rewrite length_app. pose proof (body_range rec Hrb). unfold REC_HDR in Hrl. assert (H1 : (1 <= length rec)%nat) by lia. exact (Nat.add_le_mono 1 _ _ _ H1 IHl).
Qed.

Lemma flight_runs flight : forall o p p' r inp off fuel d' records cap, quiet p -> complete p' -> follows o p flight p' ->
  tracks o p r -> unread (r_t r) = [] -> sealed_flight (t_rd (r_t r)) flight cap = Some (d', records) -> bytes_ok inp ->
  drop off inp = mjoin records -> (off <= length inp)%nat -> Forall (fun m => message_fits (o_cfg o) m.1 m.2) flight -> (length flight <= fuel)%nat ->
  exists r', in_loop pin_ecdsa pin_verify fuel r inp off off = Some (r', CH_OK, length inp) /\ tracks o p' r' /\ t_state (r_t r') = CH_ST_START /\ owes o p' r'.
Proof.
  induction flight as [|[type body] flight IH]; intros o p p' r inp off fuel d' records cap Hq Hc Hfo Ht Hu Hs Hb Hd Hoff Hm Hfuel.
  { inversion Hfo; subst. by destruct p'. }
  inversion Hfo as [|? ? ? p1 ? ? Hacc Hfo1]; subst. apply Forall_cons in Hm as [Hm1 Hm]. cbn [fst snd] in Hm1.
  destruct fuel as [|fuel]; [cbn in Hfuel; lia|]. cbn [length] in Hfuel.
  unfold sealed_flight in Hs. rewrite fmap_cons in Hs. cbn [Rec.seal_all fst snd] in Hs.
  destruct (Rec.rec_seal _ _ _ _) as [[d1 [rec|]]|] eqn:Es; cbn [mbind option_bind] in Hs; [|discriminate Hs|discriminate Hs].
  destruct (Rec.seal_all d1 _ cap) as [[d2 recs]|] eqn:Ea; cbn [mbind option_bind fst snd] in Hs; [|discriminate Hs]. injection Hs as <- <-.
  pose proof (quiet_encrypted o p r Hq Ht) as He. pose proof (tracks_reads o p r Ht He) as Hdir.
  destruct (message_whole o type body Hm1) as [Hmb Hml].
  destruct (sealed_whole _ _ _ _ _ Hdir Hmb Hml Es) as (_ & _ & Hw & E0 & Eo).
  destruct (carries_sealed_iff r rec (message type body) d1 E0 He Eo) as [Hca Hun]. cbn [mjoin list_join] in Hd.
  destruct (in_loop_one fuel o p p1 r inp off rec (mjoin recs) type body d1 Hb Hd Hw Ht (quiet_staged o p r Hq Ht) Hu Hca Hun Hm1 Hacc) as (r1 & r2 & El & Hrd & Ht2 & Hu2 & Hreads).
  assert (Hlen : (length inp - off = length rec + length (mjoin recs))%nat) by (rewrite <- length_drop, Hd; apply length_app).
  rewrite El. destruct (quiet_accepts o p type body true p1 Hacc Hq) as [Hq1|Hc1].
  - rewrite (quiet_staged o p1 r2 Hq1 Ht2). cbn [Nat.eqb].
    assert (Hrd2 : t_rd (r_t r2) = d1).
    { rewrite <- Hrd. destruct p1; try done. destruct p; try done; inversion Hacc; by destruct (o_psk o). }
    eapply IH; [exact Hq1|exact Hc|exact Hfo1|exact Ht2|exact Hu2|unfold sealed_flight; rewrite Hrd2; exact Ea|exact Hb| |lia|exact Hm|lia].
    rewrite <- drop_drop, Hd. by rewrite drop_app_length.
  - destruct (complete_owes o p1 _ _ Hc1 Hreads) as [Hst Howe].
    pose proof (finished_staged o p1 r2 Hc1 Ht2 Hst) as Hne. apply Nat.eqb_neq in Hne. rewrite Hne.
    inversion Hfo1; subst; [|by destruct (complete_accepts _ _ _ _ _ _ H Hc1)]. cbn in Ea. injection Ea as <- <-. cbn [mjoin list_join length] in Hlen.
    exists r2. replace (off + length rec)%nat with (length inp) by lia. split; [reflexivity|]. split; [exact Ht2|]. split; [exact Hst|exact Howe].
Qed.

(** ** The session from end to end *)

Lemma handed_whole r cap : (0 < r_tx_len r)%nat -> r_tx_off r = 0%nat -> (r_tx_len r <= cap)%nat -> 
  tcp_out r cap = ((if connects r then put_t ((r_t r) <| t_state := CH_ST_CONNECTED |>) (handed r (r_tx_len r)) else handed r (r_tx_len r)),
    CH_OK, Some (take (r_tx_len r) (t_tx (r_t r)))).
Proof.
  intros Hl Ho Hc. unfold tcp_out, handed. rewrite Ho. destruct (Nat.eqb_spec (r_tx_len r) 0) as [|_]; [lia|]. rewrite andb_false_r.
  destruct (Nat.eqb_spec cap 0) as [|_]; [lia|]. rewrite Nat.sub_0_r. destruct (Nat.eqb_spec (r_tx_len r) 0) as [|_]; [lia|]. cbv zeta.
  assert (En : (if (r_tx_len r <? cap)%nat then r_tx_len r else cap) = r_tx_len r) by (destruct (Nat.ltb_spec (r_tx_len r) cap); lia). rewrite En, drop_0.
  unfold connects. fields. rewrite Nat.add_0_l, Nat.eqb_refl. fields. unfold r_t. fields. by destruct (_ && _).
Qed.

(** The hello leaves as it was staged, and the session waits for its answer. *)
Lemma hello_handed o r cap : started pin_ecdsa o r -> let m := hello_after pin_ecdsa o [] None in (length (plain_record m) <= cap)%nat ->
  exists r', tcp_out r cap = (r', CH_OK, Some (plain_record m)) /\ tracks o (Waiting false m) r' /\ unread (r_t r') = [] /\ r_tx_len r' = 0%nat.
Proof.
  intros (Ht & Hu & Hl & Ho & Htk) m Hc. fold m in Ht, Hl, Htk. assert (Hpos : (0 < r_tx_len r)%nat) by (rewrite Hl; unfold plain_record; rewrite length_app; cbn [length]; lia).
  pose proof (tcp_out_tracks o (Waiting false m) r cap Ht) as Ht'. revert Ht'. rewrite (handed_whole r cap) by (first [exact Hpos|exact Ho|rewrite Hl; exact Hc]). cbn [fst].
  assert (Hcn : connects r = false). { unfold connects. destruct Ht as (_ & -> & _). reflexivity. }
  rewrite Hcn. intros Ht'. exists (handed r (r_tx_len r)). split; [rewrite Hl, Htk; reflexivity|]. split; [exact Ht'|].
  unfold r_t. rewrite (proj1 (handed_hs r (r_tx_len r))). split; [exact Hu|]. unfold handed. rewrite Ho, Nat.add_0_l, Nat.eqb_refl. by fields.
Qed.

(** So does the client's Finished, and the session is connected. *)
Lemma finished_handed o a limit slot T r cap : let p := Complete a limit slot T in
  tracks o p r -> t_state (r_t r) = CH_ST_START -> owes o p r -> (r_tx_len r <= cap)%nat ->
  exists r' rec, tcp_out r cap = (r', CH_OK, Some rec) /\ tracks o p r' /\ t_state (r_t r') = CH_ST_CONNECTED /\
    Rec.rec_open (dir_of (c_hs o a) 0) rec (length rec) =
      Some (Rec.next_seq (dir_of (c_hs o a) 0), Some (REC_HANDSHAKE, client_finished (c_hs o a) (sha256_spec T))).
Proof.
  intros p Ht Hst (rec & Eo & Hl & Ho & Htk) Hc. pose proof (finished_staged o p r I Ht Hst) as Hne.
  pose proof (tcp_out_tracks o p r cap Ht) as Ht'. revert Ht'. rewrite (handed_whole r cap) by (first [lia|exact Ho|exact Hc]). cbn [fst].
  assert (Hcn : connects r = true). { unfold connects. rewrite Hst. destruct Ht as (_ & -> & _). reflexivity. }
  rewrite Hcn. intros Ht'. eexists _, rec. split; [rewrite Hl, Htk; reflexivity|]. rewrite Hl in Ht'. split; [exact Ht'|]. split; [reflexivity|]. exact Eo.
Qed.

(** The answer to the hello, in a record in the clear. *)
Section Answer.
Context (o : opening) (T : list Z) (r : ch_tcp) (body : list Z) (i : Hsp.server_hello_info)
  (Ht : tracks o (Waiting false T) r) (Hu : unread (r_t r) = []) (Htx : r_tx_len r = 0%nat)
  (Hm : message_fits (o_cfg o) HS_SERVER_HELLO body) (Hi : sh_accepts pin_ecdsa (o_psk o) HS_SERVER_HELLO body i)
  (Hh : Hsp.sh_hrr i = false) (Hus : hello_usable (o_psk o) i).

Lemma hello_plain : let rec := plain_record (message HS_SERVER_HELLO body) in
  whole_record rec /\ carries r rec (rec !!! 0%nat) (message HS_SERVER_HELLO body) (t_rd (r_t r)) /\
  forall pt' rd', carries r rec (rec !!! 0%nat) pt' rd' -> pt' = message HS_SERVER_HELLO body /\ rd' = t_rd (r_t r).
Proof.
  intros rec. destruct (message_whole o _ body Hm) as [Hmb Hml]. destruct (plain_whole _ Hmb Hml) as (Hw & E0 & Ed).
  pose proof Ht as (_ & _ & _ & He & _). pose proof (carries_plain_iff r rec E0 He) as Hca. fold rec in Ed. rewrite Ed in Hca. by split.
Qed.

Lemma handshake_runs ecdhe flight p' cap d' records :
  shared (o_priv o) i ecdhe -> let T' := T ++ message HS_SERVER_HELLO body in let a := Agreement ecdhe T' in
  follows o (Keyed a T') flight p' -> complete p' -> sealed_flight (dir_of (s_hs o a) 0) flight cap = Some (d', records) ->
  Forall (fun m => message_fits (o_cfg o) m.1 m.2) flight ->
  let inp := plain_record (message HS_SERVER_HELLO body) ++ mjoin records in
  exists r', tcp_in pin_ecdsa pin_verify r inp = Some (r', CH_OK, length inp) /\ tracks o p' r' /\ t_state (r_t r') = CH_ST_START /\ owes o p' r'.
Proof.
  intros Hs T' a Hfo Hc Hse Hfl inp. destruct (sealed_flight_shape flight (dir_of (s_hs o a) 0) cap d' records (dir_of_ok _ _ u64_zero)) as [Hrb Hlen]; [|exact Hse|].
  { eapply Forall_impl; [exact Hfl|]. intros m Hmf. exact (message_whole o m.1 m.2 Hmf). }
  destruct hello_plain as (Hw & Hca & Hun). set (rec := plain_record (message HS_SERVER_HELLO body)) in *.
  assert (Hb : bytes_ok inp) by (apply Forall_app_2; [apply Hw|exact Hrb]).
  pose proof (accept_server_hello pin_ecdsa pin_verify o false T HS_SERVER_HELLO body i ecdhe Hi Hh Hus Hs) as Hacc. cbv zeta in Hacc. fold T' a in Hacc.
  destruct (in_loop_one (length inp) o _ _ r inp 0 rec (mjoin records) _ body _ Hb (drop_0 inp) Hw Ht Htx Hu Hca Hun Hm Hacc) as (r1 & r2 & El & _ & Ht2 & Hu2 & Hrd).
  cbn [reads_as] in Hrd. rewrite (quiet_staged o (Keyed a T') r2 I Ht2) in El. cbn [Nat.eqb Nat.add] in El.
  assert (Hle : (t_state (r_t r) <=? CH_ST_FAILED) = true) by (pose proof Ht as (_ & _ & -> & _); reflexivity).
  unfold tcp_in. rewrite Hle, (tracks_not_dead o _ r Ht), Htx. cbn [negb Nat.eqb]. rewrite El.
  eapply (flight_runs flight o (Keyed a T')); [exact I|exact Hc|exact Hfo|exact Ht2|exact Hu2|rewrite Hrd; exact Hse|exact Hb| | |exact Hfl|].
  - apply drop_app_length.
  - subst inp. rewrite length_app. lia.
  - subst inp. rewrite length_app. lia.
Qed.

Lemma hello_refused : snd (X25519.x25519 (o_priv o) (Hsp.sh_server_pub i)) = false ->
  let inp := plain_record (message HS_SERVER_HELLO body) in
  exists r0 r' rc, tcp_in pin_ecdsa pin_verify r inp = Some (r', rc, length inp) /\ err_code rc /\ failed r0 r'.
Proof.
  intros Hx inp. destruct hello_plain as (Hw & Hca & Hun). fold inp in Hw, Hca, Hun.
  assert (Hno : forall p', ~ accepts pin_ecdsa pin_verify o (Waiting false T) HS_SERVER_HELLO body true p').
  { intros p' Hp. destruct (waiting_read _ _ _ _ _ _ _ _ _ i Hp Hi) as [[E _]|(_ & _ & _ & e & Hs)]; [rewrite Hh in E; discriminate E|].
    unfold shared in Hs. rewrite Hs in Hx. discriminate Hx. }
  assert (Hle : (t_state (r_t r) <=? CH_ST_FAILED) = true) by (pose proof Ht as (_ & _ & -> & _); reflexivity).
  unfold tcp_in. rewrite Hle, (tracks_not_dead o _ r Ht), Htx. cbn [negb Nat.eqb].
  eapply (in_loop_refused (length inp) o _ r inp 0 inp []); [apply Hw|rewrite app_nil_r; exact (drop_0 inp)|exact Hw|exact Ht|exact Htx|exact Hu|exact Hca|exact Hun|exact Hm|exact Hno].
Qed.
End Answer.
End Client.
End Live.
