(* ===== verification/TcpHandshake.v ===== *)
(** * The non-blocking client's handshake: what it promises

    Any sequence of the driver's calls, whatever the peer sends: nothing is
    asserted wrongly, the session is dead and wiped or where the handshake's
    messages led it, it is connected only to the peer it was configured for, a
    failure is final, and an honest flight connects it. *)

From S2P Require Import Prelude Ct MdHash Sha256 X25519 Reader Build Wire Hkdf Keysched HsParser HsParserEe.
From S2P Require Import HsMessage Aead Record Cmd ClientCfg HsRecord HsFlight TcpClient TcpProto TcpSession TcpLive.
Import Sha256 Hkdf Keysched HsRecord Cfg HsFlight Tcp Proto Session Live.
Local Open Scope Z_scope.
Local Open Scope word_scope.

Module Handshake.

(** ** Calls *)

Inductive call := CallIn (p : list Z) | CallOut (cap : nat) | CallClose.
Definition call_ok (c : call) : Prop := match c with CallIn p => bytes_ok p | _ => True end.

Section Client.
Context {aead : AeadOps} {laws : AeadLaws aead} (pin_ecdsa : bool) (pin_verify : list Z -> list Z -> list Z -> bool).
#[local] Instance build : HsBuild := client_build pin_ecdsa.

#[local] Opaque hmac_of expand_label_spec sha256_spec X25519.x25519 X25519.x25519_base transcript_update transcript_init transcript_hash_after
  absorbed dir_of hs_secret c_hs_secret s_hs_secret app_secret finished_mac zero_bytes store_bytes.

(** The session after a call, [None] where the code would assert. *)
Definition run_call (r : ch_tcp) (c : call) : option ch_tcp :=
  match c with
  | CallIn p => x ← tcp_in pin_ecdsa pin_verify r p; Some x.1.1
  | CallOut cap => Some (tcp_out r cap).1.1
  | CallClose => Some (tcp_close r)
  end.
Fixpoint run_calls (r : ch_tcp) (cs : list call) : option ch_tcp :=
  match cs with [] => Some r | c :: cs => r ← run_call r c; run_calls r cs end.
(** A session from its start. *)
Definition run_session (cfg : client_cfg) (draw_priv draw_random : list Z) (cs : list call) : option ch_tcp :=
  x ← tcp_init pin_ecdsa cfg draw_priv draw_random; run_calls x.1 cs.

(** The first record of a session: its hello, in the clear. *)
Definition hello_record (o : opening) : list Z := plain_record (hello_after pin_ecdsa o [] None).
(** The machine's step on a message at the end of its record, taken by the session. *)
Definition goes_on (o : opening) (p : proto) (type : Z) (body : list Z) (r : ch_tcp) : Prop :=
  exists p', accepts pin_ecdsa pin_verify o p type body true p' /\ tracks o p' r /\ unread (r_t r) = [].
Definition connected (r : ch_tcp) : Prop := t_state (r_t r) = CH_ST_CONNECTED.

(** What a session may be: over, or where its messages led the machine. *)
Definition session_inv (cfg : client_cfg) (draw_priv draw_random : list Z) (r : ch_tcp) : Prop :=
  dead r \/ exists session msgs p, configured pin_ecdsa cfg session /\
    reached pin_ecdsa pin_verify (opening_of session draw_priv draw_random) msgs p /\ tracks (opening_of session draw_priv draw_random) p r.

(** ** Lemmas *)

Lemma run_call_inv o r c : call_ok c -> inv pin_ecdsa pin_verify o r -> exists r', run_call r c = Some r' /\ inv pin_ecdsa pin_verify o r'.
Proof.
  intros Hc Hi. destruct c as [p|cap|]; cbn [run_call].
  - destruct (tcp_in_inv pin_ecdsa pin_verify o r p Hc Hi) as (r' & rc & n & -> & Hi' & _). exists r'. split; [reflexivity|exact Hi'].
  - exists (tcp_out r cap).1.1. split; [reflexivity|]. exact (tcp_out_inv pin_ecdsa pin_verify o r cap Hi).
  - exists (tcp_close r). split; [reflexivity|]. left. exact (proj1 (tcp_close_dead r)).
Qed.

Lemma run_calls_inv o cs : forall r, Forall call_ok cs -> inv pin_ecdsa pin_verify o r -> exists r', run_calls r cs = Some r' /\ inv pin_ecdsa pin_verify o r'.
Proof.
  induction cs as [|c cs IH]; intros r Hc Hi; cbn [run_calls]; [by exists r|].
  apply Forall_cons in Hc as [Hc Hcs]. destruct (run_call_inv o r c Hc Hi) as (r1 & -> & Hi1). cbn [mbind option_bind]. exact (IH r1 Hcs Hi1).
Qed.

Lemma tcp_in_dead r p : dead r -> tcp_in pin_ecdsa pin_verify r p = Some (r, CH_EPROTO, 0%nat).
Proof. intros Hd. unfold tcp_in. rewrite (dead_is_dead r Hd). by destruct Hd as ([-> | ->] & _). Qed.

Lemma run_calls_dead cs : forall r, Forall call_ok cs -> dead r -> exists r', run_calls r cs = Some r' /\ dead r'.
Proof.
  induction cs as [|c cs IH]; intros r Hc Hd; cbn [run_calls]; [by exists r|]. apply Forall_cons in Hc as [Hc Hcs].
  assert (exists r1, run_call r c = Some r1 /\ dead r1) as (r1 & -> & Hd1); [|cbn [mbind option_bind]; exact (IH r1 Hcs Hd1)].
  destruct c as [p|cap|]; cbn [run_call].
  - exists r. rewrite (tcp_in_dead r p Hd). by split.
  - exists (tcp_out r cap).1.1. split; [reflexivity|]. by apply tcp_out_dead.
  - exists (tcp_close r). split; [reflexivity|]. exact (proj1 (tcp_close_dead r)).
Qed.

Lemma started_inv o r : started pin_ecdsa o r -> inv pin_ecdsa pin_verify o r.
Proof. intros (Ht & _). right. exists [], (Waiting false (hello_after pin_ecdsa o [] None)). split; [constructor|exact Ht]. Qed.

Lemma run_session_inv cfg draw_priv draw_random cs : memory_ok cfg -> drawn draw_priv = true -> drawn draw_random = true -> length draw_random = 32%nat ->
  Forall call_ok cs -> exists r, run_session cfg draw_priv draw_random cs = Some r /\ session_inv cfg draw_priv draw_random r.
Proof.
  intros Hm H1 H2 H3 Hcs. unfold run_session. destruct (tcp_init_spec pin_ecdsa cfg draw_priv draw_random Hm H1 H2 H3) as (r0 & rc & -> & Hx).
  cbn [mbind option_bind fst]. destruct Hx as [(session & Hcf & _ & Hst)|[_ Hrefused]].
  - destruct (run_calls_inv _ cs r0 Hcs (started_inv _ r0 Hst)) as (r & E & Hi). exists r. split; [exact E|].
    destruct Hi as [Hd|(msgs & p & Hr & Ht)]; [by left|right; by exists session, msgs, p].
  - assert (Hd : dead r0) by (change r0 with (r0, rc).1; rewrite Hrefused; exact (proj1 refused_init_dead)).
    destruct (run_calls_dead cs r0 Hcs Hd) as (r & E & Hd'). exists r. split; [exact E|]. by left.
Qed.

(** ** What the machine's states hold *)

(** The transcript before the server's answer: one hello, or the two around a
    retry. *)
Definition asked (o : opening) (T : list Z) : Prop :=
  T = hello_after pin_ecdsa o [] None \/
  exists retry cookie, let prefix := retry_prefix (hello_after pin_ecdsa o [] None) retry in T = prefix ++ hello_after pin_ecdsa o prefix (Some cookie).
(** The ServerHello's share agrees the secret with the key drawn. *)
Definition agreed_on (o : opening) (a : agreement) : Prop :=
  exists T body i, asked o T /\ a_hello a = T ++ message HS_SERVER_HELLO body /\
    sh_accepts pin_ecdsa (o_psk o) HS_SERVER_HELLO body i /\ hello_usable (o_psk o) i /\ shared (o_priv o) i (a_ecdhe a).
(** The peer holds the PSK, or a configured pin verified its signature over the
    transcript. *)
Definition vouched (o : opening) (slot : option Z) (T : list Z) : Prop :=
  match slot with
  | None => o_psk o = true
  | Some slot => o_psk o = false /\ exists Tc body, T = Tc ++ message HS_CERTIFICATE_VERIFY body /\
      verify_accepts pin_ecdsa pin_verify (o_cfg o) (sha256_spec Tc) HS_CERTIFICATE_VERIFY body slot
  end.
Definition facts (o : opening) (p : proto) : Prop :=
  match p with
  | Waiting false T => T = hello_after pin_ecdsa o [] None
  | Waiting true T => asked o T
  | Keyed a T => agreed_on o a /\ a_hello a `prefix_of` T
  | Extended a _ T | Certified a _ T => agreed_on o a /\ a_hello a `prefix_of` T /\ o_psk o = false
  | Authenticated a _ slot T => agreed_on o a /\ a_hello a `prefix_of` T /\ vouched o slot T
  | Complete a _ slot T => agreed_on o a /\ exists Tv, a_hello a `prefix_of` Tv /\ vouched o slot Tv /\
      T = Tv ++ message HS_FINISHED (finished_mac (s_hs o a) (sha256_spec Tv))
  end.

Lemma waiting_asked o b T : facts o (Waiting b T) -> asked o T.
Proof. destruct b; [exact id|]. intros ->. by left. Qed.

Lemma reached_facts o msgs p : reached pin_ecdsa pin_verify o msgs p -> facts o p.
Proof.
  induction 1 as [|msgs p type body last p' _ IH Hacc]; [reflexivity|].
  destruct Hacc as [T type body last i cookie Hi Hh Hc prefix|b T type body i ecdhe Hi Hh Hu Hs T'|a T type body last limit Hl T'|a limit T type body last Hc|a limit T type body last slot Hv|a limit slot T type body Hf].
  - cbn [facts] in *. subst T. right. exists (message type body), cookie. reflexivity.
  - assert (type = HS_SERVER_HELLO) as -> by apply Hi. split; [|reflexivity].
    exists T, body, i. split; [exact (waiting_asked o b T IH)|]. split; [reflexivity|]. split; [exact Hi|]. split; [exact Hu|exact Hs].
  - destruct IH as [Ha Hp]. destruct (o_psk o) eqn:Ep; cbn [facts].
    + split; [exact Ha|]. split; [by apply prefix_app_r|exact Ep].
    + split; [exact Ha|]. split; [by apply prefix_app_r|exact Ep].
  - destruct IH as (Ha & Hp & Hn). split; [exact Ha|]. split; [by apply prefix_app_r|exact Hn].
  - destruct IH as (Ha & Hp & Hn). assert (type = HS_CERTIFICATE_VERIFY) as -> by apply Hv. split; [exact Ha|]. split; [by apply prefix_app_r|].
    split; [exact Hn|]. exists T, body. split; [reflexivity|exact Hv].
  - destruct IH as (Ha & Hp & Hv), Hf as [-> ->]. split; [exact Ha|]. exists T. split; [exact Hp|]. split; [exact Hv|reflexivity].
Qed.

(** ** Lemmas: one call *)

Lemma dead_silent r : dead r -> r_tx_len r = 0%nat -> forall cap, tcp_out r cap = (r, CH_EINVAL, None).
Proof. intros Hd Htx cap. unfold tcp_out. by rewrite (dead_is_dead r Hd), Htx. Qed.

Lemma configured_functional cfg s1 s2 : configured pin_ecdsa cfg s1 -> configured pin_ecdsa cfg s2 -> s1 = s2.
Proof. intros [H1 _] [H2 _]. rewrite H1 in H2. by injection H2. Qed.

Lemma carries_functional r rec outer pt1 rd1 pt2 rd2 : carries r rec outer pt1 rd1 -> carries r rec outer pt2 rd2 -> pt1 = pt2 /\ rd1 = rd2.
Proof.
  intros [H1|H1 E1|pt1' rd1' N1 A1 E1 O1] [H2|H2 E2|pt2' rd2' N2 A2 E2 O2].
  - by split.
  - rewrite H1 in H2. discriminate H2.
  - by destruct N2.
  - rewrite H1 in H2. discriminate H2.
  - by split.
  - rewrite E1 in E2. discriminate E2.
  - by destruct N1.
  - rewrite E1 in E2. discriminate E2.
  - rewrite O1 in O2. injection O2 as -> ->. by split.
Qed.

Lemma in_loop_end fuel r inp n : (length inp - n < 5)%nat -> in_loop pin_ecdsa pin_verify (S fuel) r inp n n = Some (r, CH_OK, n).
Proof. intros H. cbn [in_loop]. unfold REC_HDR. by destruct (Nat.ltb_spec (length inp - n) 5); [|lia]. Qed.

Lemma whole_record_length rec : whole_record rec -> exists n, length rec = S n.
Proof. intros (Hb & Hl & _). pose proof (body_range rec Hb). unfold REC_HDR in Hl. destruct (length rec) as [|n]; [lia|by exists n]. Qed.

Lemma tcp_in_tracked o p r inp : tracks o p r -> r_tx_len r = 0%nat ->
  tcp_in pin_ecdsa pin_verify r inp = in_loop pin_ecdsa pin_verify (S (length inp)) r inp 0 0.
Proof.
  intros Ht Htx. unfold tcp_in. rewrite (tracks_not_dead o p r Ht), Htx.
  assert (Hle : (t_state (r_t r) <=? CH_ST_FAILED) = true) by (by destruct (tracks_state o p r Ht) as [-> | [-> _]]). by rewrite Hle.
Qed.

Lemma whole_drop (rec : list Z) : drop 0 rec = rec ++ [].
Proof. rewrite app_nil_r. exact (drop_0 rec). Qed.

(** One message in a record of its own. *)
Lemma accepts_or_not o p r type body : tracks o p r -> r_tx_len r = 0%nat -> unread (r_t r) = message type body ->
  byte_ok type -> bytes_ok body -> Z.of_nat (length body) <= 0x4000 ->
  (exists p', accepts pin_ecdsa pin_verify o p type body true p') \/ forall p', ~ accepts pin_ecdsa pin_verify o p type body true p'.
Proof.
  intros Ht Htx Hu Hty Hb Hl. destruct (tracks_live o p r Ht) as (T & _ & _ & Hr & _).
  assert (Hf : front (r_t r) type body []) by (split_and!; try assumption; by rewrite app_nil_r).
  pose proof (advance_wp pin_ecdsa pin_verify o p type body [] r Ht Htx Hf) as Hw. apply wp_answer in Hw as (r1 & x & _ & Hx).
  destruct x as [[]|rc]; [left|right].
  - destruct Hx as (p' & Ha & _). exists p'. exact Ha.
  - exact (proj1 Hx).
Qed.

Lemma tcp_in_message o p r rec type body rd : tracks o p r -> r_tx_len r = 0%nat -> unread (r_t r) = [] -> whole_record rec ->
  carries r rec (rec !!! 0%nat) (message type body) rd -> message_fits (o_cfg o) type body ->
  (exists p' r', accepts pin_ecdsa pin_verify o p type body true p' /\ tcp_in pin_ecdsa pin_verify r rec = Some (r', CH_OK, length rec) /\
     tracks o p' r' /\ unread (r_t r') = []) \/
  (exists r0 r' rc, (forall p', ~ accepts pin_ecdsa pin_verify o p type body true p') /\
     tcp_in pin_ecdsa pin_verify r rec = Some (r', rc, length rec) /\ err_code rc /\ failed r0 r').
Proof.
  intros Ht Htx Hu Hw Hc Hm. assert (Hun : forall pt' rd', carries r rec (rec !!! 0%nat) pt' rd' -> pt' = message type body /\ rd' = rd).
  { intros pt' rd' Hc'. exact (carries_functional _ _ _ _ _ _ _ Hc' Hc). }
  rewrite (tcp_in_tracked o p r rec Ht Htx). pose proof Hm as (Hty & Hbb & Hms & Hmb). rewrite length_message in Hms.
  destruct (in_loop_record pin_ecdsa pin_verify (length rec) o p r rec 0 rec [] _ rd (proj1 Hw) (whole_drop rec) Hw Ht Htx Hu Hc Hun Hmb) as (r1 & _ & Ht1 & Hu1 & Htx1 & _).
  destruct (accepts_or_not o p r1 type body Ht1 Htx1 Hu1 Hty Hbb ltac:(lia)) as [(p' & Ha)|Hno]; [left|right].
  - destruct (in_loop_one pin_ecdsa pin_verify (length rec) o p p' r rec 0 rec [] type body rd (proj1 Hw) (whole_drop rec) Hw Ht Htx Hu Hc Hun Hm Ha) as (r2 & r' & El & _ & Ht' & Hu' & _).
    exists p', r'. split; [exact Ha|]. split; [|by split]. rewrite El. destruct (r_tx_len r' =? 0)%nat; [|reflexivity].
    destruct (whole_record_length rec Hw) as (n & Hn). rewrite Nat.add_0_l. rewrite Hn at 1. apply in_loop_end. lia.
  - destruct (in_loop_refused pin_ecdsa pin_verify (length rec) o p r rec 0 rec [] type body rd (proj1 Hw) (whole_drop rec) Hw Ht Htx Hu Hc Hun Hm Hno) as (r0 & r' & rc & El & He & Hf).
    exists r0, r', rc. split; [exact Hno|]. split; [exact El|by split].
Qed.

(** A call that reads nothing: the session is over, or still owes bytes. *)
Definition turned_away (r : ch_tcp) (rc : Z) : Prop := dead r /\ rc = CH_EPROTO \/ r_tx_len r <> 0%nat /\ rc = CH_EINVAL.

Lemma tcp_in_cases r inp cfg draw_priv draw_random : bytes_ok inp -> session_inv cfg draw_priv draw_random r ->
  exists r' rc n, tcp_in pin_ecdsa pin_verify r inp = Some (r', rc, n) /\ (n <= length inp)%nat /\
    (rc = CH_OK \/ r' = r /\ n = 0%nat /\ turned_away r rc \/
     err_code rc /\ exists session msgs p, configured pin_ecdsa cfg session /\ let o := opening_of session draw_priv draw_random in
       reached pin_ecdsa pin_verify o msgs p /\ tracks o p r /\ failed_at pin_ecdsa pin_verify o msgs p r (take n inp) (drop n inp) rc r').
Proof.
  intros Hb [Hd|(session & msgs & p & Hcf & Hm & Ht)].
  - exists r, CH_EPROTO, 0%nat. split; [exact (tcp_in_dead r inp Hd)|]. split; [apply Nat.le_0_l|]. right. left. split; [reflexivity|]. split; [reflexivity|]. left. by split.
  - destruct (Nat.eq_dec (r_tx_len r) 0%nat) as [Htx|Htx].
    + destruct (tcp_in_spec pin_ecdsa pin_verify _ msgs p r inp Hb Hm Ht Htx) as ([[r' rc] n] & E & [_ Hn] & Hx). exists r', rc, n. split; [exact E|]. split; [exact Hn|].
      rewrite Nat.sub_0_r, drop_0 in Hx. destruct Hx as [[Hok _]|[Hrc Hf]]; [by left|right; right]. split; [exact Hrc|]. exists session, msgs, p. by split_and!.
    + exists r, CH_EINVAL, 0%nat. split; [|split; [apply Nat.le_0_l|right; left; split; [reflexivity|split; [reflexivity|right; by split]]]]. unfold tcp_in. rewrite (tracks_not_dead _ p r Ht).
      assert (Hle : (t_state (r_t r) <=? CH_ST_FAILED) = true) by (by destruct (tracks_state _ p r Ht) as [-> | [-> _]]).
      apply Nat.eqb_neq in Htx. by rewrite Hle, Htx.
Qed.

(** A record staged on a session that is over goes out once. *)
Definition goes_out_once (r : ch_tcp) (rec : list Z) : Prop :=
  if decide (rec = []) then forall cap, tcp_out r cap = (r, CH_EINVAL, None)
  else forall cap, (length rec <= cap)%nat ->
    exists r', tcp_out r cap = (r', CH_OK, Some rec) /\ dead r' /\ forall cap, tcp_out r' cap = (r', CH_EINVAL, None).

Lemma staged_goes_out r rec : dead r -> t_state (r_t r) = CH_ST_FAILED -> r_tx_len r = length rec -> r_tx_off r = 0%nat ->
  t_tx (r_t r) = rec ++ zero_bytes (REC_HDR + CH_TX_STAGE - length rec) -> goes_out_once r rec.
Proof.
  intros Hd Hst Hl Ho Htx. unfold goes_out_once. case_decide as Er.
  - apply dead_silent; [exact Hd|]. rewrite Hl, Er. reflexivity.
  - intros cap Hcap. assert (Hpos : (0 < length rec)%nat) by (destruct rec; [by destruct Er|cbn; lia]).
    pose proof (tcp_out_dead r cap Hd) as Hd'. revert Hd'. rewrite (handed_whole r cap) by (first [exact Ho|rewrite Hl; assumption]). cbn [fst].
    assert (Hc : connects r = false) by (unfold connects; rewrite Hst; apply andb_false_r). rewrite Hc, Hl, Htx, take_app_length. intros Hd'.
    eexists. split; [reflexivity|]. split; [exact Hd'|]. apply dead_silent; [exact Hd'|]. unfold handed. rewrite Ho, Hl, Nat.add_0_l, Nat.eqb_refl. by fields.
Qed.

(** ** Properties *)

(** C2. Memory and session safety of the non-blocking client.  From [tcp_init] on,
    any sequence of [tcp_in], [tcp_out] and [tcp_close], with any bytes from the
    peer and any capacities, fails no assertion, ends every loop, and leaves the
    session either over, with every secret it held zeroed, or in the state the
    handshake's machine reaches on the messages taken so far, with its transcript,
    keys, buffers and staged bytes as that state says. *)
Theorem calls_keep_session (cfg : client_cfg) (draw_priv draw_random : list Z) (cs : list call)
    (Hcfg : memory_ok cfg) (Hpriv : drawn draw_priv = true) (Hrandom : drawn draw_random = true) (Hlen : length draw_random = 32%nat)
    (Hcs : Forall call_ok cs) :
  exists r, run_session cfg draw_priv draw_random cs = Some r /\ session_inv cfg draw_priv draw_random r.
Proof. exact (run_session_inv cfg draw_priv draw_random cs Hcfg Hpriv Hrandom Hlen Hcs). Qed.

(** C1. A connected session has authenticated its peer.  Whatever calls are made
    and whatever the peer sends, a session that reports CH_ST_CONNECTED agreed a
    secret by X25519 between the key it drew and the share of a ServerHello that
    answers its own hello; its peer holds the configured PSK, or signed the
    transcript through the Certificate with a key a configured pin accepts; the
    transcript it verified ends in the Finished only that secret computes; its
    traffic and resumption secrets are the key schedule's over that transcript; and
    the handshake's secrets are wiped. *)
Theorem connected_is_authenticated (cfg : client_cfg) (draw_priv draw_random : list Z) (cs : list call)
    (Hcfg : memory_ok cfg) (Hpriv : drawn draw_priv = true) (Hrandom : drawn draw_random = true) (Hlen : length draw_random = 32%nat)
    (Hcs : Forall call_ok cs) :
  exists r, run_session cfg draw_priv draw_random cs = Some r /\ let t := r_t r in
    (connected r ->
     exists session a slot Tv, configured pin_ecdsa cfg session /\ let o := opening_of session draw_priv draw_random in
       agreed_on o a /\ a_hello a `prefix_of` Tv /\ vouched o slot Tv /\ slot_ok r slot /\
       let T := Tv ++ message HS_FINISHED (finished_mac (s_hs o a) (sha256_spec Tv)) in
       t_wr_secret t = app_secret session (a_ecdhe a) "c ap traffic" (sha256_spec T) /\
       t_rd_secret t = app_secret session (a_ecdhe a) "s ap traffic" (sha256_spec T) /\
       t_res_master t = app_secret session (a_ecdhe a) "res master" (sha256_spec (T ++ client_finished (c_hs o a) (sha256_spec T))) /\
       t_psk_selected t = o_psk o /\ r_hs r = wiped_hs t).
Proof.
  destruct (run_session_inv cfg draw_priv draw_random cs Hcfg Hpriv Hrandom Hlen Hcs) as (r & E & Hi).
  exists r. split; [exact E|]. intros t Hst. unfold connected in Hst. fold t in Hst. destruct Hi as [([Hd|Hd] & _)|(session & msgs & p & Hc & Hr & Ht)].
  { unfold t in Hst. rewrite Hd in Hst. discriminate Hst. }
  { unfold t in Hst. rewrite Hd in Hst. discriminate Hst. }
  destruct (tracks_state _ p r Ht) as [Hs|[_ (a & limit & slot & T & ->)]].
  { unfold t in Hst. rewrite Hs in Hst. discriminate Hst. }
  destruct (reached_facts _ _ _ Hr) as (Ha & Tv & Hp & Hv & ->). destruct Ht as ((_ & Hw & _ & H1 & H2 & _ & _ & H3 & H4 & _) & _ & _ & Hsl).
  exists session, a, slot, Tv. split; [exact Hc|]. split; [exact Ha|]. split; [exact Hp|]. split; [exact Hv|]. split; [exact Hsl|].
  split; [exact H1|]. split; [exact H2|]. split; [exact H3|]. split; [exact H4|exact Hw].
Qed.

(** C27. [tcp_init] takes exactly the configurations its checks name, after a ticket
    to resume is put in place of the PSK.  A session it takes waits for the server,
    and [tcp_out] hands over one record in the clear whose body is the ClientHello
    of that configuration, key and random; one it refuses is zeroed and failed, with
    nothing staged. *)
Theorem tcp_init_exact (cfg : client_cfg) (draw_priv draw_random : list Z)
    (Hcfg : memory_ok cfg) (Hpriv : drawn draw_priv = true) (Hrandom : drawn draw_random = true) (Hlen : length draw_random = 32%nat) :
  exists r rc, tcp_init pin_ecdsa cfg draw_priv draw_random = Some (r, rc) /\
    ((exists session, configured pin_ecdsa cfg session /\ rc = CH_OK /\
        let o := opening_of session draw_priv draw_random in
        forall cap, (length (hello_record o) <= cap)%nat ->
        exists r', tcp_out r cap = (r', CH_OK, Some (hello_record o)) /\ tracks o (Waiting false (hello_after pin_ecdsa o [] None)) r') \/
     (forall session, ~ configured pin_ecdsa cfg session) /\ rc = CH_EINVAL /\ dead r /\ t_state (r_t r) = CH_ST_FAILED /\
       forall cap, tcp_out r cap = (r, CH_EINVAL, None)).
Proof.
  destruct (tcp_init_spec pin_ecdsa cfg draw_priv draw_random Hcfg Hpriv Hrandom Hlen) as (r & rc & E & Hx). exists r, rc. split; [exact E|].
  destruct Hx as [(session & Hc & Hrc & Hst)|[Hno Hr]]; [left|right].
  - exists session. split; [exact Hc|]. split; [exact Hrc|]. intros o cap Hcap.
    destruct (hello_handed pin_ecdsa o r cap Hst Hcap) as (r' & Eo & Ht & _). exists r'. split; [exact Eo|exact Ht].
  - split; [exact Hno|]. destruct refused_init_dead as (Hd & Hs & Htx). injection Hr as -> ->. split; [reflexivity|]. split; [exact Hd|]. split; [exact Hs|].
    intros cap. apply dead_silent; [exact Hd|exact Htx].
Qed.

(** C4. The driver follows the machine exactly.  A session in a state of the machine
    that owes nothing and holds no bytes, given a whole record whose handshake bytes
    are one message, goes on if and only if the machine accepts that message there,
    and then to the machine's next state; otherwise the call returns an error and
    the session has failed.  Either way the record is consumed. *)
Theorem record_step_exact (o : opening) (p : proto) (r : ch_tcp) (rec : list Z) (type : Z) (body : list Z) (rd : rec_dir)
    (Ht : tracks o p r) (Htx : r_tx_len r = 0%nat) (Hu : unread (r_t r) = []) (Hw : whole_record rec)
    (Hc : carries r rec (rec !!! 0%nat) (message type body) rd) (Hm : message_fits (o_cfg o) type body) :
  exists r' rc, tcp_in pin_ecdsa pin_verify r rec = Some (r', rc, length rec) /\
    (rc = CH_OK /\ goes_on o p type body r' \/
     err_code rc /\ (forall p', ~ accepts pin_ecdsa pin_verify o p type body true p') /\ exists r0, failed r0 r').
Proof.
  destruct (tcp_in_message o p r rec type body rd Ht Htx Hu Hw Hc Hm) as [(p' & r' & Ha & E & Ht' & Hu')|(r0 & r' & rc & Hno & E & He & Hf)].
  - exists r', CH_OK. split; [exact E|]. left. split; [reflexivity|]. exists p'. by split_and!.
  - exists r', rc. split; [exact E|]. right. split; [exact He|]. split; [exact Hno|]. by exists r0.
Qed.

(** C3. An honest server's flight connects the client.  [tcp_init] accepts the
    configuration and [tcp_out] hands over the hello.  A usable ServerHello whose
    share gives an all-zero secret ends the session.  With any other share, let the
    server seal the messages the machine accepts up to its Finished, each in a record
    of its own under its handshake traffic secret; then one [tcp_in] of all of it
    consumes every byte, and one [tcp_out] hands over the client's Finished, in a
    record the server opens under the client's handshake traffic secret, and the
    session reports CH_ST_CONNECTED. *)
Theorem honest_flight_connects (cfg session : client_cfg) (draw_priv draw_random : list Z) (hello : list Z) (i : Hsp.server_hello_info)
    (Hcfg : memory_ok cfg) (Hpriv : drawn draw_priv = true) (Hrandom : drawn draw_random = true) (Hlen : length draw_random = 32%nat)
    (Hconf : configured pin_ecdsa cfg session) (Hm : message_fits session HS_SERVER_HELLO hello)
    (Hi : sh_accepts pin_ecdsa (is_set (psk session)) HS_SERVER_HELLO hello i) (Hh : Hsp.sh_hrr i = false)
    (Hus : hello_usable (is_set (psk session)) i) :
  let o := opening_of session draw_priv draw_random in
  let m := hello_after pin_ecdsa o [] None in
  let T := m ++ message HS_SERVER_HELLO hello in
  let answer := plain_record (message HS_SERVER_HELLO hello) in
  exists r0 r1, tcp_init pin_ecdsa cfg draw_priv draw_random = Some (r0, CH_OK) /\
    tcp_out r0 (length (hello_record o)) = (r1, CH_OK, Some (hello_record o)) /\
    match X25519.x25519 draw_priv (Hsp.sh_server_pub i) with
    | (_, false) => exists r rc, tcp_in pin_ecdsa pin_verify r1 answer = Some (r, rc, length answer) /\ err_code rc /\ dead r
    | (ecdhe, true) => let a := Agreement ecdhe T in
        forall flight limit slot T' records d cap, follows pin_ecdsa pin_verify o (Keyed a T) flight (Complete a limit slot T') ->
        Forall (fun m => message_fits session m.1 m.2) flight -> sealed_flight (dir_of (s_hs o a) 0) flight cap = Some (d, records) ->
        let inp := answer ++ mjoin records in
        exists r2 r3 finished, tcp_in pin_ecdsa pin_verify r1 inp = Some (r2, CH_OK, length inp) /\
          tcp_out r2 (r_tx_len r2) = (r3, CH_OK, Some finished) /\ connected r3 /\
          Rec.rec_open (dir_of (c_hs o a) 0) finished (length finished) =
            Some (Rec.next_seq (dir_of (c_hs o a) 0), Some (REC_HANDSHAKE, client_finished (c_hs o a) (sha256_spec T')))
    end.
Proof.
  intros o m T answer. destruct (tcp_init_spec pin_ecdsa cfg draw_priv draw_random Hcfg Hpriv Hrandom Hlen) as (r0 & rc & E & Hx).
  destruct Hx as [(session' & Hc & -> & Hst)|[Hno _]]; [|by destruct (Hno session)].
  rewrite (configured_functional _ _ _ Hc Hconf) in Hst. fold o in Hst.
  destruct (hello_handed pin_ecdsa o r0 (length (plain_record m)) Hst (le_n _)) as (r1 & Eo & Ht & Hu & Htx). fold m in Ht, Eo.
  exists r0, r1. split; [exact E|]. split; [exact Eo|].
  destruct (X25519.x25519 draw_priv (Hsp.sh_server_pub i)) as [ecdhe [|]] eqn:Ex.
  - intros a flight limit slot T' records d cap Hfo Hfl Hse inp.
    destruct (handshake_runs pin_ecdsa pin_verify o m r1 hello i Ht Hu Htx Hm Hi Hh Hus ecdhe flight _ cap d records Ex Hfo I Hse Hfl) as (r2 & Ei & Ht2 & Hs2 & Ho2).
    destruct (finished_handed o a limit slot T' r2 (r_tx_len r2) Ht2 Hs2 Ho2 (le_n _)) as (r3 & fin & Eo3 & _ & Hs3 & Hop).
    exists r2, r3, fin. split; [exact Ei|]. split; [exact Eo3|]. split; [exact Hs3|exact Hop].
  - assert (Hx : snd (X25519.x25519 (o_priv o) (Hsp.sh_server_pub i)) = false) by (change (o_priv o) with draw_priv; rewrite Ex; reflexivity).
    destruct (hello_refused pin_ecdsa pin_verify o m r1 hello i Ht Hu Htx Hm Hi Hh Hx) as (r2 & r & rc & Ei & He & Hf).
    exists r, rc. split; [exact Ei|]. split; [exact He|exact (failed_dead r2 r Hf)].
Qed.

(** C5. A failed call ends the session with its own alert, and is final.  After any
    calls, [tcp_in] consumes no more than it was given, and either succeeds, or
    reads nothing because the session is over or still owes bytes, or fails.  It
    fails only for an offence, at the session and the state of the machine the
    consumed bytes led to, record by record and message by message: a record header
    that names too much, the record at the first byte not consumed, or the message
    at the front of the queue, each with its error code.  Then every secret is
    zeroed, and the alert of that offence is what is recorded as sent and staged,
    in the clear before keys and otherwise in a record that opens under the send
    direction of that very state; nothing is staged after a fatal alert of the
    peer's.  From then on every [tcp_in] answers CH_EPROTO and changes nothing,
    [tcp_out] hands the staged record over once, and after it answers CH_EINVAL. *)
Theorem failure_is_final (cfg : client_cfg) (draw_priv draw_random : list Z) (cs : list call) (inp : list Z)
    (Hcfg : memory_ok cfg) (Hpriv : drawn draw_priv = true) (Hrandom : drawn draw_random = true) (Hlen : length draw_random = 32%nat)
    (Hcs : Forall call_ok cs) (Hinp : bytes_ok inp) :
  exists r r' rc n, run_session cfg draw_priv draw_random cs = Some r /\ tcp_in pin_ecdsa pin_verify r inp = Some (r', rc, n) /\ (n <= length inp)%nat /\
    (rc = CH_OK \/ r' = r /\ n = 0%nat /\ turned_away r rc \/
     err_code rc /\ exists session msgs new p p0 r0 alert rec, configured pin_ecdsa cfg session /\ let o := opening_of session draw_priv draw_random in
       reached pin_ecdsa pin_verify o msgs p /\ tracks o p r /\ led pin_ecdsa pin_verify o p r (take n inp) new p0 r0 /\
       reached pin_ecdsa pin_verify o (msgs ++ new) p0 /\ tracks o p0 r0 /\ offence pin_ecdsa pin_verify o p0 r0 (drop n inp) rc alert /\
       dead r' /\ t_state (r_t r') = CH_ST_FAILED /\ t_alert_sent (r_t r') = alert /\ alert_under (alert_key o p0) alert rec /\
       (forall more, tcp_in pin_ecdsa pin_verify r' more = Some (r', CH_EPROTO, 0%nat)) /\ goes_out_once r' rec).
Proof.
  destruct (run_session_inv cfg draw_priv draw_random cs Hcfg Hpriv Hrandom Hlen Hcs) as (r & E & Hi).
  destruct (tcp_in_cases r inp cfg draw_priv draw_random Hinp Hi) as (r' & rc & n & Ei & Hn & Hx). exists r, r', rc, n. split; [exact E|]. split; [exact Ei|]. split; [exact Hn|].
  destruct Hx as [Hok|[Hsame|(He & session & msgs & p & Hc & Hm & Ht & new & p0 & r0 & al & rec & Hled & Hm0 & Ht0 & Hof & Hal & Hd & Hst & Hsent & H1 & H2 & H3)]]; [by left|right; by left|right; right].
  split; [exact He|]. exists session, msgs, new, p, p0, r0, al, rec. split; [exact Hc|]. split; [exact Hm|]. split; [exact Ht|]. split; [exact Hled|]. split; [exact Hm0|]. split; [exact Ht0|]. split; [exact Hof|].
  split; [exact Hd|]. split; [exact Hst|]. split; [exact Hsent|]. split; [exact Hal|]. split; [intros more; exact (tcp_in_dead r' more Hd)|exact (staged_goes_out r' rec Hd Hst H1 H2 H3)].
Qed.

(** ** Lemmas: a record after the handshake *)

(** Connecting wipes the flag that says records are sealed, so a record of type
    handshake in the clear that ends inside a message is taken. *)
Lemma takes_plaintext (o : opening) (a : agreement) (limit : Z) (slot : option Z) (T : list Z) (r : ch_tcp) (m : list Z)
    (Ht : tracks o (Complete a limit slot T) r) (Hst : connected r) (Hu : unread (r_t r) = [])
    (Hm : bytes_ok m) (Hl : (length m < 4)%nat) :
  exists r', tcp_in pin_ecdsa pin_verify r (plain_record m) = Some (r', CH_OK, length (plain_record m)) /\
    connected r' /\ tracks o (Complete a limit slot T) r' /\ unread (r_t r') = m.
Proof.
  unfold connected in *.
  assert (Hm4 : Z.of_nat (length m) <= 0x4000) by lia. destruct (plain_whole m Hm Hm4) as (Hw & E0 & Ed). set (rec := plain_record m) in *.
  destruct Ht as ((Hlive & Hhs & Hk) & Hrest). pose proof Hlive as (Hcfg & Ho & _). pose proof (conj (conj Hlive (conj Hhs Hk)) Hrest : tracks o (Complete a limit slot T) r) as Ht.
  assert (Htx : r_tx_len r = 0%nat).
  { destruct Hk as (_ & _ & _ & _ & _ & _ & _ & [[H _]|[_ H]]); [rewrite Hst in H; discriminate H|exact H]. }
  assert (He : h_encrypted (r_hs r) = false) by (rewrite Hhs; reflexivity).
  destruct (carries_plain_iff r rec E0 He) as [Hca Hun]. rewrite Ed in Hca, Hun.
  assert (Hfit : (length m <= cfg_buf_len (o_cfg o))%nat).
  { rewrite <- Ho. destruct Hcfg as (_ & Hmin & _). unfold CH_MIN_RXBUF in Hmin. lia. }
  rewrite (tcp_in_tracked o _ r rec Ht Htx).
  destruct (in_loop_record pin_ecdsa pin_verify (length rec) o _ r rec 0 rec [] m _ (proj1 Hw) (whole_drop rec) Hw Ht Htx Hu Hca Hun Hfit) as (r1 & El & Ht1 & Hu1 & Htx1 & _).
  exists r1. split; [|split; [|split; [exact Ht1|exact Hu1]]].
  - rewrite El. destruct (tracks_live o _ r1 Ht1) as (T1 & _ & _ & Hr1 & _). cbn [drive]. rewrite peek_empty; [|exact Hr1|rewrite Hu1; lia].
    cbn [mbind option_bind negb Z.eqb CH_OK]. rewrite Htx1. cbn [negb Nat.eqb].
    destruct (whole_record_length rec Hw) as (n & Hn). rewrite Nat.add_0_l. rewrite Hn at 1. apply in_loop_end. lia.
  - destruct Ht1 as ((_ & _ & _ & _ & _ & _ & _ & _ & _ & [[_ H]|[H _]]) & _); [rewrite Htx1 in H; by destruct H|exact H].
Qed.
End Client.

(** ** Witnesses *)

#[local] Existing Instance Aead.chacha20_poly1305.
#[local] Existing Instance Aead.chacha20_poly1305_laws.

(** A client with a PSK, its draws, and a server that answers with a share. *)
Definition example_cfg : client_cfg :=
  ClientCfg (Some (replicate 32 7)) 32 (Some [105; 100]) 2 None 0 None 0 None 0 (Some (zero_bytes 512)) 512 true true false false false.
Definition example_draw : list Z := replicate 32 5.
Definition example_verify (key digest sig : list Z) : bool := false.

Lemma replicate_ok n b : byte_ok b -> bytes_ok (replicate n b).
Proof. intros H. by apply Forall_replicate. Qed.

Lemma zero_buf_ok : bytes_ok (zero_bytes 512).
Proof. by apply replicate_ok. Qed.

Lemma example_memory : memory_ok example_cfg.
Proof.
  unfold memory_ok, example_cfg, ptr_ok. cbn [psk psk_len psk_id psk_id_len ticket server_pubkey server_pubkey_len server_pubkey2 server_pubkey2_len cfg_buf cfg_buf_len].
  split_and!; try exact I.
  - by apply replicate_ok.
  - apply Nat.leb_le. reflexivity.
  - reflexivity.
  - repeat apply Forall_cons_2; [done|done|apply Forall_nil_2].
  - intros _. apply Nat.leb_le. reflexivity.
  - by apply replicate_ok.
  - reflexivity.
Qed.

Lemma example_configured pin_ecdsa : configured pin_ecdsa example_cfg example_cfg.
Proof. split; [reflexivity|]. split; [by destruct pin_ecdsa|]. by split_and!. Qed.

Lemma example_drawn : drawn example_draw = true.
Proof. vm_compute. reflexivity. Qed.

#[local] Opaque hmac_of expand_label_spec sha256_spec X25519.x25519 X25519.x25519_base transcript_update transcript_init transcript_hash_after
  absorbed dir_of hs_secret c_hs_secret s_hs_secret app_secret finished_mac zero_bytes store_bytes.

Lemma calls_keep_session_witness :
  exists r, run_session true example_verify example_cfg example_draw example_draw [CallOut 100; CallIn [22; 3; 3; 0; 0]; CallIn [21; 3; 3; 0; 2; 2; 40]; CallClose] = Some r /\
    session_inv true example_verify example_cfg example_draw example_draw r.
Proof.
  apply (calls_keep_session true example_verify example_cfg example_draw example_draw); [exact example_memory|exact example_drawn|exact example_drawn|reflexivity|].
  repeat apply Forall_cons_2; try exact I; try apply Forall_nil_2; apply (bool_decide_unpack _); vm_compute; exact I.
Defined.

Lemma connected_is_authenticated_witness :
  exists r, run_session true example_verify example_cfg example_draw example_draw [CallOut 600; CallIn [20; 3; 3; 0; 1; 1]] = Some r /\
    (t_state (r_t r) = CH_ST_CONNECTED -> exists session, configured true example_cfg session).
Proof.
  destruct (connected_is_authenticated true example_verify example_cfg example_draw example_draw [CallOut 600; CallIn [20; 3; 3; 0; 1; 1]])
    as (r & E & H); [exact example_memory|exact example_drawn|exact example_drawn|reflexivity| |].
  - repeat apply Forall_cons_2; try exact I; try apply Forall_nil_2; apply (bool_decide_unpack _); vm_compute; exact I.
  - exists r. split; [exact E|]. intros Hs. destruct (H Hs) as (session & a & slot & Tv & Hc & _). exists session. exact Hc.
Defined.

Lemma tcp_init_exact_witness :
  exists r rc, tcp_init true example_cfg example_draw example_draw = Some (r, rc) /\
    ((exists session, configured true example_cfg session /\ rc = CH_OK) \/ forall session, ~ configured true example_cfg session).
Proof.
  destruct (tcp_init_exact true example_cfg example_draw example_draw) as (r & rc & E & H); [exact example_memory|exact example_drawn|exact example_drawn|reflexivity|].
  exists r, rc. split; [exact E|]. destruct H as [(session & Hc & Hrc & _)|[Hno _]]; [left; exists session; split; [exact Hc|exact Hrc]|right; exact Hno].
Defined.

Lemma failure_is_final_witness :
  exists r r' rc n, run_session true example_verify example_cfg example_draw example_draw [CallOut 600] = Some r /\
    tcp_in true example_verify r [23; 3; 3; 255; 255] = Some (r', rc, n) /\ (n <= 5)%nat.
Proof.
  destruct (failure_is_final true example_verify example_cfg example_draw example_draw [CallOut 600] [23; 3; 3; 255; 255])
    as (r & r' & rc & n & E & Ei & Hn & _); [exact example_memory|exact example_drawn|exact example_drawn|reflexivity| | |].
  - apply Forall_cons_2; [exact I|apply Forall_nil_2].
  - apply (bool_decide_unpack _). vm_compute. exact I.
  - exists r, r', rc, n. split; [exact E|]. split; [exact Ei|exact Hn].
Defined.

(** The example's session, its hello sent. *)
Lemma example_waits pin_ecdsa : let o := opening_of example_cfg example_draw example_draw in
  exists r, tracks o (Waiting false (hello_after pin_ecdsa o [] None)) r /\ unread (r_t r) = [] /\ r_tx_len r = 0%nat.
Proof.
  intros o. destruct (tcp_init_spec pin_ecdsa example_cfg example_draw example_draw example_memory example_drawn example_drawn eq_refl) as (r0 & rc & _ & Hx).
  destruct Hx as [(session & Hc & _ & Hst)|[Hno _]]; [|by destruct (Hno _ (example_configured pin_ecdsa))].
  rewrite (configured_functional _ _ _ _ Hc (example_configured pin_ecdsa)) in Hst.
  destruct (hello_handed pin_ecdsa _ r0 _ Hst (le_n _)) as (r1 & _ & Ht & Hu & Htx). exists r1. split; [exact Ht|]. split; [exact Hu|exact Htx].
Qed.

Lemma record_step_exact_witness : let rec := plain_record (message HS_FINISHED [1; 2; 3]) in
  exists r r' rc, tcp_in true example_verify r rec = Some (r', rc, length rec).
Proof.
  intros rec. destruct (example_waits true) as (r & Ht & Hu & Htx).
  assert (Hm : bytes_ok (message HS_FINISHED [1; 2; 3])) by (apply (bool_decide_unpack _); vm_compute; exact I).
  destruct (plain_whole _ Hm ltac:(discriminate)) as (Hw & E0 & Ed).
  destruct (carries_plain_iff r rec E0 (proj1 (proj2 (proj2 (proj2 Ht))))) as [Hca _].
  destruct (record_step_exact true example_verify _ _ r rec HS_FINISHED [1; 2; 3] _ Ht Htx Hu Hw Hca) as (r' & rc & E & _).
  - split; [done|]. split; [apply (bool_decide_unpack _); vm_compute; exact I|]. split; [discriminate|apply Nat.leb_le; reflexivity].
  - exists r, r', rc. exact E.
Defined.

(** A server's answer: a share, the PSK it selects, no extension, its Finished. *)
Definition example_hello : list Z :=
  Hsp.sh_message (build := client_build false) (replicate 32 3) 0x1303 [Hsp.ShVersion TLS13; Hsp.ShKex [] (replicate 32 9); Hsp.ShPsk 0].
Definition example_info : Hsp.server_hello_info :=
  match parse (Hsp.hsp_parse_server_hello (build := client_build false) true Hsp.zero_info) example_hello with Some (Done i) => i | _ => Hsp.zero_info end.
Definition example_flight (o : opening) (a : agreement) (T : list Z) : list (Z * list Z) :=
  let extensions := [0; 0] in
  [(HS_ENCRYPTED_EXTENSIONS, extensions); (HS_FINISHED, finished_mac (s_hs o a) (sha256_spec (T ++ message HS_ENCRYPTED_EXTENSIONS extensions)))].

Lemma example_hello_accepted : sh_accepts false true HS_SERVER_HELLO example_hello example_info /\ Hsp.sh_hrr example_info = false /\ hello_usable true example_info.
Proof.
  assert (Hh : Hsp.sh_hrr example_info = false) by (vm_compute; reflexivity).
  split; [|split; [exact Hh|split; [vm_compute; reflexivity|intros _; vm_compute; reflexivity]]].
  split; [reflexivity|]. split; [vm_compute; reflexivity|]. intros H. rewrite Hh in H. discriminate H.
Qed.

Lemma example_hello_fits : message_fits example_cfg HS_SERVER_HELLO example_hello.
Proof.
  split; [by split|]. split; [apply (bool_decide_unpack _); vm_compute; exact I|].
  split; [vm_compute; discriminate|apply Nat.leb_le; vm_compute; reflexivity].
Qed.

Lemma example_extensions : exists limit, ee_accepts false (Z.of_nat CH_TX_PT) HS_ENCRYPTED_EXTENSIONS [0; 0] limit.
Proof. eexists. split; [reflexivity|]. eexists. split; [vm_compute; reflexivity|reflexivity]. Qed.

Lemma example_follows a T : let o := opening_of example_cfg example_draw example_draw in
  exists limit T', follows false example_verify o (Keyed a T) (example_flight o a T) (Complete a limit None T').
Proof.
  intros o. destruct example_extensions as (limit & Hl). eexists limit, _.
  eapply follows_cons; [exact (accept_extensions false example_verify o a T _ _ true limit Hl)|].
  eapply follows_cons; [|apply follows_nil]. apply accept_finished. split; reflexivity.
Qed.

Lemma example_fits a T : let o := opening_of example_cfg example_draw example_draw in
  Forall (fun m => message_fits example_cfg m.1 m.2) (example_flight o a T).
Proof.
  intros o. assert (H1 : byte_ok HS_ENCRYPTED_EXTENSIONS /\ byte_ok HS_FINISHED) by (split; split; [discriminate|reflexivity|discriminate|reflexivity]).
  unfold example_flight. destruct (finished_mac_shape (s_hs o a) (sha256_spec (T ++ message HS_ENCRYPTED_EXTENSIONS [0; 0]))) as [Hl Hb].
  apply Forall_cons_2; [|apply Forall_cons_2; [|apply Forall_nil_2]]; unfold message_fits; cbn [fst snd]; rewrite length_message.
  - split; [exact (proj1 H1)|]. split; [apply (bool_decide_unpack _); vm_compute; exact I|]. split; [discriminate|apply Nat.leb_le; reflexivity].
  - rewrite Hl. split; [exact (proj2 H1)|]. split; [exact Hb|]. split; [discriminate|apply Nat.leb_le; reflexivity].
Qed.

Lemma example_sealed secret flight : Forall (fun m => message_fits example_cfg m.1 m.2) flight -> Z.of_nat (length flight) <= 10 ->
  exists d records, sealed_flight (dir_of secret 0) flight (Z.to_nat 16406) = Some (d, records).
Proof.
  intros Hf Hn. destruct (Rec.stream_roundtrip ((fun m => (REC_HANDSHAKE, message m.1 m.2)) <$> flight) (dir_of secret 0) (Z.to_nat 16406) (Z.to_nat 16385)) as (d & records & E & _).
  - apply dir_of_ok, u64_zero.
  - apply Forall_fmap. eapply Forall_impl; [exact Hf|]. intros [type body] Hm. cbn [fst snd] in Hm.
    destruct (message_whole (opening_of example_cfg [] []) type body Hm) as [Hb Hl]. split; [done|]. split; [discriminate|]. split; [exact Hb|exact Hl].
  - rewrite length_fmap, dir_of_seq. unfold UINT64_MAX. lia.
  - lia.
  - lia.
  - exists d, records. exact E.
Qed.

Lemma honest_flight_connects_witness :
  let o := opening_of example_cfg example_draw example_draw in let m := hello_after false o [] None in
  let T := m ++ message HS_SERVER_HELLO example_hello in let answer := plain_record (message HS_SERVER_HELLO example_hello) in
  exists r0 r1, tcp_init false example_cfg example_draw example_draw = Some (r0, CH_OK) /\
    tcp_out r0 (length (plain_record m)) = (r1, CH_OK, Some (plain_record m)) /\
    match X25519.x25519 example_draw (Hsp.sh_server_pub example_info) with
    | (_, false) => exists r rc, tcp_in false example_verify r1 answer = Some (r, rc, length answer) /\ dead r
    | (ecdhe, true) => let a := Agreement ecdhe T in
        exists d records, sealed_flight (dir_of (s_hs o a) 0) (example_flight o a T) (Z.to_nat 16406) = Some (d, records) /\
        exists r2 r3 finished, tcp_in false example_verify r1 (answer ++ mjoin records) = Some (r2, CH_OK, length (answer ++ mjoin records)) /\
          tcp_out r2 (r_tx_len r2) = (r3, CH_OK, Some finished) /\ t_state (r_t r3) = CH_ST_CONNECTED
    end.
Proof.
  intros o m T answer. destruct example_hello_accepted as (Hi & Hh & Hus).
  destruct (honest_flight_connects false example_verify example_cfg example_cfg example_draw example_draw example_hello example_info
    example_memory example_drawn example_drawn eq_refl (example_configured false)) as (r0 & r1 & E & Eo & H); [exact example_hello_fits|exact Hi|exact Hh|exact Hus|].
  exists r0, r1. split; [exact E|]. split; [exact Eo|]. destruct (X25519.x25519 example_draw _) as [ecdhe [|]].
  - intros a. destruct (example_sealed (s_hs o a) (example_flight o a T) (example_fits a T)) as (d & records & Es); [discriminate|].
    exists d, records. split; [exact Es|]. destruct (example_follows a T) as (limit & T' & Hfo).
    destruct (H _ _ _ _ records d _ Hfo (example_fits a T) Es) as (r2 & r3 & fin & Ei & Eo3 & Hs & _).
    exists r2, r3, fin. split; [exact Ei|]. split; [exact Eo3|exact Hs].
  - destruct H as (r & rc & Ei & _ & Hd). exists r, rc. split; [exact Ei|exact Hd].
Defined.

(** A connected session, for any agreement. *)
Definition example_connected (o : opening) (a : agreement) (T : list Z) : ch_tcp :=
  let finished := client_finished (c_hs o a) (sha256_spec T) in
  let c_ap := app_secret (o_cfg o) (a_ecdhe a) "c ap traffic" (sha256_spec T) in
  let s_ap := app_secret (o_cfg o) (a_ecdhe a) "s ap traffic" (sha256_spec T) in
  let t := zero_tls <| t_cfg := o_cfg o |> <| t_buf := default [] (cfg_buf (o_cfg o)) |>
    <| t_transcript := transcript_update (transcript_init zero_transcript) (T ++ finished) |>
    <| t_wr_secret := c_ap |> <| t_rd_secret := s_ap |> <| t_wr := dir_of c_ap 0 |> <| t_rd := dir_of s_ap 0 |>
    <| t_res_master := app_secret (o_cfg o) (a_ecdhe a) "res master" (sha256_spec (T ++ finished)) |>
    <| t_psk_selected := o_psk o |> <| t_keys := true |> <| t_state := CH_ST_CONNECTED |> <| t_peer_limit := Z.of_nat CH_TX_PT |> in
  Tcp (wiped_hs t) TCP_NONBLOCKING_STEP_COMPLETE 0 0.

Lemma example_tracks a T : let o := opening_of example_cfg example_draw example_draw in
  tracks o (Complete a (Z.of_nat CH_TX_PT) None T) (example_connected o a T).
Proof.
  intros o. unfold tracks, connectable, live, slot_ok, example_connected, r_t. cbv zeta. cbn [r_hs r_step r_tx_len r_tx_off]. rewrite !wiped_hs_t. fields.
  settle.
  - exact (config_ok_session (build := client_build false) example_cfg eq_refl example_memory).
  - unfold reader_ok. fields. split; [exact (length_zero_bytes 512)|]. split; [exact zero_buf_ok|]. split; apply Nat.le_0_l.
  - exact (transcript_update_absorbs _ [] _ (transcript_init_absorbed zero_transcript (length_zero_bytes SHA256_BLOCK))).
  - split; [apply Nat.le_0_l|]. right. split; reflexivity.
  - unfold unused. fields. split; [by cbn|]. split_and!; reflexivity.
  - right. split; reflexivity.
Qed.

End Handshake.
