(* ===== verification/Conn.v ===== *)
(** * The connected session: src/src/tls.c, tls_write.c, handshake_post.c,
    session.c, io.c

    What a session does once its handshake is over, on the transport of
    [TcpClient]: it reads and writes records through the caller's callbacks,
    takes tickets and KeyUpdates, and ends.  The callbacks are a parameter, a
    [Transport]; the session is the [ch_tls] of [HsRecord]. *)

From S2P Require Import Prelude Ct MdHash Sha256 Reader Wire Hkdf Keysched HsMessage Aead Record Cmd ClientCfg HsRecord HsFlight TcpClient.
Import Sha256 Hkdf Keysched HsRecord Cfg Tcp.
Local Open Scope Z_scope.
Local Open Scope word_scope.

Definition HS_NEW_SESSION_TICKET : Z := 4.
Definition HS_KEY_UPDATE : Z := 24.
Definition CH_ECLOSED : Z := -5.
Definition CH_TCP_AGAIN : Z := -9.
Definition CH_KEY_UPDATE_LIMIT : Z := -10.
Definition CH_QUIET_CAP : nat := 32.
Definition CH_KEY_UPDATE_RUN_MAX : Z := 16.
Definition HSPOST_SEND_EPOCHS_MAX : Z := 0xffffffffffff.
Definition CH_KEY_UPDATE_RECORD_LEN : nat := (REC_OVERHEAD + 4 + 1)%nat.

(** [ch_ticket] as [on_ticket] is handed it; its epoch is 0 in this build. *)
Record ch_ticket := Ticket {
  n_identity : list Z; n_psk : list Z; n_lifetime_s : Z; n_age_add : Z; n_trust_hash : list Z }.

(** The callbacks of [ch_cfg] and what they act on.  [io_recv io n] is the int it
    returns and the bytes it wrote; [io_left] bounds the bytes it may still give. *)
Class Transport := {
  io : Type;
  io_send : io -> list Z -> Z * io;
  io_recv : io -> nat -> Z * list Z * io;
  io_on_ticket : option (io -> ch_ticket -> io);
  io_left : io -> nat }.

Module Conn.

Section Session.
Context {aead : AeadOps} {tr : Transport}.

(** A session, its transport, and the [alert] local the callers pass down. *)
Record conn := MkConn { c_t : ch_tls; c_io : io; c_alert : Z }.
#[export] Instance eta_conn : Eta conn := fun c => MkConn (c_t c) (c_io c) (c_alert c).
Definition upd (f : ch_tls -> ch_tls) : cmd conn () := modify (fun c => c <| c_t := f (c_t c) |>).
Definition alert_is (al : Z) : cmd conn () := modify (fun c => c <| c_alert := al |>).

(** ** io.c *)

Fixpoint send_loop (fuel : nat) (p : list Z) : cmd conn () :=
  if (length p =? 0)%nat then mret ()
  else match fuel with
       | O => call None
       | S fuel =>
           c ← get_;
           let '(sent, i) := io_send (c_io c) p in
           modify (fun c => c <| c_io := i |>);;
           if (sent <=? 0) || (Z.of_nat (length p) <? sent) then fail CH_EIO
           else send_loop fuel (drop (Z.to_nat sent) p)
       end.
Definition io_send_all (p : list Z) : cmd conn () := send_loop (length p) p.

(** [cfg->recv(cfg->io, cfg.buf + at_, n)] *)
Definition recv (at_ n : nat) : cmd conn Z :=
  c ← get_;
  let '(got, bytes, i) := io_recv (c_io c) n in
  modify (fun c => c <| c_io := i |>);;
  upd (fun t => t <| t_buf := store_bytes (t_buf t) at_ (take n bytes) |>);;
  mret got.

Fixpoint read_loop (fuel : nat) (at_ n : nat) : cmd conn () :=
  if (n =? 0)%nat then mret ()
  else match fuel with
       | O => call None
       | S fuel =>
           got ← recv at_ n;
           if (got <=? 0) || (Z.of_nat n <? got) then fail CH_EIO
           else read_loop fuel (at_ + Z.to_nat got) (n - Z.to_nat got)
       end.
Definition read_exact (at_ n : nat) : cmd conn () := read_loop n at_ n.

Definition check_body (at_ : nat) (body : Z) (cap : nat) : cmd conn () :=
  t ← gets c_t;
  if Z.of_nat (rec_body_max (t_buf t !!! at_)) <? body then alert_is ALERT_RECORD_OVERFLOW;; fail CH_EPROTO
  else if (body =? 0) then fail CH_EPROTO
  else if Z.of_nat (cfg_buf_len (t_cfg t)) <? Z.of_nat REC_HDR + body then
    alert_is (if t_limit_sent t then ALERT_RECORD_OVERFLOW else ALERT_INTERNAL_ERROR);; fail CH_ECAP
  else if Z.of_nat cap <? Z.of_nat REC_HDR + body then fail CH_ECAP
  else mret ().

(** The record at [cfg.buf + at_], [cap] bytes: its type and its length. *)
Definition io_read_record (at_ cap : nat) : cmd conn (Z * nat) :=
  if (cap <? REC_HDR)%nat then fail CH_ECAP
  else
    got ← recv at_ REC_HDR;
    if (got =? 0) then fail CH_TCP_AGAIN
    else if (got <? 0) || (Z.of_nat REC_HDR <? got) then fail CH_EIO
    else
      read_exact (at_ + Z.to_nat got) (REC_HDR - Z.to_nat got);;
      t ← gets c_t;
      let body := ((t_buf t !!! (at_ + 3)%nat) <<64 8) .| (t_buf t !!! (at_ + 4)%nat) in
      check_body at_ body cap;;
      read_exact (at_ + REC_HDR) (Z.to_nat body);;
      t ← gets c_t;
      mret (t_buf t !!! at_, (REC_HDR + Z.to_nat body)%nat).

(** ** session.c *)

Definition tlsi_send_alert (level description : Z) : cmd conn () :=
  t ← gets c_t;
  if t_keys t then
    s ← call (Rec.rec_seal (t_wr t) REC_ALERT [level; description] (length (t_tx t)));
    upd (fun t => t <| t_wr := s.1 |>);;
    match s.2 with
    | None => fail CH_ECAP
    | Some out => upd (fun t => t <| t_tx := store_bytes (t_tx t) 0 out |>);; io_send_all out
    end
  else if (t_state t =? CH_ST_START) then io_send_all [REC_ALERT; 0x03; 0x03; 0; 2; level; description]
  else mret ().

Definition tlsi_wipe (t : ch_tls) : ch_tls :=
  t <| t_rd := zero_dir |> <| t_wr := zero_dir |> <| t_rd_secret := zero_bytes HKDF_HASH_MAX |>
    <| t_wr_secret := zero_bytes HKDF_HASH_MAX |> <| t_res_master := zero_bytes HKDF_HASH_MAX |>
    <| t_keys := false |> <| t_pt_off := 0%nat |> <| t_pt_len := 0%nat |>.

(** The code of the alert's send. *)
Definition tlsi_fail (description : Z) : cmd conn Z :=
  t ← gets c_t;
  x ← (if (t_alert_received t =? 0) then
         upd (fun t => t <| t_alert_sent := description |>);; attempt (tlsi_send_alert 2 description)
       else mret (Ok ()));
  upd tlsi_wipe;;
  upd (fun t => t <| t_state := CH_ST_FAILED |>);;
  mret (match x with Ok _ => CH_OK | Code rc => rc end).
(** [tlsi_fail(t, al); return rc;] *)
Definition ends {A} (al rc : Z) : cmd conn A := tlsi_fail al;; fail rc.

(** ** handshake_post.c *)

(** Lifetime, age_add, nonce, identity; the extensions are passed over. *)
Definition read_ticket : prog (option (Z * Z * list Z * list Z)) :=
  hi ← u24_; lo ← u8_;
  let lifetime_s := (hi <<32 8) .| lo in
  hi ← u24_; lo ← u8_;
  let age_add := (hi <<32 8) .| lo in
  nonce_len ← u8_;
  nonce ← nbytes_ (Z.to_nat nonce_len);
  identity_len ← u16_;
  identity ← nbytes_ (Z.to_nat identity_len);
  ext_len ← u16_;
  skip_ (Z.to_nat ext_len);;
  e ← err_;
  n ← left_;
  if e || negb (n =? 0)%nat then Ret None
  else Ret (Some (lifetime_s, age_add, default [] nonce, default [] identity)).

Definition ticket_trust (t : ch_tls) : list Z :=
  let cfg := t_cfg t in
  match ticket cfg with
  | Some saved => tk_trust_hash saved
  | None =>
      if is_set (psk cfg) then hspost_trust_hash HSPOST_TRUST_PSK (bytes_at (psk cfg) (psk_len cfg))
      else if (t_pin_slot t =? 2) then hspost_trust_hash HSPOST_TRUST_PIN (bytes_at (server_pubkey2 cfg) (server_pubkey2_len cfg))
      else hspost_trust_hash HSPOST_TRUST_PIN (bytes_at (server_pubkey cfg) (server_pubkey_len cfg))
  end.

Definition handle_ticket (body : list Z) : cmd conn () :=
  r ← call (parse read_ticket body);
  match r with
  | None => alert_is ALERT_DECODE_ERROR;; fail CH_EPROTO
  | Some (lifetime_s, age_add, nonce, identity) =>
      match io_on_ticket with
      | None => mret ()
      | Some on_ticket =>
          if (lifetime_s =? 0) || (SHA256_LEN <? length nonce)%nat || (HsMessage.CH_TICKET_ID_MAX <? length identity)%nat then mret ()
          else
            t ← gets c_t;
            psk ← call (ks_res_psk SHA256_LEN (t_res_master t) nonce);
            modify (fun c => c <| c_io := on_ticket (c_io c) (Ticket identity psk lifetime_s age_add (ticket_trust t)) |>)
      end
  end.

Definition hspost_send_key_update : cmd conn () :=
  t ← gets c_t;
  s ← call (Rec.rec_seal (t_wr t) REC_HANDSHAKE [HS_KEY_UPDATE; 0; 0; 1; 0] (length (t_tx t)));
  upd (fun t => t <| t_wr := s.1 |>);;
  match s.2 with
  | None => fail CH_EIO
  | Some out =>
      upd (fun t => t <| t_tx := store_bytes (t_tx t) 0 out |>);;
      x ← attempt (io_send_all out);
      match x with
      | Code _ => fail CH_EIO
      | Ok _ =>
          t ← gets c_t;
          k ← call (Rec.rec_dir_update (t_wr_secret t));
          upd (fun t => t <| t_wr_secret := k.1 |> <| t_wr := k.2 |>);;
          upd (fun t => t <| t_send_epochs := u64 (t_send_epochs t + 1) |>);;
          upd (fun t => t <| t_key_update_owed := false |>)
      end
  end.

Definition handle_key_update (request : Z) : cmd conn () :=
  upd (fun t => t <| t_key_update_run := u8 (t_key_update_run t + 1) |>);;
  t ← gets c_t;
  k ← call (Rec.rec_dir_update (t_rd_secret t));
  upd (fun t => t <| t_rd_secret := k.1 |> <| t_rd := k.2 |>);;
  if (request =? 1) && (t_send_epochs t <? HSPOST_SEND_EPOCHS_MAX) then upd (fun t => t <| t_key_update_owed := true |>) else mret ().

Definition take_key_update (body : list Z) (ends_input : bool) : cmd conn () :=
  if negb (length body =? 1)%nat then alert_is ALERT_DECODE_ERROR;; fail CH_EPROTO
  else if 1 <? body !!! 0%nat then alert_is ALERT_ILLEGAL_PARAMETER;; fail CH_EPROTO
  else if negb ends_input then fail CH_EPROTO
  else
    t ← gets c_t;
    if CH_KEY_UPDATE_RUN_MAX <=? t_key_update_run t then fail CH_KEY_UPDATE_LIMIT
    else handle_key_update (body !!! 0%nat).

(** The messages of [pt]; how many bytes they are.  Each round consumes a
    message, so the length of [pt] is fuel enough. *)
Fixpoint post_loop (fuel : nat) (pt : list Z) (off : nat) : cmd conn nat :=
  if (length pt - off <? 4)%nat then mret off
  else match fuel with
       | O => call None
       | S fuel =>
           t ← gets c_t;
           let type := pt !!! off in
           let msg_len := ((pt !!! (off + 1)%nat) <<64 16) .| ((pt !!! (off + 2)%nat) <<64 8) .| (pt !!! (off + 3)%nat) in
           if (0x4000 <? msg_len) || (Z.of_nat (cfg_buf_len (t_cfg t)) <? 4 + msg_len) then fail CH_EPROTO
           else
             let len := (4 + Z.to_nat msg_len)%nat in
             if (length pt <? off + len)%nat then mret off
             else
               let body := take (Z.to_nat msg_len) (drop (off + 4) pt) in
               (if (type =? HS_NEW_SESSION_TICKET) then handle_ticket body
                else if (type =? HS_KEY_UPDATE) then take_key_update body (off + len =? length pt)%nat
                else fail CH_EPROTO);;
               post_loop fuel pt (off + len)
       end.
Definition handle_post_handshake (pt : list Z) : cmd conn nat := post_loop (length pt) pt 0.

(** The handshake bytes of the fragment at [cfg.buf + fill]. *)
Definition open_fragment (fill : nat) (outer : Z) (record_len : nat) : cmd conn nat :=
  t ← gets c_t;
  if negb (outer =? REC_APPDATA) then alert_is ALERT_BAD_RECORD_MAC;; fail CH_EAUTH
  else
    o ← call (Rec.rec_open (t_rd t) (take record_len (drop fill (t_buf t))) (cfg_buf_len (t_cfg t) - fill));
    upd (fun t => t <| t_rd := o.1 |>);;
    match o.2 with
    | None => alert_is ALERT_BAD_RECORD_MAC;; fail CH_EAUTH
    | Some (inner, pt) =>
        upd (fun t => t <| t_buf := store_bytes (t_buf t) fill pt |>);;
        if (inner =? REC_ALERT) then
          on (fun c => (wiped_hs (c_t c)) <| h_alert := c_alert c |>) (fun h c => c <| c_t := h_t h |> <| c_alert := h_alert h |>)
             (hsr_refuse_alert pt)
        else if (inner =? REC_HANDSHAKE) then mret (length pt)
        else fail CH_EPROTO
    end.

(** [for (int quiet = 0; quiet < CH_QUIET_CAP;)]: each round reads a record, so a
    bound on what the transport still gives is fuel enough. *)
Fixpoint drain_run (fuel quiet fill : nat) : cmd conn () :=
  if negb (quiet <? CH_QUIET_CAP)%nat then fail CH_EPROTO
  else match fuel with
       | O => call None
       | S fuel =>
           t ← gets c_t;
           used ← handle_post_handshake (take fill (t_buf t));
           if (used =? fill)%nat then mret ()
           else
             upd (fun t => t <| t_buf := store_bytes (t_buf t) 0 (take (fill - used) (drop used (t_buf t))) |>);;
             let fill := (fill - used)%nat in
             x ← attempt (io_read_record fill (cfg_buf_len (t_cfg t) - fill));
             match x with
             | Code rc => (if (rc =? CH_TCP_AGAIN) then upd (fun t => t <| t_post_fill := fill |>) else mret ());; fail rc
             | Ok (outer, record_len) =>
                 n ← open_fragment fill outer record_len;
                 drain_run fuel (if (n =? 0)%nat then S quiet else quiet) (fill + n)
             end
       end.

Definition hspost_read (pt_len : nat) : cmd conn () :=
  alert_is ALERT_UNEXPECTED_MESSAGE;;
  i ← gets c_io;
  x ← attempt (drain_run (S (io_left i)) 0 pt_len);
  match x with
  | Ok _ => mret ()
  | Code rc => al ← gets c_alert; (if negb (rc =? CH_TCP_AGAIN) then tlsi_fail al;; mret () else mret ());; fail rc
  end.

(** ** tls.c *)

Definition close_read_side (t : ch_tls) : ch_tls :=
  t <| t_rd := zero_dir |> <| t_rd_secret := zero_bytes HKDF_HASH_MAX |> <| t_res_master := zero_bytes HKDF_HASH_MAX |>
    <| t_pt_off := 0%nat |> <| t_pt_len := 0%nat |> <| t_read_closed := true |>.

Definition read_alert (pt : list Z) : cmd conn () :=
  if (length pt =? 2)%nat && (pt !!! 1%nat =? ALERT_CLOSE_NOTIFY) then upd close_read_side;; fail CH_ECLOSED
  else if (length pt =? 2)%nat && (pt !!! 1%nat =? ALERT_USER_CANCELED) then mret ()
  else
    alert_is ALERT_UNEXPECTED_MESSAGE;;
    x ← attempt (A := ()) (on (fun c => (wiped_hs (c_t c)) <| h_alert := c_alert c |>)
                   (fun h c => c <| c_t := h_t h |> <| c_alert := h_alert h |>) (hsr_refuse_alert pt));
    al ← gets c_alert;
    tlsi_fail al;;
    match x with Ok _ => mret () | Code rc => fail rc end.

Definition dispatch_one_record : cmd conn () :=
  t ← gets c_t;
  if (0 <? t_post_fill t)%nat then
    let fill := t_post_fill t in
    upd (fun t => t <| t_post_fill := 0%nat |>);;
    hspost_read fill
  else
    alert_is ALERT_DECODE_ERROR;;
    x ← attempt (io_read_record 0 (cfg_buf_len (t_cfg t)));
    match x with
    | Code rc => if (rc =? CH_TCP_AGAIN) then fail rc else al ← gets c_alert; ends al rc
    | Ok (outer, record_len) =>
        if negb (outer =? REC_APPDATA) then ends ALERT_UNEXPECTED_MESSAGE CH_EPROTO
        else
          t ← gets c_t;
          o ← call (Rec.rec_open (t_rd t) (take record_len (t_buf t)) (cfg_buf_len (t_cfg t)));
          upd (fun t => t <| t_rd := o.1 |>);;
          match o.2 with
          | None => ends ALERT_BAD_RECORD_MAC CH_EAUTH
          | Some (inner, pt) =>
              upd (fun t => t <| t_buf := store_bytes (t_buf t) 0 pt |>);;
              if (inner =? REC_APPDATA) then
                upd (fun t => t <| t_pt_off := 0%nat |> <| t_pt_len := length pt |>);;
                if (0 <? length pt)%nat then upd (fun t => t <| t_key_update_run := 0 |>) else mret ()
              else if (inner =? REC_HANDSHAKE) then hspost_read (length pt)
              else if (inner =? REC_ALERT) then read_alert pt
              else ends ALERT_UNEXPECTED_MESSAGE CH_EPROTO
          end
    end.

(** [for (int quiet = 0; quiet < CH_QUIET_CAP; quiet++)] *)
Fixpoint data_loop (quiet : nat) (n : nat) : cmd conn (list Z) :=
  match quiet with
  | O => ends ALERT_UNEXPECTED_MESSAGE CH_EPROTO
  | S quiet =>
      t ← gets c_t;
      if (t_pt_off t <? t_pt_len t)%nat then
        let take_ := (t_pt_len t - t_pt_off t)%nat in
        let take_ := if (n <? take_)%nat then n else take_ in
        upd (fun t => t <| t_pt_off := (t_pt_off t + take_)%nat |>);;
        mret (take take_ (drop (t_pt_off t) (t_buf t)))
      else
        x ← attempt dispatch_one_record;
        match x with
        | Code rc => if (rc =? CH_ECLOSED) then mret [] else fail rc
        | Ok _ => data_loop quiet n
        end
  end.

(** The bytes read, none for the 0 of a close. *)
Definition tls_read (n : nat) : cmd conn (list Z) :=
  t ← gets c_t;
  ch_assert (t_state t <=? CH_ST_FAILED);;
  if (n =? 0)%nat then fail CH_EINVAL
  else if (t_state t =? CH_ST_CLOSED) then mret []
  else if negb (t_state t =? CH_ST_CONNECTED) then fail CH_EPROTO
  else if t_read_closed t then mret []
  else data_loop CH_QUIET_CAP n.

Definition tls_close : cmd conn () :=
  t ← gets c_t;
  ch_assert (t_state t <=? CH_ST_FAILED);;
  (if t_keys t then attempt (tlsi_send_alert 1 ALERT_CLOSE_NOTIFY);; mret () else mret ());;
  upd tlsi_wipe;;
  upd (fun t => t <| t_state := CH_ST_CLOSED |>).

(** ** tls_write.c *)

Definition record_plaintext_max (t : ch_tls) : Z :=
  if t_peer_limit t <? Z.of_nat CH_TX_PT then t_peer_limit t else Z.of_nat CH_TX_PT.

(** None for [SIZE_MAX], which a ChaCha20-Poly1305 key is counted to hold. *)
Definition records_before_key_update (t : ch_tls) : option nat := if t_key_update_owed t then Some 0%nat else None.

Definition key_update_before_record : cmd conn () :=
  t ← gets c_t;
  match records_before_key_update t with
  | None => mret ()
  | Some (S _) => mret ()
  | Some O =>
      if HSPOST_SEND_EPOCHS_MAX <=? t_send_epochs t then ends ALERT_INTERNAL_ERROR CH_ECAP
      else
        x ← attempt hspost_send_key_update;
        match x with
        | Ok _ => mret ()
        | Code rc => ends ALERT_INTERNAL_ERROR rc
        end
  end.

(** The cursor: the parts it names on, the first from its offset. *)
Fixpoint parts_skip_empty (c : list (list Z)) : list (list Z) :=
  match c with [] :: c => parts_skip_empty c | _ => c end.
(** The cursor and what is in the buffer, after the buffer's [room] bytes. *)
Fixpoint parts_copy_record (c : list (list Z)) (room : nat) : list (list Z) * list Z :=
  match c with
  | [] => ([], [])
  | part :: c =>
      if (room =? 0)%nat then (part :: c, [])
      else if (room <? length part)%nat then (drop room part :: c, take room part)
      else
        let '(c, more) := parts_copy_record c (room - length part) in
        (parts_skip_empty c, part ++ more)
  end.

Fixpoint write_loop (fuel : nat) (cursor : list (list Z)) (limit : nat) : cmd conn () :=
  match cursor with
  | [] => mret ()
  | _ =>
      match fuel with
      | O => call None
      | S fuel =>
          key_update_before_record;;
          let '(cursor, inner) := parts_copy_record cursor limit in
          t ← gets c_t;
          if (length (t_tx t) - REC_HDR <? length inner)%nat then ends ALERT_INTERNAL_ERROR CH_ECAP
          else
            s ← call (Rec.rec_seal (t_wr t) REC_APPDATA inner (length (t_tx t)));
            upd (fun t => t <| t_wr := s.1 |>);;
            match s.2 with
            | None => ends ALERT_INTERNAL_ERROR CH_ECAP
            | Some out =>
                upd (fun t => t <| t_tx := store_bytes (t_tx t) 0 out |>);;
                x ← attempt (io_send_all out);
                match x with
                | Code rc => ends ALERT_INTERNAL_ERROR rc
                | Ok _ => write_loop fuel cursor limit
                end
            end
      end
  end.

(** Each round sends a byte, so the bytes of the parts are fuel enough. *)
Definition tls_write_parts (parts : list (list Z)) : cmd conn () :=
  t ← gets c_t;
  ch_assert (t_state t <=? CH_ST_FAILED);;
  if negb (t_state t =? CH_ST_CONNECTED) then fail CH_EPROTO
  else write_loop (length (mjoin parts)) (parts_skip_empty parts) (Z.to_nat (record_plaintext_max t)).
Definition tls_write (p : list Z) : cmd conn () := tls_write_parts [p].

Definition error_alerts : list Z :=
  [10; 20; 22; 40; 42; 43; 44; 45; 46; 47; 48; 49; 50; 51; 70; 71; 80; 86; 109; 110; 112; 113; 115; 116; 117; 120].
Definition is_error_alert (description : Z) : bool := existsb (fun a => a =? description) error_alerts.
Definition tls_fail (description : Z) : cmd conn () :=
  t ← gets c_t;
  ch_assert (t_state t <=? CH_ST_FAILED);;
  if negb (is_error_alert description) then fail CH_EINVAL
  else if negb (t_state t =? CH_ST_CONNECTED) then fail CH_EPROTO
  else rc ← tlsi_fail description; if (rc =? CH_OK) then mret () else fail rc.
Definition tls_alert_sent (t : ch_tls) : Z := t_alert_sent t.
Definition tls_alert_received (t : ch_tls) : Z := t_alert_received t.
End Session.

(** ** ch_writable_len, on a [size_t] of [w] bits *)

Section Writable.
Context (w : Z).
Definition wrap (x : Z) : Z := x mod 2 ^ w.
Definition SIZE_MAX : Z := 2 ^ w - 1.
Definition OVERHEAD : Z := Z.of_nat REC_OVERHEAD.

(** The plaintext and the records. *)
Definition records_fill (cap limit : Z) : Z * Z :=
  let whole := cap / (limit + OVERHEAD) in
  let in_whole := wrap (whole * limit) in
  let overhead := wrap (wrap (whole + 1) * OVERHEAD) in
  let with_one_more := if overhead <? cap then cap - overhead else 0 in
  if in_whole <? with_one_more then (with_one_more, wrap (whole + 1)) else (in_whole, whole).

Definition fill_across_key_update (cap limit room per_key : Z) : Z :=
  let left := wrap (cap - wrap (room * wrap (limit + OVERHEAD))) in
  let rest := if Z.of_nat CH_KEY_UPDATE_RECORD_LEN <? left then left - Z.of_nat CH_KEY_UPDATE_RECORD_LEN else 0 in
  let '(after, records) := records_fill rest limit in
  let after := if per_key <? records then wrap (per_key * limit) else after in
  wrap (wrap (room * limit) + after).

Definition tls_writable_len (t : ch_tls) (cap : Z) : Z :=
  let limit := record_plaintext_max t in
  if (limit =? 0) then 0
  else
    let '(fill, records) := records_fill cap limit in
    let room := match records_before_key_update t with Some n => Z.of_nat n | None => SIZE_MAX end in
    if room <? records then fill_across_key_update cap limit room SIZE_MAX else fill.
End Writable.
End Conn.
