(* ===== verification/ConnRecv.v ===== *)
(** * What a connected session receives

    The bytes its transport gave it, call by call, and the receive side as a
    machine over those bytes: every byte is part of a record that opened, every
    record and every message in one is a step, and a data record's step is the
    only one that delivers. *)

From S2P Require Import Prelude Ct MdHash Sha256 Reader Build Wire Hkdf Keysched HsMessage Aead Record Cmd ClientCfg.
From S2P Require Import X25519 HsRecord HsFlight TcpClient TcpProto TcpSession TcpHandshake Conn.
Import Sha256 Hkdf Keysched HsRecord Cfg HsFlight Tcp Proto Conn.
Local Open Scope Z_scope.
Local Open Scope word_scope.

(** What the code relies on of its callbacks: a receive that counts bytes wrote
    that many, and takes them off what is left; the others give no bytes. *)
Class TransportLaws (tr : Transport) := {
  recv_law i n : let '(got, bytes, i') := io_recv i n in
    bytes_ok bytes /\ (io_left i' <= io_left i)%nat /\
    (0 < got <= Z.of_nat n -> Z.of_nat (length bytes) = got /\ (io_left i' + Z.to_nat got <= io_left i)%nat);
  send_law i p : (io_left (io_send i p).2 <= io_left i)%nat;
  ticket_law i t f : io_on_ticket = Some f -> (io_left (f i t) <= io_left i)%nat }.

(** ** What came *)

(** The bytes the transport gave between two of its states: those of each receive
    that counted some, in the order of the calls, whatever calls lie between. *)
Inductive came {tr : Transport} : io -> list Z -> io -> Prop :=
  | came_none i : came i [] i
  | came_bytes i n got bytes j w k : io_recv i n = (got, bytes, j) -> 0 < got <= Z.of_nat n -> came j w k -> came i (bytes ++ w) k
  | came_nothing i n got bytes j w k : io_recv i n = (got, bytes, j) -> ~ 0 < got <= Z.of_nat n -> came j w k -> came i w k
  | came_sent i p w k : came (io_send i p).2 w k -> came i w k
  | came_ticket i t f w k : io_on_ticket = Some f -> came (f i t) w k -> came i w k.

Lemma came_app {tr : Transport} i a j b k : came i a j -> came j b k -> came i (a ++ b) k.
Proof.
  induction 1 as [i|i n got bytes j w k' E Hg H IH|i n got bytes j w k' E Hg H IH|i p w k' H IH|i t f w k' E H IH]; intros Hb.
  - exact Hb.
  - rewrite <- app_assoc. exact (came_bytes _ _ _ _ _ _ _ E Hg (IH Hb)).
  - exact (came_nothing _ _ _ _ _ _ _ E Hg (IH Hb)).
  - exact (came_sent _ _ _ _ (IH Hb)).
  - exact (came_ticket _ _ _ _ _ E (IH Hb)).
Qed.

Lemma came_left {tr : Transport} {trl : TransportLaws tr} i w k : came i w k -> (io_left k + length w <= io_left i)%nat.
Proof.
  induction 1 as [i|i n got bytes j w k E Hg H IH|i n got bytes j w k E Hg H IH|i p w k H IH|i t f w k E H IH].
  - cbn [length]. lia.
  - pose proof (recv_law i n) as Hl. rewrite E in Hl. destruct Hl as (_ & _ & Hl). destruct (Hl Hg). rewrite length_app. lia.
  - pose proof (recv_law i n) as Hl. rewrite E in Hl. destruct Hl as (_ & Hl & _). lia.
  - pose proof (send_law i p). lia.
  - pose proof (ticket_law i t f E). lia.
Qed.

(** ** A transport in pieces *)

(** What has arrived and what was sent; [send] and [recv] move a part of what
    they are asked to, of a size the two functions choose.  What [recv] writes
    through a [uint8_t] pointer is bytes. *)
Record wires := Wires { inbox : list Z; outbox : list Z }.
Class Pieces := {
  send_part : nat -> nat; recv_part : nat -> nat;
  send_part_law n : (0 < n -> 0 < send_part n <= n)%nat;
  recv_part_law n : (0 < n -> 0 < recv_part n <= n)%nat;
  recv_part_none : recv_part 0 = 0%nat }.
#[export] Instance wire `{Pieces} : Transport := {|
  io := wires;
  io_send i p := let k := send_part (length p) in (Z.of_nat k, Wires (inbox i) (outbox i ++ take k p));
  io_recv i n :=
    let k := if (length (inbox i) =? 0)%nat then 0%nat else recv_part (Nat.min n (length (inbox i))) in
    (Z.of_nat k, u8 <$> take k (inbox i), Wires (drop k (inbox i)) (outbox i));
  io_on_ticket := None;
  io_left i := length (inbox i) |}.

(** It is a transport the sessions' laws admit. *)
#[export] Instance wire_laws `{Pieces} : TransportLaws wire.
Proof.
  split.
  - intros i n. cbn [io_recv wire io_left]. destruct (Nat.eqb_spec (length (inbox i)) 0) as [E0|Hne].
    + apply length_zero_iff_nil in E0. rewrite E0. cbn [take fmap list_fmap drop length inbox]. split; [constructor|]. split; [lia|lia].
    + set (k := recv_part _). assert (Hk : (k <= length (inbox i))%nat \/ n = 0%nat).
      { destruct n as [|n]; [by right|left]. pose proof (recv_part_law (Nat.min (S n) (length (inbox i))) ltac:(lia)). lia. }
      cbn [inbox]. rewrite length_drop, length_fmap, length_take. split; [|split; lia]. apply Forall_fmap, Forall_true. intros x. apply u8_range.
  - intros i p. reflexivity.
  - intros i t f E. discriminate E.
Qed.

(** What came over it is the front of what had arrived. *)
Lemma came_wire `{Pieces} (i : wires) w (k : wires) : came (tr := wire) i w k -> u8 <$> inbox i = w ++ (u8 <$> inbox k).
Proof.
  induction 1 as [i|i n got bytes j w k E Hg Hc IH|i n got bytes j w k E Hg Hc IH|i p w k Hc IH|i t f w k E Hc IH].
  - reflexivity.
  - cbn [io_recv wire] in E. cbv zeta in E. set (m := if (_ =? 0)%nat then _ else _) in *. clearbody m. injection E as <- <- <-. cbn [inbox] in IH.
    by rewrite <- app_assoc, <- IH, <- fmap_app, take_drop.
  - cbn [io_recv wire] in E. cbv zeta in E. destruct (Nat.eqb_spec (length (inbox i)) 0) as [E0|Hne].
    + injection E as <- <- <-. cbn [inbox] in IH. rewrite drop_0 in IH. exact IH.
    + destruct n as [|n]; [|exfalso; pose proof (recv_part_law (Nat.min (S n) (length (inbox i))) ltac:(lia)) as Hp; set (q := recv_part _) in *; clearbody q; injection E as <- _ _; lia].
      cbn [Nat.min] in E. rewrite recv_part_none in E. injection E as <- <- <-. cbn [inbox] in IH. rewrite drop_0 in IH. exact IH.
  - exact IH.
  - discriminate E.
Qed.

(** At most three bytes to a call. *)
#[export] Instance by_three : Pieces.
Proof. refine {| send_part n := Nat.min n 3; recv_part n := Nat.min n 3 |}; [lia|lia|reflexivity]. Defined.

Module Recv.

Section Machine.
Context {aead : AeadOps}.

(** ** The receive side *)

(** A receive direction, its secret, and the bytes of an unfinished message; the
    peer has closed; or the session is over. *)
Inductive rx := Rx (d : rec_dir) (secret part : list Z) | Closed | Dead.

(** Bytes that no whole message begins. *)
Definition incomplete (p : list Z) : Prop := (length p < 4)%nat \/ Z.of_nat (length p) < 4 + header_len p.

(** A step: the record it takes, none for a message in the bytes at hand, and what
    it delivers.  A record is taken only when no message is whole, and other than
    handshake bytes only when none has begun; a session may break off at any
    time, with what else it took. *)
Inductive step : rx -> list Z -> list Z -> rx -> Prop :=
  | step_data d s rec cap d' pt : Rec.rec_open d rec cap = Some (d', Some (REC_APPDATA, pt)) -> step (Rx d s []) rec pt (Rx d' s [])
  | step_fragment d s part rec cap d' pt : incomplete part -> Rec.rec_open d rec cap = Some (d', Some (REC_HANDSHAKE, pt)) ->
      step (Rx d s part) rec [] (Rx d' s (part ++ pt))
  | step_ticket d s body rest ticket : Z.of_nat (length body) <= 0x4000 -> parse read_ticket body = Some (Some ticket) ->
      step (Rx d s (message HS_NEW_SESSION_TICKET body ++ rest)) [] [] (Rx d s rest)
  | step_update d s request s' d' : request = 0 \/ request = 1 -> Rec.rec_dir_update s = Some (s', d') ->
      step (Rx d s (message HS_KEY_UPDATE [request])) [] [] (Rx d' s' [])
  | step_canceled d s rec cap d' pt : Rec.rec_open d rec cap = Some (d', Some (REC_ALERT, pt)) -> length pt = 2%nat -> pt !!! 1%nat = ALERT_USER_CANCELED ->
      step (Rx d s []) rec [] (Rx d' s [])
  | step_close d s rec cap d' pt : Rec.rec_open d rec cap = Some (d', Some (REC_ALERT, pt)) -> length pt = 2%nat -> pt !!! 1%nat = ALERT_CLOSE_NOTIFY ->
      step (Rx d s []) rec [] Closed
  | step_broken d s part w : step (Rx d s part) w [] Dead
  | step_ended : step Closed [] [] Dead.

(** The bytes that came, step by step, and the data they carried. *)
Inductive reading : rx -> list Z -> list Z -> rx -> Prop :=
  | reading_none x : reading x [] [] x
  | reading_step x w1 a1 y w2 a2 z : step x w1 a1 y -> reading y w2 a2 z -> reading x (w1 ++ w2) (a1 ++ a2) z.

Lemma reading_app x w1 a1 y w2 a2 z : reading x w1 a1 y -> reading y w2 a2 z -> reading x (w1 ++ w2) (a1 ++ a2) z.
Proof. induction 1 as [x|x w a y w' a' z' H1 H2 IH]; intros Hz; [exact Hz|]. rewrite <- !app_assoc. exact (reading_step _ _ _ _ _ _ _ H1 (IH Hz)). Qed.
Lemma reading_one x w a y : step x w a y -> reading x w a y.
Proof. intros H. rewrite <- (app_nil_r w), <- (app_nil_r a). exact (reading_step _ _ _ _ _ _ _ H (reading_none y)). Qed.
Lemma reading_silent x w y z : reading x w [] y -> reading y [] [] z -> reading x w [] z.
Proof. intros H1 H2. rewrite <- (app_nil_r w). exact (reading_app _ _ _ _ _ _ _ H1 H2). Qed.

Lemma reading_dead w a y : reading Dead w a y -> w = [] /\ a = [] /\ y = Dead.
Proof. intros H. inversion H as [|x w1 a1 z w2 a2 z' Hs Hr]; subst; [done|]. inversion Hs. Qed.
(** Any side may break off, and take nothing more. *)
Lemma reading_end x : reading x [] [] Dead.
Proof. destruct x; [apply reading_one, step_broken|apply reading_one, step_ended|constructor]. Qed.

(** ** The bytes decide what is delivered *)

Lemma opened_head d rec cap d' x : Rec.rec_open d rec cap = Some (d', Some x) ->
  (5 <= length rec)%nat /\ ((rec !!! 3%nat) <<64 8) .| (rec !!! 4%nat) = Z.of_nat (length rec - 5).
Proof.
  unfold Rec.rec_open. destruct (d_seq d =? UINT64_MAX); [discriminate|]. destruct (Nat.ltb_spec (length rec) (REC_HDR + 1 + AEAD_TAG)) as [|Hl]; [discriminate|].
  cbv zeta. unfold REC_HDR, AEAD_TAG in Hl. destruct (Z.eqb_spec (((rec !!! 3%nat) <<64 8) .| (rec !!! 4%nat)) (Z.of_nat (length rec - REC_HDR))) as [E|]; [|rewrite orb_true_r; discriminate].
  intros _. split; [lia|exact E].
Qed.

Lemma opened_once d rec c1 c2 x1 x2 : Rec.rec_open d rec c1 = Some x1 -> Rec.rec_open d rec c2 = Some x2 -> x1.2 <> None -> x2.2 <> None -> x1 = x2.
Proof.
  unfold Rec.rec_open. destruct (d_seq d =? UINT64_MAX); [by intros [= <-]|]. destruct (_ <? _)%nat; [by intros [= <-]|]. cbv zeta.
  destruct (_ || _ || _); [by intros [= <-]|]. destruct (_ <? _); cbn [orb]; [by intros [= <-]|]. destruct (c1 <? _)%nat; [by intros [= <-]|].
  destruct (c2 <? _)%nat; [intros _ [= <-]; by intros _ []|]. intros E1 E2 _ _. rewrite E1 in E2. by injection E2.
Qed.

(** Records at the front of the same bytes are the same record. *)
Lemma opened_prefix d r1 w1 c1 d1 x1 r2 w2 c2 d2 x2 : Rec.rec_open d r1 c1 = Some (d1, Some x1) -> Rec.rec_open d r2 c2 = Some (d2, Some x2) -> r1 ++ w1 = r2 ++ w2 ->
  r1 = r2 /\ w1 = w2 /\ d1 = d2 /\ x1 = x2.
Proof.
  intros E1 E2 E. destruct (opened_head _ _ _ _ _ E1) as [L1 B1]. destruct (opened_head _ _ _ _ _ E2) as [L2 B2].
  assert (Hat : forall i, (i < 5)%nat -> r1 !!! i = r2 !!! i).
  { intros i Hi. rewrite <- (lookup_total_app_l r1 w1), <- (lookup_total_app_l r2 w2) by lia. by rewrite E. }
  rewrite (Hat 3%nat), (Hat 4%nat) in B1 by lia. assert (El : length r1 = length r2) by lia. apply app_inj_1 in E as [-> ->]; [|exact El].
  pose proof (opened_once _ _ _ _ _ _ E1 E2 ltac:(done) ltac:(done)) as Eo. by injection Eo as -> ->.
Qed.

Lemma whole_complete type body rest : Z.of_nat (length body) <= 0x4000 -> ~ incomplete (message type body ++ rest).
Proof.
  intros Hl. destruct (message_header type body rest ltac:(lia)) as [E _]. unfold incomplete. rewrite E, length_app, length_message. lia.
Qed.
Lemma whole_part : incomplete [].
Proof. left. cbn [length]. lia. Qed.

Lemma message_inj t1 b1 r1 t2 b2 r2 : Z.of_nat (length b1) <= 0x4000 -> Z.of_nat (length b2) <= 0x4000 -> message t1 b1 ++ r1 = message t2 b2 ++ r2 -> t1 = t2 /\ b1 = b2 /\ r1 = r2.
Proof.
  intros H1 H2 E. destruct (message_header t1 b1 r1 ltac:(lia)) as [L1 T1]. destruct (message_header t2 b2 r2 ltac:(lia)) as [L2 T2]. rewrite E in L1, T1.
  assert (t1 = t2) as -> by congruence. assert (El : length b1 = length b2) by lia. apply app_inj_1 in E as [E ->]; [|by rewrite !length_message, El].
  apply (f_equal (drop 4)) in E. rewrite !drop_message in E. by subst.
Qed.
Lemma whole_update request : ~ incomplete (message HS_KEY_UPDATE [request]).
Proof. pose proof (whole_complete HS_KEY_UPDATE [request] [] ltac:(by cbn)) as H. by rewrite app_nil_r in H. Qed.

(** Two records, or two messages, at one place: the same step. *)
Ltac same_record :=
  match goal with
  | H1 : Rec.rec_open _ _ _ = Some (_, Some _), H2 : Rec.rec_open _ _ _ = Some (_, Some _), E : _ ++ _ = _ ++ _ |- _ =>
      destruct (opened_prefix _ _ _ _ _ _ _ _ _ _ _ H1 H2 E) as (-> & _ & -> & [=]); subst; try congruence; by split_and!
  end.

Definition rx_open (x : rx) : option (rec_dir * list Z) := match x with Rx d s _ => Some (d, s) | _ => None end.
Definition rx_part (x : rx) : list Z := match x with Rx _ _ part => part | _ => [] end.

#[local] Opaque message.
Lemma step_agree x w1 a1 y1 r1 w2 a2 y2 r2 : step x w1 a1 y1 -> step x w2 a2 y2 -> y1 <> Dead -> y2 <> Dead -> w1 ++ r1 = w2 ++ r2 -> w1 = w2 /\ a1 = a2 /\ y1 = y2.
Proof.
  intros H1 H2 N1 N2 E. remember x as x' eqn:Ex in H2. pose proof (f_equal rx_open Ex) as Eo. pose proof (f_equal rx_part Ex) as Ep.
  destruct H1 as [d s rec cap d' pt O1|d s part rec cap d' pt I1 O1|d s body rest tk L1 P1|d s rq s' d' R1 U1|d s rec cap d' pt O1 L1 A1|d s rec cap d' pt O1 L1 A1|d s part w|];
    try done; destruct H2 as [d2 s2 rec2 cap2 d2' pt2 O2|d2 s2 part2 rec2 cap2 d2' pt2 I2 O2|d2 s2 body2 rest2 tk2 L2 P2|d2 s2 rq2 s2' d2' R2 U2|d2 s2 rec2 cap2 d2' pt2 O2 L2 A2|d2 s2 rec2 cap2 d2' pt2 O2 L2 A2|d2 s2 part2 w2|];
    try done; cbn [rx_open rx_part] in Eo, Ep; try discriminate Eo; apply Some_inj, pair_eq in Eo as [-> ->]; clear Ex.
  all: try (match type of Ep with ?a = ?a => clear Ep | _ = _ => idtac end; subst; same_record).
  - destruct (whole_complete HS_NEW_SESSION_TICKET body2 rest2 L2). rewrite Ep. exact I1.
  - destruct (whole_update rq2). rewrite Ep. exact I1.
  - destruct (whole_complete HS_NEW_SESSION_TICKET body rest L1). rewrite <- Ep. exact I2.
  - apply message_inj in Ep as (_ & -> & ->); [by split_and!|assumption|assumption].
  - destruct (whole_update rq). rewrite <- Ep. exact I2.
  - rewrite U1 in U2. by injection U2 as -> ->.
  - exfalso. destruct (opened_prefix _ _ _ _ _ _ _ _ _ _ _ O1 O2 E) as (_ & _ & _ & Ex). injection Ex as ->. rewrite A1 in A2. discriminate A2.
  - exfalso. destruct (opened_prefix _ _ _ _ _ _ _ _ _ _ _ O1 O2 E) as (_ & _ & _ & Ex). injection Ex as ->. rewrite A1 in A2. discriminate A2.
Qed.
#[local] Transparent message.
Lemma opened_bytes d rec cap d' x : Rec.rec_open d rec cap = Some (d', Some x) -> rec <> [].
Proof. intros H ->. destruct (opened_head _ _ _ _ _ H) as [Hl _]. cbn [length] in Hl. lia. Qed.

Lemma reading_alive x w a y : reading x w a y -> y <> Dead -> x <> Dead.
Proof. intros H Hy ->. by destruct (reading_dead _ _ _ H) as (_ & _ & ->). Qed.
Lemma reading_nothing x a y : reading x [] a y -> y <> Dead -> a = [].
Proof.
  intros H. remember [] as w eqn:Ew. induction H as [x|x w1 a1 z w2 a2 y Hs Hr IH]; intros Hy; [reflexivity|]. apply app_eq_nil in Ew as [-> ->].
  rewrite (IH eq_refl Hy), app_nil_r. pose proof (reading_alive _ _ _ _ Hr Hy) as Hz. remember [] as w eqn:Ew in Hs.
  destruct Hs as [d s rec cap d' pt O|d s part rec cap d' pt I O|d s body rest tk L P|d s rq s' d' R U|d s rec cap d' pt O L A|d s rec cap d' pt O L A|d s part w|]; try reflexivity; [|done..].
  by destruct (opened_bytes _ _ _ _ _ O).
Qed.

(** A side that did not break off was handed what the bytes that came say. *)
Lemma reading_agree x w a1 y1 a2 y2 : reading x w a1 y1 -> reading x w a2 y2 -> y1 <> Dead -> y2 <> Dead -> a1 = a2.
Proof.
  intros H1. revert a2 y2. induction H1 as [x|x w1 a1 z w2 b1 y1 Hs Hr IH]; intros a2 y2 H2 N1 N2.
  - symmetry. by apply (reading_nothing _ _ _ H2).
  - remember (w1 ++ w2) as w eqn:Ew in H2. destruct H2 as [x2|x2 v1 c1 z' v2 c2 y2 Hs' Hr'].
    + symmetry in Ew. apply app_eq_nil in Ew as [-> ->]. apply (reading_nothing x2 (a1 ++ b1) y1); [|exact N1]. exact (reading_step _ _ _ _ _ _ _ Hs Hr).
    + destruct (step_agree _ _ _ _ w2 _ _ _ v2 Hs Hs') as (-> & -> & ->); [by apply (reading_alive _ _ _ _ Hr)|by apply (reading_alive _ _ _ _ Hr')|by symmetry|].
      f_equal. apply app_inv_head in Ew as ->. by apply (IH c2 y2).
Qed.
End Machine.
End Recv.
