(* ===== verification/ConnSafe.v ===== *)
(** * The connected session: its invariant

    Every call of [Conn], over any transport: no assertion fails, every loop
    ends, and the session stays whole or ends wiped.  What it reads follows the
    machine of [ConnRecv] over the bytes its transport gave. *)

From S2P Require Import Prelude Ct MdHash Sha256 Reader Build Wire Hkdf Keysched HsMessage Aead Record Cmd ClientCfg.
From S2P Require Import X25519 HsRecord HsFlight TcpClient TcpProto TcpSession TcpHandshake Conn ConnRecv.
Import Sha256 Hkdf Keysched HsRecord Cfg HsFlight Tcp Proto Conn Recv.
Local Open Scope Z_scope.
Local Open Scope word_scope.

Module Safe.

Section Session.
Context {aead : AeadOps} {laws : AeadLaws aead} {tr : Transport} {trl : TransportLaws tr}.

(** ** The invariant *)

(** KeyUpdates counted: an answer owed is one the epoch cap admits. *)
Definition counts_ok (t : ch_tls) : Prop :=
  0 <= t_send_epochs t <= HSPOST_SEND_EPOCHS_MAX /\ (t_key_update_owed t = true -> t_send_epochs t < HSPOST_SEND_EPOCHS_MAX) /\
  0 <= t_key_update_run t <= CH_KEY_UPDATE_RUN_MAX.

Definition running_t (t : ch_tls) : Prop :=
  session_cfg (t_cfg t) /\ length (t_buf t) = cfg_buf_len (t_cfg t) /\ bytes_ok (t_buf t) /\ length (t_tx t) = (REC_HDR + CH_TX_STAGE)%nat /\
  t_state t = CH_ST_CONNECTED /\ t_keys t = true /\ Rec.dir_ok (t_wr t) /\ Rec.dir_ok (t_rd t) /\
  (t_pt_off t <= t_pt_len t <= cfg_buf_len (t_cfg t))%nat /\ (t_post_fill t <= cfg_buf_len (t_cfg t))%nat /\ 1 <= t_peer_limit t /\ counts_ok t.
Definition running (c : conn) : Prop := running_t (c_t c) /\ byte_ok (c_alert c).
(** The session is over, and its secrets are gone. *)
Definition over (c : conn) : Prop :=
  let t := c_t c in
  (t_state t = CH_ST_CLOSED \/ t_state t = CH_ST_FAILED) /\ t_rd t = zero_dir /\ t_wr t = zero_dir /\
  t_rd_secret t = zero_bytes HKDF_HASH_MAX /\ t_wr_secret t = zero_bytes HKDF_HASH_MAX /\ t_res_master t = zero_bytes HKDF_HASH_MAX /\
  t_keys t = false /\ t_pt_off t = 0%nat /\ t_pt_len t = 0%nat.

(** The receive side of a session. *)
Definition rx_of (c : conn) : rx :=
  let t := c_t c in
  if negb (t_state t =? CH_ST_CONNECTED) then Dead else if t_read_closed t then Closed
  else Rx (t_rd t) (t_rd_secret t) (take (t_post_fill t) (t_buf t)).
(** What closing the receive side leaves of it. *)
Definition read_wiped (t : ch_tls) : Prop :=
  t_rd t = zero_dir /\ t_rd_secret t = zero_bytes HKDF_HASH_MAX /\ t_res_master t = zero_bytes HKDF_HASH_MAX /\ t_pt_off t = 0%nat /\ t_pt_len t = 0%nat.

(** From [c0] to [c]: the bytes that came led the receive side to [x], all but the
    last, [raw], which it has yet to take; nothing was delivered. *)
Definition leads (c0 : conn) (raw : list Z) (x : rx) (c : conn) : Prop :=
  running c /\ (exists w, came (c_io c0) (w ++ raw) (c_io c) /\ reading (rx_of c0) w [] x) /\
  t_cfg (c_t c) = t_cfg (c_t c0) /\ t_read_closed (c_t c) = t_read_closed (c_t c0) /\ t_pt_off (c_t c) = t_pt_off (c_t c0) /\ t_pt_len (c_t c) = t_pt_len (c_t c0).
(** With every byte taken, and the session where the machine is. *)
Definition goes (c0 c : conn) : Prop := leads c0 [] (rx_of c) c.

Lemma store_bytes_ok (mem : list Z) at_ src : bytes_ok mem -> bytes_ok src -> bytes_ok (store_bytes mem at_ src).
Proof. intros Hm Hs. unfold store_bytes. apply Forall_app_2; [by apply Forall_take|]. apply Forall_app_2; [exact Hs|by apply Forall_drop]. Qed.

Lemma running_state c : running c -> t_state (c_t c) = CH_ST_CONNECTED.
Proof. by intros [(_ & _ & _ & _ & Es & _) _]. Qed.
Lemma rx_open c : running c -> t_read_closed (c_t c) = false -> rx_of c = Rx (t_rd (c_t c)) (t_rd_secret (c_t c)) (take (t_post_fill (c_t c)) (t_buf (c_t c))).
Proof. intros Hc Er. unfold rx_of. by rewrite (running_state c Hc), Er. Qed.
Lemma rx_closed c : running c -> t_read_closed (c_t c) = true -> rx_of c = Closed.
Proof. intros Hc Er. unfold rx_of. by rewrite (running_state c Hc), Er. Qed.

Lemma goes_refl c : running c -> goes c c.
Proof. intros H. split; [exact H|]. split; [exists []; split; constructor|]. by split_and!. Qed.

Lemma leads_trans c0 c1 raw x c2 : goes c0 c1 -> leads c1 raw x c2 -> leads c0 raw x c2.
Proof.
  intros (_ & (w1 & C1 & R1) & E1 & E2 & E3 & E4) (H & (w2 & C2 & R2) & F1 & F2 & F3 & F4). split; [exact H|].
  split; [exists (w1 ++ w2); split; [rewrite app_nil_r in C1; rewrite <- app_assoc; exact (came_app _ _ _ _ _ C1 C2)|exact (reading_app _ _ [] _ _ [] _ R1 R2)]|].
  split_and!; congruence.
Qed.
Lemma goes_trans c0 c1 c2 : goes c0 c1 -> goes c1 c2 -> goes c0 c2.
Proof. apply leads_trans. Qed.
Lemma leads_left c0 raw x c : leads c0 raw x c -> (io_left (c_io c) + length raw <= io_left (c_io c0))%nat.
Proof. intros (_ & (w & C & _) & _). apply came_left in C. rewrite length_app in C. lia. Qed.

(** The parts of a session changed. *)
Lemma leads_t c0 raw x c t : leads c0 raw x c -> running_t t -> t_cfg t = t_cfg (c_t c) -> t_read_closed t = t_read_closed (c_t c) ->
  t_pt_off t = t_pt_off (c_t c) -> t_pt_len t = t_pt_len (c_t c) -> leads c0 raw x (c <| c_t := t |>).
Proof. intros ((_ & Ha) & R & E) Ht F1 F2 F3 F4. unfold leads, running. fields. split; [by split|]. split; [exact R|]. rewrite F1, F2, F3, F4. exact E. Qed.
Lemma leads_alert c0 raw x c al : leads c0 raw x c -> byte_ok al -> leads c0 raw x (c <| c_alert := al |>).
Proof. intros ((Ht & _) & R & E) Ha. unfold leads, running. fields. split; [by split|]. split; [exact R|exact E]. Qed.
Lemma leads_io c0 x c w j : leads c0 [] x c -> came (c_io c) w j -> leads c0 w x (c <| c_io := j |>).
Proof.
  intros (H & (v & C & R) & E) Hj. unfold leads, running in *. fields. split; [exact H|]. split; [|exact E]. exists v. split; [|exact R].
  rewrite app_nil_r in C. exact (came_app _ _ _ _ _ C Hj).
Qed.
Lemma leads_quiet c0 raw x c j : leads c0 raw x c -> came (c_io c) [] j -> leads c0 raw x (c <| c_io := j |>).
Proof.
  intros (H & (v & C & R) & E) Hj. unfold leads, running in *. fields. split; [exact H|]. split; [|exact E]. exists v. split; [|exact R].
  rewrite <- (app_nil_r (v ++ raw)). exact (came_app _ _ _ _ _ C Hj).
Qed.
(** The receive side takes what it had yet to take. *)
Lemma leads_step c0 raw x c y : leads c0 raw x c -> step x raw [] y -> leads c0 [] y c.
Proof.
  intros (H & (v & C & R) & E) Hs. split; [exact H|]. split; [|exact E]. exists (v ++ raw). rewrite app_nil_r. split; [exact C|].
  exact (reading_app _ _ [] _ _ [] _ R (reading_one _ _ _ _ Hs)).
Qed.

(** Updates of a running session. *)
Lemma running_buf t at_ bytes : running_t t -> (at_ + length bytes <= cfg_buf_len (t_cfg t))%nat -> bytes_ok bytes ->
  running_t (t <| t_buf := store_bytes (t_buf t) at_ bytes |>).
Proof.
  intros (H1 & H2 & H3 & H4) Hl Hb. unfold running_t, counts_ok in *. fields. split; [exact H1|].
  split; [rewrite length_store_bytes by lia; exact H2|]. split; [by apply store_bytes_ok|exact H4].
Qed.
Lemma running_tx t out : running_t t -> (length out <= REC_HDR + CH_TX_STAGE)%nat -> running_t (t <| t_tx := store_bytes (t_tx t) 0 out |>).
Proof.
  intros (H1 & H2 & H3 & H4 & H5) Hl. unfold running_t, counts_ok in *. fields. split_and!; try assumption; try apply H5.
  rewrite length_store_bytes; [exact H4|]. rewrite H4. exact Hl.
Qed.
(** The fields the invariant bounds. *)
Lemma running_same t t' : running_t t -> t_cfg t' = t_cfg t -> t_buf t' = t_buf t -> t_tx t' = t_tx t -> t_state t' = t_state t -> t_keys t' = t_keys t ->
  t_peer_limit t' = t_peer_limit t -> Rec.dir_ok (t_wr t') -> Rec.dir_ok (t_rd t') -> (t_pt_off t' <= t_pt_len t' <= cfg_buf_len (t_cfg t))%nat ->
  (t_post_fill t' <= cfg_buf_len (t_cfg t))%nat -> counts_ok t' -> running_t t'.
Proof.
  intros H E1 E2 E3 E4 E5 E6 H7 H8 H9 H10 H11. unfold running_t in *. rewrite E1, E2, E3, E4, E5, E6.
  destruct H as (G1 & G2 & G3 & G4 & G5 & G6 & _ & _ & _ & _ & G11 & _). by split_and!; try apply H9.
Qed.
Lemma running_parts t : running_t t -> Rec.dir_ok (t_wr t) /\ Rec.dir_ok (t_rd t) /\ (t_pt_off t <= t_pt_len t <= cfg_buf_len (t_cfg t))%nat /\
  (t_post_fill t <= cfg_buf_len (t_cfg t))%nat /\ counts_ok t.
Proof. by intros (_ & _ & _ & _ & _ & _ & H7 & H8 & H9 & H10 & _ & H11). Qed.

Lemma dir_next d : Rec.dir_ok d -> d_seq d < UINT64_MAX -> Rec.dir_ok (Rec.next_seq d).
Proof. intros (H1 & H2 & H3 & H4 & H5) Hs. split_and!; try assumption. cbn. unfold u64_ok, UINT64_MAX in *. lia. Qed.

(** A seal leaves a direction that can seal. *)
Lemma seal_total_dir d type pt cap : Rec.dir_ok d -> byte_ok type -> bytes_ok pt -> exists d' x, Rec.rec_seal d type pt cap = Some (d', x) /\ Rec.dir_ok d' /\
  match x with Some out => length out = (length pt + 22)%nat /\ bytes_ok out /\ (length out <= cap)%nat | None => True end.
Proof.
  intros Hd Ht Hp. destruct (decide (Rec.seal_fits d (length pt) cap)) as [Hf|Hn].
  - destruct (Rec.rec_seal_correct d type pt cap Hd Ht Hp Hf) as (ct & tag & _ & Hcl & Hcb & Htl & Htb & ->). eexists _, _. split; [reflexivity|].
    destruct Hf as (Hs & _ & Hc). split; [by apply dir_next|]. unfold REC_HDR, AEAD_TAG in *. destruct (Rec.header_ok (length pt + 17)) as [Hhb Hhl].
    rewrite !length_app, Hhl, Hcl, Htl. unfold REC_HDR. split; [lia|]. split; [apply Forall_app_2; [exact Hhb|apply Forall_app_2; [exact Hcb|exact Htb]]|lia].
  - exists d, None. rewrite Rec.rec_seal_refuses; [by split_and!|apply Hd|exact Hn].
Qed.

(** So does an open, and what it opens is shorter than the record. *)
Lemma open_total_dir d rec cap : Rec.dir_ok d -> bytes_ok rec -> exists d' x, Rec.rec_open d rec cap = Some (d', x) /\ Rec.dir_ok d' /\
  match x with Some (ty, pt) => bytes_ok pt /\ (length pt + REC_OVERHEAD <= length rec)%nat | None => True end.
Proof.
  intros Hd Hb. destruct (Rec.rec_open_total d rec cap Hd Hb) as (d' & x & Eo & Hd'). exists d', x. split; [exact Eo|]. split.
  { destruct Hd' as [->|[-> Hs]]; [exact Hd|by apply dir_next]. }
  destruct x as [[ty pt]|]; [|exact I]. apply (Rec.rec_open_accepts d rec cap d' ty pt Hd Hb) in Eo as (Hs & Hf & _ & Hty & _ & Hpt & z & Es). split; [exact Hpt|].
  destruct (Rec.rec_tag_length rec cap Hf) as [_ Hct]. destruct Hf as [Hf _]. destruct (Rec.dir_nonce d Hd) as [_ Hn]. destruct Hd as (Hkl & Hkb & _).
  destruct (seal_total (d_key d) (Rec.nonce_spec (d_iv d) (d_seq d)) (Rec.rec_aad rec) (pt ++ [ty] ++ replicate z 0) Hkb Hkl Hn) as (ct & tag & E & Hl & _).
  { by apply Forall_take. }
  { apply Forall_app_2; [exact Hpt|]. apply Forall_app_2; [by apply Forall_singleton|]. by apply Forall_replicate. }
  rewrite E in Es. injection Es as -> _. rewrite Hct, !length_app in Hl. cbn [length] in Hl. unfold REC_OVERHEAD, REC_HDR, AEAD_TAG in *. lia.
Qed.

Lemma update_total secret : exists next d, Rec.rec_dir_update secret = Some (next, d) /\ Rec.dir_ok d.
Proof.
  rewrite Rec.rec_dir_update_eq. destruct (Rec.rec_dir_init_correct (expand_label_spec 32 secret (str "traffic upd") [] 32)) as (d & -> & Hd & _).
  cbn [mbind option_bind]. by eexists _, d.
Qed.

(** ** Lemmas: sending *)

(** Records sent: the session reads on from where it was. *)
Definition reads_same (t t' : ch_tls) : Prop :=
  t_rd t' = t_rd t /\ t_rd_secret t' = t_rd_secret t /\ t_cfg t' = t_cfg t /\ t_read_closed t' = t_read_closed t /\ t_pt_off t' = t_pt_off t /\
  t_pt_len t' = t_pt_len t /\ t_buf t' = t_buf t /\ t_post_fill t' = t_post_fill t /\ t_peer_limit t' = t_peer_limit t.
Definition sends (c c' : conn) : Prop := running c' /\ came (c_io c) [] (c_io c') /\ reads_same (c_t c) (c_t c').

Lemma sends_refl c : running c -> sends c c.
Proof. intros H. split; [exact H|]. split; [constructor|]. by split_and!. Qed.
Lemma sends_trans c0 c1 c2 : sends c0 c1 -> sends c1 c2 -> sends c0 c2.
Proof.
  intros (_ & C1 & E) (H & C2 & F). split; [exact H|]. split; [exact (came_app _ _ _ _ _ C1 C2)|]. unfold reads_same in *.
  destruct E as (E1 & E2 & E3 & E4 & E5 & E6 & E7 & E8 & E9), F as (F1 & F2 & F3 & F4 & F5 & F6 & F7 & F8 & F9). split_and!; congruence.
Qed.
Lemma sends_t c t : running c -> running_t t -> reads_same (c_t c) t -> sends c (c <| c_t := t |>).
Proof. intros [_ Ha] Ht E. unfold sends, running. fields. split; [by split|]. split; [constructor|exact E]. Qed.
Lemma sends_rx c c' : running c -> sends c c' -> rx_of c' = rx_of c.
Proof.
  intros Hc (Hc' & _ & E1 & E2 & _ & E4 & _ & _ & E7 & E8 & _). unfold rx_of. by rewrite (running_state c Hc), (running_state c' Hc'), E1, E2, E4, E7, E8.
Qed.
Lemma sends_goes c c' : running c -> sends c c' -> goes c c'.
Proof.
  intros Hc Hs. unfold goes. rewrite (sends_rx c c' Hc Hs). destruct Hs as (H & C & _ & _ & E3 & E4 & E5 & E6 & _). split; [exact H|].
  split; [exists []; split; [exact C|constructor]|]. by split_and!.
Qed.

Lemma send_loop_sends fuel : forall p c, (length p <= fuel)%nat -> running c ->
  wp (send_loop fuel p) (fun _ c' => sends c c' /\ c_t c' = c_t c) (fun rc c' => sends c c' /\ c_t c' = c_t c /\ rc <> CH_ECLOSED) c.
Proof.
  induction fuel as [|fuel IH]; intros p c Hl Hc; cbn [send_loop]; destruct (Nat.eqb_spec (length p) 0) as [|Hne]; try by (split; [by apply sends_refl|reflexivity]).
  - lia.
  - wps. destruct (io_send (c_io c) p) as [sent i] eqn:Es. wps.
    assert (Hs : sends c (c <| c_io := i |>)).
    { unfold sends, running. fields. split; [exact Hc|]. split; [|by split_and!]. apply (came_sent _ p). rewrite Es. constructor. }
    destruct (_ || _) eqn:Eb; [split; [exact Hs|split; [reflexivity|discriminate]]|]. apply orb_false_iff in Eb as [E1 _]. apply Z.leb_gt in E1.
    eapply wp_mono; [apply (IH (drop (Z.to_nat sent) p) _ ltac:(rewrite length_drop; lia) (proj1 Hs))| |]; cbv beta.
    + intros _ c' [H1 H2]. split; [exact (sends_trans _ _ _ Hs H1)|exact H2].
    + intros rc c' (H1 & H2 & H3). split; [exact (sends_trans _ _ _ Hs H1)|]. by split.
Qed.

Lemma send_sends p c Q E : running c -> (forall c', sends c c' -> c_t c' = c_t c -> Q () c') -> (forall rc c', sends c c' -> rc <> CH_ECLOSED -> E rc c') -> wp (io_send_all p) Q E c.
Proof.
  intros Hc HQ HE. eapply wp_mono; [exact (send_loop_sends (length p) p c ltac:(lia) Hc)| |]; cbv beta.
  - intros [] c' [H1 H2]. by apply HQ.
  - intros rc c' (H1 & _ & H3). by apply HE.
Qed.

(** The send direction after a record, and the record staged. *)
Lemma running_sealed t d out : running_t t -> Rec.dir_ok d -> (length out <= length (t_tx t))%nat ->
  running_t (t <| t_wr := d |> <| t_tx := store_bytes (t_tx t) 0 out |>).
Proof.
  intros Ht Hd Hl. destruct (running_parts t Ht) as (_ & Hr & Hq & Hp & Hk). change (t_tx t) with (t_tx (t <| t_wr := d |>)). apply running_tx.
  - apply (running_same t); fields; first [reflexivity|assumption|exact Hk].
  - destruct Ht as (_ & _ & _ & <- & _). exact Hl.
Qed.

Lemma send_alert_sends level description Q E c : running c -> byte_ok level -> byte_ok description ->
  (forall c', sends c c' -> Q () c') -> (forall rc c', sends c c' -> E rc c') -> wp (tlsi_send_alert level description) Q E c.
Proof.
  intros Hc Hl Hd HQ HE. unfold tlsi_send_alert, upd. wps. pose proof Hc as [Ht Ha]. pose proof Ht as (_ & _ & _ & Htx & _ & Hk & _). rewrite Hk.
  destruct (running_parts _ Ht) as (H1 & H2 & H3 & H4 & H5).
  destruct (seal_total_dir (t_wr (c_t c)) REC_ALERT [level; description] (length (t_tx (c_t c))) H1) as (d' & x & Es & Hd' & Hx); [by cbn|by apply Forall_cons_2, Forall_singleton|].
  wps. rewrite wp_call by exact Es. wps. cbn [fst snd]. destruct x as [out|]; wps; fields.
  - destruct Hx as (_ & _ & Hol). pose proof (running_sealed (c_t c) d' out Ht Hd' Hol) as Hrs. set (t1 := (c_t c) <| t_wr := d' |> <| t_tx := _ |>) in *.
    assert (Hs1 : sends c (c <| c_t := t1 |>)) by (apply sends_t; [exact Hc|exact Hrs|subst t1; unfold reads_same; fields; by split_and!]).
    apply send_sends; [apply Hs1| |]; [intros c' Hs _; apply HQ|intros rc c' Hs _; apply HE]; by apply (sends_trans _ _ _ Hs1).
  - apply HE. apply sends_t; [exact Hc| |unfold reads_same; fields; by split_and!]. apply (running_same (c_t c)); fields; first [reflexivity|assumption|exact H5].
Qed.

(** ** Lemmas: the end of a session *)

(** What a call that ends the session leaves, from the state it failed in; and
    from the state it began in. *)
Definition quits (c c' : conn) : Prop := over c' /\ came (c_io c) [] (c_io c').
Definition ended (c0 c' : conn) : Prop := over c' /\ exists w, came (c_io c0) w (c_io c') /\ reading (rx_of c0) w [] Dead.

Lemma quits_ended c c' : quits c c' -> ended c c'.
Proof. intros [H C]. split; [exact H|]. exists []. split; [exact C|apply reading_end]. Qed.

(** A failure that ends the session: what is left to send its alert with. *)
Definition broke (c0 : conn) (rc : Z) (c : conn) : Prop :=
  running c /\ t_cfg (c_t c) = t_cfg (c_t c0) /\ rc <> CH_ECLOSED /\ rc <> CH_TCP_AGAIN /\ exists w, came (c_io c0) w (c_io c) /\ reading (rx_of c0) w [] Dead.

Lemma broke_quits c0 rc c c' : broke c0 rc c -> quits c c' -> ended c0 c'.
Proof. intros (_ & _ & _ & _ & w & C & R) [H C']. split; [exact H|]. exists w. split; [rewrite <- (app_nil_r w); exact (came_app _ _ _ _ _ C C')|exact R]. Qed.

(** From an open receive side, whatever came. *)
Lemma leads_broke c0 raw x c rc : running c0 -> t_read_closed (c_t c0) = false -> leads c0 raw x c -> rc <> CH_ECLOSED -> rc <> CH_TCP_AGAIN -> broke c0 rc c.
Proof.
  intros H0 Ho (H & (w & C & _) & E & _) N1 N2. split; [exact H|]. split; [exact E|]. split; [exact N1|]. split; [exact N2|]. exists (w ++ raw). split; [exact C|].
  rewrite (rx_open c0 H0 Ho). apply reading_one, step_broken.
Qed.

Lemma wiped_over t st i al : st = CH_ST_CLOSED \/ st = CH_ST_FAILED -> over (MkConn ((tlsi_wipe t) <| t_state := st |>) i al).
Proof. intros Hs. unfold over, tlsi_wipe. cbn [c_t]. fields. by split_and!. Qed.

Lemma tlsi_fail_wp description Q E c : running c -> byte_ok description -> (forall rc c', quits c c' -> t_state (c_t c') = CH_ST_FAILED -> Q rc c') -> wp (tlsi_fail description) Q E c.
Proof.
  intros Hrun Hd HQ. unfold tlsi_fail. wps.
  assert (Hend : forall c1 x, came (c_io c) [] (c_io c1) ->
    wp (upd tlsi_wipe;; upd (fun t => t <| t_state := CH_ST_FAILED |>);; mret (match (x : res ()) with Ok _ => CH_OK | Code rc => rc end)) Q E c1).
  { intros c1 x C. unfold upd. wps. apply HQ; [split; [|exact C]|reflexivity]. destruct c1 as [t i al]. fields. by apply wiped_over; right. }
  destruct (t_alert_received (c_t c) =? 0); [|wps; apply (Hend c (Ok ())); constructor]. unfold upd at 1. wps.
  set (c1 := c <| c_t := _ |>). assert (Hs1 : sends c c1) by (apply sends_t; [exact Hrun|exact (proj1 Hrun)|unfold reads_same; fields; by split_and!]).
  apply send_alert_sends; [apply Hs1|by cbn|exact Hd| |].
  - intros c2 Hs2. exact (Hend c2 (Ok ()) (proj1 (proj2 (sends_trans _ _ _ Hs1 Hs2)))).
  - intros rc c2 Hs2. exact (Hend c2 (Code rc) (proj1 (proj2 (sends_trans _ _ _ Hs1 Hs2)))).
Qed.

Lemma ends_wp {A} al rc (Q : A -> conn -> Prop) E c : running c -> byte_ok al -> (forall c', quits c c' -> t_state (c_t c') = CH_ST_FAILED -> E rc c') -> wp (ends al rc) Q E c.
Proof. intros Hrun Ha HE. unfold ends. rewrite wp_bind. by apply tlsi_fail_wp. Qed.

(** ** Lemmas: receiving *)

(** The session with [bytes] received into its buffer. *)
Definition stored (c : conn) (at_ : nat) (bytes : list Z) (j : io) : conn :=
  c <| c_t := (c_t c) <| t_buf := store_bytes (t_buf (c_t c)) at_ bytes |> |> <| c_io := j |>.
(** What a receive that failed leaves. *)
Definition spilt (c c' : conn) : Prop := running c' /\ t_cfg (c_t c') = t_cfg (c_t c) /\ exists w, came (c_io c) w (c_io c').

Lemma running_stored c at_ bytes j : running c -> (at_ + length bytes <= cfg_buf_len (t_cfg (c_t c)))%nat -> bytes_ok bytes -> running (stored c at_ bytes j).
Proof. intros [Ht Ha] Hl Hb. split; [|exact Ha]. unfold stored. fields. by apply running_buf. Qed.
Lemma stored_nil c at_ : stored c at_ [] (c_io c) = c.
Proof.
  unfold stored, store_bytes. cbn [app length]. rewrite Nat.add_0_r, take_drop. by destruct c as [[] i al].
Qed.
Lemma stored_then c at_ a b j k : (at_ + length a + length b <= length (t_buf (c_t c)))%nat -> stored (stored c at_ a j) (at_ + length a) b k = stored c at_ (a ++ b) k.
Proof. intros H. unfold stored. fields. rewrite store_bytes_app by exact H. by destruct c as [[] i al]. Qed.
Lemma spilt_stored c at_ bytes j w : running (stored c at_ bytes j) -> came (c_io c) w j -> spilt c (stored c at_ bytes j).
Proof. intros H C. split; [exact H|]. split; [reflexivity|]. exists w. exact C. Qed.
Lemma spilt_then c at_ bytes j w c' : came (c_io c) w j -> spilt (stored c at_ bytes j) c' -> spilt c c'.
Proof. intros C (H & E & v & C'). split; [exact H|]. split; [exact E|]. exists (w ++ v). exact (came_app _ _ _ _ _ C C'). Qed.
Lemma spilt_alert c al : running c -> byte_ok al -> spilt c (c <| c_alert := al |>).
Proof. intros [Ht _] Ha. split; [split; [exact Ht|exact Ha]|]. split; [reflexivity|]. exists []. constructor. Qed.

Lemma recv_wp at_ n Q E c : running c -> (at_ + n <= cfg_buf_len (t_cfg (c_t c)))%nat ->
  (forall bytes j, came (c_io c) bytes j -> bytes_ok bytes -> (0 < length bytes <= n)%nat -> Q (Z.of_nat (length bytes)) (stored c at_ bytes j)) ->
  (forall got bytes j, came (c_io c) [] j -> bytes_ok bytes -> (length bytes <= n)%nat -> ~ 0 < got <= Z.of_nat n -> Q got (stored c at_ bytes j)) -> wp (recv at_ n) Q E c.
Proof.
  intros Hc Hn H1 H2. unfold recv, upd. wps. pose proof (recv_law (c_io c) n) as Hlaw. destruct (io_recv (c_io c) n) as [[got bytes] i] eqn:Er. destruct Hlaw as (Hb & _ & Hg). wps.
  assert (Es : forall b, c <| c_io := i |> <| c_t := (c_t (c <| c_io := i |>)) <| t_buf := store_bytes (t_buf (c_t (c <| c_io := i |>))) at_ b |> |> = stored c at_ b i) by (by intros b; destruct c).
  rewrite Es. destruct (decide (0 < got <= Z.of_nat n)) as [Hgot|Hno].
  - destruct (Hg Hgot) as [Hl _]. rewrite (take_ge bytes) by lia. rewrite <- Hl. apply H1; [|exact Hb|lia].
    rewrite <- (app_nil_r bytes). apply (came_bytes _ _ _ _ _ _ _ Er Hgot). constructor.
  - apply H2; [|by apply Forall_take|rewrite length_take; lia|exact Hno]. apply (came_nothing _ _ _ _ _ _ _ Er Hno). constructor.
Qed.

Lemma read_loop_wp fuel : forall at_ n Q E c, running c -> (n <= fuel)%nat -> (at_ + n <= cfg_buf_len (t_cfg (c_t c)))%nat ->
  (forall bytes j, came (c_io c) bytes j -> bytes_ok bytes -> length bytes = n -> Q () (stored c at_ bytes j)) -> (forall c', spilt c c' -> E CH_EIO c') -> wp (read_loop fuel at_ n) Q E c.
Proof.
  induction fuel as [|fuel IH]; intros at_ n Q E c Hc Hf Hn HQ HE; cbn [read_loop]; destruct (Nat.eqb_spec n 0) as [->|Hne].
  1,3: specialize (HQ [] (c_io c) (came_none _) (Forall_nil_2 _) eq_refl); rewrite stored_nil in HQ; exact HQ.
  - lia.
  - rewrite wp_bind. pose proof Hc as [(_ & Hbl & _) _]. apply recv_wp; [exact Hc|exact Hn| |].
    + intros bytes j C Hb Hl. destruct (Z.leb_spec (Z.of_nat (length bytes)) 0) as [|_]; [lia|]. destruct (Z.ltb_spec (Z.of_nat n) (Z.of_nat (length bytes))) as [|_]; [lia|]. cbn [orb]. rewrite Nat2Z.id.
      apply IH; [apply running_stored; [exact Hc|lia|exact Hb]|lia|unfold stored; fields; lia| |].
      * intros more k C' Hb' Hl'. rewrite stored_then by lia. apply HQ; [exact (came_app _ _ _ _ _ C C')|by apply Forall_app_2|rewrite length_app; lia].
      * intros c' Hs. apply HE. exact (spilt_then _ _ _ _ _ _ C Hs).
    + intros got bytes j C Hb Hl Hno. destruct ((got <=? 0) || (Z.of_nat n <? got)) eqn:Eb.
      * apply HE. apply (spilt_stored c at_ bytes j []); [apply running_stored; [exact Hc|lia|exact Hb]|exact C].
      * apply orb_false_iff in Eb as [E1 E2]. apply Z.leb_gt in E1. apply Z.ltb_ge in E2. lia.
Qed.

Lemma check_body_wp at_ body cap Q E c : running c -> (Z.of_nat REC_HDR + body <= Z.of_nat cap -> Q () c) ->
  (forall rc c', spilt c c' -> rc <> CH_ECLOSED -> rc <> CH_TCP_AGAIN -> E rc c') -> wp (check_body at_ body cap) Q E c.
Proof.
  intros Hc HQ HE. unfold check_body, alert_is. assert (Hs : spilt c c) by (split; [exact Hc|]; split; [reflexivity|]; exists []; constructor). wps. destruct (_ <? body).
  { wps. apply HE; [by apply spilt_alert|discriminate|discriminate]. }
  destruct (body =? 0); [wps; apply HE; [exact Hs|discriminate|discriminate]|]. destruct (_ <? _).
  { wps. apply HE; [|discriminate|discriminate]. apply spilt_alert; [exact Hc|]. by destruct (t_limit_sent (c_t c)). }
  destruct (Z.ltb_spec (Z.of_nat cap) (Z.of_nat REC_HDR + body)); wps; [apply HE; [exact Hs|discriminate|discriminate]|by apply HQ].
Qed.

Lemma store_bytes_at mem off src i : (off <= length mem)%nat -> (i < length src)%nat -> store_bytes mem off src !!! (off + i)%nat = src !!! i.
Proof.
  intros Ho Hi. unfold store_bytes. rewrite lookup_total_app_r by (rewrite length_take; lia). rewrite length_take, Nat.min_l by lia.
  rewrite lookup_total_app_l by lia. f_equal. lia.
Qed.
Lemma stored_head c at_ bytes j : (at_ <= length (t_buf (c_t c)))%nat -> (0 < length bytes)%nat -> t_buf (c_t (stored c at_ bytes j)) !!! at_ = bytes !!! 0%nat.
Proof. intros Ha Hl. unfold stored. fields. pose proof (store_bytes_at (t_buf (c_t c)) at_ bytes 0 Ha Hl) as H. by rewrite Nat.add_0_r in H. Qed.

(** A record read into [cfg.buf + at_]: it is all the transport gave, unless the
    session ends; and CH_TCP_AGAIN is returned before its first byte. *)
Lemma io_read_record_wp at_ cap Q E c : running c -> (at_ + cap = cfg_buf_len (t_cfg (c_t c)))%nat ->
  (forall rec j, came (c_io c) rec j -> bytes_ok rec -> (REC_HDR <= length rec <= cap)%nat -> Q (rec !!! 0%nat, length rec) (stored c at_ rec j)) ->
  (forall bytes j, came (c_io c) [] j -> bytes_ok bytes -> (at_ + length bytes <= cfg_buf_len (t_cfg (c_t c)))%nat -> E CH_TCP_AGAIN (stored c at_ bytes j)) ->
  (forall rc c', spilt c c' -> rc <> CH_ECLOSED -> rc <> CH_TCP_AGAIN -> E rc c') -> wp (io_read_record at_ cap) Q E c.
Proof.
  intros Hc Hcap HQ HA HE. unfold io_read_record. assert (Hsp : spilt c c) by (split; [exact Hc|]; split; [reflexivity|]; exists []; constructor).
  destruct (Nat.ltb_spec cap REC_HDR) as [|Hh]; [wps; apply HE; [exact Hsp|discriminate|discriminate]|].
  pose proof Hc as [(_ & Hbl & _) _]. rewrite wp_bind. apply recv_wp; [exact Hc|lia| |].
  2:{ intros got bytes j C Hb Hl Hno. destruct (Z.eqb_spec got 0) as [->|Hz]; [wps; apply HA; [exact C|exact Hb|lia]|]. destruct ((got <? 0) || (Z.of_nat REC_HDR <? got)) eqn:Es.
    - wps. apply HE; [|discriminate|discriminate]. apply (spilt_stored c at_ bytes j []); [apply running_stored; [exact Hc|lia|exact Hb]|exact C].
    - apply orb_false_iff in Es as [E1 E2]. apply Z.ltb_ge in E1, E2. lia. }
  intros head j1 C1 Hb1 Hl1. destruct (Z.eqb_spec (Z.of_nat (length head)) 0) as [|_]; [lia|]. destruct (Z.ltb_spec (Z.of_nat (length head)) 0) as [|_]; [lia|].
  destruct (Z.ltb_spec (Z.of_nat REC_HDR) (Z.of_nat (length head))) as [|_]; [lia|]. cbn [orb]. rewrite Nat2Z.id, wp_bind. unfold read_exact.
  assert (H1 : running (stored c at_ head j1)) by (apply running_stored; [exact Hc|lia|exact Hb1]).
  apply read_loop_wp; [exact H1|lia|unfold stored; fields; lia| |intros c' Hs; apply HE; [exact (spilt_then _ _ _ _ _ _ C1 Hs)|discriminate|discriminate]].
  intros rest j2 C2 Hb2 Hl2. rewrite stored_then by lia. pose proof (came_app _ _ _ _ _ C1 C2) as C. assert (Hhb : bytes_ok (head ++ rest)) by by apply Forall_app_2.
  assert (Hhl : length (head ++ rest) = REC_HDR) by (rewrite length_app; lia). set (hdr := head ++ rest) in *. clearbody hdr. clear head rest C1 C2 Hb1 Hl1 Hb2 Hl2 H1.
  assert (H2 : running (stored c at_ hdr j2)) by (apply running_stored; [exact Hc|lia|exact Hhb]). wps.
  set (body := _ .| _). assert (Hbb : 0 <= body).
  { subst body. pose proof H2 as [(_ & _ & Hbb & _) _]. pose proof (bytes_ok_total _ (at_ + 4) Hbb) as H4. apply Z.lor_nonneg. split; [apply u64_range|apply H4]. }
  clearbody body. apply check_body_wp; [exact H2| |intros rc c' Hs; apply HE; exact (spilt_then _ _ _ _ _ _ C Hs)]. intros Hfit. rewrite wp_bind.
  rewrite <- Hhl. apply read_loop_wp; [exact H2|reflexivity|unfold stored; fields; lia| |intros c' Hs; apply HE; [exact (spilt_then _ _ _ _ _ _ C Hs)|discriminate|discriminate]].
  intros rest j3 C3 Hb3 Hl3. rewrite stored_then by lia. rewrite wp_bind, wp_gets. rewrite stored_head by (rewrite ?length_app; unfold REC_HDR in *; lia). rewrite <- Hl3, <- length_app, wp_ret.
  apply HQ; [exact (came_app _ _ _ _ _ C C3)|by apply Forall_app_2|rewrite length_app; lia].
Qed.

(** ** Lemmas: messages after the handshake *)

Lemma read_ticket_total body : bytes_ok body -> exists r, parse read_ticket body = Some r.
Proof.
  intros Hb. assert (Ht : total any read_ticket).
  { unfold read_ticket. eapply total_bind; [apply total_u24|]. intros ? _. eapply total_bind; [apply total_u8|]. intros ? _.
    eapply total_bind; [apply total_u24|]. intros ? _. do 6 (eapply total_bind; [first [apply total_u8|apply total_u16|apply total_nbytes]|]; intros ? _).
    eapply total_bind; [apply total_skip|]. intros ? _. repeat total_step. }
  rewrite parse_list by done. destruct (Ht (Some body) Hb) as (r & s' & -> & _). by exists r.
Qed.

(** The receive side is at [part], handshake bytes at hand. *)
Definition drains (c0 : conn) (part : list Z) (c : conn) : Prop :=
  t_post_fill (c_t c) = 0%nat /\ leads c0 [] (Rx (t_rd (c_t c)) (t_rd_secret (c_t c)) part) c.
(** What handling messages leaves alone. *)
Definition posted (c c' : conn) : Prop := t_buf (c_t c') = t_buf (c_t c) /\ came (c_io c) [] (c_io c').

Lemma posted_refl c : posted c c.
Proof. split; [reflexivity|constructor]. Qed.
Lemma posted_trans c1 c2 c3 : posted c1 c2 -> posted c2 c3 -> posted c1 c3.
Proof. intros [E1 C1] [E2 C2]. split; [congruence|exact (came_app _ _ _ _ _ C1 C2)]. Qed.

Lemma drains_alert c0 part c al : drains c0 part c -> byte_ok al -> drains c0 part (c <| c_alert := al |>).
Proof. intros [Hp Hd] Ha. split; [exact Hp|]. by apply leads_alert. Qed.

Section From.
Context (c0 : conn) (H0 : running c0) (Ho : t_read_closed (c_t c0) = false).

Lemma drains_open part c : drains c0 part c -> t_read_closed (c_t c) = false.
Proof. intros (_ & _ & _ & _ & E & _). congruence. Qed.
Lemma drains_broke part c rc : drains c0 part c -> rc <> CH_ECLOSED -> rc <> CH_TCP_AGAIN -> broke c0 rc c.
Proof. intros [_ H]. exact (leads_broke _ _ _ _ _ H0 Ho H). Qed.
Lemma drains_refuses part c al rc : drains c0 part c -> byte_ok al -> rc <> CH_ECLOSED -> rc <> CH_TCP_AGAIN -> broke c0 rc (c <| c_alert := al |>).
Proof. intros Hd Ha. exact (drains_broke _ _ _ (drains_alert _ _ _ _ Hd Ha)). Qed.
Lemma drains_goes c : drains c0 [] c -> goes c0 c.
Proof.
  intros Hd. pose proof (drains_open _ _ Hd) as Eo. destruct Hd as [Hp Hd]. unfold goes. rewrite (rx_open c (proj1 Hd) Eo), Hp, take_0. exact Hd.
Qed.

Lemma handle_ticket_wp body rest Q E c : drains c0 (message HS_NEW_SESSION_TICKET body ++ rest) c -> bytes_ok body -> Z.of_nat (length body) <= 0x4000 ->
  (forall c', drains c0 rest c' -> posted c c' -> Q () c') -> (forall rc c', broke c0 rc c' -> E rc c') -> wp (handle_ticket body) Q E c.
Proof.
  intros Hd Hb Hl HQ HE. unfold handle_ticket, alert_is. destruct (read_ticket_total body Hb) as [r Er]. wps. rewrite wp_call by exact Er.
  destruct r as [ticket|]; [|wps; apply HE, (drains_refuses _ _ _ _ Hd); [by cbn|discriminate..]].
  assert (Hr : drains c0 rest c) by (split; [apply Hd|]; exact (leads_step _ _ _ _ _ (proj2 Hd) (step_ticket _ _ _ _ _ Hl Er))).
  destruct ticket as [[[lifetime age] nonce] identity]. destruct io_on_ticket as [f|] eqn:Ef; [|wps; by apply HQ, posted_refl].
  destruct (_ || _) eqn:Eg; [wps; by apply HQ, posted_refl|].
  apply orb_false_iff in Eg as [Eg _]. apply orb_false_iff in Eg as [_ Eg]. apply Nat.ltb_ge in Eg. wps.
  assert (Ep : ks_res_psk SHA256_LEN (t_res_master (c_t c)) nonce = Some (expand_label_spec SHA256_LEN (t_res_master (c_t c)) (str "resumption") nonce SHA256_LEN)).
  { unfold ks_res_psk. apply hkdf_expand_label_correct; [by left|]. apply label_args; [by left|unfold ks_label; cbn; lia|exact Eg]. }
  rewrite wp_call by exact Ep. wps. set (tk := Ticket _ _ _ _ _). assert (Hc : came (c_io c) [] (f (c_io c) tk)) by (apply (came_ticket _ tk _ _ _ Ef); constructor).
  apply HQ; [|split; [by fields|exact Hc]]. split; [apply Hr|]. exact (leads_quiet _ _ _ _ _ (proj2 Hr) Hc).
Qed.

Lemma take_key_update_wp body rest ends_input Q E c : drains c0 (message HS_KEY_UPDATE body ++ rest) c -> bytes_ok body -> (ends_input = true -> rest = []) ->
  (forall c', drains c0 rest c' -> posted c c' -> Q () c') -> (forall rc c', broke c0 rc c' -> E rc c') -> wp (take_key_update body ends_input) Q E c.
Proof.
  intros Hd Hb Hrest HQ HE. unfold take_key_update, alert_is.
  assert (Hbr : forall al rc, byte_ok al -> rc <> CH_ECLOSED -> rc <> CH_TCP_AGAIN -> E rc (c <| c_alert := al |>)) by (intros al rc Ha N1 N2; exact (HE _ _ (drains_refuses _ _ _ _ Hd Ha N1 N2))).
  assert (Hbr' : forall rc, rc <> CH_ECLOSED -> rc <> CH_TCP_AGAIN -> E rc c) by (intros rc N1 N2; exact (HE _ _ (drains_broke _ _ _ Hd N1 N2))).
  destruct body as [|request [|? ?]]; cbn [length Nat.eqb negb]; [wps; apply Hbr; [by cbn|discriminate..]| |wps; apply Hbr; [by cbn|discriminate..]].
  cbn [lookup_total list_lookup_total]. assert (Hrq : byte_ok request) by exact (bytes_ok_total [request] 0 Hb). destruct (Z.ltb_spec 1 request); [wps; apply Hbr; [by cbn|discriminate..]|].
  destruct ends_input; cbn [negb]; [|wps; apply Hbr'; discriminate]. rewrite (Hrest eq_refl) in *. clear rest Hrest. rewrite app_nil_r in Hd.
  wps. destruct (Z.leb_spec CH_KEY_UPDATE_RUN_MAX (t_key_update_run (c_t c))) as [|Hrun]; [wps; apply Hbr'; discriminate|].
  unfold handle_key_update, upd. wps. fields. destruct Hd as [Hpf Hd]. pose proof Hd as ((Ht & Ha) & _). destruct (running_parts _ Ht) as (Hw & Hr & Hq & Hp & He & Hoe & Hk).
  destruct (update_total (t_rd_secret (c_t c))) as (s' & d' & Eu & Hd'). rewrite wp_call by exact Eu. wps. fields.
  assert (Hn : u8 (t_key_update_run (c_t c) + 1) = t_key_update_run (c_t c) + 1) by (apply u8_small; unfold CH_KEY_UPDATE_RUN_MAX, byte_ok in *; lia).
  assert (Hstep : forall b, (b = true -> t_send_epochs (c_t c) < HSPOST_SEND_EPOCHS_MAX) -> drains c0 [] (c <| c_t := (c_t c) <| t_key_update_run := u8 (t_key_update_run (c_t c) + 1) |>
    <| t_rd_secret := s' |> <| t_rd := d' |> <| t_key_update_owed := b |> |>)).
  { intros b Hb'. split; fields; [exact Hpf|]. apply leads_t; fields; try reflexivity.
    - refine (leads_step _ _ _ _ _ Hd (step_update _ _ _ _ _ _ Eu)). unfold byte_ok in Hrq. lia.
    - apply (running_same (c_t c)); fields; try reflexivity; try assumption. unfold counts_ok. fields. rewrite Hn. unfold CH_KEY_UPDATE_RUN_MAX in *. split_and!; first [assumption|lia]. }
  destruct ((request =? 1) && _) eqn:Ereq.
  - apply andb_true_iff in Ereq as [_ Ereq]. apply Z.ltb_lt in Ereq. wps. fields. apply HQ; [by apply Hstep|split; [by fields|constructor]].
  - wps. specialize (Hstep (t_key_update_owed (c_t c)) Hoe). apply HQ; [|split; [by fields|constructor]]. fields. destruct c as [t i al], t. exact Hstep.
Qed.

(** A message at an offset, and what follows it. *)
Lemma message_at pt off : bytes_ok pt -> (4 <= length pt - off)%nat ->
  ((pt !!! (off + 1)%nat) <<64 16) .| ((pt !!! (off + 2)%nat) <<64 8) .| (pt !!! (off + 3)%nat) = header_len (drop off pt) /\ 0 <= header_len (drop off pt) /\
  forall m, Z.of_nat m = header_len (drop off pt) -> (off + (4 + m) <= length pt)%nat ->
    drop off pt = message (pt !!! off) (take m (drop (off + 4) pt)) ++ drop (off + (4 + m)) pt /\ length (take m (drop (off + 4) pt)) = m.
Proof.
  intros Hb Hl. assert (Hu : bytes_ok (drop off pt)) by by apply Forall_drop. assert (Hlu : (4 <= length (drop off pt))%nat) by (rewrite length_drop; lia).
  destruct (header_split _ Hu Hlu) as (Eh & Hh & _). rewrite !lookup_total_drop in Eh. split; [exact Eh|]. split; [lia|]. intros m Em Hm.
  destruct (message_split _ Hu Hlu) as [Es Ed]; [rewrite length_drop; lia|]. rewrite <- Em, Nat2Z.id, drop_drop in Es, Ed.
  rewrite lookup_total_drop, Nat.add_0_r in Es. replace (4 + m - 4)%nat with m in Es, Ed by lia. split; [|exact Ed]. by rewrite <- Es, <- (drop_drop pt), take_drop.
Qed.

Lemma post_loop_wp pt fuel : bytes_ok pt -> forall off Q E c, drains c0 (drop off pt) c -> (off <= length pt)%nat -> (length pt <= off + fuel)%nat ->
  (forall n c', drains c0 (drop n pt) c' -> incomplete (drop n pt) -> (off <= n <= length pt)%nat -> posted c c' -> Q n c') ->
  (forall rc c', broke c0 rc c' -> E rc c') -> wp (post_loop fuel pt off) Q E c.
Proof.
  intros Hb. induction fuel as [|fuel IH]; intros off Q E c Hd Hoff Hf HQ HE; cbn [post_loop].
  { destruct (Nat.ltb_spec (length pt - off) 4) as [|H4]; [|lia]. wps. apply HQ; [exact Hd|left; rewrite length_drop; lia|lia|apply posted_refl]. }
  destruct (Nat.ltb_spec (length pt - off) 4) as [|H4]; [wps; apply HQ; [exact Hd|left; rewrite length_drop; lia|lia|apply posted_refl]|].
  wps. destruct (message_at pt off Hb H4) as (Em & Hm & Hmsg). rewrite Em. set (m := header_len (drop off pt)) in *.
  destruct (Z.ltb_spec 0x4000 m) as [|Hcap]; cbn [orb]; [wps; apply HE, (drains_broke _ _ _ Hd); discriminate|].
  destruct (_ <? _); [wps; apply HE, (drains_broke _ _ _ Hd); discriminate|].
  destruct (Nat.ltb_spec (length pt) (off + (4 + Z.to_nat m))) as [Hpart|Hfit].
  { wps. apply HQ; [exact Hd|right; fold m; rewrite length_drop; lia|lia|apply posted_refl]. }
  destruct (Hmsg (Z.to_nat m) ltac:(lia) Hfit) as [Es El]. assert (Hbody : bytes_ok (take (Z.to_nat m) (drop (off + 4) pt))) by by apply Forall_take, Forall_drop.
  clear Hmsg Em. set (body := take _ (drop (off + 4) pt)) in *. set (next := (off + (4 + Z.to_nat m))%nat) in *. rewrite Es in Hd.
  assert (Hnext : forall c', drains c0 (drop next pt) c' -> posted c c' -> wp (post_loop fuel pt next) Q E c').
  { intros c' Hc' Hp. apply IH; [exact Hc'|exact Hfit|subst next; lia| |exact HE]. intros n c2 H1 H2 H3 H4'. apply HQ; [exact H1|exact H2|subst next; lia|by apply (posted_trans c c')]. }
  wps. destruct (Z.eqb_spec (pt !!! off) HS_NEW_SESSION_TICKET) as [Et|_]; [|destruct (Z.eqb_spec (pt !!! off) HS_KEY_UPDATE) as [Et|_]].
  - rewrite Et in Hd. apply (handle_ticket_wp _ _ _ _ _ Hd Hbody); [lia|exact Hnext|exact HE].
  - rewrite Et in Hd. apply (take_key_update_wp _ _ _ _ _ _ Hd Hbody); [|exact Hnext|exact HE]. intros Ee. apply Nat.eqb_eq in Ee. rewrite Ee. apply drop_all.
  - wps. apply HE, (drains_broke _ _ _ Hd); discriminate.
Qed.

(** The receive direction after a record, and the record's plaintext in place. *)
Lemma running_opened t d at_ pt : running_t t -> Rec.dir_ok d -> bytes_ok pt -> (at_ + length pt <= cfg_buf_len (t_cfg t))%nat ->
  running_t (t <| t_rd := d |> <| t_buf := store_bytes (t_buf t) at_ pt |>).
Proof.
  intros Ht Hd Hb Hl. destruct (running_parts t Ht) as (Hw & _ & Hq & Hp & Hk). change (t_buf t) with (t_buf (t <| t_rd := d |>)). apply running_buf; fields; [|exact Hl|exact Hb].
  apply (running_same t); fields; first [reflexivity|assumption|exact Hk].
Qed.

Lemma broke_alert_received rc c n al : broke c0 rc c -> byte_ok al -> broke c0 rc (c <| c_t := (c_t c) <| t_alert_received := n |> |> <| c_alert := al |>).
Proof. intros ((Ht & _) & E) Ha. split; [split; fields; [exact Ht|exact Ha]|]. exact E. Qed.

Lemma refuse_alert_broke {A} pt (Q : A -> conn -> Prop) E c : broke c0 CH_EPROTO c -> (forall c', broke c0 CH_EPROTO c' -> E CH_EPROTO c') ->
  wp (on (fun c => (wiped_hs (c_t c)) <| h_alert := c_alert c |>) (fun h c => c <| c_t := h_t h |> <| c_alert := h_alert h |>) (hsr_refuse_alert pt)) Q E c.
Proof.
  intros Hc HE. unfold hsr_refuse_alert, refuse, set_alert, upd_t. wps. pose proof Hc as ((_ & Ha) & _).
  assert (Hb : forall n al, byte_ok al -> broke c0 CH_EPROTO (c <| c_t := (c_t c) <| t_alert_received := n |> |> <| c_alert := al |>)) by (intros n al; by apply broke_alert_received).
  destruct (negb (length pt =? 2)%nat).
  - wps. apply HE. specialize (Hb (t_alert_received (c_t c)) ALERT_DECODE_ERROR ltac:(by cbn)). destruct c as [t i al], t. exact Hb.
  - cbv zeta. destruct (_ && _); wps; apply HE; [exact (Hb _ _ Ha)|]. specialize (Hb (t_alert_received (c_t c)) _ Ha). destruct c as [t i al], t. exact Hb.
Qed.

(** A fragment opened behind the bytes at hand. *)
Lemma open_fragment_wp part rec outer Q E c : leads c0 rec (Rx (t_rd (c_t c)) (t_rd_secret (c_t c)) part) c -> t_post_fill (c_t c) = 0%nat -> incomplete part ->
  take (length part) (t_buf (c_t c)) = part -> take (length rec) (drop (length part) (t_buf (c_t c))) = rec -> (length part + length rec <= cfg_buf_len (t_cfg (c_t c)))%nat ->
  (forall n c', drains c0 (take (length part + n) (t_buf (c_t c'))) c' -> (length part + n <= cfg_buf_len (t_cfg (c_t c')))%nat -> c_io c' = c_io c -> Q n c') ->
  (forall rc c', broke c0 rc c' -> E rc c') -> wp (open_fragment (length part) outer (length rec)) Q E c.
Proof.
  intros Hd Hpf Hinc Epart Erec Hfit HQ HE. unfold open_fragment, upd, alert_is. wps.
  assert (Hbr : forall rc c', running c' -> t_cfg (c_t c') = t_cfg (c_t c) -> c_io c' = c_io c -> rc <> CH_ECLOSED -> rc <> CH_TCP_AGAIN -> broke c0 rc c').
  { intros rc c' H E1 E2 N1 N2. destruct (leads_broke _ _ _ _ rc H0 Ho Hd N1 N2) as (_ & F1 & _ & _ & F2). unfold broke. rewrite E1, E2. by split_and!. }
  pose proof Hd as ((Ht & Ha) & _). destruct (negb (outer =? REC_APPDATA)).
  { wps. apply HE, Hbr; fields; try reflexivity; try discriminate. split; fields; [exact Ht|by cbn]. }
  pose proof Ht as (_ & Hbl & Hbb & _). destruct (running_parts _ Ht) as (Hw & Hrd & Hq & Hp & Hk).
  destruct (open_total_dir (t_rd (c_t c)) (take (length rec) (drop (length part) (t_buf (c_t c)))) (cfg_buf_len (t_cfg (c_t c)) - length part) Hrd) as (d' & x & Eo & Hd' & Hx); [by apply Forall_take, Forall_drop|].
  rewrite wp_bind, wp_call by exact Eo. cbn [fst snd]. rewrite Erec in Eo. destruct x as [[ty pt]|].
  2:{ wps. fields. apply HE, Hbr; fields; try reflexivity; try discriminate. split; fields; [|by cbn]. apply (running_same (c_t c)); fields; first [reflexivity|assumption|exact Hk]. }
  destruct Hx as [Hpt Hpl]. rewrite length_take, length_drop in Hpl.
  assert (Hrun : running_t ((c_t c) <| t_rd := d' |> <| t_buf := store_bytes (t_buf (c_t c)) (length part) pt |>)) by (apply running_opened; try assumption; lia).
  wps. fields. destruct (ty =? REC_ALERT).
  - apply refuse_alert_broke; [|by intros; apply HE]. apply Hbr; fields; try reflexivity; try discriminate. split; fields; [exact Hrun|exact Ha].
  - destruct (Z.eqb_spec ty REC_HANDSHAKE) as [->|]; wps; fields.
    + apply HQ; fields; [|lia|reflexivity]. split; fields; [exact Hpf|]. unfold store_bytes. rewrite Epart, app_assoc, take_app_le, take_ge by (rewrite length_app; lia).
      apply leads_t; fields; try reflexivity; [exact (leads_step _ _ _ _ _ Hd (step_fragment _ _ _ _ _ _ _ Hinc Eo))|].
      unfold store_bytes in Hrun. rewrite Epart, app_assoc in Hrun. exact Hrun.
    + apply HE, Hbr; fields; try reflexivity; try discriminate. split; fields; [exact Hrun|exact Ha].
Qed.

(** A fragment still to come, or the end of the session. *)
Definition stops (rc : Z) (c : conn) : Prop := (rc = CH_TCP_AGAIN /\ goes c0 c) \/ broke c0 rc c.

Lemma stored_part c at_ bytes j : (at_ + length bytes <= length (t_buf (c_t c)))%nat ->
  take at_ (t_buf (c_t (stored c at_ bytes j))) = take at_ (t_buf (c_t c)) /\ take (length bytes) (drop at_ (t_buf (c_t (stored c at_ bytes j)))) = bytes.
Proof.
  intros Hl. unfold stored. fields. unfold store_bytes. split; [rewrite take_app_le, take_take by (rewrite length_take; lia); by rewrite Nat.min_id|].
  by rewrite drop_app_length', take_app_length by (rewrite length_take; lia).
Qed.

Lemma drain_run_wp fuel : forall quiet fill Q E c, drains c0 (take fill (t_buf (c_t c))) c -> (fill <= cfg_buf_len (t_cfg (c_t c)))%nat -> (io_left (c_io c) < fuel)%nat ->
  (forall c', goes c0 c' -> Q () c') -> (forall rc c', stops rc c' -> E rc c') -> wp (drain_run fuel quiet fill) Q E c.
Proof.
  induction fuel as [|fuel IH]; intros quiet fill Q E c Hd Hfill Hf HQ HE; [lia|]. cbn [drain_run]. destruct (negb (quiet <? CH_QUIET_CAP)%nat).
  { wps. apply HE. right. apply (drains_broke _ _ _ Hd); discriminate. }
  pose proof Hd as (_ & ((_ & Hbl & Hbb & _) & _) & _). wps. assert (Hlp : length (take fill (t_buf (c_t c))) = fill) by (rewrite length_take; lia).
  apply post_loop_wp; [by apply Forall_take|by rewrite drop_0|lia|lia| |intros rc c' Hb; apply HE; by right].
  intros used c1 Hd1 Hinc Hu [Eb1 C1]. rewrite Hlp in Hu. destruct (Nat.eqb_spec used fill) as [->|Hne].
  { wps. apply HQ, drains_goes. by rewrite drop_ge in Hd1 by lia. }
  unfold upd. wps. rewrite Eb1. set (part := drop used (take fill (t_buf (c_t c)))) in *. assert (Hpl : length part = (fill - used)%nat) by (subst part; rewrite length_drop; lia).
  assert (Ekept : take (fill - used) (drop used (t_buf (c_t c))) = part) by (subst part; rewrite take_drop_commute; do 2 f_equal; lia). rewrite Ekept, <- Hpl.
  pose proof Hd1 as (Hpf1 & ((Ht1 & Ha1) & _ & Ecfg1 & _)). pose proof Hd as (_ & (_ & _ & Ecfg & _)).
  assert (Hbp : bytes_ok part) by by apply Forall_drop, Forall_take. assert (Hfp : (0 + length part <= cfg_buf_len (t_cfg (c_t c1)))%nat) by (rewrite Ecfg1, <- Ecfg; lia).
  assert (Hd2 : drains c0 part (c1 <| c_t := (c_t c1) <| t_buf := store_bytes (t_buf (c_t c1)) 0 part |> |>)).
  { split; fields; [exact Hpf1|]. apply leads_t; fields; try reflexivity; [apply Hd1|]. by apply running_buf. }
  rewrite <- Eb1. set (c2 := c1 <| c_t := _ |>) in *. assert (C2 : c_io c2 = c_io c1) by reflexivity. assert (Ecfg2 : t_cfg (c_t c2) = t_cfg (c_t c1)) by reflexivity.
  assert (Epart : take (length part) (t_buf (c_t c2)) = part).
  { subst c2. fields. apply (take_store_bytes _ 0 part). destruct Ht1 as (_ & -> & _). lia. }
  pose proof Hd2 as (Hpf2 & Hl2). pose proof Hl2 as (Hrun2 & _). pose proof Hrun2 as ((_ & Hbl2 & _) & _). clearbody c2. clear Ekept Eb1 Hlp. apply came_left in C1. cbn [length] in C1.
  assert (Ecc : t_cfg (c_t c) = t_cfg (c_t c2)) by congruence. rewrite Ecc in *.
  apply io_read_record_wp; [exact Hrun2|lia| | |].
  - intros rec j Cj Hrec Hlr. cbv beta iota. destruct (stored_part c2 (length part) rec j) as [E1 E2]; [lia|]. rewrite Epart in E1. pose proof (came_left _ _ _ Cj) as Lj.
    assert (Hl3 : leads c0 rec (Rx (t_rd (c_t c2)) (t_rd_secret (c_t c2)) part) (stored c2 (length part) rec j)).
    { unfold stored. apply leads_io; fields; [|exact Cj]. apply leads_t; fields; try reflexivity; [exact Hl2|]. apply running_buf; [apply Hrun2|lia|exact Hrec]. }
    wps. apply (open_fragment_wp part rec); [exact Hl3|exact Hpf2|exact Hinc|exact E1|exact E2|unfold stored; fields; lia| |intros rc c' Hb; apply HE; by right].
    intros n c4 Hd4 Hf4 Ci4. apply IH; [exact Hd4|exact Hf4| |exact HQ|exact HE]. rewrite Ci4. unfold stored. fields. unfold REC_HDR in Hlr. rewrite C2 in Lj. lia.
  - intros bytes j Cj Hb Hlb. cbv beta iota. rewrite Z.eqb_refl. wps. apply HE. left. split; [reflexivity|]. destruct (stored_part c2 (length part) bytes j) as [E1 _]; [lia|]. rewrite Epart in E1.
    assert (Hg : drains c0 part (stored c2 (length part) bytes j)).
    { split; [exact Hpf2|]. unfold stored. apply leads_quiet; fields; [|exact Cj]. apply leads_t; fields; try reflexivity; [exact Hl2|]. apply running_buf; [apply Hrun2|lia|exact Hb]. }
    set (c3 := stored _ _ _ _) in *. pose proof (drains_open _ _ Hg) as Eo3. destruct Hg as [_ Hg]. pose proof Hg as ((Ht3 & Ha3) & _). destruct (running_parts _ Ht3) as (H1 & H2 & H3 & _ & H5).
    assert (Hrun3 : running_t ((c_t c3) <| t_post_fill := length part |>)).
    { apply (running_same (c_t c3)); fields; first [reflexivity|assumption|exact H5|subst c3; unfold stored; fields; lia]. }
    assert (Hl : leads c0 [] (Rx (t_rd (c_t c3)) (t_rd_secret (c_t c3)) part) (c3 <| c_t := (c_t c3) <| t_post_fill := length part |> |>)) by (apply leads_t; fields; try reflexivity; assumption).
    unfold goes. rewrite (rx_open _ (proj1 Hl)) by (fields; exact Eo3). fields. rewrite E1. exact Hl.
  - intros rc c' (Hr' & Ec' & v & Cv) N1 N2. cbv beta iota. destruct (Z.eqb_spec rc CH_TCP_AGAIN) as [|_]; [done|]. wps. apply HE. right.
    destruct Hl2 as (_ & (w & C & _) & _). split; [exact Hr'|]. split; [by rewrite Ec', Ecfg2, Ecfg1|]. split; [exact N1|]. split; [exact N2|]. rewrite app_nil_r in C. exists (w ++ v). split; [exact (came_app _ _ _ _ _ C Cv)|].
    rewrite (rx_open c0 H0 Ho). apply reading_one, step_broken.
Qed.
End From.

Lemma hspost_read_wp c0 len Q E c : running c0 -> t_read_closed (c_t c0) = false -> drains c0 (take len (t_buf (c_t c))) c -> (len <= cfg_buf_len (t_cfg (c_t c)))%nat ->
  (forall c', goes c0 c' -> Q () c') -> (forall c', goes c0 c' -> E CH_TCP_AGAIN c') -> (forall rc c', rc <> CH_ECLOSED -> ended c0 c' -> E rc c') -> wp (hspost_read len) Q E c.
Proof.
  intros H0 Ho Hd Hl HQ HA HE. unfold hspost_read, alert_is. wps. apply (drain_run_wp c0 H0 Ho); fields; [by apply drains_alert; [|by cbn]|exact Hl|lia| |].
  - intros c2 Hg. wps. by apply HQ.
  - intros rc c2 [[-> Hg]|Hb]; cbv iota; wps; [rewrite Z.eqb_refl; cbn [negb]; wps; by apply HA|].
    pose proof Hb as (Hr2 & _ & H1 & H2 & _). destruct (Z.eqb_spec rc CH_TCP_AGAIN) as [|_]; [done|]. cbn [negb]. wps. apply tlsi_fail_wp; [exact Hr2|exact (proj2 Hr2)|].
    intros rc' c3 Hq _. wps. apply HE; [exact H1|]. exact (broke_quits _ _ _ _ Hb Hq).
Qed.

(** ** Lemmas: reading *)

(** [out] was delivered between [c] and [c']: with what is still queued, it is what
    was queued and then the data of the bytes that came, as the receive side reads
    them. *)
Definition delivers (c : conn) (out : list Z) (c' : conn) : Prop := exists w got rest,
  came (c_io c) w (c_io c') /\ reading (rx_of c) w got (rx_of c') /\ unread (c_t c) ++ got = out ++ rest /\ (running c' -> rest = unread (c_t c')).

Lemma running_reader t : running_t t -> reader_ok t.
Proof. intros (_ & H1 & H2 & _ & _ & _ & _ & _ & H3 & _). by split_and!; try apply H3. Qed.

Lemma over_rx c : over c -> rx_of c = Dead.
Proof. intros ([Hs|Hs] & _); unfold rx_of; by rewrite Hs. Qed.
Lemma over_unread c : over c -> unread (c_t c) = [].
Proof. intros (_ & _ & _ & _ & _ & _ & _ & E1 & E2). unfold unread. by rewrite E1, E2. Qed.
Lemma over_not_running c : over c -> ~ running c.
Proof. intros ([Hs|Hs] & _) ((_ & _ & _ & _ & Hc & _) & _); rewrite Hs in Hc; discriminate. Qed.

Lemma delivers_ended c c' : ended c c' -> delivers c [] c'.
Proof.
  intros [Ho (w & C & R)]. exists w, [], (unread (c_t c)). rewrite app_nil_r, (over_rx c' Ho). split; [exact C|]. split; [exact R|]. split; [reflexivity|].
  intros Hr. by destruct (over_not_running c' Ho).
Qed.
Lemma delivers_sends c c' : running c -> sends c c' -> delivers c [] c'.
Proof.
  intros Hc Hs. exists [], [], (unread (c_t c)). rewrite app_nil_r, (sends_rx c c' Hc Hs). destruct Hs as (_ & C & _ & _ & _ & _ & E5 & E6 & E7 & _).
  split; [exact C|]. split; [constructor|]. split; [reflexivity|]. intros _. unfold unread. congruence.
Qed.
Lemma delivers_refl c : delivers c [] c.
Proof. exists [], [], (unread (c_t c)). rewrite app_nil_r. by split_and!; try constructor. Qed.

Lemma delivers_then c1 o1 c2 o2 c3 : running c2 \/ over c2 -> (over c2 -> over c3) -> delivers c1 o1 c2 -> delivers c2 o2 c3 -> delivers c1 (o1 ++ o2) c3.
Proof.
  intros Hc2 Hov (w1 & g1 & r1 & C1 & R1 & E1 & H1) (w2 & g2 & r2 & C2 & R2 & E2 & H2). pose proof (came_app _ _ _ _ _ C1 C2) as C3. pose proof (reading_app _ _ _ _ _ _ _ R1 R2) as R3. destruct Hc2 as [Hr|Ho].
  - rewrite (H1 Hr) in E1. exists (w1 ++ w2), (g1 ++ g2), r2. split; [exact C3|]. split; [exact R3|]. split; [|exact H2]. by rewrite app_assoc, E1, <- app_assoc, E2, app_assoc.
  - pose proof (Hov Ho) as Ho3. rewrite (over_rx c2 Ho) in R2. apply reading_dead in R2 as (-> & -> & _). rewrite (over_unread c2 Ho) in E2. cbn [app] in E2.
    apply symmetry, app_eq_nil in E2 as [-> ->]. rewrite !app_nil_r in *. exists w1, g1, r1. split; [exact C3|]. split; [exact R3|]. split; [exact E1|]. intros Hr. by destruct (over_not_running c3 Ho3).
Qed.

Lemma queue_empty t : running_t t -> unread t = [] <-> t_pt_off t = t_pt_len t.
Proof.
  intros Ht. pose proof (length_unread t (running_reader t Ht)) as Hl. destruct (running_parts t Ht) as (_ & _ & Hq & _). split.
  - intros Hu. rewrite Hu in Hl. cbn [length] in Hl. lia.
  - intros E. apply length_zero_iff_nil. lia.
Qed.

Lemma goes_queue c c' : running c -> goes c c' -> unread (c_t c) = [] -> unread (c_t c') = [].
Proof. intros [Hc _] ((Hc' & _) & _ & _ & _ & E1 & E2) Hu. apply queue_empty in Hu; [|exact Hc]. apply queue_empty; [exact Hc'|congruence]. Qed.

(** ** One record *)

(** A record read: its data is the queue. *)
Definition took (c c' : conn) : Prop := running c' /\ t_read_closed (c_t c') = false /\
  exists w, came (c_io c) w (c_io c') /\ reading (rx_of c) w (unread (c_t c')) (rx_of c').
(** A record that ended the reading: nothing yet, the peer's close, a failure. *)
Definition halted (c : conn) (rc : Z) (c' : conn) : Prop :=
  (rc = CH_TCP_AGAIN /\ goes c c') \/
  (rc = CH_ECLOSED /\ running c' /\ t_read_closed (c_t c') = true /\ read_wiped (c_t c') /\ exists w, came (c_io c) w (c_io c') /\ reading (rx_of c) w [] Closed) \/
  (rc <> CH_ECLOSED /\ ended c c').

Lemma goes_took c c' : running c -> unread (c_t c) = [] -> t_read_closed (c_t c) = false -> goes c c' -> took c c'.
Proof.
  intros Hc Hu Ho Hg. pose proof (goes_queue c c' Hc Hg Hu) as Hu'. destruct Hg as (H1 & (w & C & R) & _ & E2 & _). unfold took. rewrite Hu'.
  split; [exact H1|]. split; [congruence|]. rewrite app_nil_r in C. by exists w.
Qed.
Lemma ended_halted c rc c' : rc <> CH_ECLOSED -> ended c c' -> halted c rc c'.
Proof. intros Hr H. right. right. by split. Qed.

Lemma running_closed t : running_t t -> running_t (close_read_side t).
Proof.
  intros Ht. destruct (running_parts t Ht) as (H1 & _ & _ & H4 & H5). unfold close_read_side. apply (running_same t); fields; try reflexivity; first [assumption|exact H5|idtac].
  - unfold zero_dir, zero_bytes. split_and!; cbn [d_key d_iv d_seq]; [reflexivity|by apply Forall_replicate|reflexivity|by apply Forall_replicate|unfold u64_ok; lia].
  - split; [reflexivity|]. destruct Ht as (_ & <- & _). lia.
Qed.

Section Dispatch.
Context (c0 : conn) (H0 : running c0) (Ho : t_read_closed (c_t c0) = false).

Lemma ends_halted {A} raw x al rc (Q : A -> conn -> Prop) E c : leads c0 raw x c -> byte_ok al -> rc <> CH_ECLOSED -> rc <> CH_TCP_AGAIN -> (forall rc c', halted c0 rc c' -> E rc c') -> wp (ends al rc) Q E c.
Proof.
  intros Hl Ha N1 N2 HE. apply ends_wp; [apply Hl|exact Ha|]. intros c' Hq _. apply HE, ended_halted; [exact N1|]. exact (broke_quits _ _ _ _ (leads_broke _ _ _ _ _ H0 Ho Hl N1 N2) Hq).
Qed.

Lemma bad_alert_wp raw x pt (Q : () -> conn -> Prop) E c : leads c0 raw x c -> (forall rc c', halted c0 rc c' -> E rc c') ->
  wp (alert_is ALERT_UNEXPECTED_MESSAGE;;
      y ← attempt (A := ()) (on (fun c => (wiped_hs (c_t c)) <| h_alert := c_alert c |>) (fun h c => c <| c_t := h_t h |> <| c_alert := h_alert h |>) (hsr_refuse_alert pt));
      al ← gets c_alert;
      tlsi_fail al;;
      match y with Ok _ => mret () | Code rc => fail rc end) Q E c.
Proof.
  intros Hl HE. unfold alert_is. rewrite wp_bind, wp_modify, wp_bind, wp_attempt. apply (leads_alert _ _ _ _ ALERT_UNEXPECTED_MESSAGE) in Hl; [|by cbn].
  apply (refuse_alert_broke c0); [apply (leads_broke _ _ _ _ _ H0 Ho Hl); discriminate|]. intros c2 Hb. wps. pose proof Hb as (H2 & _). apply tlsi_fail_wp; [exact H2|apply H2|].
  intros rc c3 Hq _. wps. apply HE, ended_halted; [discriminate|]. exact (broke_quits _ _ _ _ Hb Hq).
Qed.

Lemma read_alert_wp pt rec cap d Q E c : leads c0 rec (Rx d (t_rd_secret (c_t c)) []) c -> t_post_fill (c_t c) = 0%nat ->
  Rec.rec_open d rec cap = Some (t_rd (c_t c), Some (REC_ALERT, pt)) -> (goes c0 c -> Q () c) -> (forall rc c', halted c0 rc c' -> E rc c') -> wp (read_alert pt) Q E c.
Proof.
  intros Hl Hpf Eo HQ HE. unfold read_alert, upd. pose proof Hl as (Hc & (w & C & R) & _). destruct (Nat.eqb_spec (length pt) 2) as [El|Hne]; cbn [andb].
  - destruct (Z.eqb_spec (pt !!! 1%nat) ALERT_CLOSE_NOTIFY) as [Ec|_].
    { wps. apply HE. right. left. split; [reflexivity|]. fields. split; [split; fields; [by apply running_closed, Hc|apply Hc]|]. split; [reflexivity|]. split; [by split_and!|].
      exists (w ++ rec). split; [exact C|]. exact (reading_app _ _ [] _ _ [] _ R (reading_one _ _ _ _ (step_close _ _ _ _ _ _ Eo El Ec))). }
    destruct (Z.eqb_spec (pt !!! 1%nat) ALERT_USER_CANCELED) as [Ec|_].
    { wps. apply HQ. apply (drains_goes c0 Ho). split; [exact Hpf|]. exact (leads_step _ _ _ _ _ Hl (step_canceled _ _ _ _ _ _ Eo El Ec)). }
    exact (bad_alert_wp _ _ _ _ _ _ Hl HE).
  - exact (bad_alert_wp _ _ _ _ _ _ Hl HE).
Qed.

Lemma opened_queue t d pt : running_t t -> Rec.dir_ok d -> bytes_ok pt -> (length pt <= cfg_buf_len (t_cfg t))%nat ->
  let t' := t <| t_rd := d |> <| t_buf := store_bytes (t_buf t) 0 pt |> <| t_pt_off := 0%nat |> <| t_pt_len := length pt |> in running_t t' /\ unread t' = pt.
Proof.
  intros Ht Hd Hb Hl t'. pose proof (running_opened t d 0 pt Ht Hd Hb Hl) as Hrun. split.
  - destruct (running_parts _ Hrun) as (H1 & H2 & _ & H4 & H5). refine (running_same _ t' Hrun _ _ _ _ _ _ H1 H2 _ H4 H5); subst t'; fields; try reflexivity. lia.
  - unfold unread. subst t'. fields. rewrite drop_0, Nat.sub_0_r. exact (take_store_bytes (t_buf t) 0 pt ltac:(destruct Ht as (_ & -> & _); lia)).
Qed.

(** A data record becomes the queue, whatever the run of KeyUpdates is counted. *)
Lemma data_took rec pt cap d' run c : leads c0 rec (Rx (t_rd (c_t c)) (t_rd_secret (c_t c)) []) c -> t_post_fill (c_t c) = 0%nat -> Rec.dir_ok d' -> bytes_ok pt ->
  (length pt <= cfg_buf_len (t_cfg (c_t c)))%nat -> Rec.rec_open (t_rd (c_t c)) rec cap = Some (d', Some (REC_APPDATA, pt)) -> 0 <= run <= CH_KEY_UPDATE_RUN_MAX ->
  took c0 (c <| c_t := (c_t c) <| t_rd := d' |> <| t_buf := store_bytes (t_buf (c_t c)) 0 pt |> <| t_pt_off := 0%nat |> <| t_pt_len := length pt |> <| t_key_update_run := run |> |>).
Proof.
  intros (Hc & (w & C & R) & _ & Eo & _) Hpf Hd Hb Hl Hopen Hn. pose proof Hc as [Ht Ha]. destruct (opened_queue (c_t c) d' pt Ht Hd Hb Hl) as [Hrun Hun].
  set (t1 := (c_t c) <| t_rd := d' |> <| t_buf := _ |> <| t_pt_off := _ |> <| t_pt_len := _ |>) in *.
  assert (Hrun' : running_t (t1 <| t_key_update_run := run |>)).
  { destruct (running_parts _ Hrun) as (G1 & G2 & G3 & G4 & G5 & G6 & _). eapply (running_same _ _ Hrun); fields; first [reflexivity|assumption|idtac]. split; [exact G5|split; [exact G6|exact Hn]]. }
  assert (Hcl : t_read_closed t1 = false) by (subst t1; fields; congruence).
  assert (Hc' : running (c <| c_t := t1 <| t_key_update_run := run |> |>)) by (split; fields; [exact Hrun'|exact Ha]).
  unfold took. split; [exact Hc'|]. fields. split; [exact Hcl|]. exists (w ++ rec). split; [exact C|].
  change (unread (t1 <| t_key_update_run := run |>)) with (unread t1). rewrite Hun. rewrite (rx_open _ Hc') by (fields; exact Hcl).
  subst t1. fields. rewrite Hpf, take_0. exact (reading_app _ _ [] _ _ _ _ R (reading_one _ _ _ _ (step_data _ _ _ _ _ _ Hopen))).
Qed.

Lemma dispatch_wp Q E : unread (c_t c0) = [] -> (forall c', took c0 c' -> Q () c') -> (forall rc c', halted c0 rc c' -> E rc c') -> wp dispatch_one_record Q E c0.
Proof.
  intros Hu HQ HE. pose proof H0 as [Ht Ha]. destruct (running_parts _ Ht) as (Hw & Hrd & Hq & Hpf & Hk).
  assert (Hhs : forall c len, drains c0 (take len (t_buf (c_t c))) c -> (len <= cfg_buf_len (t_cfg (c_t c)))%nat -> wp (hspost_read len) Q E c).
  { intros c len Hd Hl. apply (hspost_read_wp c0); [exact H0|exact Ho|exact Hd|exact Hl| | |].
    - intros c' Hg. apply HQ. by apply (goes_took c0 c' H0 Hu Ho).
    - intros c' Hg. apply HE. by left.
    - intros rc c' N He. apply HE. by apply ended_halted. }
  unfold dispatch_one_record, upd, alert_is. wps. destruct (Nat.ltb_spec 0 (t_post_fill (c_t c0))) as [Hpos|Hzero].
  { wps. apply Hhs; fields; [|exact Hpf]. split; fields; [reflexivity|]. rewrite <- (rx_open c0 H0 Ho). apply leads_t; fields; try reflexivity; [by apply goes_refl|].
    apply (running_same (c_t c0)); fields; first [reflexivity|assumption|exact Hk|lia]. }
  assert (Ez : t_post_fill (c_t c0) = 0%nat) by lia. clear Hzero. wps. set (c1 := c0 <| c_alert := _ |>).
  assert (Hl1 : leads c0 [] (Rx (t_rd (c_t c1)) (t_rd_secret (c_t c1)) []) c1).
  { pose proof (rx_open c0 H0 Ho) as Er. rewrite Ez, take_0 in Er. subst c1. fields. rewrite <- Er. apply leads_alert; [by apply goes_refl|by cbn]. }
  assert (E1 : t_post_fill (c_t c1) = 0%nat) by exact Ez. assert (Ecfg : t_cfg (c_t c1) = t_cfg (c_t c0)) by reflexivity. clearbody c1. rewrite <- Ecfg. pose proof Hl1 as (H1 & _).
  assert (Hst : forall w bytes j, came (c_io c1) w j -> bytes_ok bytes -> (0 + length bytes <= cfg_buf_len (t_cfg (c_t c1)))%nat -> leads c0 w (Rx (t_rd (c_t c1)) (t_rd_secret (c_t c1)) []) (stored c1 0 bytes j)).
  { intros w bytes j C Hb Hl. unfold stored. apply leads_io; fields; [|exact C]. apply leads_t; fields; try reflexivity; [exact Hl1|]. apply running_buf; [apply H1|exact Hl|exact Hb]. }
  apply io_read_record_wp; [exact H1|reflexivity| | |].
  3:{ intros rc c2 (H2 & Ec2 & v & Cv) N1 N2. cbv iota. destruct (Z.eqb_spec rc CH_TCP_AGAIN) as [|_]; [done|]. wps. apply ends_wp; [exact H2|apply H2|]. intros c3 Hq3 _. apply HE, ended_halted; [exact N1|].
      apply (broke_quits c0 rc c2); [|exact Hq3]. destruct Hl1 as (_ & (w & C & _) & _). rewrite app_nil_r in C. split; [exact H2|]. split; [by rewrite Ec2|]. split; [exact N1|]. split; [exact N2|].
      exists (w ++ v). split; [exact (came_app _ _ _ _ _ C Cv)|]. rewrite (rx_open c0 H0 Ho). apply reading_one, step_broken. }
  2:{ intros bytes j C Hb Hl. cbv iota. rewrite Z.eqb_refl. wps. apply HE. left. split; [reflexivity|]. apply (drains_goes c0 Ho). split; [exact E1|]. exact (Hst [] bytes j C Hb Hl). }
  intros rec j C Hrec Hlen. cbv beta iota. pose proof (Hst rec rec j C Hrec ltac:(lia)) as Hl2. destruct (negb (_ =? REC_APPDATA)); [by apply (ends_halted _ _ _ _ _ _ _ Hl2)|].
  assert (Erec : take (length rec) (t_buf (c_t (stored c1 0 rec j))) = rec).
  { unfold stored. fields. apply (take_store_bytes _ 0 rec). destruct H1 as [(_ & -> & _) _]. lia. }
  set (c2 := stored _ _ _ _) in *. assert (E2 : t_post_fill (c_t c2) = 0%nat) by exact E1. assert (Ecfg2 : t_cfg (c_t c1) = t_cfg (c_t c2)) by reflexivity.
  change (t_rd (c_t c1)) with (t_rd (c_t c2)) in Hl2. change (t_rd_secret (c_t c1)) with (t_rd_secret (c_t c2)) in Hl2. rewrite Ecfg2 in *. clearbody c2. clear Hst Hl1 E1 Ecfg2. clear dependent c1.
  wps. rewrite Erec. pose proof Hl2 as ((Ht2 & Ha2) & _). destruct (running_parts _ Ht2) as (Hw2 & Hrd2 & Hq2 & Hp2 & Hk2).
  destruct (open_total_dir (t_rd (c_t c2)) rec (cfg_buf_len (t_cfg (c_t c2))) Hrd2 Hrec) as (d' & x & Eopen & Hd' & Hx).
  rewrite wp_call by exact Eopen. wps. cbn [fst snd]. destruct x as [[inner pt]|].
  2:{ apply (ends_halted rec (Rx (t_rd (c_t c2)) (t_rd_secret (c_t c2)) [])); [|by cbn|discriminate..|exact HE]. apply leads_t; fields; try reflexivity; [exact Hl2|]. apply (running_same (c_t c2)); fields; first [reflexivity|assumption|exact Hk2]. }
  destruct Hx as [Hpt Hpl]. assert (Hfit : (length pt <= cfg_buf_len (t_cfg (c_t c2)))%nat) by lia.
  pose proof (running_opened (c_t c2) d' 0 pt Ht2 Hd' Hpt Hfit) as Hro. rewrite wp_bind, wp_modify. fields.
  destruct (Z.eqb_spec inner REC_APPDATA) as [->|Hin].
  - pose proof (fun n => data_took rec pt _ d' n c2 Hl2 E2 Hd' Hpt Hfit Eopen) as Htook. wps. destruct (0 <? length pt)%nat; wps; apply HQ; fields.
    + by apply Htook.
    + specialize (Htook (t_key_update_run (c_t c2)) ltac:(apply Hk2)). destruct c2 as [t i al], t. exact Htook.
  - assert (Hl3 : leads c0 rec (Rx (t_rd (c_t c2)) (t_rd_secret (c_t c2)) []) (c2 <| c_t := (c_t c2) <| t_rd := d' |> <| t_buf := store_bytes (t_buf (c_t c2)) 0 pt |> |>)) by (apply leads_t; fields; try reflexivity; assumption).
    set (c3 := c2 <| c_t := _ |>) in *. destruct (Z.eqb_spec inner REC_HANDSHAKE) as [->|_]; [|destruct (Z.eqb_spec inner REC_ALERT) as [->|_]].
    + apply Hhs; [|subst c3; fields; lia]. assert (Ept : take (length pt) (t_buf (c_t c3)) = pt) by (subst c3; fields; apply (take_store_bytes _ 0 pt); destruct Ht2 as (_ & -> & _); lia).
      rewrite Ept. split; [exact E2|]. exact (leads_step _ _ _ _ _ Hl3 (step_fragment _ _ [] _ _ _ _ whole_part Eopen)).
    + apply (read_alert_wp pt rec (cfg_buf_len (t_cfg (c_t c2))) (t_rd (c_t c2))); [exact Hl3|exact E2|exact Eopen| |exact HE]. intros Hg. apply HQ. by apply (goes_took c0 c3).
    + by apply (ends_halted _ _ _ _ _ _ _ Hl3).
Qed.
End Dispatch.

(** ** Lemmas: reading the stream *)

Lemma took_delivers c c1 out c2 : unread (c_t c) = [] -> took c c1 -> delivers c1 out c2 -> delivers c out c2.
Proof.
  intros Hu (_ & _ & w1 & C1 & R1) (w & got & rest & C & R & E & H). exists (w1 ++ w), (unread (c_t c1) ++ got), rest. rewrite Hu.
  split; [exact (came_app _ _ _ _ _ C1 C)|]. split; [exact (reading_app _ _ _ _ _ _ _ R1 R)|]. by split.
Qed.

(** What [tls_read] leaves: bytes of the stream, and none only at its end. *)
Definition read_ok (n : nat) (c : conn) (out : list Z) (c' : conn) : Prop :=
  running c' /\ delivers c out c' /\ (length out <= n)%nat /\ (out = [] -> t_read_closed (c_t c') = true /\ read_wiped (c_t c')).
Definition read_err (c : conn) (rc : Z) (c' : conn) : Prop :=
  delivers c [] c' /\ (rc = CH_TCP_AGAIN /\ running c' /\ t_read_closed (c_t c') = false \/ over c').

(** What is queued is handed over, whatever the transport. *)
Lemma data_loop_queue quiet n c Q E : running c -> unread (c_t c) <> [] ->
  (let k := Nat.min n (length (unread (c_t c))) in running (c <| c_t := skipped k (c_t c) |>) -> unread (skipped k (c_t c)) = drop n (unread (c_t c)) ->
   Q (take n (unread (c_t c))) (c <| c_t := skipped k (c_t c) |>)) -> wp (data_loop (S quiet) n) Q E c.
Proof.
  intros [Ht Ha] Hne HQ. pose proof (running_reader _ Ht) as Hr. pose proof (length_unread _ Hr) as Hl. cbn [data_loop]. wps.
  destruct (Nat.ltb_spec (t_pt_off (c_t c)) (t_pt_len (c_t c))) as [Hlt|Hge]; [|destruct (unread (c_t c)); [done|cbn [length] in Hl; lia]]. unfold upd. wps.
  cbv zeta in HQ. set (k := if (n <? _)%nat then _ else _). assert (Hk : k = Nat.min n (length (unread (c_t c)))) by (subst k; rewrite Hl; destruct (Nat.ltb_spec n (t_pt_len (c_t c) - t_pt_off (c_t c))); lia).
  rewrite <- Hk in HQ. clearbody k. destruct (skipped_ok (c_t c) k Hr ltac:(lia)) as [_ Hsk].
  assert (Ec : c <| c_t := (c_t c) <| t_pt_off := (t_pt_off (c_t c) + k)%nat |> |> = c <| c_t := skipped k (c_t c) |>) by (by destruct c as [[] i al]).
  assert (Ek : take k (unread (c_t c)) = take n (unread (c_t c)) /\ drop k (unread (c_t c)) = drop n (unread (c_t c))).
  { subst k. destruct (Nat.le_gt_cases n (length (unread (c_t c)))) as [H|H]; [by rewrite Nat.min_l by lia|]. rewrite Nat.min_r, !take_ge, !drop_ge by lia. by split. }
  destruct Ek as [Ek1 Ek2]. rewrite Ec, (unread_drop _ Hr), take_app_le, Ek1 by lia. destruct (running_parts _ Ht) as (H1 & H2 & H3 & H4 & H5). apply HQ; [|by rewrite Hsk].
  split; fields; [|exact Ha]. apply (running_same (c_t c)); unfold skipped, with_queue; fields; first [reflexivity|assumption|exact H5|lia].
Qed.

Lemma skipped_delivers n c c' : running c -> c_io c' = c_io c -> rx_of c' = rx_of c -> unread (c_t c') = drop n (unread (c_t c)) -> delivers c (take n (unread (c_t c))) c'.
Proof.
  intros Hc Ei Er Eu. exists [], [], (drop n (unread (c_t c))). rewrite Ei, Er, app_nil_r, take_drop, Eu. by split_and!; try constructor.
Qed.

Lemma data_loop_wp quiet : forall n c, running c -> t_read_closed (c_t c) = false -> (0 < n)%nat -> wp (data_loop quiet n) (read_ok n c) (read_err c) c.
Proof.
  induction quiet as [|quiet IH]; intros n c Hc Ho Hn.
  { cbn [data_loop]. apply ends_wp; [exact Hc|by cbn|]. intros c' H _. apply quits_ended in H. split; [by apply delivers_ended|]. right. apply H. }
  pose proof Hc as [Ht _]. destruct (decide (unread (c_t c) = [])) as [Hu|Hne].
  2:{ apply data_loop_queue; [exact Hc|exact Hne|]. intros k Hrun Hsk. split; [exact Hrun|]. split.
      - apply skipped_delivers; [exact Hc|by fields|by unfold rx_of, skipped, with_queue; fields|by fields].
      - rewrite length_take. split; [lia|]. intros E. apply (f_equal length) in E. rewrite length_take in E. cbn [length] in E. destruct Hne. apply length_zero_iff_nil. lia. }
  cbn [data_loop]. wps. rewrite (proj1 (queue_empty _ Ht) Hu), Nat.ltb_irrefl. wps. apply dispatch_wp; [exact Hc|exact Ho|exact Hu| |].
  - intros c1 Htook. pose proof Htook as (H1 & Ho1 & _). cbv iota. eapply wp_mono; [apply IH; [exact H1|exact Ho1|exact Hn]| |]; cbv beta.
    + intros out c2 (H2 & Hd & Hx). split; [exact H2|]. split; [by apply (took_delivers c c1)|exact Hx].
    + intros rc c2 (Hd & Hx). split; [by apply (took_delivers c c1)|exact Hx].
  - intros rc c1 [[-> Hg]|[(-> & H1 & Ho1 & Hw1 & w & C & R)|[Hr1 He]]]; cbv iota.
    + cbn [Z.eqb CH_TCP_AGAIN CH_ECLOSED Pos.eqb]. wps. pose proof (goes_queue c c1 Hc Hg Hu) as Hu1. pose proof (goes_took c c1 Hc Hu Ho Hg) as Htook. pose proof Htook as (H1 & Ho1 & _).
      split; [|by left]. apply (took_delivers c c1); [exact Hu|exact Htook|apply delivers_refl].
    + rewrite Z.eqb_refl. wps. split; [exact H1|]. split; [|split; [cbn; lia|by split]]. exists w, [], []. rewrite (rx_closed c1 H1 Ho1), Hu.
      split; [exact C|]. split; [exact R|]. split; [reflexivity|]. intros _. symmetry. apply queue_empty; [apply H1|]. destruct Hw1 as (_ & _ & _ & -> & ->). reflexivity.
    + destruct (Z.eqb_spec rc CH_ECLOSED) as [|_]; [done|]. wps. split; [by apply delivers_ended|]. right. apply He.
Qed.

(** ** Lemmas: the parts of a write *)

Definition at_byte (c : list (list Z)) : Prop := match c with [] :: _ => False | _ => True end.

Lemma skip_empty_spec c : mjoin (parts_skip_empty c) = mjoin c /\ at_byte (parts_skip_empty c) /\ (Forall bytes_ok c -> Forall bytes_ok (parts_skip_empty c)).
Proof.
  induction c as [|[|b p] c IH]; cbn [parts_skip_empty].
  - done.
  - destruct IH as (H1 & H2 & H3). split; [exact H1|]. split; [exact H2|]. intros Hb. apply H3. by apply Forall_cons in Hb as [_ Hb].
  - split; [reflexivity|]. by split.
Qed.

(** A record's plaintext is the next bytes of the parts, as many as fit. *)
Lemma copy_record_spec c : forall room, let '(c', inner) := parts_copy_record c room in
  mjoin c = inner ++ mjoin c' /\ length inner = Nat.min room (length (mjoin c)) /\ (at_byte c -> at_byte c') /\ (Forall bytes_ok c -> Forall bytes_ok c' /\ bytes_ok inner).
Proof.
  induction c as [|p c IH]; intros room; cbn [parts_copy_record].
  - split; [reflexivity|]. split; [cbn; lia|]. split; [done|]. intros. split; constructor.
  - change (mjoin (p :: c)) with (p ++ mjoin c). destruct (Nat.eqb_spec room 0) as [->|Hr].
    { split; [reflexivity|]. split; [reflexivity|]. split; [done|]. intros H. split; [exact H|constructor]. }
    destruct (Nat.ltb_spec room (length p)) as [Hlt|Hge].
    + change (mjoin (drop room p :: c)) with (drop room p ++ mjoin c). split; [by rewrite app_assoc, take_drop|]. rewrite length_take, length_app. split; [lia|]. split.
      * intros _. destruct (drop room p) as [|b q] eqn:E; [|exact I]. apply (f_equal length) in E. rewrite length_drop in E. cbn [length] in E. lia.
      * intros H. apply Forall_cons in H as [Hp Hc]. split; [apply Forall_cons_2; [by apply Forall_drop|exact Hc]|by apply Forall_take].
    + specialize (IH (room - length p)%nat). destruct (parts_copy_record c (room - length p)) as [c' inner]. destruct IH as (E & El & _ & Hb).
      destruct (skip_empty_spec c') as (Es & Ha & Hsb). rewrite Es, E at 1. split; [by rewrite app_assoc|]. rewrite !length_app, El. split; [lia|]. split; [by intros _|].
      intros H. apply Forall_cons in H as [Hp Hc]. destruct (Hb Hc) as [H1 H2]. split; [by apply Hsb|]. apply Forall_app_2; [exact Hp|exact H2].
Qed.

Lemma copy_record_more c room : at_byte c -> c <> [] -> (0 < room)%nat -> (0 < length (parts_copy_record c room).2)%nat.
Proof.
  intros Ha Hne Hr. pose proof (copy_record_spec c room) as Hs. destruct (parts_copy_record c room) as [c' inner]. destruct Hs as (_ & El & _). cbn [snd]. rewrite El.
  destruct c as [|[|b p] c]; [done|done|]. change (mjoin ((b :: p) :: c)) with (b :: p ++ mjoin c). cbn [length]. lia.
Qed.

(** ** Lemmas: writing *)

Lemma send_key_update_sends c Q E : running c -> t_send_epochs (c_t c) < HSPOST_SEND_EPOCHS_MAX -> (forall c', sends c c' -> Q () c') -> (forall rc c', sends c c' -> E rc c') ->
  wp hspost_send_key_update Q E c.
Proof.
  intros Hc Hep HQ HE. pose proof Hc as [Ht Ha]. destruct (running_parts _ Ht) as (H1 & H2 & H3 & H4 & H5). unfold hspost_send_key_update, upd. wps.
  destruct (seal_total_dir (t_wr (c_t c)) REC_HANDSHAKE [HS_KEY_UPDATE; 0; 0; 1; 0] (length (t_tx (c_t c))) H1) as (d' & x & Es & Hd' & Hx); [by cbn|by repeat (apply Forall_cons_2 || apply Forall_nil_2)|].
  wps. rewrite wp_call by exact Es. wps. cbn [fst snd]. destruct x as [out|]; wps; fields.
  2:{ apply HE, sends_t; [exact Hc| |unfold reads_same; fields; by split_and!]. apply (running_same (c_t c)); fields; first [reflexivity|assumption|exact H5]. }
  destruct Hx as (_ & _ & Hol). pose proof (running_sealed (c_t c) d' out Ht Hd' Hol) as Hrs. set (t1 := (c_t c) <| t_wr := d' |> <| t_tx := _ |>) in *.
  assert (Hs1 : sends c (c <| c_t := t1 |>)) by (apply sends_t; [exact Hc|exact Hrs|subst t1; unfold reads_same; fields; by split_and!]). set (c1 := c <| c_t := t1 |>) in *.
  apply send_sends; [apply Hs1| |].
  - intros c2 Hs2 Et2. cbv iota. wps. pose proof (sends_trans _ _ _ Hs1 Hs2) as Hs. destruct (update_total (t_wr_secret (c_t c2))) as (s' & d2 & Eu & Hd2). rewrite wp_call by exact Eu. wps. fields.
    apply HQ. apply (sends_trans c c2); [exact Hs|]. pose proof Hs as (Hr2 & _). pose proof Hr2 as [Ht2 _]. destruct (running_parts _ Ht2) as (G1 & G2 & G3 & G4 & G5 & G6 & G7).
    assert (Eep : t_send_epochs (c_t c2) = t_send_epochs (c_t c)) by (rewrite Et2; reflexivity).
    assert (Hn : u64 (t_send_epochs (c_t c2) + 1) = t_send_epochs (c_t c2) + 1) by (apply u64_small; unfold HSPOST_SEND_EPOCHS_MAX, u64_ok in *; lia).
    apply sends_t; [exact Hr2| |unfold reads_same; fields; by split_and!]. apply (running_same (c_t c2)); fields; first [reflexivity|assumption|idtac]. unfold counts_ok. fields. rewrite Hn. split; [unfold HSPOST_SEND_EPOCHS_MAX in *; lia|]. split; [discriminate|exact G7].
  - intros rc c2 Hs2 _. cbv iota. wps. apply HE. by apply (sends_trans c c1).
Qed.

Lemma ends_sent {A} al rc (Q : A -> conn -> Prop) E c c1 : running c -> sends c c1 -> byte_ok al -> (forall rc c', ended c c' -> E rc c') -> wp (ends al rc) Q E c1.
Proof.
  intros Hc Hs Ha HE. apply ends_wp; [apply Hs|exact Ha|]. intros c2 [Ho C] _. apply HE. apply quits_ended. split; [exact Ho|]. destruct Hs as (_ & C1 & _). exact (came_app _ _ _ _ _ C1 C).
Qed.

Lemma key_update_before_sends c Q E : running c -> (forall c', sends c c' -> Q () c') -> (forall rc c', ended c c' -> E rc c') -> wp key_update_before_record Q E c.
Proof.
  intros Hc HQ HE. pose proof Hc as [Ht Ha]. destruct (running_parts _ Ht) as (_ & _ & _ & _ & _ & Ho & _). unfold key_update_before_record, records_before_key_update. wps.
  destruct (t_key_update_owed (c_t c)) eqn:Eo; [|wps; apply HQ; by apply sends_refl]. specialize (Ho eq_refl). destruct (Z.leb_spec HSPOST_SEND_EPOCHS_MAX (t_send_epochs (c_t c))) as [|_]; [lia|].
  wps. apply send_key_update_sends; [exact Hc|exact Ho| |].
  - intros c1 Hs. cbv iota. wps. by apply HQ.
  - intros rc c1 Hs. cbv iota. by apply (ends_sent _ _ _ _ c).
Qed.

Lemma write_loop_wp fuel : forall cursor limit c Q E, running c -> at_byte cursor -> Forall bytes_ok cursor -> (length (mjoin cursor) <= fuel)%nat -> (0 < limit <= CH_TX_PT)%nat ->
  (forall c', sends c c' -> Q () c') -> (forall rc c', ended c c' -> E rc c') -> wp (write_loop fuel cursor limit) Q E c.
Proof.
  induction fuel as [|fuel IH]; intros cursor limit c Q E Hc Hat Hb Hf Hlim HQ HE.
  { destruct cursor as [|[|b p] cursor]; cbn [write_loop]; [wps; apply HQ; by apply sends_refl|done|]. change (mjoin ((b :: p) :: cursor)) with (b :: p ++ mjoin cursor) in Hf. cbn [length] in Hf. lia. }
  destruct cursor as [|p0 cursor0] eqn:Ecur; cbn [write_loop]; [wps; apply HQ; by apply sends_refl|]. rewrite <- Ecur in *.
  assert (Hne : cursor <> []) by (by rewrite Ecur). clear p0 cursor0 Ecur. wps. apply key_update_before_sends; [exact Hc| |exact HE]. intros c1 Hs1. pose proof Hs1 as (H1 & _).
  pose proof (copy_record_spec cursor limit) as Hcopy. pose proof (copy_record_more cursor limit Hat Hne ltac:(lia)) as Hmore. destruct (parts_copy_record cursor limit) as [cursor' inner]. cbn [snd] in Hmore.
  destruct Hcopy as (Ej & El & Hat' & Hb'). destruct (Hb' Hb) as [Hb1 Hbi]. apply Hat' in Hat. rewrite Ej, length_app in Hf.
  pose proof H1 as [Ht1 Ha1]. pose proof Ht1 as (_ & _ & _ & Htx & _). destruct (running_parts _ Ht1) as (Hwr & G2 & G3 & G4 & G5). wps. unfold CH_TX_PT in Hlim.
  destruct (Nat.ltb_spec (length (t_tx (c_t c1)) - REC_HDR) (length inner)) as [Hbig|_]; [rewrite Htx in Hbig; change (REC_HDR + CH_TX_STAGE)%nat with 622%nat in Hbig; unfold REC_HDR in Hbig; lia|].
  destruct (seal_total_dir (t_wr (c_t c1)) REC_APPDATA inner (length (t_tx (c_t c1))) Hwr) as (d' & x & Es & Hd' & Hx); [by cbn|exact Hbi|].
  rewrite wp_bind, wp_call by exact Es. unfold upd at 1. wps. cbn [fst snd]. destruct x as [out|].
  2:{ apply (ends_sent _ _ _ _ c); [exact Hc| |by cbn|exact HE]. apply (sends_trans c c1); [exact Hs1|]. apply sends_t; [exact H1| |unfold reads_same; fields; by split_and!].
      apply (running_same (c_t c1)); fields; first [reflexivity|assumption|exact G5]. }
  destruct Hx as (_ & _ & Hol). unfold upd. wps. fields. pose proof (running_sealed (c_t c1) d' out Ht1 Hd' Hol) as Hrs. set (t2 := (c_t c1) <| t_wr := d' |> <| t_tx := _ |>) in *.
  assert (Hs2 : sends c (c1 <| c_t := t2 |>)) by (apply (sends_trans c c1); [exact Hs1|]; apply sends_t; [exact H1|exact Hrs|subst t2; unfold reads_same; fields; by split_and!]).
  apply send_sends; [apply Hs2| |].
  - intros c3 Hs3 _. cbv iota. pose proof (sends_trans _ _ _ Hs2 Hs3) as Hs23. apply IH; [apply Hs23|exact Hat|exact Hb1|lia|unfold CH_TX_PT; lia| |].
    + intros c4 Hs4. apply HQ. by apply (sends_trans c c3).
    + intros rc c4 [H4 (w & C4 & R4)]. apply HE. split; [exact H4|]. exists w. rewrite (sends_rx c c3 Hc Hs23) in R4. split; [|exact R4]. destruct Hs23 as (_ & C3 & _). exact (came_app _ _ _ _ _ C3 C4).
  - intros rc c3 Hs3 _. cbv iota. apply (ends_sent _ _ _ _ c); [exact Hc|exact (sends_trans _ _ _ Hs2 Hs3)|by cbn|exact HE].
Qed.

(** ** The calls of a session *)

Inductive request := Read (n : nat) | WriteParts (parts : list (list Z)) | Close | Fail (description : Z).
(** A request, and the bytes it hands its caller. *)
Definition perform (q : request) : cmd conn (list Z) :=
  match q with
  | Read n => tls_read n
  | WriteParts parts => tls_write_parts parts;; mret []
  | Close => tls_close;; mret []
  | Fail description => tls_fail description;; mret []
  end.
(** Requests one after another, whatever each returns: all they handed over. *)
Fixpoint serve (qs : list request) (c : conn) : option (conn * list Z) :=
  match qs with
  | [] => Some (c, [])
  | q :: qs =>
      r ← perform q c;
      let '(c, x) := r in
      rest ← serve qs c;
      Some (rest.1, match x with Ok out => out | Code _ => [] end ++ rest.2)
  end.
Definition request_ok (q : request) : Prop :=
  match q with WriteParts parts => Forall bytes_ok parts | Fail description => byte_ok description | _ => True end.

Definition settled (c : conn) : Prop := running c \/ over c.
Definition served (c : conn) (out : list Z) (c' : conn) : Prop := settled c' /\ delivers c out c' /\ (over c -> over c').

Lemma settled_state c : settled c -> (t_state (c_t c) <=? CH_ST_FAILED) = true.
Proof. intros [[(_ & _ & _ & _ & -> & _) _]|([->| ->] & _)]; reflexivity. Qed.

Lemma stays c : settled c -> served c [] c.
Proof. intros H. split; [exact H|]. split; [apply delivers_refl|done]. Qed.
Lemma ended_served c c' : ended c c' -> served c [] c'.
Proof. intros H. split; [right; apply H|]. split; [by apply delivers_ended|]. intros _. apply H. Qed.
Lemma sends_served c c' : running c -> sends c c' -> served c [] c'.
Proof. intros Hc Hs. split; [left; apply Hs|]. split; [by apply delivers_sends|]. intros Ho. by destruct (over_not_running c Ho). Qed.

Lemma read_served n c : settled c -> wp (tls_read n) (served c) (fun _ => served c []) c.
Proof.
  intros Hc. unfold tls_read. wps. rewrite wp_assert by by apply settled_state. destruct (Nat.eqb_spec n 0) as [|Hn]; [wps; by apply stays|].
  destruct (t_state (c_t c) =? CH_ST_CLOSED); [wps; by apply stays|]. destruct (Z.eqb_spec (t_state (c_t c)) CH_ST_CONNECTED) as [Es|]; cbn [negb]; [|wps; by apply stays].
  destruct Hc as [Hc|([Ho|Ho] & _)]; [|by rewrite Ho in Es|by rewrite Ho in Es]. destruct (t_read_closed (c_t c)) eqn:Er; [wps; apply stays; by left|].
  assert (Hno : over c -> forall c', over c') by (intros Ho; by destruct (over_not_running c Ho)).
  eapply wp_mono; [apply data_loop_wp; [exact Hc|exact Er|lia]| |]; cbv beta.
  - intros out c' (H1 & Hd & _). split; [by left|]. split; [exact Hd|]. intros Ho. by apply Hno.
  - intros rc c' (Hd & Hx). split; [|split; [exact Hd|intros Ho; by apply Hno]]. destruct Hx as [(_ & H & _)|H]; [by left|by right].
Qed.

Lemma write_served parts c : settled c -> Forall bytes_ok parts -> wp (tls_write_parts parts) (fun _ => served c []) (fun _ => served c []) c.
Proof.
  intros Hc Hb. unfold tls_write_parts. wps. rewrite wp_assert by by apply settled_state. destruct (Z.eqb_spec (t_state (c_t c)) CH_ST_CONNECTED) as [Es|]; cbn [negb]; [|wps; by apply stays].
  destruct Hc as [Hc|([Ho|Ho] & _)]; [|by rewrite Ho in Es|by rewrite Ho in Es]. destruct (skip_empty_spec parts) as (Ej & Ha & Hsb).
  apply write_loop_wp; [exact Hc|exact Ha|by apply Hsb|by rewrite Ej| | |].
  - pose proof Hc as [(_ & _ & _ & _ & _ & _ & _ & _ & _ & _ & Hl & _) _]. unfold record_plaintext_max, CH_TX_PT in *. destruct (Z.ltb_spec (t_peer_limit (c_t c)) (Z.of_nat 512)); lia.
  - intros c' Hs. by apply sends_served.
  - intros rc c' He. by apply ended_served.
Qed.

Lemma close_served c : settled c -> wp tls_close (fun _ => served c []) (fun _ => served c []) c.
Proof.
  intros Hc. unfold tls_close. wps. rewrite wp_assert by by apply settled_state.
  assert (Hend : forall c1, came (c_io c) [] (c_io c1) -> wp (upd tlsi_wipe;; upd (fun t => t <| t_state := CH_ST_CLOSED |>)) (fun _ => served c []) (fun _ => served c []) c1).
  { intros c1 C. unfold upd. wps. apply ended_served, quits_ended. split; [|exact C]. destruct c1 as [t i al]. fields. by apply wiped_over; left. }
  destruct (t_keys (c_t c)) eqn:Ek; [|wps; apply Hend; constructor]. destruct Hc as [Hc|(_ & _ & _ & _ & _ & _ & Hk & _)]; [|congruence]. wps.
  apply send_alert_sends; [exact Hc|by cbn|by cbn| |].
  - intros c1 (_ & C & _). wps. by apply Hend.
  - intros rc c1 (_ & C & _). wps. by apply Hend.
Qed.

Lemma fail_served description c : settled c -> byte_ok description -> wp (tls_fail description) (fun _ => served c []) (fun _ => served c []) c.
Proof.
  intros Hc Hd. unfold tls_fail. wps. rewrite wp_assert by by apply settled_state. destruct (negb (is_error_alert description)); [wps; by apply stays|].
  destruct (Z.eqb_spec (t_state (c_t c)) CH_ST_CONNECTED) as [Es|]; cbn [negb]; [|wps; by apply stays].
  destruct Hc as [Hc|([Ho|Ho] & _)]; [|by rewrite Ho in Es|by rewrite Ho in Es]. wps. apply tlsi_fail_wp; [exact Hc|exact Hd|]. intros rc c' He _. apply quits_ended in He. destruct (rc =? CH_OK); wps; by apply ended_served.
Qed.

Lemma perform_served q c : settled c -> request_ok q -> wp (perform q) (served c) (fun _ => served c []) c.
Proof.
  intros Hc Hq. destruct q as [n|parts| |description]; cbn [perform].
  - by apply read_served.
  - rewrite wp_bind. by apply write_served.
  - rewrite wp_bind. by apply close_served.
  - rewrite wp_bind. by apply fail_served.
Qed.

Lemma serve_total qs : forall c, settled c -> Forall request_ok qs -> exists c' out, serve qs c = Some (c', out) /\ served c out c'.
Proof.
  induction qs as [|q qs IH]; intros c Hc Hq; cbn [serve]; [exists c, []; split; [reflexivity|by apply stays]|]. apply Forall_cons in Hq as [Hq Hqs].
  destruct (wp_answer _ _ _ _ (perform_served q c Hc Hq)) as (c1 & x & E & Hx). rewrite E. cbn [mbind option_bind].
  assert (Hs : served c (match x with Ok out => out | Code _ => [] end) c1) by (destruct x; exact Hx). clear Hx. set (o1 := match x with Ok out => out | Code _ => [] end) in *. clearbody o1.
  destruct Hs as (Hc1 & Hd1 & Ho1). destruct (IH c1 Hc1 Hqs) as (c2 & o2 & E2 & Hc2 & Hd2 & Ho2). exists c2, (o1 ++ o2). rewrite E2. cbn [mbind option_bind fst snd].
  split; [reflexivity|]. split; [exact Hc2|]. split; [by apply (delivers_then c o1 c1)|]. intros Ho. by apply Ho2, Ho1.
Qed.

(** ** From the handshake *)

(** The session [tcp_in] connected, on a transport. *)
Definition conn_of (r : ch_tcp) (i : io) (al : Z) : conn := MkConn (r_t r) i al.

Lemma connected_runs o a limit slot T r i al : tracks o (Complete a limit slot T) r -> t_state (r_t r) = CH_ST_CONNECTED -> byte_ok al -> running (conn_of r i al).
Proof.
  intros ((Hl & _ & Hk & _ & _ & Hw & Hr & _) & _) Hst Hal. destruct Hl as (Hcfg & _ & (Hb & Hbb & Hq) & Htx & _ & _ & _ & Hu). destruct Hu as (Hlim & Hko & Hkr & _ & Hep & Hpf).
  split; [|exact Hal]. unfold conn_of, running_t, counts_ok. cbn [c_t]. rewrite Hw, Hr, Hko, Hkr, Hep, Hpf.
  split; [exact Hcfg|]. split; [exact Hb|]. split; [exact Hbb|]. split; [exact Htx|]. split; [exact Hst|]. split; [exact Hk|]. split; [apply dir_of_ok, u64_zero|]. split; [apply dir_of_ok, u64_zero|].
  split; [exact Hq|]. split; [lia|]. split; [exact Hlim|]. split; [by cbn|]. split; [discriminate|by cbn].
Qed.
End Session.

(** ** Properties *)

Section Properties.
Context {aead : AeadOps} {laws : AeadLaws aead} {tr : Transport} {trl : TransportLaws tr}.

End Properties.

(** ** Witnesses *)

#[local] Existing Instance Aead.chacha20_poly1305.
#[local] Existing Instance Aead.chacha20_poly1305_laws.
#[local] Opaque hmac_of expand_label_spec sha256_spec X25519.x25519 X25519.x25519_base transcript_update transcript_init transcript_hash_after
  absorbed dir_of hs_secret c_hs_secret s_hs_secret app_secret finished_mac zero_bytes store_bytes.

(** The session of a client that connected with its PSK, for any secret. *)
Definition example_conn (secret arrived : list Z) : conn :=
  conn_of (Handshake.example_connected (Session.opening_of Handshake.example_cfg Handshake.example_draw Handshake.example_draw) (Agreement secret []) []) (Wires arrived []) 0.
Lemma example_running secret arrived : running (example_conn secret arrived).
Proof. apply (connected_runs (tr := wire) _ _ _ _ _ _ (Wires arrived []) 0 (Handshake.example_tracks (Agreement secret []) [])); [reflexivity|by cbn]. Qed.

End Safe.
