(* ===== verification/ConnLife.v ===== *)
(** * A session from its handshake to its end

    [TcpHandshake] says who a connected session speaks with, and [ConnSafe] what
    a running one does.  Here they meet: what a client reads off its transport,
    from the first call on, came under the keys its authenticated peer agreed.
    What [tcp_in] was given after the session connected need not have: the file
    also shows what a record in the clear then leads to. *)

From S2P Require Import Prelude Ct MdHash Sha256 Reader Build Wire Hkdf Keysched HsMessage Aead Record Cmd.
From S2P Require Import ClientCfg X25519 HsRecord HsFlight TcpClient TcpProto TcpSession TcpHandshake Conn ConnRecv ConnSafe.
Import Sha256 Hkdf Keysched HsRecord Cfg HsFlight Tcp Proto Session Handshake Conn Recv Safe.
Local Open Scope Z_scope.
Local Open Scope word_scope.

Module Life.

Section Client.
Context {aead : AeadOps} {laws : AeadLaws aead} {tr : Transport} {trl : TransportLaws tr} (pin_ecdsa : bool) (pin_verify : list Z -> list Z -> list Z -> bool).
#[local] Instance build : HsBuild := client_build pin_ecdsa.
#[local] Opaque hmac_of expand_label_spec sha256_spec X25519.x25519 X25519.x25519_base transcript_update transcript_init transcript_hash_after
  absorbed dir_of hs_secret c_hs_secret s_hs_secret app_secret finished_mac zero_bytes store_bytes.

(** What a session handed over between the transport's state [i] and its own: with
    what it still queues, it is the queue it started from and then the data of the
    bytes that came, as a receive side under [secret] reads them.  Where it runs
    on, there is no other reading of them. *)
Definition came_under (secret : list Z) (queued : list Z) (i : io) (c : conn) (out : list Z) : Prop := exists w got rest,
  came i w (c_io c) /\ reading (Rx (dir_of secret 0) secret []) w got (rx_of c) /\ queued ++ got = out ++ rest /\
  (running c -> rest = unread (c_t c) /\ forall other y, reading (Rx (dir_of secret 0) secret []) w other y -> y <> Dead -> other = got).

(** The call gives the driver no input. *)
Definition gives_nothing (c : call) : Prop := match c with CallIn _ => False | _ => True end.

(** ** Lemmas: the queue a session connects with *)

Lemma connecting_empty o p r n : tracks o p r -> (connected r -> unread (r_t r) = []) -> connected (tcp_out r n).1.1 -> unread (r_t (tcp_out r n).1.1) = [].
Proof.
  intros Ht Hu. destruct (tcp_out_cases r n) as [(rc & out & E)|[Hn E]]; cbv zeta in *; rewrite E; clear E; cbn [fst]; [exact Hu|].
  set (k := Nat.min _ _) in *. destruct (handed_hs r k) as [Eh _]. assert (Et : r_t (handed r k) = r_t r) by (unfold r_t; by rewrite Eh).
  destruct ((_ =? _)%nat && connects r) eqn:Ec; [|rewrite Et; unfold connected in *; rewrite Et; exact Hu].
  intros _. apply andb_true_iff in Ec as [_ Ec]. destruct (connects_finished o p r Ht Ec) as (a & l & sl & T & ->). destruct Ht as ((_ & _ & _ & _ & _ & _ & _ & _ & _ & Hd) & _).
  unfold connects in Ec. apply andb_true_iff in Ec as [_ Es]. apply Z.eqb_eq in Es. destruct Hd as [(_ & _ & Hq)|[Hs _]]; [|rewrite Es in Hs; discriminate Hs].
  unfold put_t, r_t, unread in *. fields. exact Hq.
Qed.

Lemma dead_not_connected r : dead r -> ~ connected r.
Proof. intros ([Hs|Hs] & _) Hc; unfold connected in Hc; rewrite Hs in Hc; discriminate Hc. Qed.

Lemma run_calls_queue o cs : forall r r', inv pin_ecdsa pin_verify o r -> (connected r -> unread (r_t r) = []) -> Forall gives_nothing cs ->
  run_calls pin_ecdsa pin_verify r cs = Some r' -> connected r' -> unread (r_t r') = [].
Proof.
  induction cs as [|c cs IH]; intros r r' Hi Hu Hcs; cbn [run_calls]; [by intros [= <-]|]. apply Forall_cons in Hcs as [Hc Hcs].
  destruct c as [p|n|]; [done| |]; cbn [run_call mbind option_bind].
  - apply IH; [by apply tcp_out_inv| |exact Hcs]. destruct Hi as [Hd|(msgs & p & _ & Ht)]; [|exact (connecting_empty o p r n Ht Hu)].
    intros Hc'. destruct (dead_not_connected _ (tcp_out_dead r n Hd) Hc').
  - pose proof (proj1 (tcp_close_dead r)) as Hd. apply IH; [by left| |exact Hcs]. intros Hc'. destruct (dead_not_connected _ Hd Hc').
Qed.

Lemma run_calls_app before after r : run_calls pin_ecdsa pin_verify r (before ++ after) = (r0 ← run_calls pin_ecdsa pin_verify r before; run_calls pin_ecdsa pin_verify r0 after).
Proof. revert r. induction before as [|c before IH]; intros r; cbn [app run_calls]; [reflexivity|]. destruct (run_call _ _ r c) as [r1|]; [|reflexivity]. apply IH. Qed.

(** Connected by a call after which nothing was given, a session has nothing queued. *)
Lemma connected_empty cfg draw_priv draw_random before after r0 r : memory_ok cfg -> drawn draw_priv = true -> drawn draw_random = true -> length draw_random = 32%nat -> Forall call_ok before ->
  run_session pin_ecdsa pin_verify cfg draw_priv draw_random before = Some r0 -> ~ connected r0 -> Forall gives_nothing after ->
  run_session pin_ecdsa pin_verify cfg draw_priv draw_random (before ++ after) = Some r -> connected r -> unread (r_t r) = [].
Proof.
  intros H1 H2 H3 H4 Hb E0 Hno Ha E. destruct (run_session_inv pin_ecdsa pin_verify cfg draw_priv draw_random before H1 H2 H3 H4 Hb) as (r0' & E0' & Hi).
  rewrite E0 in E0'. injection E0' as <-. unfold run_session in *. destruct (tcp_init _ cfg draw_priv draw_random) as [x|]; [|discriminate]. cbn [mbind option_bind] in *.
  rewrite run_calls_app, E0 in E. cbn [mbind option_bind] in E.
  assert (Hinv : exists o, inv pin_ecdsa pin_verify o r0) by (destruct Hi as [Hd|(session & msgs & p & _ & Hr & Ht)]; [exists (opening_of cfg draw_priv draw_random); by left|eexists; right; by exists msgs, p]).
  destruct Hinv as [o Hinv]. exact (run_calls_queue o after r0 r Hinv (fun Hc => match Hno Hc with end) Ha E).
Qed.

Lemma running_alive c : running c -> rx_of c <> Dead.
Proof. intros Hc. unfold rx_of. rewrite (running_state c Hc). by destruct (t_read_closed (c_t c)). Qed.

Lemma connected_serves o a limit slot T r i al qs : tracks o (Complete a limit slot T) r -> connected r -> byte_ok al -> Forall request_ok qs ->
  exists c out, serve qs (conn_of r i al) = Some (c, out) /\ settled c /\
    came_under (app_secret (o_cfg o) (a_ecdhe a) "s ap traffic" (sha256_spec T)) (unread (r_t r)) i c out.
Proof.
  intros Ht Hst Hal Hqs. pose proof (connected_runs o a limit slot T r i al Ht Hst Hal) as Hrun.
  destruct (serve_total qs (conn_of r i al) (or_introl Hrun) Hqs) as (c & out & E & Hc & (w & got & rest & C & R & Eo & Hrest) & _). exists c, out. split; [exact E|]. split; [exact Hc|].
  set (secret := app_secret _ _ _ _). assert (Er : rx_of (conn_of r i al) = Rx (dir_of secret 0) secret []).
  { destruct Ht as ((Hl & _ & _ & _ & Hs & _ & Hr & _) & _). destruct Hl as (_ & _ & _ & _ & _ & _ & _ & _ & _ & _ & Hro & _ & Hpf).
    rewrite (rx_open _ Hrun) by exact Hro. unfold conn_of. cbn [c_t]. by rewrite Hs, Hr, Hpf, take_0. }
  rewrite Er in R. exists w, got, rest. split; [exact C|]. split; [exact R|]. split; [exact Eo|]. intros Hc'. split; [by apply Hrest|].
  intros other y Hy Hne. exact (reading_agree _ _ _ _ _ _ Hy R Hne (running_alive c Hc')).
Qed.

(** C6. What a client reads off its transport is its peer's.  Whatever calls drive
    a session, if it connects, then on any transport, whatever arrives and whatever
    calls of read, write, close and fail follow, no assertion fails, every call
    returns, and the session runs or is over with its secrets zero.  What the reads
    handed over, with the queue that is left, is what was queued and then the data
    of the bytes the transport gave, taken in order and without gap: each byte is
    part of a record that opened in its turn under the traffic secret of the
    authenticated handshake, or the secret its KeyUpdates led to, and of those
    records the application data and nothing else is delivered.  Unless the session
    broke off, those bytes decide it: no other reading of them delivers other data.
    (Over [wire], what came is the front of what had arrived: [came_wire].)
    And nothing was queued if no input was given after the call that connected the
    session; [connected_reads_plaintext] says what is otherwise. *)
Theorem session_delivers_authenticated (cfg : client_cfg) (draw_priv draw_random : list Z) (cs : list call) (i : io) (al : Z) (qs : list request)
    (Hcfg : memory_ok cfg) (Hpriv : drawn draw_priv = true) (Hrandom : drawn draw_random = true) (Hlen : length draw_random = 32%nat)
    (Hcs : Forall call_ok cs) (Hal : byte_ok al) (Hqs : Forall request_ok qs) :
  exists r, run_session pin_ecdsa pin_verify cfg draw_priv draw_random cs = Some r /\
    (connected r ->
     (forall before after r0, cs = before ++ after -> run_session pin_ecdsa pin_verify cfg draw_priv draw_random before = Some r0 -> ~ connected r0 ->
        Forall gives_nothing after -> unread (r_t r) = []) /\
     exists session a slot Tv c out, configured pin_ecdsa cfg session /\ let o := opening_of session draw_priv draw_random in
       agreed_on pin_ecdsa o a /\ vouched pin_ecdsa pin_verify o slot Tv /\
       let T := Tv ++ message HS_FINISHED (finished_mac (s_hs o a) (sha256_spec Tv)) in
       serve qs (conn_of r i al) = Some (c, out) /\ settled c /\ came_under (app_secret session (a_ecdhe a) "s ap traffic" (sha256_spec T)) (unread (r_t r)) i c out).
Proof.
  destruct (run_session_inv pin_ecdsa pin_verify cfg draw_priv draw_random cs Hcfg Hpriv Hrandom Hlen Hcs) as (r & E & Hi).
  exists r. split; [exact E|]. intros Hst. split.
  { intros before after r0 Ecs E0 Hno Ha. rewrite Ecs in E, Hcs. apply Forall_app in Hcs as [Hb _]. exact (connected_empty _ _ _ _ _ _ _ Hcfg Hpriv Hrandom Hlen Hb E0 Hno Ha E Hst). }
  destruct Hi as [Hd|(session & msgs & p & Hc & Hr & Ht)]; [destruct (dead_not_connected r Hd Hst)|].
  destruct (tracks_state _ p r Ht) as [Hs|[_ (a & limit & slot & T & ->)]]; [unfold connected in Hst; rewrite Hs in Hst; discriminate Hst|].
  destruct (connected_serves _ a limit slot T r i al qs Ht Hst Hal Hqs) as (c & out & Es & Hset & Hcame). destruct (reached_facts _ _ _ _ _ Hr) as (Ha & Tv & Hp & Hv & ->).
  exists session, a, slot, Tv, c, out. split; [exact Hc|]. split; [exact Ha|]. split; [exact Hv|]. split; [exact Es|]. split; [exact Hset|exact Hcame].
Qed.

(** C29. A record in the clear is read as application data.  The header of
    [ch_tcp_in] says a record delivered once the session is connected fails it; but
    connecting wipes the flag that says records are sealed, so [tcp_in] accepts a
    record of type handshake in the clear that ends inside a message, answers
    CH_OK and leaves the session connected, and the next [tls_read] hands the
    caller the record's bytes, which no key authenticated. *)
Theorem connected_reads_plaintext (o : opening) (a : agreement) (limit : Z) (slot : option Z) (T : list Z) (r : ch_tcp) (m : list Z) (i : io) (al : Z) (n : nat)
    (Ht : tracks o (Complete a limit slot T) r) (Hst : connected r) (Hu : unread (r_t r) = [])
    (Hm : bytes_ok m) (Hl : (0 < length m < 4)%nat) (Hal : byte_ok al) (Hn : (length m <= n)%nat) :
  exists r' c, tcp_in pin_ecdsa pin_verify r (plain_record m) = Some (r', CH_OK, length (plain_record m)) /\ connected r' /\
    tls_read n (conn_of r' i al) = Some (c, Ok m) /\ running c.
Proof.
  destruct (takes_plaintext pin_ecdsa pin_verify o a limit slot T r m Ht Hst Hu Hm ltac:(lia)) as (r' & E & Hst' & Ht' & Hu'). exists r'.
  pose proof (connected_runs o a limit slot T r' i al Ht' Hst' Hal) as Hrun. assert (Hw : wp (tls_read n) (fun out c => out = m /\ running c) (fun _ _ => False) (conn_of r' i al)).
  { destruct Ht' as ((Hlive & _) & _). destruct Hlive as (_ & _ & _ & _ & _ & _ & _ & _ & _ & _ & Hro & _). unfold connected in Hst'.
    unfold tls_read, conn_of. wps. cbn [c_t]. rewrite wp_assert by (rewrite Hst'; reflexivity). destruct (Nat.eqb_spec n 0) as [|_]; [lia|]. rewrite Hst', Hro.
    change (CH_ST_CONNECTED =? CH_ST_CLOSED) with false. change (negb (CH_ST_CONNECTED =? CH_ST_CONNECTED)) with false. cbv iota.
    apply (data_loop_queue (pred CH_QUIET_CAP)); [exact Hrun|cbn [c_t]; rewrite Hu'; intros ->; cbn [length] in Hl; lia|]. intros k Hrun' _. split; [|exact Hrun'].
    cbn [c_t]. rewrite Hu'. apply take_ge. lia. }
  apply wp_answer in Hw as (c & [out|rc] & Er & Hx); [|done]. destruct Hx as [-> Hc]. exists c. split; [exact E|]. split; [exact Hst'|]. split; [exact Er|exact Hc].
Qed.
End Client.

(** ** Witnesses *)

#[local] Existing Instance Aead.chacha20_poly1305.
#[local] Existing Instance Aead.chacha20_poly1305_laws.
#[local] Opaque hmac_of expand_label_spec sha256_spec X25519.x25519 X25519.x25519_base transcript_update transcript_init transcript_hash_after
  absorbed dir_of hs_secret c_hs_secret s_hs_secret app_secret finished_mac zero_bytes store_bytes.

(** Over [wire], what a session took is the front of what had arrived. *)
Lemma session_delivers_authenticated_witness : let qs := [Read 10; WriteParts [[104; 105]; [33]]; Close] in
  exists r, run_session true example_verify example_cfg example_draw example_draw [CallOut 100; CallIn [22; 3; 3; 0; 0]] = Some r /\
    (connected r -> exists secret c out, serve qs (conn_of r (Wires [23; 3; 3] []) 0) = Some (c, out) /\ settled c /\
       exists w got rest, [23; 3; 3] = w ++ (u8 <$> inbox (c_io c)) /\ reading (Rx (dir_of secret 0) secret []) w got (rx_of c) /\ unread (r_t r) ++ got = out ++ rest).
Proof.
  intros qs. assert (Hcs : Forall call_ok [CallOut 100; CallIn [22; 3; 3; 0; 0]]).
  { apply Forall_cons_2; [exact I|]. apply Forall_cons_2; [apply (bool_decide_unpack _); vm_compute; exact I|apply Forall_nil_2]. }
  assert (Hqs : Forall request_ok qs).
  { apply Forall_cons_2; [exact I|]. apply Forall_cons_2; [apply (bool_decide_unpack _); vm_compute; exact I|]. apply Forall_cons_2; [exact I|apply Forall_nil_2]. }
  destruct (session_delivers_authenticated (tr := wire) true example_verify example_cfg example_draw example_draw _ (Wires [23; 3; 3] []) 0 qs example_memory example_drawn example_drawn eq_refl Hcs) as (r & E & Hr); [by cbn|exact Hqs|].
  exists r. split; [exact E|]. intros Hst. destruct (Hr Hst) as (_ & session & a & slot & Tv & c & out & _ & _ & _ & Es & Hc & w & got & rest & C & R & Eo & _).
  eexists _, c, out. split; [exact Es|]. split; [exact Hc|]. exists w, got, rest. split; [exact (came_wire _ _ _ C)|]. split; [exact R|exact Eo].
Defined.

Lemma connected_reads_plaintext_witness : let o := opening_of example_cfg example_draw example_draw in
  exists r r' c, t_state (r_t r) = CH_ST_CONNECTED /\ tcp_in false example_verify r [22; 3; 3; 0; 2; 97; 98] = Some (r', CH_OK, 7%nat) /\
    tls_read 10 (conn_of r' (Wires [] []) 0) = Some (c, Ok [97; 98]).
Proof.
  intros o. set (a := Agreement [] []). exists (example_connected o a []).
  assert (Hm : bytes_ok [97; 98]) by (apply (bool_decide_unpack _); vm_compute; exact I).
  destruct (connected_reads_plaintext (tr := wire) false example_verify o a (Z.of_nat CH_TX_PT) None [] (example_connected o a []) [97; 98] (Wires [] []) 0 10 (example_tracks a []) eq_refl eq_refl Hm) as (r' & c & E & _ & Er & _);
    [cbn [length]; lia|by cbn|cbn [length]; lia|]. exists r', c. split; [reflexivity|]. split; [exact E|exact Er].
Defined.
End Life.
