(* ===== verification/ConnWire.v ===== *)
(** * Two connected sessions, one writing to the other

    A transport that keeps what is sent and gives what has arrived, in pieces
    of any size.  Over it [tls_write_parts] emits the data sealed in records,
    after the KeyUpdate it owes, and [tls_read] on a peer whose receive
    direction is this send direction hands its caller the same bytes.  The file
    also shows that [tls_writable_len] is the most a write fits in a capacity. *)

From S2P Require Import Prelude Ct MdHash Sha256 Reader Build Wire Hkdf Keysched HsMessage Aead Record Cmd ClientCfg.
From S2P Require Import X25519 HsRecord HsFlight TcpClient TcpProto Conn ConnRecv ConnSafe.
Import Sha256 Hkdf Keysched HsRecord Cfg HsFlight Tcp Proto Conn Safe.
Local Open Scope Z_scope.
Local Open Scope word_scope.

Module Peers.

Section Pair.
Context {aead : AeadOps} {laws : AeadLaws aead} {pieces : Pieces}.

(** ** Lemmas: the transport *)

Lemma io_send_all_wire p Q E c : Q () (c <| c_io := Wires (inbox (c_io c)) (outbox (c_io c) ++ p) |>) -> wp (io_send_all p) Q E c.
Proof.
  unfold io_send_all. assert (Hloop : forall fuel p c, (length p <= fuel)%nat -> Q () (c <| c_io := Wires (inbox (c_io c)) (outbox (c_io c) ++ p) |>) -> wp (send_loop fuel p) Q E c); [|by apply Hloop].
  clear p c. induction fuel as [|fuel IH]; intros p c Hl HQ; cbn [send_loop]; destruct (Nat.eqb_spec (length p) 0) as [E0|Hne].
  - apply length_zero_iff_nil in E0 as ->. rewrite app_nil_r in HQ. wps. destruct c as [t [] al]. exact HQ.
  - lia.
  - apply length_zero_iff_nil in E0 as ->. rewrite app_nil_r in HQ. wps. destruct c as [t [] al]. exact HQ.
  - wps. cbn [io_send wire]. pose proof (send_part_law (length p) ltac:(lia)) as Hk. set (k := send_part (length p)) in *. clearbody k. wps.
    destruct (Z.leb_spec (Z.of_nat k) 0) as [|_]; [lia|]. destruct (Z.ltb_spec (Z.of_nat (length p)) (Z.of_nat k)) as [|_]; [lia|]. cbn [orb]. rewrite Nat2Z.id.
    apply IH; [rewrite length_drop; lia|]. fields. cbn [inbox outbox]. by rewrite <- app_assoc, take_drop.
Qed.

Lemma u8_bytes (l : list Z) : bytes_ok l -> u8 <$> l = l.
Proof. induction 1 as [|b l Hb Hl IH]; [reflexivity|]. cbn [fmap list_fmap]. f_equal; [by apply u8_small|exact IH]. Qed.

(** The receiving session with [bytes] taken from the inbox into its buffer. *)
Definition filled (at_ : nat) (n : nat) (c : conn) : conn :=
  c <| c_t := (c_t c) <| t_buf := store_bytes (t_buf (c_t c)) at_ (u8 <$> take n (inbox (c_io c))) |> |> <| c_io := Wires (drop n (inbox (c_io c))) (outbox (c_io c)) |>.

Lemma filled_then at_ a b c : (a + b <= length (inbox (c_io c)))%nat -> (at_ + a + b <= length (t_buf (c_t c)))%nat -> filled (at_ + a) b (filled at_ a c) = filled at_ (a + b) c.
Proof.
  intros Hi Hb. unfold filled. fields. cbn [inbox outbox]. assert (El : length (u8 <$> take a (inbox (c_io c))) = a) by (rewrite length_fmap, length_take; lia).
  assert (El2 : length (u8 <$> take b (drop a (inbox (c_io c)))) = b) by (rewrite length_fmap, length_take, length_drop; lia).
  assert (Es : store_bytes (store_bytes (t_buf (c_t c)) at_ (u8 <$> take a (inbox (c_io c)))) (at_ + a) (u8 <$> take b (drop a (inbox (c_io c)))) = store_bytes (t_buf (c_t c)) at_ (u8 <$> take (a + b) (inbox (c_io c)))).
  { rewrite <- El at 2. rewrite store_bytes_app by (rewrite El, El2; lia). f_equal. by rewrite <- fmap_app, take_take_drop. }
  rewrite Es, drop_drop. destruct c as [[] [] al]. reflexivity.
Qed.

Lemma recv_wire at_ n Q E c : (0 < n)%nat -> inbox (c_io c) <> [] ->
  (forall k, (0 < k <= n)%nat -> (k <= length (inbox (c_io c)))%nat -> Q (Z.of_nat k) (filled at_ k c)) -> wp (recv at_ n) Q E c.
Proof.
  intros Hn Hi HQ. unfold recv, upd. wps. cbn [io_recv wire]. destruct (Nat.eqb_spec (length (inbox (c_io c))) 0) as [E0|Hne]; [by apply length_zero_iff_nil in E0|].
  pose proof (recv_part_law (Nat.min n (length (inbox (c_io c)))) ltac:(lia)) as Hk. set (k := recv_part _) in *. clearbody k. wps. fields.
  rewrite (take_ge (u8 <$> _)) by (rewrite length_fmap, length_take; lia). specialize (HQ k ltac:(lia) ltac:(lia)). unfold filled in HQ. destruct c as [[] [] al]. exact HQ.
Qed.
Lemma recv_empty at_ n Q E c : inbox (c_io c) = [] -> Q 0 c -> wp (recv at_ n) Q E c.
Proof.
  intros Hi HQ. unfold recv, upd. wps. cbn [io_recv wire]. rewrite Hi. cbn [length Nat.eqb take drop fmap list_fmap]. wps. fields. rewrite take_nil.
  assert (Es : store_bytes (t_buf (c_t c)) at_ [] = t_buf (c_t c)) by (unfold store_bytes; cbn [length app]; by rewrite Nat.add_0_r, take_drop).
  rewrite Es. destruct c as [t [ib ob] al]. cbn [c_io inbox] in Hi. subst. destruct t; exact HQ.
Qed.

Lemma read_exact_wire at_ n Q E c : (n <= length (inbox (c_io c)))%nat -> (at_ + n <= length (t_buf (c_t c)))%nat -> Q () (filled at_ n c) -> wp (read_exact at_ n) Q E c.
Proof.
  unfold read_exact. assert (Hloop : forall fuel at_ n c, (n <= fuel)%nat -> (n <= length (inbox (c_io c)))%nat -> (at_ + n <= length (t_buf (c_t c)))%nat -> Q () (filled at_ n c) -> wp (read_loop fuel at_ n) Q E c); [|by apply Hloop].
  clear at_ n c. assert (Hz : forall at_ c, filled at_ 0 c = c).
  { intros at_ c. unfold filled. rewrite take_0, drop_0. cbn [fmap list_fmap]. assert (Es : store_bytes (t_buf (c_t c)) at_ [] = t_buf (c_t c)) by (unfold store_bytes; cbn [length app]; by rewrite Nat.add_0_r, take_drop).
    rewrite Es. by destruct c as [[] [] al]. }
  induction fuel as [|fuel IH]; intros at_ n c Hf Hi Hb HQ; cbn [read_loop]; destruct (Nat.eqb_spec n 0) as [->|Hne]; try (by rewrite Hz in HQ).
  - lia.
  - rewrite wp_bind. apply recv_wire; [lia|intros E0; rewrite E0 in Hi; cbn [length] in Hi; lia|]. intros k Hk Hki.
    destruct (Z.leb_spec (Z.of_nat k) 0) as [|_]; [lia|]. destruct (Z.ltb_spec (Z.of_nat n) (Z.of_nat k)) as [|_]; [lia|]. cbn [orb]. rewrite Nat2Z.id.
    apply IH; [lia| | |].
    + unfold filled. fields. cbn [inbox]. rewrite length_drop. lia.
    + unfold filled. fields. rewrite length_store_bytes; [lia|rewrite length_fmap, length_take; lia].
    + rewrite filled_then by lia. by replace (k + (n - k))%nat with n by lia.
Qed.

(** A record that arrived whole is read whole. *)
Lemma io_read_record_wire at_ cap rec rest lim Q E c : running c -> (at_ + cap = cfg_buf_len (t_cfg (c_t c)))%nat -> inbox (c_io c) = rec ++ rest -> bytes_ok rec -> Rec.framed rec lim -> (length rec <= cap)%nat ->
  Q (REC_APPDATA, length rec) (filled at_ (length rec) c) -> wp (io_read_record at_ cap) Q E c.
Proof.
  intros [Ht _] Hcap Hin Hb (Hl & H0 & Hbody & Hmax & _) Hfit HQ. pose proof Ht as (_ & Hbl & _). unfold REC_HDR, AEAD_TAG in Hl, Hbody, Hmax.
  assert (Hil : length (inbox (c_io c)) = (length rec + length rest)%nat) by (rewrite Hin; apply length_app).
  unfold io_read_record. destruct (Nat.ltb_spec cap REC_HDR) as [Hlt|_]; [unfold REC_HDR in Hlt; lia|]. rewrite wp_bind.
  apply recv_wire; [unfold REC_HDR; lia|intros E0; rewrite E0 in Hil; cbn [length] in Hil; lia|]. intros k Hk Hki. unfold REC_HDR in Hk.
  destruct (Z.eqb_spec (Z.of_nat k) 0) as [|_]; [lia|]. destruct (Z.ltb_spec (Z.of_nat k) 0) as [|_]; [lia|]. destruct (Z.ltb_spec (Z.of_nat REC_HDR) (Z.of_nat k)) as [Hlt|_]; [unfold REC_HDR in Hlt; lia|]. cbn [orb].
  rewrite Nat2Z.id, wp_bind. assert (Ei : length (inbox (c_io (filled at_ k c))) = (length rec + length rest - k)%nat) by (unfold filled; fields; cbn [inbox]; rewrite length_drop; lia).
  assert (Eb : length (t_buf (c_t (filled at_ k c))) = cfg_buf_len (t_cfg (c_t c))) by (unfold filled; fields; rewrite length_store_bytes; [exact Hbl|rewrite length_fmap, length_take; lia]).
  apply read_exact_wire; [rewrite Ei; unfold REC_HDR; lia|rewrite Eb; unfold REC_HDR; lia|]. unfold REC_HDR. rewrite filled_then by lia.
  replace (k + (5 - k))%nat with 5%nat by lia. wps.
  assert (Eh : u8 <$> take 5 (inbox (c_io c)) = take 5 rec) by (rewrite Hin, take_app_le by lia; by apply u8_bytes, Forall_take).
  assert (Ebuf : forall i, (i < 5)%nat -> t_buf (c_t (filled at_ 5 c)) !!! (at_ + i)%nat = rec !!! i).
  { intros i Hi. unfold filled. fields. rewrite Eh, store_bytes_at by (rewrite ?length_take; lia). rewrite lookup_total_take. by destruct (decide (i < 5)%nat). }
  rewrite !Ebuf by lia. rewrite (Rec.record_length_field rec Hb) by lia. rewrite Hbody. unfold check_body. wps.
  assert (E0' : t_buf (c_t (filled at_ 5 c)) !!! at_ = rec !!! 0%nat) by (rewrite <- (Ebuf 0%nat) by lia; by rewrite Nat.add_0_r).
  assert (Ecfg : t_cfg (c_t (filled at_ 5 c)) = t_cfg (c_t c)) by (unfold filled; by fields). rewrite E0', H0, Ecfg. change (Z.of_nat (rec_body_max REC_APPDATA)) with 16401.
  destruct (Z.ltb_spec 16401 (Z.of_nat (length rec - 5))) as [|_]; [lia|]. destruct (Z.eqb_spec (Z.of_nat (length rec - 5)) 0) as [|_]; [lia|].
  change REC_HDR with 5%nat. destruct (Z.ltb_spec (Z.of_nat (cfg_buf_len (t_cfg (c_t c)))) (Z.of_nat 5 + Z.of_nat (length rec - 5))) as [|_]; [lia|].
  destruct (Z.ltb_spec (Z.of_nat cap) (Z.of_nat 5 + Z.of_nat (length rec - 5))) as [|_]; [lia|]. rewrite Nat2Z.id. wps.
  assert (Ei5 : length (inbox (c_io (filled at_ 5 c))) = (length rec + length rest - 5)%nat) by (unfold filled; fields; cbn [inbox]; rewrite length_drop; lia).
  assert (Eb5 : length (t_buf (c_t (filled at_ 5 c))) = cfg_buf_len (t_cfg (c_t c))) by (unfold filled; fields; rewrite length_store_bytes; [exact Hbl|rewrite length_fmap, length_take; lia]).
  apply read_exact_wire; [rewrite Ei5; lia|rewrite Eb5; lia|]. rewrite filled_then by lia. replace (5 + (length rec - 5))%nat with (length rec) by lia. wps.
  assert (Et : t_buf (c_t (filled at_ (length rec) c)) !!! at_ = rec !!! 0%nat).
  { unfold filled. fields. rewrite Hin, take_app_length, (u8_bytes rec Hb). pose proof (store_bytes_at (t_buf (c_t c)) at_ rec 0 ltac:(lia) ltac:(lia)) as E1. rewrite Nat.add_0_r in E1. exact E1. }
  rewrite Et, H0. exact HQ.
Qed.

(** No record has arrived. *)
Lemma io_read_record_none at_ cap Q E c : (REC_HDR <= cap)%nat -> inbox (c_io c) = [] -> E CH_TCP_AGAIN c -> wp (io_read_record at_ cap) Q E c.
Proof.
  intros Hc Hi HE. unfold io_read_record. destruct (Nat.ltb_spec cap REC_HDR) as [|_]; [lia|]. rewrite wp_bind. apply recv_empty; [exact Hi|].
  rewrite Z.eqb_refl. by wps.
Qed.

(** ** Lemmas: receiving *)

(** A session that waits for records: its receive direction and secret, the
    size of its buffer, what has arrived and what it has not handed over. *)
Definition listens (c : conn) (d : rec_dir) (s : list Z) (cap : nat) (arrived queue : list Z) : Prop :=
  running c /\ t_read_closed (c_t c) = false /\ t_post_fill (c_t c) = 0%nat /\ t_rd (c_t c) = d /\ t_rd_secret (c_t c) = s /\
  cfg_buf_len (t_cfg (c_t c)) = cap /\ inbox (c_io c) = arrived /\ unread (c_t c) = queue.

(** A record sealed under a direction opens under it. *)
Lemma sealed_opens d type pt cap1 d' rec cap2 : Rec.dir_ok d -> byte_ok type -> type <> 0 -> bytes_ok pt -> Z.of_nat (length pt) <= 0x4000 ->
  Rec.rec_seal d type pt cap1 = Some (d', Some rec) -> (length pt + 1 <= cap2)%nat ->
  bytes_ok rec /\ length rec = (length pt + 22)%nat /\ Rec.framed rec cap2 /\ Rec.rec_open d rec cap2 = Some (d', Some (type, pt)) /\ Rec.dir_ok d' /\ d_seq d' = d_seq d + 1.
Proof.
  intros Hd Hty Hnz Hpt Hlen Hseal Hcap. destruct (decide (Rec.seal_fits d (length pt) cap1)) as [Hf|Hno].
  2:{ rewrite Rec.rec_seal_refuses in Hseal; [discriminate|apply Hd|exact Hno]. }
  destruct (Rec.seal_then_open d type pt cap1 cap2 Hd Hty Hnz Hpt Hlen Hf Hcap) as (rec' & Es & Hb & Hl & Eo). rewrite Es in Hseal. injection Hseal as <- <-.
  pose proof (proj1 (Rec.rec_open_accepts d rec' cap2 _ type pt Hd Hb) Eo) as (Hs & Hfr & _). split; [exact Hb|]. split; [exact Hl|]. split; [exact Hfr|]. split; [exact Eo|].
  split; [by apply dir_next|reflexivity].
Qed.

Lemma dispatch_wire c d s cap rec rest ty pt d' Q E : listens c d s cap (rec ++ rest) [] -> bytes_ok rec -> Rec.framed rec cap -> (length rec <= cap)%nat ->
  Rec.rec_open d rec cap = Some (d', Some (ty, pt)) -> Rec.dir_ok d' -> bytes_ok pt -> (length pt <= cap)%nat ->
  (ty = REC_APPDATA /\ (0 < length pt)%nat /\ (forall c', listens c' d' s cap rest pt -> Q () c') \/
   ty = REC_HANDSHAKE /\ (forall c', listens c' d' s cap rest [] -> take (length pt) (t_buf (c_t c')) = pt -> t_key_update_run (c_t c') = t_key_update_run (c_t c) -> wp (hspost_read (length pt)) Q E c')) ->
  wp dispatch_one_record Q E c.
Proof.
  intros (Hc & Ho & Hp & <- & <- & Ecap & Hin & Hu) Hb Hfr Hrl Hopen Hd' Hpt Hpl HQ. unfold dispatch_one_record, upd, alert_is. wps. rewrite Hp. change (0 <? 0)%nat with false. cbv iota. rewrite wp_bind, wp_modify, wp_bind, wp_attempt.
  set (c0 := c <| c_alert := _ |>). pose proof Hc as [Ht Ha]. assert (Hc0 : running c0) by (split; [exact Ht|by cbn]).
  apply (io_read_record_wire 0 _ rec rest cap); [exact Hc0|reflexivity|exact Hin|exact Hb|exact Hfr|by rewrite Ecap|]. cbv iota. rewrite Z.eqb_refl. cbn [negb]. wps.
  assert (Hl0 : length (inbox (c_io c0)) = (length rec + length rest)%nat) by (change (inbox (c_io c0)) with (inbox (c_io c)); rewrite Hin; apply length_app).
  assert (Hib : take (length rec) (inbox (c_io c0)) = rec /\ drop (length rec) (inbox (c_io c0)) = rest) by (change (inbox (c_io c0)) with (inbox (c_io c)); rewrite Hin; split; [apply take_app_length|apply drop_app_length]). destruct Hib as [Hi1 Hi2].
  unfold filled. rewrite Hi1, Hi2, (u8_bytes rec Hb). fields.
  change (c_t c0) with (c_t c). change (outbox (c_io c0)) with (outbox (c_io c)). pose proof Ht as (_ & Hbl & _).
  assert (Et : take (length rec) (store_bytes (t_buf (c_t c)) 0 rec) = rec) by exact (take_store_bytes (t_buf (c_t c)) 0 rec ltac:(lia)).
  rewrite Et, Ecap, wp_call by exact Hopen. wps. cbn [fst snd]. wps. fields.
  set (buf := store_bytes (store_bytes (t_buf (c_t c)) 0 rec) 0 pt).
  assert (Hb1 : running_t ((c_t c) <| t_buf := store_bytes (t_buf (c_t c)) 0 rec |>)) by (apply running_buf; [exact Ht|lia|exact Hb]).
  assert (Hb2 : running_t ((c_t c) <| t_buf := store_bytes (t_buf (c_t c)) 0 rec |> <| t_rd := d' |> <| t_buf := buf |>)) by (apply (running_opened _ d' 0 pt Hb1 Hd' Hpt); fields; lia).
  destruct HQ as [(-> & Hne & HQ)|(-> & HQ)].
  - rewrite Z.eqb_refl. wps. destruct (Nat.ltb_spec 0 (length pt)) as [_|]; [|lia]. wps. fields. apply HQ.
    destruct (opened_queue _ d' pt Hb1 Hd' Hpt ltac:(fields; lia)) as [Hr3 Hu3]. destruct (running_parts _ Hr3) as (G1 & G2 & G3 & G4 & G5 & G6 & _). split; [|fields; split_and!; try assumption; try reflexivity].
    split; fields; [|by cbn]. eapply (running_same _ _ Hr3); fields; first [reflexivity|assumption|idtac]. split; [exact G5|split; [exact G6|by cbn]].
  - cbn [Z.eqb REC_HANDSHAKE REC_APPDATA Pos.eqb]. wps. apply HQ; [|fields; exact (take_store_bytes _ 0 pt ltac:(lia))|by fields].
    split; [split; fields; [exact Hb2|by cbn]|]. fields. split_and!; try assumption; try reflexivity.
    apply (queue_empty _ Hb2). fields. by apply (queue_empty _ Ht).
Qed.

(** The KeyUpdate [hspost_send_key_update] sends, taken. *)
Definition key_update_msg : list Z := [HS_KEY_UPDATE; 0; 0; 1; 0].

Lemma take_key_update_wire c d s cap arrived next d' Q E : listens c d s cap arrived [] -> t_key_update_run (c_t c) < CH_KEY_UPDATE_RUN_MAX ->
  Rec.rec_dir_update s = Some (next, d') -> Rec.dir_ok d' -> (forall c', listens c' d' next cap arrived [] -> Q () c') -> wp (take_key_update [0] true) Q E c.
Proof.
  intros (Hc & Ho & Hp & Hd & <- & Ecap & Hin & Hu) Hrun Hupd Hd' HQ. unfold take_key_update, handle_key_update, upd. cbn [length Nat.eqb negb]. change (1 <? [0] !!! 0%nat) with false. cbv iota. wps.
  destruct (Z.leb_spec CH_KEY_UPDATE_RUN_MAX (t_key_update_run (c_t c))) as [|_]; [lia|]. wps. fields. rewrite wp_call by exact Hupd. wps. cbn [fst snd]. fields.
  change ([0] !!! 0%nat =? 1) with false. cbn [andb]. wps.
  apply HQ. pose proof Hc as [Ht Ha]. destruct (running_parts _ Ht) as (G1 & G2 & G3 & G4 & G5 & G6 & G7). unfold listens. fields. split_and!; try assumption; try reflexivity.
  split; fields; [|exact Ha]. apply (running_same (c_t c)); fields; first [reflexivity|assumption|idtac]. unfold counts_ok. fields. split; [exact G5|]. split; [exact G6|].
  rewrite u8_small; unfold CH_KEY_UPDATE_RUN_MAX, byte_ok in *; lia.
Qed.

Lemma handle_key_update_wire c d s cap arrived next d' Q E : listens c d s cap arrived [] -> (5 <= cap)%nat -> t_key_update_run (c_t c) < CH_KEY_UPDATE_RUN_MAX ->
  Rec.rec_dir_update s = Some (next, d') -> Rec.dir_ok d' -> (forall c', listens c' d' next cap arrived [] -> Q 5%nat c') -> wp (handle_post_handshake key_update_msg) Q E c.
Proof.
  intros Hc Hcap Hrun Hupd Hd' HQ. pose proof Hc as (_ & _ & _ & _ & _ & Ecap & _). unfold handle_post_handshake. change (length key_update_msg) with (S (S (S (S (S O))))). remember (S (S (S (S O)))) as f eqn:Ef. cbn [post_loop].
  change (length key_update_msg - 0 <? 4)%nat with false. cbv iota. rewrite wp_bind, wp_gets.
  change ((key_update_msg !!! (0 + 1)%nat <<64 16) .| (key_update_msg !!! (0 + 2)%nat <<64 8) .| key_update_msg !!! (0 + 3)%nat) with 1. cbv zeta. rewrite Ecap.
  change (16384 <? 1) with false. destruct (Z.ltb_spec (Z.of_nat cap) (4 + 1)) as [|_]; [lia|]. cbn [orb]. change (Z.to_nat 1) with 1%nat. change (length key_update_msg <? 0 + (4 + 1))%nat with false. cbv iota.
  change (key_update_msg !!! 0%nat =? HS_NEW_SESSION_TICKET) with false. change (key_update_msg !!! 0%nat =? HS_KEY_UPDATE) with true. cbv iota.
  change (take 1 (drop (0 + 4) key_update_msg)) with [0]. change (0 + (4 + 1) =? length key_update_msg)%nat with true. rewrite wp_bind.
  apply (take_key_update_wire c d s cap arrived next d'); [exact Hc|exact Hrun|exact Hupd|exact Hd'|]. intros c1 Hc1. subst f. cbn [post_loop]. change (length key_update_msg - (0 + (4 + 1)) <? 4)%nat with true. cbv iota. rewrite wp_ret. by apply HQ.
Qed.

Lemma hspost_read_key_update c d s cap arrived next d' Q E : listens c d s cap arrived [] -> (5 <= cap)%nat -> take 5 (t_buf (c_t c)) = key_update_msg -> t_key_update_run (c_t c) < CH_KEY_UPDATE_RUN_MAX ->
  Rec.rec_dir_update s = Some (next, d') -> Rec.dir_ok d' -> (forall c', listens c' d' next cap arrived [] -> Q () c') -> wp (hspost_read 5) Q E c.
Proof.
  intros Hc Hcap Hmsg Hrun Hupd Hd' HQ. unfold hspost_read, alert_is. rewrite wp_bind, wp_modify, wp_bind, wp_gets, wp_bind, wp_attempt. set (c0 := c <| c_alert := _ |>).
  assert (Hc0 : listens c0 d s cap arrived []) by (destruct Hc as ((Ht & _) & Hc); split; [split; [exact Ht|by cbn]|exact Hc]).
  cbn [drain_run]. change (negb (0 <? CH_QUIET_CAP)%nat) with false. cbv iota. rewrite wp_bind, wp_gets, wp_bind. change (t_buf (c_t c0)) with (t_buf (c_t c)). rewrite Hmsg.
  apply (handle_key_update_wire c0 d s cap arrived next d'); try assumption.
Qed.

(** What is queued is handed over. *)
Lemma data_loop_queued quiet n c d s cap arrived queue E : listens c d s cap arrived queue -> queue <> [] -> (0 < n)%nat ->
  wp (data_loop (S quiet) n) (fun out c' => out = take n queue /\ listens c' d s cap arrived (drop n queue)) E c.
Proof.
  intros (Hc & Ho & Hp & Hd & Hs & Ecap & Hin & <-) Hne Hn. apply data_loop_queue; [exact Hc|exact Hne|]. intros k Hrun Hsk. split; [reflexivity|].
  unfold listens. fields. rewrite Hsk. unfold skipped, with_queue in *. fields. by split_and!.
Qed.

(** Nothing has arrived. *)
Lemma data_loop_again quiet n c d s cap Q : listens c d s cap [] [] -> (REC_HDR <= cap)%nat -> wp (data_loop (S quiet) n) Q (fun rc c' => rc = CH_TCP_AGAIN /\ listens c' d s cap [] []) c.
Proof.
  intros (Hc & Ho & Hp & Hd & Hs & Ecap & Hin & Hu) Hcap. pose proof Hc as [Ht Ha]. cbn [data_loop]. wps. rewrite (proj1 (queue_empty _ Ht) Hu), Nat.ltb_irrefl. wps.
  unfold dispatch_one_record, alert_is. wps. rewrite Hp. change (0 <? 0)%nat with false. cbv iota. rewrite wp_bind, wp_modify, wp_bind, wp_attempt. rewrite Ecap.
  apply io_read_record_none; [exact Hcap|exact Hin|]. cbv iota. rewrite Z.eqb_refl. wps. change (CH_TCP_AGAIN =? CH_ECLOSED) with false. cbv iota. wps. split; [reflexivity|].
  unfold listens. fields. split_and!; try assumption. split; [exact Ht|by cbn].
Qed.

(** A record of data is read, and its bytes handed over. *)
Lemma data_loop_record quiet n c d s cap rec rest pt d' E : listens c d s cap (rec ++ rest) [] -> bytes_ok rec -> Rec.framed rec cap -> (length rec <= cap)%nat ->
  Rec.rec_open d rec cap = Some (d', Some (REC_APPDATA, pt)) -> Rec.dir_ok d' -> bytes_ok pt -> (0 < length pt <= cap)%nat -> (0 < n)%nat ->
  wp (data_loop (S (S quiet)) n) (fun out c' => out = take n pt /\ listens c' d' s cap rest (drop n pt)) E c.
Proof.
  intros Hc Hb Hfr Hrl Hopen Hd' Hpt Hpl Hn. remember (S quiet) as q eqn:Eq. cbn [data_loop]. wps.
  pose proof Hc as ((Ht & _) & _ & _ & _ & _ & _ & _ & Hu). rewrite (proj1 (queue_empty _ Ht) Hu), Nat.ltb_irrefl. wps.
  apply (dispatch_wire c d s cap rec rest REC_APPDATA pt d'); try assumption; [lia|]. left. split; [reflexivity|]. split; [lia|]. intros c1 Hc1. cbv iota. subst q.
  apply (data_loop_queued quiet n c1 d' s cap rest pt); [exact Hc1|intros ->; cbn [length] in Hpl; lia|exact Hn].
Qed.

(** A KeyUpdate is read, and the next records are read under its key. *)
Lemma data_loop_update quiet n c d s cap rec rest d1 next d' Q E : listens c d s cap (rec ++ rest) [] -> bytes_ok rec -> Rec.framed rec cap -> (length rec <= cap)%nat -> (5 <= cap)%nat ->
  Rec.rec_open d rec cap = Some (d1, Some (REC_HANDSHAKE, key_update_msg)) -> Rec.dir_ok d1 -> t_key_update_run (c_t c) < CH_KEY_UPDATE_RUN_MAX ->
  Rec.rec_dir_update s = Some (next, d') -> Rec.dir_ok d' -> (forall c', listens c' d' next cap rest [] -> wp (data_loop quiet n) Q E c') -> wp (data_loop (S quiet) n) Q E c.
Proof.
  intros Hc Hb Hfr Hrl Hcap Hopen Hd1 Hrun Hupd Hd' HQ. cbn [data_loop]. wps. pose proof Hc as ((Ht & _) & _ & _ & _ & _ & _ & _ & Hu). rewrite (proj1 (queue_empty _ Ht) Hu), Nat.ltb_irrefl. wps.
  apply (dispatch_wire c d s cap rec rest REC_HANDSHAKE key_update_msg d1); try assumption; [by repeat (apply Forall_cons_2 || apply Forall_nil_2)|]. right. split; [reflexivity|]. intros c1 Hc1 Hmsg Hr1.
  apply (hspost_read_key_update c1 d1 s cap rest next d'); try assumption. by rewrite Hr1.
Qed.

(** ** What a write sends *)

(** [data] in records under [d], each as full as [limit] lets it be: the bytes
    of the records, and the direction after them. *)
Inductive stream (limit : nat) : rec_dir -> list Z -> list Z -> rec_dir -> Prop :=
  | stream_end d : stream limit d [] [] d
  | stream_record d inner data cap d1 rec wire d' :
      (0 < length inner)%nat -> length inner = Nat.min limit (length inner + length data) -> bytes_ok inner ->
      Rec.rec_seal d REC_APPDATA inner cap = Some (d1, Some rec) -> stream limit d1 data wire d' ->
      stream limit d (inner ++ data) (rec ++ wire) d'.

(** A write of [data]: first the KeyUpdate owed, if a record follows. *)
Inductive sent (limit : nat) (owed : bool) : rec_dir * list Z -> list Z -> list Z -> rec_dir * list Z -> Prop :=
  | sent_data d s data wire d' : owed = false \/ data = [] -> stream limit d data wire d' -> sent limit owed (d, s) data wire (d', s)
  | sent_update d s data cap d1 rec next d2 wire d' : owed = true -> data <> [] ->
      Rec.rec_seal d REC_HANDSHAKE key_update_msg cap = Some (d1, Some rec) -> Rec.rec_dir_update s = Some (next, d2) ->
      stream limit d2 data wire d' -> sent limit owed (d, s) data (rec ++ wire) (d', next).

(** The bytes [data] costs: each record its overhead, and the KeyUpdate. *)
Definition records_for (limit len : nat) : nat := ((len + limit - 1) / limit)%nat.
Definition wire_cost (limit : nat) (owed : bool) (len : nat) : nat :=
  (len + records_for limit len * REC_OVERHEAD + (if owed && negb (len =? 0)%nat then CH_KEY_UPDATE_RECORD_LEN else 0))%nat.

Lemma seal_length d type pt cap d' rec : Rec.dir_ok d -> byte_ok type -> bytes_ok pt -> Rec.rec_seal d type pt cap = Some (d', Some rec) -> length rec = (length pt + 22)%nat.
Proof. intros Hd Ht Hp E. destruct (seal_total_dir d type pt cap Hd Ht Hp) as (d1 & x & E1 & _ & Hx). rewrite E in E1. injection E1 as -> <-. by destruct Hx. Qed.

Lemma records_more limit inner rest : (0 < limit)%nat -> (0 < inner)%nat -> inner = Nat.min limit (inner + rest) -> records_for limit (inner + rest) = S (records_for limit rest).
Proof.
  intros Hl Hi Hm. unfold records_for. destruct (Nat.eq_dec inner limit) as [->|Hne].
  - replace (limit + rest + limit - 1)%nat with ((rest + limit - 1) + 1 * limit)%nat by lia. rewrite Nat.div_add by lia. lia.
  - assert (rest = 0%nat) as -> by lia. rewrite Nat.add_0_r, Nat.add_0_l. rewrite (Nat.div_small (limit - 1)) by lia.
    apply Nat.le_antisymm; [apply Nat.lt_succ_r, Nat.Div0.div_lt_upper_bound; lia|apply Nat.div_le_lower_bound; lia].
Qed.

Lemma stream_length limit d data wire d' : (0 < limit)%nat -> Rec.dir_ok d -> stream limit d data wire d' -> length wire = (length data + records_for limit (length data) * REC_OVERHEAD)%nat.
Proof.
  intros Hl Hd H. revert Hd. induction H as [d|d inner data cap d1 rec wire d' Hi Hm Hb Hseal H IH]; intros Hd.
  - cbn [length]. unfold records_for. rewrite Nat.div_small by lia. lia.
  - rewrite !length_app, (records_more limit _ _ Hl Hi Hm), (seal_length d REC_APPDATA inner cap d1 rec) by (done || by cbn).
    destruct (seal_total_dir d REC_APPDATA inner cap Hd) as (d2 & x & E & Hd2 & _); [by cbn|exact Hb|]. rewrite Hseal in E. injection E as <- _.
    rewrite IH by exact Hd2. unfold REC_OVERHEAD, REC_HDR, AEAD_TAG. lia.
Qed.

Lemma sent_length limit owed k data wire k' : (0 < limit)%nat -> Rec.dir_ok k.1 -> sent limit owed k data wire k' -> length wire = wire_cost limit owed (length data).
Proof.
  intros Hl Hd H. unfold wire_cost. destruct H as [d s data wire d' Hno H|d s data cap d1 rec next d2 wire d' -> Hne Hs Hu H]; cbn [fst] in Hd.
  - rewrite (stream_length limit d data wire d' Hl Hd H). destruct Hno as [->| ->]; cbn [andb length Nat.eqb negb]; rewrite ?andb_false_r; lia.
  - rewrite length_app, (seal_length d REC_HANDSHAKE key_update_msg cap d1 rec Hd) by (first [by cbn|exact Hs|by repeat (apply Forall_cons_2 || apply Forall_nil_2)]).
    destruct (update_total s) as (n2 & dd & E & Hdd). rewrite Hu in E. injection E as <- <-.
    rewrite (stream_length limit d2 data wire d' Hl Hdd H). destruct data as [|b data]; [done|]. cbn [length Nat.eqb negb andb]. change (length key_update_msg) with 5%nat. unfold CH_KEY_UPDATE_RECORD_LEN, REC_OVERHEAD, REC_HDR, AEAD_TAG. lia.
Qed.

(** ** Lemmas: writing *)

(** A session that writes: its send direction and secret, and what it sent. *)
Definition speaks (c : conn) (d : rec_dir) (s : list Z) (out : list Z) : Prop :=
  running c /\ t_wr (c_t c) = d /\ t_wr_secret (c_t c) = s /\ outbox (c_io c) = out.

Lemma write_loop_wire fuel : forall cursor limit c d s out E, speaks c d s out -> t_key_update_owed (c_t c) = false -> at_byte cursor -> Forall bytes_ok cursor -> (length (mjoin cursor) <= fuel)%nat -> (0 < limit <= CH_TX_PT)%nat ->
  d_seq d + Z.of_nat (length (mjoin cursor)) <= UINT64_MAX ->
  wp (write_loop fuel cursor limit) (fun _ c' => exists d' w, speaks c' d' s (out ++ w) /\ stream limit d (mjoin cursor) w d' /\ t_key_update_owed (c_t c') = false) E c.
Proof.
  induction fuel as [|fuel IH]; intros cursor limit c d s out E Hc Ho Hat Hb Hf Hlim Hseq.
  { destruct cursor as [|[|b p] cursor]; cbn [write_loop]; [|done|change (mjoin ((b :: p) :: cursor)) with (b :: p ++ mjoin cursor) in Hf; cbn [length] in Hf; lia].
    wps. exists d, []. rewrite app_nil_r. split; [exact Hc|]. split; [constructor|exact Ho]. }
  destruct cursor as [|p0 cursor0] eqn:Ecur; cbn [write_loop]. { wps. exists d, []. rewrite app_nil_r. split; [exact Hc|]. split; [constructor|exact Ho]. }
  rewrite <- Ecur in *. assert (Hne : cursor <> []) by (by rewrite Ecur). clear p0 cursor0 Ecur. destruct Hc as (Hr & <- & Hs & Hout).
  unfold key_update_before_record, records_before_key_update. wps. rewrite Ho. wps.
  pose proof (copy_record_spec cursor limit) as Hcopy. pose proof (copy_record_more cursor limit Hat Hne ltac:(lia)) as Hmore. destruct (parts_copy_record cursor limit) as [cursor' inner]. cbn [snd] in Hmore.
  destruct Hcopy as (Ej & El & Hat' & Hb'). destruct (Hb' Hb) as [Hb1 Hbi]. apply Hat' in Hat. rewrite Ej, length_app in Hf, El, Hseq.
  pose proof Hr as [Ht Ha]. pose proof Ht as (_ & _ & _ & Htx & _). destruct (running_parts _ Ht) as (Hwr & _). wps. unfold CH_TX_PT in Hlim. change (REC_HDR + CH_TX_STAGE)%nat with 622%nat in Htx.
  destruct (Nat.ltb_spec (length (t_tx (c_t c)) - REC_HDR) (length inner)) as [Hbig|_]; [rewrite Htx in Hbig; unfold REC_HDR in Hbig; lia|].
  assert (Hfit : Rec.seal_fits (t_wr (c_t c)) (length inner) (length (t_tx (c_t c)))) by (unfold Rec.seal_fits, REC_HDR, AEAD_TAG; rewrite Htx; lia).
  destruct (Rec.rec_seal_correct (t_wr (c_t c)) REC_APPDATA inner (length (t_tx (c_t c))) Hwr) as (ct & tag & _ & _ & _ & _ & _ & Es); [by cbn|exact Hbi|exact Hfit|]. set (rec := Rec.header_of _ ++ ct ++ tag) in *. clearbody rec.
  pose proof (seal_length (t_wr (c_t c)) REC_APPDATA inner _ _ rec Hwr ltac:(by cbn) Hbi Es) as Hrl.
  rewrite wp_bind, wp_call by exact Es. unfold upd at 1. wps. cbn [fst snd]. unfold upd. wps. fields. apply io_send_all_wire. cbv iota. rewrite Ej.
  set (c2 := c <| c_t := _ |> <| c_io := _ |>).
  assert (Hd1 : Rec.dir_ok (Rec.next_seq (t_wr (c_t c)))) by (apply dir_next; [exact Hwr|lia]).
  assert (Hc2 : speaks c2 (Rec.next_seq (t_wr (c_t c))) s (out ++ rec)).
  { unfold speaks. subst c2. fields. split_and!; [|reflexivity|exact Hs|cbn [outbox]; by rewrite Hout]. split; fields; [|exact Ha]. apply running_sealed; [exact Ht|exact Hd1|rewrite Hrl, Htx; lia]. }
  eapply wp_mono; [apply (IH cursor' limit c2); [exact Hc2|exact Ho|exact Hat|exact Hb1|lia|unfold CH_TX_PT; lia|cbn [Rec.next_seq d_seq]; lia]| |]; cbv beta; [|done].
  intros [] c3 (d' & w & Hc3 & Hst & Ho3). exists d', (rec ++ w). rewrite app_assoc. split; [exact Hc3|]. split; [|exact Ho3]. by eapply stream_record.
Qed.

Lemma write_loop_owed fuel cursor limit Q E c : cursor <> [] -> t_key_update_owed (c_t c) = true -> t_send_epochs (c_t c) < HSPOST_SEND_EPOCHS_MAX ->
  wp hspost_send_key_update (fun _ c' => t_key_update_owed (c_t c') = false /\ wp (write_loop (S fuel) cursor limit) Q E c') (fun _ _ => False) c -> wp (write_loop (S fuel) cursor limit) Q E c.
Proof.
  intros Hne Ho Hep Hw. destruct cursor as [|p cursor]; [done|]. cbn [write_loop]. rewrite wp_bind. unfold key_update_before_record, records_before_key_update. wps. rewrite Ho.
  destruct (Z.leb_spec HSPOST_SEND_EPOCHS_MAX (t_send_epochs (c_t c))) as [|_]; [lia|]. wps. eapply wp_mono; [exact Hw| |done]; cbv beta. intros [] c' [Ho' Hc']. cbv iota. wps.
  cbn [write_loop] in Hc'. rewrite wp_bind in Hc'. unfold key_update_before_record, records_before_key_update in Hc'. rewrite wp_bind, wp_gets, Ho' in Hc'. exact Hc'.
Qed.

Lemma send_key_update_wire c d s out E : speaks c d s out -> d_seq d < UINT64_MAX -> t_send_epochs (c_t c) < HSPOST_SEND_EPOCHS_MAX ->
  wp hspost_send_key_update (fun _ c' => exists d1 rec next d2, Rec.rec_seal d REC_HANDSHAKE key_update_msg (length (t_tx (c_t c))) = Some (d1, Some rec) /\ Rec.rec_dir_update s = Some (next, d2) /\ d_seq d2 = 0 /\
    speaks c' d2 next (out ++ rec) /\ t_key_update_owed (c_t c') = false) E c.
Proof.
  intros (Hr & <- & <- & Hout) Hseq Hep. pose proof Hr as [Ht Ha]. pose proof Ht as (_ & _ & _ & Htx & _). change (REC_HDR + CH_TX_STAGE)%nat with 622%nat in Htx. destruct (running_parts _ Ht) as (Hwr & _ & _ & _ & Hk).
  assert (Hmb : bytes_ok key_update_msg) by (by repeat (apply Forall_cons_2 || apply Forall_nil_2)).
  assert (Hfit : Rec.seal_fits (t_wr (c_t c)) (length key_update_msg) (length (t_tx (c_t c)))) by (rewrite Htx; change (length key_update_msg) with 5%nat; unfold Rec.seal_fits, REC_HDR, AEAD_TAG; lia).
  destruct (Rec.rec_seal_correct (t_wr (c_t c)) REC_HANDSHAKE key_update_msg (length (t_tx (c_t c))) Hwr) as (ct & tag & _ & _ & _ & _ & _ & Es); [by cbn|exact Hmb|exact Hfit|]. set (rec := Rec.header_of _ ++ ct ++ tag) in *. clearbody rec.
  pose proof (seal_length (t_wr (c_t c)) REC_HANDSHAKE key_update_msg _ _ rec Hwr ltac:(by cbn) Hmb Es) as Hrl. change (length key_update_msg) with 5%nat in Hrl.
  unfold hspost_send_key_update, upd. wps. change [HS_KEY_UPDATE; 0; 0; 1; 0] with key_update_msg. rewrite wp_call by exact Es. wps. cbn [fst snd]. wps. fields. apply io_send_all_wire. cbv iota. wps. fields.
  pose proof (Rec.rec_dir_update_eq (t_wr_secret (c_t c))) as Eu. destruct (Rec.rec_dir_init_correct (expand_label_spec 32 (t_wr_secret (c_t c)) (str "traffic upd") [] 32)) as (d2 & Ed & Hd2 & Hz & _). rewrite Ed in Eu. cbn [mbind option_bind] in Eu.
  rewrite wp_call by exact Eu. wps. cbn [fst snd]. fields. eexists _, rec, _, d2. split; [exact Es|]. split; [exact Eu|]. split; [exact Hz|]. split; [|by fields].
  unfold speaks. fields. split_and!; [|reflexivity|reflexivity|cbn [outbox]; by rewrite Hout]. split; fields; [|exact Ha].
  assert (Hd1 : Rec.dir_ok (Rec.next_seq (t_wr (c_t c)))) by (apply dir_next; [exact Hwr|exact Hseq]).
  pose proof (running_sealed (c_t c) _ rec Ht Hd1 ltac:(rewrite Hrl, Htx; lia)) as Hrs. destruct (running_parts _ Hrs) as (G1 & G2 & G3 & G4 & G5 & G6 & G7).
  apply (running_same _ _ Hrs); fields; first [reflexivity|assumption|idtac]. unfold counts_ok. fields. rewrite u64_small by (unfold u64_ok, HSPOST_SEND_EPOCHS_MAX in *; destruct Hk as [Hk _]; lia).
  split; [destruct Hk as [Hk _]; lia|]. split; [discriminate|apply Hk].
Qed.

Lemma tls_write_parts_wire parts c d s out E : speaks c d s out -> Forall bytes_ok parts -> d_seq d + 1 + Z.of_nat (length (mjoin parts)) <= UINT64_MAX ->
  let limit := Z.to_nat (record_plaintext_max (c_t c)) in
  wp (tls_write_parts parts) (fun _ c' => exists d' s' w, speaks c' d' s' (out ++ w) /\ sent limit (t_key_update_owed (c_t c)) (d, s) (mjoin parts) w (d', s')) E c.
Proof.
  intros Hc Hb Hseq limit. pose proof Hc as (Hr & _). pose proof Hr as [Ht _]. pose proof Ht as (_ & _ & _ & _ & Hst & _ & _ & _ & _ & _ & Hpl & _). destruct (running_parts _ Ht) as (Hwr & _ & _ & _ & Hk & Hko & _).
  assert (Hpos : 0 <= d_seq d) by (destruct Hc as (_ & <- & _); apply Hwr).
  assert (Hlim : (0 < limit <= CH_TX_PT)%nat) by (subst limit; unfold record_plaintext_max, CH_TX_PT; destruct (Z.ltb_spec (t_peer_limit (c_t c)) (Z.of_nat 512)); lia).
  unfold tls_write_parts. wps. rewrite wp_assert by (rewrite Hst; reflexivity). rewrite Hst. change (negb (CH_ST_CONNECTED =? CH_ST_CONNECTED)) with false. cbv iota. fold limit. clearbody limit.
  destruct (skip_empty_spec parts) as (Ej & Hat & Hsb). specialize (Hsb Hb). rewrite <- Ej in *. clear Ej. set (cursor := parts_skip_empty parts) in *. clearbody cursor.
  assert (Hplain : forall c1 d1 s1 out1, speaks c1 d1 s1 out1 -> t_key_update_owed (c_t c1) = false -> d_seq d1 + Z.of_nat (length (mjoin cursor)) <= UINT64_MAX ->
    wp (write_loop (length (mjoin cursor)) cursor limit) (fun _ c' => exists d' w, speaks c' d' s1 (out1 ++ w) /\ stream limit d1 (mjoin cursor) w d') E c1).
  { intros c1 d1 s1 out1 H1 Ho1 Hs1. eapply wp_mono; [apply (write_loop_wire _ cursor limit c1 d1 s1 out1 E); try assumption; lia| |]; cbv beta; [|done]. intros _ c' (d' & w & H2 & H3 & _). by exists d', w. }
  destruct (t_key_update_owed (c_t c)) eqn:Eo; [|].
  - specialize (Hko eq_refl). destruct cursor as [|[|b p] cursor]; [|done|].
    { cbn [mjoin list_join length write_loop]. wps. exists d, s, []. rewrite app_nil_r. split; [exact Hc|]. constructor; [by right|constructor]. }
    set (cur := (b :: p) :: cursor) in *. assert (Hne : mjoin cur <> []) by done. assert (Hcn : cur <> []) by done. assert (Hlen : length (mjoin cur) = S (length (p ++ mjoin cursor))) by done. clearbody cur.
    rewrite Hlen in *. apply write_loop_owed; [exact Hcn|exact Eo|exact Hko|]. eapply wp_mono; [apply (send_key_update_wire c d s out (fun _ _ => False)); [exact Hc|lia|exact Hko]| |]; cbv beta; [|done].
    intros [] c1 (d1 & rec & next & d2 & Es & Eu & Hz & Hc1 & Ho1). split; [exact Ho1|]. eapply wp_mono; [apply (Hplain c1 d2 next (out ++ rec) Hc1 Ho1); rewrite Hz; lia| |]; cbv beta; [|done].
    intros [] c2 (d' & w & Hc2 & Hw). exists d', next, (rec ++ w). rewrite app_assoc. split; [exact Hc2|]. by eapply sent_update.
  - eapply wp_mono; [apply (Hplain c d s out Hc Eo); lia| |]; cbv beta; [|done]. intros [] c2 (d' & w & Hc2 & Hw). exists d', s, w. split; [exact Hc2|]. constructor; [by left|exact Hw].
Qed.

(** ** Lemmas: reading what was sent *)

Lemma tls_read_listens n c d s cap arrived queue Q E : listens c d s cap arrived queue -> (0 < n)%nat -> wp (data_loop CH_QUIET_CAP n) Q E c -> wp (tls_read n) Q E c.
Proof.
  intros ((Ht & _) & Ho & _) Hn H. pose proof Ht as (_ & _ & _ & _ & Hst & _). unfold tls_read. wps. rewrite wp_assert by (rewrite Hst; reflexivity).
  destruct (Nat.eqb_spec n 0) as [|_]; [lia|]. rewrite Hst, Ho. change (CH_ST_CONNECTED =? CH_ST_CLOSED) with false. change (negb (CH_ST_CONNECTED =? CH_ST_CONNECTED)) with false. exact H.
Qed.

Lemma data_loop_stream quiet n limit c d s cap data wire d' queue E : stream limit d data wire d' -> listens c d s cap wire queue -> queue ++ data <> [] -> (0 < n)%nat -> (limit + REC_OVERHEAD <= cap)%nat -> (limit <= CH_TX_PT)%nat ->
  wp (data_loop (S (S quiet)) n) (fun out c' => exists d1 queue' data' wire', out ++ queue' ++ data' = queue ++ data /\ (0 < length out)%nat /\ stream limit d1 data' wire' d' /\ listens c' d1 s cap wire' queue') E c.
Proof.
  intros Hst Hc Hne Hn Hcap Hlim. unfold REC_OVERHEAD, REC_HDR, AEAD_TAG, CH_TX_PT in *. destruct queue as [|b queue].
  - destruct Hst as [d|d inner data cap1 d1 rec wire d' Hi Hm Hb Hseal Hst]; [done|]. pose proof Hc as (Hr & _ & _ & Hd & _). assert (Hdir : Rec.dir_ok d) by (rewrite <- Hd; apply (running_parts _ (proj1 Hr))).
    destruct (sealed_opens d REC_APPDATA inner cap1 d1 rec cap Hdir) as (Hrb & Hrl & Hfr & Hopen & Hd1 & _); [by cbn|done|exact Hb|lia|exact Hseal|lia|].
    eapply wp_mono; [apply (data_loop_record quiet n c d s cap rec wire inner d1 E); try assumption; lia| |]; cbv beta; [|done]. intros out c' [-> Hc'].
    exists d1, (drop n inner), data, wire. rewrite app_assoc, take_drop. split; [reflexivity|]. split; [rewrite length_take; lia|]. by split.
  - eapply wp_mono; [apply (data_loop_queued (S quiet) n c d s cap wire (b :: queue) E); [exact Hc|done|exact Hn]| |]; cbv beta; [|done]. intros out c' [-> Hc'].
    exists d, (drop n (b :: queue)), data, wire. rewrite app_assoc, take_drop. split; [reflexivity|]. split; [rewrite length_take; cbn [length]; lia|]. by split.
Qed.

(** A caller that reads [n] bytes at a time until a code comes back. *)
Fixpoint read_all (fuel n : nat) (c : conn) : option (conn * list Z * Z) :=
  match fuel with
  | O => None
  | S fuel =>
      r ← tls_read n c;
      match r with
      | (c, Ok out) => rest ← read_all fuel n c; let '(c, more, rc) := rest in Some (c, out ++ more, rc)
      | (c, Code rc) => Some (c, [], rc)
      end
  end.

Lemma read_all_stream limit s cap n d' : (0 < n)%nat -> (limit + REC_OVERHEAD <= cap)%nat -> (limit <= CH_TX_PT)%nat ->
  forall fuel c d queue data wire, stream limit d data wire d' -> listens c d s cap wire queue -> (length queue + length data < fuel)%nat ->
  exists c', read_all fuel n c = Some (c', queue ++ data, CH_TCP_AGAIN) /\ listens c' d' s cap [] [].
Proof.
  intros Hn Hcap Hlim. induction fuel as [|fuel IH]; intros c d queue data wire Hst Hc Hf; [lia|]. cbn [read_all]. destruct (queue ++ data) as [|b rest] eqn:Eq.
  - apply app_eq_nil in Eq as [-> ->]. inversion Hst as [d0 E1 E2 E3 E4|d0 inner data0 cap0 d1 rec wire0 d2 Hi Hm Hb Hseal Hst' E1 E2 E3 E4]; subst.
    2:{ apply app_eq_nil in E2 as [-> _]. cbn [length] in Hi. lia. }
    assert (Hw : wp (tls_read n) (fun _ _ => False) (fun rc c' => rc = CH_TCP_AGAIN /\ listens c' d' s cap [] []) c).
    { apply (tls_read_listens n c d' s cap [] []); [exact Hc|exact Hn|]. apply data_loop_again; [exact Hc|unfold REC_OVERHEAD, REC_HDR in *; lia]. }
    apply wp_answer in Hw as (c' & [out|rc] & E & Hx); [done|]. destruct Hx as [-> Hx]. rewrite E. by exists c'.
  - assert (Hne : queue ++ data <> []) by (by rewrite Eq). rewrite <- Eq. clear Eq b rest.
    pose proof (tls_read_listens n c d s cap wire queue _ (fun _ _ => False) Hc Hn (data_loop_stream 30 n limit c d s cap data wire d' queue _ Hst Hc Hne Hn Hcap Hlim)) as Hw.
    apply wp_answer in Hw as (c1 & [out|rc] & E & Hx); [|done]. destruct Hx as (d1 & queue' & data' & wire' & Eo & Hol & Hst' & Hc1). rewrite E. cbn [mbind option_bind].
    assert (Hlen : (length queue' + length data' < fuel)%nat) by (apply (f_equal length) in Eo; rewrite !length_app in Eo; lia).
    destruct (IH c1 d1 queue' data' wire' Hst' Hc1 Hlen) as (c' & E' & Hc'). rewrite E'. cbn [mbind option_bind]. rewrite Eo. by exists c'.
Qed.

Lemma read_all_sent limit owed s cap n c d data wire k' : (0 < n)%nat -> (limit + REC_OVERHEAD <= cap)%nat -> (limit <= CH_TX_PT)%nat -> (CH_KEY_UPDATE_RECORD_LEN <= cap)%nat ->
  sent limit owed (d, s) data wire k' -> listens c d s cap wire [] -> t_key_update_run (c_t c) < CH_KEY_UPDATE_RUN_MAX ->
  exists c', read_all (S (length data)) n c = Some (c', data, CH_TCP_AGAIN) /\ listens c' k'.1 k'.2 cap [] [].
Proof.
  intros Hn Hcap Hlim Hku Hs Hc Hrun. inversion Hs as [d0 s0 data0 wire0 d1 Hno Hst E1 E2 E3 E4|d0 s0 data0 cap1 d1 rec next d2 w d' Howed Hne Hseal Hupd Hst E1 E2 E3 E4]; subst; cbn [fst snd].
  - exact (read_all_stream limit s cap n d1 Hn Hcap Hlim (S (length data)) c d [] data wire Hst Hc ltac:(cbn [length]; lia)).
  - pose proof Hc as (Hr & _ & _ & Hd & _). assert (Hdir : Rec.dir_ok d) by (rewrite <- Hd; apply (running_parts _ (proj1 Hr))). unfold CH_KEY_UPDATE_RECORD_LEN, REC_OVERHEAD, REC_HDR, AEAD_TAG in Hku.
    assert (Hmb : bytes_ok key_update_msg) by (by repeat (apply Forall_cons_2 || apply Forall_nil_2)).
    destruct (sealed_opens d REC_HANDSHAKE key_update_msg cap1 d1 rec cap Hdir) as (Hrb & Hrl & Hfr & Hopen & Hd1 & _); [by cbn|done|exact Hmb|by cbn|exact Hseal|change (length key_update_msg) with 5%nat; lia|]. change (length key_update_msg) with 5%nat in Hrl.
    destruct (update_total s) as (n2 & dd & E & Hdd). rewrite Hupd in E. injection E as <- <-.
    assert (Hw : wp (tls_read n) (fun out c1 => exists dx queue' data' wire', out ++ queue' ++ data' = data /\ (0 < length out)%nat /\ stream limit dx data' wire' d' /\ listens c1 dx next cap wire' queue') (fun _ _ => False) c).
    { apply (tls_read_listens n c d s cap (rec ++ w) []); [exact Hc|exact Hn|]. apply (data_loop_update 31 n c d s cap rec w d1 next d2); try assumption; [lia|lia|]. intros c1 Hc1.
      exact (data_loop_stream 29 n limit c1 d2 next cap data w d' [] _ Hst Hc1 Hne Hn Hcap Hlim). }
    apply wp_answer in Hw as (c1 & [out|rc] & E & Hx); [|done]. destruct Hx as (dx & queue' & data' & wire' & Eo & Hol & Hst' & Hc1).
    assert (Hlen : (length queue' + length data' < length data)%nat) by (apply (f_equal length) in Eo; rewrite !length_app in Eo; lia).
    destruct (read_all_stream limit next cap n d' Hn Hcap Hlim (length data) c1 dx queue' data' wire' Hst' Hc1 Hlen) as (c' & E' & Hc').
    exists c'. cbn [read_all]. rewrite E. cbn [mbind option_bind]. rewrite E'. cbn [mbind option_bind]. by rewrite Eo.
Qed.
End Pair.

(** ** Lemmas: what fits *)

Lemma records_for_spec limit k : (0 < limit)%nat -> let q := Z.of_nat (records_for limit k) in
  Z.of_nat k <= q * Z.of_nat limit /\ (0 < Z.of_nat k -> (q - 1) * Z.of_nat limit < Z.of_nat k)%Z.
Proof.
  intros Hl q. subst q. unfold records_for. pose proof (Nat.div_mod (k + limit - 1) limit ltac:(lia)) as E. pose proof (Nat.mod_upper_bound (k + limit - 1) limit ltac:(lia)) as Hr.
  set (q := ((k + limit - 1) / limit)%nat) in *. set (r := ((k + limit - 1) mod limit)%nat) in *. clearbody q r. split; [nia|]. intros Hk. nia.
Qed.

Section Fit.
Context (w : Z) (Hw : 32 <= w).

Lemma size_max : 2 ^ 32 <= 2 ^ w.
Proof. apply Z.pow_le_mono_r; lia. Qed.
Lemma wrap_id x : 0 <= x < 2 ^ w -> wrap w x = x.
Proof. intros H. unfold wrap. by apply Z.mod_small. Qed.

(** The plaintext, and the records, that [cap] bytes hold: no arithmetic wraps. *)
Lemma records_fill_spec limit cap : (0 < limit)%nat -> 0 <= cap < 2 ^ w ->
  let '(fill, records) := records_fill w cap (Z.of_nat limit) in
  0 <= fill <= cap /\ 0 <= records < 2 ^ w /\ (records = 0 -> fill = 0) /\
  forall k, Z.of_nat k + Z.of_nat (records_for limit k) * 22 <= cap <-> Z.of_nat k <= fill.
Proof.
  intros Hl Hc. pose proof size_max as Hp. unfold records_fill, OVERHEAD. change (Z.of_nat REC_OVERHEAD) with 22. set (P := 2 ^ w) in *. set (L := Z.of_nat limit) in *. assert (HL : 0 < L) by lia.
  pose proof (Z.div_mod cap (L + 22) ltac:(lia)) as E. pose proof (Z.mod_pos_bound cap (L + 22) ltac:(lia)) as Hr. assert (Hw0 : 0 <= cap / (L + 22)) by (apply Z.div_pos; lia).
  set (n := cap / (L + 22)) in *. set (r := cap mod (L + 22)) in *. clearbody n r. assert (Hn : n * 23 <= cap) by nia. assert (HnL : 0 <= n * L <= cap) by nia.
  rewrite (wrap_id (n * L)), (wrap_id (n + 1)), (wrap_id ((n + 1) * 22)) by (fold P; lia).
  assert (Hfits : forall fill, 0 <= fill -> (fill = n * L /\ cap - (n + 1) * 22 <= n * L \/ fill = cap - (n + 1) * 22 /\ n * L < cap - (n + 1) * 22) ->
    forall k, Z.of_nat k + Z.of_nat (records_for limit k) * 22 <= cap <-> Z.of_nat k <= fill).
  { intros fill Hf Hcase k. destruct (records_for_spec limit k Hl) as [H1 H2]. fold L in H1, H2. destruct k as [|k]; [unfold records_for; rewrite Nat.div_small by lia; lia|]. specialize (H2 ltac:(lia)).
    set (q := Z.of_nat (records_for limit (S k))) in *. assert (Hq : 0 <= q) by lia. clearbody q. set (x := Z.of_nat (S k)) in *. clearbody x. split; intros H.
    - destruct (Z.le_gt_cases q n) as [Hqn|Hqn]; [nia|]. destruct (Z.eq_dec q (n + 1)) as [->|Hq1]; [lia|]. assert (n + 2 <= q) by lia. nia.
    - destruct Hcase as [[-> Hle]|[-> Hlt]]; [assert (q <= n) by nia; nia|]. assert (q <= n + 1) by nia. nia. }
  destruct (Z.ltb_spec ((n + 1) * 22) cap) as [H1|H1].
  - destruct (Z.ltb_spec (n * L) (cap - (n + 1) * 22)) as [H2|H2].
    + split; [lia|]. split; [lia|]. split; [lia|]. apply Hfits; [lia|]. right. by split.
    + split; [lia|]. split; [lia|]. split; [intros ->; lia|]. apply Hfits; [lia|]. left. by split.
  - destruct (Z.ltb_spec (n * L) 0) as [H2|H2]; [lia|]. split; [lia|]. split; [lia|]. split; [intros ->; lia|]. apply Hfits; [lia|]. left. split; [reflexivity|lia].
Qed.

Lemma writable_len_fits t cap : 1 <= t_peer_limit t -> 0 <= cap < 2 ^ w -> let limit := Z.to_nat (record_plaintext_max t) in
  0 <= tls_writable_len w t cap <= cap /\ forall k, Z.of_nat (wire_cost limit (t_key_update_owed t) k) <= cap <-> Z.of_nat k <= tls_writable_len w t cap.
Proof.
  intros Hp Hc limit. pose proof size_max as Hs. assert (Hlim : Z.of_nat limit = record_plaintext_max t /\ (0 < limit)%nat).
  { subst limit. unfold record_plaintext_max, CH_TX_PT. destruct (Z.ltb_spec (t_peer_limit t) (Z.of_nat 512)); lia. }
  destruct Hlim as [El Hl]. unfold tls_writable_len. rewrite <- El. destruct (Z.eqb_spec (Z.of_nat limit) 0) as [|_]; [lia|]. pose proof (records_fill_spec limit cap Hl Hc) as Hf.
  destruct (records_fill w cap (Z.of_nat limit)) as [fill records]. destruct Hf as (Hf & Hr & Hz & Hk). unfold records_before_key_update, wire_cost. change REC_OVERHEAD with 22%nat. change CH_KEY_UPDATE_RECORD_LEN with 27%nat.
  destruct (t_key_update_owed t); cbn [andb].
  - change (Z.of_nat 0) with 0. destruct (Z.ltb_spec 0 records) as [Hrec|Hrec].
    + unfold fill_across_key_update. change (Z.of_nat CH_KEY_UPDATE_RECORD_LEN) with 27. rewrite !Z.mul_0_l. rewrite (wrap_id 0) by lia. rewrite Z.sub_0_r, (wrap_id cap) by lia.
      set (rest := if 27 <? cap then cap - 27 else 0). assert (Hrest : 0 <= rest <= cap /\ (27 <= cap -> rest = cap - 27) /\ (cap <= 27 -> rest = 0)) by (subst rest; destruct (Z.ltb_spec 27 cap); lia). clearbody rest. destruct Hrest as (Hrest & Hre & Hre0).
      pose proof (records_fill_spec limit rest Hl ltac:(lia)) as Hf2. destruct (records_fill w rest (Z.of_nat limit)) as [after rec2]. destruct Hf2 as (Hf2 & Hr2 & Hz2 & Hk2).
      destruct (Z.ltb_spec (SIZE_MAX w) rec2) as [Hbig|_]; [unfold SIZE_MAX in Hbig; lia|]. rewrite Z.add_0_l, wrap_id by lia. split; [lia|]. intros k. specialize (Hk2 k). destruct (Nat.eqb_spec k 0) as [->|Hk0]; cbn [negb].
      * unfold records_for. rewrite Nat.div_small by lia. lia.
      * destruct (Z.le_gt_cases 27 cap) as [H27|H27]; [rewrite (Hre H27) in *; lia|]. rewrite (Hre0 ltac:(lia)) in *. lia.
    + rewrite Hz by lia. split; [lia|]. intros k. specialize (Hk k). rewrite Hz in Hk by lia. destruct (Nat.eqb_spec k 0) as [->|Hk0]; cbn [negb]; lia.
  - destruct (Z.ltb_spec (SIZE_MAX w) records) as [Hbig|_]; [unfold SIZE_MAX in Hbig; lia|]. split; [lia|]. intros k. specialize (Hk k). lia.
Qed.
End Fit.

(** ** Properties *)

Section Properties.
Context {aead : AeadOps} {laws : AeadLaws aead} {pieces : Pieces}.

(** The session after [w] arrived. *)
Definition deliver (w : list Z) (c : conn) : conn := c <| c_io := Wires (inbox (c_io c) ++ w) (outbox (c_io c)) |>.
(** [c2] reads what [c1] writes: their directions agree, and [c2] has read up to
    here. *)
Definition in_step (c1 c2 : conn) : Prop :=
  t_rd (c_t c2) = t_wr (c_t c1) /\ t_rd_secret (c_t c2) = t_wr_secret (c_t c1) /\ t_read_closed (c_t c2) = false /\ t_post_fill (c_t c2) = 0%nat /\
  unread (c_t c2) = [] /\ inbox (c_io c2) = [].

(** C7. What one side writes the other reads.  Over a transport that moves any
    part of what each call asks, [tls_write_parts] on a running session sends the
    bytes of its parts, in records no longer than the peer's limit, after the
    KeyUpdate it owes; the wire bytes are the data, 22 for each record and 27 for
    the KeyUpdate; and a peer in step that has room for those records, reading [n]
    bytes at a time, is handed exactly the data before CH_TCP_AGAIN, after which
    the two are in step again. *)
Theorem written_data_is_read (c1 c2 : conn) (parts : list (list Z)) (n : nat) (H1 : running c1) (H2 : running c2) (Hkeys : in_step c1 c2)
    (Hrun : t_key_update_run (c_t c2) < CH_KEY_UPDATE_RUN_MAX)
    (Hroom : record_plaintext_max (c_t c1) + Z.of_nat REC_OVERHEAD <= Z.of_nat (cfg_buf_len (t_cfg (c_t c2))))
    (Hparts : Forall bytes_ok parts) (Hn : (0 < n)%nat) (Hseq : d_seq (t_wr (c_t c1)) + 1 + Z.of_nat (length (mjoin parts)) <= UINT64_MAX) :
  exists c1' w c2', tls_write_parts parts c1 = Some (c1', Ok ()) /\ outbox (c_io c1') = outbox (c_io c1) ++ w /\
    length w = wire_cost (Z.to_nat (record_plaintext_max (c_t c1))) (t_key_update_owed (c_t c1)) (length (mjoin parts)) /\
    read_all (S (length (mjoin parts))) n (deliver w c2) = Some (c2', mjoin parts, CH_TCP_AGAIN) /\ running c1' /\ running c2' /\ in_step c1' c2'.
Proof.
  destruct Hkeys as (Hd & Hs & Ho & Hp & Hu & Hi). pose proof H1 as [Ht1 _]. pose proof H2 as [Ht2 _]. destruct (running_parts _ Ht1) as (Hw & _).
  pose proof Ht1 as (_ & _ & _ & _ & _ & _ & _ & _ & _ & _ & Hl & _). pose proof Ht2 as ((_ & Hmin & _) & _). unfold CH_MIN_RXBUF in Hmin.
  assert (Hlim : Z.of_nat (Z.to_nat (record_plaintext_max (c_t c1))) = record_plaintext_max (c_t c1) /\ (0 < Z.to_nat (record_plaintext_max (c_t c1)) <= CH_TX_PT)%nat).
  { unfold record_plaintext_max, CH_TX_PT. destruct (Z.ltb_spec (t_peer_limit (c_t c1)) (Z.of_nat 512)); lia. }
  destruct Hlim as [El Hlim]. set (limit := Z.to_nat (record_plaintext_max (c_t c1))) in *.
  pose proof (tls_write_parts_wire parts c1 (t_wr (c_t c1)) (t_wr_secret (c_t c1)) (outbox (c_io c1)) (fun _ _ => False)) as Hwp. cbv zeta in Hwp. fold limit in Hwp.
  specialize (Hwp ltac:(by split_and!) Hparts Hseq). apply wp_answer in Hwp as (c1' & [[]|rc] & E1 & Hx); [|done]. destruct Hx as (d' & s' & w & (Hr1 & Hd1 & Hs1 & Hout) & Hsent).
  assert (Hlisten : listens (deliver w c2) (t_wr (c_t c1)) (t_wr_secret (c_t c1)) (cfg_buf_len (t_cfg (c_t c2))) w []).
  { unfold listens, deliver. fields. cbn [inbox]. rewrite Hi. split_and!; try assumption; reflexivity. }
  destruct (read_all_sent limit _ (t_wr_secret (c_t c1)) (cfg_buf_len (t_cfg (c_t c2))) n (deliver w c2) (t_wr (c_t c1)) (mjoin parts) w (d', s') Hn ltac:(lia) ltac:(lia) ltac:(unfold CH_KEY_UPDATE_RECORD_LEN, REC_OVERHEAD, REC_HDR, AEAD_TAG; lia) Hsent Hlisten Hrun) as (c2' & E2 & Hr2 & Ho2 & Hp2 & Hd2 & Hs2 & _ & Hi2 & Hu2).
  cbn [fst snd] in Hd2, Hs2. exists c1', w, c2'. split; [exact E1|]. split; [exact Hout|]. split; [exact (sent_length limit _ (_, _) _ w _ ltac:(lia) Hw Hsent)|]. split; [exact E2|]. split; [exact Hr1|]. split; [exact Hr2|].
  unfold in_step. rewrite Hd2, Hs2, Hd1, Hs1. by split_and!.
Qed.

(** C28. The most a write fits.  For a [size_t] of 32 bits or more, [tls_writable_len]
    is exactly the most plaintext whose records, and the KeyUpdate owed before
    them, fit in [cap] bytes, at the cost [written_data_is_read] states; no sum or
    product wraps. *)
Theorem writable_len_exact (w : Z) (t : ch_tls) (cap : Z) (Hw : 32 <= w) (Hp : 1 <= t_peer_limit t) (Hc : 0 <= cap < 2 ^ w) :
  let m := tls_writable_len w t cap in let limit := Z.to_nat (record_plaintext_max t) in
  0 <= m <= cap /\ forall k : nat, Z.of_nat (wire_cost limit (t_key_update_owed t) k) <= cap <-> Z.of_nat k <= m.
Proof. exact (writable_len_fits w Hw t cap Hp Hc). Qed.
End Properties.

(** ** Witnesses *)

#[local] Existing Instance Aead.chacha20_poly1305.
#[local] Existing Instance Aead.chacha20_poly1305_laws.
#[local] Existing Instance by_three.
#[local] Opaque hmac_of expand_label_spec sha256_spec X25519.x25519 X25519.x25519_base transcript_update transcript_init transcript_hash_after
  absorbed dir_of hs_secret c_hs_secret s_hs_secret app_secret finished_mac zero_bytes store_bytes.

(** A writer that owes an answer, and its peer. *)
Definition owing (c : conn) : conn := c <| c_t := (c_t c) <| t_key_update_owed := true |> <| t_peer_limit := 63 |> |>.
Definition facing (c : conn) : conn := c <| c_t := (c_t c) <| t_rd := t_wr (c_t c) |> <| t_rd_secret := t_wr_secret (c_t c) |> |>.
Definition example_writer : conn := owing (example_conn [1; 2] []).
Definition example_reader : conn := facing (example_conn [1; 2] []).

Lemma owing_running c : running c -> t_send_epochs (c_t c) = 0 -> running (owing c).
Proof.
  intros [Ht Ha] Hz. unfold owing. split; fields; [|exact Ha].
  destruct Ht as (H1 & H2 & H3 & H4 & H5 & H6 & H7 & H8 & H9 & H10 & _ & H12 & _ & H13).
  unfold running_t, counts_ok. fields. rewrite Hz in *. split; [exact H1|]. split; [exact H2|]. split; [exact H3|]. split; [exact H4|]. split; [exact H5|]. split; [exact H6|]. split; [exact H7|].
  split; [exact H8|]. split; [exact H9|]. split; [exact H10|]. split; [lia|]. split; [exact H12|]. split; [intros _; reflexivity|exact H13].
Qed.
Lemma facing_running c : running c -> running (facing c).
Proof.
  intros [Ht Ha]. unfold facing. split; fields; [|exact Ha]. destruct (running_parts _ Ht) as (H1 & H2 & H3 & H4 & H5).
  apply (running_same (c_t c)); fields; first [reflexivity|assumption|exact H5].
Qed.
Lemma owing_facing c : t_read_closed (c_t c) = false -> t_post_fill (c_t c) = 0%nat -> unread (c_t c) = [] -> inbox (c_io c) = [] -> in_step (owing c) (facing c).
Proof. intros H1 H2 H3 H4. unfold in_step, owing, facing. fields. by split_and!. Qed.

Lemma written_data_is_read_witness : exists c1' w c2', tls_write_parts [[104; 105]; []; replicate 100 33] example_writer = Some (c1', Ok ()) /\ length w = 173%nat /\
  read_all 103 10 (deliver w example_reader) = Some (c2', [104; 105] ++ replicate 100 33, CH_TCP_AGAIN).
Proof.
  assert (Hp : Forall bytes_ok [[104; 105]; []; replicate 100 33]) by (apply (bool_decide_unpack _); vm_compute; exact I).
  assert (Hk : in_step example_writer example_reader) by (apply owing_facing; reflexivity).
  destruct (written_data_is_read example_writer example_reader [[104; 105]; []; replicate 100 33] 10 (owing_running _ (example_running _ _) eq_refl) (facing_running _ (example_running _ _)) Hk) as (c1' & w & c2' & E1 & _ & El & E2 & _).
  - reflexivity.
  - by cbn.
  - exact Hp.
  - lia.
  - by cbn.
  - exists c1', w, c2'. split; [exact E1|]. split; [exact El|exact E2].
Defined.

Lemma writable_len_exact_witness : tls_writable_len 32 (zero_tls <| t_peer_limit := 100 |>) 1000 = 802 /\
  Z.of_nat (wire_cost 100 false 802) <= 1000 /\ ~ Z.of_nat (wire_cost 100 false 803) <= 1000.
Proof.
  assert (E : tls_writable_len 32 (zero_tls <| t_peer_limit := 100 |>) 1000 = 802) by (vm_compute; reflexivity).
  destruct (writable_len_exact 32 (zero_tls <| t_peer_limit := 100 |>) 1000) as [_ H]; [lia|by cbn|by cbn|]. rewrite E in H. split; [exact E|].
  split; [apply H; lia|]. intros Hk. apply (proj1 (H 803%nat)) in Hk. lia.
Defined.
End Peers.
